(* ===== verification/_CoqProject ===== *)
-Q . S2P
Prelude.v
OsMap.v
OsMapInv.v
OsMapInsert.v
OsMapFind.v
OsMapRemove.v
OsMapSpec.v
OsMapThms.v
BlockRuntime.v
BlockCount.v
BlockOwn.v
BlockRelease.v
BlockCopy.v
BlockThms.v
DispatchData.v
DataSpec.v
DataOps.v
DataVisit.v
DataThms.v
Transform.v
TransformBase.v
TransformBase32.v
TransformUtf.v
TransformThms.v
StrTo.v
StrToSpec.v
StrToThms.v
Encoding.v
EncodingText.v
AsciiPath.v
Utf8.v
Utf8Decode.v
Utf8Strings.v
Utf8Thms.v
Utf2.v
SingleByte.v
DoubleByte.v
Gb.v
Euc.v
Multibyte.v
MultibyteThms.v
EncodingThms.v
Sort.v
SortBase.v
HeapThms.v
QsortPart.v
SortThms.v
Merge.v
MergeRun.v
MergeThms.v
Radix.v
RadixBins.v
RadixDeal.v
RadixThms.v
Search.v
Tree.v
TreeSpec.v
TreeOps.v
TreeThms.v
HSearch.v
HSearchTable.v
HSearchThms.v
Conc.v
Semaphore.v
SemaphoreInv.v
SemaphoreThms.v
Ulock.v
Lock.v
LockInv.v
LockThms.v
UnfairLock.v
UnfairInv.v
UnfairThms.v
Once.v
OnceInv.v
OnceThms.v
Group.v
GroupInv.v
GroupThms.v
ThreadEvent.v
