(* ===== verification/Prelude.v ===== *)
(** * A verification of C components of Apple's system libraries

    ** What is modelled

    The repository collects the sources of Apple's Objective-C runtime and of
    the libraries under it (directory [src]).  This development models C
    components of [Libc-1439.100.3], [libdispatch-1271.100.5] and
    [libplatform-254.80.2], and what these call in the kernel, [xnu-7195.101.1]:

    - the hash tables [os_map_*] of [Libc/collections]: Robin Hood hashing with
      backward-shift deletion, a template over four key types;
    - the Blocks runtime of [libdispatch/src/BlocksRuntime]: reference-counted
      closures and shared [__block] variables on the stack and the heap;
    - [libdispatch/src/data.c]: immutable byte ranges as trees of records;
    - [libdispatch/src/transform.c]: base32, base32hex, base64, UTF-8 and UTF-16
      transforms of such data;
    - the integer conversions [strtol], ..., [wcstoumax], [strtonum], [atoi] of
      [Libc/stdlib] and [Libc/locale];
    - ten multibyte encodings of [Libc/locale] (UTF-8, UTF2, NONE, ASCII, GBK,
      Big5, Shift JIS, GB 2312, GB 18030, EUC), and the conversions over them that
      programs call ([mbrtowc], [mbstowcs], [wctomb], [btowc] and the others);
    - [qsort], [heapsort], [mergesort], [radixsort], [sradixsort] and [bsearch] of
      [Libc/stdlib];
    - the search trees ([tsearch], [tfind], [tdelete], [twalk]), the hash table
      ([hcreate], [hsearch], [hdestroy]), the linear search ([lsearch], [lfind])
      and the queues ([insque], [remque]) of [search.h], from [Libc/stdlib];
    - the synchronisation primitives of libdispatch: semaphores and groups
      ([src/semaphore.c]), unfair locks, [dispatch_once] and thread events
      ([src/shims/lock.h], [src/shims/lock.c], [src/once.c]), with the user locks
      ([bsd/kern/sys_ulock.c]) and Mach semaphores ([osfmk/kern/sync_sema.c])
      of the kernel, on which their threads sleep;
    - the locks of libplatform ([src/os/lock.c]): [os_unfair_lock], the recursive
      unfair lock and the lock without spinning, on the same user locks.

    The transforms are clients of the data component: they visit its regions and
    map its subranges.  The data component is a client of the Blocks runtime in
    the code (destructors are blocks); here a destructor is a value that is
    logged when it runs.  The multibyte conversions reach an encoding through the
    function pointers of a locale; the description of an EUC locale is read with
    [strtol]; [qsort] falls back on [heapsort].  Locks, once-gates and groups are
    clients of the user locks of the kernel, semaphores of its semaphores.

    ** Files

    - [Prelude]: outcomes of C code, machine integers, bit arithmetic, arrays,
      tactics and hints shared by all.
    - [OsMap] (model), [OsMapInv], [OsMapInsert], [OsMapFind], [OsMapRemove]
      (the invariant and one operation each), [OsMapSpec] (the abstract finite
      map), [OsMapThms].  The state is a [Record os_map] as in
      [collections_map.in.c]; the class [MapKey] is what the template asks of a
      key type, [MapKeyLaws] what the proofs ask of it.
    - [BlockRuntime] (model), [BlockCount] (the reference count word and the
      interleavings of its compare-and-swap loops), [BlockOwn], [BlockRelease],
      [BlockCopy] (ownership of heap objects), [BlockThms].  The heap is a
      finite map from addresses to blocks and byrefs.
    - [DispatchData] (model), [DataSpec] (the bytes an object stands for),
      [DataOps], [DataVisit], [DataThms].  The state is a finite map of
      reference-counted objects and a log of effects.
    - [Transform] (model), [TransformBase], [TransformBase32], [TransformUtf],
      [TransformThms].
    - [StrTo] (model), [StrToSpec] (numbers without bounds), [StrToThms].
    - [Encoding] (the interface of an encoding, as function pointers, and the
      standard string conversions over it), [EncodingText] (the class
      [EncodingLaws] of what an encoding promises, and strings over it).
      [AsciiPath] (the string conversions of UTF-8 and UTF2, with a fast path
      for ASCII, and what allows it).  [Utf8] (model), [Utf8Decode] (well-formed
      UTF-8), [Utf8Strings], [Utf8Thms].  The other encodings have a file each for
      the model and its laws: [Utf2]; [SingleByte] (NONE, ASCII); [DoubleByte]
      (GBK, Big5, Shift JIS: a lead byte and a second one); [Gb] (GB 2312,
      GB 18030: bytes collected in a buffer); [Euc].
      [Multibyte] (model of the conversions, over a process with locale objects
      and their conversion states), [MultibyteThms], [EncodingThms].
    - [Sort] (model), [SortBase], [HeapThms], [QsortPart],
      [SortThms].  An array is a list, a pointer into it an index.  [Merge]
      (model), [MergeRun], [MergeThms]: mergesort, whose buffers hold elements
      and, in the same bytes, pointers from run to run.  [Radix] (model),
      [RadixBins] (keys, the insertion sort, histograms and bins), [RadixDeal]
      (dealing the strings to their bins, in place and from a copy), [RadixThms]
      (the stack of bins and the two sorts).
    - [Search] (linear search and queues, model and theorems).
    - [Tree] (model), [TreeSpec] (trees as data and their shape in memory),
      [TreeOps], [TreeThms].  The memory is a finite map of nodes
      and the callers' root variables; a pointer to a pointer is a [link].
    - [HSearch] (model), [HSearchTable] (the buckets in memory), [HSearchThms].
      The state is the static variables of [hcreate.c], the entries and the
      strings of the keys.
    - [Conc]: threads over a shared state, their interleavings, and the
      compare-and-swap loops of [src/shims/atomic.h].  A component gives its
      shared state, the places of a thread ([pc]) and [next], the outcomes of
      the next atomic step of a thread.
    - [Semaphore] (model of the semaphores of libdispatch and of Mach),
      [SemaphoreInv], [SemaphoreThms].
    - [Ulock] (model of the user locks of the kernel).
    - [Lock] (model, with the lock word and the queue of an address), [LockInv],
      [LockThms]; [UnfairLock] (model of the locks of libplatform), [UnfairInv],
      [UnfairThms]; [Once] (model), [OnceInv], [OnceThms]; [Group] (model, with
      the word of a group), [GroupInv], [GroupThms]; [ThreadEvent] (model and
      theorem).

    ** Conventions

    A C function is a Rocq function in the error monad [res]: an assertion that
    fires, an access out of bounds, a division by zero, a shift out of range and
    the end of the fuel are [Crash] values, so that a theorem that a call is [Ok] says that none of
    them happens.  Machine integers are [Z] with the wrap-around written out
    ([u32], [u64], [s32]).  Loops are structural recursions on what they consume
    where there is such a thing, and otherwise take fuel: the number of slots of
    a table, of objects of a heap or of bytes left.  The theorems give fuel that
    is enough or hold for the fuel the model itself supplies.

    The primitives of libdispatch run as any number of threads, each with any
    list of calls to make.  A step is one atomic operation, or what the kernel
    does under one of its locks; memory is sequentially consistent.  A
    compare-and-swap loop of [os_atomic_rmw_loop] is one step, which
    [Conc.rmw_loop_atomic] and [Conc.rmw_loop_ends] justify.  A time-out may
    happen at any moment; signals interrupt sleeping threads a number of times
    that is a parameter of the start, without which no run needs to end.  That
    a run ends is [sn], that it cannot go on is [nf]: the theorems bound every
    run by a measure and say what holds at its end.

    ** What is proved

    - A hash table whose size is a power of two from 32 to 65536 refines a finite
      map, keeps its invariant, passes its own self check, and iterates over
      each entry once; so does a default map of at most 51 entries, which is as
      many as it takes before it is grown from 64 slots to 96.  With sizes that are
      not powers of two it loses keys, which is proved by a run.
    - Under any interleaving of releases and retain attempts a block is
      deallocated once, by the last release; copying gives each captured
      variable what its kind requires and moves [__block] variables with their
      values; copying and releasing keep the ownership of all heap objects
      consistent.
    - Each data operation denotes the operation on byte strings its name says
      (reference counts of data objects are modelled and not part of what is
      proved).
    - The base encodings equal RFC 4648, with its alphabets, and are inverted by
      their decoders, that of base64 in whatever regions it gets the text as long
      as the padding is in the last; the decoders stay within their buffers; the UTF transforms are inverse to each other on
      text in one region.  Where the code goes wrong on text in several regions,
      on padding and on base32hex, a run proves it.
    - The integer conversions equal a specification on unbounded integers and
      strings of digits.
    - The UTF-8 decoder accepts exactly well-formed sequences, at the earliest
      byte, and is inverted by the encoder; the string conversions with their
      fast paths equal the standard ones.
    - Every encoding keeps the promise [EncodingLaws] for its codes, described by
      byte ranges (for GBK, Big5 and Shift JIS those the library takes, which are
      more than the manual pages list), and from it alone: strings
      survive the conversion to bytes and back, [btowc] and [wctob] are inverse,
      and [mbtowc], [mblen] and [wctomb] keep their hidden state in order, with
      characters in pieces, errors and resets.  The
      decoders with a state can be given a character in pieces.
    - [qsort], [heapsort] and [mergesort] stay within the array and permute it
      for every comparison, and sort it for a consistent one ([qsort] if the
      memory for heapsort is there should it need that), [mergesort] so
      that equal elements keep their order and without ever reading bytes that
      have been put to the other use; [bsearch] then finds what there is.
    - [radixsort] and [sradixsort] sort arrays of strings by the weights of a
      table or by their bytes, the second so that equal strings keep their order;
      they stay within the array, the strings, their stack and the copy, and leave
      their static variables ready for the next call.
    - The trees of [tsearch] refine a sorted set of keys, walks included, and the
      table of [hsearch] a finite map from strings; neither loses or touches
      memory that is not its own.  The queues of [insque] and [remque], with ends
      or circular, are the lists they stand for.
    - In every interleaving of programs that follow its rules at most one thread
      holds an unfair lock, of libdispatch or of libplatform, and nothing stops;
      a thread that locks what it holds or unlocks what it does not is stopped;
      [dispatch_once] runs the initialiser once and nobody returns before it has
      completed; a semaphore neither loses nor makes up a permit; a group
      counts its enters and leaves, moves its generation exactly when it becomes empty
      and submits each notification once; a thread event hands over once.  No
      wake-up is lost: every run ends, and a thread that sleeps in the end waits
      for something that is not there.  A notification of a group may be
      submitted while the group is entered, which is proved by a run.

    ** Not modelled

    Memory exhaustion in [os_map]; the garbage-collection callbacks and the
    debug dumps of the Blocks runtime; Mach memory entries and debug output of
    the data component; the loader of locale files; the bytes of the elements
    that are sorted; the width of the [int] indices of [radixsort]; of [src/shims/lock.c] the plain gates, the quiescent
    counter of arm64, and the forms for other systems than macOS; of the kernel
    its priorities and turnstiles, and faults of the memory that a user lock is
    in; of libplatform what is not a lock, and its spin locks and handoff locks,
    which depend on the scheduler.

    The rest of the repository is left out for what it is: Objective-C++ and C++
    programs (objc4, dyld, libauto, libclosure), kernel and system-call code (the
    rest of xnu, libpthread, launchd, the queues, sources and I/O of libdispatch,
    and [psort], which runs on its queues), large subsystems of Libc of their own
    (stdio, gdtoa, regular expressions, databases), older copies of Libc, and
    samples. *)

From Stdlib Require Export ZArith Lia.
From stdpp Require Export base list gmap numbers decidable option.
Export stdpp.list_basics.list stdpp.list_relations.list stdpp.list_monad.list
  stdpp.list_misc.list.

#[global] Open Scope Z_scope.

(** ** Outcomes of C code

    A C function returns, or the process stops: an [assert] (or one of the
    DISPATCH crash macros) fires, an array is read or written out of its
    bounds, a divisor is zero, a variable is read before it is set, a shift leaves the range of its type, or a model loop runs out of the fuel that stands for
    a [while] without a bound of its own. *)

Inductive crash : Set :=
  | AssertFail
  | OutOfBounds
  | DivByZero
  | UninitRead
  | ShiftOverflow
  | OutOfFuel.

#[export] Instance crash_eq_dec : EqDecision crash.
Proof. solve_decision. Defined.

Inductive res (A : Type) : Type :=
  | Ok (a : A)
  | Crash (why : crash).
Arguments Ok {A} a.
Arguments Crash {A} why.

#[export] Instance res_eq_dec {A} `{EqDecision A} : EqDecision (res A).
Proof. solve_decision. Defined.

Definition rbind {A B} (c : res A) (f : A -> res B) : res B :=
  match c with
  | Ok a => f a
  | Crash w => Crash w
  end.

Declare Scope c_scope.
Delimit Scope c_scope with c.
Notation "'let!' x := c 'in' k" := (rbind c (fun x => k))
  (at level 10, x pattern, c at level 100, k at level 200) : c_scope.
#[global] Open Scope c_scope.

(** [assert(b)]. *)
Definition c_assert (b : bool) : res unit :=
  if b then Ok tt else Crash AssertFail.

(** The values of [errno] the modelled functions set. *)
Inductive errno_t : Set :=
  | EINVAL
  | ERANGE
  | EILSEQ
  | ENOMEM.

#[export] Instance errno_eq_dec : EqDecision errno_t.
Proof. solve_decision. Defined.

(** ** Machine integers

    A [w]-bit unsigned integer is a [Z] in [0, 2^w). *)

Definition u8  (z : Z) : Z := z mod 2 ^ 8.
Definition u16 (z : Z) : Z := z mod 2 ^ 16.
Definition u32 (z : Z) : Z := z mod 2 ^ 32.
Definition u64 (z : Z) : Z := z mod 2 ^ 64.

(** Reinterpretation as a two's complement signed integer. *)
Definition s32 (z : Z) : Z := (z + 2 ^ 31) mod 2 ^ 32 - 2 ^ 31.
Definition s64 (z : Z) : Z := (z + 2 ^ 63) mod 2 ^ 64 - 2 ^ 63.

Definition UINT16_MAX : Z := 65535.
Definition UINT32_MAX : Z := 4294967295.
Definition SIZE_MAX : Z := 18446744073709551615.

Lemma u32_small z : 0 <= z < 2 ^ 32 -> u32 z = z.
Proof. apply Z.mod_small. Qed.

Lemma u32_range z : 0 <= u32 z < 2 ^ 32.
Proof. apply Z.mod_pos_bound; lia. Qed.

Lemma u64_small z : 0 <= z < 2 ^ 64 -> u64 z = z.
Proof. apply Z.mod_small. Qed.

Lemma u64_range z : 0 <= u64 z < 2 ^ 64.
Proof. apply Z.mod_pos_bound; lia. Qed.

Lemma u8_small z : 0 <= z < 256 -> u8 z = z.
Proof. apply Z.mod_small. Qed.

Lemma u8_range z : 0 <= u8 z < 256.
Proof. apply Z.mod_pos_bound; lia. Qed.

Definition byte (z : Z) : Prop := 0 <= z < 256.

(** A property of the 256 bytes, by evaluation. *)
Lemma byte_ind (P : Z -> Prop) `{forall b, Decision (P b)} :
  forallb (fun n => bool_decide (P (Z.of_nat n))) (seq 0 256) = true -> forall b, byte b -> P b.
Proof.
  intros Ha b Hb. rewrite forallb_forall in Ha. unfold byte in Hb.
  specialize (Ha (Z.to_nat b)). rewrite Z2Nat.id in Ha by lia.
  refine (bool_decide_eq_true_1 _ (Ha _)). apply in_seq. lia.
Qed.

(** A Unicode scalar value. *)
Definition scalar (c : Z) : Prop := 0 <= c < 0xd800 \/ 0xe000 <= c < 0x110000.

#[export] Instance scalar_dec c : Decision (scalar c).
Proof. unfold scalar. apply _. Defined.

Lemma s64_small z : - 2 ^ 63 <= z < 2 ^ 63 -> s64 z = z.
Proof. intros Hz. unfold s64. rewrite Z.mod_small; lia. Qed.

Lemma s32_small z : - 2 ^ 31 <= z < 2 ^ 31 -> s32 z = z.
Proof. intros Hz. unfold s32. rewrite Z.mod_small; lia. Qed.

(** ** Bit arithmetic *)

(** Divisions and remainders by constants. *)
Ltac zbits := Z.to_euclidean_division_equations; lia.

Lemma land_mask z n : 0 <= n -> Z.land z (2 ^ n - 1) = z mod 2 ^ n.
Proof. intros Hn. rewrite <-Z.land_ones by done. f_equal. rewrite Z.ones_equiv. lia. Qed.

Lemma land_byte b : byte b -> Z.land b 0xff = b.
Proof. intros Hb. change 255 with (2 ^ 8 - 1). rewrite land_mask by lia. by apply Z.mod_small. Qed.

(** The bits of a field. *)
Lemma land_field z k n : 0 <= k -> 0 <= n -> Z.land z ((2 ^ k - 1) * 2 ^ n) = (z / 2 ^ n) mod 2 ^ k * 2 ^ n.
Proof.
  intros Hk Hn. rewrite <-land_mask by done. rewrite <-!Z.shiftl_mul_pow2, <-Z.shiftr_div_pow2 by done.
  apply Z.bits_inj'. intros i Hi. rewrite Z.land_spec, !Z.shiftl_spec, Z.land_spec by done.
  destruct (decide (i < n)); [by rewrite !(Z.testbit_neg_r _ (i - n)), andb_false_r by lia|].
  rewrite Z.shiftr_spec by lia. by replace (i - n + n) with i by lia.
Qed.

(** Nothing above the bits of a number. *)
Lemma land_above z n : 0 <= n -> 0 <= z < 2 ^ n -> Z.land z (Z.lnot (2 ^ n - 1)) = 0.
Proof.
  intros Hn Hz. replace (2 ^ n - 1) with (Z.ones n) by (rewrite Z.ones_equiv; lia).
  rewrite <-Z.ldiff_land, Z.ldiff_ones_r, Z.shiftl_mul_pow2, Z.shiftr_div_pow2 by lia.
  by rewrite Z.div_small.
Qed.

(** A shifted value and what fits below it do not overlap. *)
Lemma lor_shift a b n : 0 <= n -> 0 <= b < 2 ^ n -> Z.lor (Z.shiftl a n) b = a * 2 ^ n + b.
Proof.
  intros Hn Hb. rewrite <-Z.shiftl_mul_pow2 by done.
  assert (Hl : Z.land (Z.shiftl a n) b = 0).
  { apply Z.bits_inj'. intros k Hk. rewrite Z.land_spec, Z.bits_0, Z.shiftl_spec by lia.
    destruct (decide (k < n)).
    - by rewrite Z.testbit_neg_r by lia.
    - rewrite (proj1 (Z.bounded_iff_bits_nonneg n b ltac:(lia) ltac:(lia)) (proj2 Hb) k) by lia.
      apply andb_false_r. }
  pose proof (Z.add_lor_land (Z.shiftl a n) b). lia.
Qed.

Lemma shiftr_div z n : 0 <= n -> Z.shiftr z n = z / 2 ^ n.
Proof. intros. by apply Z.shiftr_div_pow2. Qed.

Lemma lor_const k n x c : c = Z.shiftl k n -> 0 <= n -> 0 <= x < 2 ^ n -> Z.lor c x = c + x.
Proof. intros -> Hn Hx. rewrite lor_shift by done. by rewrite Z.shiftl_mul_pow2. Qed.

(** ** Arrays

    An array is a list; an index is a [Z], and an access outside the bounds
    is [OutOfBounds]. *)

Definition arr_get {A} (l : list A) (i : Z) : res A :=
  if bool_decide (0 <= i) then
    match l !! Z.to_nat i with
    | Some a => Ok a
    | None => Crash OutOfBounds
    end
  else Crash OutOfBounds.

Definition arr_set {A} (l : list A) (i : Z) (a : A) : res (list A) :=
  if bool_decide (0 <= i < Z.of_nat (length l)) then Ok (<[Z.to_nat i := a]> l)
  else Crash OutOfBounds.

Lemma arr_get_ok {A} (l : list A) i a :
  0 <= i -> l !! Z.to_nat i = Some a -> arr_get l i = Ok a.
Proof. intros Hi Hl. unfold arr_get. by rewrite bool_decide_eq_true_2, Hl. Qed.

Lemma arr_get_inv {A} (l : list A) i a :
  arr_get l i = Ok a -> 0 <= i < Z.of_nat (length l) /\ l !! Z.to_nat i = Some a.
Proof.
  unfold arr_get. case_bool_decide as Hi; [|done].
  destruct (l !! Z.to_nat i) eqn:E; [|done]. intros [= ->].
  apply lookup_lt_Some in E as ?. split; [lia|done].
Qed.

Lemma arr_set_ok {A} (l : list A) i a :
  0 <= i < Z.of_nat (length l) -> arr_set l i a = Ok (<[Z.to_nat i := a]> l).
Proof. intros. unfold arr_set. by rewrite bool_decide_eq_true_2. Qed.

Lemma filter_all {A} (P : A -> Prop) `{!forall z, Decision (P z)} (l : list A) : Forall P l -> filter P l = l.
Proof. induction 1; [done|]. rewrite filter_cons_True by done. congruence. Qed.

Lemma filter_none {A} (P Q : A -> Prop) `{!forall z, Decision (P z)} (l : list A) :
  Forall Q l -> (forall z, Q z -> ~ P z) -> filter P l = [].
Proof. intros HQ Hn. induction HQ; [done|]. rewrite filter_cons_False by auto. done. Qed.

Lemma elem_of_concat {A} (x : A) (ls : list (list A)) : x ∈ concat ls <-> exists i l, ls !! i = Some l /\ x ∈ l.
Proof.
  induction ls as [|l ls IH]; cbn [concat].
  - split; [by intros ?%not_elem_of_nil|by intros (? & ? & ? & _)].
  - rewrite elem_of_app, IH. split.
    + intros [?|(i & l' & ? & ?)]; [by exists 0%nat, l|by exists (S i), l'].
    + intros ([|i] & l' & Hl & Hx); cbn in Hl; [left; congruence|right; by exists i, l'].
Qed.

Lemma lookup_in_range {A} (l : list A) i :
  0 <= i < Z.of_nat (length l) -> exists a, l !! Z.to_nat i = Some a.
Proof. intros. apply lookup_lt_is_Some_2. lia. Qed.

(** ** Automation *)

Create HintDb cmem.
Create Rewrite HintDb cmem.
#[export] Hint Rewrite @length_insert @length_replicate : cmem.
#[export] Hint Resolve u32_range u64_range u8_range : cmem.

(** Case analysis on the next [let!] or [if] of a hypothesis. *)
Ltac inv_res :=
  repeat match goal with
  | H : rbind ?c _ = Ok _ |- _ =>
      let E := fresh "E" in
      destruct c eqn:E; cbn [rbind] in H; [|discriminate H]
  | H : Ok _ = Ok _ |- _ => injection H as H; subst
  | H : (_, _) = (_, _) |- _ => injection H as H
  | H : Crash _ = Ok _ |- _ => discriminate H
  | H : c_assert ?b = Ok _ |- _ =>
      unfold c_assert in H; let B := fresh "B" in destruct b eqn:B; [|discriminate H]
  end.
