(* ===== verification/OsMap.v ===== *)
(** * OsMap: the open-addressing hash map of Libc

    Model of [collections/Source/collections_map.in.c] and
    [collections/Source/collections_map.c]: a Robin Hood hash table over two
    segregated arrays (keys and values) with one template instantiated at four
    key types.  The template's required per-type functions are the class
    [MapKey]; the map itself is a record of the C struct's fields; every
    function is a state-passing definition that returns in the outcome monad
    of the prelude, so an [assert] that fires, a division by a zero size and
    an access outside the arrays are visible as [Crash].

    Values are pointers, kept as integers with [NULL = 0].  The answer of
    [calloc] for a given number of slots is the section variable [can_alloc].
    The DEBUG-only assertions are not part of the modelled build, except
    [_os_map_verify], which is modelled as the self check it is. *)

From S2P Require Import Prelude.

(** ** Constants (collections_map.in.c and collections_utilities.h) *)

Definition NULL : Z := 0.

Definition _MAP_MAX_FILL_NUMER : Z := 4.
Definition _MAP_MAX_FILL_DENOM : Z := 5.
Definition _MAP_GROW_SHIFT_RATE : Z := 8.
Definition _MAP_MIN_FILL_DENOM : Z := 8.

Definition MAP_MINSHIFT : Z := 5.
Definition MAP_MINSIZE : Z := Z.shiftl 1 MAP_MINSHIFT.

Definition roundup (x y : Z) : Z :=
  if x mod y =? 0 then x else x + (y - x mod y).

Definition map_next (i size : Z) : Z :=
  let i := u32 (i + 1) in if i >=? size then 0 else i.

Definition map_prev (i size : Z) : Z :=
  u32 ((if negb (i =? 0) then i else size) - 1).

(** ** What the template needs of a key type

    [key_null] is the key a zeroed slot holds; [key_id] names the equality
    class of a key, the type the abstract map is indexed by. *)

Class MapKey (K ID : Type) `{!EqDecision ID, !Countable ID} := {
  key_null : K;
  os_map_hash : K -> Z;
  os_map_key_equals : K -> K -> bool;
  key_id : K -> ID;
}.

Class MapKeyLaws (K ID : Type) `{MapKey K ID} := {
  hash_range k : 0 <= os_map_hash k < 2 ^ 32;
  key_equals_id a b : os_map_key_equals a b = true <-> key_id a = key_id b;
  hash_id a b : key_id a = key_id b -> os_map_hash a = os_map_hash b;
}.

(** ** The data of a map *)

Record os_map_data (K : Type) := OsMapData {
  keys : list K;
  vals : list Z;
}.
Arguments OsMapData {K} keys vals.
Arguments keys {K} o.
Arguments vals {K} o.

Record os_map (K : Type) := OsMap {
  data : os_map_data K;
  count : Z;
  size : Z;
  grow_shift : Z;
  max_bucket_offset : Z;
}.
Arguments OsMap {K} data count size grow_shift max_bucket_offset.
Arguments data {K} o.
Arguments count {K} o.
Arguments size {K} o.
Arguments grow_shift {K} o.
Arguments max_bucket_offset {K} o.

Record os_map_config := OsMapConfig { initial_size : Z }.

Definition set_data {K} (d : os_map_data K) (m : os_map K) : os_map K :=
  OsMap d (count m) (size m) (grow_shift m) (max_bucket_offset m).
Definition set_count {K} (c : Z) (m : os_map K) : os_map K :=
  OsMap (data m) c (size m) (grow_shift m) (max_bucket_offset m).
Definition set_max_bucket_offset {K} (b : Z) (m : os_map K) : os_map K :=
  OsMap (data m) (count m) (size m) (grow_shift m) b.

(** The block behind a NULL [data] pointer: nothing can be read of it. *)
Definition null_data {K} : os_map_data K := OsMapData [] [].

Section Ops.
Context {K ID : Type} `{MapKey K ID}.
Context (can_alloc : Z -> bool).

Implicit Types (m : os_map K) (d : os_map_data K) (k key : K).

Definition _alloc_data (size : Z) : res (os_map_data K) :=
  let! _ := c_assert (size <? UINT32_MAX) in
  let! _ := c_assert (can_alloc size) in
  Ok (OsMapData (replicate (Z.to_nat size) key_null)
                (replicate (Z.to_nat size) NULL)).

Definition _get_key d (i : Z) : res K := arr_get (keys d) i.
Definition _get_val d (i : Z) : res Z := arr_get (vals d) i.

Definition _set_key d (i : Z) key : res (os_map_data K) :=
  let! ks := arr_set (keys d) i key in Ok (OsMapData ks (vals d)).
Definition _set_val d (i : Z) (val : Z) : res (os_map_data K) :=
  let! vs := arr_set (vals d) i val in Ok (OsMapData (keys d) vs).

Definition _os_map_bucket m key : res Z :=
  if size m =? 0 then Crash DivByZero
  else Ok (os_map_hash key mod size m).

Definition _os_map_bucket_offset m key (i : Z) : res Z :=
  let! bucket := _os_map_bucket m key in
  Ok (u32 (i - bucket) mod size m).

(** *** The DEBUG self check *)

Definition _get_next_offset m (index sz : Z) : res Z :=
  let next_index := map_next index sz in
  let! v := _get_val (data m) next_index in
  if v =? NULL then Ok (-1)
  else
    let! k := _get_key (data m) next_index in
    _os_map_bucket_offset m k next_index.

Fixpoint verify_loop (n : nat) (index : Z) (next_bucket_offset : Z) m : res unit :=
  match n with
  | O => Ok tt
  | S n =>
      let current_bucket_offset := next_bucket_offset in
      let! next_bucket_offset := _get_next_offset m index (size m) in
      let! _ := c_assert (next_bucket_offset <=? current_bucket_offset + 1) in
      verify_loop n (index + 1) next_bucket_offset m
  end.

Definition _os_map_verify m : res unit :=
  let! v0 := _get_val (data m) 0 in
  let! first := (if v0 =? NULL then Ok (-1)
                 else let! k0 := _get_key (data m) 0 in
                      _os_map_bucket_offset m k0 0) in
  verify_loop (Z.to_nat (size m)) 0 first m.

(** *** Insertion

    [_swap_if_needed] updates the map, the key, the value and the bucket
    offset in place; the model returns the four of them. *)

Definition raise_max_bucket_offset m (bucket_offset : Z) : res (os_map K) :=
  if bucket_offset >? max_bucket_offset m then
    let! _ := c_assert (bucket_offset <=? UINT16_MAX) in
    Ok (set_max_bucket_offset bucket_offset m)
  else Ok m.

Definition store_slot m (i : Z) key (val : Z) : res (os_map K) :=
  let! d := _set_key (data m) i key in
  let! d := _set_val d i val in
  Ok (set_data d m).

Definition _swap_if_needed m key (val bucket_offset i : Z)
    : res (os_map K * K * Z * Z) :=
  if negb (bucket_offset =? 0) then
    let! loop_key := _get_key (data m) i in
    let! loop_bucket_offset := _os_map_bucket_offset m loop_key i in
    if bucket_offset >? loop_bucket_offset then
      let! m := raise_max_bucket_offset m bucket_offset in
      let! new_val := _get_val (data m) i in
      let! m := store_slot m i key val in
      Ok (m, loop_key, new_val, loop_bucket_offset)
    else Ok (m, key, val, bucket_offset)
  else Ok (m, key, val, bucket_offset).

Fixpoint insert_loop (loop_limit : nat) m key (val bucket_offset i : Z)
    : res (os_map K * K * Z * Z * Z) :=
  match loop_limit with
  | O => Crash AssertFail
  | S loop_limit =>
      let! loop_val := _get_val (data m) i in
      if loop_val =? NULL then Ok (m, key, val, bucket_offset, i)
      else
        let! (m, key, val, bucket_offset) :=
          _swap_if_needed m key val bucket_offset i in
        insert_loop loop_limit m key val (u32 (bucket_offset + 1))
          (map_next i (size m))
  end.

Definition _os_map_insert_no_rehash m key (val : Z) : res (os_map K) :=
  let! i := _os_map_bucket m key in
  let! (m, key, val, bucket_offset, i) :=
    insert_loop (Z.to_nat (size m)) m key val 0 i in
  let! m := raise_max_bucket_offset m bucket_offset in
  let! m := store_slot m i key val in
  Ok (set_count (u32 (count m + 1)) m).

(** *** Rehashing *)

Fixpoint rehash_loop (n : nat) (i : Z) (old_data : os_map_data K) m : res (os_map K) :=
  match n with
  | O => Ok m
  | S n =>
      let! v := _get_val old_data i in
      if v =? NULL then rehash_loop n (i + 1) old_data m
      else
        let! k := _get_key old_data i in
        let! m := _os_map_insert_no_rehash m k v in
        rehash_loop n (i + 1) old_data m
  end.

Definition resize m (direction : Z) : Z * Z :=
  if direction >? 0 then
    let sz := u32 (size m + Z.shiftl 1 (grow_shift m)) in
    (sz, if sz =? u32 (Z.shiftl _MAP_GROW_SHIFT_RATE (grow_shift m))
         then u16 (grow_shift m + 1) else grow_shift m)
  else if direction <? 0 then
    let gs := if grow_shift m >? MAP_MINSHIFT then grow_shift m - 1
              else grow_shift m in
    (u32 (roundup (size m / 2) (Z.shiftl 1 gs)), gs)
  else (size m, grow_shift m).

Definition _os_map_rehash m (direction : Z) : res (os_map K) :=
  let old_size := size m in
  let old_data := data m in
  let '(sz, gs) := resize m direction in
  let! d := _alloc_data sz in
  rehash_loop (Z.to_nat old_size) 0 old_data (OsMap d 0 sz gs 0).

(** *** Lookup: the value found and the final [*i] *)

Fixpoint find_loop (loop_limit : nat) m key (i bucket_offset : Z) : res (Z * Z) :=
  match loop_limit with
  | O => Crash AssertFail
  | S loop_limit =>
      if bucket_offset >? max_bucket_offset m then Ok (NULL, i)
      else
        let! v := _get_val (data m) i in
        if v =? NULL then Ok (NULL, i)
        else
          let! loop_key := _get_key (data m) i in
          if os_map_key_equals key loop_key then Ok (v, i)
          else find_loop loop_limit m key (map_next i (size m))
                 (u32 (bucket_offset + 1))
  end.

Definition _os_map_find_helper m key (i : Z) : res (Z * Z) :=
  if count m =? 0 then Ok (NULL, i)
  else
    let! i := _os_map_bucket m key in
    find_loop (Z.to_nat (size m)) m key i 0.

(** *** Removal: backward shift, then shrink *)

Fixpoint shift_loop (fuel : nat) m (current_index next_index : Z) next_key (next_val : Z)
    : res (os_map K * Z) :=
  match fuel with
  | O => Crash OutOfFuel
  | S fuel =>
      if next_val =? NULL then Ok (m, current_index)
      else
        let! b := _os_map_bucket m next_key in
        if b =? next_index then Ok (m, current_index)
        else
          let! m := store_slot m current_index next_key next_val in
          let current_index := next_index in
          let next_index := map_next current_index (size m) in
          let! next_val := _get_val (data m) next_index in
          let! next_key := _get_key (data m) next_index in
          shift_loop fuel m current_index next_index next_key next_val
  end.

Definition _os_map_remove_entry m (current_index : Z) : res (os_map K) :=
  let next_index := map_next current_index (size m) in
  let! next_val := _get_val (data m) next_index in
  let! next_key := _get_key (data m) next_index in
  let! (m, current_index) :=
    shift_loop (Z.to_nat (size m)) m current_index next_index next_key next_val in
  let! d := _set_val (data m) current_index NULL in
  let m := set_data d m in
  let m := set_count (u32 (count m - 1)) m in
  if (size m >=? MAP_MINSIZE * 2) && (count m <? size m / _MAP_MIN_FILL_DENOM)
  then _os_map_rehash m (-1)
  else Ok m.

(** *** The public operations *)

Definition os_map_init (config : option os_map_config) : res (os_map K) :=
  let sz := match config with
            | Some c => Z.max (initial_size c) MAP_MINSIZE
            | None => MAP_MINSIZE
            end in
  let! d := _alloc_data sz in
  Ok (OsMap d 0 sz MAP_MINSHIFT 0).

Definition os_map_destroy m : os_map K :=
  OsMap null_data (count m) 0 (grow_shift m) (max_bucket_offset m).

Definition os_map_insert m key (val : Z) : res (os_map K) :=
  let! _ := c_assert (negb (val =? NULL)) in
  let! m := (if count m >=? u32 (_MAP_MAX_FILL_NUMER * size m) / _MAP_MAX_FILL_DENOM
             then _os_map_rehash m 1 else Ok m) in
  _os_map_insert_no_rehash m key val.

Definition os_map_find m key : res Z :=
  let! (v, _) := _os_map_find_helper m key 0 in Ok v.

Definition os_map_delete m key : res (os_map K * Z) :=
  let! (val, i) := _os_map_find_helper m key 0 in
  if val =? NULL then Ok (m, NULL)
  else
    let! m := _os_map_remove_entry m i in
    Ok (m, val).

Definition os_map_count m : Z := count m.

(** A handler block is a function on the state it captures. *)
Section Handlers.
Context {St : Type}.

Fixpoint foreach_loop (n : nat) (i : Z) d (handler : St -> K -> Z -> St * bool) (st : St)
    : res St :=
  match n with
  | O => Ok st
  | S n =>
      let! v := _get_val d i in
      if v =? NULL then foreach_loop n (i + 1) d handler st
      else
        let! k := _get_key d i in
        let '(st, go) := handler st k v in
        if go then foreach_loop n (i + 1) d handler st else Ok st
  end.

Definition os_map_foreach m (handler : St -> K -> Z -> St * bool) (st : St) : res St :=
  foreach_loop (Z.to_nat (size m)) 0 (data m) handler st.

(** [os_map_clear] ignores what the handler returns. *)
Definition os_map_clear m (handler : option (St -> K -> Z -> St * bool)) (st : St)
    : res (os_map K * St) :=
  let oldData := data m in
  let oldSize := size m in
  let! d := _alloc_data MAP_MINSIZE in
  let m := OsMap d 0 MAP_MINSIZE MAP_MINSHIFT 0 in
  match handler with
  | None => Ok (m, st)
  | Some h =>
      let! st := foreach_loop (Z.to_nat oldSize) 0 oldData
                   (fun st k v => ((h st k v).1, true)) st in
      Ok (m, st)
  end.
End Handlers.

Definition os_map_entry m key : res K :=
  let! (v, i) := _os_map_find_helper m key 0 in
  if v =? NULL then Ok key_null else _get_key (data m) i.

End Ops.

(** ** The four key types of collections_map.c *)

Definition os_map_32_key_equals (a b : Z) : bool := a =? b.

Definition os_map_32_hash (x : Z) : Z :=
  let x := u32 (Z.lxor (Z.shiftr x 16) x * 0x45d9f3b) in
  let x := u32 (Z.lxor (Z.shiftr x 16) x * 0x45d9f3b) in
  let x := Z.lxor (Z.shiftr x 16) x in
  u32 x.

Definition os_map_64_key_equals (a b : Z) : bool := a =? b.

Definition os_map_64_hash (key : Z) : Z :=
  os_map_32_hash (Z.lxor (u32 key) (u32 (Z.shiftr key 32))).

Record os_map_128_key_t := Key128 { x0 : Z; x1 : Z }.

Definition os_map_128_key_equals (a b : os_map_128_key_t) : bool :=
  (x0 a =? x0 b) && (x1 a =? x1 b).

Definition os_map_128_hash (key : os_map_128_key_t) : Z :=
  os_map_64_hash (Z.lxor (x0 key) (x1 key)).

(** String keys are pointers: [mem a] is the bytes, without the final NUL, of the C
    string at address [a]. *)

Fixpoint strcmp_bytes (s1 s2 : list Z) : Z :=
  match s1, s2 with
  | [], [] => 0
  | [], c2 :: _ => 0 - c2
  | c1 :: _, [] => c1
  | c1 :: s1, c2 :: s2 => if c1 =? c2 then strcmp_bytes s1 s2 else c1 - c2
  end.

Definition os_map_str_key_equals (mem : Z -> list Z) (a b : Z) : bool :=
  (a =? b) || (strcmp_bytes (mem a) (mem b) =? 0).

Fixpoint str_hash_loop (s : list Z) (hash : Z) : Z :=
  match s with
  | [] => hash
  | c :: s =>
      let hash := u32 (hash + c) in
      let hash := u32 (hash + u32 (Z.shiftl hash 10)) in
      let hash := Z.lxor hash (Z.shiftr hash 6) in
      str_hash_loop s hash
  end.

Definition os_map_str_hash (mem : Z -> list Z) (key : Z) : Z :=
  let hash := str_hash_loop (mem key) 0 in
  let hash := u32 (hash + u32 (Z.shiftl hash 3)) in
  let hash := Z.lxor hash (Z.shiftr hash 11) in
  u32 (hash + u32 (Z.shiftl hash 15)).

(** The instances; the 64-bit and string keys share their representation type
    with the 32-bit ones, so each lives in a module of its own. *)

Module Key32.
#[export] Instance map_key : MapKey Z Z := {|
  key_null := 0;
  os_map_hash := os_map_32_hash;
  os_map_key_equals := os_map_32_key_equals;
  key_id := id;
|}.
End Key32.

Module Key64.
#[export] Instance map_key : MapKey Z Z := {|
  key_null := 0;
  os_map_hash := os_map_64_hash;
  os_map_key_equals := os_map_64_key_equals;
  key_id := id;
|}.
End Key64.

Module KeyPair.
#[export] Instance map_key : MapKey os_map_128_key_t (Z * Z) := {|
  key_null := Key128 0 0;
  os_map_hash := os_map_128_hash;
  os_map_key_equals := os_map_128_key_equals;
  key_id k := (x0 k, x1 k);
|}.
End KeyPair.

Module KeyStr.
Section Mem.
Context (mem : Z -> list Z).
Definition map_key : MapKey Z (list Z) := {|
  key_null := 0;
  os_map_hash := os_map_str_hash mem;
  os_map_key_equals := os_map_str_key_equals mem;
  key_id := mem;
|}.
End Mem.
End KeyStr.
