(* ===== verification/OsMapInv.v ===== *)
(** * OsMapInv: the invariant of the hash map

    The table as a list of slots, the distance of an entry from its home
    bucket, the Robin Hood order that [_os_map_verify] checks, and the lemmas
    that carry them through the three loops of the implementation
    (insertion, lookup, backward shift).

    The code computes a distance as [(i - bucket) % size] in 32-bit unsigned
    arithmetic.  It is the true distance modulo [size] when [size] divides
    2^32; [sound_size] is that condition together with the bounds under which
    no assertion on the 16-bit [max_bucket_offset] can fire. *)

From S2P Require Import Prelude OsMap.

(** ** Arithmetic modulo the size *)

Lemma mod_succ x n : 0 < n -> x mod n + 1 < n -> (x + 1) mod n = x mod n + 1.
Proof.
  intros Hn Hx. rewrite <-Zplus_mod_idemp_l. apply Z.mod_small.
  pose proof (Z.mod_pos_bound x n). lia.
Qed.

Lemma mod_pred x n : 0 < n -> 0 < x mod n -> (x - 1) mod n = x mod n - 1.
Proof.
  intros Hn Hx. rewrite <-Zminus_mod_idemp_l. apply Z.mod_small.
  pose proof (Z.mod_pos_bound x n). lia.
Qed.

Lemma map_next_mod i n : 0 <= i < n -> n < 2 ^ 32 -> map_next i n = (i + 1) mod n.
Proof.
  intros Hi Hn. unfold map_next. rewrite u32_small by lia.
  destruct (Z.geb_spec (i + 1) n).
  - replace (i + 1) with n by lia. by rewrite Z.mod_same by lia.
  - by rewrite Z.mod_small by lia.
Qed.

Lemma prev_next i n : 0 <= i < n -> ((i + 1) mod n - 1) mod n = i.
Proof.
  intros. rewrite Zminus_mod_idemp_l. replace (i + 1 - 1) with i by lia.
  by apply Z.mod_small.
Qed.

Lemma next_prev i n : 0 <= i < n -> ((i - 1) mod n + 1) mod n = i.
Proof.
  intros. rewrite Zplus_mod_idemp_l. replace (i - 1 + 1) with i by lia.
  by apply Z.mod_small.
Qed.

(** Distance to a slot ahead shrinks by one at each step. *)
Lemma dist_next e i n :
  0 <= i < n -> 0 <= e < n -> e <> i ->
  (e - (i + 1) mod n) mod n = (e - i) mod n - 1 /\ 0 < (e - i) mod n.
Proof.
  intros Hi He Hne.
  assert (Hpos : 0 < (e - i) mod n).
  { pose proof (Z.mod_pos_bound (e - i) n ltac:(lia)).
    destruct (decide ((e - i) mod n = 0)) as [H0|]; [|lia].
    exfalso. apply Hne.
    apply Z.mod_divide in H0 as [q Hq]; [|lia].
    assert (q = 0) by nia. lia. }
  split; [|done]. rewrite Zminus_mod_idemp_r.
  replace (e - (i + 1)) with (e - i - 1) by lia. apply mod_pred; lia.
Qed.

(** ** The sizes for which the computed distance is the true one *)

Definition sound_size (n : Z) : Prop :=
  MAP_MINSIZE <= n <= UINT16_MAX + 1 /\ 2 ^ 32 mod n = 0.

#[export] Instance sound_size_dec n : Decision (sound_size n).
Proof. unfold sound_size. apply _. Defined.

Lemma u32_sub_mod n a b :
  0 < n -> 2 ^ 32 mod n = 0 -> u32 (a - b) mod n = (a - b) mod n.
Proof.
  intros Hn Hd. unfold u32. apply Z.mod_divide in Hd as [q Hq]; [|lia].
  rewrite Hq. rewrite Z.mul_comm. rewrite Z.rem_mul_r by lia.
  rewrite Z.mul_comm, Z.mod_add by lia. apply Z.mod_mod. lia.
Qed.

(** ** Slots and entries *)

Section Slots.
Context {K ID : Type} `{MapKeyLaws K ID}.

Implicit Types (m : os_map K) (k key : K) (v : Z) (s : list (K * Z)).

Definition slots m : list (K * Z) := zip (keys (data m)) (vals (data m)).

Definition entries s : list (K * Z) := filter (fun e => e.2 <> NULL) s.

Definition home (n : Z) k : Z := os_map_hash k mod n.

Definition off (n : Z) k (p : Z) : Z := (p - home n k) mod n.

(** Distance of the entry at [p] from its home, -1 for a free slot. *)
Definition slot_off (n : Z) s (p : Z) : Z :=
  match s !! Z.to_nat p with
  | Some (k, v) => if v =? NULL then -1 else off n k p
  | None => -1
  end.

(** What [_os_map_verify] checks. *)
Definition rh_ordered (n : Z) s : Prop :=
  forall p, 0 <= p < n -> slot_off n s ((p + 1) mod n) <= slot_off n s p + 1.

Definition offs_below (n : Z) s (mx : Z) : Prop :=
  forall p, 0 <= p -> slot_off n s p <= mx.

Definition ids s : list ID := (fun e => key_id e.1) <$> entries s.

(** The abstract map: from key identities to the stored key and value. *)
Definition abs_slots s : gmap ID (K * Z) :=
  list_to_map ((fun e => (key_id e.1, e)) <$> entries s).

Definition abs m : gmap ID (K * Z) := abs_slots (slots m).

Record map_ok m : Prop := {
  ok_keys : Z.of_nat (length (keys (data m))) = size m;
  ok_vals : Z.of_nat (length (vals (data m))) = size m;
  ok_size : MAP_MINSIZE <= size m < UINT32_MAX;
  ok_shift : MAP_MINSHIFT <= grow_shift m /\ 2 ^ grow_shift m <= size m;
  ok_count : count m = Z.of_nat (length (entries (slots m)));
  ok_fill : count m < size m;
  ok_nodup : NoDup (ids (slots m));
  ok_rh : rh_ordered (size m) (slots m);
  ok_max0 : 0 <= max_bucket_offset m;
  ok_max : offs_below (size m) (slots m) (max_bucket_offset m);
}.

(** *** Entries under an update of one slot *)

Lemma entries_app s1 s2 : entries (s1 ++ s2) = entries s1 ++ entries s2.
Proof. apply list.filter_app. Qed.

Lemma entries_insert_split s i e e' :
  s !! i = Some e' ->
  exists r, entries s ≡ₚ entries [e'] ++ r /\ entries (<[i:=e]> s) ≡ₚ entries [e] ++ r.
Proof.
  intros Hi. exists (entries (take i s ++ drop (S i) s)). split.
  - rewrite <-(take_drop_middle s i e' Hi) at 1.
    rewrite !entries_app, (entries_app [e'] _ : entries (e' :: _) = _).
    rewrite !app_assoc. f_equiv. apply Permutation_app_comm.
  - rewrite insert_take_drop by eauto using lookup_lt_Some.
    rewrite !entries_app, (entries_app [e] _ : entries (e :: _) = _).
    rewrite !app_assoc. f_equiv. apply Permutation_app_comm.
Qed.

Lemma entries_single k v :
  entries [(k, v)] = if v =? NULL then [] else [(k, v)].
Proof.
  unfold entries. destruct (Z.eqb_spec v NULL).
  - by rewrite filter_cons_False, filter_nil by (cbn; naive_solver).
  - by rewrite filter_cons_True, filter_nil.
Qed.

(** A free slot contributes nothing, whatever stale key it holds. *)
Lemma entries_insert_null s i k k' :
  entries (<[i:=(k, NULL)]> s) = entries (<[i:=(k', NULL)]> s).
Proof.
  revert i. induction s as [|[k0 v0] s IH]; [done|]; intros [|i].
  - change (entries ([(k, NULL)] ++ s) = entries ([(k', NULL)] ++ s)).
    by rewrite !entries_app, !entries_single.
  - change (entries ([(k0, v0)] ++ <[i:=(k, NULL)]> s) =
            entries ([(k0, v0)] ++ <[i:=(k', NULL)]> s)).
    by rewrite !entries_app, IH.
Qed.

Lemma slot_off_ge n s p : 0 < n -> -1 <= slot_off n s p.
Proof.
  intros. unfold slot_off. destruct (s !! Z.to_nat p) as [[k v]|]; [|lia].
  destruct (v =? NULL); [lia|]. unfold off.
  pose proof (Z.mod_pos_bound (p - home n k) n). lia.
Qed.

Lemma slot_off_insert n s i k v p :
  0 <= i < Z.of_nat (length s) -> 0 <= p ->
  slot_off n (<[Z.to_nat i:=(k, v)]> s) p =
    if decide (p = i) then (if v =? NULL then -1 else off n k i) else slot_off n s p.
Proof.
  intros Hi Hp. unfold slot_off. case_decide as E.
  - subst. by rewrite list_lookup_insert_eq by lia.
  - by rewrite list_lookup_insert_ne by lia.
Qed.

Lemma slot_off_occupied n s p k v :
  s !! Z.to_nat p = Some (k, v) -> v <> NULL -> slot_off n s p = off n k p.
Proof. intros Hs Hv. unfold slot_off. rewrite Hs. by rewrite (proj2 (Z.eqb_neq _ _)). Qed.

Lemma off_range n k p : 0 < n -> 0 <= off n k p < n.
Proof. intros. by apply Z.mod_pos_bound. Qed.

Lemma off_next n k p :
  0 < n -> off n k p + 1 < n -> off n k ((p + 1) mod n) = off n k p + 1.
Proof.
  intros. unfold off. rewrite Zminus_mod_idemp_l.
  replace (p + 1 - home n k) with (p - home n k + 1) by lia. by apply mod_succ.
Qed.

Lemma off_home n k : 0 < n -> off n k (home n k) = 0.
Proof. intros. unfold off. by rewrite Z.sub_diag, Z.mod_0_l by lia. Qed.

Lemma off_inj n k p q :
  0 <= p < n -> 0 <= q < n -> off n k p = off n k q -> p = q.
Proof.
  unfold off. intros Hp Hq Heq.
  assert (Hd : (p - q) mod n = 0).
  { replace (p - q) with ((p - home n k) - (q - home n k)) by lia.
    rewrite Zminus_mod, Heq, Z.sub_diag. apply Z.mod_0_l. lia. }
  apply Z.mod_divide in Hd as [c Hc]; [|lia]. assert (c = 0) by nia. lia.
Qed.

(** Robin Hood order means no gap between an entry and its home. *)
Lemma rh_chain n s p (j : nat) :
  0 < n -> rh_ordered n s -> 0 <= p < n -> 
  slot_off n s p - Z.of_nat j <= slot_off n s ((p - Z.of_nat j) mod n).
Proof.
  intros Hn Hrh Hp. induction j as [|j IH].
  - replace (p - Z.of_nat 0) with p by lia. rewrite Z.mod_small by lia. lia.
  - specialize (Hrh ((p - Z.of_nat (S j)) mod n) ltac:(apply Z.mod_pos_bound; lia)).
    rewrite Zplus_mod_idemp_l in Hrh.
    replace (p - Z.of_nat (S j) + 1) with (p - Z.of_nat j) in Hrh by lia. lia.
Qed.

(** A table with fewer entries than slots has a free slot. *)
Lemma free_slot s :
  (length (entries s) < length s)%nat ->
  exists i, 0 <= i < Z.of_nat (length s) /\ exists k, s !! Z.to_nat i = Some (k, NULL).
Proof.
  induction s as [|[k v] s IH]; cbn [length]; [cbn; lia|].
  destruct (Z.eq_dec v NULL) as [->|Hv]; intros Hlen.
  - exists 0. split; [lia|]. by exists k.
  - unfold entries in Hlen. rewrite filter_cons_True in Hlen by done.
    destruct IH as (i & Hi & k' & Hk); [cbn in Hlen; unfold entries; lia|].
    exists (i + 1). split; [lia|]. exists k'.
    by replace (Z.to_nat (i + 1)) with (S (Z.to_nat i)) by lia.
Qed.

Lemma slot_off_free n s i k : s !! Z.to_nat i = Some (k, NULL) -> slot_off n s i = -1.
Proof. intros Hs. unfold slot_off. by rewrite Hs. Qed.

(** *** Slots of a map *)

Lemma length_slots m :
  Z.of_nat (length (keys (data m))) = size m ->
  Z.of_nat (length (vals (data m))) = size m ->
  Z.of_nat (length (slots m)) = size m.
Proof. intros. unfold slots. rewrite length_zip. lia. Qed.

Lemma slots_lookup m i k v :
  slots m !! i = Some (k, v) <->
  keys (data m) !! i = Some k /\ vals (data m) !! i = Some v.
Proof. unfold slots. rewrite lookup_zip_Some. done. Qed.

Lemma slots_get m i k v :
  0 <= i -> slots m !! Z.to_nat i = Some (k, v) ->
  _get_key (data m) i = Ok k /\ _get_val (data m) i = Ok v.
Proof.
  intros Hi [Hk Hv]%slots_lookup. unfold _get_key, _get_val.
  by rewrite (arr_get_ok _ _ _ Hi Hk), (arr_get_ok _ _ _ Hi Hv).
Qed.

Lemma slots_at m i :
  Z.of_nat (length (slots m)) = size m -> 0 <= i < size m ->
  exists k v, slots m !! Z.to_nat i = Some (k, v).
Proof.
  intros Hl Hi. destruct (lookup_in_range (slots m) i) as [[k v] ?]; [lia|eauto].
Qed.

End Slots.
