(* ===== verification/OsMapInsert.v ===== *)
(** * OsMapInsert: the insertion loop and rehashing

    [carrying m k v b i] is the loop invariant of
    [_os_map_insert_no_rehash]: the table is ordered, and the entry [(k, v)]
    in hand, at distance [b] from its home, may be stored at [i]. *)

From S2P Require Import Prelude OsMap OsMapInv.

Section Insert.
Context {K ID : Type} `{MapKeyLaws K ID}.

Implicit Types (m : os_map K) (k key : K) (v : Z).

Definition put_slot m (i : Z) key (val : Z) : os_map K :=
  set_data (OsMapData (<[Z.to_nat i := key]> (keys (data m)))
                      (<[Z.to_nat i := val]> (vals (data m)))) m.

Lemma store_slot_ok m i k v :
  Z.of_nat (length (keys (data m))) = size m ->
  Z.of_nat (length (vals (data m))) = size m ->
  0 <= i < size m -> store_slot m i k v = Ok (put_slot m i k v).
Proof.
  intros Hk Hv Hi. unfold store_slot, _set_key, _set_val.
  rewrite arr_set_ok by lia. cbn [rbind keys vals].
  by rewrite arr_set_ok by lia.
Qed.

Lemma slots_put m i k v :
  slots (put_slot m i k v) = <[Z.to_nat i := (k, v)]> (slots m).
Proof. unfold slots, put_slot. cbn. by rewrite insert_zip_with. Qed.

Definition same_frame m m' : Prop :=
  size m' = size m /\ count m' = count m /\ grow_shift m' = grow_shift m.

Record carrying m k v (b i : Z) : Prop := {
  ca_keys : Z.of_nat (length (keys (data m))) = size m;
  ca_vals : Z.of_nat (length (vals (data m))) = size m;
  ca_size : sound_size (size m);
  ca_i : 0 <= i < size m;
  ca_v : v <> NULL;
  ca_b : b = off (size m) k i;
  ca_prev : b <= slot_off (size m) (slots m) ((i - 1) mod size m) + 1;
  ca_rh : rh_ordered (size m) (slots m);
  ca_max0 : 0 <= max_bucket_offset m;
  ca_max : offs_below (size m) (slots m) (max_bucket_offset m);
}.

Lemma sound_size_bounds n : sound_size n -> 32 <= n <= 65536 /\ 2 ^ 32 mod n = 0.
Proof. done. Qed.

Lemma bucket_offset_true m k i :
  sound_size (size m) -> _os_map_bucket_offset m k i = Ok (off (size m) k i).
Proof.
  intros [Hs Hd]%sound_size_bounds. unfold _os_map_bucket_offset, _os_map_bucket.
  destruct (Z.eqb_spec (size m) 0); [lia|]. cbn [rbind].
  by rewrite u32_sub_mod by lia.
Qed.

(** Storing the entry in hand at [i], free or occupied by a nearer one, keeps
    the order. *)
Lemma rh_put n s i k v :
  0 < n -> Z.of_nat (length s) = n -> 0 <= i < n -> v <> NULL -> 2 <= n ->
  rh_ordered n s ->
  off n k i <= slot_off n s ((i - 1) mod n) + 1 ->
  slot_off n s i <= off n k i ->
  rh_ordered n (<[Z.to_nat i := (k, v)]> s).
Proof.
  intros Hn Hl Hi Hv H2 Hrh Hprev Hle p Hp.
  assert (Hnx : 0 <= (p + 1) mod n < n) by (apply Z.mod_pos_bound; lia).
  rewrite !slot_off_insert by lia. rewrite (proj2 (Z.eqb_neq v NULL) Hv).
  case_decide as E1; case_decide as E2.
  - lia.
  - assert (p = (i - 1) mod n) as -> by (rewrite <-E1; symmetry; by apply prev_next). lia.
  - subst p. specialize (Hrh i Hi). lia.
  - apply Hrh; lia.
Qed.

Lemma offs_below_put n s i k v mx :
  0 <= i < Z.of_nat (length s) -> offs_below n s mx -> off n k i <= mx -> -1 <= mx ->
  offs_below n (<[Z.to_nat i := (k, v)]> s) mx.
Proof.
  intros Hi Hb Ho Hm p Hp. rewrite slot_off_insert by lia.
  case_decide; [destruct (v =? NULL); lia|by apply Hb].
Qed.

Lemma offs_below_mono n s mx mx' : mx <= mx' -> offs_below n s mx -> offs_below n s mx'.
Proof. intros Hle Hb p Hp. specialize (Hb p Hp). lia. Qed.

Lemma raise_max_ok m b :
  b <= UINT16_MAX ->
  raise_max_bucket_offset m b =
    Ok (set_max_bucket_offset (Z.max (max_bucket_offset m) b) m).
Proof.
  intros Hb. unfold raise_max_bucket_offset, c_assert.
  destruct (Z.gtb_spec b (max_bucket_offset m)).
  - rewrite (proj2 (Z.leb_le _ _) Hb). cbn. by rewrite Z.max_r by lia.
  - rewrite Z.max_l by lia. by destruct m.
Qed.

(** *** One step: exchange the entry in hand with a nearer one *)

Record swapped m k v (b i : Z) m' k' v' b' : Prop := {
  sw_frame : same_frame m m';
  sw_carry : carrying m' k' v' b' i;
  sw_here : b' <= slot_off (size m) (slots m') i;
  sw_b : b' <= b;
  sw_free : forall p, 0 <= p -> slot_off (size m) (slots m) p = -1 ->
    slot_off (size m) (slots m') p = -1;
  sw_perm : entries (slots m') ++ [(k', v')] ≡ₚ entries (slots m) ++ [(k, v)];
}.

Lemma entries_put_swap s i k v k' v' :
  s !! i = Some (k', v') -> v' <> NULL -> v <> NULL ->
  entries (<[i:=(k, v)]> s) ++ [(k', v')] ≡ₚ entries s ++ [(k, v)].
Proof.
  intros Hs Hv' Hv. destruct (entries_insert_split s i (k, v) (k', v') Hs) as (r & -> & ->).
  rewrite !entries_single, (proj2 (Z.eqb_neq v NULL) Hv), (proj2 (Z.eqb_neq v' NULL) Hv').
  cbn. rewrite <-(Permutation_cons_append r), <-(Permutation_cons_append r).
  apply Permutation_swap.
Qed.

Lemma entries_put_free s i k v k' :
  s !! i = Some (k', NULL) -> v <> NULL ->
  entries (<[i:=(k, v)]> s) ≡ₚ entries s ++ [(k, v)].
Proof.
  intros Hs Hv. destruct (entries_insert_split s i (k, v) (k', NULL) Hs) as (r & -> & ->).
  rewrite !entries_single, (proj2 (Z.eqb_neq v NULL) Hv). cbn.
  apply Permutation_cons_append.
Qed.

Lemma carrying_length m k v b i :
  carrying m k v b i -> Z.of_nat (length (slots m)) = size m.
Proof. intros C. apply length_slots; [apply (ca_keys _ _ _ _ _ C)|apply (ca_vals _ _ _ _ _ C)]. Qed.

(** The entry in hand, once raised into [max_bucket_offset], fits at [i]. *)
Lemma carrying_put m k v b i k' v' b' :
  carrying m k v b i -> slot_off (size m) (slots m) i <= b ->
  v' <> NULL -> b' = off (size m) k' i -> b' <= b ->
  let m' := put_slot (set_max_bucket_offset (Z.max (max_bucket_offset m) b) m) i k v in
  carrying m' k' v' b' i /\ slot_off (size m) (slots m') i = b.
Proof.
  intros C Hle Hv' Hb' Hbb m'. pose proof (carrying_length _ _ _ _ _ C) as Hlen.
  destruct C as [Hk Hvs Hs Hi Hv Hb Hprev Hrh H0' Hmx].
  pose proof (sound_size_bounds _ Hs) as [? _].
  assert (Hsl : slots m' = <[Z.to_nat i := (k, v)]> (slots m))
    by (unfold m'; by rewrite slots_put).
  assert (Hi1 : 0 <= (i - 1) mod size m < size m) by (apply Z.mod_pos_bound; lia).
  assert (Hne : (i - 1) mod size m <> i).
  { intros E. pose proof (next_prev i (size m) Hi) as Hnp. rewrite E in Hnp.
    destruct (decide (i + 1 < size m)) as [Hlt|].
    - rewrite Z.mod_small in Hnp by lia. lia.
    - replace (i + 1) with (size m) in Hnp by lia. rewrite Z.mod_same in Hnp by lia. lia. }
  assert (Hhere : slot_off (size m) (slots m') i = b).
  { rewrite Hsl, slot_off_insert, decide_True by lia.
    by rewrite (proj2 (Z.eqb_neq v NULL) Hv). }
  split; [|done]. constructor; cbn [size set_data put_slot data keys vals
    set_max_bucket_offset max_bucket_offset m']; rewrite ?length_insert; try done.
  - rewrite Hsl, slot_off_insert, decide_False by lia. lia.
  - rewrite Hsl. subst b. apply rh_put; try done; lia.
  - lia.
  - rewrite Hsl. apply offs_below_put; [lia| |lia|lia].
    eapply offs_below_mono; [|exact Hmx]. lia.
Qed.

Lemma swap_if_needed_ok m k v b i lk lv :
  carrying m k v b i -> slots m !! Z.to_nat i = Some (lk, lv) -> lv <> NULL ->
  exists m' k' v' b',
    _swap_if_needed m k v b i = Ok (m', k', v', b') /\ swapped m k v b i m' k' v' b'.
Proof.
  intros C Hs Hlv. pose proof C as [Hk Hvs Hsz Hi Hv Hb Hprev Hrh H0' Hmx].
  pose proof (sound_size_bounds _ Hsz) as [? _].
  pose proof (slot_off_occupied (size m) _ _ _ _ Hs Hlv) as Hoff.
  pose proof (off_range (size m) lk i ltac:(lia)) as Hlr.
  pose proof (off_range (size m) k i ltac:(lia)) as Hkr.
  destruct (slots_get m i lk lv ltac:(lia) Hs) as [Hgk Hgv].
  assert (Hkeep : b <= off (size m) lk i ->
    swapped m k v b i m k v b).
  { intros. constructor; try done. lia. }
  unfold _swap_if_needed. destruct (Z.eqb_spec b 0) as [Hb0|Hb0]; cbn [negb].
  { do 4 eexists. split; [done|]. apply Hkeep. lia. }
  rewrite Hgk. cbn [rbind]. rewrite bucket_offset_true by done. cbn [rbind].
  destruct (Z.gtb_spec b (off (size m) lk i)) as [Hgt|Hle].
  2: { do 4 eexists. split; [done|]. apply Hkeep. lia. }
  rewrite raise_max_ok by (unfold UINT16_MAX; lia). cbn [rbind].
  unfold set_max_bucket_offset at 1. cbn [data]. rewrite Hgv. cbn [rbind].
  rewrite store_slot_ok by done. cbn [rbind]. do 4 eexists. split; [done|].
  destruct (carrying_put m k v b i lk lv (off (size m) lk i) C) as [C' Hh]; try done; try lia.
  constructor; try done; try lia.
  - intros p Hp Hfree. rewrite slots_put. unfold slots at 1. cbn [data set_max_bucket_offset].
    fold (slots m). pose proof (carrying_length _ _ _ _ _ C).
    rewrite slot_off_insert by lia. case_decide; [subst; lia|done].
  - rewrite slots_put. by apply entries_put_swap.
Qed.

(** *** The loop reaches a free slot *)

Lemma carrying_next m k v b i :
  carrying m k v b i -> b <= slot_off (size m) (slots m) i -> b + 1 < size m ->
  carrying m k v (u32 (b + 1)) (map_next i (size m)).
Proof.
  intros [Hk Hvs Hsz Hi Hv Hb Hprev Hrh H0' Hmx] Hle Hlt.
  pose proof (sound_size_bounds _ Hsz) as [? _].
  pose proof (off_range (size m) k i ltac:(lia)).
  rewrite map_next_mod, u32_small by lia.
  constructor; try done.
  - apply Z.mod_pos_bound. lia.
  - subst b. by rewrite off_next by lia.
  - rewrite prev_next by lia. lia.
Qed.

Lemma same_frame_trans m1 m2 m3 : same_frame m1 m2 -> same_frame m2 m3 -> same_frame m1 m3.
Proof. unfold same_frame. intuition congruence. Qed.

Lemma insert_loop_ok fuel m k v b i e :
  carrying m k v b i -> 0 <= e < size m -> slot_off (size m) (slots m) e = -1 ->
  b + (e - i) mod size m < size m -> (e - i) mod size m < Z.of_nat fuel ->
  exists m' k' v' b' i',
    insert_loop fuel m k v b i = Ok (m', k', v', b', i') /\
    carrying m' k' v' b' i' /\ same_frame m m' /\
    (exists k0, slots m' !! Z.to_nat i' = Some (k0, NULL)) /\
    entries (slots m') ++ [(k', v')] ≡ₚ entries (slots m) ++ [(k, v)].
Proof.
  revert m k v b i. induction fuel as [|fuel IH]; intros m k v b i C He Hfree Hsum Hfuel.
  { pose proof (Z.mod_pos_bound (e - i) (size m)). lia. }
  pose proof (ca_i _ _ _ _ _ C) as Hi.
  destruct (slots_at m i (carrying_length _ _ _ _ _ C) Hi) as (lk & lv & Hs).
  destruct (slots_get m i lk lv ltac:(lia) Hs) as [_ Hgv].
  cbn [insert_loop]. rewrite Hgv. cbn [rbind].
  destruct (Z.eqb_spec lv NULL) as [->|Hlv].
  { exists m, k, v, b, i. by repeat split; eauto; try apply C. }
  destruct (swap_if_needed_ok m k v b i lk lv C Hs Hlv)
    as (m1 & k1 & v1 & b1 & -> & [Hf C1 Hh Hb1 Hfr Hp]).
  cbn [rbind]. pose proof Hf as (Hsz & Hc & Hg).
  assert (Hei : e <> i).
  { intros ->. rewrite (slot_off_occupied _ _ _ _ _ Hs Hlv) in Hfree.
    pose proof (off_range (size m) lk i ltac:(lia)). lia. }
  destruct (dist_next e i (size m) Hi He Hei) as [Hd Hd0].
  assert (C2 : carrying m1 k1 v1 (u32 (b1 + 1)) (map_next i (size m1))).
  { apply carrying_next; rewrite ?Hsz; [done|done|lia]. }
  destruct (IH _ _ _ _ _ C2) as (m' & k' & v' & b' & i' & -> & C' & Hf' & Hk0 & Hp').
  - by rewrite Hsz.
  - rewrite Hsz. apply Hfr; [lia|done].
  - pose proof (ca_b _ _ _ _ _ C1) as Hb1'. rewrite Hsz in Hb1'.
    pose proof (ca_size _ _ _ _ _ C) as [? _]%sound_size_bounds.
    pose proof (off_range (size m) k1 i ltac:(lia)).
    rewrite Hsz, map_next_mod, Hd, u32_small by lia. lia.
  - pose proof (ca_size _ _ _ _ _ C) as [? _]%sound_size_bounds.
    rewrite Hsz, map_next_mod by lia. lia.
  - do 5 eexists. split; [done|]. split; [done|]. split; [by eapply same_frame_trans|].
    split; [done|]. by rewrite Hp', Hp.
Qed.

(** *** Insertion without growth *)

Lemma ids_perm s1 s2 k v :
  entries s1 ≡ₚ entries s2 ++ [(k, v)] -> ids s1 ≡ₚ ids s2 ++ [key_id k].
Proof. intros Hp. unfold ids. by rewrite Hp, fmap_app. Qed.

Lemma map_ok_length m : map_ok m -> Z.of_nat (length (slots m)) = size m.
Proof. intros []. by apply length_slots. Qed.

Lemma map_ok_free m :
  map_ok m -> exists e, 0 <= e < size m /\ slot_off (size m) (slots m) e = -1.
Proof.
  intros Hm. pose proof (map_ok_length m Hm) as Hl. destruct Hm.
  destruct (free_slot (slots m)) as (e & He & k & Hk); [lia|].
  exists e. split; [lia|]. by eapply slot_off_free.
Qed.

Lemma carrying_start m k v :
  map_ok m -> sound_size (size m) -> v <> NULL ->
  carrying m k v 0 (home (size m) k).
Proof.
  intros Hm Hs Hv. pose proof (sound_size_bounds _ Hs) as [? _]. destruct Hm.
  constructor; try done.
  - apply Z.mod_pos_bound. lia.
  - by rewrite off_home by lia.
  - pose proof (slot_off_ge (size m) (slots m) ((home (size m) k - 1) mod size m)). lia.
Qed.

Lemma insert_no_rehash_ok m k v :
  map_ok m -> sound_size (size m) -> v <> NULL -> count m + 1 < size m ->
  key_id k ∉ ids (slots m) ->
  exists m', _os_map_insert_no_rehash m k v = Ok m' /\ map_ok m' /\
    size m' = size m /\ grow_shift m' = grow_shift m /\
    entries (slots m') ≡ₚ entries (slots m) ++ [(k, v)].
Proof.
  intros Hm Hs Hv Hfill Hnew. pose proof (sound_size_bounds _ Hs) as [? _].
  destruct (map_ok_free m Hm) as (e & He & Hfree).
  unfold _os_map_insert_no_rehash, _os_map_bucket.
  destruct (Z.eqb_spec (size m) 0); [lia|]. cbn [rbind]. fold (home (size m) k).
  destruct (insert_loop_ok (Z.to_nat (size m)) m k v 0 (home (size m) k) e)
    as (m1 & k1 & v1 & b1 & i1 & -> & C & (Hsz & Hc & Hg) & [k0 Hk0] & Hp); try done.
  { by apply carrying_start. }
  { pose proof (Z.mod_pos_bound (e - home (size m) k) (size m)). lia. }
  { pose proof (Z.mod_pos_bound (e - home (size m) k) (size m)). lia. }
  cbn [rbind]. pose proof C as [Hks Hvs _ Hi Hv1 Hb1 _ _ _ _].
  pose proof (off_range (size m1) k1 i1 ltac:(lia)).
  rewrite raise_max_ok by (unfold UINT16_MAX; lia). cbn [rbind].
  rewrite store_slot_ok by done. cbn [rbind].
  destruct (carrying_put m1 k1 v1 b1 i1 k1 v1 b1 C) as [C' _]; try done.
  { rewrite (slot_off_free _ _ _ _ Hk0). lia. }
  set (m2 := put_slot _ _ _ _) in *.
  assert (He2 : entries (slots m2) ≡ₚ entries (slots m) ++ [(k, v)]).
  { unfold m2. rewrite slots_put. rewrite <-Hp. by eapply entries_put_free. }
  assert (Hcnt : u32 (count m2 + 1) = count m + 1).
  { cbn. rewrite Hc. apply u32_small. destruct Hm. lia. }
  eexists. split; [done|]. split; [|by cbn].
  destruct C', Hm. constructor; cbn [set_count size data keys vals count grow_shift
    max_bucket_offset]; try done; rewrite ?Hcnt.
  - unfold UINT32_MAX, MAP_MINSIZE in *. cbn in *. lia.
  - cbn. by rewrite Hg, Hsz.
  - unfold slots at 1. cbn [data]. fold (slots m2). rewrite He2, length_app. cbn. lia.
  - cbn. lia.
  - unfold slots at 1. cbn [data]. fold (slots m2). rewrite (ids_perm _ _ _ _ He2).
    rewrite NoDup_app. repeat split; [done| |apply NoDup_singleton].
    intros x Hx ->%list_elem_of_singleton. done.
Qed.

(** *** Rehashing *)

Lemma slots_fresh n c sz gs mx :
  entries (slots (OsMap (OsMapData (replicate n key_null) (replicate n NULL)) c sz gs mx)) = [].
Proof.
  unfold slots, entries. cbn. induction n as [|n IH]; [done|]. cbn [replicate zip_with].
  rewrite filter_cons_False by (cbn; naive_solver). exact IH.
Qed.

Lemma slot_off_no_entry n s p : entries s = [] -> slot_off n s p = -1.
Proof.
  intros He. unfold slot_off. destruct (s !! Z.to_nat p) as [[k v]|] eqn:E; [|done].
  destruct (Z.eqb_spec v NULL) as [|Hv]; [done|]. exfalso.
  apply list_elem_of_lookup_2 in E.
  assert (Hin : (k, v) ∈ entries s) by (apply list_elem_of_filter; by split).
  rewrite He in Hin. by apply not_elem_of_nil in Hin.
Qed.

Lemma fresh_ok sz gs :
  MAP_MINSIZE <= sz < UINT32_MAX -> MAP_MINSHIFT <= gs /\ 2 ^ gs <= sz ->
  map_ok (OsMap (OsMapData (replicate (Z.to_nat sz) key_null)
                           (replicate (Z.to_nat sz) NULL)) 0 sz gs 0).
Proof.
  intros Hsz Hgs. assert (32 <= sz) by (destruct Hsz; done).
  pose proof (slots_fresh (Z.to_nat sz) 0 sz gs 0) as He.
  constructor; cbn [data keys vals size count grow_shift max_bucket_offset];
    rewrite ?length_replicate; try done; try lia.
  - by rewrite He.
  - unfold ids. rewrite He. constructor.
  - intros p Hp. rewrite !slot_off_no_entry by done. lia.
  - intros p Hp. rewrite slot_off_no_entry by done. lia.
Qed.

Lemma rehash_loop_ok n i (d : os_map_data K) m :
  0 <= i -> Z.of_nat (length (keys d)) = i + Z.of_nat n ->
  Z.of_nat (length (vals d)) = i + Z.of_nat n ->
  let rest := entries (drop (Z.to_nat i) (zip (keys d) (vals d))) in
  map_ok m -> sound_size (size m) ->
  NoDup (ids (slots m) ++ ((fun e => key_id e.1) <$> rest)) ->
  count m + Z.of_nat (length rest) < size m ->
  exists m', rehash_loop n i d m = Ok m' /\ map_ok m' /\ size m' = size m /\
    grow_shift m' = grow_shift m /\ entries (slots m') ≡ₚ entries (slots m) ++ rest.
Proof.
  revert i m. induction n as [|n IH]; intros i m Hi Hlk Hlv rest Hm Hs Hnd Hfill.
  { exists m. cbn. unfold rest. rewrite drop_ge by (rewrite length_zip; lia).
    by rewrite app_nil_r. }
  destruct (lookup_in_range (keys d) i) as [k Hk]; [lia|].
  destruct (lookup_in_range (vals d) i) as [v Hv]; [lia|].
  assert (Hz : zip (keys d) (vals d) !! Z.to_nat i = Some (k, v)) by (by rewrite lookup_zip_Some).
  assert (Hrest : rest = entries [(k, v)] ++
      entries (drop (Z.to_nat (i + 1)) (zip (keys d) (vals d)))).
  { unfold rest. rewrite (drop_S _ _ _ Hz), <-entries_app.
    by replace (Z.to_nat (i + 1)) with (S (Z.to_nat i)) by lia. }
  rewrite entries_single in Hrest. clearbody rest. subst rest.
  cbn [rehash_loop]. unfold _get_val, _get_key.
  rewrite (arr_get_ok _ _ _ Hi Hv), (arr_get_ok _ _ _ Hi Hk). cbn [rbind].
  destruct (Z.eqb_spec v NULL) as [Hv0|Hvn]; cbn [app] in *.
  { apply IH; try done; lia. }
  cbn [fmap list_fmap length app] in Hnd, Hfill.
  destruct (insert_no_rehash_ok m k v) as (m1 & -> & Hm1 & Hsz & Hg & Hp); try done; try lia.
  { apply NoDup_app in Hnd as (_ & Hd & _). intros Hin. by eapply Hd; [exact Hin|left]. }
  cbn [rbind].
  assert (Hc1 : count m1 = count m + 1).
  { rewrite (ok_count m1 Hm1), (ok_count m Hm), Hp, length_app. cbn. lia. }
  destruct (IH (i + 1) m1) as (m' & -> & Hm' & Hsz' & Hg' & Hp'); try done; try lia.
  { by rewrite Hsz. }
  { rewrite (ids_perm _ _ _ _ Hp), <-app_assoc. exact Hnd. }
  exists m'. split; [done|]. split; [done|]. split; [congruence|]. split; [congruence|].
  by rewrite Hp', Hp, <-app_assoc.
Qed.

Lemma rehash_ok (can_alloc : Z -> bool) m direction :
  map_ok m -> sound_size (resize m direction).1 ->
  MAP_MINSHIFT <= (resize m direction).2 /\ 2 ^ (resize m direction).2 <= (resize m direction).1 ->
  can_alloc (resize m direction).1 = true -> count m < (resize m direction).1 ->
  exists m', _os_map_rehash can_alloc m direction = Ok m' /\ map_ok m' /\
    size m' = (resize m direction).1 /\ grow_shift m' = (resize m direction).2 /\
    entries (slots m') ≡ₚ entries (slots m).
Proof.
  intros Hm Hs Hg Ha Hc. unfold _os_map_rehash.
  destruct (resize m direction) as [sz gs]. cbn [fst snd] in *.
  pose proof (sound_size_bounds _ Hs) as [? _].
  unfold _alloc_data. rewrite Ha. cbn [c_assert rbind].
  rewrite (proj2 (Z.ltb_lt _ _)) by (unfold UINT32_MAX; lia). cbn [c_assert rbind].
  pose proof (slots_fresh (Z.to_nat sz) 0 sz gs 0) as He.
  set (m0 := OsMap _ 0 sz gs 0) in *.
  destruct (rehash_loop_ok (Z.to_nat (size m)) 0 (data m) m0)
    as (m' & -> & Hm' & Hsz & Hgs & Hp);
    cbn [Z.to_nat]; rewrite ?drop_0; fold (slots m).
  - lia.
  - destruct Hm. lia.
  - destruct Hm. lia.
  - apply fresh_ok; [|done]. split; [apply Hs|unfold UINT32_MAX; lia].
  - done.
  - unfold ids at 1. rewrite He. apply (ok_nodup m Hm).
  - destruct Hm. cbn. lia.
  - exists m'. split; [done|]. split; [done|]. split; [done|]. split; [done|].
    cbn [Z.to_nat] in Hp. by rewrite He, drop_0 in Hp.
Qed.

End Insert.
