(* ===== verification/OsMapFind.v ===== *)
(** * OsMapFind: lookup and removal

    Lookup stops at a free slot or past the largest recorded distance; the
    Robin Hood order makes both stops conclusive.  Removal shifts the run
    after the removed entry back by one slot; [hole] is the invariant of that
    loop. *)

From S2P Require Import Prelude OsMap OsMapInv OsMapInsert.

Section Find.
Context {K ID : Type} `{MapKeyLaws K ID}.

Implicit Types (m : os_map K) (k key : K) (v : Z).

(** An entry of the table with the key's identity. *)
Definition holds m key (p : Z) v : Prop :=
  exists k, 0 <= p < size m /\ slots m !! Z.to_nat p = Some (k, v) /\
    v <> NULL /\ key_id k = key_id key.

Lemma holds_off m key p v :
  holds m key p v -> slot_off (size m) (slots m) p = off (size m) key p.
Proof.
  intros (k & Hp & Hs & Hv & Hid). rewrite (slot_off_occupied _ _ _ _ _ Hs Hv).
  unfold off, home. by rewrite (hash_id _ _ Hid).
Qed.

Lemma not_holds_ids m key :
  map_ok m -> (forall p v, ~ holds m key p v) -> key_id key ∉ ids (slots m).
Proof.
  intros Hm Hno Hin. unfold ids in Hin.
  apply list_elem_of_fmap in Hin as ([k v] & Hid & He).
  apply list_elem_of_filter in He as [Hv He].
  apply list_elem_of_lookup in He as [i Hi]. cbn in *.
  pose proof (map_ok_length m Hm). apply lookup_lt_Some in Hi as Hlt.
  apply (Hno (Z.of_nat i) v). exists k. rewrite Nat2Z.id. repeat split; auto; lia.
Qed.

(** Nothing nearer than [b] holds the key, and lookup stopped at distance [b]. *)
Lemma stop_conclusive m key i :
  map_ok m -> 0 <= i < size m ->
  (forall p v, holds m key p v -> off (size m) key i <= off (size m) key p) ->
  max_bucket_offset m < off (size m) key i \/ slot_off (size m) (slots m) i = -1 ->
  forall p v, ~ holds m key p v.
Proof.
  intros Hm Hi Hmin Hstop p v Hh. pose proof (holds_off _ _ _ _ Hh) as Ho.
  pose proof (Hmin _ _ Hh) as Hle. destruct Hh as (k & Hp & _).
  pose proof (off_range (size m) key i ltac:(lia)).
  destruct Hstop as [Hmx|Hfree].
  { pose proof (ok_max m Hm p ltac:(lia)). lia. }
  set (j := off (size m) key p - off (size m) key i) in *.
  pose proof (rh_chain (size m) (slots m) p (Z.to_nat j) ltac:(lia) (ok_rh m Hm) Hp) as Hc.
  rewrite Z2Nat.id in Hc by lia.
  assert ((p - j) mod size m = i) as E.
  { apply (off_inj (size m) key); [apply Z.mod_pos_bound; lia|lia|].
    unfold off at 1. rewrite Zminus_mod_idemp_l.
    replace (p - j - home (size m) key) with (p - home (size m) key - j) by lia.
    rewrite <-Zminus_mod_idemp_l. fold (off (size m) key p).
    replace (off (size m) key p - j) with (off (size m) key i) by lia.
    apply Z.mod_small, off_range. lia. }
  rewrite E in Hc. lia.
Qed.

Lemma slots_holds m key p k v :
  0 <= p < size m -> slots m !! Z.to_nat p = Some (k, v) -> v <> NULL ->
  os_map_key_equals key k = true -> holds m key p v.
Proof.
  intros Hp Hs Hv Heq. exists k. repeat split; try done; try lia.
  symmetry. by apply key_equals_id.
Qed.

Lemma find_loop_ok fuel m key i e :
  map_ok m -> 0 <= i < size m -> 0 <= e < size m ->
  slot_off (size m) (slots m) e = -1 ->
  off (size m) key i + (e - i) mod size m < size m ->
  (e - i) mod size m < Z.of_nat fuel ->
  (forall p v, holds m key p v -> off (size m) key i <= off (size m) key p) ->
  exists v i', find_loop fuel m key i (off (size m) key i) = Ok (v, i') /\
    (v = NULL /\ (forall p v, ~ holds m key p v) \/ holds m key i' v).
Proof.
  intros Hm. revert i. induction fuel as [|fuel IH]; intros i Hi He Hfree Hsum Hfuel Hmin.
  { pose proof (Z.mod_pos_bound (e - i) (size m)). lia. }
  destruct (slots_at m i (map_ok_length m Hm) Hi) as (k & v & Hs).
  destruct (slots_get m i k v ltac:(lia) Hs) as [Hgk Hgv].
  pose proof (off_range (size m) key i ltac:(lia)).
  cbn [find_loop]. destruct (Z.gtb_spec (off (size m) key i) (max_bucket_offset m)).
  { exists NULL, i. split; [done|]. left. split; [done|].
    apply (stop_conclusive m key i); auto with lia. }
  rewrite Hgv, Hgk. cbn [rbind]. destruct (Z.eqb_spec v NULL) as [Hv|Hv].
  { exists NULL, i. split; [done|]. left. split; [done|].
    apply (stop_conclusive m key i); try done. right. unfold slot_off. by rewrite Hs, Hv. }
  destruct (os_map_key_equals key k) eqn:Heq.
  { exists v, i. split; [done|]. right. by eapply slots_holds. }
  pose proof (slot_off_occupied (size m) _ _ _ _ Hs Hv) as Ho.
  assert (Hei : e <> i).
  { intros ->. pose proof (off_range (size m) k i ltac:(lia)). lia. }
  destruct (dist_next e i (size m) Hi He Hei) as [Hd Hd0].
  pose proof (ok_size m Hm) as [_ Hs2]. unfold UINT32_MAX in Hs2.
  rewrite map_next_mod, u32_small by lia.
  rewrite <-(off_next (size m) key i) by lia. apply IH; try done.
  - apply Z.mod_pos_bound. lia.
  - rewrite off_next by lia. lia.
  - lia.
  - intros p w Hh. rewrite off_next by lia. specialize (Hmin p w Hh).
    destruct (decide (off (size m) key p = off (size m) key i)) as [E|]; [|lia].
    exfalso. destruct Hh as (k' & Hp & Hs' & Hw & Hid).
    apply (off_inj (size m) key) in E; [|lia..]. subst p. rewrite Hs in Hs'.
    injection Hs' as -> ->. apply not_true_iff_false in Heq. apply Heq.
    by apply key_equals_id.
Qed.

(** The lookup helper: NULL exactly when no slot holds the key. *)
Lemma find_helper_ok m key i0 :
  map_ok m ->
  exists v i, _os_map_find_helper m key i0 = Ok (v, i) /\
    (v = NULL /\ (forall p v, ~ holds m key p v) \/ holds m key i v).
Proof.
  intros Hm. unfold _os_map_find_helper. pose proof (ok_size m Hm) as [Hmin _].
  assert (32 <= size m) by done.
  destruct (Z.eqb_spec (count m) 0) as [Hc|Hc].
  { exists NULL, i0. split; [done|]. left. split; [done|].
    intros p v (k & Hp & Hs & Hv & _). pose proof (ok_count m Hm) as Hct. rewrite Hc in Hct.
    assert (He : entries (slots m) = []) by (apply nil_length_inv; lia).
    pose proof (slot_off_no_entry (size m) _ p He) as Hno.
    rewrite (slot_off_occupied _ _ _ _ _ Hs Hv) in Hno.
    pose proof (off_range (size m) k p). lia. }
  unfold _os_map_bucket. destruct (Z.eqb_spec (size m) 0); [lia|]. cbn [rbind].
  fold (home (size m) key). destruct (map_ok_free m Hm) as (e & He & Hfree).
  assert (Hh : 0 <= home (size m) key < size m) by (apply Z.mod_pos_bound; lia).
  pose proof (Z.mod_pos_bound (e - home (size m) key) (size m) ltac:(lia)).
  pose proof (find_loop_ok (Z.to_nat (size m)) m key (home (size m) key) e) as HL.
  rewrite off_home in HL by lia. apply HL; try done; try lia.
  intros p w _. pose proof (off_range (size m) key p). lia.
Qed.

(** *** The abstract map and the slots *)

Lemma abs_fst s : ((fun e : K * Z => (key_id e.1, e)) <$> entries s).*1 = ids s.
Proof. unfold ids. by rewrite <-list_fmap_compose. Qed.

Lemma abs_lookup_holds m key p v :
  map_ok m -> holds m key p v -> exists k, abs m !! key_id key = Some (k, v) /\
    slots m !! Z.to_nat p = Some (k, v).
Proof.
  intros Hm (k & Hp & Hs & Hv & Hid). exists k. split; [|done].
  unfold abs, abs_slots. apply elem_of_list_to_map.
  - rewrite abs_fst. apply (ok_nodup m Hm).
  - apply list_elem_of_fmap. exists (k, v). cbn. rewrite Hid. split; [done|].
    apply list_elem_of_filter. split; [done|]. by eapply list_elem_of_lookup_2.
Qed.

Lemma abs_lookup_none m key :
  map_ok m -> (forall p v, ~ holds m key p v) -> abs m !! key_id key = None.
Proof.
  intros Hm Hno. unfold abs, abs_slots. apply not_elem_of_list_to_map.
  rewrite abs_fst. by apply not_holds_ids.
Qed.

End Find.
