(* ===== verification/OsMapRemove.v ===== *)
(** * OsMapRemove: the backward shift

    [hole m c b] is the invariant of the loop of [_os_map_remove_entry]: with
    slot [c] taken as free the table is ordered except possibly right after
    [c], where the next entry may be as far as [b + 1] from its home. *)

From S2P Require Import Prelude OsMap OsMapInv OsMapInsert OsMapFind.

Section Remove.
Context {K ID : Type} `{MapKeyLaws K ID}.

Implicit Types (m : os_map K) (k key : K) (v : Z).

Definition hole_slots m (c : Z) : list (K * Z) :=
  <[Z.to_nat c := (key_null, NULL)]> (slots m).

Record hole m (c b : Z) : Prop := {
  ho_keys : Z.of_nat (length (keys (data m))) = size m;
  ho_vals : Z.of_nat (length (vals (data m))) = size m;
  ho_size : 32 <= size m < UINT32_MAX;
  ho_c : 0 <= c < size m;
  ho_rh : forall p, 0 <= p < size m -> p <> c ->
    slot_off (size m) (hole_slots m c) ((p + 1) mod size m) <=
    slot_off (size m) (hole_slots m c) p + 1;
  ho_prev : b <= slot_off (size m) (hole_slots m c) ((c - 1) mod size m) + 1;
  ho_next : slot_off (size m) (hole_slots m c) ((c + 1) mod size m) <= b + 1;
  ho_max : offs_below (size m) (hole_slots m c) (max_bucket_offset m);
}.

Lemma hole_length m c b : hole m c b -> Z.of_nat (length (slots m)) = size m.
Proof. intros []. by apply length_slots. Qed.

Lemma slot_off_hole n m c p :
  0 <= c < Z.of_nat (length (slots m)) -> 0 <= p ->
  slot_off n (hole_slots m c) p = if decide (p = c) then -1 else slot_off n (slots m) p.
Proof. intros. unfold hole_slots. by rewrite slot_off_insert. Qed.

Lemma next_ne i n : 2 <= n -> 0 <= i < n -> (i + 1) mod n <> i.
Proof.
  intros Hn Hi. destruct (decide (i + 1 < n)).
  - rewrite Z.mod_small by lia. lia.
  - replace (i + 1) with n by lia. rewrite Z.mod_same by lia. lia.
Qed.

Lemma next_next_ne i n : 3 <= n -> 0 <= i < n -> ((i + 1) mod n + 1) mod n <> i.
Proof.
  intros Hn Hi. rewrite Zplus_mod_idemp_l. destruct (decide (i + 2 < n)).
  - rewrite Z.mod_small by lia. lia.
  - replace (i + 1 + 1) with ((i + 2 - n) + 1 * n) by lia.
    rewrite Z.mod_add, Z.mod_small by lia. lia.
Qed.

(** Moving the next entry into the hole moves the hole. *)
Lemma hole_slots_step m c x k v :
  0 <= c -> 0 <= x -> x <> c ->
  hole_slots (put_slot m c k v) x =
  <[Z.to_nat c := (k, v)]> (<[Z.to_nat x := (key_null, NULL)]> (hole_slots m c)).
Proof.
  intros Hc Hx Hne. unfold hole_slots. rewrite slots_put.
  assert (Z.to_nat x <> Z.to_nat c) by lia.
  rewrite (list_insert_insert_ne (slots m) _ _ (key_null, NULL) (key_null, NULL)) by done.
  rewrite list_insert_insert_eq. by rewrite list_insert_insert_ne by done.
Qed.

Lemma hole_entries_step m c x k v :
  0 <= c < Z.of_nat (length (slots m)) -> 0 <= x -> x <> c ->
  slots m !! Z.to_nat x = Some (k, v) -> v <> NULL ->
  entries (hole_slots (put_slot m c k v) x) ≡ₚ entries (hole_slots m c).
Proof.
  intros Hc Hx Hne Hs Hv. rewrite hole_slots_step by lia.
  assert (Hhx : hole_slots m c !! Z.to_nat x = Some (k, v)).
  { unfold hole_slots. by rewrite list_lookup_insert_ne by lia. }
  destruct (entries_insert_split _ _ (key_null, NULL) _ Hhx) as (r & H1 & H2).
  rewrite entries_put_free; [|rewrite list_lookup_insert_ne by lia; unfold hole_slots;
    by rewrite list_lookup_insert_eq by lia|done].
  rewrite H2, H1, !entries_single, (proj2 (Z.eqb_neq v NULL) Hv). cbn.
  symmetry. apply Permutation_cons_append.
Qed.

Lemma slot_off_step n m c x k v p :
  0 <= c < Z.of_nat (length (slots m)) -> 0 <= x < Z.of_nat (length (slots m)) ->
  x <> c -> v <> NULL -> 0 <= p ->
  slot_off n (hole_slots (put_slot m c k v) x) p =
    if decide (p = c) then off n k c else if decide (p = x) then -1
    else slot_off n (hole_slots m c) p.
Proof.
  intros Hc Hx Hne Hv Hp. rewrite hole_slots_step by lia.
  assert (Z.of_nat (length (hole_slots m c)) = Z.of_nat (length (slots m)))
    by (unfold hole_slots; by rewrite length_insert).
  rewrite slot_off_insert by (rewrite ?length_insert; lia).
  rewrite (proj2 (Z.eqb_neq v NULL) Hv). case_decide; [done|].
  by rewrite slot_off_insert by lia.
Qed.

Lemma hole_step m c b k v :
  hole m c b -> let x := (c + 1) mod size m in
  slots m !! Z.to_nat x = Some (k, v) -> v <> NULL -> home (size m) k <> x ->
  hole (put_slot m c k v) x (off (size m) k x).
Proof.
  intros Hh x Hs Hv Hhome. pose proof (hole_length _ _ _ Hh) as Hl.
  destruct Hh as [Hk Hvs Hsz Hc Hrh Hprev Hnext Hmax]. fold x in Hnext.
  assert (Hx : 0 <= x < size m) by (apply Z.mod_pos_bound; lia).
  assert (Hxc : x <> c) by (apply next_ne; lia).
  pose proof (off_range (size m) k x ltac:(lia)) as Hr.
  assert (Hsx : slot_off (size m) (hole_slots m c) x = off (size m) k x).
  { rewrite slot_off_hole, decide_False by lia. by eapply slot_off_occupied. }
  assert (Hpos : 0 < off (size m) k x).
  { destruct (decide (off (size m) k x = 0)) as [E|]; [|lia]. exfalso. apply Hhome.
    apply (off_inj (size m) k); [apply Z.mod_pos_bound; lia|lia|].
    by rewrite off_home by lia. }
  assert (Hoc : off (size m) k c = off (size m) k x - 1).
  { unfold off in *. rewrite <-mod_pred by lia. unfold x.
    replace ((c + 1) mod size m - home (size m) k - 1)
      with ((c + 1) mod size m - (home (size m) k + 1)) by lia.
    rewrite Zminus_mod_idemp_l. f_equal. lia. }
  constructor; cbn [put_slot set_data data keys vals size max_bucket_offset];
    rewrite ?length_insert; try done.
  - intros p Hp Hpx.
    assert (0 <= (p + 1) mod size m < size m) by (apply Z.mod_pos_bound; lia).
    rewrite !slot_off_step by lia. rewrite (decide_False (P := p = x)) by done.
    case_decide as E1; case_decide as E2.
    + subst p. exfalso. by apply (next_ne c (size m)); [lia|lia|].
    + assert (p = (c - 1) mod size m) as -> by (rewrite <-E1; by rewrite prev_next by lia). lia.
    + assert (p = c) as -> by (rewrite <-(prev_next c (size m)), <-(prev_next p (size m)) by lia;
        by rewrite E2).
      rewrite decide_True by done. lia.
    + case_decide as E3; [subst p; by destruct E2|by apply Hrh].
  - replace ((x - 1) mod size m) with c by (unfold x; by rewrite prev_next by lia).
    rewrite slot_off_step, decide_True by lia. lia.
  - rewrite slot_off_step by (try apply Z.mod_pos_bound; lia).
    rewrite decide_False by (apply next_next_ne; lia).
    rewrite decide_False by (apply next_ne; lia). rewrite <-Hsx. apply Hrh; lia.
  - intros p Hp. rewrite slot_off_step by lia.
    pose proof (Hmax x ltac:(lia)). case_decide; [lia|]. case_decide; [lia|]. by apply Hmax.
Qed.

Lemma shift_loop_ok fuel m c b k v e :
  hole m c b -> 0 <= e < size m -> e <> c ->
  slot_off (size m) (hole_slots m c) e = -1 -> (e - c) mod size m <= Z.of_nat fuel ->
  slots m !! Z.to_nat ((c + 1) mod size m) = Some (k, v) ->
  exists m' c', shift_loop fuel m c (map_next c (size m)) k v = Ok (m', c') /\
    same_frame m m' /\ max_bucket_offset m' = max_bucket_offset m /\
    (exists b', hole m' c' b') /\
    slot_off (size m) (slots m') ((c' + 1) mod size m) <= 0 /\
    entries (hole_slots m' c') ≡ₚ entries (hole_slots m c).
Proof.
  revert m c b k v. induction fuel as [|fuel IH]; intros m c b k v Hh He Hec Hfree Hfuel Hs.
  { pose proof (ho_c _ _ _ Hh). destruct (dist_next e c (size m)); [lia..|]. lia. }
  pose proof Hh as [_ _ Hsz Hc _ _ _ _]. unfold UINT32_MAX in Hsz.
  pose proof (hole_length _ _ _ Hh) as Hl.
  assert (Hx : 0 <= (c + 1) mod size m < size m) by (apply Z.mod_pos_bound; lia).
  cbn [shift_loop]. rewrite map_next_mod by lia.
  assert (Hstop : slot_off (size m) (slots m) ((c + 1) mod size m) <= 0 ->
    exists m' c', Ok (m, c) = Ok (m', c') /\ same_frame m m' /\
    max_bucket_offset m' = max_bucket_offset m /\ (exists b', hole m' c' b') /\
    slot_off (size m) (slots m') ((c' + 1) mod size m) <= 0 /\
    entries (hole_slots m' c') ≡ₚ entries (hole_slots m c)).
  { intros. exists m, c. split; [done|]. split; [by repeat split|]. eauto. }
  destruct (Z.eqb_spec v NULL) as [Hv|Hv].
  { apply Hstop. unfold slot_off. rewrite Hs, Hv. cbn. lia. }
  unfold _os_map_bucket. destruct (Z.eqb_spec (size m) 0); [lia|]. cbn [rbind].
  fold (home (size m) k). destruct (Z.eqb_spec (home (size m) k) ((c + 1) mod size m)) as [E|E].
  { apply Hstop. rewrite (slot_off_occupied _ _ _ _ _ Hs Hv), <-E, off_home; lia. }
  rewrite store_slot_ok by (try apply Hh; lia). cbn [rbind].
  pose proof (hole_step m c b k v Hh Hs Hv E) as Hh'. set (m1 := put_slot m c k v) in *.
  set (x := (c + 1) mod size m) in *.
  assert (Hxc : x <> c) by (apply next_ne; lia).
  assert (Hex : e <> x).
  { intros ->. rewrite slot_off_hole, decide_False in Hfree by lia.
    rewrite (slot_off_occupied _ _ _ _ _ Hs Hv) in Hfree.
    pose proof (off_range (size m) k x ltac:(lia)). lia. }
  destruct (slots_at m1 ((x + 1) mod size m)) as (k1 & v1 & Hs1).
  { exact (hole_length _ _ _ Hh'). }
  { apply Z.mod_pos_bound. cbn. lia. }
  change (size m1) with (size m) in *. rewrite map_next_mod by lia.
  destruct (slots_get m1 ((x + 1) mod size m) k1 v1) as [Hgk Hgv];
    [apply Z.mod_pos_bound; lia|done|]. rewrite Hgk, Hgv. cbn [rbind].
  destruct (dist_next e c (size m)) as [Hd Hd0]; [lia..|].
  destruct (IH m1 x (off (size m) k x) k1 v1 Hh') as (m' & c' & Hr & Hf & Hmx & Hb & Hno & Hp);
    try done; change (size m1) with (size m).
  - unfold m1. rewrite slot_off_step by lia. rewrite !decide_False by done. done.
  - fold x in Hd. lia.
  - change (size m1) with (size m) in Hr. rewrite map_next_mod in Hr by lia.
    exists m', c'. split; [done|]. split; [done|]. split; [done|]. split; [done|].
    split; [done|]. rewrite Hp. apply hole_entries_step; try done; lia.
Qed.

(** *** The whole removal *)

Lemma hole_start m p k v :
  map_ok m -> 0 <= p < size m -> slots m !! Z.to_nat p = Some (k, v) -> v <> NULL ->
  hole m p (slot_off (size m) (slots m) p).
Proof.
  intros Hm Hp Hs Hv. pose proof (map_ok_length m Hm) as Hl.
  pose proof (ok_size m Hm) as [H32 Hlt]. assert (32 <= size m) by done.
  assert (Hn : (p + 1) mod size m <> p) by (apply next_ne; lia).
  assert (0 <= (p - 1) mod size m < size m) by (apply Z.mod_pos_bound; lia).
  assert (Hpv : (p - 1) mod size m <> p).
  { intros E. apply Hn. rewrite <-E at 1. by apply next_prev. }
  constructor; try apply Hm; try lia.
  - intros q Hq Hne. rewrite !slot_off_hole by (try apply Z.mod_pos_bound; lia).
    rewrite (decide_False (P := q = p)) by done.
    pose proof (slot_off_ge (size m) (slots m) q ltac:(lia)).
    case_decide; [lia|]. by apply (ok_rh m Hm).
  - rewrite slot_off_hole, decide_False by lia.
    pose proof (ok_rh m Hm ((p - 1) mod size m) ltac:(lia)) as Hr.
    rewrite next_prev in Hr by lia. lia.
  - rewrite slot_off_hole, decide_False by (try apply Z.mod_pos_bound; lia).
    by apply (ok_rh m Hm).
  - intros q Hq. rewrite slot_off_hole by lia. pose proof (ok_max0 m Hm).
    case_decide; [lia|]. by apply (ok_max m Hm).
Qed.

Lemma hole_free m p k v :
  map_ok m -> 0 <= p < size m -> slots m !! Z.to_nat p = Some (k, v) -> v <> NULL ->
  exists e, 0 <= e < size m /\ e <> p /\ slot_off (size m) (hole_slots m p) e = -1.
Proof.
  intros Hm Hp Hs Hv. destruct (map_ok_free m Hm) as (e & He & Hf). exists e.
  pose proof (map_ok_length m Hm). assert (e <> p).
  { intros ->. rewrite (slot_off_occupied _ _ _ _ _ Hs Hv) in Hf.
    pose proof (off_range (size m) k p). lia. }
  split; [done|]. split; [done|]. by rewrite slot_off_hole, decide_False by lia.
Qed.

(** Clearing the value of the hole gives an ordered table. *)
Lemma clear_hole_ok m m' c b d k v :
  map_ok m -> hole m' c b -> same_frame m m' ->
  max_bucket_offset m' = max_bucket_offset m ->
  slot_off (size m) (slots m') ((c + 1) mod size m) <= 0 ->
  entries (slots m) ≡ₚ entries (hole_slots m' c) ++ [(k, v)] ->
  _set_val (data m') c NULL = Ok d ->
  map_ok (set_count (u32 (count m - 1)) (set_data d m')) /\ 
  entries (slots (set_data d m')) ≡ₚ entries (hole_slots m' c).
Proof.
  intros Hm Hh (Hsz & Hc & Hg) Hmx Hno Hp Hd. pose proof (hole_length _ _ _ Hh) as Hl.
  pose proof Hh as [Hk Hvs H32 Hci Hrh Hprev Hnext Hmax].
  unfold _set_val in Hd. rewrite arr_set_ok in Hd by lia. injection Hd as <-.
  set (m2 := set_data _ m').
  destruct (slots_at m' c Hl Hci) as (kc & vc & Hs). apply slots_lookup in Hs as [Hkc _].
  assert (Hsl : slots m2 = <[Z.to_nat c := (kc, NULL)]> (slots m')).
  { unfold m2, slots. cbn. rewrite <-(list_insert_id (keys (data m')) (Z.to_nat c) kc) at 1 by done.
    by rewrite insert_zip_with. }
  assert (Hso : forall q, 0 <= q -> slot_off (size m) (slots m2) q =
    slot_off (size m) (hole_slots m' c) q).
  { intros q Hq. rewrite Hsl, slot_off_insert, slot_off_hole by lia. done. }
  assert (He : entries (slots m2) = entries (hole_slots m' c)).
  { rewrite Hsl. apply entries_insert_null. }
  rewrite He. split; [|done]. rewrite <-He in Hp.
  pose proof (ids_perm _ _ _ _ Hp) as Hids. pose proof (ok_nodup m Hm) as Hnd.
  rewrite Hids in Hnd. apply NoDup_app in Hnd as [Hnd _].
  assert (Hcnt : count m = Z.of_nat (length (entries (slots m2))) + 1).
  { rewrite (ok_count m Hm), Hp, length_app. cbn. lia. }
  assert (Hu : u32 (count m - 1) = count m - 1).
  { apply u32_small. pose proof (ok_fill m Hm). pose proof (ok_size m Hm).
    unfold UINT32_MAX in *. lia. }
  pose proof (ok_fill m Hm).
  constructor; change (slots (set_count _ m2)) with (slots m2);
    cbn [set_count m2 set_data data keys vals size count grow_shift max_bucket_offset];
    rewrite ?length_insert; try rewrite Hu; try done; try lia.
  - rewrite Hg, Hsz. apply (ok_shift m Hm).
  - rewrite Hsz. intros q Hq. rewrite !Hso by (try apply Z.mod_pos_bound; lia).
    destruct (decide (q = c)) as [->|Hqc].
    + rewrite !slot_off_hole by (try apply Z.mod_pos_bound; lia).
      rewrite (decide_True (P := c = c)) by done.
      rewrite decide_False by (apply next_ne; lia). lia.
    + rewrite <-Hsz. apply Hrh; [lia|done].
  - rewrite Hmx. apply (ok_max0 m Hm).
  - intros q Hq. rewrite Hsz, Hso by lia. rewrite <-Hsz. by apply Hmax.
Qed.

Lemma remove_entry_ok (can_alloc : Z -> bool) m p k v :
  map_ok m -> 0 <= p < size m -> slots m !! Z.to_nat p = Some (k, v) -> v <> NULL ->
  exists m2,
    _os_map_remove_entry can_alloc m p =
      (if (size m >=? MAP_MINSIZE * 2) && (count m2 <? size m / _MAP_MIN_FILL_DENOM)
       then _os_map_rehash can_alloc m2 (-1) else Ok m2) /\
    map_ok m2 /\ size m2 = size m /\ grow_shift m2 = grow_shift m /\
    entries (slots m) ≡ₚ entries (slots m2) ++ [(k, v)].
Proof.
  intros Hm Hp Hs Hv. pose proof (map_ok_length m Hm) as Hl.
  pose proof (ok_size m Hm) as [H32 Hlt]. assert (32 <= size m) by done.
  unfold UINT32_MAX in Hlt.
  assert (Hx : 0 <= (p + 1) mod size m < size m) by (apply Z.mod_pos_bound; lia).
  destruct (slots_at m _ Hl Hx) as (k1 & v1 & Hs1).
  destruct (slots_get m _ k1 v1 (proj1 Hx) Hs1) as [Hgk Hgv].
  destruct (hole_free m p k v) as (e & He & Hep & Hf); try done.
  pose proof (Z.mod_pos_bound (e - p) (size m) ltac:(lia)).
  destruct (shift_loop_ok (Z.to_nat (size m)) m p _ k1 v1 e (hole_start m p k v Hm Hp Hs Hv))
    as (m' & c & Hloop & Hfr & Hmx & [b' Hh] & Hno & Hpe); try done; try lia.
  unfold _os_map_remove_entry. rewrite (map_next_mod p (size m)) in * by lia.
  rewrite Hgv, Hgk. cbn [rbind]. rewrite Hloop. cbn [rbind].
  destruct (_set_val (data m') c NULL) as [d|] eqn:Hd.
  2: { unfold _set_val in Hd. pose proof (ho_c _ _ _ Hh). pose proof (ho_vals _ _ _ Hh).
       by rewrite arr_set_ok in Hd by lia. }
  cbn [rbind]. assert (Hpe' : entries (slots m) ≡ₚ entries (hole_slots m' c) ++ [(k, v)]).
  { rewrite Hpe. unfold hole_slots.
    destruct (entries_insert_split _ _ (key_null, NULL) _ Hs) as (r & -> & ->).
    rewrite !entries_single, (proj2 (Z.eqb_neq v NULL) Hv). cbn. apply Permutation_cons_append. }
  destruct (clear_hole_ok m m' c b' d k v) as [Hok Hen]; try done.
  pose proof Hfr as (Hsz & Hc & Hg).
  exists (set_count (u32 (count m - 1)) (set_data d m')).
  split; [cbn [count size set_count set_data]; by rewrite Hc, Hsz|].
  split; [done|]. split; [done|]. split; [done|]. rewrite Hpe', <-Hen. done.
Qed.

End Remove.
