(* ===== verification/OsMapSpec.v ===== *)
(** * OsMapSpec: the hash map as a finite map

    The client's view of the map is [abs m], a [gmap] from key identities to
    the stored key and value.  This file states each public operation against
    it, the behaviour of whole operation sequences, the DEBUG self check, and
    the case the implementation gets wrong. *)

From S2P Require Import Prelude OsMap OsMapInv OsMapInsert OsMapFind OsMapRemove.

(** ** The laws of the four key types *)

#[export] Instance key32_laws : @MapKeyLaws Z Z _ _ Key32.map_key.
Proof.
  split; cbn.
  - intros k. apply u32_range.
  - intros a b. apply Z.eqb_eq.
  - by intros a b ->.
Qed.

Lemma key64_laws : @MapKeyLaws Z Z _ _ Key64.map_key.
Proof.
  split; cbn.
  - intros k. apply u32_range.
  - intros a b. apply Z.eqb_eq.
  - by intros a b ->.
Qed.

#[export] Instance key128_laws : @MapKeyLaws os_map_128_key_t (Z * Z) _ _ KeyPair.map_key.
Proof.
  split; cbn.
  - intros k. apply u32_range.
  - intros [a0 a1] [b0 b1]. unfold os_map_128_key_equals. cbn.
    rewrite andb_true_iff, !Z.eqb_eq. naive_solver.
  - by intros [a0 a1] [b0 b1] [= -> ->].
Qed.

Lemma strcmp_bytes_eq s1 s2 :
  Forall (fun c => 0 < c < 256) s1 -> Forall (fun c => 0 < c < 256) s2 ->
  strcmp_bytes s1 s2 = 0 <-> s1 = s2.
Proof.
  intros H1. revert s2. induction H1 as [|c1 s1 Hc1 H1 IH]; intros s2 H2; inversion H2 as [|c2 s2' Hc2 H2']; subst; cbn.
  - done.
  - split; [lia|done].
  - split; [lia|done].
  - destruct (Z.eqb_spec c1 c2) as [->|]; [rewrite IH by done; naive_solver|].
    split; [lia|]. by intros [= ? ?].
Qed.

Lemma key_str_laws (mem : Z -> list Z) :
  (forall a, Forall (fun c => 0 < c < 256) (mem a)) ->
  @MapKeyLaws Z (list Z) _ _ (KeyStr.map_key mem).
Proof.
  intros Hmem. split; cbn.
  - intros k. apply u32_range.
  - intros a b. unfold os_map_str_key_equals.
    rewrite orb_true_iff, !Z.eqb_eq, strcmp_bytes_eq by apply Hmem. naive_solver.
  - intros a b Hab. unfold os_map_str_hash. by rewrite Hab.
Qed.

(** ** Sizes *)

Lemma divide_pow2 (k : nat) n :
  0 < n -> (n | 2 ^ Z.of_nat k) -> exists j, 0 <= j /\ n = 2 ^ j.
Proof.
  revert n. induction k as [|k IH]; intros n Hn Hd.
  { exists 0. split; [lia|]. apply Z.divide_1_r_nonneg in Hd; lia. }
  rewrite Nat2Z.inj_succ, Z.pow_succ_r in Hd by lia.
  destruct (Z.Even_or_Odd n) as [[q ->]|[q Hq]].
  - apply Z.mul_divide_cancel_l in Hd; [|lia].
    destruct (IH q) as (j & Hj & ->); [lia|done|]. exists (j + 1).
    split; [lia|]. rewrite Z.pow_add_r by lia. lia.
  - apply IH; [done|]. apply Z.gauss in Hd; [done|].
    pose proof (Z.gcd_divide_r n 2) as [c Hc]. pose proof (Z.gcd_divide_l n 2) as [c' Hc'].
    pose proof (Z.gcd_nonneg n 2).
    pose proof (Z.divide_pos_le _ 2 ltac:(lia) (Z.gcd_divide_r n 2)).
    assert (Z.gcd n 2 = 0 \/ Z.gcd n 2 = 1 \/ Z.gcd n 2 = 2) as [E|[E|E]] by lia;
      [rewrite E in Hc; lia|done|rewrite E in Hc'; lia].
Qed.

(** The sound sizes are the powers of two from 32 to 65536. *)
Lemma sound_size_pow2 n : sound_size n -> exists k, 5 <= k <= 16 /\ n = 2 ^ k.
Proof.
  intros [Hb Hm]. change (32 <= n <= 65536) in Hb. apply Z.mod_divide in Hm; [|lia].
  destruct (divide_pow2 32 n) as (k & Hk & ->); [lia|done|]. exists k. split; [|done].
  split.
  - apply (Z.pow_le_mono_r_iff 2); lia.
  - apply (Z.pow_le_mono_r_iff 2); lia.
Qed.

Lemma sound_size_of_pow2 k : 5 <= k <= 16 -> sound_size (2 ^ k).
Proof.
  intros Hk. assert (HF : forallb (fun k => bool_decide (sound_size (2 ^ k))) (seqZ 5 12) = true)
    by (vm_compute; reflexivity).
  rewrite forallb_forall in HF.
  apply (bool_decide_eq_true (sound_size (2 ^ k))), HF, list_elem_of_In, elem_of_seqZ. lia.
Qed.

(** Halving a sound size of at least 64 slots gives a sound size. *)
Lemma resize_shrink {K} (m : os_map K) :
  sound_size (size m) -> MAP_MINSIZE * 2 <= size m ->
  MAP_MINSHIFT <= grow_shift m /\ 2 ^ grow_shift m <= size m ->
  exists gs, resize m (-1) = (size m / 2, gs) /\ sound_size (size m / 2) /\
    MAP_MINSHIFT <= gs /\ 2 ^ gs <= size m / 2.
Proof.
  intros (k & Hk & Hn)%sound_size_pow2 H64 [Hg5 Hg]. change (64 <= size m) in H64.
  unfold MAP_MINSHIFT in *.
  assert (Hk6 : 6 <= k).
  { destruct (decide (k = 5)) as [->|]; [|lia]. rewrite Hn in H64. cbn in H64. lia. }
  assert (Hhalf : size m / 2 = 2 ^ (k - 1)).
  { rewrite Hn. replace k with (k - 1 + 1) at 1 by lia. rewrite Z.pow_add_r by lia.
    by rewrite Z.div_mul by lia. }
  assert (Hgk : grow_shift m <= k).
  { rewrite Hn in Hg. apply Z.pow_le_mono_r_iff in Hg; lia. }
  set (gs := if grow_shift m >? 5 then grow_shift m - 1 else grow_shift m).
  assert (Hgs : 5 <= gs <= k - 1).
  { unfold gs. destruct (Z.gtb_spec (grow_shift m) 5); lia. }
  exists gs. assert (Hround : roundup (size m / 2) (Z.shiftl 1 gs) = 2 ^ (k - 1)).
  { rewrite Hhalf, Z.shiftl_1_l. unfold roundup.
    replace (2 ^ (k - 1)) with (2 ^ (k - 1 - gs) * 2 ^ gs)
      by (rewrite <-Z.pow_add_r by lia; f_equal; lia).
    by rewrite Z.mod_mul by lia. }
  assert (2 ^ (k - 1) < 2 ^ 32) by (apply Z.pow_lt_mono_r; lia).
  assert (0 < 2 ^ (k - 1)) by (apply Z.pow_pos_nonneg; lia).
  assert (2 ^ gs <= 2 ^ (k - 1)) by (apply Z.pow_le_mono_r; lia).
  split; [|rewrite Hhalf; split; [apply sound_size_of_pow2; lia|lia]].
  unfold resize. cbn [Z.gtb Z.ltb Z.compare]. unfold MAP_MINSHIFT. fold gs.
  by rewrite Hround, u32_small, Hhalf by lia.
Qed.

(** ** The abstract map under a change of entries *)

Section Spec.
Context {K ID : Type} `{MapKeyLaws K ID}.

Implicit Types (m : os_map K) (k key : K) (v : Z).

Lemma abs_perm s1 s2 :
  NoDup (ids s1) -> entries s1 ≡ₚ entries s2 -> abs_slots s1 = abs_slots s2.
Proof.
  intros Hnd Hp. unfold abs_slots. apply list_to_map_proper.
  - by rewrite abs_fst.
  - by rewrite Hp.
Qed.

Lemma abs_add s1 s2 k v :
  NoDup (ids s1) -> entries s1 ≡ₚ entries s2 ++ [(k, v)] ->
  abs_slots s1 = <[key_id k := (k, v)]> (abs_slots s2) /\ abs_slots s2 !! key_id k = None.
Proof.
  intros Hnd Hp. pose proof (ids_perm _ _ _ _ Hp) as Hids. split.
  - unfold abs_slots.
    rewrite (list_to_map_proper _ ((key_id k, (k, v)) ::
      ((fun e : K * Z => (key_id e.1, e)) <$> entries s2))).
    + done.
    + by rewrite abs_fst.
    + rewrite Hp, fmap_app. symmetry. apply Permutation_cons_append.
  - unfold abs_slots. apply not_elem_of_list_to_map. rewrite abs_fst.
    rewrite Hids in Hnd. apply NoDup_app in Hnd as (_ & Hd & _).
    intros Hin. by eapply Hd; [exact Hin|left].
Qed.

Lemma abs_size m : map_ok m -> count m = Z.of_nat (base.size (abs m)).
Proof.
  intros Hm. rewrite (ok_count m Hm). unfold abs, abs_slots.
  rewrite map_size_list_to_map; [by rewrite length_fmap|].
  rewrite abs_fst. apply (ok_nodup m Hm).
Qed.

Lemma abs_val_nonnull m i k v : abs m !! i = Some (k, v) -> v <> NULL.
Proof.
  intros E. apply elem_of_list_to_map_2 in E.
  apply list_elem_of_fmap in E as (e & [= _ <-] & He).
  by apply list_elem_of_filter in He as [? _].
Qed.

(** ** The operations *)

Lemma find_refines m key :
  map_ok m -> os_map_find m key = Ok (from_option snd NULL (abs m !! key_id key)).
Proof.
  intros Hm. unfold os_map_find.
  destruct (find_helper_ok m key 0 Hm) as (v & i & -> & [[-> Hno]|Hh]); cbn [rbind].
  - by rewrite abs_lookup_none.
  - destruct (abs_lookup_holds _ _ _ _ Hm Hh) as (k & -> & _). done.
Qed.

Lemma entry_refines m key :
  map_ok m -> os_map_entry m key = Ok (from_option fst key_null (abs m !! key_id key)).
Proof.
  intros Hm. unfold os_map_entry.
  destruct (find_helper_ok m key 0 Hm) as (v & i & -> & [[-> Hno]|Hh]); cbn [rbind].
  - by rewrite abs_lookup_none.
  - destruct (abs_lookup_holds _ _ _ _ Hm Hh) as (k & -> & Hs).
    destruct Hh as (k' & Hi & Hs' & Hv & Hid).
    destruct (slots_get m i k v ltac:(lia) Hs) as [-> _].
    by rewrite (proj2 (Z.eqb_neq v NULL) Hv).
Qed.

(** The map has room for one more entry, or the size it grows to is sound. *)
Definition can_grow m : Prop :=
  count m < _MAP_MAX_FILL_NUMER * size m / _MAP_MAX_FILL_DENOM \/
  sound_size (resize m 1).1 /\ size m < (resize m 1).1 /\
  MAP_MINSHIFT <= (resize m 1).2 /\ 2 ^ (resize m 1).2 <= (resize m 1).1.

Section Alloc.
Context (can_alloc : Z -> bool) (Halloc : forall n, can_alloc n = true).

Lemma init_refines n :
  sound_size n -> exists m, os_map_init can_alloc (Some (OsMapConfig n)) = Ok m /\
    map_ok m /\ size m = n /\ grow_shift m = MAP_MINSHIFT /\ abs m = ∅.
Proof.
  intros Hs. pose proof (sound_size_bounds _ Hs) as [Hb _].
  unfold os_map_init. cbn [initial_size]. rewrite Z.max_l by (change (32 <= n); lia).
  unfold _alloc_data. rewrite Halloc, (proj2 (Z.ltb_lt _ _)) by (unfold UINT32_MAX; lia).
  cbn [c_assert rbind]. eexists. split; [done|]. split; [|split; [done|split; [done|]]].
  - apply fresh_ok; [split; [apply Hs|unfold UINT32_MAX; lia]|].
    unfold MAP_MINSHIFT. split; [lia|]. change (32 <= n). lia.
  - unfold abs, abs_slots. by rewrite slots_fresh.
Qed.

Lemma insert_refines m key v :
  map_ok m -> sound_size (size m) -> can_grow m -> v <> NULL ->
  abs m !! key_id key = None ->
  exists m', os_map_insert can_alloc m key v = Ok m' /\ map_ok m' /\
    abs m' = <[key_id key := (key, v)]> (abs m) /\
    (if count m >=? _MAP_MAX_FILL_NUMER * size m / _MAP_MAX_FILL_DENOM
     then (size m', grow_shift m') = resize m 1
     else (size m', grow_shift m') = (size m, grow_shift m)).
Proof.
  intros Hm Hs Hroom Hv Hnone. pose proof (sound_size_bounds _ Hs) as [Hb _].
  unfold os_map_insert, c_assert. rewrite (proj2 (Z.eqb_neq v NULL) Hv). cbn [negb rbind].
  rewrite u32_small by (unfold _MAP_MAX_FILL_NUMER; lia).
  pose proof (ok_fill m Hm) as Hfill.
  assert (Hid : forall m1, entries (slots m1) ≡ₚ entries (slots m) ->
    key_id key ∉ ids (slots m1)).
  { intros m1 Hp. assert (Hids : ids (slots m1) ≡ₚ ids (slots m)) by (unfold ids; by rewrite Hp).
    rewrite Hids, <-abs_fst. by apply not_elem_of_list_to_map. }
  destruct (Z.geb_spec (count m) (_MAP_MAX_FILL_NUMER * size m / _MAP_MAX_FILL_DENOM)) as [Hge|Hlt].
  - destruct Hroom as [|(Hs' & Hlt' & Hg)]; [lia|].
    destruct (rehash_ok can_alloc m 1) as (m1 & -> & Hm1 & Hsz & Hg1 & Hp); try done; [lia|].
    cbn [rbind]. pose proof (abs_perm _ _ (ok_nodup m1 Hm1) Hp) as Habs.
    assert (Hc1 : count m1 = count m).
    { by rewrite (ok_count m1 Hm1), (ok_count m Hm), Hp. }
    destruct (insert_no_rehash_ok m1 key v) as (m' & -> & Hm' & Hsz' & Hg' & Hp'); try done.
    { by rewrite Hsz. } { rewrite Hc1, Hsz. lia. } { by apply Hid. }
    exists m'. split; [done|]. split; [done|]. split.
    + unfold abs at 2. rewrite <-Habs. by apply abs_add; [apply Hm'|].
    + rewrite Hsz', Hg', Hsz, Hg1. by destruct (resize m 1).
  - cbn [rbind]. destruct (insert_no_rehash_ok m key v) as (m' & -> & Hm' & Hsz' & Hg' & Hp'); try done.
    { unfold _MAP_MAX_FILL_NUMER, _MAP_MAX_FILL_DENOM in Hlt.
      pose proof (Z.mul_div_le (4 * size m) 5 ltac:(lia)). lia. }
    { by apply Hid. }
    exists m'. split; [done|]. split; [done|]. split; [|by rewrite Hsz', Hg'].
    by apply abs_add; [apply Hm'|].
Qed.

Lemma delete_refines m key :
  map_ok m -> sound_size (size m) ->
  exists m', os_map_delete can_alloc m key =
      Ok (m', from_option snd NULL (abs m !! key_id key)) /\
    map_ok m' /\ abs m' = delete (key_id key) (abs m) /\
    (size m' = size m /\ grow_shift m' = grow_shift m \/
     MAP_MINSIZE * 2 <= size m /\ (size m', grow_shift m') = resize m (-1) /\
     sound_size (size m')).
Proof.
  intros Hm Hs. unfold os_map_delete.
  destruct (find_helper_ok m key 0 Hm) as (v & i & -> & [[-> Hno]|Hh]); cbn [rbind].
  { pose proof (abs_lookup_none m key Hm Hno) as Hn. exists m. rewrite Hn. cbn.
    rewrite delete_id by done. auto 10. }
  destruct (abs_lookup_holds _ _ _ _ Hm Hh) as (k & Hk & Hs1).
  destruct Hh as (k' & Hi & Hs' & Hv & Hid). rewrite Hs1 in Hs'. injection Hs' as <-.
  rewrite (proj2 (Z.eqb_neq v NULL) Hv), Hk. cbn [from_option snd].
  destruct (remove_entry_ok can_alloc m i k v) as (m2 & -> & Hm2 & Hsz & Hg & Hp); try done.
  destruct (abs_add (slots m) (slots m2) k v (ok_nodup m Hm) Hp) as [Ha Hn].
  assert (Habs : abs m2 = delete (key_id key) (abs m)).
  { unfold abs at 2. rewrite Ha, <-Hid, delete_insert_id by done. done. }
  destruct (Z.geb_spec (size m) (MAP_MINSIZE * 2)) as [H64|]; cbn [andb rbind].
  2: { exists m2. auto 10. }
  destruct (Z.ltb_spec (count m2) (size m / _MAP_MIN_FILL_DENOM)) as [Hlow|]; cbn [rbind].
  2: { exists m2. auto 10. }
  destruct (resize_shrink m2) as (gs & Hr & Hs2 & Hg2).
  { by rewrite Hsz. } { rewrite Hsz. lia. } { rewrite Hg. rewrite Hsz. apply (ok_shift m Hm). }
  destruct (rehash_ok can_alloc m2 (-1)) as (m' & -> & Hm' & Hsz' & Hg' & Hp');
    try rewrite Hr; try done.
  { cbn. unfold _MAP_MIN_FILL_DENOM in Hlow. rewrite Hsz in *.
    pose proof (sound_size_bounds _ Hs). Z.to_euclidean_division_equations. lia. }
  cbn [rbind]. exists m'. split; [done|]. split; [done|]. split.
  - rewrite <-Habs. by apply abs_perm; [apply Hm'|].
  - right. split; [lia|]. rewrite Hr in Hsz', Hg'. cbn in Hsz', Hg'.
    rewrite Hsz', Hg'. split; [|done].
    unfold resize in *. rewrite <-Hsz, <-Hg. done.
Qed.

End Alloc.
End Spec.
