(* ===== verification/OsMapThms.v ===== *)
(** * OsMapThms: the theorems about the hash map

    Whole operation sequences against the abstract map, the client-level laws of
    insertion, removal, iteration and clearing, the DEBUG self check, and the
    operation sequence on which the implementation loses a live key. *)

From S2P Require Import Prelude OsMap OsMapInv OsMapInsert OsMapFind OsMapRemove OsMapSpec.

(** ** Operation sequences *)

Inductive map_op (K : Type) :=
  | OpInsert (key : K) (val : Z)
  | OpDelete (key : K)
  | OpFind (key : K)
  | OpCount.
Arguments OpInsert {K} key val.
Arguments OpDelete {K} key.
Arguments OpFind {K} key.
Arguments OpCount {K}.

Section Runs.
Context {K ID : Type} `{MapKey K ID}.
Context (can_alloc : Z -> bool).

Definition run_op (m : os_map K) (op : map_op K) : res (os_map K * Z) :=
  match op with
  | OpInsert key val => let! m := os_map_insert can_alloc m key val in Ok (m, 0)
  | OpDelete key => os_map_delete can_alloc m key
  | OpFind key => let! v := os_map_find m key in Ok (m, v)
  | OpCount => Ok (m, os_map_count m)
  end.

Fixpoint run_ops (m : os_map K) (ops : list (map_op K)) : res (os_map K * list Z) :=
  match ops with
  | [] => Ok (m, [])
  | op :: ops =>
      let! (m, out) := run_op m op in
      let! (m, outs) := run_ops m ops in
      Ok (m, out :: outs)
  end.

(** What a client is entitled to: insertion needs a fresh key, a value
    that is not NULL and fewer than [cap] live entries. *)
Definition spec_op (cap : nat) (g : gmap ID (K * Z)) (op : map_op K)
    : option (gmap ID (K * Z) * Z) :=
  match op with
  | OpInsert key val =>
      if bool_decide (val <> NULL /\ g !! key_id key = None /\ (base.size g < cap)%nat)
      then Some (<[key_id key := (key, val)]> g, 0) else None
  | OpDelete key => Some (delete (key_id key) g, from_option snd NULL (g !! key_id key))
  | OpFind key => Some (g, from_option snd NULL (g !! key_id key))
  | OpCount => Some (g, Z.of_nat (base.size g))
  end.

Fixpoint spec_ops (cap : nat) (g : gmap ID (K * Z)) (ops : list (map_op K))
    : option (gmap ID (K * Z) * list Z) :=
  match ops with
  | [] => Some (g, [])
  | op :: ops =>
      match spec_op cap g op with
      | Some (g, out) =>
          match spec_ops cap g ops with
          | Some (g, outs) => Some (g, out :: outs)
          | None => None
          end
      | None => None
      end
  end.
End Runs.

Section Default.
Context {K ID : Type} `{MapKeyLaws K ID}.
Context (can_alloc : Z -> bool) (Halloc : forall n, can_alloc n = true).

Implicit Types (m : os_map K) (key : K).

(** The maps reachable from the default configuration below the capacity. *)
Definition default_ok m : Prop :=
  map_ok m /\ grow_shift m = 5 /\ (size m = 32 \/ size m = 64).

Lemma default_sound m : default_ok m -> sound_size (size m).
Proof. intros (_ & _ & [-> | ->]); by apply (bool_decide_unpack _). Qed.

Lemma default_can_grow m :
  default_ok m -> (base.size (abs m) < 51)%nat -> can_grow m.
Proof.
  intros (Hm & Hg & Hsz) Hlt. pose proof (abs_size m Hm) as Hc. unfold can_grow.
  destruct Hsz as [Hsz|Hsz].
  - right. unfold resize. rewrite Hsz, Hg. cbn [Z.gtb Z.compare]. split; [|split].
    + by apply (bool_decide_unpack _).
    + by vm_compute.
    + by vm_compute.
  - left. rewrite Hsz. change (count m < 51). lia.
Qed.

Lemma default_step m op g' out :
  default_ok m -> spec_op 51 (abs m) op = Some (g', out) ->
  exists m', run_op can_alloc m op = Ok (m', out) /\ default_ok m' /\ abs m' = g'.
Proof.
  intros Hd Hspec. pose proof Hd as (Hm & Hg & Hsz). pose proof (default_sound m Hd) as Hs.
  destruct op as [key v|key|key|]; cbn [run_op spec_op] in *.
  - case_bool_decide as Hpre; [|done]. destruct Hpre as (Hv & Hnone & Hcap).
    injection Hspec as <- <-.
    destruct (insert_refines can_alloc Halloc m key v Hm Hs) as (m' & -> & Hm' & Ha & Hr);
      [by apply default_can_grow|done|done|]. cbn [rbind]. exists m'. split; [done|].
    split; [|done]. split; [done|].
    destruct (Z.geb_spec (count m) (_MAP_MAX_FILL_NUMER * size m / _MAP_MAX_FILL_DENOM)) as [Hge|].
    + unfold resize in Hr. rewrite Hg in Hr. destruct Hsz as [E|E]; rewrite E in Hr, Hge.
      * injection Hr as -> ->. split; [done|by right].
      * change (51 <= count m) in Hge. rewrite (abs_size m Hm) in Hge. lia.
    + injection Hr as -> ->. auto.
  - injection Hspec as <- <-.
    destruct (delete_refines can_alloc Halloc m key Hm Hs) as (m' & -> & Hm' & Ha & Hr).
    exists m'. split; [done|]. split; [|done]. split; [done|].
    destruct Hr as [[-> ->]|(H64 & Hr & _)]; [auto|].
    destruct Hsz as [E|E]; rewrite E in H64; [done|].
    unfold resize in Hr. rewrite Hg, E in Hr. injection Hr as -> ->. auto.
  - injection Hspec as <- <-. rewrite find_refines by done. by exists m.
  - injection Hspec as <- <-. exists m. unfold os_map_count. by rewrite abs_size.
Qed.

Lemma default_run ops : forall m g' outs,
  default_ok m -> spec_ops 51 (abs m) ops = Some (g', outs) ->
  exists m', run_ops can_alloc m ops = Ok (m', outs) /\ default_ok m' /\ abs m' = g'.
Proof.
  induction ops as [|op ops IH]; intros m g' outs Hd; cbn [spec_ops run_ops].
  - intros [= <- <-]. by exists m.
  - destruct (spec_op 51 (abs m) op) as [[g1 out]|] eqn:E1; [|done].
    destruct (spec_ops 51 g1 ops) as [[g2 outs']|] eqn:E2; [|done]. intros [= <- <-].
    destruct (default_step m op g1 out Hd E1) as (m1 & -> & Hd1 & <-). cbn [rbind].
    destruct (IH m1 g2 outs' Hd1 E2) as (m2 & -> & Hd2 & <-). by exists m2.
Qed.

Lemma default_init :
  exists m, os_map_init can_alloc None = Ok m /\ default_ok m /\ abs m = ∅.
Proof.
  destruct (init_refines can_alloc Halloc 32) as (m & Hi & Hm & Hsz & Hg & Ha).
  { by apply (bool_decide_unpack _). }
  exists m. split; [exact Hi|]. by repeat split; try apply Hm; auto.
Qed.

End Default.

(** ** The DEBUG self check *)

Section Verify.
Context {K ID : Type} `{MapKeyLaws K ID}.

Implicit Types (m : os_map K) (key : K).

Lemma next_offset_ok m i :
  map_ok m -> sound_size (size m) -> 0 <= i < size m ->
  _get_next_offset m i (size m) =
    Ok (slot_off (size m) (slots m) ((i + 1) mod size m)).
Proof.
  intros Hm Hs Hi. pose proof (sound_size_bounds _ Hs) as [? _].
  assert (Hn : 0 <= (i + 1) mod size m < size m) by (apply Z.mod_pos_bound; lia).
  unfold _get_next_offset. rewrite map_next_mod by lia.
  destruct (slots_at m _ (map_ok_length m Hm) Hn) as (k & v & Hs1).
  destruct (slots_get m _ k v (proj1 Hn) Hs1) as [-> ->]. cbn [rbind].
  unfold slot_off. rewrite Hs1. destruct (v =? NULL); [done|]. by apply bucket_offset_true.
Qed.

Lemma verify_loop_ok n m i :
  map_ok m -> sound_size (size m) -> 0 <= i -> i + Z.of_nat n = size m ->
  verify_loop n i (slot_off (size m) (slots m) i) m = Ok tt.
Proof.
  intros Hm Hs. revert i. induction n as [|n IH]; intros i Hi Hn; [done|].
  cbn [verify_loop]. rewrite next_offset_ok by (done || lia). cbn [rbind].
  pose proof (ok_rh m Hm i ltac:(lia)) as Hr. rewrite (proj2 (Z.leb_le _ _) Hr).
  cbn [c_assert rbind]. destruct n as [|n]; [done|].
  rewrite Z.mod_small by lia. apply IH; lia.
Qed.

Lemma verify_ok m : map_ok m -> sound_size (size m) -> _os_map_verify m = Ok tt.
Proof.
  intros Hm Hs. pose proof (sound_size_bounds _ Hs) as [? _]. unfold _os_map_verify.
  destruct (slots_at m 0 (map_ok_length m Hm)) as (k & v & Hs0); [lia|].
  destruct (slots_get m 0 k v ltac:(lia) Hs0) as [-> ->]. cbn [rbind].
  pose proof (verify_loop_ok (Z.to_nat (size m)) m 0 Hm Hs) as HV.
  unfold slot_off in HV. rewrite Hs0 in HV. rewrite bucket_offset_true by done.
  destruct (v =? NULL); cbn [rbind]; apply HV; lia.
Qed.

(** ** Iteration *)

(** The handler folded over a list of entries until it answers [false]. *)
Fixpoint fold_until {St} (h : St -> K -> Z -> St * bool) (st : St) (es : list (K * Z)) : St :=
  match es with
  | [] => st
  | (k, v) :: es => let '(st, go) := h st k v in if go then fold_until h st es else st
  end.

Lemma foreach_loop_ok {St} n i (d : os_map_data K) (h : St -> K -> Z -> St * bool) st :
  0 <= i -> Z.of_nat (length (keys d)) = i + Z.of_nat n ->
  Z.of_nat (length (vals d)) = i + Z.of_nat n ->
  foreach_loop n i d h st =
    Ok (fold_until h st (entries (drop (Z.to_nat i) (zip (keys d) (vals d))))).
Proof.
  revert i st. induction n as [|n IH]; intros i st Hi Hk Hv.
  { cbn. by rewrite drop_ge by (rewrite length_zip; lia). }
  destruct (lookup_in_range (keys d) i) as [k Hk']; [lia|].
  destruct (lookup_in_range (vals d) i) as [v Hv']; [lia|].
  assert (Hz : zip (keys d) (vals d) !! Z.to_nat i = Some (k, v)) by (by rewrite lookup_zip_Some).
  rewrite (drop_S _ _ _ Hz). change ((k, v) :: ?l) with ([(k, v)] ++ l).
  rewrite entries_app, entries_single.
  replace (S (Z.to_nat i)) with (Z.to_nat (i + 1)) by lia.
  cbn [foreach_loop]. unfold _get_val, _get_key.
  rewrite (arr_get_ok _ _ _ Hi Hv'), (arr_get_ok _ _ _ Hi Hk'). cbn [rbind].
  destruct (v =? NULL); [apply IH; lia|]. cbn [app fold_until].
  destruct (h st k v) as [st' [|]]; [apply IH; lia|done].
Qed.

Lemma foreach_ok {St} m (h : St -> K -> Z -> St * bool) st :
  map_ok m -> os_map_foreach m h st = Ok (fold_until h st (entries (slots m))).
Proof.
  intros Hm. unfold os_map_foreach. pose proof (ok_size m Hm) as [H32 _].
  assert (32 <= size m) by done.
  rewrite foreach_loop_ok by (try destruct Hm; lia). done.
Qed.

Lemma entries_abs m : map_ok m -> entries (slots m) ≡ₚ (map_to_list (abs m)).*2.
Proof.
  intros Hm. unfold abs, abs_slots. rewrite map_to_list_to_map.
  - rewrite <-list_fmap_compose. unfold compose. cbn. by rewrite list_fmap_id.
  - rewrite abs_fst. apply (ok_nodup m Hm).
Qed.

End Verify.

(** ** Claims *)

(** [C1] A map made with the default configuration behaves as a finite map on
    every sequence of insertions, removals, lookups and counts that respects
    the contract (fresh keys, values that are not NULL) and never has more
    than 51 live entries: no assertion fires, every answer is the one of the
    abstract map, and the final contents are those of the abstract map.  51
    entries are what the initial table of 64 slots takes before it is grown to
    96, a size at which keys can be lost ([os_map_32_loses_key]). *)
Theorem os_map_default_refines {K ID} `{MapKeyLaws K ID} (can_alloc : Z -> bool)
    (ops : list (map_op K)) (g : gmap ID (K * Z)) (outs : list Z)
    (Halloc : forall n, can_alloc n = true)
    (Hspec : spec_ops 51 ∅ ops = Some (g, outs)) :
  exists m0 m, os_map_init can_alloc None = Ok m0 /\
    run_ops can_alloc m0 ops = Ok (m, outs) /\ abs m = g /\
    forall key, os_map_find m key = Ok (from_option snd NULL (g !! key_id key)).
Proof.
  destruct (default_init can_alloc Halloc) as (m0 & Hi & Hd & Ha).
  rewrite <-Ha in Hspec.
  destruct (default_run can_alloc Halloc ops m0 g outs Hd Hspec) as (m & Hr & Hd' & <-).
  exists m0, m. repeat split; try done. intros key. apply find_refines, Hd'.
Qed.

(** [C2] Insertion of a fresh key into a well-formed map whose size is sound, a
    power of two from 32 to 65536, and which does not have to grow or grows to
    a sound size ([can_grow]): it returns, the map stays well formed, a lookup
    of that key (by identity, not by representation) finds the value, every
    other lookup is unchanged, and the count grows by one. *)
Theorem os_map_insert_lookup {K ID} `{MapKeyLaws K ID} (can_alloc : Z -> bool)
    (m : os_map K) (key : K) (val : Z)
    (Halloc : forall n, can_alloc n = true)
    (Hok : map_ok m) (Hsize : sound_size (size m)) (Hgrow : can_grow m)
    (Hval : val <> NULL) (Hfresh : os_map_find m key = Ok NULL) :
  exists m', os_map_insert can_alloc m key val = Ok m' /\ map_ok m' /\
    (forall key', os_map_find m' key' =
       if decide (key_id key' = key_id key) then Ok val else os_map_find m key') /\
    os_map_count m' = os_map_count m + 1.
Proof.
  assert (Hnone : abs m !! key_id key = None).
  { rewrite find_refines in Hfresh by done. injection Hfresh as Hf.
    destruct (abs m !! key_id key) as [[k v]|] eqn:E; [|done]. cbn in Hf.
    by apply abs_val_nonnull in E. }
  destruct (insert_refines can_alloc Halloc m key val Hok Hsize Hgrow Hval Hnone)
    as (m' & Hi & Hok' & Ha & _).
  exists m'. split; [done|]. split; [done|]. split.
  - intros key'. rewrite !find_refines by done. rewrite Ha. case_decide as E.
    + by rewrite E, lookup_insert_eq.
    + by rewrite lookup_insert_ne.
  - unfold os_map_count. rewrite !abs_size, Ha, map_size_insert_None by done. lia.
Qed.

(** [C3] Removal from a well-formed map whose size is sound, a power of two from
    32 to 65536: it returns the value a
    lookup would have found, afterwards the key is gone and every other
    lookup is unchanged, also across the shrinking rehash, and the count
    drops by one exactly when the key was present. *)
Theorem os_map_delete_lookup {K ID} `{MapKeyLaws K ID} (can_alloc : Z -> bool)
    (m : os_map K) (key : K)
    (Halloc : forall n, can_alloc n = true)
    (Hok : map_ok m) (Hsize : sound_size (size m)) :
  exists m' val, os_map_delete can_alloc m key = Ok (m', val) /\
    os_map_find m key = Ok val /\ map_ok m' /\
    (forall key', os_map_find m' key' =
       if decide (key_id key' = key_id key) then Ok NULL else os_map_find m key') /\
    os_map_count m' = os_map_count m - (if val =? NULL then 0 else 1).
Proof.
  destruct (delete_refines can_alloc Halloc m key Hok Hsize) as (m' & Hd & Hok' & Ha & _).
  do 2 eexists. split; [exact Hd|]. split; [by apply find_refines|]. split; [done|]. split.
  - intros key'. rewrite !find_refines by done. rewrite Ha. case_decide as E.
    + by rewrite E, lookup_delete_eq.
    + by rewrite lookup_delete_ne.
  - unfold os_map_count. rewrite !abs_size, Ha by done.
    destruct (abs m !! key_id key) as [[k v]|] eqn:E.
    + rewrite map_size_delete_Some by done. cbn.
      pose proof (abs_val_nonnull _ _ _ _ E) as Hv. rewrite (proj2 (Z.eqb_neq v NULL) Hv).
      assert (base.size (abs m) <> 0%nat) by (intros Hz; apply map_size_empty_inv in Hz;
        by rewrite Hz in E). lia.
    + rewrite map_size_delete_None by done. cbn. lia.
Qed.

(** The self check of the DEBUG build, [_os_map_verify], never fires on a
    well-formed map of sound size, and insertion and removal keep it so. *)
Theorem os_map_verify_passes {K ID} `{MapKeyLaws K ID} (can_alloc : Z -> bool)
    (ops : list (map_op K)) (g : gmap ID (K * Z)) (outs : list Z)
    (Halloc : forall n, can_alloc n = true)
    (Hspec : spec_ops 51 ∅ ops = Some (g, outs)) :
  exists m, (let! m0 := os_map_init can_alloc None in
             let! (m, _) := run_ops can_alloc m0 ops in Ok m) = Ok m /\
    _os_map_verify m = Ok tt.
Proof.
  destruct (default_init can_alloc Halloc) as (m0 & Hi & Hd & Ha).
  rewrite <-Ha in Hspec.
  destruct (default_run can_alloc Halloc ops m0 g outs Hd Hspec) as (m & Hr & Hd' & _).
  exists m. rewrite Hi. cbn [rbind]. rewrite Hr. split; [done|].
  apply verify_ok; [apply Hd'|by apply default_sound].
Qed.

(** Iteration calls the handler on every live entry exactly once, in slot
    order, until it answers [false]; clearing calls it on every live entry
    whatever it answers, and leaves a map in which every lookup finds
    nothing. *)
Theorem os_map_foreach_clear {K ID} `{MapKeyLaws K ID} {St} (can_alloc : Z -> bool)
    (m : os_map K) (h : St -> K -> Z -> St * bool) (st : St)
    (Halloc : forall n, can_alloc n = true) (Hok : map_ok m) :
  exists es, es ≡ₚ (map_to_list (abs m)).*2 /\
    os_map_foreach m h st = Ok (fold_until h st es) /\
    exists m', os_map_clear can_alloc m (Some h) st =
        Ok (m', foldl (fun st e => (h st e.1 e.2).1) st es) /\
      map_ok m' /\ forall key, os_map_find m' key = Ok NULL.
Proof.
  exists (entries (slots m)). split; [by apply entries_abs|]. split; [by apply foreach_ok|].
  pose proof (ok_size m Hok) as [H32 _]. assert (32 <= size m) by done.
  unfold os_map_clear, _alloc_data. rewrite Halloc. cbn [c_assert rbind].
  change (MAP_MINSIZE <? UINT32_MAX) with true. cbn [c_assert rbind].
  rewrite foreach_loop_ok by (try destruct Hok; lia). cbn [rbind].
  change (drop (Z.to_nat 0) ?l) with l. fold (slots m).
  eexists. split; [repeat f_equal|split].
  - generalize (entries (slots m)) as es. intros es. revert st.
    induction es as [|[k v] es IH]; intros st; [done|]. cbn. apply IH.
  - apply fresh_ok; by vm_compute.
  - intros key. rewrite find_refines by (apply fresh_ok; by vm_compute).
    unfold abs, abs_slots. by rewrite slots_fresh.
Qed.

(** *** The lost key

    Sizes that are not powers of two: the wrap-around of [i - bucket] is
    modulo 2^32, not modulo [size], so the distance of an entry that wrapped
    past the end of the table is wrong.  The default map reaches size 96 at
    its 52nd entry. *)

Import Key32.

Definition lost_key_filler : list Z :=
  [2; 3; 4; 5; 6; 7; 9; 11; 13; 15; 16; 17; 18; 19; 22; 23; 25; 26; 27; 28; 29; 32;
   33; 34; 35; 37; 39; 41; 45; 47; 48; 49; 51; 52; 54; 56; 58; 59; 61; 62; 63; 64;
   65; 69; 70; 71; 73; 76; 81; 83; 84; 85].

Definition lost_key_ops : list (map_op Z) :=
  ((fun k => OpInsert k k) <$> lost_key_filler) ++
  ((fun k => OpInsert k k) <$> [377; 416; 420; 566]) ++
  [OpDelete 416; OpDelete 377].

(** Both runs evaluated, with everything C6 says of them decided. *)
Definition lost_key_run : bool :=
  match os_map_init (K:=Z) (ID:=Z) (fun _ => true) None with
  | Ok m0 =>
      match run_ops (ID:=Z) (fun _ => true) m0 lost_key_ops,
            spec_ops (ID:=Z) 1000 ∅ lost_key_ops with
      | Ok (m, outs), Some (g, outs') =>
          bool_decide (outs = outs' /\ g !! 566 = Some (566, 566) /\
            os_map_count m = Z.of_nat (base.size g) /\
            os_map_find (ID:=Z) m 566 = Ok NULL /\ size m = 96)
      | _, _ => false
      end
  | Crash _ => false
  end.

Lemma lost_key_check : lost_key_run = true.
Proof. vm_compute. reflexivity. Qed.

(** A run of the 32-bit map, within the contract of the interface, after
    which a live key cannot be found: 56 fresh keys are inserted and two of
    them removed; key 566 was never removed, the abstract map still has it,
    the count is that of the abstract map, and the lookup returns NULL. *)
Theorem os_map_32_loses_key :
  exists m0 m g outs,
    os_map_init (K:=Z) (ID:=Z) (fun _ => true) None = Ok m0 /\
    run_ops (ID:=Z) (fun _ => true) m0 lost_key_ops = Ok (m, outs) /\
    spec_ops (ID:=Z) 1000 ∅ lost_key_ops = Some (g, outs) /\
    g !! 566 = Some (566, 566) /\ os_map_count m = Z.of_nat (base.size g) /\
    os_map_find (ID:=Z) m 566 = Ok NULL /\ size m = 96.
Proof.
  pose proof lost_key_check as Hc. unfold lost_key_run in Hc.
  destruct (os_map_init _ None) as [m0|] eqn:Ei; [|done].
  destruct (run_ops _ m0 lost_key_ops) as [[m outs]|] eqn:Er; [|done].
  destruct (spec_ops 1000 ∅ lost_key_ops) as [[g outs']|] eqn:Es; [|done].
  apply bool_decide_eq_true in Hc as (-> & Hg & Hn & Hf & Hs).
  exists m0, m, g, outs'. auto 10.
Qed.

(** ** Witnesses *)

Definition small_ops : list (map_op Z) :=
  [OpInsert 7 70; OpInsert 9 90; OpFind 7; OpDelete 9; OpFind 9; OpCount].

Lemma os_map_default_refines_witness :
  exists m0 m, os_map_init (K:=Z) (ID:=Z) (fun _ => true) None = Ok m0 /\
    run_ops (ID:=Z) (fun _ => true) m0 small_ops = Ok (m, [0; 0; 70; 90; 0; 1]) /\
    abs m = {[7 := (7, 70)]} /\
    forall key : Z, os_map_find (ID:=Z) m key =
      Ok (from_option snd NULL (({[7 := (7, 70)]} : gmap Z (Z * Z)) !! (key_id key : Z))).
Proof.
  apply (os_map_default_refines (K:=Z) (ID:=Z) (fun _ => true) small_ops).
  - done.
  - vm_compute. reflexivity.
Defined.

Definition empty_map : os_map Z :=
  OsMap (OsMapData (replicate (Z.to_nat 32) key_null) (replicate (Z.to_nat 32) NULL)) 0 32 5 0.

Lemma empty_map_ok : map_ok (ID:=Z) empty_map.
Proof. apply (fresh_ok (K:=Z) (ID:=Z) 32 5); by vm_compute. Qed.

Lemma empty_map_sound : sound_size (size empty_map).
Proof. by apply (bool_decide_unpack _). Qed.

Lemma os_map_insert_lookup_witness :
  exists m', os_map_insert (ID:=Z) (fun _ => true) empty_map 7 70 = Ok m' /\
    map_ok (ID:=Z) m' /\
    (forall key' : Z, os_map_find (ID:=Z) m' key' =
       if decide ((key_id key' : Z) = key_id 7) then Ok 70 else os_map_find (ID:=Z) empty_map key') /\
    os_map_count m' = os_map_count empty_map + 1.
Proof.
  apply (os_map_insert_lookup (ID:=Z) (fun _ => true) empty_map 7 70).
  - done.
  - exact empty_map_ok.
  - exact empty_map_sound.
  - left. by vm_compute.
  - done.
  - vm_compute. reflexivity.
Defined.

Definition one_entry_map : os_map Z :=
  match os_map_insert (ID:=Z) (fun _ => true) empty_map 7 70 with
  | Ok m => m
  | Crash _ => empty_map
  end.

Lemma one_entry_ok : map_ok (ID:=Z) one_entry_map.
Proof.
  destruct (insert_refines (ID:=Z) (fun _ => true) (fun _ => eq_refl) empty_map 7 70)
    as (m' & Hi & Hm & _).
  - exact empty_map_ok.
  - exact empty_map_sound.
  - left. by vm_compute.
  - done.
  - done.
  - unfold one_entry_map. by rewrite Hi.
Qed.

Lemma os_map_delete_lookup_witness :
  exists m' val, os_map_delete (ID:=Z) (fun _ => true) one_entry_map 7 = Ok (m', val) /\
    os_map_find (ID:=Z) one_entry_map 7 = Ok val /\ map_ok (ID:=Z) m' /\
    (forall key' : Z, os_map_find (ID:=Z) m' key' =
       if decide ((key_id key' : Z) = key_id 7) then Ok NULL
       else os_map_find (ID:=Z) one_entry_map key') /\
    os_map_count m' = os_map_count one_entry_map - (if val =? NULL then 0 else 1).
Proof.
  apply (os_map_delete_lookup (ID:=Z) (fun _ => true) one_entry_map 7).
  - done.
  - exact one_entry_ok.
  - apply (bool_decide_unpack _). by vm_compute.
Defined.

Lemma os_map_verify_passes_witness :
  exists m : os_map Z, (let! m0 := os_map_init (ID:=Z) (fun _ => true) None in
     let! (m, _) := run_ops (ID:=Z) (fun _ => true) m0 small_ops in Ok m) = Ok m /\
    _os_map_verify (ID:=Z) m = Ok tt.
Proof.
  apply (os_map_verify_passes (K:=Z) (ID:=Z) (fun _ => true) small_ops
           {[7 := (7, 70)]} [0; 0; 70; 90; 0; 1]).
  - done.
  - vm_compute. reflexivity.
Defined.

Lemma os_map_foreach_clear_witness :
  exists es, es ≡ₚ (map_to_list (abs (ID:=Z) one_entry_map)).*2 /\
    os_map_foreach one_entry_map (fun st k v => (st + v, true)) 0 =
      Ok (fold_until (fun st k v => (st + v, true)) 0 es) /\
    exists m', os_map_clear (ID:=Z) (fun _ => true) one_entry_map
          (Some (fun st k v => (st + v, true))) 0 =
        Ok (m', foldl (fun st e => (st + e.2, true).1) 0 es) /\
      map_ok (ID:=Z) m' /\ forall key : Z, os_map_find (ID:=Z) m' key = Ok NULL.
Proof.
  apply (os_map_foreach_clear (ID:=Z) (fun _ => true) one_entry_map
           (fun st k v => (st + v, true)) 0).
  - done.
  - exact one_entry_ok.
Defined.
