(* ===== verification/BlockRuntime.v ===== *)
(** * BlockRuntime: the Blocks runtime of libdispatch

    Model of [src/BlocksRuntime/runtime.c] (and the types of
    [Block_private.h]): the atomic reference count kept in a block's flag
    word, the copy of a stack block to the heap with its captured variables,
    the sharing of [__block] variables through their forwarding pointer, and
    release.

    Memory is a finite map from addresses to blocks and byrefs, on the stack
    or on the heap; freeing removes an object, so touching it afterwards is
    [Crash OutOfBounds].  [malloc] is the section variable [pick], any
    function that returns an unused address or fails.  A block's imported
    variables are a list of words.  The copy and dispose helpers are
    synthesized by the compiler: as the comment above [_Block_object_assign]
    prescribes, they call [_Block_object_assign] or [_Block_object_dispose] on
    each captured variable that needs help, with the field's flags, which the
    descriptor lists ([d_fields], 0 for a plain word).  The retain and release
    callbacks are recorded as the net number of retains per object.

    The flag word is the 32 bits of the [int32_t], as an unsigned integer. *)

From S2P Require Import Prelude.

(** ** Constants *)

Definition BLOCK_DEALLOCATING : Z := 0x0001.
Definition BLOCK_REFCOUNT_MASK : Z := 0xfffe.
Definition BLOCK_NEEDS_FREE : Z := Z.shiftl 1 24.
Definition BLOCK_HAS_COPY_DISPOSE : Z := Z.shiftl 1 25.
Definition BLOCK_HAS_CTOR : Z := Z.shiftl 1 26.
Definition BLOCK_IS_GC : Z := Z.shiftl 1 27.
Definition BLOCK_IS_GLOBAL : Z := Z.shiftl 1 28.
Definition BLOCK_USE_STRET : Z := Z.shiftl 1 29.
Definition BLOCK_HAS_SIGNATURE : Z := Z.shiftl 1 30.
Definition BLOCK_HAS_EXTENDED_LAYOUT : Z := Z.shiftl 1 31.

Definition BLOCK_BYREF_LAYOUT_EXTENDED : Z := Z.shiftl 1 28.
Definition BLOCK_BYREF_IS_GC : Z := Z.shiftl 1 27.
Definition BLOCK_BYREF_HAS_COPY_DISPOSE : Z := Z.shiftl 1 25.
Definition BLOCK_BYREF_NEEDS_FREE : Z := Z.shiftl 1 24.

Definition BLOCK_FIELD_IS_OBJECT : Z := 3.
Definition BLOCK_FIELD_IS_BLOCK : Z := 7.
Definition BLOCK_FIELD_IS_BYREF : Z := 8.
Definition BLOCK_FIELD_IS_WEAK : Z := 16.
Definition BLOCK_BYREF_CALLER : Z := 128.
Definition BLOCK_ALL_COPY_DISPOSE_FLAGS : Z :=
  Z.lor BLOCK_FIELD_IS_OBJECT (Z.lor BLOCK_FIELD_IS_BLOCK (Z.lor BLOCK_FIELD_IS_BYREF
    (Z.lor BLOCK_FIELD_IS_WEAK BLOCK_BYREF_CALLER))).

(** The addresses of the class symbols. *)
Definition _NSConcreteMallocBlock : Z := 1.
Definition _NSConcreteAutoBlock : Z := 2.
Definition _NSConcreteFinalizingBlock : Z := 3.
Definition _NSConcreteWeakBlockVariable : Z := 4.

(** ** The reference count

    Each of the four functions is a loop: load the word, maybe return,
    otherwise try to swap in a new value and return, else start over.  The
    body of one round is [Return r] (nothing is written) or [Swap new r] (try
    to replace the loaded word, and return [r] if that succeeds). *)

Inductive cas_round (R : Type) :=
  | Return (r : R)
  | Swap (new_value : Z) (r : R).
Arguments Return {R} r.
Arguments Swap {R} new_value r.

Definition has (flags mask : Z) : bool := negb (Z.land flags mask =? 0).

Definition incr_round (old_value : Z) : cas_round Z :=
  if Z.land old_value BLOCK_REFCOUNT_MASK =? BLOCK_REFCOUNT_MASK
  then Return BLOCK_REFCOUNT_MASK
  else Swap (u32 (old_value + 2)) (u32 (old_value + 2)).

Definition incr_not_deallocating_round (old_value : Z) : cas_round bool :=
  if has old_value BLOCK_DEALLOCATING then Return false
  else if Z.land old_value BLOCK_REFCOUNT_MASK =? BLOCK_REFCOUNT_MASK then Return true
  else Swap (u32 (old_value + 2)) true.

Definition decr_should_deallocate_round (old_value : Z) : cas_round bool :=
  if Z.land old_value BLOCK_REFCOUNT_MASK =? BLOCK_REFCOUNT_MASK then Return false
  else if Z.land old_value BLOCK_REFCOUNT_MASK =? 0 then Return false
  else if Z.land old_value (Z.lor BLOCK_REFCOUNT_MASK BLOCK_DEALLOCATING) =? 2
  then Swap (u32 (old_value - 1)) true
  else Swap (u32 (old_value - 2)) false.

Definition decr_now_zero_round (old_value : Z) : cas_round bool :=
  if Z.land old_value BLOCK_REFCOUNT_MASK =? BLOCK_REFCOUNT_MASK then Return false
  else if Z.land old_value BLOCK_REFCOUNT_MASK =? 0 then Return false
  else let new_value := u32 (old_value - 2) in
       Swap new_value (Z.land new_value BLOCK_REFCOUNT_MASK =? 0).

(** A call that no other thread disturbs: the first swap succeeds. *)
Definition run_round {R} (round : Z -> cas_round R) (w : Z) : Z * R :=
  match round w with
  | Return r => (w, r)
  | Swap new_value r => (new_value, r)
  end.

Definition latching_incr_int (w : Z) : Z * Z := run_round incr_round w.
Definition latching_incr_int_not_deallocating (w : Z) : Z * bool :=
  run_round incr_not_deallocating_round w.
Definition latching_decr_int_should_deallocate (w : Z) : Z * bool :=
  run_round decr_should_deallocate_round w.
Definition latching_decr_int_now_zero (w : Z) : Z * bool :=
  run_round decr_now_zero_round w.

(** ** Memory *)

Record Block_descriptor := BlockDescriptor {
  d_size : Z;
  d_fields : list Z;       (* what the copy and dispose helpers do, per import *)
  d_signature : Z;
  d_layout : Z;
}.

Record Block_layout := BlockLayout {
  b_isa : Z;
  b_flags : Z;
  b_reserved : Z;
  b_invoke : Z;
  b_descriptor : Block_descriptor;
  b_imports : list Z;
}.

Record Block_byref := BlockByref {
  br_isa : option Z;       (* None: never written in malloc'ed memory *)
  br_forwarding : Z;
  br_flags : Z;
  br_size : Z;
  br_helper : Z;           (* the flags its keep and destroy helpers pass on *)
  br_layout : Z;
  br_payload : Z;
}.

Inductive object :=
  | OBlock (b : Block_layout)
  | OByref (r : Block_byref).

Record rt := Rt {
  mem : gmap Z object;
  retained : gmap Z Z;         (* net calls of the retain and release callbacks *)
  hasRefcount : list (Z * bool);   (* calls of _Block_setHasRefcount, newest first *)
  isGC : bool;
  _Byref_flag_initial_value : Z;
}.

Definition set_mem (f : gmap Z object -> gmap Z object) (s : rt) : rt :=
  Rt (f (mem s)) (retained s) (hasRefcount s) (isGC s) (_Byref_flag_initial_value s).

Definition set_retained (f : gmap Z Z -> gmap Z Z) (s : rt) : rt :=
  Rt (mem s) (f (retained s)) (hasRefcount s) (isGC s) (_Byref_flag_initial_value s).

Definition _Block_setHasRefcount (p : Z) (b : bool) (s : rt) : rt :=
  Rt (mem s) (retained s) ((p, b) :: hasRefcount s) (isGC s) (_Byref_flag_initial_value s).

(** The runtime as it starts: no collector, byrefs born with two references. *)
Definition rt_init (m : gmap Z object) : rt :=
  Rt m ∅ [] false (Z.lor BLOCK_BYREF_NEEDS_FREE 4).

Definition load_block (p : Z) (s : rt) : res Block_layout :=
  match mem s !! p with
  | Some (OBlock b) => Ok b
  | _ => Crash OutOfBounds
  end.

Definition load_byref (p : Z) (s : rt) : res Block_byref :=
  match mem s !! p with
  | Some (OByref r) => Ok r
  | _ => Crash OutOfBounds
  end.

Definition store (p : Z) (o : object) (s : rt) : rt := set_mem (insert p o) s.
Definition free (p : Z) (s : rt) : rt := set_mem (delete p) s.

Definition block_set_flags (f : Z) (b : Block_layout) : Block_layout :=
  BlockLayout (b_isa b) f (b_reserved b) (b_invoke b) (b_descriptor b) (b_imports b).
Definition block_set_isa (i : Z) (b : Block_layout) : Block_layout :=
  BlockLayout i (b_flags b) (b_reserved b) (b_invoke b) (b_descriptor b) (b_imports b).
Definition block_set_import (i : nat) (v : Z) (b : Block_layout) : Block_layout :=
  BlockLayout (b_isa b) (b_flags b) (b_reserved b) (b_invoke b) (b_descriptor b)
    (<[i := v]> (b_imports b)).
Definition byref_set_flags (f : Z) (r : Block_byref) : Block_byref :=
  BlockByref (br_isa r) (br_forwarding r) f (br_size r) (br_helper r) (br_layout r)
    (br_payload r).
Definition byref_set_forwarding (p : Z) (r : Block_byref) : Block_byref :=
  BlockByref (br_isa r) p (br_flags r) (br_size r) (br_helper r) (br_layout r)
    (br_payload r).
Definition byref_set_payload (v : Z) (r : Block_byref) : Block_byref :=
  BlockByref (br_isa r) (br_forwarding r) (br_flags r) (br_size r) (br_helper r)
    (br_layout r) v.

(** Where an assignment goes: an imported variable of a block, or the
    variable held in a byref. *)
Inductive dest :=
  | DImport (block : Z) (i : nat)
  | DPayload (byref : Z).

Definition _Block_assign (value : Z) (d : dest) (s : rt) : res rt :=
  match d with
  | DImport p i =>
      let! b := load_block p s in
      if bool_decide (i < length (b_imports b))%nat
      then Ok (store p (OBlock (block_set_import i value b)) s)
      else Crash OutOfBounds
  | DPayload p =>
      let! r := load_byref p s in
      Ok (store p (OByref (byref_set_payload value r)) s)
  end.

Definition _Block_assign_weak (value : Z) (d : dest) (s : rt) : res rt := _Block_assign value d s.

Definition _Block_retain_object (p : Z) (s : rt) : rt :=
  set_retained (fun m => <[p := default 0 (m !! p) + 1]> m) s.
Definition _Block_release_object (p : Z) (s : rt) : rt :=
  set_retained (fun m => <[p := default 0 (m !! p) - 1]> m) s.

(** The deallocator is [free], and nothing at all under the collector. *)
Definition _Block_deallocator (p : Z) (s : rt) : rt := if isGC s then s else free p s.

(** The default destructInstance callback ignores its argument. *)
Definition _Block_destructInstance (p : Z) (s : rt) : rt := s.

(** ** Descriptor accessors *)

Definition _Block_descriptor_2 (b : Block_layout) : option (list Z) :=
  if has (b_flags b) BLOCK_HAS_COPY_DISPOSE then Some (d_fields (b_descriptor b)) else None.

Definition _Block_descriptor_3 (b : Block_layout) : option (Z * Z) :=
  if has (b_flags b) BLOCK_HAS_SIGNATURE
  then Some (d_signature (b_descriptor b), d_layout (b_descriptor b)) else None.

Definition _Block_has_layout (b : Block_layout) : bool :=
  if has (b_flags b) BLOCK_HAS_SIGNATURE then negb (d_layout (b_descriptor b) =? 0) else false.

Section Runtime.
Context (pick : gmap Z object -> Z -> option Z).

Definition malloc (size : Z) (s : rt) : option Z := pick (mem s) size.

(** ** Byrefs *)

(** [keep] is the call the byref's keep helper makes on its variable. *)
Definition _Block_byref_assign_copy
    (keep : dest -> Z -> Z -> rt -> res rt) (d : dest) (src flags : Z) (s : rt) : res rt :=
  let! srcr := load_byref src s in
  let! fwd := load_byref (br_forwarding srcr) s in
  let! s :=
    (if has (br_flags fwd) BLOCK_BYREF_IS_GC then Ok s
     else if Z.land (br_flags fwd) BLOCK_REFCOUNT_MASK =? 0 then
       let weak := Z.lor BLOCK_FIELD_IS_BYREF BLOCK_FIELD_IS_WEAK in
       let isWeak := Z.land flags weak =? weak in
       match malloc (br_size srcr) s with
       | None => Crash OutOfBounds
       | Some copy =>
           let helper := has (br_flags srcr) BLOCK_BYREF_HAS_COPY_DISPOSE in
           let extended := has (br_flags srcr) BLOCK_BYREF_LAYOUT_EXTENDED in
           let copyr := BlockByref
             (if isWeak then Some _NSConcreteWeakBlockVariable else None)
             copy (Z.lor (br_flags srcr) (_Byref_flag_initial_value s)) (br_size srcr)
             (if helper then br_helper srcr else 0)
             (if helper then (if extended then br_layout srcr else 0) else br_layout srcr)
             (if helper then 0 else br_payload srcr) in
           let s := store copy (OByref copyr) s in
           let s := store src (OByref (byref_set_forwarding copy srcr)) s in
           if helper then keep (DPayload copy) (br_payload srcr) (br_helper srcr) s
           else Ok s
       end
     else if Z.land (br_flags fwd) BLOCK_BYREF_NEEDS_FREE =? BLOCK_BYREF_NEEDS_FREE then
       Ok (store (br_forwarding srcr)
             (OByref (byref_set_flags (latching_incr_int (br_flags fwd)).1 fwd)) s)
     else Ok s) in
  let! srcr := load_byref src s in
  _Block_assign (br_forwarding srcr) d s.

(** [destroy] is the call the byref's destroy helper makes on its variable. *)
Definition _Block_byref_release (destroy : Z -> Z -> rt -> res rt) (arg : Z) (s : rt) : res rt :=
  let! argr := load_byref arg s in
  let byref := br_forwarding argr in
  let! r := load_byref byref s in
  if Z.land (br_flags r) BLOCK_BYREF_NEEDS_FREE =? 0 then Ok s
  else
    let! _ := c_assert (negb (Z.land (br_flags r) BLOCK_REFCOUNT_MASK =? 0)) in
    let '(w, dealloc) := latching_decr_int_should_deallocate (br_flags r) in
    let s := store byref (OByref (byref_set_flags w r)) s in
    if dealloc then
      let! s := (if has w BLOCK_BYREF_HAS_COPY_DISPOSE
                 then destroy (br_payload r) (br_helper r) s else Ok s) in
      Ok (_Block_deallocator byref s)
    else Ok s.

(** ** Copy *)

(** [_Block_object_assign], given the copy function for captured blocks.  A
    byref's keep helper passes one of the BYREF_CALLER combinations, which
    never copies. *)
Definition byref_caller_assign (d : dest) (obj flags : Z) (s : rt) : res rt :=
  let f := Z.land flags BLOCK_ALL_COPY_DISPOSE_FLAGS in
  if (f =? Z.lor BLOCK_BYREF_CALLER BLOCK_FIELD_IS_OBJECT) ||
     (f =? Z.lor BLOCK_BYREF_CALLER BLOCK_FIELD_IS_BLOCK)
  then _Block_assign obj d s
  else if (f =? Z.lor BLOCK_BYREF_CALLER (Z.lor BLOCK_FIELD_IS_OBJECT BLOCK_FIELD_IS_WEAK)) ||
          (f =? Z.lor BLOCK_BYREF_CALLER (Z.lor BLOCK_FIELD_IS_BLOCK BLOCK_FIELD_IS_WEAK))
  then _Block_assign_weak obj d s
  else Ok s.

Definition object_assign (copy : Z -> bool -> rt -> res (rt * Z))
    (d : dest) (obj flags : Z) (s : rt) : res rt :=
  let f := Z.land flags BLOCK_ALL_COPY_DISPOSE_FLAGS in
  if f =? BLOCK_FIELD_IS_OBJECT then
    _Block_assign obj d (_Block_retain_object obj s)
  else if f =? BLOCK_FIELD_IS_BLOCK then
    let! (s, p) := copy obj false s in
    _Block_assign p d s
  else if (f =? Z.lor BLOCK_FIELD_IS_BYREF BLOCK_FIELD_IS_WEAK) ||
          (f =? BLOCK_FIELD_IS_BYREF) then
    _Block_byref_assign_copy byref_caller_assign d obj flags s
  else byref_caller_assign d obj flags s.

(** The synthesized copy helper: the imports in order. *)
Fixpoint copy_helper (assign : dest -> Z -> Z -> rt -> res rt)
    (fields : list Z) (i : nat) (dst src : Z) (s : rt) : res rt :=
  match fields with
  | [] => Ok s
  | f :: fields =>
      let! s := (if f =? 0 then Ok s
                 else let! b := load_block src s in
                      let! v := arr_get (b_imports b) (Z.of_nat i) in
                      assign (DImport dst i) v f s) in
      copy_helper assign fields (S i) dst src s
  end.

Definition _Block_call_copy_helper (assign : dest -> Z -> Z -> rt -> res rt)
    (dst src : Z) (s : rt) : res rt :=
  let! b := load_block src s in
  match _Block_descriptor_2 b with
  | None => Ok s
  | Some fields => copy_helper assign fields 0 dst src s
  end.

Fixpoint _Block_copy_internal (fuel : nat) (arg : Z) (wantsOne : bool) (s : rt)
    : res (rt * Z) :=
  match fuel with
  | O => Crash OutOfFuel
  | S fuel =>
      if arg =? 0 then Ok (s, 0)
      else
        let! aBlock := load_block arg s in
        if has (b_flags aBlock) BLOCK_NEEDS_FREE then
          Ok (store arg (OBlock (block_set_flags
                (latching_incr_int (b_flags aBlock)).1 aBlock)) s, arg)
        else if has (b_flags aBlock) BLOCK_IS_GC then
          if wantsOne then
            let '(w, r) := latching_incr_int (b_flags aBlock) in
            let s := store arg (OBlock (block_set_flags w aBlock)) s in
            Ok (if Z.land r BLOCK_REFCOUNT_MASK =? 2
                then _Block_setHasRefcount arg true s else s, arg)
          else Ok (s, arg)
        else if has (b_flags aBlock) BLOCK_IS_GLOBAL then Ok (s, arg)
        else
          match malloc (d_size (b_descriptor aBlock)) s with
          | None => Ok (s, 0)
          | Some result =>
              let assign := object_assign (_Block_copy_internal fuel) in
              if negb (isGC s) then
                let flags := Z.lor (Z.ldiff (b_flags aBlock)
                    (Z.lor BLOCK_REFCOUNT_MASK BLOCK_DEALLOCATING))
                    (Z.lor BLOCK_NEEDS_FREE 2) in
                let s := store result (OBlock (block_set_isa _NSConcreteMallocBlock
                           (block_set_flags flags aBlock))) s in
                let! s := _Block_call_copy_helper assign result arg s in
                Ok (s, result)
              else
                let hasCTOR := has (b_flags aBlock) BLOCK_HAS_CTOR in
                let flags := Z.lor (Z.ldiff (b_flags aBlock)
                    (Z.lor BLOCK_NEEDS_FREE (Z.lor BLOCK_REFCOUNT_MASK BLOCK_DEALLOCATING)))
                    (if wantsOne then Z.lor BLOCK_IS_GC 2 else BLOCK_IS_GC) in
                let s := store result (OBlock (block_set_flags flags aBlock)) s in
                let! s := _Block_call_copy_helper assign result arg s in
                let! b := load_block result s in
                Ok (store result (OBlock (block_set_isa
                      (if hasCTOR then _NSConcreteFinalizingBlock else _NSConcreteAutoBlock) b)) s,
                    result)
          end
  end.

Definition _Block_object_assign (fuel : nat) (d : dest) (obj flags : Z) (s : rt) : res rt :=
  object_assign (_Block_copy_internal fuel) d obj flags s.

Definition _Block_copy (fuel : nat) (arg : Z) (s : rt) : res (rt * Z) :=
  _Block_copy_internal fuel arg true s.

Definition _Block_copy_collectable (fuel : nat) (arg : Z) (s : rt) : res (rt * Z) :=
  _Block_copy_internal fuel arg false s.

(** ** Release *)

(** [_Block_destroy], given the release function. *)
Definition destroy_with (release : Z -> rt -> res rt) (arg : Z) (s : rt) : res rt :=
  if arg =? 0 then Ok s
  else
    let! aBlock := load_block arg s in
    if has (b_flags aBlock) BLOCK_IS_GC then Ok s else release arg s.

(** What a byref's destroy helper reaches: the BYREF_CALLER cases do nothing. *)
Definition byref_caller_dispose (obj flags : Z) (s : rt) : res rt := Ok s.

Definition object_dispose (release : Z -> rt -> res rt) (obj flags : Z) (s : rt) : res rt :=
  let f := Z.land flags BLOCK_ALL_COPY_DISPOSE_FLAGS in
  if (f =? Z.lor BLOCK_FIELD_IS_BYREF BLOCK_FIELD_IS_WEAK) || (f =? BLOCK_FIELD_IS_BYREF) then
    _Block_byref_release byref_caller_dispose obj s
  else if f =? BLOCK_FIELD_IS_BLOCK then destroy_with release obj s
  else if f =? BLOCK_FIELD_IS_OBJECT then Ok (_Block_release_object obj s)
  else byref_caller_dispose obj flags s.

(** The synthesized dispose helper: the imports in order. *)
Fixpoint dispose_helper (dispose : Z -> Z -> rt -> res rt)
    (fields : list Z) (i : nat) (block : Z) (s : rt) : res rt :=
  match fields with
  | [] => Ok s
  | f :: fields =>
      let! s := (if f =? 0 then Ok s
                 else let! b := load_block block s in
                      let! v := arr_get (b_imports b) (Z.of_nat i) in
                      dispose v f s) in
      dispose_helper dispose fields (S i) block s
  end.

Definition _Block_call_dispose_helper (dispose : Z -> Z -> rt -> res rt)
    (block : Z) (s : rt) : res rt :=
  let! b := load_block block s in
  match _Block_descriptor_2 b with
  | None => Ok s
  | Some fields => dispose_helper dispose fields 0 block s
  end.

Fixpoint _Block_release (fuel : nat) (arg : Z) (s : rt) : res rt :=
  match fuel with
  | O => Crash OutOfFuel
  | S fuel =>
      if arg =? 0 then Ok s
      else
        let! aBlock := load_block arg s in
        let flags := b_flags aBlock in
        if has flags BLOCK_IS_GLOBAL ||
           (Z.land flags (Z.lor BLOCK_IS_GC BLOCK_NEEDS_FREE) =? 0) then Ok s
        else if has flags BLOCK_IS_GC then
          let '(w, zero) := latching_decr_int_now_zero flags in
          let s := store arg (OBlock (block_set_flags w aBlock)) s in
          Ok (if zero then _Block_setHasRefcount arg false s else s)
        else if has flags BLOCK_NEEDS_FREE then
          let '(w, dealloc) := latching_decr_int_should_deallocate flags in
          let s := store arg (OBlock (block_set_flags w aBlock)) s in
          if dealloc then
            let! s := _Block_call_dispose_helper
                        (object_dispose (_Block_release fuel)) arg s in
            Ok (_Block_deallocator arg (_Block_destructInstance arg s))
          else Ok s
        else Ok s
  end.

Definition _Block_destroy (fuel : nat) (arg : Z) (s : rt) : res rt :=
  destroy_with (_Block_release fuel) arg s.

Definition _Block_object_dispose (fuel : nat) (obj flags : Z) (s : rt) : res rt :=
  object_dispose (_Block_release fuel) obj flags s.

(** ** The remaining entry points *)

Definition _Block_tryRetain (arg : Z) (s : rt) : res (rt * bool) :=
  let! aBlock := load_block arg s in
  let '(w, r) := latching_incr_int_not_deallocating (b_flags aBlock) in
  Ok (store arg (OBlock (block_set_flags w aBlock)) s, r).

Definition _Block_isDeallocating (arg : Z) (s : rt) : res bool :=
  let! aBlock := load_block arg s in Ok (has (b_flags aBlock) BLOCK_DEALLOCATING).

Definition Block_size (arg : Z) (s : rt) : res Z :=
  let! aBlock := load_block arg s in Ok (d_size (b_descriptor aBlock)).

Definition _Block_use_stret (arg : Z) (s : rt) : res bool :=
  let! layout := load_block arg s in
  let requiredFlags := Z.lor BLOCK_HAS_SIGNATURE BLOCK_USE_STRET in
  Ok (Z.land (b_flags layout) requiredFlags =? requiredFlags).

Definition _Block_signature (arg : Z) (s : rt) : res Z :=
  let! aBlock := load_block arg s in
  match _Block_descriptor_3 aBlock with
  | None => Ok 0
  | Some desc3 => Ok desc3.1
  end.

Definition _Block_has_signature (arg : Z) (s : rt) : res bool :=
  let! sig := _Block_signature arg s in Ok (negb (sig =? 0)).

Definition _Block_layout (arg : Z) (s : rt) : res Z :=
  let! layout := load_block arg s in
  if has (b_flags layout) BLOCK_HAS_EXTENDED_LAYOUT then Ok 0
  else match _Block_descriptor_3 layout with
       | None => Ok 0
       | Some desc3 => Ok desc3.2
       end.

(** [empty_string] is the address of the literal the code returns. *)
Definition _Block_extended_layout (empty_string arg : Z) (s : rt) : res Z :=
  let! layout := load_block arg s in
  if negb (has (b_flags layout) BLOCK_HAS_EXTENDED_LAYOUT) then Ok 0
  else match _Block_descriptor_3 layout with
       | None => Ok 0
       | Some desc3 => Ok (if desc3.2 =? 0 then empty_string else desc3.2)
       end.

End Runtime.
