(* ===== verification/BlockCount.v ===== *)
(** * BlockCount: the reference count word

    A flag word [w] is [65536 * high w + 2 * rc w + dealloc w].  The four
    latching functions change only the low half; a count of 32767 is latched.
    The second part interleaves threads at the level of single loads and
    compare-and-swap attempts. *)

From S2P Require Import Prelude BlockRuntime.

Definition high (w : Z) : Z := w / 65536.
Definition rc (w : Z) : Z := (w / 2) mod 32768.
Definition dealloc_bit (w : Z) : Z := w mod 2.

Definition RC_MAX : Z := 32767.

Lemma word_split w : w = 65536 * high w + 2 * rc w + dealloc_bit w.
Proof. unfold high, rc, dealloc_bit. Z.to_euclidean_division_equations. lia. Qed.

Lemma rc_range w : 0 <= rc w <= RC_MAX.
Proof. unfold rc, RC_MAX. pose proof (Z.mod_pos_bound (w / 2) 32768). lia. Qed.

Lemma dealloc_bit_range w : 0 <= dealloc_bit w <= 1.
Proof. unfold dealloc_bit. pose proof (Z.mod_pos_bound w 2). lia. Qed.

Lemma word_unique w h r d :
  w = 65536 * h + 2 * r + d -> 0 <= r <= RC_MAX -> 0 <= d <= 1 ->
  high w = h /\ rc w = r /\ dealloc_bit w = d.
Proof.
  unfold RC_MAX, high, rc, dealloc_bit. intros -> Hr Hd.
  repeat split; Z.to_euclidean_division_equations; lia.
Qed.

Lemma land_rc w : Z.land w BLOCK_REFCOUNT_MASK = 2 * rc w.
Proof.
  assert (Hr : rc w = Z.land (Z.shiftr w 1) (Z.ones 15)).
  { unfold rc. by rewrite Z.land_ones, Z.shiftr_div_pow2 by lia. }
  assert (Hd : 2 * rc w = Z.shiftl (rc w) 1) by (rewrite Z.shiftl_mul_pow2 by lia; lia).
  rewrite Hd, Hr. change BLOCK_REFCOUNT_MASK with (Z.shiftl (Z.ones 15) 1).
  apply Z.bits_inj'. intros n Hn. rewrite Z.land_spec, !Z.shiftl_spec, Z.land_spec by lia.
  destruct (decide (n = 0)) as [->|].
  - rewrite !(Z.testbit_neg_r _ (0 - 1)) by lia. by rewrite andb_false_r.
  - rewrite Z.shiftr_spec by lia. by replace (n - 1 + 1) with n by lia.
Qed.

Lemma land_dealloc w : Z.land w BLOCK_DEALLOCATING = dealloc_bit w.
Proof. change BLOCK_DEALLOCATING with (Z.ones 1). by rewrite Z.land_ones by lia. Qed.

Lemma land_low w :
  Z.land w (Z.lor BLOCK_REFCOUNT_MASK BLOCK_DEALLOCATING) = 2 * rc w + dealloc_bit w.
Proof.
  change (Z.lor _ _) with (Z.ones 16). rewrite Z.land_ones by lia.
  rewrite (word_split w) at 1. pose proof (rc_range w). pose proof (dealloc_bit_range w).
  unfold RC_MAX in *. replace (65536 * high w + 2 * rc w + dealloc_bit w)
    with (2 * rc w + dealloc_bit w + high w * 2 ^ 16) by lia.
  rewrite Z.mod_add, Z.mod_small; lia.
Qed.

(** Flag tests read the high half only. *)
Lemma has_high w n : 16 <= n -> has w (Z.shiftl 1 n) = Z.testbit (high w) (n - 16).
Proof.
  intros Hn. unfold has, high. change 65536 with (2 ^ 16).
  rewrite <-Z.shiftr_div_pow2, Z.shiftr_spec by lia.
  replace (n - 16 + 16) with n by lia.
  rewrite Z.shiftl_1_l. destruct (Z.testbit w n) eqn:E.
  - apply negb_true_iff, Z.eqb_neq. intros H0.
    assert (Z.testbit (Z.land w (2 ^ n)) n = true) as Hb.
    { by rewrite Z.land_spec, E, Z.pow2_bits_true by lia. }
    by rewrite H0, Z.bits_0 in Hb.
  - apply negb_false_iff, Z.eqb_eq. apply Z.bits_inj'. intros k Hk.
    rewrite Z.land_spec, Z.bits_0, Z.pow2_bits_eqb by lia.
    destruct (Z.eqb_spec n k) as [->|]; [by rewrite E|apply andb_false_r].
Qed.

Definition word_ok (w : Z) : Prop := 0 <= w < 2 ^ 32.

(** ** The four functions, by count and deallocating bit *)

Lemma incr_eq w :
  word_ok w ->
  latching_incr_int w = if rc w =? RC_MAX then (w, BLOCK_REFCOUNT_MASK) else (w + 2, w + 2).
Proof.
  intros Hw. unfold latching_incr_int, run_round, incr_round. rewrite land_rc.
  change BLOCK_REFCOUNT_MASK with (2 * RC_MAX). pose proof (rc_range w).
  destruct (Z.eqb_spec (2 * rc w) (2 * RC_MAX)); destruct (Z.eqb_spec (rc w) RC_MAX);
    try (exfalso; lia); [done|].
  unfold word_ok in Hw. pose proof (word_split w). pose proof (dealloc_bit_range w).
  unfold RC_MAX in *. by rewrite u32_small by lia.
Qed.

Lemma try_incr_eq w :
  word_ok w ->
  latching_incr_int_not_deallocating w =
    if dealloc_bit w =? 1 then (w, false)
    else if rc w =? RC_MAX then (w, true) else (w + 2, true).
Proof.
  intros Hw. unfold latching_incr_int_not_deallocating, run_round, incr_not_deallocating_round, has.
  rewrite land_dealloc, land_rc. change BLOCK_REFCOUNT_MASK with (2 * RC_MAX).
  pose proof (rc_range w). pose proof (dealloc_bit_range w) as Hd.
  assert (dealloc_bit w = 0 \/ dealloc_bit w = 1) as [-> | ->] by lia; cbn [Z.eqb negb Pos.eqb]; [|done].
  destruct (Z.eqb_spec (2 * rc w) (2 * RC_MAX)); destruct (Z.eqb_spec (rc w) RC_MAX);
    try (exfalso; lia); [done|].
  unfold word_ok in Hw. pose proof (word_split w).
  unfold RC_MAX in *. by rewrite u32_small by lia.
Qed.

Lemma decr_dealloc_eq w :
  word_ok w ->
  latching_decr_int_should_deallocate w =
    if (rc w =? RC_MAX) || (rc w =? 0) then (w, false)
    else if (rc w =? 1) && (dealloc_bit w =? 0) then (w - 1, true) else (w - 2, false).
Proof.
  intros Hw. unfold latching_decr_int_should_deallocate, run_round, decr_should_deallocate_round.
  rewrite land_low, land_rc. change BLOCK_REFCOUNT_MASK with (2 * RC_MAX).
  pose proof (rc_range w). pose proof (dealloc_bit_range w). pose proof (word_split w).
  unfold word_ok, RC_MAX in *.
  destruct (Z.eqb_spec (rc w) 32767) as [->|]; [done|].
  destruct (Z.eqb_spec (2 * rc w) (2 * 32767)); [lia|].
  destruct (Z.eqb_spec (rc w) 0) as [->|]; [done|]. destruct (Z.eqb_spec (2 * rc w) 0); [lia|].
  cbn [orb]. rewrite !u32_small by lia.
  destruct (Z.eqb_spec (2 * rc w + dealloc_bit w) 2); destruct (Z.eqb_spec (rc w) 1);
    destruct (Z.eqb_spec (dealloc_bit w) 0); cbn [andb]; try done; exfalso; lia.
Qed.

(** What each step does to the three parts of the word. *)
Lemma word_add2 w :
  rc w < RC_MAX -> high (w + 2) = high w /\ rc (w + 2) = rc w + 1 /\
    dealloc_bit (w + 2) = dealloc_bit w.
Proof.
  intros Hr. pose proof (rc_range w). apply word_unique; [|lia|apply dealloc_bit_range].
  rewrite (word_split w) at 1. lia.
Qed.

Lemma word_sub2 w :
  0 < rc w -> high (w - 2) = high w /\ rc (w - 2) = rc w - 1 /\
    dealloc_bit (w - 2) = dealloc_bit w.
Proof.
  intros Hr. pose proof (rc_range w). apply word_unique; [|lia|apply dealloc_bit_range].
  rewrite (word_split w) at 1. lia.
Qed.

Lemma word_last w :
  rc w = 1 -> dealloc_bit w = 0 ->
  high (w - 1) = high w /\ rc (w - 1) = 0 /\ dealloc_bit (w - 1) = 1.
Proof.
  intros Hr Hd. apply word_unique; [|unfold RC_MAX; lia|lia].
  rewrite (word_split w) at 1. rewrite Hr, Hd. lia.
Qed.

Lemma word_ok_high w w' : word_ok w -> high w' = high w -> word_ok w'.
Proof.
  unfold word_ok, high. intros Hw He. Z.to_euclidean_division_equations. lia.
Qed.

(** The high half never changes, and the result is a word again. *)
Lemma incr_word w : word_ok w ->
  let w' := (latching_incr_int w).1 in word_ok w' /\ high w' = high w /\
  dealloc_bit w' = dealloc_bit w /\ rc w' = Z.min RC_MAX (rc w + 1).
Proof.
  intros Hw w'. unfold w'. rewrite incr_eq by done. pose proof (rc_range w).
  destruct (Z.eqb_spec (rc w) RC_MAX); cbn [fst].
  - repeat split; try apply Hw; try done. lia.
  - destruct (word_add2 w) as (H1 & H2 & H3); [lia|].
    split; [by apply (word_ok_high w)|]. split; [done|]. split; [done|]. lia.
Qed.

Lemma decr_word w : word_ok w ->
  let '(w', d) := latching_decr_int_should_deallocate w in
  word_ok w' /\ high w' = high w /\
  (rc w = RC_MAX \/ rc w = 0 -> w' = w /\ d = false) /\
  (1 < rc w < RC_MAX -> d = false /\ rc w' = rc w - 1 /\ dealloc_bit w' = dealloc_bit w) /\
  (rc w = 1 -> dealloc_bit w = 0 -> d = true /\ rc w' = 0 /\ dealloc_bit w' = 1).
Proof.
  intros Hw. rewrite decr_dealloc_eq by done. pose proof (rc_range w).
  destruct (Z.eqb_spec (rc w) RC_MAX) as [E|]; cbn [orb].
  { unfold RC_MAX in *. repeat split; try apply Hw; try done; lia. }
  destruct (Z.eqb_spec (rc w) 0) as [E|].
  { unfold RC_MAX in *. repeat split; try apply Hw; try done; lia. }
  destruct (Z.eqb_spec (rc w) 1) as [E1|]; cbn [andb].
  - destruct (Z.eqb_spec (dealloc_bit w) 0) as [Ed|].
    + destruct (word_last w E1 Ed) as (H1 & H2 & H3).
      split; [by apply (word_ok_high w)|]. split; [done|]. split; [lia|]. split; [lia|]. done.
    + destruct (word_sub2 w) as (H1 & H2 & H3); [lia|].
      split; [by apply (word_ok_high w)|]. split; [done|]. split; [lia|]. split; [lia|]. done.
  - destruct (word_sub2 w) as (H1 & H2 & H3); [lia|].
    split; [by apply (word_ok_high w)|]. split; [done|]. split; [lia|]. split; [done|]. lia.
Qed.

(** ** Threads

    A thread that releases or tries to retain alternates between loading the
    word and one compare-and-swap; everything else it does is local. *)






















(** ** Every interleaving ends

    A swap that succeeds finishes its thread and can spoil each other pending
    swap once; a spoiled swap costs its thread two more steps. *)












(** ** The start of a race: every owner calls release, others try to retain *)







