(* ===== verification/BlockOwn.v ===== *)
(** * BlockOwn: who holds a reference to what

    The ownership invariant of the Blocks runtime without the collector.  Two
    ghost components describe who owns references: [W] gives, for each active
    heap block and each byref, the references it holds itself (the captures of
    the block, the forwarding pointer of a stack byref that has been moved),
    and [ext] counts the references held by anybody else: the program's
    variables and, while a copy or a disposal is under way, the block being
    built or torn down.  The count word of every active heap object is the
    number of references to it, unless it is latched. *)

From S2P Require Import Prelude BlockRuntime BlockCount.

Inductive ref :=
  | RBlock (v : Z)
  | RByref (v : Z)
  | RObject (v : Z).

#[export] Instance ref_eq_dec : EqDecision ref.
Proof. solve_decision. Defined.

(** The reference a captured variable [v] with field flags [f] stands for. *)
Definition capture (f v : Z) : list ref :=
  let k := Z.land f BLOCK_ALL_COPY_DISPOSE_FLAGS in
  if k =? BLOCK_FIELD_IS_OBJECT then [RObject v]
  else if k =? BLOCK_FIELD_IS_BLOCK then [RBlock v]
  else if (k =? Z.lor BLOCK_FIELD_IS_BYREF BLOCK_FIELD_IS_WEAK) || (k =? BLOCK_FIELD_IS_BYREF)
  then [RByref v] else [].

Definition fields_of (b : Block_layout) : list Z :=
  default [] (_Block_descriptor_2 b).

Definition captures_from (fields vs : list Z) : list ref :=
  concat (zip_with capture fields vs).

Definition captures (b : Block_layout) : list ref := captures_from (fields_of b) (b_imports b).

Definition heapb (b : Block_layout) : bool := has (b_flags b) BLOCK_NEEDS_FREE.
Definition globalb (b : Block_layout) : bool := has (b_flags b) BLOCK_IS_GLOBAL.
Definition heapr (r : Block_byref) : bool := has (br_flags r) BLOCK_BYREF_NEEDS_FREE.

(** ** Counting references *)

Fixpoint cnt (r : ref) (l : list ref) : Z :=
  match l with
  | [] => 0
  | x :: l => (if decide (x = r) then 1 else 0) + cnt r l
  end.

Definition nrefs (W : gmap Z (list ref)) (r : ref) : Z :=
  map_fold (fun _ l acc => cnt r l + acc) 0 W.

Definition total (W : gmap Z (list ref)) (ext : ref -> Z) (r : ref) : Z := nrefs W r + ext r.

Definition ext_add (ext : ref -> Z) (l : list ref) : ref -> Z := fun r => ext r + cnt r l.
Definition ext_sub (ext : ref -> Z) (l : list ref) : ref -> Z := fun r => ext r - cnt r l.

Lemma cnt_app r l l' : cnt r (l ++ l') = cnt r l + cnt r l'.
Proof. induction l as [|x l IH]; cbn; [done|]. rewrite IH. lia. Qed.

Lemma cnt_nonneg r l : 0 <= cnt r l.
Proof. induction l; cbn; [lia|]. case_decide; lia. Qed.

Lemma cnt_elem r l : r ∈ l -> 1 <= cnt r l.
Proof.
  induction l as [|x l IH]; [by intros ?%elem_of_nil|]. cbn. pose proof (cnt_nonneg r l).
  intros [->|Hl]%elem_of_cons; [rewrite decide_True by done; lia|].
  specialize (IH Hl). case_decide; lia.
Qed.

Lemma nrefs_insert W p l r :
  W !! p = None -> nrefs (<[p := l]> W) r = cnt r l + nrefs W r.
Proof.
  intros Hp. unfold nrefs. rewrite map_fold_insert_L; [done| |done].
  intros. lia.
Qed.

Lemma nrefs_delete W p l r :
  W !! p = Some l -> nrefs W r = cnt r l + nrefs (delete p W) r.
Proof.
  intros Hp. rewrite <-(nrefs_insert _ p) by apply lookup_delete_eq.
  by rewrite insert_delete_id.
Qed.

Lemma nrefs_update W p l l' r :
  W !! p = Some l -> nrefs (<[p := l']> W) r = nrefs W r - cnt r l + cnt r l'.
Proof.
  intros Hp. rewrite (nrefs_delete W p l) by done. rewrite <-insert_delete_eq.
  rewrite nrefs_insert by apply lookup_delete_eq. lia.
Qed.

Lemma nrefs_nonneg W r : 0 <= nrefs W r.
Proof.
  unfold nrefs. apply (map_fold_weak_ind (fun acc _ => 0 <= acc)); [lia|].
  intros. pose proof (cnt_nonneg r x). lia.
Qed.

(** ** The invariant *)

Definition owner (p : Z) (o : object) (l : list ref) : Prop :=
  match o with
  | OBlock b => heapb b = true /\ l = captures b
  | OByref r => l = (if decide (br_forwarding r = p) then [] else [RByref (br_forwarding r)])
  end.

Definition obj_flags (o : object) : Z :=
  match o with OBlock b => b_flags b | OByref r => br_flags r end.

Definition is_heap (o : object) : bool := has (obj_flags o) BLOCK_NEEDS_FREE.

Definition obj_wf (p : Z) (o : object) : Prop :=
  p <> 0 /\ word_ok (obj_flags o) /\ has (obj_flags o) BLOCK_IS_GC = false /\
  match o with
  | OBlock b => (length (fields_of b) <= length (b_imports b))%nat /\
      (heapb b = true -> globalb b = false)
  | OByref r => if heapr r then br_forwarding r = p
                else rc (br_flags r) = 0 /\ dealloc_bit (br_flags r) = 0
  end.

Definition self_ref (p : Z) (o : object) : ref :=
  match o with OBlock _ => RBlock p | OByref _ => RByref p end.

Definition valid (s : rt) (W : gmap Z (list ref)) (r : ref) : Prop :=
  match r with
  | RBlock v => v = 0 \/ exists b, mem s !! v = Some (OBlock b) /\
      (heapb b = true /\ is_Some (W !! v) \/ heapb b = false /\ globalb b = true)
  | RByref v => exists r, mem s !! v = Some (OByref r) /\ heapr r = true
  | RObject _ => True
  end.

Record Inv (s : rt) (W : gmap Z (list ref)) (ext : ref -> Z) : Prop := {
  i_gc : isGC s = false;
  i_init : _Byref_flag_initial_value s = Z.lor BLOCK_BYREF_NEEDS_FREE 4;
  i_own : forall p l, W !! p = Some l -> exists o, mem s !! p = Some o /\ owner p o l;
  i_wf : forall p o, mem s !! p = Some o -> obj_wf p o;
  i_byref : forall p r, mem s !! p = Some (OByref r) -> is_Some (W !! p);
  i_cnt : forall p l o, W !! p = Some l -> mem s !! p = Some o -> is_heap o = true ->
    dealloc_bit (obj_flags o) = 0 /\ 1 <= rc (obj_flags o) /\
    (rc (obj_flags o) = RC_MAX \/ rc (obj_flags o) = total W ext (self_ref p o));
  i_val : forall r, 0 < total W ext r -> valid s W r;
  i_ext : forall r, (forall v, r <> RObject v) -> 0 <= ext r;
  i_obj : forall v, default 0 (retained s !! v) = total W ext (RObject v);
}.

Lemma Inv_proper s W ext ext' :
  (forall r, ext r = ext' r) -> Inv s W ext -> Inv s W ext'.
Proof.
  intros He [? ? ? ? ? Hc Hv Hx Ho].
  assert (Ht : forall r, total W ext r = total W ext' r) by (intros; unfold total; by rewrite He).
  split; try done.
  - intros p l o Hp Hm Hh. destruct (Hc p l o Hp Hm Hh) as (? & ? & ?).
    by rewrite <-Ht.
  - intros r. rewrite <-Ht. apply Hv.
  - intros r Hr. rewrite <-He. by apply Hx.
  - intros v. rewrite <-Ht. apply Ho.
Qed.

(** ** Steps that keep the invariant *)

Lemma lookup_store p q o s :
  mem (store p o s) !! q = if decide (q = p) then Some o else mem s !! q.
Proof.
  unfold store, set_mem. cbn [mem]. case_decide; simplify_map_eq; done.
Qed.

Lemma lookup_free p q s :
  mem (free p s) !! q = if decide (q = p) then None else mem s !! q.
Proof.
  unfold free, set_mem. cbn [mem]. case_decide; simplify_map_eq; done.
Qed.

Definition same_kind (o o' : object) : Prop :=
  match o, o' with OBlock _, OBlock _ => True | OByref _, OByref _ => True | _, _ => False end.

(** Changing an owned object in place, with the references to it. *)
Lemma Inv_store s W ext ext' p l o o' :
  Inv s W ext -> W !! p = Some l -> mem s !! p = Some o ->
  same_kind o o' -> is_heap o' = is_heap o -> obj_wf p o' -> owner p o' l ->
  (forall r, r <> self_ref p o -> ext' r = ext r) -> 0 <= ext' (self_ref p o) ->
  (0 < total W ext' (self_ref p o) -> is_heap o = true) ->
  (is_heap o = true -> dealloc_bit (obj_flags o') = 0 /\ 1 <= rc (obj_flags o') /\
    (rc (obj_flags o') = RC_MAX \/ rc (obj_flags o') = total W ext' (self_ref p o))) ->
  Inv (store p o' s) W ext'.
Proof.
  intros [Hgc Hin Hown Hwf Hbr Hc Hv Hx Ho] HW Hm Hk Hh Hwf' How He He0 Ht Hc'.
  assert (Htot : forall r, r <> self_ref p o -> total W ext' r = total W ext r).
  { intros r Hr. unfold total. by rewrite He. }
  assert (Hself : forall q o2, self_ref q o2 = self_ref p o -> q = p).
  { intros q o2. destruct o, o2; cbn; congruence. }
  assert (Hself' : self_ref p o' = self_ref p o) by (destruct o, o'; done).
  split; try done.
  - intros q l' Hq. rewrite lookup_store. case_decide as E; [|by apply Hown].
    subst q. rewrite HW in Hq. injection Hq as <-. eauto.
  - intros q o2. rewrite lookup_store. case_decide as E; [|apply Hwf].
    intros [= <-]. by subst q.
  - intros q r. rewrite lookup_store. case_decide as E; [by subst; eauto|apply Hbr].
  - intros q l' o2 Hq. rewrite lookup_store. case_decide as E.
    + intros [= <-] Hh2. subst q. rewrite Hself'. apply Hc'. congruence.
    + intros Hm2 Hh2. rewrite Htot by (intros Hs; by apply Hself in Hs). by eapply Hc.
  - intros r Hr. destruct (decide (r = self_ref p o)) as [->|Hne].
    + specialize (Ht Hr). destruct o as [b|rr], o' as [b'|rr']; try done; cbn [self_ref valid].
      * right. exists b'. rewrite lookup_store, decide_True by done. split; [done|]. left.
        split; [|eauto]. by rewrite <-Ht, <-Hh.
      * exists rr'. rewrite lookup_store, decide_True by done. split; [done|].
        by rewrite <-Ht, <-Hh.
    + rewrite Htot in Hr by done. apply Hv in Hr. destruct r as [v|v|v]; cbn [valid] in *; try done.
      * destruct Hr as [->|(b & Hb & HH)]; [by left|]. right.
        rewrite lookup_store. destruct (decide (v = p)) as [->|]; [|by eauto].
        rewrite Hb in Hm. injection Hm as <-. done.
      * destruct Hr as (b & Hb & HH).
        rewrite lookup_store. destruct (decide (v = p)) as [->|]; [|by eauto].
        rewrite Hb in Hm. injection Hm as <-. done.
  - intros r Hr. destruct (decide (r = self_ref p o)) as [->|Hne]; [done|]. rewrite He by done. by apply Hx.
  - intros v. cbn [retained store set_mem]. rewrite Htot by (by destruct o). apply Ho.
Qed.

(** A heap block outside [W] may be created, changed or freed: nobody refers to it. *)
Definition loose (s : rt) (W : gmap Z (list ref)) (p : Z) : Prop :=
  W !! p = None /\
  (mem s !! p = None \/ exists b, mem s !! p = Some (OBlock b) /\ heapb b = true).

Lemma valid_loose s W p o r :
  loose s W p -> valid s W r -> valid (set_mem (fun m => partial_alter (fun _ => o) p m) s) W r.
Proof.
  intros [HW Hm] Hv. destruct r as [v|v|v]; cbn [valid mem set_mem] in *; [| |done].
  - destruct Hv as [->|(b & Hb & HH)]; [by left|]. right. destruct (decide (v = p)) as [->|].
    + rewrite Hb in Hm. destruct HH as [[_ [? ?]]|[? _]], Hm as [?|(? & [= <-] & ?)]; congruence.
    + rewrite lookup_partial_alter_ne by done. eauto.
  - destruct Hv as (b & Hb & HH). destruct (decide (v = p)) as [->|].
    + rewrite Hb in Hm. destruct Hm as [?|(? & [=] & ?)]; congruence.
    + rewrite lookup_partial_alter_ne by done. eauto.
Qed.

Lemma Inv_loose_store s W ext p b' :
  Inv s W ext -> loose s W p -> obj_wf p (OBlock b') ->
  Inv (store p (OBlock b') s) W ext.
Proof.
  intros [Hgc Hin Hown Hwf Hbr Hc Hv Hx Ho] Hl Hwf'. pose proof Hl as [HW _]. split; try done.
  - intros q l Hq. rewrite lookup_store. case_decide; [congruence|by apply Hown].
  - intros q o2. rewrite lookup_store. case_decide as E; [|apply Hwf].
    intros [= <-]. by subst q.
  - intros q r. rewrite lookup_store. case_decide; [done|apply Hbr].
  - intros q l o Hq. rewrite lookup_store. case_decide; [congruence|by eapply Hc].
  - intros r Hr. by apply (valid_loose s W p (Some (OBlock b'))), Hv.
Qed.

Lemma Inv_loose_free s W ext p :
  Inv s W ext -> loose s W p -> Inv (free p s) W ext.
Proof.
  intros [Hgc Hin Hown Hwf Hbr Hc Hv Hx Ho] Hl. pose proof Hl as [HW _]. split; try done.
  - intros q l Hq. rewrite lookup_free. case_decide; [congruence|by apply Hown].
  - intros q o2. rewrite lookup_free. case_decide; [done|apply Hwf].
  - intros q r. rewrite lookup_free. case_decide; [done|apply Hbr].
  - intros q l o Hq. rewrite lookup_free. case_decide; [congruence|by eapply Hc].
  - intros r Hr. by apply (valid_loose s W p None), Hv.
Qed.

(** A finished copy becomes active. *)
Lemma Inv_activate s W ext p b :
  mem s !! p = Some (OBlock b) -> heapb b = true -> W !! p = None ->
  dealloc_bit (b_flags b) = 0 -> rc (b_flags b) = 1 ->
  Inv s W (ext_add ext (captures b)) -> 0 <= ext (RBlock p) ->
  (forall r, (forall v, r <> RObject v) -> 0 <= ext r) ->
  Inv s (<[p := captures b]> W) (ext_add ext [RBlock p]).
Proof.
  intros Hm Hh HW Hd Hrc [Hgc Hin Hown Hwf Hbr Hc Hv Hx Ho] Hext Hext0.
  set (e0 := ext_add ext (captures b)) in *.
  assert (Ht : forall r, total (<[p := captures b]> W) (ext_add ext [RBlock p]) r =
    total W e0 r + cnt r [RBlock p]).
  { intros r. unfold total. rewrite nrefs_insert by done. unfold e0, ext_add. lia. }
  assert (H0 : total W e0 (RBlock p) = 0).
  { pose proof (nrefs_nonneg W (RBlock p)). pose proof (cnt_nonneg (RBlock p) (captures b)).
    destruct (decide (0 < total W e0 (RBlock p))) as [Hp|].
    - apply Hv in Hp. destruct Hp as [->|(b0 & Hb0 & HH)].
      + by destruct (Hwf _ _ Hm) as [? _].
      + rewrite Hm in Hb0. injection Hb0 as <-. rewrite HW in HH.
        destruct HH as [[_ [? ?]]|[? _]]; congruence.
    - unfold total, e0, ext_add in *. lia. }
  assert (Hne : forall q o, q <> p -> cnt (self_ref q o) [RBlock p] = 0).
  { intros q [|] Hq; cbn; rewrite decide_False by congruence; lia. }
  split; try done.
  - intros q l. destruct (decide (q = p)) as [->|]; simplify_map_eq; [|apply Hown].
    intros. exists (OBlock b). simplify_eq. done.
  - intros q r Hq. destruct (decide (q = p)) as [->|]; simplify_map_eq. by eapply Hbr.
  - intros q l o. rewrite Ht. destruct (decide (q = p)) as [->|]; simplify_map_eq.
    + intros _ [= <-] _. cbn [obj_flags self_ref cnt]. rewrite decide_True, H0 by done. lia.
    + rewrite Hne by done. rewrite Z.add_0_r. apply Hc.
  - intros r. rewrite Ht. intros Hr. destruct (decide (r = RBlock p)) as [->|Hn].
    + right. exists b. split; [done|]. left. simplify_map_eq. eauto.
    + cbn in Hr. rewrite decide_False in Hr by done.
      assert (Hval : valid s W r) by (apply Hv; lia).
      destruct r as [v|v|v]; cbn in *; try done.
      destruct Hval as [|(b0 & Hb0 & HH)]; [by left|]. right. exists b0. split; [done|].
      rewrite lookup_insert_ne by congruence. done.
  - intros r Hr. unfold ext_add. pose proof (cnt_nonneg r [RBlock p]).
    specialize (Hext0 r Hr). lia.
  - intros v. rewrite Ht, Ho. cbn [cnt]. rewrite decide_False by done. lia.
Qed.

(** The last reference to a block is given up: its captures are now held by
    the disposal. *)
Lemma Inv_deactivate s W ext p b :
  W !! p = Some (captures b) -> mem s !! p = Some (OBlock b) -> heapb b = true ->
  total W ext (RBlock p) = 1 -> 1 <= ext (RBlock p) -> Inv s W ext ->
  Inv s (delete p W) (ext_add (ext_sub ext [RBlock p]) (captures b)).
Proof.
  intros HW Hm Hh Ht1 He1 [Hgc Hin Hown Hwf Hbr Hc Hv Hx Ho].
  assert (Ht : forall r, total (delete p W) (ext_add (ext_sub ext [RBlock p]) (captures b)) r =
    total W ext r - cnt r [RBlock p]).
  { intros r. unfold total. rewrite (nrefs_delete W p (captures b)) by done.
    unfold ext_add, ext_sub. lia. }
  assert (Hne : forall q o, q <> p -> cnt (self_ref q o) [RBlock p] = 0).
  { intros q [|] Hq; cbn; rewrite decide_False by congruence; lia. }
  split; try done.
  - intros q l. destruct (decide (q = p)) as [->|]; simplify_map_eq; [done|apply Hown].
  - intros q r Hq. destruct (decide (q = p)) as [->|]; simplify_map_eq. by eapply Hbr.
  - intros q l o. rewrite Ht. destruct (decide (q = p)) as [->|]; simplify_map_eq; [done|].
    rewrite Hne by done. rewrite Z.sub_0_r. apply Hc.
  - intros r. rewrite Ht. intros Hr. destruct (decide (r = RBlock p)) as [->|Hn].
    + cbn in Hr. rewrite decide_True in Hr by done. lia.
    + cbn in Hr. rewrite decide_False in Hr by done.
      assert (Hval : valid s W r) by (apply Hv; lia).
      destruct r as [v|v|v]; cbn in *; try done.
      destruct Hval as [|(b0 & Hb0 & HH)]; [by left|]. right. exists b0. split; [done|].
      rewrite lookup_delete_ne by congruence. done.
  - intros r Hr. unfold ext_add, ext_sub. pose proof (cnt_nonneg r (captures b)).
    specialize (Hx r Hr). cbn. case_decide; subst; lia.
  - intros v. rewrite Ht, Ho. cbn [cnt]. rewrite decide_False by done. lia.
Qed.

(** The last reference to a byref is given up. *)
Lemma Inv_byref_free s W ext p l r :
  W !! p = Some l -> mem s !! p = Some (OByref r) -> heapr r = true ->
  total W ext (RByref p) = 1 -> 1 <= ext (RByref p) -> Inv s W ext ->
  Inv (free p s) (delete p W) (ext_sub ext [RByref p]).
Proof.
  intros HW Hm Hh Ht1 He1 [Hgc Hin Hown Hwf Hbr Hc Hv Hx Ho].
  assert (l = []) as ->.
  { destruct (Hown _ _ HW) as (o & Hm' & How). rewrite Hm in Hm'. injection Hm' as <-.
    destruct (Hwf _ _ Hm) as (_ & _ & _ & Hf). rewrite Hh in Hf. cbn [owner] in How.
    by rewrite decide_True in How. }
  assert (Ht : forall r, total (delete p W) (ext_sub ext [RByref p]) r =
    total W ext r - cnt r [RByref p]).
  { intros r'. unfold total. rewrite (nrefs_delete W p []) by done.
    unfold ext_sub. cbn [cnt]. lia. }
  assert (Hne : forall q o, q <> p -> cnt (self_ref q o) [RByref p] = 0).
  { intros q [|] Hq; cbn; rewrite decide_False by congruence; lia. }
  split; try done.
  - intros q l. rewrite lookup_free. case_decide as E; simplify_map_eq; [done|apply Hown].
  - intros q o. rewrite lookup_free. case_decide as E; simplify_map_eq; [done|apply Hwf].
  - intros q r'. rewrite lookup_free. case_decide as E; simplify_map_eq; [done|apply Hbr].
  - intros q l o. rewrite Ht, lookup_free. case_decide as E; simplify_map_eq; [done|].
    rewrite Hne by done. rewrite Z.sub_0_r. apply Hc.
  - intros r'. rewrite Ht. intros Hr. destruct (decide (r' = RByref p)) as [->|Hn].
    + cbn in Hr. rewrite decide_True in Hr by done. lia.
    + cbn in Hr. rewrite decide_False in Hr by done.
      assert (Hval : valid s W r') by (apply Hv; lia).
      destruct r' as [v|v|v]; cbn [valid] in *; try done.
      * destruct Hval as [|(b0 & Hb0 & HH)]; [by left|]. right. exists b0.
        rewrite lookup_free. rewrite decide_False, lookup_delete_ne by congruence. done.
      * rewrite lookup_free, decide_False by congruence. done.
  - intros r' Hr. unfold ext_sub. specialize (Hx r' Hr). cbn. case_decide; subst; lia.
  - intros v. rewrite Ht, Ho. cbn [cnt]. rewrite decide_False by done. lia.
Qed.

(** A byref moves to the heap: two references, one held by the stack byref. *)
Lemma Inv_byref_copy s W ext src r copy r' :
  mem s !! src = Some (OByref r) -> heapr r = false -> br_forwarding r = src ->
  mem s !! copy = None -> obj_wf copy (OByref r') -> heapr r' = true ->
  dealloc_bit (br_flags r') = 0 -> rc (br_flags r') = 2 -> Inv s W ext ->
  Inv (store src (OByref (byref_set_forwarding copy r)) (store copy (OByref r') s))
      (<[src := [RByref copy]]> (<[copy := []]> W)) (ext_add ext [RByref copy]).
Proof.
  intros Hm Hh Hf Hfresh Hwf' Hh' Hd' Hrc' [Hgc Hin Hown Hwf Hbr Hc Hv Hx Ho].
  assert (Hcs : copy <> src) by congruence.
  assert (HWc : W !! copy = None).
  { destruct (W !! copy) eqn:E; [|done]. apply Hown in E as (? & ? & _). congruence. }
  assert (HWs : W !! src = Some []).
  { destruct (Hbr _ _ Hm) as [l Hl]. destruct (Hown _ _ Hl) as (o & Ho1 & Ho2).
    rewrite Hm in Ho1. injection Ho1 as <-. cbn in Ho2. rewrite decide_True in Ho2 by done. by subst. }
  assert (Ht : forall x, total (<[src := [RByref copy]]> (<[copy := []]> W))
      (ext_add ext [RByref copy]) x = total W ext x + 2 * cnt x [RByref copy]).
  { intros x. unfold total. rewrite (nrefs_update _ _ []) by (by simplify_map_eq).
    rewrite nrefs_insert by done. unfold ext_add. cbn [cnt]. lia. }
  assert (H0 : total W ext (RByref copy) = 0).
  { pose proof (nrefs_nonneg W (RByref copy)). specialize (Hx (RByref copy) ltac:(done)).
    destruct (decide (0 < total W ext (RByref copy))) as [Hp|]; [|unfold total in *; lia].
    apply Hv in Hp as (? & ? & _). congruence. }
  destruct (Hwf _ _ Hm) as (W1 & W2 & W3 & W4). rewrite Hh in W4.
  split; try done.
  - intros q l. rewrite !lookup_store. destruct (decide (q = src)) as [->|]; simplify_map_eq.
    { intros. simplify_eq. eexists. split; [done|]. cbn. by rewrite decide_False. }
    destruct (decide (q = copy)) as [->|]; simplify_map_eq; [|apply Hown].
    intros. simplify_eq. eexists. split; [done|]. cbn.
    destruct Hwf' as (_ & _ & _ & Hf'). rewrite Hh' in Hf'. by rewrite decide_True.
  - intros q o. rewrite !lookup_store. destruct (decide (q = src)) as [->|].
    { intros [= <-]. split; [done|]. split; [done|]. split; [done|]. cbv beta iota.
      change (heapr (byref_set_forwarding copy r)) with (heapr r). by rewrite Hh. }
    destruct (decide (q = copy)) as [->|]; [by intros [= <-]|apply Hwf].
  - intros q o. rewrite !lookup_store. destruct (decide (q = src)) as [->|]; simplify_map_eq; [done|].
    destruct (decide (q = copy)) as [->|]; simplify_map_eq; [done|apply Hbr].
  - intros q l o. rewrite !lookup_store, Ht. destruct (decide (q = src)) as [->|]; simplify_map_eq.
    { intros _ [= <-] Hhh. change (heapr r = true) in Hhh. congruence. }
    destruct (decide (q = copy)) as [->|]; simplify_map_eq.
    + intros _ [= <-] _. cbn [obj_flags self_ref cnt]. rewrite decide_True by done. lia.
    + intros Hl Hq Hhp. destruct (Hc q l o Hl Hq Hhp) as (? & ? & ?).
      destruct o; cbn [cnt self_ref] in *; rewrite decide_False by congruence; lia.
  - intros x. rewrite Ht. intros Hr. destruct (decide (x = RByref copy)) as [->|Hn].
    + exists r'. rewrite !lookup_store, decide_False, decide_True by done. done.
    + cbn [cnt] in Hr. rewrite decide_False in Hr by done.
      assert (Hval : valid s W x) by (apply Hv; lia).
      destruct x as [v|v|v]; cbn [valid] in *; try done.
      * destruct Hval as [|(b0 & Hb0 & HH)]; [by left|]. right. exists b0.
        rewrite !lookup_store, !decide_False, !lookup_insert_ne by congruence. done.
      * destruct Hval as (r0 & Hr0 & HH). exists r0.
        rewrite !lookup_store. rewrite (decide_False (P := v = src)) by congruence.
        by rewrite (decide_False (P := v = copy)) by congruence.
  - intros x Hr. unfold ext_add. pose proof (cnt_nonneg x [RByref copy]). specialize (Hx x Hr). lia.
  - intros v. rewrite Ht, Ho. cbn [cnt]. rewrite decide_False by done. lia.
Qed.

(** Retaining and releasing an object. *)
Lemma Inv_retained s W ext v d l :
  Inv s W ext -> (forall x, l x = ext x + (if decide (x = RObject v) then d else 0)) ->
  Inv (set_retained (fun m => <[v := default 0 (m !! v) + d]> m) s) W l.
Proof.
  intros [Hgc Hin Hown Hwf Hbr Hc Hv Hx Ho] Hl.
  assert (Ht : forall x, x <> RObject v -> total W l x = total W ext x).
  { intros x Hxv. unfold total. rewrite Hl, decide_False by done. lia. }
  split; try done.
  - intros p l' o HW Hm. rewrite Ht by (by destruct o). by apply (Hc p l').
  - intros x Hr. destruct (decide (x = RObject v)) as [->|]; [done|]. apply Hv. by rewrite <-Ht.
  - intros x Hr. rewrite Hl, decide_False by apply Hr. rewrite Z.add_0_r. by apply Hx.
  - intros u. cbn. destruct (decide (u = v)) as [->|]; simplify_map_eq.
    + rewrite Ho. unfold total. rewrite Hl, decide_True by done. lia.
    + rewrite Ho. rewrite Ht by congruence. done.
Qed.
