(* ===== verification/BlockRelease.v ===== *)
(** * BlockRelease: releasing what one owns is safe

    Every release of a reference that is really held returns without touching
    freed memory, keeps the ownership invariant, and frees the object exactly
    when that was its last reference.  The recursion through captured blocks
    ends because each level takes one block out of the active ones. *)

From S2P Require Import Prelude BlockRuntime BlockCount BlockOwn.

(** ** Flags *)

Lemma has_keep w w' m n :
  m = Z.shiftl 1 n -> 16 <= n -> high w' = high w -> has w' m = has w m.
Proof. intros -> Hn Hh. rewrite !has_high by done. by rewrite Hh. Qed.

Lemma has_or w a b : (Z.land w (Z.lor a b) =? 0) = negb (has w a || has w b).
Proof.
  unfold has. rewrite Z.land_lor_distr_r.
  destruct (Z.eqb_spec (Z.land w a) 0) as [->|Ha]; cbn [negb orb].
  - rewrite Z.lor_0_l. by rewrite negb_involutive.
  - apply Z.eqb_neq. intros H. by apply Z.lor_eq_0_iff in H as [? _].
Qed.

Lemma has_single w m : (Z.land w m =? 0) = negb (has w m).
Proof. unfold has. by rewrite negb_involutive. Qed.

Definition set_obj_flags (w : Z) (o : object) : object :=
  match o with
  | OBlock b => OBlock (block_set_flags w b)
  | OByref r => OByref (byref_set_flags w r)
  end.

Lemma fields_of_flags w b : high w = high (b_flags b) ->
  fields_of (block_set_flags w b) = fields_of b.
Proof.
  intros Hh. unfold fields_of, _Block_descriptor_2. cbn [b_flags block_set_flags].
  by rewrite (has_keep (b_flags b) w BLOCK_HAS_COPY_DISPOSE 25).
Qed.

Lemma captures_flags w b : high w = high (b_flags b) ->
  captures (block_set_flags w b) = captures b.
Proof. intros Hh. unfold captures. by rewrite fields_of_flags. Qed.

Lemma is_heap_flags w o : high w = high (obj_flags o) -> is_heap (set_obj_flags w o) = is_heap o.
Proof. intros Hh. unfold is_heap. destruct o; by apply (has_keep _ _ _ 24). Qed.

Lemma obj_wf_flags p w o :
  word_ok w -> high w = high (obj_flags o) -> is_heap o = true -> obj_wf p o ->
  obj_wf p (set_obj_flags w o).
Proof.
  intros Hw Hh Hheap (H1 & H2 & H3 & H4). split; [done|].
  assert (Hf : obj_flags (set_obj_flags w o) = w) by (by destruct o).
  rewrite Hf. split; [done|]. split; [by rewrite (has_keep _ _ BLOCK_IS_GC 27 eq_refl ltac:(lia) Hh)|].
  pose proof (is_heap_flags w o Hh) as Hhf. destruct o as [b|r]; cbn [set_obj_flags] in *.
  - rewrite fields_of_flags by done. destruct H4 as [H4 H5]. split; [done|].
    intros _. unfold globalb. cbn [b_flags block_set_flags].
    rewrite (has_keep _ _ BLOCK_IS_GLOBAL 28 eq_refl ltac:(lia) Hh). by apply H5.
  - change (heapr (byref_set_flags w r) = heapr r) in Hhf.
    change (heapr r = true) in Hheap. by rewrite Hhf, Hheap in *.
Qed.

Lemma owner_flags p w o l :
  high w = high (obj_flags o) -> owner p o l -> owner p (set_obj_flags w o) l.
Proof.
  destruct o as [b|r]; cbn [set_obj_flags owner obj_flags]; [|done].
  intros Hh [H1 H2]. rewrite captures_flags by done. split; [|done].
  unfold heapb. cbn [b_flags block_set_flags]. by rewrite (has_keep _ _ BLOCK_NEEDS_FREE 24 eq_refl ltac:(lia) Hh).
Qed.

(** Counting one reference up or down in the word of an active object. *)
Lemma Inv_count s W ext ext' p l o w :
  Inv s W ext -> W !! p = Some l -> mem s !! p = Some o -> is_heap o = true ->
  word_ok w -> high w = high (obj_flags o) -> dealloc_bit w = 0 -> 1 <= rc w ->
  (rc w = RC_MAX \/ rc w = total W ext' (self_ref p o)) ->
  (forall r, r <> self_ref p o -> ext' r = ext r) -> 0 <= ext' (self_ref p o) ->
  Inv (store p (set_obj_flags w o) s) W ext'.
Proof.
  intros HI HW Hm Hh Hw Hhi Hd Hrc Ht He He0.
  destruct (i_own _ _ _ HI _ _ HW) as (o1 & Hm1 & How). rewrite Hm in Hm1. injection Hm1 as <-.
  eapply (Inv_store s W ext ext' p l o); try done.
  - by destruct o.
  - by apply is_heap_flags.
  - apply obj_wf_flags; try done. by apply (i_wf _ _ _ HI).
  - by apply owner_flags.
  - intros _. replace (obj_flags (set_obj_flags w o)) with w by (by destruct o). done.
Qed.

(** ** What a release leaves alone *)

Definition rel_frame (s : rt) (W : gmap Z (list ref)) (s' : rt) (W' : gmap Z (list ref)) : Prop :=
  W' ⊆ W /\ forall q, W !! q = None -> mem s' !! q = mem s !! q.

Lemma rel_frame_refl s W : rel_frame s W s W.
Proof. done. Qed.

Lemma rel_frame_trans s W s1 W1 s2 W2 :
  rel_frame s W s1 W1 -> rel_frame s1 W1 s2 W2 -> rel_frame s W s2 W2.
Proof.
  intros [H1 H2] [H3 H4]. split; [by etrans|]. intros q Hq. rewrite H4; [by apply H2|].
  by apply (lookup_weaken_None _ W).
Qed.

Lemma rel_frame_store s W p l o : W !! p = Some l -> rel_frame s W (store p o s) W.
Proof.
  intros Hp. split; [done|]. intros q Hq. rewrite lookup_store, decide_False; [done|congruence].
Qed.

(** ** Byrefs *)

Lemma ext_sub_other ext r x : r <> x -> ext_sub ext [x] r = ext r.
Proof. intros Hr. unfold ext_sub. cbn [cnt]. rewrite decide_False by congruence. lia. Qed.

Lemma ext_sub_self ext r : ext_sub ext [r] r = ext r - 1.
Proof. unfold ext_sub. cbn [cnt]. rewrite decide_True by done. lia. Qed.

Lemma total_sub W ext r : total W (ext_sub ext [r]) r = total W ext r - 1.
Proof. unfold total. rewrite ext_sub_self. lia. Qed.

(** The word after a release that does not deallocate. *)
Lemma decr_keeps s W ext p l o w :
  Inv s W ext -> W !! p = Some l -> mem s !! p = Some o -> is_heap o = true ->
  1 <= ext (self_ref p o) ->
  latching_decr_int_should_deallocate (obj_flags o) = (w, false) ->
  Inv (store p (set_obj_flags w o) s) W (ext_sub ext [self_ref p o]).
Proof.
  intros HI HW Hm Hh He Hdec. destruct (i_wf _ _ _ HI _ _ Hm) as (_ & Hok & _).
  destruct (i_cnt _ _ _ HI _ _ _ HW Hm Hh) as (Hd & H1 & Hrc).
  pose proof (decr_word _ Hok) as Hdw. rewrite Hdec in Hdw. destruct Hdw as (Hw & Hhi & Hmax & Hmid & Hone).
  pose proof (rc_range (obj_flags o)).
  apply (Inv_count s W ext _ p l o); try done.
  - destruct (decide (rc (obj_flags o) = RC_MAX)); [destruct Hmax as [-> _]; [by left|done]|].
    destruct (decide (rc (obj_flags o) = 1)); [destruct Hone; done|].
    destruct Hmid as (_ & _ & ->); [lia|done].
  - destruct (decide (rc (obj_flags o) = RC_MAX)); [destruct Hmax as [-> _]; [by left|done]|].
    destruct (decide (rc (obj_flags o) = 1)); [destruct Hone; done|].
    destruct Hmid as (_ & -> & _); [lia|lia].
  - rewrite total_sub.
    destruct (decide (rc (obj_flags o) = RC_MAX)); [destruct Hmax as [-> _]; [by left|by left]|].
    destruct (decide (rc (obj_flags o) = 1)); [destruct Hone; done|].
    destruct Hmid as (_ & -> & _); [lia|]. right. lia.
  - intros r Hr. by apply ext_sub_other.
  - rewrite ext_sub_self. lia.
Qed.

(** A release is told to deallocate only for the last reference. *)
Lemma decr_last s W ext p l o w :
  Inv s W ext -> W !! p = Some l -> mem s !! p = Some o -> is_heap o = true ->
  latching_decr_int_should_deallocate (obj_flags o) = (w, true) ->
  word_ok w /\ high w = high (obj_flags o) /\ total W ext (self_ref p o) = 1.
Proof.
  intros HI HW Hm Hh Hdec. destruct (i_wf _ _ _ HI _ _ Hm) as (_ & Hok & _).
  destruct (i_cnt _ _ _ HI _ _ _ HW Hm Hh) as (Hd & H1 & Hrc).
  pose proof (decr_word _ Hok) as Hdw. rewrite Hdec in Hdw. destruct Hdw as (Hw & Hhi & Hmax & Hmid & Hone).
  split; [done|]. split; [done|]. pose proof (rc_range (obj_flags o)).
  destruct (decide (rc (obj_flags o) = RC_MAX)); [by destruct Hmax as [_ ?]; [left|]|].
  destruct (decide (rc (obj_flags o) = 1)); [lia|]. destruct Hmid; [lia|done].
Qed.

Lemma byref_release_ok s W ext v :
  Inv s W ext -> 1 <= ext (RByref v) ->
  exists s' W', _Block_byref_release byref_caller_dispose v s = Ok s' /\
    Inv s' W' (ext_sub ext [RByref v]) /\ rel_frame s W s' W'.
Proof.
  intros HI He. pose proof (nrefs_nonneg W (RByref v)).
  destruct (i_val _ _ _ HI (RByref v)) as (r & Hm & Hh); [unfold total; lia|].
  destruct (i_byref _ _ _ HI _ _ Hm) as [l HW].
  destruct (i_wf _ _ _ HI _ _ Hm) as (_ & Hok & _ & Hf). rewrite Hh in Hf.
  destruct (i_cnt _ _ _ HI _ _ _ HW Hm Hh) as (_ & H1 & _). cbn [obj_flags] in *.
  unfold _Block_byref_release, load_byref. rewrite Hm. cbn [rbind]. rewrite Hf, Hm. cbn [rbind].
  rewrite has_single. unfold heapr in Hh. rewrite Hh. cbn [negb].
  rewrite land_rc, (proj2 (Z.eqb_neq (2 * rc _) 0)) by lia. cbn [negb c_assert rbind].
  destruct (latching_decr_int_should_deallocate (br_flags r)) as [w [|]] eqn:Hdec.
  - pose proof (decr_last s W ext v l (OByref r) w HI HW Hm Hh Hdec) as (Hw & Hhi & Ht).
    unfold byref_caller_dispose, _Block_deallocator.
    cbn [obj_flags self_ref] in *.
    exists (free v (store v (OByref (byref_set_flags w r)) s)), (delete v W).
    split; [case_match; cbn [rbind]; by rewrite (i_gc _ _ _ HI : isGC (store _ _ s) = false)|].
    split.
    + assert (Hfs : free v (store v (OByref (byref_set_flags w r)) s) = free v s).
      { unfold free, store, set_mem. cbn. by rewrite delete_insert_eq. }
      rewrite Hfs. by apply (Inv_byref_free s W ext v l r).
    + split; [apply delete_subseteq|]. intros q Hq.
      rewrite lookup_free, lookup_store, !decide_False by congruence. done.
  - exists (store v (OByref (byref_set_flags w r)) s), W. split; [done|]. split.
    + by apply (decr_keeps s W ext v l (OByref r) w).
    + by apply (rel_frame_store _ _ _ l).
Qed.

(** ** Blocks *)

Definition release_spec (release : Z -> rt -> res rt) (fuel : nat) : Prop :=
  forall p s W ext, Inv s W ext -> 1 <= ext (RBlock p) -> (size W < fuel)%nat ->
  exists s' W', release p s = Ok s' /\ Inv s' W' (ext_sub ext [RBlock p]) /\ rel_frame s W s' W'.

Definition ext_nonneg (ext : ref -> Z) : Prop := forall r, (forall v, r <> RObject v) -> 0 <= ext r.

Lemma ext_add_sub ext r : forall x, ext_sub (ext_add ext [r]) [r] x = ext x.
Proof. intros x. unfold ext_sub, ext_add. lia. Qed.

Lemma ext_add_nonneg ext l : ext_nonneg ext -> ext_nonneg (ext_add ext l).
Proof. intros He r Hr. unfold ext_add. pose proof (cnt_nonneg r l). specialize (He r Hr). lia. Qed.

Lemma ext_add_one ext r : ext_nonneg ext -> (forall v, r <> RObject v) -> 1 <= ext_add ext [r] r.
Proof. intros He Hr. specialize (He r Hr). unfold ext_add. cbn [cnt]. rewrite decide_True by done. lia. Qed.

(** Giving up a reference to something that is not counted. *)
Lemma Inv_drop s W ext v :
  Inv s W ext -> 1 <= ext (RBlock v) ->
  (forall o, mem s !! v = Some o -> is_heap o = false) ->
  Inv s W (ext_sub ext [RBlock v]).
Proof.
  intros [Hgc Hin Hown Hwf Hbr Hc Hvl Hx Ho] He Hnh.
  assert (Ht : forall r, r <> RBlock v -> total W (ext_sub ext [RBlock v]) r = total W ext r).
  { intros r Hn. unfold total. by rewrite ext_sub_other. }
  split; try done.
  - intros p l o Hp Hm Hh. rewrite Ht; [by apply (Hc p l)|].
    destruct (decide (p = v)) as [->|]; [|destruct o; cbn; congruence].
    rewrite (Hnh _ Hm) in Hh. done.
  - intros r Hpos. apply Hvl. pose proof (cnt_nonneg r [RBlock v]).
    unfold total, ext_sub in *. lia.
  - intros r Hr. destruct (decide (r = RBlock v)) as [->|];
      [rewrite ext_sub_self; lia|rewrite ext_sub_other by done; by apply Hx].
  - intros u. rewrite Ht by done. apply Ho.
Qed.

(** Destroying a captured block: a null pointer and a global block are left alone. *)
Lemma destroy_ok release fuel v s W ext :
  release_spec release fuel -> ext_nonneg ext -> (size W < fuel)%nat ->
  Inv s W (ext_add ext [RBlock v]) ->
  exists s' W', destroy_with release v s = Ok s' /\ Inv s' W' ext /\ rel_frame s W s' W'.
Proof.
  intros Hrel He Hsz HI. unfold destroy_with.
  pose proof (ext_add_one ext (RBlock v) He ltac:(done)) as H1.
  destruct (Hrel v s W _ HI H1 Hsz) as (s' & W' & Hr & HI' & Hfr).
  apply (Inv_proper _ _ _ _ (ext_add_sub ext (RBlock v))) in HI'.
  destruct (Z.eqb_spec v 0) as [->|Hv].
  - exists s, W. split; [done|]. split; [|apply rel_frame_refl].
    eapply Inv_proper; [apply ext_add_sub|]. apply Inv_drop; [done|done|].
    intros o Hm. by destruct (i_wf _ _ _ HI _ _ Hm).
  - destruct (i_val _ _ _ HI (RBlock v)) as [?|(b & Hm & _)]; [|done|].
    { pose proof (nrefs_nonneg W (RBlock v)). unfold total. lia. }
    unfold load_block. rewrite Hm. cbn [rbind].
    destruct (i_wf _ _ _ HI _ _ Hm) as (_ & _ & Hgc & _). cbn [obj_flags] in Hgc. rewrite Hgc.
    eauto.
Qed.

Lemma dispose_one release fuel f v s W ext :
  release_spec release fuel -> ext_nonneg ext -> (size W < fuel)%nat ->
  Inv s W (ext_add ext (capture f v)) ->
  exists s' W', object_dispose release v f s = Ok s' /\ Inv s' W' ext /\ rel_frame s W s' W'.
Proof.
  intros Hrel He Hsz HI. unfold capture in HI. unfold object_dispose, byref_caller_dispose.
  remember (Z.land f BLOCK_ALL_COPY_DISPOSE_FLAGS) as k eqn:Ek. clear Ek.
  destruct (Z.eqb_spec k BLOCK_FIELD_IS_OBJECT) as [Hk|_]; [subst k|].
  { cbn [Z.eqb Z.lor BLOCK_FIELD_IS_OBJECT BLOCK_FIELD_IS_BYREF BLOCK_FIELD_IS_WEAK
         BLOCK_FIELD_IS_BLOCK Pos.eqb Pos.lor orb].
    exists (_Block_release_object v s), W. split; [done|]. split; [|done].
    eapply (Inv_retained s W _ v (-1)); [exact HI|]. intros x. unfold ext_add. cbn [cnt].
    destruct (decide (x = RObject v)) as [->|]; [rewrite decide_True by done|rewrite decide_False by congruence]; lia. }
  destruct (Z.eqb_spec k BLOCK_FIELD_IS_BLOCK) as [Hk|_]; [subst k|].
  { change (_ || _) with false. cbn iota.
    by apply (destroy_ok release fuel v s W ext). }
  destruct (_ || _).
  - destruct (byref_release_ok s W _ v HI) as (s' & W' & Hr & HI' & Hfr).
    { by apply ext_add_one. }
    exists s', W'. split; [done|]. split; [|done]. eapply Inv_proper; [|exact HI'].
    apply ext_add_sub.
  - exists s, W. split; [done|]. split; [|apply rel_frame_refl]. eapply Inv_proper; [|exact HI].
    intros x. unfold ext_add. cbn [cnt]. lia.
Qed.

Lemma captures_from_cons f fields v vs :
  captures_from (f :: fields) (v :: vs) = capture f v ++ captures_from fields vs.
Proof. done. Qed.

Lemma ext_add_app ext l l' : forall x, ext_add ext (l ++ l') x = ext_add (ext_add ext l') l x.
Proof. intros x. unfold ext_add. rewrite cnt_app. lia. Qed.

Lemma dispose_helper_ok release fuel b p ext :
  release_spec release fuel -> ext_nonneg ext ->
  forall fields i s W,
  Inv s W (ext_add ext (captures_from fields (drop i (b_imports b)))) ->
  mem s !! p = Some (OBlock b) -> W !! p = None -> (size W < fuel)%nat ->
  (i + length fields <= length (b_imports b))%nat ->
  exists s' W', dispose_helper (object_dispose release) fields i p s = Ok s' /\
    Inv s' W' ext /\ rel_frame s W s' W'.
Proof.
  intros Hrel He fields. induction fields as [|f fields IH]; intros i s W HI Hm HW Hsz Hlen.
  - exists s, W. split; [done|]. split; [|apply rel_frame_refl].
    eapply Inv_proper; [|exact HI]. intros x. unfold ext_add. cbn. lia.
  - cbn [length] in Hlen. destruct (lookup_lt_is_Some_2 (b_imports b) i) as [v Hv]; [lia|].
    rewrite (drop_S _ v) in HI by done. rewrite captures_from_cons in HI.
    eapply (Inv_proper _ _ _ _ (ext_add_app _ _ _)) in HI.
    assert (Hone : exists s1 W1,
      (if f =? 0 then Ok s else let! b := load_block p s in
         let! v := arr_get (b_imports b) (Z.of_nat i) in object_dispose release v f s) = Ok s1 /\
      Inv s1 W1 (ext_add ext (captures_from fields (drop (S i) (b_imports b)))) /\
      rel_frame s W s1 W1).
    { destruct (Z.eqb_spec f 0) as [->|].
      - exists s, W. split; [done|]. split; [|apply rel_frame_refl].
        eapply Inv_proper; [|exact HI]. intros x. change (capture 0 v) with (@nil ref).
        unfold ext_add. cbn [cnt]. lia.
      - unfold load_block. rewrite Hm. cbn [rbind].
        rewrite (arr_get_ok _ _ v) by (rewrite ?Nat2Z.id; done || lia). cbn [rbind].
        apply (dispose_one release fuel f v s W); try done. by apply ext_add_nonneg. }
    destruct Hone as (s1 & W1 & Hr1 & HI1 & Hf1). cbn [dispose_helper]. rewrite Hr1. cbn [rbind].
    pose proof Hf1 as [Hsub Hmem].
    destruct (IH (S i) s1 W1) as (s' & W' & Hr & HI' & Hfr); [done| | | |lia|].
    + by rewrite Hmem.
    + by apply (lookup_weaken_None _ W).
    + apply map_subseteq_size in Hsub. lia.
    + exists s', W'. split; [done|]. split; [done|]. by eapply rel_frame_trans.
Qed.

Lemma call_dispose_ok release fuel b p ext s W :
  release_spec release fuel -> ext_nonneg ext ->
  Inv s W (ext_add ext (captures b)) ->
  mem s !! p = Some (OBlock b) -> W !! p = None -> (size W < fuel)%nat ->
  exists s' W', _Block_call_dispose_helper (object_dispose release) p s = Ok s' /\
    Inv s' W' ext /\ rel_frame s W s' W'.
Proof.
  intros Hrel He HI Hm HW Hsz. destruct (i_wf _ _ _ HI _ _ Hm) as (_ & _ & _ & Hlen & _).
  unfold _Block_call_dispose_helper, load_block. rewrite Hm. cbn [rbind].
  unfold captures, fields_of in *. destruct (_Block_descriptor_2 b) as [fields|]; cbn [default] in *.
  - by apply (dispose_helper_ok release fuel b).
  - exists s, W. split; [done|]. split; [|apply rel_frame_refl].
    eapply Inv_proper; [|exact HI]. intros x. unfold ext_add. cbn. lia.
Qed.

(** Tearing down a block whose last reference is gone. *)
Lemma teardown_ok release fuel s W ext p b w :
  release_spec release fuel -> Inv s W ext -> 1 <= ext (RBlock p) -> (size W < S fuel)%nat ->
  mem s !! p = Some (OBlock b) -> W !! p = Some (captures b) -> heapb b = true ->
  total W ext (RBlock p) = 1 -> word_ok w -> high w = high (b_flags b) ->
  exists s' W',
    (let! s := _Block_call_dispose_helper (object_dispose release) p
                 (store p (OBlock (block_set_flags w b)) s) in
     Ok (_Block_deallocator p (_Block_destructInstance p s))) = Ok s' /\
    Inv s' W' (ext_sub ext [RBlock p]) /\ rel_frame s W s' W' /\ mem s' !! p = None.
Proof.
  intros Hrel HI He Hsz Hm HW Hh Ht Hw Hhi.
  pose proof (Inv_deactivate s W ext p b HW Hm Hh Ht He HI) as HI1.
  set (b' := block_set_flags w b). set (s1 := store p (OBlock b') s).
  assert (Hh' : heapb b' = true) by (unfold heapb; cbn; by rewrite (has_keep _ _ BLOCK_NEEDS_FREE 24 eq_refl ltac:(lia) Hhi)).
  assert (HI2 : Inv s1 (delete p W) (ext_add (ext_sub ext [RBlock p]) (captures b'))).
  { unfold b' at 1. rewrite captures_flags by done.
    apply Inv_loose_store; [done| |].
    - split; [apply lookup_delete_eq|]. right. eauto.
    - by apply (obj_wf_flags p w (OBlock b)); [..|apply (i_wf _ _ _ HI)]. }
  assert (Hext : ext_nonneg (ext_sub ext [RBlock p])).
  { intros r Hr. destruct (decide (r = RBlock p)) as [->|];
      [rewrite ext_sub_self; lia|rewrite ext_sub_other by done; by apply (i_ext _ _ _ HI)]. }
  destruct (call_dispose_ok release fuel b' p _ s1 (delete p W) Hrel Hext HI2)
    as (s2 & W2 & Hr & HI3 & Hfr).
  - unfold s1. by rewrite lookup_store, decide_True.
  - apply lookup_delete_eq.
  - assert (size (delete p W) < size W)%nat; [|lia]. rewrite map_size_delete, HW.
    assert (size W <> 0)%nat; [|lia]. intros Hz%map_size_empty_iff. by rewrite Hz in HW.
  - rewrite Hr. cbn [rbind]. unfold _Block_deallocator, _Block_destructInstance.
    rewrite (i_gc _ _ _ HI3). destruct Hfr as [Hsub Hmem].
    assert (HW2 : W2 !! p = None) by (apply (lookup_weaken_None _ (delete p W)); [apply lookup_delete_eq|done]).
    assert (Hm2 : mem s2 !! p = Some (OBlock b')).
    { rewrite Hmem by apply lookup_delete_eq. unfold s1. by rewrite lookup_store, decide_True. }
    exists (free p s2), W2. split; [done|]. split; [|split; [split|]].
    + apply Inv_loose_free; [done|]. split; [done|]. right. eauto.
    + etrans; [exact Hsub|apply delete_subseteq].
    + intros q Hq. assert (q <> p) by congruence. rewrite lookup_free, decide_False by done.
      rewrite Hmem by (by rewrite lookup_delete_ne). unfold s1.
      by rewrite lookup_store, decide_False.
    + by rewrite lookup_free, decide_True.
Qed.

(** One reference to an active heap block is given up. *)
Lemma release_heap fuel p s W ext l b :
  release_spec (_Block_release fuel) fuel ->
  Inv s W ext -> 1 <= ext (RBlock p) -> (size W < S fuel)%nat ->
  W !! p = Some l -> mem s !! p = Some (OBlock b) -> heapb b = true ->
  exists s' W', _Block_release (S fuel) p s = Ok s' /\
    Inv s' W' (ext_sub ext [RBlock p]) /\ rel_frame s W s' W' /\
    (rc (b_flags b) = 1 -> mem s' !! p = None) /\
    (1 < rc (b_flags b) -> W' !! p = Some l /\
      exists w, s' = store p (OBlock (block_set_flags w b)) s /\
      rc w = (if rc (b_flags b) =? RC_MAX then RC_MAX else rc (b_flags b) - 1)).
Proof.
  intros IH HI He Hsz HW Hm Hh.
  destruct (i_wf _ _ _ HI _ _ Hm) as (Hp0 & Hok & Hgc & Hlen & Hng).
  destruct (i_cnt _ _ _ HI _ _ _ HW Hm Hh) as (Hd & H1 & _).
  cbn [_Block_release]. rewrite (proj2 (Z.eqb_neq p 0)) by done.
  unfold load_block. rewrite Hm. cbn [rbind obj_flags] in *. rewrite has_or, Hgc. cbn [orb].
  pose proof Hh as Hh'. unfold globalb, heapb in Hh, Hng. rewrite Hng, Hh by done. cbn [orb negb].
  pose proof (decr_word _ Hok) as Hdw. pose proof (rc_range (b_flags b)).
  destruct (latching_decr_int_should_deallocate (b_flags b)) as [w [|]] eqn:Hdec;
    destruct Hdw as (_ & Hhw & Hmax & Hmid & Hone).
  - pose proof (decr_last s W ext p l (OBlock b) w HI HW Hm Hh Hdec) as (Hw & Hhi & Ht).
    destruct (i_own _ _ _ HI _ _ HW) as (o1 & Hm1 & How). rewrite Hm in Hm1. injection Hm1 as <-.
    destruct How as [_ ->].
    destruct (teardown_ok (_Block_release fuel) fuel s W ext p b w) as (s' & W' & R & I & F & N); [done..|].
    exists s', W'. split; [done|]. split; [done|]. split; [done|]. split; [done|].
    intros Hgt. destruct (decide (rc (b_flags b) = RC_MAX)) as [E|E].
    + by destruct Hmax as [_ ?]; [left|].
    + by destruct Hmid as [? _]; [lia|].
  - exists (store p (OBlock (block_set_flags w b)) s), W. split; [done|]. split; [|split; [|split]].
    + by apply (decr_keeps s W ext p l (OBlock b) w).
    + by apply (rel_frame_store _ _ _ l).
    + intros E. by destruct Hone as [? _].
    + intros Hgt. split; [done|]. exists w. split; [done|].
      destruct (Z.eqb_spec (rc (b_flags b)) RC_MAX) as [E|E].
      * destruct Hmax as [-> _]; [by left|done].
      * destruct Hmid as (_ & ? & _); [lia|done].
Qed.

Lemma release_ok fuel : release_spec (_Block_release fuel) fuel.
Proof.
  induction fuel as [|fuel IH]; intros p s W ext HI He Hsz; [lia|].
  pose proof (nrefs_nonneg W (RBlock p)).
  destruct (decide (p = 0)) as [->|Hp0].
  { exists s, W. split; [done|]. split; [|apply rel_frame_refl].
    apply Inv_drop; [done|done|]. intros o Hm. by destruct (i_wf _ _ _ HI _ _ Hm). }
  destruct (i_val _ _ _ HI (RBlock p)) as [?|(b & Hm & Hk)]; [unfold total; lia|done|].
  destruct Hk as [[Hh [l HW]]|[Hh Hg]].
  - destruct (release_heap fuel p s W ext l b) as (s' & W' & ? & ? & ? & _); [done..|].
    exists s', W'. by split_and!.
  - cbn [_Block_release]. rewrite (proj2 (Z.eqb_neq p 0)) by done.
    unfold load_block. rewrite Hm. cbn [rbind]. unfold globalb, heapb in *. rewrite Hg. cbn [orb].
    exists s, W. split; [done|].
    split; [|apply rel_frame_refl]. apply Inv_drop; [done|done|]. rewrite Hm. by intros o [= <-].
Qed.

(** Active objects are in memory: fuel counted by the size of memory is enough. *)
Lemma size_W s W ext : Inv s W ext -> (size W <= size (mem s))%nat.
Proof.
  intros HI. rewrite <-(size_dom W), <-(size_dom (mem s)). apply subseteq_size.
  intros p [l Hl]%elem_of_dom. destruct (i_own _ _ _ HI p l Hl) as (o & Ho & _).
  apply elem_of_dom. eauto.
Qed.
