(* ===== verification/BlockCopy.v ===== *)
(** * BlockCopy: copying keeps count of everything it shares

    [_Block_copy] of a stack block whose captured variables are alive returns
    a heap block with one reference, retains every captured object, copies or
    retains every captured block, and moves every captured byref to the heap
    once, sharing it afterwards. *)

From S2P Require Import Prelude BlockRuntime BlockCount BlockOwn BlockRelease.

(** ** The flag words of fresh objects *)

Lemma has_bit w n : 16 <= n -> has w (Z.shiftl 1 n) = Z.testbit w n.
Proof.
  intros Hn. rewrite has_high by done. unfold high. change 65536 with (2 ^ 16).
  rewrite <-Z.shiftr_div_pow2, Z.shiftr_spec by lia. f_equal. lia.
Qed.

(** Setting flags of the high half and a count in an empty low half. *)
Lemma fresh_word w c k :
  word_ok w -> rc w = 0 -> dealloc_bit w = 0 -> word_ok c ->
  Z.land c BLOCK_REFCOUNT_MASK = 2 * k -> dealloc_bit c = 0 ->
  word_ok (Z.lor w c) /\ rc (Z.lor w c) = k /\ dealloc_bit (Z.lor w c) = 0 /\
  forall n, 16 <= n -> has (Z.lor w c) (Z.shiftl 1 n) = has w (Z.shiftl 1 n) || has c (Z.shiftl 1 n).
Proof.
  intros Hw Hr Hd Hc Hk Hcd. split; [|split; [|split]].
  - unfold word_ok in *. assert (0 <= Z.lor w c) by (apply Z.lor_nonneg; lia).
    split; [done|]. apply Z.bounded_iff_bits_nonneg; [lia|done|]. intros l Hl.
    rewrite Z.lor_spec.
    rewrite (proj1 (Z.bounded_iff_bits_nonneg 32 w ltac:(lia) ltac:(lia))) by lia.
    by rewrite (proj1 (Z.bounded_iff_bits_nonneg 32 c ltac:(lia) ltac:(lia))) by lia.
  - assert (2 * rc (Z.lor w c) = 2 * k); [|lia].
    rewrite <-land_rc, Z.land_lor_distr_l, land_rc, Hr, Hk. by rewrite Z.lor_0_l.
  - rewrite <-land_dealloc, Z.land_lor_distr_l, !land_dealloc, Hd, Hcd. done.
  - intros n Hn. rewrite !has_bit by done. apply Z.lor_spec.
Qed.

Lemma cleared_word w :
  word_ok w ->
  let w0 := Z.ldiff w (Z.lor BLOCK_REFCOUNT_MASK BLOCK_DEALLOCATING) in
  word_ok w0 /\ high w0 = high w /\ rc w0 = 0 /\ dealloc_bit w0 = 0.
Proof.
  intros Hw w0. assert (E : w0 = 65536 * high w).
  { unfold w0, high. change (Z.lor _ _) with (Z.ones 16). rewrite Z.ldiff_ones_r by lia.
    rewrite Z.shiftl_mul_pow2, Z.shiftr_div_pow2 by lia. apply Z.mul_comm. }
  destruct (word_unique w0 (high w) 0 0) as (H1 & H2 & H3); [lia|unfold RC_MAX; lia|lia|].
  split; [by apply (word_ok_high w)|done].
Qed.

(** The word of a block just copied from the stack. *)
Lemma copied_word w :
  word_ok w ->
  let w' := Z.lor (Z.ldiff w (Z.lor BLOCK_REFCOUNT_MASK BLOCK_DEALLOCATING))
              (Z.lor BLOCK_NEEDS_FREE 2) in
  word_ok w' /\ rc w' = 1 /\ dealloc_bit w' = 0 /\ has w' BLOCK_NEEDS_FREE = true /\
  has w' BLOCK_IS_GC = has w BLOCK_IS_GC /\ has w' BLOCK_IS_GLOBAL = has w BLOCK_IS_GLOBAL /\
  has w' BLOCK_HAS_COPY_DISPOSE = has w BLOCK_HAS_COPY_DISPOSE.
Proof.
  intros Hw w'. destruct (cleared_word w Hw) as (H0 & Hh & Hr & Hd).
  destruct (fresh_word _ (Z.lor BLOCK_NEEDS_FREE 2) 1 H0 Hr Hd) as (F1 & F2 & F3 & F4);
    [by split; vm_compute|done|done|].
  split; [done|]. split; [done|]. split; [done|]. unfold w'.
  split; [|split; [|split]].
  - etrans; [exact (F4 24 ltac:(lia))|]. apply orb_true_r.
  - etrans; [exact (F4 27 ltac:(lia))|].
    rewrite (has_keep w _ (Z.shiftl 1 27) 27) by done. apply orb_false_r.
  - etrans; [exact (F4 28 ltac:(lia))|].
    rewrite (has_keep w _ (Z.shiftl 1 28) 28) by done. apply orb_false_r.
  - etrans; [exact (F4 25 ltac:(lia))|].
    rewrite (has_keep w _ (Z.shiftl 1 25) 25) by done. apply orb_false_r.
Qed.

(** The word of a byref just moved to the heap. *)
Lemma moved_word w :
  word_ok w -> rc w = 0 -> dealloc_bit w = 0 ->
  let w' := Z.lor w (Z.lor BLOCK_BYREF_NEEDS_FREE 4) in
  word_ok w' /\ rc w' = 2 /\ dealloc_bit w' = 0 /\ has w' BLOCK_NEEDS_FREE = true /\
  has w' BLOCK_IS_GC = has w BLOCK_IS_GC.
Proof.
  intros Hw Hr Hd w'.
  destruct (fresh_word w (Z.lor BLOCK_BYREF_NEEDS_FREE 4) 2 Hw Hr Hd) as (F1 & F2 & F3 & F4);
    [by split; vm_compute|done|done|].
  split; [done|]. split; [done|]. split; [done|]. unfold w'. split.
  - etrans; [exact (F4 24 ltac:(lia))|]. apply orb_true_r.
  - etrans; [exact (F4 27 ltac:(lia))|]. apply orb_false_r.
Qed.

(** ** What may be copied *)

(** A captured variable: a block that can be copied with [n] levels of stack
    blocks below it, or a byref that is alive. *)
Definition cap_ok (copy : Z -> Prop) (s : rt) (r : ref) : Prop :=
  match r with
  | RBlock v => copy v
  | RByref v => exists r, mem s !! v = Some (OByref r)
  | RObject _ => True
  end.

Fixpoint copyable (s : rt) (W : gmap Z (list ref)) (n : nat) (v : Z) : Prop :=
  v = 0 \/ exists b, mem s !! v = Some (OBlock b) /\
    (heapb b = true /\ is_Some (W !! v) \/
     heapb b = false /\ globalb b = true \/
     heapb b = false /\ globalb b = false /\
       match n with
       | O => False
       | S n => Forall (cap_ok (copyable s W n) s) (captures b)
       end).

(** The value of a [__block] variable, read as compiled code reads it, through
    the forwarding pointer. *)
Definition variable (s : rt) (q : Z) : option Z :=
  match mem s !! q with
  | Some (OByref r) =>
      match mem s !! br_forwarding r with
      | Some (OByref rf) => Some (br_payload rf)
      | _ => None
      end
  | _ => None
  end.

(** A keep helper, where the byref has one, passes one of the four
    BYREF_CALLER combinations that the compiler emits. *)
Definition keeps (r : Block_byref) : bool :=
  negb (has (br_flags r) BLOCK_BYREF_HAS_COPY_DISPOSE) ||
  bool_decide (Z.land (br_helper r) BLOCK_ALL_COPY_DISPOSE_FLAGS ∈
    [Z.lor BLOCK_BYREF_CALLER BLOCK_FIELD_IS_OBJECT;
     Z.lor BLOCK_BYREF_CALLER BLOCK_FIELD_IS_BLOCK;
     Z.lor BLOCK_BYREF_CALLER (Z.lor BLOCK_FIELD_IS_OBJECT BLOCK_FIELD_IS_WEAK);
     Z.lor BLOCK_BYREF_CALLER (Z.lor BLOCK_FIELD_IS_BLOCK BLOCK_FIELD_IS_WEAK)]).

(** The byref at [q] may change its count and, once, its forwarding pointer. *)
Definition same_byref (q : Z) (r r' : Block_byref) : Prop :=
  exists w f, r' = byref_set_flags w (byref_set_forwarding f r) /\ high w = high (br_flags r) /\
    (f = br_forwarding r \/ br_forwarding r = q /\ heapr r = false).

(** What a copy leaves alone at [q]: a block outside [W] is not written, of an
    active block only the count changes, a byref stays and its variable keeps
    its value. *)
Definition kept (s : rt) (W : gmap Z (list ref)) (s' : rt) (W' : gmap Z (list ref)) (q : Z) : Prop :=
  (forall b, mem s !! q = Some (OBlock b) ->
    match W !! q with
    | None => mem s' !! q = Some (OBlock b) /\ W' !! q = None
    | Some _ => (exists w, mem s' !! q = Some (OBlock (block_set_flags w b)) /\
                   high w = high (b_flags b)) /\ is_Some (W' !! q)
    end) /\
  (forall r, mem s !! q = Some (OByref r) ->
    exists r', mem s' !! q = Some (OByref r') /\ same_byref q r r' /\
    (keeps r = true -> forall x, variable s q = Some x -> variable s' q = Some x)).

Definition frame (s : rt) (W : gmap Z (list ref)) (s' : rt) (W' : gmap Z (list ref)) : Prop :=
  forall q, kept s W s' W' q.

(** The same but at [d], the block under construction. *)
Definition frame_but (d : Z) (s : rt) (W : gmap Z (list ref)) (s' : rt) (W' : gmap Z (list ref)) : Prop :=
  forall q, q <> d -> kept s W s' W' q.

Lemma same_byref_refl q r : same_byref q r r.
Proof. exists (br_flags r), (br_forwarding r). split; [by destruct r|]. split; [done|by left]. Qed.

Lemma same_byref_heap q r r' : same_byref q r r' -> heapr r' = heapr r.
Proof. intros (w & f & -> & Hw & _). exact (has_keep _ _ BLOCK_NEEDS_FREE 24 eq_refl ltac:(lia) Hw). Qed.

Lemma same_byref_keeps q r r' : same_byref q r r' -> keeps r' = keeps r.
Proof.
  intros (w & f & -> & Hw & _). unfold keeps. cbn [br_flags br_helper byref_set_flags byref_set_forwarding].
  by rewrite (has_keep _ _ BLOCK_BYREF_HAS_COPY_DISPOSE 25 eq_refl ltac:(lia) Hw).
Qed.

Lemma same_byref_trans q r r1 r2 : same_byref q r r1 -> same_byref q r1 r2 -> same_byref q r r2.
Proof.
  intros S1 (w2 & f2 & -> & Hw2 & Hf2). rewrite (same_byref_heap _ _ _ S1) in Hf2.
  destruct S1 as (w & f & -> & Hw & Hf). exists w2, f2. split; [done|].
  split; [by rewrite Hw2|]. cbn in Hf2. destruct Hf2 as [->|[-> Hh]]; [done|].
  destruct Hf as [Hf|[Hf _]]; right; [by rewrite <-Hf|done].
Qed.

Lemma kept_refl s W q : kept s W s W q.
Proof.
  split.
  - intros b Hq. destruct (W !! q) eqn:E; [|done]. split; [|done]. exists (b_flags b).
    split; [by destruct b|done].
  - intros r Hq. exists r. split; [done|]. split; [apply same_byref_refl|done].
Qed.

Lemma kept_trans s W s1 W1 s2 W2 q : kept s W s1 W1 q -> kept s1 W1 s2 W2 q -> kept s W s2 W2 q.
Proof.
  intros [A1 A2] [B1 B2]. split.
  - intros b Hq. specialize (A1 b Hq). destruct (W !! q) as [l0|].
    + destruct A1 as ((w & Hb' & Hh) & [l Hl]). specialize (B1 _ Hb'). rewrite Hl in B1.
      destruct B1 as ((w2 & Hb2 & Hh2) & HW2). split; [|done]. exists w2.
      split; [exact Hb2|]. by rewrite Hh2.
    + destruct A1 as [Hb HW]. specialize (B1 b Hb). by rewrite HW in B1.
  - intros r Hq. destruct (A2 r Hq) as (r1 & Hr1 & S1 & V1). destruct (B2 r1 Hr1) as (r2 & Hr2 & S2 & V2).
    exists r2. split; [done|]. split; [by eapply same_byref_trans|].
    intros Hk x Hx. apply V2; [by rewrite (same_byref_keeps _ _ _ S1)|by apply V1].
Qed.

Lemma frame_refl s W : frame s W s W.
Proof. intros q. apply kept_refl. Qed.

Lemma frame_trans s W s1 W1 s2 W2 : frame s W s1 W1 -> frame s1 W1 s2 W2 -> frame s W s2 W2.
Proof. intros A B q. by eapply kept_trans. Qed.

(** An address unused at the start may be written. *)
Lemma frame_fresh s0 W0 s W s' W' d :
  mem s0 !! d = None -> frame s0 W0 s W -> frame_but d s W s' W' -> frame s0 W0 s' W'.
Proof.
  intros Hd A B q. destruct (decide (q = d)) as [->|Hq]; [|by eapply kept_trans; [apply A|apply B]].
  split; intros x Hx; congruence.
Qed.

Lemma frame_block s W s' W' q b :
  frame s W s' W' -> mem s !! q = Some (OBlock b) -> W !! q = None ->
  mem s' !! q = Some (OBlock b) /\ W' !! q = None.
Proof. intros Hf Hq HW. pose proof (proj1 (Hf q) b Hq) as H. by rewrite HW in H. Qed.

Lemma frame_byref s W s' W' q r :
  frame s W s' W' -> mem s !! q = Some (OByref r) -> exists r', mem s' !! q = Some (OByref r').
Proof. intros Hf Hq. destruct (proj2 (Hf q) r Hq) as (r' & ? & _). eauto. Qed.

Lemma heapb_flags w b : high w = high (b_flags b) -> heapb (block_set_flags w b) = heapb b.
Proof. exact (has_keep _ _ BLOCK_NEEDS_FREE 24 eq_refl ltac:(lia)). Qed.

Lemma globalb_flags w b : high w = high (b_flags b) -> globalb (block_set_flags w b) = globalb b.
Proof. exact (has_keep _ _ BLOCK_IS_GLOBAL 28 eq_refl ltac:(lia)). Qed.

Lemma copyable_frame s W s' W' n v :
  (forall p l, W !! p = Some l -> forall b, mem s !! p = Some (OBlock b) -> heapb b = true) ->
  frame s W s' W' -> copyable s W n v -> copyable s' W' n v.
Proof.
  intros Hown Hf. revert v. induction n as [|n IH]; intros v [->|(b & Hm & Hk)]; try (by left);
    right; pose proof (proj1 (Hf v) b Hm) as Hb.
  all: destruct Hk as [[Hh [l HW]]|Hk];
    [rewrite HW in Hb; destruct Hb as ((w & Hb' & Hh') & HW'); eexists; split; [exact Hb'|];
     left; split; [by rewrite heapb_flags|done]|].
  all: assert (HW : W !! v = None) by
    (destruct (W !! v) eqn:E; [|done]; pose proof (Hown v _ E b Hm); destruct Hk as [[? _]|[? _]]; congruence).
  all: rewrite HW in Hb; destruct Hb as [Hb _]; exists b; split; [done|]; right.
  - destruct Hk as [Hk|Hk]; [by left|by right].
  - destruct Hk as [Hk|(H1 & H2 & H3)]; [by left|right]. split; [done|]. split; [done|].
    eapply Forall_impl; [exact H3|]. intros [u|u|u]; cbn; [apply IH| |done].
    intros [r Hr]. by eapply frame_byref.
Qed.

Lemma Inv_owned_heap s W ext :
  Inv s W ext ->
  forall p l, W !! p = Some l -> forall b, mem s !! p = Some (OBlock b) -> heapb b = true.
Proof.
  intros HI p l HW b Hm. destruct (i_own _ _ _ HI p l HW) as (o & Hm' & How).
  rewrite Hm in Hm'. injection Hm' as <-. apply How.
Qed.

(** ** Taking a reference *)

Lemma ext_add_other ext r x : r <> x -> ext_add ext [x] r = ext r.
Proof. intros Hr. unfold ext_add. cbn [cnt]. rewrite decide_False by congruence. lia. Qed.

Lemma ext_add_self ext r : ext_add ext [r] r = ext r + 1.
Proof. unfold ext_add. cbn [cnt]. rewrite decide_True by done. lia. Qed.

Lemma total_add W ext r : total W (ext_add ext [r]) r = total W ext r + 1.
Proof. unfold total. rewrite ext_add_self. lia. Qed.

(** Taking a reference to something that is not counted. *)
Lemma Inv_take s W ext v :
  Inv s W ext -> valid s W (RBlock v) ->
  (forall o, mem s !! v = Some o -> is_heap o = false) ->
  Inv s W (ext_add ext [RBlock v]).
Proof.
  intros [Hgc Hin Hown Hwf Hbr Hc Hvl Hx Ho] Hval Hnh.
  assert (Ht : forall r, r <> RBlock v -> total W (ext_add ext [RBlock v]) r = total W ext r).
  { intros r Hn. unfold total. by rewrite ext_add_other. }
  split; try done.
  - intros p l o Hp Hm Hh. rewrite Ht; [by apply (Hc p l)|].
    destruct (decide (p = v)) as [->|]; [|destruct o; cbn; congruence].
    rewrite (Hnh _ Hm) in Hh. done.
  - intros r Hpos. destruct (decide (r = RBlock v)) as [->|]; [done|].
    apply Hvl. by rewrite <-Ht.
  - by apply ext_add_nonneg.
  - intros u. rewrite Ht by done. apply Ho.
Qed.

(** Retaining an active heap object. *)
Lemma incr_keeps s W ext p l o :
  Inv s W ext -> W !! p = Some l -> mem s !! p = Some o -> is_heap o = true ->
  Inv (store p (set_obj_flags (latching_incr_int (obj_flags o)).1 o) s) W
      (ext_add ext [self_ref p o]).
Proof.
  intros HI HW Hm Hh. destruct (i_wf _ _ _ HI _ _ Hm) as (_ & Hok & _).
  destruct (i_cnt _ _ _ HI _ _ _ HW Hm Hh) as (Hd & H1 & Hrc).
  destruct (incr_word _ Hok) as (Hw & Hhi & Hd' & Hr').
  assert (He : 0 <= ext (self_ref p o)) by (apply (i_ext _ _ _ HI); by destruct o).
  apply (Inv_count s W ext _ p l o); try done.
  - congruence.
  - rewrite Hr'. unfold RC_MAX. lia.
  - rewrite total_add, Hr'. lia.
  - intros r Hr. by apply ext_add_other.
  - rewrite ext_add_self. lia.
Qed.

(** ** What a copy is *)

(** The heap block [b'] made from the stack block [b]: its code, descriptor
    and every word that its helper does not treat. *)
Definition clone (b b' : Block_layout) : Prop :=
  b_isa b' = _NSConcreteMallocBlock /\ b_invoke b' = b_invoke b /\
  b_reserved b' = b_reserved b /\ b_descriptor b' = b_descriptor b /\
  length (b_imports b') = length (b_imports b) /\ heapb b' = true /\
  fields_of b' = fields_of b /\
  forall j, fields_of b !! j = None \/ fields_of b !! j = Some 0 ->
    b_imports b' !! j = b_imports b !! j.

(** The variable captured as the byref [v] is shared: [u] is the heap byref to
    which [v] forwards. *)
Definition shares (s : rt) (v u : Z) : Prop :=
  exists r ru, mem s !! v = Some (OByref r) /\ br_forwarding r = u /\
    mem s !! u = Some (OByref ru) /\ heapr ru = true.

(** The import [u] that a field with flags [f] requires for the captured [v]. *)
Definition field_copied (copied : Z -> Z -> Prop) (s : rt) (f v u : Z) : Prop :=
  match capture f v with
  | RBlock _ :: _ => copied v u
  | RByref _ :: _ => shares s v u
  | _ => u = v
  end.

Definition imports_copied (copied : Z -> Z -> Prop) (s : rt) (b b' : Block_layout) : Prop :=
  forall j f v u, fields_of b !! j = Some f -> b_imports b !! j = Some v ->
    b_imports b' !! j = Some u -> field_copied copied s f v u.

(** A captured block: the null pointer, a heap or a global block are captured
    as they are, a stack block is replaced by a heap block of its own, cloned
    with its captured variables in turn. *)
Fixpoint copy_of (s : rt) (W : gmap Z (list ref)) (n : nat) (v u : Z) : Prop :=
  v = 0 /\ u = 0 \/ exists b, mem s !! v = Some (OBlock b) /\
    ((heapb b = true /\ is_Some (W !! v) \/ heapb b = false /\ globalb b = true) /\ u = v \/
     heapb b = false /\ globalb b = false /\
       match n with
       | O => False
       | S n => exists b', mem s !! u = Some (OBlock b') /\ is_Some (W !! u) /\ clone b b' /\
                  imports_copied (copy_of s W n) s b b'
       end).

Lemma clone_flags b b' w : high w = high (b_flags b') -> clone b b' -> clone b (block_set_flags w b').
Proof.
  intros Hw (?&?&?&?&?&?&?&?). repeat split; try done.
  - by rewrite heapb_flags.
  - by rewrite fields_of_flags.
Qed.

(** ** Writing into the block under construction *)

Definition building (s : rt) (W : gmap Z (list ref)) (dst : Z) (bd : Block_layout) : Prop :=
  mem s !! dst = Some (OBlock bd) /\ W !! dst = None /\ heapb bd = true.

(** Copies made earlier stay copies while the block is built. *)
Section Stable.
Context {s : rt} {W : gmap Z (list ref)} {s' : rt} {W' : gmap Z (list ref)}.
Context {dst : Z} {bd : Block_layout} (Hb : building s W dst bd) (Hf : frame_but dst s W s' W').
Context (Hown : forall p l, W !! p = Some l -> forall b, mem s !! p = Some (OBlock b) -> heapb b = true).

Lemma shares_frame v u : shares s v u -> shares s' v u.
Proof.
  destruct Hb as (Hd & _ & _). intros (r & ru & Hr & Hfw & Hru & Hh).
  assert (v <> dst) by congruence. assert (u <> dst) by congruence.
  destruct (proj2 (Hf v ltac:(done)) r Hr) as (r' & Hr' & Hs & _).
  destruct (proj2 (Hf u ltac:(done)) ru Hru) as (ru' & Hru' & Hs' & _).
  exists r', ru'. split; [done|]. split; [|split; [done|by rewrite (same_byref_heap _ _ _ Hs')]].
  destruct Hs as (w & f & -> & _ & [->|[Hv Hn]]); [done|]. exfalso.
  assert (u = v) by congruence. subst. congruence.
Qed.

Lemma field_copied_mono (P Q : Z -> Z -> Prop) f v u :
  (forall v u, P v u -> Q v u) -> field_copied P s f v u -> field_copied Q s' f v u.
Proof.
  intros HPQ. unfold field_copied. destruct (capture f v) as [|[|x|] ?]; [done|apply HPQ| |done].
  apply shares_frame.
Qed.

Lemma block_stable v b :
  mem s !! v = Some (OBlock b) -> is_Some (W !! v) \/ heapb b = false ->
  exists b2, mem s' !! v = Some (OBlock b2) /\ heapb b2 = heapb b /\ globalb b2 = globalb b /\
    (heapb b = false -> b2 = b) /\ (is_Some (W !! v) -> is_Some (W' !! v)).
Proof.
  destruct Hb as (Hd & HWd & Hhd). intros Hm Hv.
  assert (Hvd : v <> dst) by (intros ->; destruct Hv as [[??]|]; congruence).
  pose proof (proj1 (Hf v Hvd) b Hm) as Hk. destruct (W !! v) as [l|] eqn:HW.
  - destruct Hk as ((w & Hw & Hhi) & HW'). exists (block_set_flags w b).
    rewrite heapb_flags, globalb_flags by done. do 3 (split; [done|]). split; [|done].
    intros Hn. by rewrite (Hown v l HW b Hm) in Hn.
  - destruct Hk as [Hw HW']. exists b. do 4 (split; [done|]). by intros [??].
Qed.

Lemma copy_of_frame n v u : copy_of s W n v u -> copy_of s' W' n v u.
Proof.
  revert v u. induction n as [|n IH]; intros v u [?|(b & Hm & Hk)]; try (by left); right;
    destruct (block_stable v b Hm) as (b2 & Hm2 & Hh2 & Hg2 & Heq & HW2);
    [destruct Hk as [[[[_ ?]|[? _]] _]|[? _]]; auto| |destruct Hk as [[[[_ ?]|[? _]] _]|[? _]]; auto|];
    exists b2; rewrite Hh2, Hg2; (split; [done|]).
  - left. tauto.
  - destruct Hk as [Hk|(H1 & H2 & b' & Hu & HWu & Hcl & Hi)]; [left; tauto|right].
    split; [done|]. split; [done|]. rewrite Heq by done.
    assert (Hud : u <> dst) by (intros ->; destruct Hb as (_ & HW & _); destruct HWu; congruence).
    pose proof (proj1 (Hf u Hud) b' Hu) as Hk. destruct HWu as [l HWu]. rewrite HWu in Hk.
    destruct Hk as ((w & Hw & Hhi) & HWu'). exists (block_set_flags w b').
    split; [done|]. split; [done|]. split; [by apply clone_flags|].
    intros j f x y Hj Hx Hy. eapply field_copied_mono; [exact IH|]. by eapply Hi.
Qed.

Lemma field_copied_frame n f v u :
  field_copied (copy_of s W n) s f v u -> field_copied (copy_of s' W' n) s' f v u.
Proof. apply field_copied_mono, copy_of_frame. Qed.

Lemma imports_copied_frame n b b' :
  imports_copied (copy_of s W n) s b b' -> imports_copied (copy_of s' W' n) s' b b'.
Proof. intros Hi j f v u Hj Hv Hu. by eapply field_copied_frame, Hi. Qed.

End Stable.

Lemma assign_import s W ext dst bd i v :
  Inv s W ext -> building s W dst bd -> (i < length (b_imports bd))%nat ->
  let s' := store dst (OBlock (block_set_import i v bd)) s in
  _Block_assign v (DImport dst i) s = Ok s' /\ Inv s' W ext /\
  building s' W dst (block_set_import i v bd).
Proof.
  intros HI (Hm & HW & Hh) Hi s'. split; [|split].
  - unfold _Block_assign, load_block. rewrite Hm. cbn [rbind]. by rewrite bool_decide_eq_true_2.
  - apply Inv_loose_store; [done| |].
    + split; [done|]. right. eauto.
    + destruct (i_wf _ _ _ HI _ _ Hm) as (H1 & H2 & H3 & H4 & H5). split; [done|]. split; [done|].
      split; [done|]. split; [|done]. cbn [b_imports block_set_import]. by rewrite length_insert.
  - split; [|done]. unfold s'. by rewrite lookup_store, decide_True.
Qed.

Lemma variable_block s d b q x :
  (forall r, mem s !! d <> Some (OByref r)) -> variable s q = Some x ->
  variable (store d (OBlock b) s) q = Some x.
Proof.
  intros Hd. unfold variable. rewrite !lookup_store.
  destruct (mem s !! q) as [[|r]|] eqn:Hq; try done.
  rewrite decide_False by (intros ->; by apply (Hd r)). rewrite lookup_store.
  destruct (mem s !! br_forwarding r) as [[|rf]|] eqn:Hf; try done.
  by rewrite decide_False by (intros E; apply (Hd rf); by rewrite <-E).
Qed.

Lemma variable_flags s p o w q :
  mem s !! p = Some o -> variable (store p (set_obj_flags w o) s) q = variable s q.
Proof.
  intros Hm. unfold variable.
  assert (Hl : forall a, mem (store p (set_obj_flags w o) s) !! a =
    if decide (a = p) then Some (set_obj_flags w o) else mem s !! a)
    by (intros a; apply lookup_store).
  rewrite (Hl q). destruct (decide (q = p)) as [->|].
  - rewrite Hm. destruct o as [|r]; [done|]. cbn [set_obj_flags br_forwarding byref_set_flags].
    rewrite Hl. case_decide as E; [|done]. by rewrite E, Hm.
  - destruct (mem s !! q) as [[|r]|]; try done. rewrite Hl. case_decide as E; [|done].
    rewrite E, Hm. by destruct o.
Qed.

(** Writing the block under construction. *)
Lemma frame_but_store s W dst b :
  (forall r, mem s !! dst <> Some (OByref r)) -> frame_but dst s W (store dst (OBlock b) s) W.
Proof.
  intros Hd q Hq. destruct (kept_refl s W q) as [A B]. split.
  - intros b0 Hb. rewrite lookup_store, decide_False by done. by apply A.
  - intros r Hr. exists r. rewrite lookup_store, decide_False by done. split; [done|].
    split; [apply same_byref_refl|]. intros _ x. by apply variable_block.
Qed.

(** Rewriting an active object in place is within the frame. *)
Lemma frame_set_flags s W p l o w :
  W !! p = Some l -> mem s !! p = Some o -> high w = high (obj_flags o) ->
  frame s W (store p (set_obj_flags w o) s) W.
Proof.
  intros HW Hm Hhi q. destruct (kept_refl s W q) as [A B]. split.
  - intros b Hb. rewrite lookup_store. case_decide as D; [|by apply A].
    subst q. rewrite Hm in Hb. injection Hb as ->. rewrite HW. split; [|done]. exists w. by split.
  - intros r Hr. rewrite variable_flags by done. rewrite lookup_store. case_decide as D; [|by apply B].
    subst q. rewrite Hm in Hr. injection Hr as ->. exists (byref_set_flags w r). split; [done|].
    split; [|done]. exists w, (br_forwarding r). split; [by destruct r|]. split; [done|by left].
Qed.

Lemma land_full w n : 0 <= n -> has w (Z.shiftl 1 n) = true ->
  (Z.land w (Z.shiftl 1 n) =? Z.shiftl 1 n) = true.
Proof.
  intros Hn Hh. apply Z.eqb_eq. unfold has in Hh. apply negb_true_iff, Z.eqb_neq in Hh.
  assert (Hb : Z.testbit w n = true).
  { apply not_false_iff_true. intros E. apply Hh. apply Z.bits_inj'. intros k Hk.
    rewrite Z.land_spec, Z.bits_0, Z.shiftl_1_l, Z.pow2_bits_eqb by lia.
    destruct (Z.eqb_spec n k) as [->|]; [by rewrite E|apply andb_false_r]. }
  apply Z.bits_inj'. intros k Hk. rewrite Z.land_spec, Z.shiftl_1_l, Z.pow2_bits_eqb by lia.
  destruct (Z.eqb_spec n k) as [->|]; [by rewrite Hb|apply andb_false_r].
Qed.

Section Copy.
Context (pick : gmap Z object -> Z -> option Z).
(** [malloc] returns an address that is not in use. *)
Context (pick_fresh : forall m sz a, pick m sz = Some a -> m !! a = None /\ a <> 0).
(** Memory does not run out. *)
Context (pick_total : forall m sz, exists a, pick m sz = Some a).

(** The variable of a byref, kept by its helper. *)
Lemma keep_ok s W ext copy r v f :
  Inv s W ext -> mem s !! copy = Some (OByref r) ->
  exists s' r', byref_caller_assign (DPayload copy) v f s = Ok s' /\ Inv s' W ext /\
    (forall q, q <> copy -> mem s' !! q = mem s !! q) /\
    mem s' !! copy = Some (OByref r') /\ br_forwarding r' = br_forwarding r /\ heapr r' = heapr r /\
    (Z.land f BLOCK_ALL_COPY_DISPOSE_FLAGS ∈ [131; 135; 147; 151] -> br_payload r' = v).
Proof.
  intros HI Hm. unfold byref_caller_assign, _Block_assign_weak.
  assert (Hs : exists s' r', _Block_assign v (DPayload copy) s = Ok s' /\ Inv s' W ext /\
    (forall q, q <> copy -> mem s' !! q = mem s !! q) /\
    mem s' !! copy = Some (OByref r') /\ br_forwarding r' = br_forwarding r /\ heapr r' = heapr r /\
    (Z.land f BLOCK_ALL_COPY_DISPOSE_FLAGS ∈ [131; 135; 147; 151] -> br_payload r' = v)).
  { unfold _Block_assign, load_byref. rewrite Hm. cbn [rbind]. eexists _, _. split; [done|].
    split; [|split; [|split; [by rewrite lookup_store, decide_True|done]]].
    - destruct (i_byref _ _ _ HI _ _ Hm) as [l HW].
      destruct (i_own _ _ _ HI _ _ HW) as (o & Hm' & How). rewrite Hm in Hm'. injection Hm' as <-.
      apply (Inv_store s W ext ext copy l (OByref r)); try done.
      + exact (i_wf _ _ _ HI _ _ Hm).
      + apply (i_ext _ _ _ HI). done.
      + intros Ht. apply (i_val _ _ _ HI) in Ht as (r0 & Hr0 & Hh). rewrite Hm in Hr0.
        by injection Hr0 as <-.
      + exact (i_cnt _ _ _ HI _ _ _ HW Hm).
    - intros q Hq. by rewrite lookup_store, decide_False. }
  set (c1 := orb _ _) at 1. destruct c1 eqn:E1; [exact Hs|].
  set (c2 := orb _ _) at 1. destruct c2 eqn:E2; [exact Hs|]. unfold c1 in E1. unfold c2 in E2.
  exists s, r. split; [done|]. split; [done|]. do 4 (split; [done|]). intros Hin.
  apply orb_false_iff in E1 as [E1 E1'], E2 as [E2 E2'].
  apply Z.eqb_neq in E1, E1', E2, E2'. rewrite !elem_of_cons, elem_of_nil in Hin.
  destruct Hin as [?|[?|[?|[?|[]]]]]; done.
Qed.

(** A byref whose forwarding pointer already leads to the heap is shared. *)
Lemma byref_shared s W ext src r f rf :
  Inv s W ext -> mem s !! src = Some (OByref r) -> br_forwarding r = f ->
  mem s !! f = Some (OByref rf) -> heapr rf = true ->
  let s1 := store f (OByref (byref_set_flags (latching_incr_int (br_flags rf)).1 rf)) s in
  Inv s1 W (ext_add ext [RByref f]) /\ frame s W s1 W /\
  (exists r1, mem s1 !! src = Some (OByref r1) /\ br_forwarding r1 = f).
Proof.
  intros HI Hm Hf Hmf Hh s1. destruct (i_byref _ _ _ HI _ _ Hmf) as [l HW].
  split; [|split].
  - by apply (incr_keeps s W ext f l (OByref rf)).
  - apply (frame_set_flags s W f l (OByref rf)); [done|done|].
    destruct (i_wf _ _ _ HI _ _ Hmf) as (_ & Hok & _). by destruct (incr_word _ Hok) as (_ & ? & _).
  - unfold s1. rewrite lookup_store. case_decide as D; [|eauto].
    subst f. rewrite D in Hm. rewrite Hmf in Hm. injection Hm as ->. eexists. split; [done|].
    cbn. congruence.
Qed.

(** A byref still on the stack moves to the heap. *)
Lemma byref_moved s W ext src r copy isa h lay pay :
  Inv s W ext -> mem s !! src = Some (OByref r) -> br_forwarding r = src -> heapr r = false ->
  mem s !! copy = None -> copy <> 0 ->
  let copyr := BlockByref isa copy (Z.lor (br_flags r) (_Byref_flag_initial_value s))
                 (br_size r) h lay pay in
  let s1 := store src (OByref (byref_set_forwarding copy r)) (store copy (OByref copyr) s) in
  let W1 := <[src := [RByref copy]]> (<[copy := []]> W) in
  Inv s1 W1 (ext_add ext [RByref copy]) /\ heapr copyr = true.
Proof.
  intros HI Hm Hf Hh Hfresh Hc0 copyr s1 W1.
  destruct (i_wf _ _ _ HI _ _ Hm) as (_ & Hok & Hgc & Hlow). rewrite Hh in Hlow.
  destruct Hlow as [Hr Hd]. cbn [obj_flags] in *.
  destruct (moved_word (br_flags r) Hok Hr Hd) as (M1 & M2 & M3 & M4 & M5).
  assert (Hfl : br_flags copyr = Z.lor (br_flags r) (Z.lor BLOCK_BYREF_NEEDS_FREE 4)).
  { cbn. by rewrite (i_init _ _ _ HI). }
  assert (Hhc : heapr copyr = true).
  { unfold heapr. rewrite Hfl. change BLOCK_BYREF_NEEDS_FREE with BLOCK_NEEDS_FREE in *. by rewrite M4. }
  split; [|done]. apply (Inv_byref_copy s W ext src r copy copyr); try done.
  - split; [done|]. cbn [obj_flags]. rewrite Hfl. split; [done|]. split; [by rewrite M5|].
    by rewrite Hhc.
  - by rewrite Hfl.
  - by rewrite Hfl.
Qed.

(** Where a byref's forwarding pointer leads. *)
Lemma byref_target s W ext src r :
  Inv s W ext -> mem s !! src = Some (OByref r) ->
  (exists rf, mem s !! br_forwarding r = Some (OByref rf) /\ heapr rf = true) \/
  br_forwarding r = src /\ heapr r = false.
Proof.
  intros HI Hm. destruct (i_byref _ _ _ HI _ _ Hm) as [l HW].
  destruct (i_own _ _ _ HI _ _ HW) as (o & Hm' & How). rewrite Hm in Hm'. injection Hm' as <-.
  cbn [owner] in How. destruct (decide (br_forwarding r = src)) as [E|E].
  - destruct (heapr r) eqn:Hh; [left|by right]. exists r. by rewrite E.
  - left. subst l. apply (i_val _ _ _ HI (RByref (br_forwarding r))). unfold total.
    rewrite (nrefs_delete W src _ _ HW). cbn [cnt]. rewrite decide_True by done.
    pose proof (nrefs_nonneg (delete src W) (RByref (br_forwarding r))).
    pose proof (i_ext _ _ _ HI (RByref (br_forwarding r)) ltac:(done)). lia.
Qed.

(** The move is within the frame when the copy carries the value. *)
Lemma moved_frame s W ext src r copy s2 rc2 :
  Inv s W ext -> mem s !! src = Some (OByref r) -> br_forwarding r = src -> heapr r = false ->
  mem s !! copy = None ->
  (forall q, q <> src -> q <> copy -> mem s2 !! q = mem s !! q) ->
  mem s2 !! src = Some (OByref (byref_set_forwarding copy r)) ->
  mem s2 !! copy = Some (OByref rc2) -> (keeps r = true -> br_payload rc2 = br_payload r) ->
  frame s W s2 (<[src := [RByref copy]]> (<[copy := []]> W)).
Proof.
  intros HI Hm Hf Hh Hfresh Hq2 Hs2 Hc2 Hpay q. destruct (kept_refl s W q) as [A B]. split.
  - intros b Hb. rewrite !lookup_insert_ne, Hq2 by congruence. by apply A.
  - intros r0 Hr0. destruct (decide (q = src)) as [->|Hqs].
    + rewrite Hm in Hr0. injection Hr0 as <-. eexists. split; [done|]. split.
      * exists (br_flags r), copy. split; [by destruct r|]. split; [done|by right].
      * intros Hk x. unfold variable. rewrite Hm, Hf, Hm, Hs2. cbn [br_forwarding byref_set_forwarding].
        rewrite Hc2. by rewrite Hpay.
    + assert (Hqc : q <> copy) by congruence. exists r0. rewrite Hq2 by done. split; [done|].
      split; [apply same_byref_refl|]. intros _ x. unfold variable. rewrite Hq2, Hr0 by done.
      destruct (byref_target s W ext q r0 HI Hr0) as [(rf & Hrf & Hhf)|[Hfq _]].
      * rewrite Hq2; [done| |]; intros E; rewrite E in Hrf; congruence.
      * by rewrite Hfq, Hq2, Hr0.
Qed.

(** What a captured variable [v] must achieve: import [i] of the block under
    construction holds a variable [u], what the field requires for [v], whose
    reference is now owned. *)
Definition assigned (n : nat) (s : rt) (W : gmap Z (list ref)) (ext : ref -> Z) (dst : Z)
    (bd : Block_layout) (i : nat) (f v : Z) (out : res rt) : Prop :=
  exists s' W' u, out = Ok s' /\ building s' W' dst (block_set_import i u bd) /\
    Inv s' W' (ext_add ext (capture f u)) /\ frame_but dst s W s' W' /\
    field_copied (copy_of s' W' n) s' f v u.

(** The final store of a shared reference [u] into the import. *)
Lemma assigned_store n s W ext dst bd i f v s1 W1 u :
  building s W dst bd -> (i < length (b_imports bd))%nat ->
  frame s W s1 W1 -> Inv s1 W1 (ext_add ext (capture f u)) ->
  field_copied (copy_of s1 W1 n) s1 f v u ->
  assigned n s W ext dst bd i f v (_Block_assign u (DImport dst i) s1).
Proof.
  intros (Hm & HW & Hh) Hi Hf HI Hc. destruct (frame_block _ _ _ _ _ _ Hf Hm HW) as [Hm1 HW1].
  destruct (assign_import s1 W1 _ dst bd i u HI) as (H1 & H2 & H3); [by split|done|].
  assert (Hst : frame_but dst s1 W1 (store dst (OBlock (block_set_import i u bd)) s1) W1)
    by (apply frame_but_store; intros r; congruence).
  eexists _, W1, u. split; [exact H1|]. split; [exact H3|]. split; [exact H2|]. split.
  - intros q Hq. eapply kept_trans; [apply Hf|by apply Hst].
  - eapply field_copied_frame; [by split_and!|exact Hst|by eapply Inv_owned_heap|exact Hc].
Qed.

Lemma byref_assign_shared n s W ext dst bd i f src r rf :
  Inv s W ext -> building s W dst bd -> (i < length (b_imports bd))%nat ->
  mem s !! src = Some (OByref r) -> (forall u, capture f u = [RByref u]) ->
  mem s !! br_forwarding r = Some (OByref rf) -> heapr rf = true ->
  assigned n s W ext dst bd i f src
    (_Block_byref_assign_copy pick byref_caller_assign (DImport dst i) src f s).
Proof.
  intros HI Hb Hi Hm Hcap Hmf Hhf.
  unfold _Block_byref_assign_copy, load_byref. rewrite Hm. cbn [rbind]. rewrite Hmf. cbn [rbind].
  destruct (i_wf _ _ _ HI _ _ Hmf) as (_ & Hok & Hgc & _). cbn [obj_flags] in *.
  destruct (i_byref _ _ _ HI _ _ Hmf) as [l HW].
  destruct (i_cnt _ _ _ HI _ _ _ HW Hmf Hhf) as (_ & H1 & _). cbn [obj_flags] in *.
  change BLOCK_BYREF_IS_GC with BLOCK_IS_GC. rewrite Hgc, land_rc.
  rewrite (proj2 (Z.eqb_neq (2 * rc _) 0)) by lia.
  pose proof (land_full (br_flags rf) 24 ltac:(lia) Hhf) as Hl.
  change (Z.shiftl 1 24) with BLOCK_BYREF_NEEDS_FREE in Hl. rewrite Hl. cbn [rbind].
  destruct (byref_shared s W ext src r _ rf HI Hm eq_refl Hmf Hhf) as (HI1 & Hf1 & r1 & Hr1 & Hfw).
  rewrite Hr1. cbn [rbind]. rewrite Hfw. apply (assigned_store n s W ext dst bd i f src _ W); try done.
  - by rewrite Hcap.
  - unfold field_copied. rewrite Hcap. eexists r1, _. split; [done|]. split; [done|].
    rewrite lookup_store, decide_True by done. split; [done|].
    destruct (incr_word _ Hok) as (_ & Hhi & _).
    by rewrite <-Hhf; exact (has_keep _ _ BLOCK_NEEDS_FREE 24 eq_refl ltac:(lia) Hhi).
Qed.

Lemma byref_assign_moved n s W ext dst bd i f src r :
  Inv s W ext -> building s W dst bd -> (i < length (b_imports bd))%nat ->
  mem s !! src = Some (OByref r) -> (forall u, capture f u = [RByref u]) ->
  br_forwarding r = src -> heapr r = false ->
  assigned n s W ext dst bd i f src
    (_Block_byref_assign_copy pick byref_caller_assign (DImport dst i) src f s).
Proof.
  intros HI Hb Hi Hm Hcap Hfw Hh.
  unfold _Block_byref_assign_copy, load_byref. rewrite Hm. cbn [rbind]. rewrite Hfw, Hm. cbn [rbind].
  destruct (i_wf _ _ _ HI _ _ Hm) as (_ & Hok & Hgc & Hlow). cbn [obj_flags] in *.
  rewrite Hh in Hlow. destruct Hlow as [Hr Hd].
  change BLOCK_BYREF_IS_GC with BLOCK_IS_GC. rewrite Hgc, land_rc, Hr.
  change (2 * 0 =? 0) with true. cbv iota.
  unfold malloc. destruct (pick_total (mem s) (br_size r)) as [copy Hp]. rewrite Hp.
  destruct (pick_fresh _ _ _ Hp) as [Hfresh Hc0]. assert (Hcs : copy <> src) by congruence.
  set (copyr := BlockByref _ copy _ _ _ _ _).
  destruct (byref_moved s W ext src r copy (br_isa copyr) (br_helper copyr) (br_layout copyr)
    (br_payload copyr) HI Hm Hfw Hh Hfresh Hc0) as [HI1 Hhc].
  change (BlockByref (br_isa copyr) copy _ _ _ _ _) with copyr in HI1, Hhc.
  set (s1 := store src _ (store copy _ s)) in *. set (W1 := <[src := _]> _) in *.
  assert (Hms : mem s1 !! src = Some (OByref (byref_set_forwarding copy r))).
  { unfold s1. by rewrite lookup_store, decide_True. }
  assert (Hmc : mem s1 !! copy = Some (OByref copyr)).
  { unfold s1. by rewrite !lookup_store, decide_False, decide_True. }
  assert (Hms1 : forall q, q <> src -> q <> copy -> mem s1 !! q = mem s !! q).
  { intros q Hq1 Hq2. unfold s1. by rewrite !lookup_store, !decide_False. }
  assert (Hkeep : exists s2 r2, (if has (br_flags r) BLOCK_BYREF_HAS_COPY_DISPOSE
      then byref_caller_assign (DPayload copy) (br_payload r) (br_helper r) s1 else Ok s1) = Ok s2 /\
    Inv s2 W1 (ext_add ext [RByref copy]) /\
    (forall q, q <> copy -> mem s2 !! q = mem s1 !! q) /\
    mem s2 !! copy = Some (OByref r2) /\ heapr r2 = true /\
    (keeps r = true -> br_payload r2 = br_payload r)).
  { unfold keeps, copyr in *. destruct (has (br_flags r) BLOCK_BYREF_HAS_COPY_DISPOSE).
    - destruct (keep_ok s1 W1 _ copy _ (br_payload r) (br_helper r) HI1 Hmc)
        as (s2 & r2 & Hk & HI2 & Hq & Hr2 & _ & Hh2 & Hp2).
      exists s2, r2. do 4 (split; [done|]). split; [by rewrite Hh2|].
      intros Hin. apply Hp2. by apply bool_decide_eq_true in Hin.
    - eexists s1, _. do 4 (split; [done|]). by split. }
  destruct Hkeep as (s2 & r2 & Hk & HI2 & Hq2 & Hc2 & Hh2 & Hp2). rewrite Hk. cbn [rbind].
  assert (Hm2 : mem s2 !! src = Some (OByref (byref_set_forwarding copy r))) by (by rewrite Hq2).
  rewrite Hm2. cbn [rbind]. cbn [br_forwarding byref_set_forwarding].
  apply (assigned_store n s W ext dst bd i f src s2 W1); try done.
  - apply (moved_frame s W ext src r copy s2 r2); try done.
    intros q Hq1 Hqc. by rewrite Hq2, Hms1.
  - by rewrite Hcap.
  - unfold field_copied. rewrite Hcap. by eexists _, r2.
Qed.

Lemma byref_assign_ok n s W ext dst bd i f src r :
  Inv s W ext -> building s W dst bd -> (i < length (b_imports bd))%nat ->
  mem s !! src = Some (OByref r) -> (forall u, capture f u = [RByref u]) ->
  assigned n s W ext dst bd i f src
    (_Block_byref_assign_copy pick byref_caller_assign (DImport dst i) src f s).
Proof.
  intros HI Hb Hi Hm Hcap.
  destruct (byref_target s W ext src r HI Hm) as [(rf & Hrf & Hh)|[Hf Hh]].
  - by eapply byref_assign_shared.
  - by eapply byref_assign_moved.
Qed.

(** ** Captured variables, one and all *)

Definition copy_spec (copy : Z -> bool -> rt -> res (rt * Z)) (n : nat) : Prop :=
  forall v wantsOne s W ext, Inv s W ext -> copyable s W n v ->
  exists s' W' r, copy v wantsOne s = Ok (s', r) /\
    Inv s' W' (ext_add ext [RBlock r]) /\ frame s W s' W' /\ copy_of s' W' n v r.

Lemma set_import_same i v bd :
  b_imports bd !! i = Some v -> block_set_import i v bd = bd.
Proof. intros Hv. unfold block_set_import. rewrite list_insert_id by done. by destruct bd. Qed.

Lemma object_assign_ok copy n s W ext dst bd i f v :
  copy_spec copy n -> Inv s W ext -> building s W dst bd -> b_imports bd !! i = Some v ->
  Forall (cap_ok (copyable s W n) s) (capture f v) ->
  assigned n s W ext dst bd i f v (object_assign pick copy (DImport dst i) v f s).
Proof.
  intros Hcopy HI Hb Hv Hcap. pose proof (lookup_lt_Some _ _ _ Hv) as Hi.
  unfold object_assign, byref_caller_assign, _Block_assign_weak.
  destruct (Z.land f BLOCK_ALL_COPY_DISPOSE_FLAGS =? BLOCK_FIELD_IS_OBJECT) eqn:E1.
  { assert (Hc : forall u, capture f u = [RObject u]) by (intros u; unfold capture; by rewrite E1).
    apply (assigned_store n s W ext dst bd i f v (_Block_retain_object v s) W); [done|done| | |].
    - exact (frame_refl s W).
    - rewrite Hc. eapply (Inv_retained s W ext v 1); [done|]. intros x. unfold ext_add. cbn [cnt].
      destruct (decide (x = RObject v)) as [->|];
        [rewrite decide_True by done|rewrite decide_False by congruence]; lia.
    - unfold field_copied. by rewrite Hc. }
  destruct (Z.land f BLOCK_ALL_COPY_DISPOSE_FLAGS =? BLOCK_FIELD_IS_BLOCK) eqn:E2.
  { assert (Hc : forall u, capture f u = [RBlock u]) by (intros u; unfold capture; by rewrite E1, E2).
    rewrite Hc in Hcap. apply Forall_cons in Hcap as [Hcap _]. cbn in Hcap.
    destruct (Hcopy v false s W ext HI Hcap) as (s1 & W1 & p & Hr & HI1 & Hf1 & Hco).
    rewrite Hr. cbn [rbind]. apply (assigned_store n s W ext dst bd i f v s1 W1); try done.
    - by rewrite Hc.
    - unfold field_copied. by rewrite Hc. }
  destruct (_ || _) eqn:E3.
  { assert (Hc : forall u, capture f u = [RByref u])
      by (intros u; unfold capture; by rewrite E1, E2, E3).
    rewrite Hc in Hcap. apply Forall_cons in Hcap as [[r Hr] _].
    by apply (byref_assign_ok n s W ext dst bd i f v r). }
  assert (Hc : forall u, capture f u = []) by (intros u; unfold capture; by rewrite E1, E2, E3).
  assert (HI0 : forall u, Inv s W (ext_add ext (capture f u))).
  { intros u. rewrite Hc. eapply Inv_proper; [|exact HI]. intros x. unfold ext_add. cbn. lia. }
  assert (Hcv : field_copied (copy_of s W n) s f v v) by (unfold field_copied; by rewrite Hc).
  assert (Hst : assigned n s W ext dst bd i f v (_Block_assign v (DImport dst i) s)).
  { apply (assigned_store n s W ext dst bd i f v s W); try done. apply frame_refl. }
  clear E1 E2 E3. destruct (_ || _); [exact Hst|]. destruct (_ || _); [exact Hst|].
  exists s, W, v. split; [done|]. rewrite (set_import_same i v) by done. split; [done|].
  split; [done|]. split; [|done]. intros q _. apply kept_refl.
Qed.

(** Everything of the new block but its imports is fixed; imports whose field
    needs no help keep their value. *)
Definition same_block (bd bd' : Block_layout) : Prop :=
  b_isa bd' = b_isa bd /\ b_flags bd' = b_flags bd /\ b_invoke bd' = b_invoke bd /\
  b_reserved bd' = b_reserved bd /\
  b_descriptor bd' = b_descriptor bd /\ length (b_imports bd') = length (b_imports bd).

Lemma same_block_trans a b c : same_block a b -> same_block b c -> same_block a c.
Proof. intros (?&?&?&?&?&?) (?&?&?&?&?&?). repeat split; congruence. Qed.

Lemma same_block_import i v b : same_block b (block_set_import i v b).
Proof. repeat split. cbn. by rewrite length_insert. Qed.

Lemma copy_helper_ok copy n s0 W0 e0 src bs dst :
  copy_spec copy n -> Inv s0 W0 e0 -> mem s0 !! dst = None ->
  mem s0 !! src = Some (OBlock bs) -> W0 !! src = None ->
  forall fields i s W bd ext,
  Inv s W ext -> frame s0 W0 s W -> building s W dst bd ->
  length (b_imports bd) = length (b_imports bs) ->
  (forall j, (i <= j)%nat -> b_imports bd !! j = b_imports bs !! j) ->
  (i + length fields <= length (b_imports bs))%nat ->
  Forall (cap_ok (copyable s0 W0 n) s0) (captures_from fields (drop i (b_imports bs))) ->
  exists s' W' bd', copy_helper (object_assign pick copy) fields i dst src s = Ok s' /\
    Inv s' W' (ext_add ext (captures_from fields (drop i (b_imports bd')))) /\
    frame_but dst s W s' W' /\ building s' W' dst bd' /\ same_block bd bd' /\
    (forall j, (j < i)%nat \/ fields !! (j - i)%nat = None \/ fields !! (j - i)%nat = Some 0 ->
       b_imports bd' !! j = b_imports bd !! j) /\
    (forall j f v u, fields !! j = Some f -> b_imports bs !! (i + j)%nat = Some v ->
       b_imports bd' !! (i + j)%nat = Some u -> field_copied (copy_of s' W' n) s' f v u).
Proof.
  intros Hcopy HI0 Hd0 Hs0 HWs fields.
  induction fields as [|f fields IH]; intros i s W bd ext HI Hf Hb Hlen Hrest Hi Hcap.
  { exists s, W, bd. split; [done|]. split; [|split; [intros q _; apply kept_refl|done]]. eapply Inv_proper; [|exact HI].
    intros x. unfold ext_add. cbn. lia. }
  cbn [length] in Hi. destruct (lookup_lt_is_Some_2 (b_imports bs) i) as [v Hv]; [lia|].
  rewrite (drop_S _ v) in Hcap by done. rewrite captures_from_cons in Hcap.
  apply Forall_app in Hcap as [Hcap1 Hcap2].
  destruct (frame_block _ _ _ _ _ _ Hf Hs0 HWs) as [Hsrc _].
  assert (Hvd : b_imports bd !! i = Some v) by (by rewrite Hrest).
  assert (Hone : exists s1 W1 bd1 u,
    (if f =? 0 then Ok s else let! b := load_block src s in
       let! v := arr_get (b_imports b) (Z.of_nat i) in
       object_assign pick copy (DImport dst i) v f s) = Ok s1 /\
    building s1 W1 dst bd1 /\ bd1 = block_set_import i u bd /\ frame_but dst s W s1 W1 /\
    Inv s1 W1 (ext_add ext (capture f u)) /\ (f = 0 -> bd1 = bd) /\
    field_copied (copy_of s1 W1 n) s1 f v u).
  { destruct (Z.eqb_spec f 0) as [->|Hf0].
    - exists s, W, bd, v. split; [done|]. split; [done|]. split; [by rewrite (set_import_same i v)|].
      split; [intros q _; apply kept_refl|]. split; [|done]. eapply Inv_proper; [|exact HI].
      intros x. change (capture 0 v) with (@nil ref). unfold ext_add. cbn [cnt]. lia.
    - unfold load_block. rewrite Hsrc. cbn [rbind].
      rewrite (arr_get_ok _ _ v) by (rewrite ?Nat2Z.id; done || lia). cbn [rbind].
      destruct (object_assign_ok copy n s W ext dst bd i f v) as (s1 & W1 & u & Hr & Hb1 & HI1 & Hf1 & Hc1);
        [done|done|done|done| |].
      + eapply Forall_impl; [exact Hcap1|]. intros [x|x|x]; cbn; [| |done].
        * apply copyable_frame; [|done]. by eapply Inv_owned_heap.
        * intros [r Hr]. by eapply frame_byref.
      + exists s1, W1, (block_set_import i u bd), u. split; [done|]. split; [done|]. split; [done|].
        split; [done|]. by split. }
  destruct Hone as (s1 & W1 & bd1 & u & Hr1 & Hb1 & Hbd1 & Hf1 & HI1 & Hsame & Hc1).
  cbn [copy_helper]. rewrite Hr1. cbn [rbind].
  assert (Hl1 : length (b_imports bd1) = length (b_imports bd)) by
    (rewrite Hbd1; cbn; by rewrite length_insert).
  assert (Hrest1 : forall j, j <> i -> b_imports bd1 !! j = b_imports bd !! j).
  { intros j Hj. rewrite Hbd1. cbn. by apply list_lookup_insert_ne. }
  destruct (IH (S i) s1 W1 bd1 _ HI1 (frame_fresh _ _ _ _ _ _ _ Hd0 Hf Hf1) Hb1)
    as (s' & W' & bd' & Hr & HI' & Hf' & Hb' & Hsb & Huntouched & Hcs);
    [congruence|intros j Hj; rewrite Hrest1 by lia; apply Hrest; lia|lia|done|].
  exists s', W', bd'. split; [done|].
  assert (Hu' : b_imports bd' !! i = Some u).
  { rewrite Huntouched by (left; lia). rewrite Hbd1. cbn. apply list_lookup_insert_eq. lia. }
  split; [|split; [|split; [done|split; [|split]]]].
  - rewrite (drop_S _ u) by done. rewrite captures_from_cons. eapply Inv_proper; [|exact HI'].
    intros x. unfold ext_add. rewrite cnt_app. lia.
  - intros q Hq. eapply kept_trans; [by apply Hf1|by apply Hf'].
  - eapply same_block_trans; [|exact Hsb]. rewrite Hbd1. apply same_block_import.
  - intros j Hj. destruct (decide (j = i)) as [->|Hji].
    + rewrite Nat.sub_diag in Hj. destruct Hj as [|[?|Hj]]; [lia|done|]. cbn in Hj. injection Hj as ->.
      rewrite Huntouched by (left; lia). by rewrite Hsame.
    + rewrite <-Hrest1 by done. apply Huntouched.
      destruct (decide (j < i)%nat); [left; lia|]. replace (j - i)%nat with (S (j - S i)) in Hj by lia.
      destruct Hj as [|Hj]; [lia|by right].
  - intros [|j] g x y Hj Hx Hy; [|apply (Hcs j); by rewrite ?Nat.add_succ_comm].
    rewrite Nat.add_0_r in Hx, Hy. cbn in Hj. injection Hj as <-.
    rewrite Hv in Hx. injection Hx as <-. rewrite Hu' in Hy. injection Hy as <-.
    eapply field_copied_frame; [exact Hb1|exact Hf'|by eapply Inv_owned_heap|exact Hc1].
Qed.

(** ** [_Block_copy_internal] *)

(** The heap block just made from the stack block [b]. *)
Definition copied_from (b bd' : Block_layout) : Prop :=
  clone b bd' /\ rc (b_flags bd') = 1 /\ dealloc_bit (b_flags bd') = 0.

Lemma copy_stack fuel n s W ext arg wantsOne b :
  copy_spec (_Block_copy_internal pick fuel) n -> Inv s W ext ->
  mem s !! arg = Some (OBlock b) -> heapb b = false -> globalb b = false ->
  Forall (cap_ok (copyable s W n) s) (captures b) ->
  exists s' W' r bd', _Block_copy_internal pick (S fuel) arg wantsOne s = Ok (s', r) /\
    Inv s' W' (ext_add ext [RBlock r]) /\ frame s W s' W' /\
    mem s !! r = None /\ mem s' !! r = Some (OBlock bd') /\ is_Some (W' !! r) /\
    copied_from b bd' /\ imports_copied (copy_of s' W' n) s' b bd'.
Proof.
  intros Hcopy HI Hm Hh Hg Hcap.
  destruct (i_wf _ _ _ HI _ _ Hm) as (Ha0 & Hok & Hgc & Hlen & _). cbn [obj_flags] in *.
  assert (HW : W !! arg = None).
  { destruct (W !! arg) eqn:E; [|done]. by rewrite (Inv_owned_heap _ _ _ HI _ _ E _ Hm) in Hh. }
  cbn [_Block_copy_internal]. rewrite (proj2 (Z.eqb_neq arg 0)) by done.
  unfold load_block at 1. rewrite Hm. cbn [rbind]. unfold heapb, globalb in Hh, Hg. rewrite Hh, Hgc, Hg.
  unfold malloc. destruct (pick_total (mem s) (d_size (b_descriptor b))) as [result Hp]. rewrite Hp.
  destruct (pick_fresh _ _ _ Hp) as [Hfresh Hr0]. rewrite (i_gc _ _ _ HI). cbn [negb].
  destruct (copied_word (b_flags b) Hok) as (C1 & C2 & C3 & C4 & C5 & C6 & C7).
  set (bd := block_set_isa _ _). set (s1 := store result (OBlock bd) s).
  assert (Hfields : fields_of bd = fields_of b).
  { unfold fields_of, _Block_descriptor_2. cbn [b_flags bd block_set_isa block_set_flags b_descriptor]. by rewrite C7. }
  assert (Hwf : obj_wf result (OBlock bd)).
  { split; [done|]. cbn [obj_flags]. split; [done|]. split; [by rewrite <-C5 in Hgc|].
    rewrite Hfields. split; [done|]. intros _. unfold globalb. by rewrite <-C6 in Hg. }
  assert (HWr : W !! result = None).
  { destruct (W !! result) eqn:E; [|done]. apply (i_own _ _ _ HI) in E as (? & ? & _). congruence. }
  assert (HI1 : Inv s1 W ext) by (apply Inv_loose_store; [done|by split; [|left]|done]).
  assert (Hb1 : building s1 W result bd).
  { split; [unfold s1; by rewrite lookup_store, decide_True|]. done. }
  assert (Hf1 : frame s W s1 W)
    by (eapply frame_fresh; [exact Hfresh|apply frame_refl|apply frame_but_store; congruence]).
  assert (Hms1 : mem s1 !! arg = Some (OBlock b)).
  { unfold s1. rewrite lookup_store, decide_False; congruence. }
  unfold _Block_call_copy_helper, load_block. rewrite Hms1. cbn [rbind].
  assert (Hfin : exists s' W' bd',
    match _Block_descriptor_2 b with
    | None => Ok s1
    | Some fields => copy_helper (object_assign pick (_Block_copy_internal pick fuel)) fields 0 result arg s1
    end = Ok s' /\ Inv s' W' (ext_add ext (captures_from (fields_of b) (b_imports bd'))) /\
    frame s W s' W' /\ building s' W' result bd' /\ same_block bd bd' /\
    (forall j, fields_of b !! j = None \/ fields_of b !! j = Some 0 ->
       b_imports bd' !! j = b_imports bd !! j) /\ imports_copied (copy_of s' W' n) s' b bd').
  { unfold captures, imports_copied, fields_of in *. destruct (_Block_descriptor_2 b) as [fields|]; cbn [from_option] in *; unfold id in *.
    - destruct (copy_helper_ok _ n s W ext arg b result Hcopy HI Hfresh Hm HW fields 0 s1 W bd ext)
        as (s' & W' & bd' & R1 & R2 & R3 & R4 & R5 & R6 & R7); try done.
      exists s', W', bd'. rewrite drop_0 in R2. do 2 (split; [done|]).
      split; [exact (frame_fresh _ _ _ _ _ _ _ Hfresh Hf1 R3)|]. do 2 (split; [done|]).
      split; [|exact R7]. intros j Hj. apply R6. right. by rewrite Nat.sub_0_r.
    - exists s1, W, bd. split; [done|]. split; [|done]. eapply Inv_proper; [|exact HI1].
      intros x. unfold ext_add. cbn. lia. }
  destruct Hfin as (s' & W' & bd' & -> & HI' & Hf' & (Hm' & HW' & Hh') & Hsb & Hj & Hic). cbn [rbind].
  destruct Hsb as (S1 & S2 & S3 & S4 & S5 & S6).
  assert (Hfd' : fields_of bd' = fields_of b).
  { rewrite <-Hfields. unfold fields_of, _Block_descriptor_2. by rewrite S2, S5. }
  set (W2 := <[result := captures bd']> W').
  assert (Hf2 : frame_but result s' W' s' W2).
  { intros q Hq. destruct (kept_refl s' W' q) as [A B]. split; [|done].
    unfold W2. by rewrite lookup_insert_ne by done. }
  exists s', W2, result, bd'. split; [done|].
  split; [|split; [exact (frame_fresh _ _ _ _ _ _ _ Hfresh Hf' Hf2)|split; [done|split; [done|]]]].
  - apply Inv_activate; try done; [by rewrite S2|by rewrite S2| |by apply (i_ext _ _ _ HI)|apply HI].
    unfold captures. by rewrite Hfd'.
  - split; [unfold W2; by rewrite lookup_insert_eq|]. split.
    + repeat split; try done; rewrite ?S2; try done.
    + eapply imports_copied_frame; [by split_and!|exact Hf2|by eapply Inv_owned_heap|exact Hic].
Qed.

Lemma copy_internal_ok fuel n : (n < fuel)%nat -> copy_spec (_Block_copy_internal pick fuel) n.
Proof.
  revert n. induction fuel as [|fuel IH]; [lia|]. intros n Hn v wantsOne s W ext HI Hc.
  assert (Hc' : v = 0 \/ exists b, mem s !! v = Some (OBlock b) /\
    (heapb b = true /\ is_Some (W !! v) \/ heapb b = false /\ globalb b = true \/
     heapb b = false /\ globalb b = false /\ exists m, n = S m /\
       Forall (cap_ok (copyable s W m) s) (captures b))).
  { destruct n; destruct Hc as [|(b & Hm & [?|[?|(? & ? & ?)]])]; eauto 10; done. }
  destruct Hc' as [->|(b & Hm & Hk)].
  { exists s, W, 0. split; [done|]. split; [|split; [apply frame_refl|destruct n; by left]].
    apply Inv_take; [done|by left|]. intros o Hm. by destruct (i_wf _ _ _ HI _ _ Hm). }
  destruct (i_wf _ _ _ HI _ _ Hm) as (Hv0 & Hok & Hgc & _). cbn [obj_flags] in *.
  destruct Hk as [[Hh [l HW]]|[[Hh Hg]|(Hh & Hg & m & -> & Hcap)]].
  - cbn [_Block_copy_internal]. rewrite (proj2 (Z.eqb_neq v 0)) by done.
    unfold load_block. rewrite Hm. cbn [rbind]. unfold heapb in Hh. rewrite Hh.
    exists (store v (OBlock (block_set_flags (latching_incr_int (b_flags b)).1 b)) s), W, v.
    destruct (incr_word _ Hok) as (_ & Hhi & _). split; [done|]. split; [|split].
    + by apply (incr_keeps s W ext v l (OBlock b)).
    + by apply (frame_set_flags s W v l (OBlock b)).
    + destruct n; right; (eexists; rewrite lookup_store, decide_True by done; split; [done|]);
        left; (split; [|done]); left; (split; [by rewrite heapb_flags|eauto]).
  - cbn [_Block_copy_internal]. rewrite (proj2 (Z.eqb_neq v 0)) by done.
    unfold load_block. rewrite Hm. cbn [rbind]. unfold heapb, globalb in *. rewrite Hh, Hgc, Hg.
    exists s, W, v. split; [done|].
    split; [|split; [apply frame_refl|destruct n; right; exists b; (split; [done|]); left; tauto]].
    apply Inv_take; [done| |].
    + right. exists b. split; [done|]. by right.
    + rewrite Hm. by intros o [= <-].
  - destruct (copy_stack fuel m s W ext v wantsOne b)
      as (s' & W' & r & bd' & ? & ? & Hf & _ & Hr & HWr & [Hcl _] & Hic); [by apply IH; lia|done..|].
    exists s', W', r. split; [done|]. split; [done|]. split; [done|]. right. exists b.
    split; [|right; split; [done|]; split; [done|]; by exists bd'].
    refine (proj1 (frame_block _ _ _ _ _ _ Hf Hm _)). destruct (W !! v) eqn:E; [|done].
    unfold heapb in Hh. by rewrite (Inv_owned_heap _ _ _ HI _ _ E _ Hm : has _ _ = true) in Hh.
Qed.

End Copy.
