(* ===== verification/BlockThms.v ===== *)
(** * BlockThms: what the Blocks runtime guarantees

    The properties of copy and release, stated on the ownership invariant, and
    a concrete program state on which they are exercised: a stack block that
    captures a plain word, an object, two [__block] variables, one of them with
    a keep helper, and another stack block. *)

From S2P Require Import Prelude BlockRuntime BlockCount BlockOwn BlockRelease BlockCopy.

(** ** Program states before any copy *)

Definition initial_objb (p : Z) (o : object) : bool :=
  let w := obj_flags o in
  negb (p =? 0) && (0 <=? w) && (w <? 2 ^ 32) && negb (has w BLOCK_IS_GC) &&
  negb (has w BLOCK_NEEDS_FREE) &&
  match o with
  | OBlock b => (length (fields_of b) <=? length (b_imports b))%nat
  | OByref r => (br_forwarding r =? p) && (rc w =? 0) && (dealloc_bit w =? 0)
  end.

Definition initial_memb (m : gmap Z object) : bool :=
  forallb (fun po => initial_objb po.1 po.2) (map_to_list m).

Definition initial_owners (m : gmap Z object) : gmap Z (list ref) :=
  omap (fun o => match o with OByref _ => Some [] | OBlock _ => None end) m.

Lemma initial_mem_spec m p o :
  initial_memb m = true -> m !! p = Some o -> initial_objb p o = true.
Proof.
  intros Hm Hp. unfold initial_memb in Hm. rewrite forallb_forall in Hm.
  apply (Hm (p, o)). by apply list_elem_of_In, elem_of_map_to_list.
Qed.

Lemma initial_obj_wf p o : initial_objb p o = true -> obj_wf p o /\ is_heap o = false.
Proof.
  unfold initial_objb. rewrite !andb_true_iff, !negb_true_iff, Z.eqb_neq, Z.leb_le, Z.ltb_lt.
  intros (((((H0 & H1) & H2) & H3) & H4) & H5). split; [|done].
  split; [done|]. split; [done|]. split; [done|]. destruct o as [b|r].
  - split; [by apply Nat.leb_le|]. intros Hh. unfold heapb in Hh. cbn [obj_flags] in *. congruence.
  - unfold heapr. cbn [obj_flags] in *. change BLOCK_BYREF_NEEDS_FREE with BLOCK_NEEDS_FREE.
    rewrite H4. rewrite !andb_true_iff, !Z.eqb_eq in H5. tauto.
Qed.

Lemma nrefs_initial m r : nrefs (initial_owners m) r = 0.
Proof.
  assert (Hall : forall W, (forall p l, W !! p = Some l -> l = []) -> nrefs W r = 0).
  { intros W. induction W as [|p l W Hp IH] using map_ind.
    - done.
    - intros Hl. rewrite nrefs_insert by done. rewrite (Hl p l) by apply lookup_insert_eq.
      rewrite IH; [done|]. intros q l' Hq. apply (Hl q). rewrite lookup_insert_ne; [done|congruence]. }
  apply Hall. intros p l. unfold initial_owners. rewrite lookup_omap.
  destruct (m !! p) as [[|]|]; cbn; congruence.
Qed.

Lemma initial_Inv m : initial_memb m = true -> Inv (rt_init m) (initial_owners m) (fun _ => 0).
Proof.
  intros Hm.
  assert (Ht : forall r, total (initial_owners m) (fun _ => 0) r = 0)
    by (intros r; unfold total; by rewrite nrefs_initial).
  split; try done.
  - intros p l. unfold initial_owners. rewrite lookup_omap. cbn [mem rt_init].
    destruct (m !! p) as [[b|r]|] eqn:E; cbn; try done. intros [= <-].
    exists (OByref r). split; [done|]. cbn [owner]. apply initial_mem_spec in E; [|done].
    unfold initial_objb in E. rewrite !andb_true_iff in E.
    destruct E as (_ & (E & _) & _). apply Z.eqb_eq in E. by rewrite decide_True.
  - intros p o Hp. cbn in Hp. by apply (initial_obj_wf p o), initial_mem_spec with m.
  - intros p r Hp. cbn in Hp. unfold initial_owners. rewrite lookup_omap, Hp. cbn. eauto.
  - intros p l o _ Hp Hh. cbn in Hp. apply initial_mem_spec in Hp; [|done].
    apply initial_obj_wf in Hp as [_ Hn]. congruence.
  - intros r Hr. rewrite Ht in Hr. lia.
Qed.

(** An allocator: one past the highest address in use. *)
Definition bump_pick (m : gmap Z object) (size : Z) : option Z :=
  Some (map_fold (fun k _ a => Z.max k a) 0 m + 1).

Lemma bump_pick_fresh m sz a : bump_pick m sz = Some a -> m !! a = None /\ a <> 0.
Proof.
  unfold bump_pick. intros [= <-].
  assert (Hub : 0 <= map_fold (fun k _ a => Z.max k a) 0 m /\
    forall k o, m !! k = Some o -> k <= map_fold (fun k _ a => Z.max k a) 0 m).
  { apply (map_fold_weak_ind (fun acc m => 0 <= acc /\ forall k o, m !! k = Some o -> k <= acc)).
    - split; [lia|]. intros k o Hk. by rewrite lookup_empty in Hk.
    - intros i x m' acc Hi [H0 IH]. split; [lia|]. intros k o.
      destruct (decide (k = i)) as [->|]; [lia|].
      rewrite lookup_insert_ne by congruence. intros Hk%IH. lia. }
  destruct Hub as [H0 Hub]. split; [|lia]. destruct (m !! _) eqn:E; [|done].
  apply Hub in E. lia.
Qed.

Lemma bump_pick_total m sz : exists a, bump_pick m sz = Some a.
Proof. by eexists. Qed.

(** ** The state used by the witnesses *)

Definition demo_inner : Block_layout :=
  BlockLayout 0 0 0 71 (BlockDescriptor 40 [] 0 0) [9].
Definition demo_byref : Block_byref := BlockByref None 200 0 32 0 0 42.
Definition demo_helped : Block_byref :=
  BlockByref None 210 BLOCK_BYREF_HAS_COPY_DISPOSE 48
    (Z.lor BLOCK_BYREF_CALLER BLOCK_FIELD_IS_OBJECT) 0 300.
Definition demo_outer : Block_layout :=
  BlockLayout 0 BLOCK_HAS_COPY_DISPOSE 0 70
    (BlockDescriptor 72 [0; BLOCK_FIELD_IS_OBJECT; BLOCK_FIELD_IS_BYREF; BLOCK_FIELD_IS_BLOCK;
                         BLOCK_FIELD_IS_BYREF] 0 0)
    [5; 500; 200; 150; 210].
Definition demo_mem : gmap Z object :=
  {[100 := OBlock demo_outer; 150 := OBlock demo_inner; 200 := OByref demo_byref;
    210 := OByref demo_helped]}.

Lemma demo_captures :
  Forall (cap_ok (copyable (rt_init demo_mem) (initial_owners demo_mem) 1) (rt_init demo_mem))
    (captures demo_outer).
Proof.
  change (captures demo_outer) with [RObject 500; RByref 200; RBlock 150; RByref 210].
  repeat (apply Forall_cons; split); [done| | | |done].
  - exists demo_byref. vm_compute. reflexivity.
  - right. exists demo_inner. split; [vm_compute; reflexivity|]. right. right.
    split; [reflexivity|]. split; [reflexivity|]. constructor.
  - exists demo_helped. vm_compute. reflexivity.
Qed.

(** A heap block with one reference, alone in memory. *)
Definition demo_heap : Block_layout :=
  BlockLayout _NSConcreteMallocBlock (Z.lor BLOCK_NEEDS_FREE 2) 0 71 (BlockDescriptor 40 [] 0 0) [9].

Lemma demo_heap_Inv :
  Inv (rt_init {[300 := OBlock demo_heap]}) {[300 := []]} (ext_add (fun _ => 0) [RBlock 300]).
Proof.
  assert (HI : Inv (rt_init ∅) ∅ (fun _ => 0)) by exact (initial_Inv ∅ eq_refl).
  apply (Inv_activate (rt_init {[300 := OBlock demo_heap]}) ∅ (fun _ => 0) 300 demo_heap);
    try done.
  eapply Inv_proper; [|apply (Inv_loose_store (rt_init ∅) ∅ (fun _ => 0) 300 demo_heap HI)].
  - intros r. done.
  - split; [done|]. by left.
  - split; [done|]. split; [split; vm_compute; done|]. split; [done|]. split; [vm_compute; lia|done].
Qed.

(** ** Properties *)

(** [C18] Copying a stack block.  If memory does not run out, the captured
    variables are alive and at most [n] stack blocks are nested inside,
    [_Block_copy] returns a block at an address that was free, with one
    reference and the code, descriptor and plain words of the original.  Each
    captured variable is what its field kind requires: an object is the same
    object, a heap or global block the same block, a stack block a heap copy of
    it whose own captured variables are copied in the same way, a [__block]
    variable the heap byref to which the captured one now forwards.  Every
    [__block] variable of the program still has its value when read through
    its forwarding pointer, so a variable that was moved took its value along
    (where its keep helper, if it has one, passes one of the four BYREF_CALLER
    combinations that assign).  The stack block is untouched, and every
    reference count in memory, and the number of retains of every object, still
    is the number of references held. *)
Theorem block_copy_stack pick fuel n s W ext arg b :
  (forall m sz a, pick m sz = Some a -> m !! a = None /\ a <> 0) ->
  (forall m sz, exists a, pick m sz = Some a) ->
  Inv s W ext -> mem s !! arg = Some (OBlock b) -> heapb b = false -> globalb b = false ->
  Forall (cap_ok (copyable s W n) s) (captures b) -> (S n < fuel)%nat ->
  exists s' W' r bd', _Block_copy pick fuel arg s = Ok (s', r) /\
    Inv s' W' (ext_add ext [RBlock r]) /\ mem s !! r = None /\
    mem s' !! r = Some (OBlock bd') /\ copied_from b bd' /\
    imports_copied (copy_of s' W' n) s' b bd' /\
    (forall q rq x, mem s !! q = Some (OByref rq) -> keeps rq = true ->
       variable s q = Some x -> variable s' q = Some x) /\
    mem s' !! arg = Some (OBlock b).
Proof.
  intros Hfr Htot HI Hm Hh Hg Hcap Hfuel. destruct fuel as [|fuel]; [lia|].
  destruct (copy_stack pick Hfr Htot fuel n s W ext arg true b)
    as (s' & W' & r & bd' & R & I & F & N & M & _ & C & IC);
    [apply copy_internal_ok; [done|done|lia]|done..|].
  exists s', W', r, bd'. do 6 (split; [done|]). split.
  - intros q rq x Hq Hk. destruct (proj2 (F q) rq Hq) as (_ & _ & _ & V). by apply V.
  - refine (proj1 (frame_block _ _ _ _ _ _ F Hm _)). destruct (W !! arg) eqn:E; [|done].
    by rewrite (Inv_owned_heap _ _ _ HI _ _ E _ Hm) in Hh.
Qed.

Lemma block_copy_stack_witness :
  exists s' W' r bd', _Block_copy bump_pick 3 100 (rt_init demo_mem) = Ok (s', r) /\
    Inv s' W' (ext_add (fun _ => 0) [RBlock r]) /\
    mem s' !! r = Some (OBlock bd') /\ copied_from demo_outer bd' /\
    imports_copied (copy_of s' W' 1) s' demo_outer bd' /\
    variable s' 200 = Some 42 /\ variable s' 210 = Some 300 /\
    mem s' !! 100 = Some (OBlock demo_outer).
Proof.
  destruct (block_copy_stack bump_pick 3 1 (rt_init demo_mem) (initial_owners demo_mem) (fun _ => 0)
           100 demo_outer) as (s' & W' & r & bd' & R & I & N & M & C & IC & V & A);
    [apply bump_pick_fresh|apply bump_pick_total|apply initial_Inv; vm_compute; reflexivity
    |vm_compute; reflexivity|reflexivity|reflexivity|exact demo_captures|lia|].
  exists s', W', r, bd'. do 5 (split; [assumption|]).
  split; [exact (V 200 demo_byref 42 eq_refl eq_refl eq_refl)|].
  split; [exact (V 210 demo_helped 300 eq_refl eq_refl eq_refl)|assumption].
Defined.

(** [C19] Releasing a reference one holds.  With fuel for every object in
    memory, [_Block_release] returns: nothing freed is ever touched and every
    count stays exact.  The block is freed exactly when this was its last
    reference; otherwise only its count changes, by one, unless latched. *)
Theorem block_release_owned fuel s W ext p l b :
  Inv s W ext -> 1 <= ext (RBlock p) -> W !! p = Some l -> mem s !! p = Some (OBlock b) ->
  (size (mem s) < fuel)%nat ->
  exists s' W', _Block_release fuel p s = Ok s' /\
    Inv s' W' (ext_sub ext [RBlock p]) /\
    (rc (b_flags b) = 1 -> mem s' !! p = None) /\
    (1 < rc (b_flags b) -> W' !! p = Some l /\
      exists w, s' = store p (OBlock (block_set_flags w b)) s /\
      rc w = (if rc (b_flags b) =? RC_MAX then RC_MAX else rc (b_flags b) - 1)).
Proof.
  intros HI He HW Hm Hfuel. destruct fuel as [|fuel]; [lia|].
  pose proof (size_W s W ext HI).
  destruct (release_heap fuel p s W ext l b (release_ok fuel)) as (s' & W' & R & I & _ & F1 & F2);
    [done|done|lia|done|done|by eapply Inv_owned_heap|].
  exists s', W'. by split_and!.
Qed.

Lemma block_release_owned_witness :
  exists s' W', _Block_release 5 300 (rt_init {[300 := OBlock demo_heap]}) = Ok s' /\
    Inv s' W' (ext_sub (ext_add (fun _ => 0) [RBlock 300]) [RBlock 300]) /\
    mem s' !! 300 = None.
Proof.
  destruct (block_release_owned 5 (rt_init {[300 := OBlock demo_heap]}) {[300 := []]}
    (ext_add (fun _ => 0) [RBlock 300]) 300 [] demo_heap) as (s' & W' & R & I & F & _);
    [exact demo_heap_Inv|vm_compute; discriminate|reflexivity|reflexivity|vm_compute; lia|].
  exists s', W'. split; [exact R|]. split; [exact I|]. apply F. reflexivity.
Defined.

(** [C16] Copy and release balance.  Releasing the copy of a stack block
    frees it and gives back every reference the copy took: the ownership
    invariant holds with the same outside references as before, so no count
    leaks and none is dropped twice. *)
Theorem block_copy_release pick fuel n s W ext arg b :
  (forall m sz a, pick m sz = Some a -> m !! a = None /\ a <> 0) ->
  (forall m sz, exists a, pick m sz = Some a) ->
  Inv s W ext -> mem s !! arg = Some (OBlock b) -> heapb b = false -> globalb b = false ->
  Forall (cap_ok (copyable s W n) s) (captures b) -> (S n < fuel)%nat ->
  exists s1 r, _Block_copy pick fuel arg s = Ok (s1, r) /\
    forall fuel', (size (mem s1) < fuel')%nat ->
    exists s2 W2, _Block_release fuel' r s1 = Ok s2 /\ Inv s2 W2 ext /\ mem s2 !! r = None.
Proof.
  intros Hfr Htot HI Hm Hh Hg Hcap Hfuel. destruct fuel as [|fuel]; [lia|].
  destruct (copy_stack pick Hfr Htot fuel n s W ext arg true b)
    as (s1 & W1 & r & bd' & R & I & F & N & M & HWr & C & _); [apply copy_internal_ok; [done|done|lia]|done..|].
  exists s1, r. split; [done|]. intros fuel' Hf'. destruct fuel' as [|fuel']; [lia|].
  destruct C as ((_ & _ & _ & _ & _ & Hhb & _) & Hrc & _).
  assert (He : 1 <= ext_add ext [RBlock r] (RBlock r)) by (apply ext_add_one; [exact (i_ext _ _ _ HI)|done]).
  destruct HWr as [l HWr]. pose proof (size_W s1 W1 _ I).
  destruct (release_heap fuel' r s1 W1 (ext_add ext [RBlock r]) l bd' (release_ok fuel')) as (s2 & W2 & R2 & I2 & _ & F1 & _);
    [done|done|lia|done|done|done|].
  exists s2, W2. split; [done|]. split; [|by apply F1].
  eapply Inv_proper; [|exact I2]. apply ext_add_sub.
Qed.

Lemma block_copy_release_witness :
  exists s1 r, _Block_copy bump_pick 3 100 (rt_init demo_mem) = Ok (s1, r) /\
    forall fuel', (size (mem s1) < fuel')%nat ->
    exists s2 W2, _Block_release fuel' r s1 = Ok s2 /\ Inv s2 W2 (fun _ => 0) /\ mem s2 !! r = None.
Proof.
  apply (block_copy_release bump_pick 3 1 (rt_init demo_mem) (initial_owners demo_mem) (fun _ => 0)
           100 demo_outer);
    [apply bump_pick_fresh|apply bump_pick_total|apply initial_Inv; vm_compute; reflexivity
    |vm_compute; reflexivity|reflexivity|reflexivity|exact demo_captures|lia].
Defined.
