(* ===== verification/DispatchData.v ===== *)
(** * DispatchData: the data objects of libdispatch

    Model of [src/data.c] and the inline functions of [data_internal.h].  A
    data object is a leaf, which points to a buffer, or a composite: an array
    of records, each a range of another data object.  A composite may also
    carry a flattened copy of its contents, installed later.

    Objects live in a finite map from addresses; address 0 is NULL, which is
    also [DISPATCH_OUT_OF_MEMORY].  A buffer is an address with the bytes found
    there (the API requires buffers to stay unchanged); a pointer into a buffer
    is the list of bytes from there on.  Two allocators are section variables:
    [new_object] (which in libdispatch does not return until it has memory)
    and [new_buffer] ([malloc], which may fail).  What becomes of buffers is
    recorded in a log.  Sizes are [size_t]s, 64 bits wide. *)

From S2P Require Import Prelude.

Record buffer := Buffer { buf_addr : Z; buf_bytes : list Z }.

Inductive destructor_t :=
  | DISPATCH_DATA_DESTRUCTOR_DEFAULT
  | DISPATCH_DATA_DESTRUCTOR_FREE
  | DISPATCH_DATA_DESTRUCTOR_NONE
  | DISPATCH_DATA_DESTRUCTOR_VM_DEALLOCATE
  | DISPATCH_DATA_DESTRUCTOR_INLINE
  | DestructorBlock (block : Z)
  | DestructorFunction (f : Z) (buffer : Z).   (* the block made by create_f *)

#[export] Instance destructor_eq_dec : EqDecision destructor_t.
Proof. solve_decision. Defined.

Record range_record := RangeRecord {
  data_object : Z;
  r_from : Z;
  r_length : Z;
}.

Record dispatch_data_s := DispatchData {
  do_targetq : option Z;       (* None: the default queue *)
  dd_buf : option buffer;
  dd_destructor : destructor_t;
  dd_size : Z;
  dd_records : list range_record;
  dd_ref : Z;                  (* references held *)
}.

Inductive effect :=
  | Freed (addr : Z)
  | VmDeallocated (addr size : Z)
  | AsyncDestructor (queue : option Z) (destructor : destructor_t).

Record dstate := DState {
  objs : gmap Z dispatch_data_s;
  effects : list effect;       (* newest first *)
}.

Definition dispatch_data_empty : Z := 1.
Definition DISPATCH_OUT_OF_MEMORY : Z := 0.
Definition sizeof_dispatch_data_s : Z := 64.
Definition sizeof_range_record : Z := 24.

(** The empty object is static and immortal. *)
Definition empty_data : dispatch_data_s :=
  DispatchData None None DISPATCH_DATA_DESTRUCTOR_NONE 0 [] 0.

Definition set_objs (f : gmap Z dispatch_data_s -> gmap Z dispatch_data_s) (s : dstate) : dstate :=
  DState (f (objs s)) (effects s).
Definition log (e : effect) (s : dstate) : dstate := DState (objs s) (e :: effects s).

Definition get_data (p : Z) (s : dstate) : res dispatch_data_s :=
  match objs s !! p with
  | Some dd => Ok dd
  | None => Crash OutOfBounds
  end.

Definition with_ref (r : Z) (dd : dispatch_data_s) : dispatch_data_s :=
  DispatchData (do_targetq dd) (dd_buf dd) (dd_destructor dd) (dd_size dd) (dd_records dd) r.
Definition with_buf (b : option buffer) (dd : dispatch_data_s) : dispatch_data_s :=
  DispatchData (do_targetq dd) b (dd_destructor dd) (dd_size dd) (dd_records dd) (dd_ref dd).

(** [_dispatch_data_retain]; the empty object is not counted. *)
Definition retain (p : Z) (s : dstate) : res dstate :=
  let! dd := get_data p s in
  Ok (if p =? dispatch_data_empty then s else set_objs (insert p (with_ref (dd_ref dd + 1) dd)) s).

Definition _dispatch_data_leaf (dd : dispatch_data_s) : bool :=
  match dd_records dd with [] => true | _ => false end.

Definition _dispatch_data_num_records (dd : dispatch_data_s) : Z :=
  match dd_records dd with [] => 1 | rs => Z.of_nat (length rs) end.

(** A composite with a single record is seen through. *)
Definition _dispatch_data_map_direct (p offset : Z) (s : dstate)
    : res (option (list Z) * Z * Z) :=
  let! dd := get_data p s in
  let! _ := c_assert (negb (dd_size dd =? 0)) in
  let! (p, dd, offset) :=
    (match dd_records dd with
     | [r] => let! dd' := get_data (data_object r) s in
              Ok (data_object r, dd', u64 (offset + r_from r))
     | _ => Ok (p, dd, offset)
     end) in
  match dd_buf dd with
  | Some b => Ok (Some (drop (Z.to_nat offset) (buf_bytes b)), p, offset)
  | None => if _dispatch_data_leaf dd then Crash OutOfBounds else Ok (None, p, offset)
  end.

Definition _dispatch_data_destroy_buffer (buffer : option buffer) (size : Z) (queue : option Z)
    (destructor : destructor_t) (s : dstate) : dstate :=
  let addr := match buffer with Some b => buf_addr b | None => 0 end in
  match destructor with
  | DISPATCH_DATA_DESTRUCTOR_FREE => log (Freed addr) s
  | DISPATCH_DATA_DESTRUCTOR_NONE => s
  | DISPATCH_DATA_DESTRUCTOR_VM_DEALLOCATE => log (VmDeallocated addr size) s
  | d => log (AsyncDestructor queue d) s
  end.

Definition dispatch_data_get_size (p : Z) (s : dstate) : res Z :=
  let! dd := get_data p s in Ok (dd_size dd).

Section Data.
Context (new_object : gmap Z dispatch_data_s -> Z).
Context (new_buffer : dstate -> Z -> option Z).

(** The object with [n] records, or NULL when its size overflows a [size_t]. *)
Definition _dispatch_data_alloc (n extra : Z) (s : dstate) : option Z :=
  let base_size := sizeof_dispatch_data_s + extra in
  if base_size >? SIZE_MAX then None
  else if n * sizeof_range_record + base_size >? SIZE_MAX then None
  else Some (new_object (objs s)).

(** The callers fill in the object at once: a NULL object is dereferenced. *)
Definition alloc_with (n extra : Z) (dd : dispatch_data_s) (s : dstate) : res (dstate * Z) :=
  match _dispatch_data_alloc n extra s with
  | None => Crash OutOfBounds
  | Some p => Ok (set_objs (insert p dd) s, p)
  end.

Definition _dispatch_data_init (p : Z) (buf : option buffer) (size : Z) (queue : option Z)
    (destructor : destructor_t) (s : dstate) : res dstate :=
  let! dd := get_data p s in
  Ok (set_objs (insert p (DispatchData (match queue with Some q => Some q | None => do_targetq dd end)
        buf destructor size (dd_records dd) (dd_ref dd))) s).

Definition _dispatch_data_init_with_bytes (p : Z) (buf : option buffer) (size : Z)
    (destructor : destructor_t) (s : dstate) : res dstate :=
  match buf with
  | Some b =>
      if size =? 0 then
        let s := if decide (destructor = DISPATCH_DATA_DESTRUCTOR_DEFAULT) then s
                 else _dispatch_data_destroy_buffer buf size None destructor s in
        _dispatch_data_init p None 0 None DISPATCH_DATA_DESTRUCTOR_NONE s
      else _dispatch_data_init p buf size None destructor s
  | None =>
      let s := if decide (destructor = DISPATCH_DATA_DESTRUCTOR_DEFAULT) then s
               else _dispatch_data_destroy_buffer buf size None destructor s in
      _dispatch_data_init p None 0 None DISPATCH_DATA_DESTRUCTOR_NONE s
  end.

Definition leaf_data (queue : option Z) (b : buffer) (size : Z) (d : destructor_t) : dispatch_data_s :=
  DispatchData queue (Some b) d size [] 1.

(** [memcpy] of [size] bytes out of a buffer. *)
Definition copy_bytes (b : buffer) (size : Z) : res (list Z) :=
  if Z.of_nat (length (buf_bytes b)) <? size then Crash OutOfBounds
  else Ok (take (Z.to_nat size) (buf_bytes b)).

Definition dispatch_data_create (buf : option buffer) (size : Z) (queue : option Z)
    (destructor : destructor_t) (s : dstate) : res (dstate * Z) :=
  match buf with
  | None =>
      Ok (if decide (destructor = DISPATCH_DATA_DESTRUCTOR_DEFAULT) then s
          else _dispatch_data_destroy_buffer buf size queue destructor s, dispatch_data_empty)
  | Some b =>
      if size =? 0 then
        Ok (if decide (destructor = DISPATCH_DATA_DESTRUCTOR_DEFAULT) then s
            else _dispatch_data_destroy_buffer buf size queue destructor s, dispatch_data_empty)
      else
        match destructor with
        | DISPATCH_DATA_DESTRUCTOR_DEFAULT =>
            match new_buffer s size with
            | None => Ok (s, DISPATCH_OUT_OF_MEMORY)
            | Some data_buf =>
                let! bytes := copy_bytes b size in
                alloc_with 0 0 (leaf_data queue (Buffer data_buf bytes) size
                                  DISPATCH_DATA_DESTRUCTOR_FREE) s
            end
        | DISPATCH_DATA_DESTRUCTOR_INLINE =>
            let! bytes := copy_bytes b size in
            let! (s, p) := alloc_with 0 size empty_data s in
            Ok (set_objs (insert p (leaf_data queue (Buffer (p + sizeof_dispatch_data_s) bytes) size
                                      DISPATCH_DATA_DESTRUCTOR_NONE)) s, p)
        | d => alloc_with 0 0 (leaf_data queue b size d) s
        end
  end.

Definition dispatch_data_create_f (buf : option buffer) (size : Z) (queue : option Z)
    (destructor_function : destructor_t) (s : dstate) : res (dstate * Z) :=
  let destructor :=
    match destructor_function with
    | DestructorBlock f =>
        DestructorFunction f (match buf with Some b => buf_addr b | None => 0 end)
    | d => d
    end in
  dispatch_data_create buf size queue destructor s.

(** The object and the buffer inside it, whose bytes the caller then writes:
    [bytes] is what it writes. *)
Definition dispatch_data_create_alloc (size : Z) (bytes : list Z) (s : dstate)
    : res (dstate * Z * option Z) :=
  if size =? 0 then Ok (s, dispatch_data_empty, None)
  else
    let! (s, p) := alloc_with 0 size empty_data s in
    let buf := p + sizeof_dispatch_data_s in
    Ok (set_objs (insert p (leaf_data None (Buffer buf bytes) size
                              DISPATCH_DATA_DESTRUCTOR_NONE)) s, p, Some buf).

Fixpoint retain_all (rs : list range_record) (s : dstate) : res dstate :=
  match rs with
  | [] => Ok s
  | r :: rs => let! s := retain (data_object r) s in retain_all rs s
  end.

(** The records a data object contributes to a concatenation. *)
Definition concat_records (p : Z) (dd : dispatch_data_s) : list range_record :=
  match dd_records dd with
  | [] => [RangeRecord p 0 (dd_size dd)]
  | rs => rs
  end.

Definition composite (size : Z) (rs : list range_record) : dispatch_data_s :=
  DispatchData None None DISPATCH_DATA_DESTRUCTOR_DEFAULT size rs 1.

Definition dispatch_data_create_concat (dd1 dd2 : Z) (s : dstate) : res (dstate * Z) :=
  let! d1 := get_data dd1 s in
  if dd_size d1 =? 0 then let! s := retain dd2 s in Ok (s, dd2)
  else
    let! d2 := get_data dd2 s in
    if dd_size d2 =? 0 then let! s := retain dd1 s in Ok (s, dd1)
    else
      let n := _dispatch_data_num_records d1 + _dispatch_data_num_records d2 in
      if n >? SIZE_MAX then Ok (s, DISPATCH_OUT_OF_MEMORY)
      else
        let rs := concat_records dd1 d1 ++ concat_records dd2 d2 in
        let! (s, data) := alloc_with n 0 (composite (u64 (dd_size d1 + dd_size d2)) rs) s in
        let! s := retain_all rs s in
        Ok (s, data).

(** ** Subranges *)

(** The records from the one that contains [offset] on, and what is left of
    [offset] in it. *)
Fixpoint skip_records (rs : list range_record) (offset : Z) : list range_record * Z :=
  match rs with
  | [] => ([], offset)
  | r :: rs' =>
      if offset >=? r_length r then skip_records rs' (u64 (offset - r_length r)) else (rs, offset)
  end.

(** The number of records up to the one in which the range ends, and how much
    of that one belongs to it. *)
Fixpoint end_record (rs : list range_record) (last_length : Z) (count : nat) : res (nat * Z) :=
  match rs with
  | [] => Ok (count, last_length)
  | r :: rs' =>
      if last_length <=? r_length r then Ok (S count, last_length)
      else match rs' with
           | [] => Crash AssertFail
           | _ => end_record rs' (u64 (last_length - r_length r)) (S count)
           end
  end.

Definition advance_first (offset : Z) (rs : list range_record) : list range_record :=
  match rs with
  | [] => []
  | r :: rs => RangeRecord (data_object r) (u64 (r_from r + offset)) (u64 (r_length r - offset)) :: rs
  end.

Fixpoint set_last_length (len : Z) (rs : list range_record) : list range_record :=
  match rs with
  | [] => []
  | [r] => [RangeRecord (data_object r) (r_from r) len]
  | r :: rs => r :: set_last_length len rs
  end.

Fixpoint dispatch_data_create_subrange (fuel : nat) (p offset length : Z) (s : dstate)
    : res (dstate * Z) :=
  match fuel with
  | O => Crash OutOfFuel
  | S fuel =>
      let! dd := get_data p s in
      if (offset >=? dd_size dd) || (length =? 0) then Ok (s, dispatch_data_empty)
      else if negb (length >? dd_size dd - offset) && (length =? dd_size dd) then
        let! s := retain p s in Ok (s, p)
      else
        let length := if length >? dd_size dd - offset then dd_size dd - offset else length in
        match dd_records dd with
        | [] =>
            let! (s, data) := alloc_with 1 0 (composite length [RangeRecord p offset length]) s in
            let! s := retain p s in Ok (s, data)
        | records =>
            let to_the_end := u64 (offset + length) =? dd_size dd in
            let '(rs, offset) := skip_records records offset in
            match rs with
            | [] => Crash AssertFail
            | r :: rs' =>
                if u64 (offset + length) <=? r_length r then
                  dispatch_data_create_subrange fuel (data_object r) (u64 (r_from r + offset)) length s
                else
                  let! (count, last_length) :=
                    (if to_the_end then Ok (List.length rs, 0)
                     else end_record rs' (u64 (length - (r_length r - offset))) 1) in
                  let recs := take count rs in
                  let recs := if offset =? 0 then recs else advance_first offset recs in
                  let recs := if to_the_end then recs else set_last_length last_length recs in
                  let! (s, data) := alloc_with (Z.of_nat count) 0 (composite length recs) s in
                  let! s := retain_all recs s in
                  Ok (s, data)
            end
        end
  end.

(** ** Visiting the regions

    [applier] is the client's callback: it gets the region object, the offset
    and the bytes, updates its context and says whether to go on. *)

Section Apply.
Context {C : Type} (applier : C -> Z -> Z -> list Z -> C * bool).

(** The callback is handed a pointer and a size: it may read that many bytes. *)
Definition _dispatch_data_apply_client_callout (ctxt : C) (region offset : Z) (buf : list Z)
    (size : Z) : res (C * bool) :=
  if Z.of_nat (length buf) <? size then Crash OutOfBounds
  else Ok (applier ctxt region offset (take (Z.to_nat size) buf)).

Fixpoint apply_records (rec : Z -> Z -> Z -> Z -> C -> res (C * bool))
    (rs : list range_record) (offset : Z) (ctxt : C) : res (C * bool) :=
  match rs with
  | [] => Ok (ctxt, true)
  | r :: rs =>
      let! (ctxt, result) := rec (data_object r) offset (r_from r) (r_length r) ctxt in
      if result then apply_records rec rs (u64 (offset + r_length r)) ctxt else Ok (ctxt, false)
  end.

Fixpoint _dispatch_data_apply (fuel : nat) (s : dstate) (p offset from size : Z) (ctxt : C)
    : res (C * bool) :=
  match fuel with
  | O => Crash OutOfFuel
  | S fuel =>
      let! (buf, _, _) := _dispatch_data_map_direct p 0 s in
      match buf with
      | Some b => _dispatch_data_apply_client_callout ctxt p offset (drop (Z.to_nat from) b) size
      | None =>
          let! dd := get_data p s in
          apply_records (_dispatch_data_apply fuel s) (dd_records dd) offset ctxt
      end
  end.

Definition dispatch_data_apply_f (fuel : nat) (p : Z) (ctxt : C) (s : dstate) : res (C * bool) :=
  let! dd := get_data p s in
  if dd_size dd =? 0 then Ok (ctxt, true)
  else _dispatch_data_apply fuel s p 0 0 (dd_size dd) ctxt.

Definition dispatch_data_apply (fuel : nat) (p : Z) (ctxt : C) (s : dstate) : res (C * bool) :=
  let! dd := get_data p s in
  if dd_size dd =? 0 then Ok (ctxt, true)
  else _dispatch_data_apply fuel s p 0 0 (dd_size dd) ctxt.
End Apply.

(** ** Contiguous access *)

(** [memcpy(buffer + off, buf, len)] in a fresh buffer that is filled from the
    front. *)
Definition flatten_step (acc : res (list Z)) (region off : Z) (bytes : list Z) : res (list Z) * bool :=
  (let! acc := acc in
   if Z.of_nat (length acc) =? off then Ok (acc ++ bytes) else Crash OutOfBounds, true).

Definition _dispatch_data_flatten (fuel : nat) (p : Z) (s : dstate) : res (option buffer) :=
  let! dd := get_data p s in
  match new_buffer s (dd_size dd) with
  | None => Ok None
  | Some addr =>
      let! (bytes, _) := dispatch_data_apply flatten_step fuel p (Ok []) s in
      let! bytes := bytes in
      Ok (Some (Buffer addr bytes))
  end.

(** Returns the object, the buffer pointer and the size. *)
Definition dispatch_data_create_map (fuel : nat) (p : Z) (s : dstate)
    : res (dstate * Z * option (list Z) * Z) :=
  let! dd := get_data p s in
  let size := dd_size dd in
  if size =? 0 then Ok (s, dispatch_data_empty, None, size)
  else
    let! (buf, _, _) := _dispatch_data_map_direct p 0 s in
    match buf with
    | Some b => let! s := retain p s in Ok (s, p, Some b, size)
    | None =>
        let! flat := _dispatch_data_flatten fuel p s in
        match flat with
        | Some b =>
            let! (s, data) := dispatch_data_create (Some b) size None DISPATCH_DATA_DESTRUCTOR_FREE s in
            Ok (s, data, Some (buf_bytes b), size)
        | None => Ok (s, 0, None, 0)
        end
    end.

Definition dispatch_data_get_flattened_bytes_4libxpc (fuel : nat) (p : Z) (s : dstate)
    : res (dstate * option (list Z)) :=
  let! dd := get_data p s in
  if dd_size dd =? 0 then Ok (s, None)
  else
    let! (buf, p, offset) := _dispatch_data_map_direct p 0 s in
    match buf with
    | Some b => Ok (s, Some b)
    | None =>
        let! flat := _dispatch_data_flatten fuel p s in
        match flat with
        | None => Ok (s, None)
        | Some flatbuf =>
            let! dd := get_data p s in
            match dd_buf dd with
            | None => Ok (set_objs (insert p (with_buf (Some flatbuf) dd)) s,
                          Some (drop (Z.to_nat offset) (buf_bytes flatbuf)))
            | Some b => Ok (log (Freed (buf_addr flatbuf)) s,
                            Some (drop (Z.to_nat offset) (buf_bytes b)))
            end
        end
    end.

(** ** The region around a location *)

(** The loop over the records: the first whose end is beyond [location]. *)
Fixpoint find_region (rs : list range_record) (from location offset : Z)
    : option (range_record * Z * Z * Z) :=
  match rs with
  | [] => None
  | r :: rs =>
      if from >=? r_length r then find_region rs (u64 (from - r_length r)) location offset
      else
        let length := u64 (r_length r - from) in
        if location >=? u64 (offset + length)
        then find_region rs 0 location (u64 (offset + length))
        else Some (r, u64 (from + r_from r), length, offset)
  end.

Fixpoint _dispatch_data_copy_region (fuel : nat) (p from size location offset_ptr : Z) (s : dstate)
    : res (dstate * Z * Z) :=
  match fuel with
  | O => Crash OutOfFuel
  | S fuel =>
      let! dd := get_data p s in
      let reusable := (from =? 0) && (size =? dd_size dd) in
      let! (buf, p', from') := _dispatch_data_map_direct p from s in
      match buf with
      | Some _ =>
          if reusable then let! s := retain p s in Ok (s, p, offset_ptr)
          else
            let! s := retain p' s in
            let! dd' := get_data p' s in
            if (from' =? 0) && (size =? dd_size dd') then Ok (s, p', offset_ptr)
            else
              let! (s, data) := alloc_with 1 0 (composite size [RangeRecord p' from' size]) s in
              Ok (s, data, offset_ptr)
      | None =>
          let! dd' := get_data p' s in
          match find_region (dd_records dd') from' location 0 with
          | None => Crash AssertFail
          | Some (r, from, length, offset) =>
              _dispatch_data_copy_region fuel (data_object r) from length
                (u64 (location - offset)) (u64 (offset_ptr + offset)) s
          end
      end
  end.

Definition dispatch_data_copy_region (fuel : nat) (p location : Z) (s : dstate)
    : res (dstate * Z * Z) :=
  let! dd := get_data p s in
  if location >=? dd_size dd then Ok (s, dispatch_data_empty, dd_size dd)
  else _dispatch_data_copy_region fuel p 0 (dd_size dd) location 0 s.
End Data.

(** ** Disposal *)

Fixpoint release_all (release : Z -> dstate -> res dstate) (rs : list range_record) (s : dstate)
    : res dstate :=
  match rs with
  | [] => Ok s
  | r :: rs => let! s := release (data_object r) s in release_all release rs s
  end.

(** [free] of a null pointer does nothing. *)
Definition _dispatch_data_dispose (release : Z -> dstate -> res dstate) (dd : dispatch_data_s)
    (s : dstate) : res dstate :=
  if _dispatch_data_leaf dd then
    Ok (_dispatch_data_destroy_buffer (dd_buf dd) (dd_size dd) (do_targetq dd) (dd_destructor dd) s)
  else
    let! s := release_all release (dd_records dd) s in
    Ok (match dd_buf dd with Some b => log (Freed (buf_addr b)) s | None => s end).

(** [_dispatch_data_release]: the last release disposes of the object. *)
Fixpoint release (fuel : nat) (p : Z) (s : dstate) : res dstate :=
  match fuel with
  | O => Crash OutOfFuel
  | S fuel =>
      if p =? dispatch_data_empty then Ok s
      else
        let! dd := get_data p s in
        if 1 <? dd_ref dd then Ok (set_objs (insert p (with_ref (dd_ref dd - 1) dd)) s)
        else
          let! s := _dispatch_data_dispose (release fuel) dd s in
          Ok (set_objs (delete p) s)
  end.
