(* ===== verification/DataSpec.v ===== *)
(** * DataSpec: data objects as byte strings

    The abstract view of a data object is the list of its bytes.  The ghost
    map [G] gives it for each object, with a rank that decreases from a
    composite to the objects its records refer to; [wf] says that memory
    represents [G].  Records only ever refer to objects whose bytes are
    directly available: leaves, and composites that have been flattened. *)

From S2P Require Import Prelude DispatchData.

Definition slice (from len : Z) (l : list Z) : list Z :=
  take (Z.to_nat len) (drop (Z.to_nat from) l).

Abbreviation ghost := (gmap Z (list Z * nat)).

Definition bytes_of (G : ghost) (p : Z) : list Z := default [] (fst <$> G !! p).

Definition rec_bytes (G : ghost) (r : range_record) : list Z :=
  slice (r_from r) (r_length r) (bytes_of G (data_object r)).

Definition recs_bytes (G : ghost) (rs : list range_record) : list Z :=
  concat (map (rec_bytes G) rs).

(** Bytes can be read without following records. *)
Definition direct (dd : dispatch_data_s) : Prop :=
  dd_buf dd <> None /\ length (dd_records dd) <> 1%nat.

Definition rec_ok (s : dstate) (G : ghost) (k : nat) (r : range_record) : Prop :=
  exists cb ck cd, G !! data_object r = Some (cb, ck) /\ (ck < k)%nat /\
    objs s !! data_object r = Some cd /\ direct cd /\
    0 <= r_from r /\ 0 < r_length r /\ r_from r + r_length r <= Z.of_nat (length cb).

Definition data_ok (s : dstate) (G : ghost) (dd : dispatch_data_s) (bs : list Z) (k : nat) : Prop :=
  dd_size dd = Z.of_nat (length bs) /\ Z.of_nat (length bs) <= SIZE_MAX /\
  match dd_records dd with
  | [] => bs = [] \/
      exists b, dd_buf dd = Some b /\ bs <> [] /\
        bs = take (length bs) (buf_bytes b)
  | rs => Forall (rec_ok s G k) rs /\ bs = recs_bytes G rs /\
      Z.of_nat (length rs) * sizeof_range_record + sizeof_dispatch_data_s <= SIZE_MAX /\
      forall b, dd_buf dd = Some b -> buf_bytes b = bs /\ (2 <= length rs)%nat
  end.

(** The object graph, its bytes and its heights; the reference counts are not
    part of it. *)
Record wf (s : dstate) (G : ghost) : Prop := {
  wf_dom : forall p, is_Some (objs s !! p) <-> is_Some (G !! p);
  wf_null : objs s !! 0 = None;
  wf_empty : objs s !! dispatch_data_empty = Some empty_data;
  wf_obj : forall p dd bs k, objs s !! p = Some dd -> G !! p = Some (bs, k) -> data_ok s G dd bs k;
}.

(** A later state: every object keeps its bytes; only counts change, and a
    flattened copy may appear. *)
Definition later (s : dstate) (G : ghost) (s' : dstate) (G' : ghost) : Prop :=
  G ⊆ G' /\
  forall p dd, objs s !! p = Some dd -> exists dd', objs s' !! p = Some dd' /\
    dd_records dd' = dd_records dd /\ dd_size dd' = dd_size dd /\
    (dd_buf dd' = dd_buf dd \/ dd_buf dd = None).

Lemma later_refl s G : later s G s G.
Proof. split; [done|]. intros p dd Hp. exists dd. auto. Qed.

Lemma later_trans s G s1 G1 s2 G2 : later s G s1 G1 -> later s1 G1 s2 G2 -> later s G s2 G2.
Proof.
  intros [A1 A2] [B1 B2]. split; [by etrans|]. intros p dd Hp.
  destruct (A2 p dd Hp) as (d1 & H1 & R1 & S1 & F1).
  destruct (B2 p d1 H1) as (d2 & H2 & R2 & S2 & F2).
  exists d2. split; [done|]. split; [congruence|]. split; [congruence|].
  destruct F1 as [F1|F1]; [|by right]. destruct F2 as [F2|F2]; [left|right]; congruence.
Qed.

Lemma bytes_of_some G p bs k : G !! p = Some (bs, k) -> bytes_of G p = bs.
Proof. intros H. unfold bytes_of. by rewrite H. Qed.

Lemma rec_ok_later s G s' G' k r : later s G s' G' -> rec_ok s G k r -> rec_ok s' G' k r.
Proof.
  intros [HG Hs] (cb & ck & cd & H1 & H2 & H3 & [H4 H4'] & H5).
  destruct (Hs _ _ H3) as (cd' & H3' & R & S & F).
  exists cb, ck, cd'. split; [by eapply lookup_weaken|]. split; [done|]. split; [done|].
  split; [|done]. split; [|by rewrite R]. destruct F as [->|?]; [done|congruence].
Qed.

Lemma recs_bytes_later s G s' G' k rs :
  later s G s' G' -> Forall (rec_ok s G k) rs -> recs_bytes G' rs = recs_bytes G rs.
Proof.
  intros Hl Hrs. unfold recs_bytes. f_equal. apply map_ext_in. intros r Hr.
  rewrite Forall_forall in Hrs. destruct (Hrs r) as (cb & ck & cd & H1 & _); [by apply list_elem_of_In|].
  unfold rec_bytes. rewrite (bytes_of_some G _ cb ck) by done.
  rewrite (bytes_of_some G' _ cb ck); [done|]. by eapply lookup_weaken; [|apply Hl].
Qed.

Lemma data_ok_later s G s' G' dd bs k :
  later s G s' G' -> data_ok s G dd bs k -> data_ok s' G' dd bs k.
Proof.
  intros Hl (H1 & H2 & H3). split; [done|]. split; [done|].
  destruct (dd_records dd) as [|r rs]; [done|]. destruct H3 as (A & B & C & D).
  split; [|split; [|done]].
  - eapply Forall_impl; [exact A|]. intros r0. by apply rec_ok_later.
  - by rewrite (recs_bytes_later s G s' G' k).
Qed.

Lemma rec_bytes_length s G k r :
  rec_ok s G k r -> Z.of_nat (length (rec_bytes G r)) = r_length r.
Proof.
  intros (cb & ck & cd & H1 & _ & _ & _ & H5 & H6 & H7).
  unfold rec_bytes, slice. rewrite (bytes_of_some G _ cb ck) by done.
  rewrite length_take, length_drop. lia.
Qed.

(** ** Steps that keep the representation *)

Lemma get_data_ok s G p bs k :
  wf s G -> G !! p = Some (bs, k) -> exists dd, get_data p s = Ok dd /\ objs s !! p = Some dd /\
    data_ok s G dd bs k.
Proof.
  intros Hwf Hp. destruct (proj2 (wf_dom _ _ Hwf p)) as [dd Hdd]; [by rewrite Hp|].
  exists dd. unfold get_data. rewrite Hdd. split; [done|]. split; [done|]. by eapply wf_obj.
Qed.

Lemma retain_ok s G p bs k :
  wf s G -> G !! p = Some (bs, k) -> exists s', retain p s = Ok s' /\ wf s' G /\ later s G s' G.
Proof.
  intros Hwf Hp. destruct (get_data_ok _ _ _ _ _ Hwf Hp) as (dd & Hg & Ho & Hd).
  unfold retain. rewrite Hg. cbn [rbind]. eexists. split; [done|].
  destruct (Z.eqb_spec p dispatch_data_empty) as [|Hne]; [split; [done|apply later_refl]|].
  set (s' := set_objs _ s).
  assert (Hl : later s G s' G).
  { split; [done|]. intros q d Hq. cbn. destruct (decide (q = p)) as [->|].
    - rewrite lookup_insert_eq. rewrite Ho in Hq. injection Hq as <-.
      eexists. split; [done|]. cbn. auto.
    - rewrite lookup_insert_ne by congruence. eauto 10. }
  split; [|done]. destruct Hwf as [D N E O]. split.
  - intros q. cbn. destruct (decide (q = p)) as [->|]; [|rewrite lookup_insert_ne by congruence; apply D].
    rewrite lookup_insert_eq, Hp. split; eauto.
  - cbn. rewrite lookup_insert_ne; [done|]. intros ->. congruence.
  - cbn. rewrite lookup_insert_ne; [done|]. congruence.
  - intros q d bs' k' Hq HG. eapply data_ok_later; [exact Hl|]. cbn in Hq.
    destruct (decide (q = p)) as [->|].
    + rewrite lookup_insert_eq in Hq. injection Hq as <-. exact (O p dd bs' k' Ho HG).
    + rewrite lookup_insert_ne in Hq by congruence. by eapply O.
Qed.

Lemma retain_all_ok s G k rs :
  wf s G -> Forall (rec_ok s G k) rs ->
  exists s', retain_all rs s = Ok s' /\ wf s' G /\ later s G s' G.
Proof.
  revert s. induction rs as [|r rs IH]; intros s Hwf Hrs.
  { exists s. split; [done|]. split; [done|apply later_refl]. }
  apply Forall_cons in Hrs as [Hr Hrs]. destruct Hr as (cb & ck & cd & H1 & _).
  destruct (retain_ok s G _ _ _ Hwf H1) as (s1 & R1 & W1 & L1).
  cbn [retain_all]. rewrite R1. cbn [rbind].
  destruct (IH s1 W1) as (s2 & R2 & W2 & L2).
  { eapply Forall_impl; [exact Hrs|]. intros x. by apply rec_ok_later. }
  exists s2. split; [done|]. split; [done|]. by eapply later_trans.
Qed.

Section Alloc.
Context (new_object : gmap Z dispatch_data_s -> Z).
(** The allocator returns an address not in use. *)
Context (new_fresh : forall m, m !! new_object m = None /\ new_object m <> 0 /\
                               new_object m <> dispatch_data_empty).

(** A new object, given what it is to contain. *)
Lemma alloc_ok s G n extra dd bs k :
  wf s G -> 0 <= n -> 0 <= extra ->
  n * sizeof_range_record + sizeof_dispatch_data_s + extra <= SIZE_MAX ->
  data_ok s G dd bs k ->
  exists s' p, alloc_with new_object n extra dd s = Ok (s', p) /\
    wf s' (<[p := (bs, k)]> G) /\ later s G s' (<[p := (bs, k)]> G) /\
    objs s' !! p = Some dd /\ p = new_object (objs s) /\ G !! p = None.
Proof.
  intros Hwf Hn He Hsz Hd. unfold alloc_with, _dispatch_data_alloc.
  unfold sizeof_range_record, sizeof_dispatch_data_s in *.
  rewrite !Z.gtb_ltb, (proj2 (Z.ltb_ge SIZE_MAX (64 + extra))) by lia.
  rewrite (proj2 (Z.ltb_ge SIZE_MAX (n * 24 + (64 + extra)))) by lia.
  destruct (new_fresh (objs s)) as (F1 & F2 & F3). set (p := new_object (objs s)) in *.
  assert (HG : G !! p = None).
  { destruct (G !! p) eqn:E; [|done]. destruct (proj2 (wf_dom _ _ Hwf p)); [by rewrite E|]. congruence. }
  eexists _, p. split; [done|]. set (s' := set_objs _ s).
  assert (Hl : later s G s' (<[p := (bs, k)]> G)).
  { split; [by apply insert_subseteq|]. intros q d Hq. exists d. cbn.
    rewrite lookup_insert_ne by congruence. auto. }
  split; [|split; [done|split; [by cbn; simplify_map_eq|done]]].
  destruct Hwf as [D N E O]. split.
  - intros q. cbn. destruct (decide (q = p)) as [->|]; simplify_map_eq; [split; eauto|apply D].
  - cbn. by rewrite lookup_insert_ne.
  - cbn. by rewrite lookup_insert_ne.
  - intros q d bs' k' Hq HG'. eapply data_ok_later; [exact Hl|]. cbn in Hq.
    destruct (decide (q = p)) as [->|]; simplify_map_eq; [done|by eapply O].
Qed.
End Alloc.
