(* ===== verification/DataOps.v ===== *)
(** * DataOps: what each operation does to the bytes

    Creation, concatenation, subranges, visiting, flattening and region
    lookup, each shown to implement its meaning on byte strings. *)

From S2P Require Import Prelude DispatchData DataSpec.

(** ** Records *)

Definition recs_length (rs : list range_record) : Z :=
  foldr (fun r a => r_length r + a) 0 rs.

Lemma recs_length_cons r rs : recs_length (r :: rs) = r_length r + recs_length rs.
Proof. done. Qed.

Lemma recs_length_nil : recs_length [] = 0.
Proof. done. Qed.

Lemma recs_bytes_cons G r rs : recs_bytes G (r :: rs) = rec_bytes G r ++ recs_bytes G rs.
Proof. done. Qed.

Lemma recs_bytes_app G rs rs' : recs_bytes G (rs ++ rs') = recs_bytes G rs ++ recs_bytes G rs'.
Proof. unfold recs_bytes. by rewrite map_app, concat_app. Qed.

Lemma recs_bytes_length s G k rs :
  Forall (rec_ok s G k) rs -> Z.of_nat (length (recs_bytes G rs)) = recs_length rs.
Proof.
  induction 1 as [|r rs Hr _ IH]; [done|].
  rewrite recs_bytes_cons, length_app, Nat2Z.inj_add, IH, (rec_bytes_length s G k) by done. done.
Qed.

Lemma rec_length_pos s G k r : rec_ok s G k r -> 0 < r_length r.
Proof. intros (? & ? & ? & ? & ? & ? & ? & ? & ? & ?). done. Qed.

Lemma recs_length_nonneg s G k rs : Forall (rec_ok s G k) rs -> 0 <= recs_length rs.
Proof.
  induction 1 as [|r rs Hr]; [done|]. rewrite recs_length_cons. apply rec_length_pos in Hr. lia.
Qed.

Lemma slice_all l : slice 0 (Z.of_nat (length l)) l = l.
Proof. unfold slice. rewrite Nat2Z.id. cbn. by rewrite take_ge. Qed.

(** A subrange of a slice. *)
Lemma slice_slice a n b m (l : list Z) :
  0 <= a -> 0 <= b -> 0 <= m -> b + m <= n -> slice b m (slice a n l) = slice (a + b) m l.
Proof.
  intros. unfold slice. rewrite skipn_firstn_comm, take_take, drop_drop. f_equal; [|f_equal]; lia.
Qed.

Lemma drop_app_Z (l l' : list Z) n :
  Z.of_nat (length l) <= n -> drop (Z.to_nat n) (l ++ l') = drop (Z.to_nat (n - Z.of_nat (length l))) l'.
Proof. intros. rewrite drop_app_ge by lia. f_equal. lia. Qed.

(** Skipping to the record that contains an offset. *)
Lemma skip_records_ok s G k rs offset :
  Forall (rec_ok s G k) rs -> 0 <= offset < recs_length rs -> recs_length rs <= SIZE_MAX ->
  exists r rs' off', skip_records rs offset = (r :: rs', off') /\
    Forall (rec_ok s G k) (r :: rs') /\ 0 <= off' < r_length r /\
    recs_length (r :: rs') - off' = recs_length rs - offset /\
    recs_length (r :: rs') <= recs_length rs /\
    (length (r :: rs') <= length rs)%nat /\
    drop (Z.to_nat off') (recs_bytes G (r :: rs')) = drop (Z.to_nat offset) (recs_bytes G rs).
Proof.
  intros Hrs. revert offset. induction Hrs as [|r rs Hr Hrs IH]; intros offset Hoff Hmax;
    [rewrite recs_length_nil in *; lia|].
  pose proof (rec_length_pos _ _ _ _ Hr). pose proof (recs_length_nonneg _ _ _ _ Hrs).
  cbn [skip_records]. rewrite Z.geb_leb. destruct (Z.leb_spec (r_length r) offset).
  - rewrite !recs_length_cons in *. unfold SIZE_MAX in *. rewrite u64_small by lia.
    destruct (IH (offset - r_length r)) as (r' & rs' & off' & E & F & O & L & L' & N & D); [lia|lia|].
    exists r', rs', off'. split; [done|]. split; [done|]. split; [done|].
    rewrite !recs_length_cons in *. split; [lia|]. split; [lia|]. split; [cbn in *; lia|].
    rewrite D, recs_bytes_cons, drop_app_Z; rewrite (rec_bytes_length s G k r Hr); done.
  - exists r, rs, offset. repeat split; try done; try lia. by apply Forall_cons.
Qed.

(** The end of the range. *)
Lemma end_record_ok s G k rs last count :
  Forall (rec_ok s G k) rs -> 0 < last <= recs_length rs -> recs_length rs <= SIZE_MAX ->
  exists c last', end_record rs last count = Ok ((count + c)%nat, last') /\
    (1 <= c <= length rs)%nat /\
    Forall (rec_ok s G k) (set_last_length last' (take c rs)) /\
    recs_bytes G (set_last_length last' (take c rs)) = take (Z.to_nat last) (recs_bytes G rs).
Proof.
  intros Hrs. revert last count. induction Hrs as [|r rs Hr Hrs IH]; intros last count Hl Hmax;
    [rewrite recs_length_nil in *; lia|].
  pose proof (rec_length_pos _ _ _ _ Hr). pose proof (recs_length_nonneg _ _ _ _ Hrs).
  cbn [end_record]. destruct (Z.leb_spec last (r_length r)).
  - exists 1%nat, last. split; [f_equal; f_equal; lia|]. split; [cbn; lia|].
    destruct Hr as (cb & ck & cd & A1 & A2 & A3 & A4 & A5 & A6 & A7).
    assert (Hr' : rec_ok s G k (RangeRecord (data_object r) (r_from r) last)).
    { exists cb, ck, cd. cbn. repeat split; try done; try lia; apply A4. }
    assert (Hlen : Z.of_nat (length (rec_bytes G r)) = r_length r).
    { apply (rec_bytes_length s G k). exists cb, ck, cd. done. }
    change (set_last_length last (take 1 (r :: rs))) with
      [RangeRecord (data_object r) (r_from r) last].
    split; [by apply Forall_cons|].
    rewrite (recs_bytes_cons G r rs). unfold recs_bytes at 1. cbn [map concat]. rewrite app_nil_r.
    rewrite take_app_le by lia. unfold rec_bytes. cbn [data_object r_from r_length].
    unfold slice. rewrite take_take. f_equal. lia.
  - rewrite recs_length_cons in Hl, Hmax. destruct rs as [|r2 rs2]; [rewrite recs_length_nil in *; lia|].
    unfold SIZE_MAX in *. rewrite u64_small by lia.
    destruct (IH (last - r_length r) (S count)) as (c & last' & E & C & F & B);
      [lia|lia|].
    exists (S c), last'. split; [rewrite E; f_equal; f_equal; lia|]. split; [cbn in *; lia|].
    destruct c as [|c]; [lia|].
    change (take (S (S c)) (r :: r2 :: rs2)) with (r :: take (S c) (r2 :: rs2)).
    assert (Hset : set_last_length last' (r :: take (S c) (r2 :: rs2)) =
      r :: set_last_length last' (take (S c) (r2 :: rs2))) by done.
    rewrite Hset. split; [by apply Forall_cons|].
    rewrite recs_bytes_cons, B, (recs_bytes_cons G r).
    pose proof (rec_bytes_length s G k r Hr). rewrite take_app_ge by lia. f_equal. f_equal. lia.
Qed.

(** ** Results *)

(** An operation that returns an object with the bytes [bs], all older objects
    keeping theirs. *)
Definition yields (s : dstate) (G : ghost) (out : res (dstate * Z)) (bs : list Z) : Prop :=
  exists s' p G' k, out = Ok (s', p) /\ wf s' G' /\ later s G s' G' /\ G' !! p = Some (bs, k).

Lemma ghost_empty s G : wf s G -> exists k, G !! dispatch_data_empty = Some ([], k).
Proof.
  intros Hwf. destruct (proj1 (wf_dom _ _ Hwf dispatch_data_empty)) as [[bs k] HG].
  { rewrite (wf_empty _ _ Hwf). eauto. }
  destruct (wf_obj _ _ Hwf _ _ _ _ (wf_empty _ _ Hwf) HG) as [Hs _].
  cbn [dd_size empty_data] in Hs. exists k. rewrite HG. f_equal. f_equal.
  apply nil_length_inv. lia.
Qed.

Lemma yields_empty s G : wf s G -> yields s G (Ok (s, dispatch_data_empty)) [].
Proof.
  intros Hwf. destruct (ghost_empty s G Hwf) as [k Hk].
  exists s, dispatch_data_empty, G, k. split; [done|]. split; [done|]. split; [apply later_refl|done].
Qed.

Lemma yields_retain s G p bs k :
  wf s G -> G !! p = Some (bs, k) -> yields s G (let! s := retain p s in Ok (s, p)) bs.
Proof.
  intros Hwf Hp. destruct (retain_ok s G p bs k Hwf Hp) as (s' & R & W & L). rewrite R.
  exists s', p, G, k. done.
Qed.

(** Logging does not touch objects. *)
Lemma wf_log s G e : wf s G -> wf (log e s) G /\ later s G (log e s) G.
Proof.
  intros [D N E O]. assert (Hl : later s G (log e s) G) by (split; [done|intros p dd Hp; exists dd; auto]).
  split; [|done]. by split.
Qed.

Lemma wf_destroy s G b n q d :
  wf s G -> wf (_dispatch_data_destroy_buffer b n q d s) G /\
            later s G (_dispatch_data_destroy_buffer b n q d s) G.
Proof. intros Hwf. destruct d; cbn; try (by apply wf_log). split; [done|apply later_refl]. Qed.

Section Ops.
Context (new_object : gmap Z dispatch_data_s -> Z).
Context (new_fresh : forall m, m !! new_object m = None /\ new_object m <> 0 /\
                               new_object m <> dispatch_data_empty).
Context (new_buffer : dstate -> Z -> option Z).

Lemma yields_alloc s G n extra dd bs k :
  wf s G -> 0 <= n -> 0 <= extra ->
  n * sizeof_range_record + sizeof_dispatch_data_s + extra <= SIZE_MAX ->
  data_ok s G dd bs k -> yields s G (alloc_with new_object n extra dd s) bs.
Proof.
  intros Hwf Hn He Hsz Hd.
  destruct (alloc_ok new_object new_fresh s G n extra dd bs k Hwf Hn He Hsz Hd)
    as (s' & p & A & W & L & _). exists s', p, (<[p := (bs, k)]> G), k.
  split; [done|]. split; [done|]. split; [done|]. apply lookup_insert_eq.
Qed.

(** A composite made of checked records, each then retained. *)
Lemma yields_composite s G n k rs :
  wf s G -> Forall (rec_ok s G k) rs -> rs <> [] -> n = Z.of_nat (length rs) ->
  n * sizeof_range_record + sizeof_dispatch_data_s <= SIZE_MAX -> recs_length rs <= SIZE_MAX ->
  yields s G (let! (s, data) := alloc_with new_object n 0 (composite (recs_length rs) rs) s in
              let! s := retain_all rs s in Ok (s, data)) (recs_bytes G rs).
Proof.
  intros Hwf Hrs Hne -> Hn Hmax. pose proof (recs_bytes_length s G k rs Hrs) as Hlen.
  assert (Hd : data_ok s G (composite (recs_length rs) rs) (recs_bytes G rs) k).
  { split; [done|]. split; [lia|]. cbn [dd_records composite]. destruct rs; [done|].
    split; [done|]. split; [done|]. split; [done|]. done. }
  destruct (alloc_ok new_object new_fresh s G (Z.of_nat (length rs)) 0 _ _ k Hwf ltac:(lia) ltac:(lia)
    ltac:(lia) Hd) as (s1 & p & A & W & L & _).
  rewrite A. cbn [rbind].
  destruct (retain_all_ok s1 _ k rs W) as (s2 & R2 & W2 & L2).
  { eapply Forall_impl; [exact Hrs|]. intros r. by apply rec_ok_later. }
  rewrite R2. cbn [rbind]. exists s2, p, (<[p := (recs_bytes G rs, k)]> G), k.
  split; [done|]. split; [done|]. split; [by eapply later_trans|]. apply lookup_insert_eq.
Qed.

(** ** Creation *)

Lemma leaf_ok s G q b size d :
  0 < size -> size <= Z.of_nat (length (buf_bytes b)) -> size <= SIZE_MAX ->
  data_ok s G (leaf_data q b size d) (take (Z.to_nat size) (buf_bytes b)) 0.
Proof.
  intros H0 Hl Hm. assert (Hlen : length (take (Z.to_nat size) (buf_bytes b)) = Z.to_nat size)
    by (rewrite length_take; lia).
  split; [cbn; lia|]. split; [lia|]. cbn [dd_records leaf_data]. right. exists b.
  split; [done|]. rewrite Hlen. split; [|done]. intros E. rewrite E in Hlen. cbn in Hlen. lia.
Qed.

Lemma create_ok s G b size q d :
  wf s G -> 0 <= size -> size <= Z.of_nat (length (buf_bytes b)) ->
  size + sizeof_dispatch_data_s <= SIZE_MAX ->
  (d = DISPATCH_DATA_DESTRUCTOR_DEFAULT -> exists a, new_buffer s size = Some a) ->
  yields s G (dispatch_data_create new_object new_buffer (Some b) size q d s)
    (take (Z.to_nat size) (buf_bytes b)).
Proof.
  intros Hwf H0 Hl Hm Hnb. unfold sizeof_dispatch_data_s in *.
  unfold dispatch_data_create. destruct (Z.eqb_spec size 0) as [->|Hs].
  { rewrite take_0. destruct (decide _); [by apply yields_empty|].
    destruct (wf_destroy s G (Some b) 0 q d Hwf) as [W L].
    destruct (ghost_empty _ _ W) as [k Hk]. eexists _, dispatch_data_empty, G, k. done. }
  assert (Hleaf : forall b' d', length (buf_bytes b') = length (buf_bytes b) \/ buf_bytes b' = take (Z.to_nat size) (buf_bytes b) ->
    take (Z.to_nat size) (buf_bytes b') = take (Z.to_nat size) (buf_bytes b) ->
    yields s G (alloc_with new_object 0 0 (leaf_data q b' size d') s) (take (Z.to_nat size) (buf_bytes b))).
  { intros b' d' Hlb Hb'. apply (yields_alloc s G 0 0 _ _ 0); [done..|]. rewrite <-Hb'. apply leaf_ok; try lia.
    destruct Hlb as [->| ->]; [lia|]. rewrite length_take. lia. }
  assert (Hcp : copy_bytes b size = Ok (take (Z.to_nat size) (buf_bytes b))).
  { unfold copy_bytes. by rewrite (proj2 (Z.ltb_ge _ _)) by lia. }
  destruct d; try (apply Hleaf; [by left|done]).
  - destruct Hnb as [a Ha]; [done|]. rewrite Ha, Hcp. cbn [rbind]. apply Hleaf; [by right|].
    cbn [buf_bytes]. rewrite take_take. f_equal. lia.
  - rewrite Hcp. cbn [rbind].
    unfold alloc_with, _dispatch_data_alloc, sizeof_dispatch_data_s, sizeof_range_record.
    rewrite !Z.gtb_ltb, (proj2 (Z.ltb_ge SIZE_MAX (64 + size))) by lia.
    rewrite (proj2 (Z.ltb_ge SIZE_MAX (0 * 24 + (64 + size)))) by lia. cbn [rbind].
    set (p := new_object (objs s)). set (dd := leaf_data _ _ _ _).
    destruct (alloc_ok new_object new_fresh s G 0 size dd (take (Z.to_nat size) (buf_bytes b)) 0)
      as (s' & p' & A & W & L & M & Hp & _); [done|done|done|unfold sizeof_dispatch_data_s; lia| |].
    { unfold dd. pose proof (leaf_ok s G q (Buffer (p + 64) (take (Z.to_nat size) (buf_bytes b))) size
        DISPATCH_DATA_DESTRUCTOR_NONE) as Hlf. cbn [buf_bytes] in Hlf.
      rewrite take_take, Nat.min_id in Hlf. apply Hlf; try lia. rewrite length_take. lia. }
    exists s', p', (<[p' := (take (Z.to_nat size) (buf_bytes b), 0%nat)]> G), 0%nat.
    split; [|split; [done|split; [done|apply lookup_insert_eq]]].
    unfold alloc_with, _dispatch_data_alloc in A. repeat case_match; try done.
    injection A as <- <-. subst z. fold p. f_equal. f_equal. unfold set_objs. cbn. f_equal.
    apply insert_insert_eq.
Qed.

(** ** Concatenation *)

(** The records an object contributes represent its bytes. *)
Lemma concat_records_ok s G p dd bs k :
  wf s G -> objs s !! p = Some dd -> G !! p = Some (bs, k) -> bs <> [] ->
  Forall (rec_ok s G (S k)) (concat_records p dd) /\ recs_bytes G (concat_records p dd) = bs /\
  concat_records p dd <> [] /\ recs_length (concat_records p dd) = dd_size dd /\
  _dispatch_data_num_records dd = Z.of_nat (length (concat_records p dd)).
Proof.
  intros Hwf Ho HG Hne. destruct (wf_obj _ _ Hwf _ _ _ _ Ho HG) as (H1 & H2 & H3).
  unfold concat_records, _dispatch_data_num_records. destruct (dd_records dd) as [|r rs] eqn:E.
  - destruct H3 as [|(b & Hb & _ & Hbs)]; [done|].
    assert (0 < length bs)%nat by (destruct bs; cbn; [done|lia]).
    split; [|split; [|split; [done|split; [cbn; lia|done]]]].
    + apply Forall_cons. split; [|done]. exists bs, k, dd. cbn. split; [done|]. split; [lia|].
      split; [done|]. split; [|lia]. split; [congruence|]. rewrite E. done.
    + unfold recs_bytes. cbn [map concat]. rewrite app_nil_r. unfold rec_bytes. cbn [r_from r_length data_object].
      rewrite (bytes_of_some G p bs k) by done. rewrite H1. apply slice_all.
  - destruct H3 as (A & B & C & D).
    split; [|split; [done|split; [done|split; [|done]]]].
    + eapply Forall_impl; [exact A|]. intros x (cb & ck & cd & X1 & X2 & X3). exists cb, ck, cd.
      split; [done|]. split; [lia|done].
    + rewrite H1, B. symmetry. by apply (recs_bytes_length s G k).
Qed.

Lemma rec_ok_mono s G k k' r : (k <= k')%nat -> rec_ok s G k r -> rec_ok s G k' r.
Proof.
  intros Hk (cb & ck & cd & X1 & X2 & X3). exists cb, ck, cd. split; [done|]. split; [lia|done].
Qed.

Lemma recs_length_app rs rs' : recs_length (rs ++ rs') = recs_length rs + recs_length rs'.
Proof.
  induction rs as [|r rs IH]; [done|]. change ((r :: rs) ++ rs') with (r :: (rs ++ rs')).
  rewrite !recs_length_cons, IH. lia.
Qed.

Lemma concat_ok s G p1 bs1 k1 p2 bs2 k2 d1 d2 :
  wf s G -> G !! p1 = Some (bs1, k1) -> G !! p2 = Some (bs2, k2) ->
  objs s !! p1 = Some d1 -> objs s !! p2 = Some d2 ->
  Z.of_nat (length bs1) + Z.of_nat (length bs2) <= SIZE_MAX ->
  (_dispatch_data_num_records d1 + _dispatch_data_num_records d2) * sizeof_range_record
    + sizeof_dispatch_data_s <= SIZE_MAX ->
  yields s G (dispatch_data_create_concat new_object p1 p2 s) (bs1 ++ bs2).
Proof.
  intros Hwf HG1 HG2 Ho1 Ho2 Hlen Hn.
  destruct (wf_obj _ _ Hwf _ _ _ _ Ho1 HG1) as (S1 & _).
  destruct (wf_obj _ _ Hwf _ _ _ _ Ho2 HG2) as (S2 & _).
  unfold dispatch_data_create_concat, get_data. rewrite Ho1. cbn [rbind].
  destruct (Z.eqb_spec (dd_size d1) 0) as [E1|E1].
  { rewrite (nil_length_inv bs1) by lia. by apply (yields_retain s G p2 bs2 k2). }
  rewrite Ho2. cbn [rbind]. destruct (Z.eqb_spec (dd_size d2) 0) as [E2|E2].
  { rewrite (nil_length_inv bs2), app_nil_r by lia. by apply (yields_retain s G p1 bs1 k1). }
  destruct (concat_records_ok s G p1 d1 bs1 k1) as (F1 & B1 & N1 & L1 & M1);
    [done|done|done|by intros ->|].
  destruct (concat_records_ok s G p2 d2 bs2 k2) as (F2 & B2 & N2 & L2 & M2);
    [done|done|done|by intros ->|].
  unfold sizeof_range_record, sizeof_dispatch_data_s in *.
  rewrite Z.gtb_ltb, (proj2 (Z.ltb_ge SIZE_MAX _)) by lia.
  unfold SIZE_MAX in *. rewrite u64_small by lia.
  rewrite <-L1, <-L2, <-recs_length_app, <-B1, <-B2, <-recs_bytes_app.
  apply (yields_composite s G _ (S (k1 + k2))); try done.
  - apply Forall_app. split; (eapply Forall_impl; [eassumption|]);
      intros r; apply rec_ok_mono; lia.
  - by destruct (concat_records p1 d1).
  - rewrite M1, M2, length_app. lia.
  - rewrite recs_length_app. unfold SIZE_MAX. lia.
Qed.

(** ** Subranges *)

Lemma rec_ok_advance s G k r off :
  rec_ok s G k r -> 0 <= off < r_length r -> r_from r + r_length r <= SIZE_MAX ->
  let r' := RangeRecord (data_object r) (u64 (r_from r + off)) (u64 (r_length r - off)) in
  rec_ok s G k r' /\ rec_bytes G r' = drop (Z.to_nat off) (rec_bytes G r).
Proof.
  intros (cb & ck & cd & A1 & A2 & A3 & A4 & A5 & A6 & A7) Hoff Hm r'. unfold SIZE_MAX in *.
  unfold r'. rewrite !u64_small by lia. split.
  - exists cb, ck, cd. cbn. repeat split; try done; try lia; apply A4.
  - unfold rec_bytes. cbn [r_from r_length data_object]. unfold slice.
    rewrite skipn_firstn_comm, drop_drop. f_equal; [|f_equal]; lia.
Qed.

Lemma rec_bound s G k r : wf s G -> rec_ok s G k r -> r_from r + r_length r <= SIZE_MAX.
Proof.
  intros Hwf (cb & ck & cd & A1 & A2 & A3 & A4 & A5 & A6 & A7).
  destruct (wf_obj _ _ Hwf _ _ _ _ A3 A1) as (_ & H & _). lia.
Qed.

(** The records of a proper subrange that crosses a record boundary. *)
Lemma subrange_records s G k r rs off last last' c :
  wf s G -> Forall (rec_ok s G k) (r :: rs) -> 0 <= off < r_length r -> (1 <= c)%nat ->
  Forall (rec_ok s G k) (set_last_length last' (take c rs)) ->
  recs_bytes G (set_last_length last' (take c rs)) = take (Z.to_nat last) (recs_bytes G rs) ->
  (c <= length rs)%nat -> 0 < last ->
  let recs := take (S c) (r :: rs) in
  let recs := if off =? 0 then recs else advance_first off recs in
  let recs := set_last_length last' recs in
  Forall (rec_ok s G k) recs /\
  recs_bytes G recs = slice off (r_length r - off + last) (recs_bytes G (r :: rs)) /\
  length recs = S c.
Proof.
  intros Hwf Hrs Hoff Hc Hlast Hbytes Hcl Hl0. apply Forall_cons in Hrs as [Hr Hrs].
  pose proof (rec_bytes_length s G k r Hr) as Hlen.
  assert (Hsl : forall l, length (set_last_length last' l) = length l).
  { induction l as [|x [|y l] IH]; cbn in *; lia. }
  assert (Hcons : forall x, set_last_length last' (x :: take c rs) = x :: set_last_length last' (take c rs)).
  { intros x. destruct (take c rs) eqn:E; [|done]. apply (f_equal length) in E.
    rewrite length_take in E. cbn in E. lia. }
  assert (Hres : exists r', rec_ok s G k r' /\ rec_bytes G r' = drop (Z.to_nat off) (rec_bytes G r) /\
    (if off =? 0 then r :: take c rs else advance_first off (r :: take c rs)) = r' :: take c rs).
  { destruct (Z.eqb_spec off 0) as [->|Hne]; [exists r; by rewrite drop_0|].
    eexists. destruct (rec_ok_advance s G k r off) as [R1 R2]; [done|lia|by eapply rec_bound|].
    split; [exact R1|]. split; [exact R2|]. done. }
  destruct Hres as (r' & R1 & R2 & R3). cbn zeta.
  change (take (S c) (r :: rs)) with (r :: take c rs). rewrite R3, Hcons. split; [|split].
  - by apply Forall_cons.
  - rewrite !recs_bytes_cons, R2, Hbytes. unfold slice.
    rewrite drop_app_le by lia. rewrite take_app_ge by (rewrite length_drop; lia).
    f_equal. f_equal. rewrite length_drop. lia.
  - cbn [length]. rewrite Hsl, length_take. lia.
Qed.

Lemma advance_all s G k r rs off :
  wf s G -> Forall (rec_ok s G k) (r :: rs) -> 0 <= off < r_length r ->
  let recs := if off =? 0 then r :: rs else advance_first off (r :: rs) in
  Forall (rec_ok s G k) recs /\ recs_bytes G recs = drop (Z.to_nat off) (recs_bytes G (r :: rs)) /\
  length recs = length (r :: rs).
Proof.
  intros Hwf Hrs Hoff recs. apply Forall_cons in Hrs as [Hr Hrs].
  pose proof (rec_bytes_length s G k r Hr) as Hlen. unfold recs.
  destruct (Z.eqb_spec off 0) as [->|Hne]; [rewrite drop_0; split; [by apply Forall_cons|done]|].
  destruct (rec_ok_advance s G k r off) as [R1 R2]; [done|lia|by eapply rec_bound|].
  cbn [advance_first]. split; [by apply Forall_cons|]. split; [|done].
  rewrite !recs_bytes_cons, R2. by rewrite drop_app_le by lia.
Qed.

Lemma slice_rest off len (l : list Z) :
  0 <= off -> Z.of_nat (length l) - off <= len -> slice off len l = drop (Z.to_nat off) l.
Proof. intros. unfold slice. rewrite take_ge; [done|]. rewrite length_drop. lia. Qed.

Lemma slice_clamp off len (l : list Z) :
  0 <= off -> slice off len l =
    slice off (if len >? Z.of_nat (length l) - off then Z.of_nat (length l) - off else len) l.
Proof.
  intros. rewrite Z.gtb_ltb. destruct (Z.ltb_spec (Z.of_nat (length l) - off) len); [|done].
  rewrite !slice_rest; try done; lia.
Qed.

Lemma slice_drop_eq off off' len (l l' : list Z) :
  drop (Z.to_nat off) l = drop (Z.to_nat off') l' -> slice off len l = slice off' len l'.
Proof. intros H. unfold slice. by rewrite H. Qed.

(** A subrange inside one directly readable object. *)
Lemma yields_single s G p bs k dd offset n :
  wf s G -> G !! p = Some (bs, k) -> objs s !! p = Some dd -> direct dd ->
  0 <= offset -> 0 < n -> offset + n <= Z.of_nat (length bs) ->
  yields s G (let! (s, data) := alloc_with new_object 1 0 (composite n [RangeRecord p offset n]) s in
              let! s := retain p s in Ok (s, data)) (slice offset n bs).
Proof.
  intros Hwf HG Ho Hdir H0 Hn Hle.
  destruct (wf_obj _ _ Hwf _ _ _ _ Ho HG) as (S1 & S2 & _).
  pose proof (yields_composite s G 1 (S k) [RangeRecord p offset n] Hwf) as Hy.
  assert (Hb : recs_bytes G [RangeRecord p offset n] = slice offset n bs).
  { unfold recs_bytes, rec_bytes. cbn [map concat data_object r_from r_length].
    rewrite app_nil_r. by rewrite (bytes_of_some G p bs k). }
  rewrite Hb in Hy. cbn [retain_all data_object] in Hy.
  assert (Hl : recs_length [RangeRecord p offset n] = n) by (cbn; lia). rewrite Hl in Hy.
  replace (let! (s, data) := alloc_with new_object 1 0 (composite n [RangeRecord p offset n]) s in
           let! s := retain p s in Ok (s, data)) with
    (let! (s, data) := alloc_with new_object 1 0 (composite n [RangeRecord p offset n]) s in
     let! s := (let! s := retain p s in Ok s) in Ok (s, data)).
  - apply Hy; try done; [|lia]. apply Forall_cons. split; [|done]. exists bs, k, dd. cbn.
    split; [done|]. split; [lia|]. split; [done|]. split; [done|]. lia.
  - destruct (alloc_with _ _ _ _ _) as [[s1 q]|]; [|done]. cbn [rbind].
    by destruct (retain p s1).
Qed.

(** The composite case, once the records are found. *)
Lemma subrange_recs s G k n recs :
  wf s G -> Forall (rec_ok s G k) recs -> recs <> [] ->
  Z.of_nat (length recs) * sizeof_range_record + sizeof_dispatch_data_s <= SIZE_MAX ->
  Z.of_nat (length (recs_bytes G recs)) = n -> n <= SIZE_MAX ->
  yields s G (let! (s, data) := alloc_with new_object (Z.of_nat (length recs)) 0 (composite n recs) s in
              let! s := retain_all recs s in Ok (s, data)) (recs_bytes G recs).
Proof.
  intros Hwf Hr Hne Hsz Hlen Hn. rewrite (recs_bytes_length s G k) in Hlen by done.
  rewrite <-Hlen. apply (yields_composite s G _ k); try done. lia.
Qed.

Lemma length_slice off n (l : list Z) :
  0 <= off -> 0 <= n -> off + n <= Z.of_nat (length l) -> Z.of_nat (length (slice off n l)) = n.
Proof. intros. unfold slice. rewrite length_take, length_drop. lia. Qed.

Lemma subrange_ok fuel p offset len s G bs k :
  wf s G -> G !! p = Some (bs, k) -> (k < fuel)%nat -> 0 <= offset -> 0 <= len ->
  yields s G (dispatch_data_create_subrange new_object fuel p offset len s) (slice offset len bs).
Proof.
  revert p offset len bs k. induction fuel as [|fuel IH]; [lia|].
  intros p offset len bs k Hwf HG Hk H0 Hl0. cbn [dispatch_data_create_subrange].
  destruct (get_data_ok s G p bs k Hwf HG) as (dd & Hgd & Ho & Hd). rewrite Hgd. cbn [rbind].
  pose proof Hd as (S1 & S2 & S3). rewrite S1. rewrite Z.geb_leb.
  destruct (Z.leb_spec (Z.of_nat (length bs)) offset) as [Hoff|Hoff]; cbn [orb].
  { unfold slice. rewrite drop_ge by lia. rewrite take_nil. by apply yields_empty. }
  destruct (Z.eqb_spec len 0) as [->|Hlen]; [by apply yields_empty|].
  destruct (negb (len >? Z.of_nat (length bs) - offset) && (len =? Z.of_nat (length bs))) eqn:Efull.
  { apply andb_true_iff in Efull as [E1 E2]. apply Z.eqb_eq in E2. subst len.
    rewrite Z.gtb_ltb in E1. apply negb_true_iff, Z.ltb_ge in E1.
    replace offset with 0 by lia. rewrite slice_all. by apply (yields_retain s G p bs k). }
  rewrite (slice_clamp offset len) by done.
  set (n := if len >? _ then _ else len).
  assert (Hn : 0 < n <= Z.of_nat (length bs) - offset).
  { unfold n. rewrite Z.gtb_ltb. destruct (Z.ltb_spec (Z.of_nat (length bs) - offset) len); lia. }
  clearbody n. destruct (dd_records dd) as [|r0 rs0] eqn:Erecs.
  { destruct S3 as [->|(b & Hb & Hne & Hbs)]; [cbn in *; lia|].
    apply (yields_single s G p bs k dd); try done; [|lia|lia].
    split; [congruence|]. by rewrite Erecs. }
  destruct S3 as (A & B & C & D). rewrite u64_small by (unfold SIZE_MAX in *; lia).
  pose proof (recs_bytes_length s G k _ A) as HL. rewrite <-B in HL.
  destruct (skip_records_ok s G k (r0 :: rs0) offset) as (r & rs & off & E & F & O & L & L' & N & Dr);
    [done|lia|lia|]. rewrite E. clear E. rewrite <-B in Dr.
  pose proof (proj1 (proj1 (Forall_cons _ _ _) F)) as Hr.
  pose proof (rec_bound s G k r Hwf Hr) as Hrb. pose proof (recs_length_nonneg s G k rs (proj2 (proj1 (Forall_cons _ _ _) F))).
  rewrite !recs_length_cons in *. pose proof Hr as (cb & ck & cd & A1 & A2 & A3 & A4 & A5 & A6 & A7).
  rewrite (slice_drop_eq offset off n bs (recs_bytes G (r :: rs))) by done.
  rewrite (u64_small (off + n)) by (unfold SIZE_MAX in *; lia).
  destruct (Z.leb_spec (off + n) (r_length r)) as [Hin|Hout].
  - (* inside one record *)
    rewrite u64_small by (unfold SIZE_MAX in *; lia).
    replace (slice off n (recs_bytes G (r :: rs))) with (slice (r_from r + off) n cb).
    + apply (IH (data_object r) _ _ cb ck); try done; try lia.
    + rewrite recs_bytes_cons. unfold slice at 2.
      pose proof (rec_bytes_length s G k r Hr).
      rewrite drop_app_le by lia. rewrite take_app_le by (rewrite length_drop; lia).
      change (slice (r_from r + off) n cb = slice off n (rec_bytes G r)). unfold rec_bytes.
      rewrite (bytes_of_some G _ cb ck) by done. rewrite slice_slice; try done; lia.
  - destruct (Z.eqb_spec (offset + n) (Z.of_nat (length bs))) as [Eend|Eend]; cbn [rbind].
    + destruct (advance_all s G k r rs off Hwf F O) as (R1 & R2 & R3).
      rewrite (take_ge (r :: rs)) by done. set (recs := if off =? 0 then _ else _) in *.
      rewrite slice_rest by (rewrite ?(recs_bytes_length s G k), ?recs_length_cons; done || lia).
      rewrite <-R2, <-R3. apply (subrange_recs s G k); try done.
      * intros E0. by rewrite E0 in R3.
      * rewrite R3. unfold sizeof_range_record, sizeof_dispatch_data_s in *. cbn [length] in *. lia.
      * rewrite R2, length_drop.
        pose proof (recs_bytes_length s G k (r :: rs) F) as Hbl. rewrite recs_length_cons in Hbl. lia.
      * lia.
    + rewrite u64_small by (unfold SIZE_MAX in *; lia).
      set (last := n - (r_length r - off)) in *.
      destruct (end_record_ok s G k rs last 1 (proj2 (proj1 (Forall_cons _ _ _) F)))
        as (c & last' & E & Hc & Hf & Hb); [unfold last; lia|unfold SIZE_MAX in *; lia|].
      rewrite E. cbn [rbind]. change (1 + c)%nat with (S c).
      destruct (subrange_records s G k r rs off last last' c Hwf F O ltac:(lia) Hf Hb ltac:(lia)
        ltac:(unfold last; lia)) as (R1 & R2 & R3).
      set (recs := set_last_length last' (if off =? 0 then take (S c) (r :: rs)
        else advance_first off (take (S c) (r :: rs)))) in *.
      replace (r_length r - off + last) with n in R2 by (unfold last; lia).
      clearbody recs. rewrite <-R2, <-R3. apply (subrange_recs s G k); try done.
      * intros E0. by rewrite E0 in R3.
      * rewrite R3. unfold sizeof_range_record, sizeof_dispatch_data_s in *. cbn [length] in *. lia.
      * rewrite R2. apply length_slice; try lia. rewrite (recs_bytes_length s G k) by done.
        rewrite recs_length_cons. lia.
      * lia.
Qed.

End Ops.
