(* ===== verification/DataVisit.v ===== *)
(** * DataVisit: reading a data object

    Visiting, flattening, mapping and region lookup. *)

From S2P Require Import Prelude DispatchData DataSpec DataOps.

(** A directly readable object holds its bytes at the front of its buffer. *)
Lemma direct_buf s G dd bs k :
  data_ok s G dd bs k -> bs <> [] -> direct dd ->
  exists b, dd_buf dd = Some b /\ take (length bs) (buf_bytes b) = bs.
Proof.
  intros (S1 & S2 & S3) Hne [Hb H1]. destruct (dd_records dd) as [|r [|r2 rs]] eqn:E.
  - destruct S3 as [|(b & ? & _ & ?)]; [done|eauto].
  - by cbn in H1.
  - destruct (dd_buf dd) as [b|]; [|done]. exists b. split; [done|].
    destruct S3 as (_ & _ & _ & D). destruct (D b eq_refl) as [-> _]. by rewrite take_ge.
Qed.

(** What reading directly gives: all bytes from [off] on, as a range of an
    object that can be read directly; or nothing, for a composite of several
    records that has not been flattened. *)
Definition mapped (s : dstate) (G : ghost) (p off : Z) (bs : list Z) (k : nat)
    (out : res (option (list Z) * Z * Z)) : Prop :=
  exists l p' off' bs' k' dd', out = Ok (Some l, p', off') /\
    take (length bs - Z.to_nat off) l = drop (Z.to_nat off) bs /\
    G !! p' = Some (bs', k') /\ objs s !! p' = Some dd' /\ direct dd' /\ 0 <= off' /\
    off' + (Z.of_nat (length bs) - off) <= Z.of_nat (length bs') /\
    slice off' (Z.of_nat (length bs) - off) bs' = drop (Z.to_nat off) bs.

Lemma take_drop_pre (l bs : list Z) (n : nat) :
  take (length bs) l = bs -> take (length bs - n) (drop n l) = drop n bs.
Proof. intros H. rewrite <-H at 2. by rewrite skipn_firstn_comm. Qed.

Lemma map_direct_cases s G p off bs k dd :
  wf s G -> G !! p = Some (bs, k) -> objs s !! p = Some dd -> 0 <= off < Z.of_nat (length bs) ->
  mapped s G p off bs k (_dispatch_data_map_direct p off s) /\
    ((length (dd_records dd) < 2)%nat \/ dd_buf dd <> None) \/
  (2 <= length (dd_records dd))%nat /\ dd_buf dd = None /\
    _dispatch_data_map_direct p off s = Ok (None, p, off).
Proof.
  intros Hwf HG Ho Hoff. pose proof (wf_obj _ _ Hwf _ _ _ _ Ho HG) as Hd.
  pose proof Hd as (S1 & S2 & S3).
  unfold _dispatch_data_map_direct, get_data. rewrite Ho. cbn [rbind].
  rewrite S1, (proj2 (Z.eqb_neq _ 0)) by lia. cbn [negb c_assert rbind].
  assert (Hself : direct dd -> forall b, dd_buf dd = Some b -> take (length bs) (buf_bytes b) = bs ->
    mapped s G p off bs k (Ok (Some (drop (Z.to_nat off) (buf_bytes b)), p, off))).
  { intros Hdir b Hb Ht. eexists _, p, off, bs, k, dd. split; [done|]. split; [by apply take_drop_pre|].
    split; [done|]. split; [done|]. split; [done|]. split; [lia|]. split; [lia|].
    apply slice_rest; lia. }
  destruct (dd_records dd) as [|r [|r2 rs]] eqn:E; cbn [rbind].
  - left. split; [|left; cbn; lia]. destruct S3 as [->|(b & Hb & Hne & Hbs)]; [cbn in Hoff; lia|].
    rewrite Hb. apply Hself; [|done|done]. split; [congruence|by rewrite E].
  - left. split; [|left; cbn; lia]. destruct S3 as (A & B & C & D).
    apply Forall_cons in A as [Hr _]. pose proof (rec_bound s G k r Hwf Hr) as Hbd.
    destruct Hr as (cb & ck & cd & A1 & A2 & A3 & A4 & A5 & A6 & A7).
    assert (Hbs : bs = slice (r_from r) (r_length r) cb).
    { rewrite B. unfold recs_bytes, rec_bytes. cbn [map concat]. rewrite app_nil_r.
      by rewrite (bytes_of_some G _ cb ck). }
    assert (Hlen : Z.of_nat (length bs) = r_length r) by (rewrite Hbs; apply length_slice; lia).
    rewrite A3. cbn [rbind]. rewrite u64_small by (unfold SIZE_MAX in *; lia).
    destruct (direct_buf s G cd cb ck) as (b & Hb & Hcb); [by eapply wf_obj|by destruct cb; [cbn in *; lia|]|done|].
    rewrite Hb. eexists _, (data_object r), (off + r_from r), cb, ck, cd.
    split; [done|]. split; [|split; [done|split; [done|split; [done|split; [lia|split; [lia|]]]]]].
    + rewrite Hbs at 2. rewrite <-Hcb. unfold slice. rewrite !skipn_firstn_comm, !take_take, !drop_drop.
      f_equal; [|f_equal]; lia.
    + rewrite Hbs at 2. unfold slice. rewrite skipn_firstn_comm, drop_drop. f_equal; [|f_equal]; lia.
  - destruct (dd_buf dd) as [b|] eqn:Eb.
    + left. split; [|by right]. destruct S3 as (_ & _ & _ & D). destruct (D b eq_refl) as [Hb _].
      apply Hself; [|done|by rewrite Hb, take_ge]. split; [congruence|by rewrite E].
    + right. split; [cbn; lia|]. split; [done|]. unfold _dispatch_data_leaf. by rewrite E.
Qed.

(** ** Visiting *)

(** The regions in order: the object itself, or the ranges of its records. *)
Definition regions (G : ghost) (p : Z) (dd : dispatch_data_s) (bs : list Z) : list (Z * list Z) :=
  match dd_records dd, dd_buf dd with
  | _ :: _ :: _, None => map (fun r => (data_object r, rec_bytes G r)) (dd_records dd)
  | _, _ => [(p, bs)]
  end.

Fixpoint run_regions {C} (applier : C -> Z -> Z -> list Z -> C * bool) (ctxt : C) (offset : Z)
    (rs : list (Z * list Z)) : C * bool :=
  match rs with
  | [] => (ctxt, true)
  | (q, b) :: rs =>
      let '(ctxt, result) := applier ctxt q offset b in
      if result then run_regions applier ctxt (offset + Z.of_nat (length b)) rs else (ctxt, false)
  end.

Lemma regions_concat s G p dd bs k :
  data_ok s G dd bs k -> concat (map snd (regions G p dd bs)) = bs.
Proof.
  intros (_ & _ & S3). unfold regions. destruct (dd_records dd) as [|r [|r2 rs]] eqn:E;
    try (cbn; by rewrite app_nil_r).
  destruct (dd_buf dd); [cbn; by rewrite app_nil_r|]. destruct S3 as (_ & -> & _).
  rewrite map_map. done.
Qed.

Section Visit.
Context {C : Type} (applier : C -> Z -> Z -> list Z -> C * bool).

Lemma apply_child fuel s G k r offset ctxt :
  wf s G -> rec_ok s G k r ->
  _dispatch_data_apply applier (S fuel) s (data_object r) offset (r_from r) (r_length r) ctxt =
    Ok (applier ctxt (data_object r) offset (rec_bytes G r)).
Proof.
  intros Hwf Hr. pose proof (rec_bytes_length s G k r Hr) as Hlen.
  destruct Hr as (cb & ck & cd & A1 & A2 & A3 & A4 & A5 & A6 & A7).
  assert (Hne : cb <> []) by (destruct cb; [cbn in *; lia|done]).
  destruct (direct_buf s G cd cb ck) as (b & Hb & Hcb); [by eapply wf_obj|done|done|].
  pose proof (wf_obj _ _ Hwf _ _ _ _ A3 A1) as (S1 & _).
  assert (Hmd : _dispatch_data_map_direct (data_object r) 0 s = Ok (Some (buf_bytes b), data_object r, 0)).
  { unfold _dispatch_data_map_direct, get_data. rewrite A3. cbn [rbind].
    rewrite S1, (proj2 (Z.eqb_neq _ 0)) by (destruct cb; [done|cbn; lia]). cbn [negb c_assert rbind].
    destruct A4 as [_ A4]. destruct (dd_records cd) as [|x [|y l]]; [|by cbn in A4|];
      cbn [rbind]; by rewrite Hb. }
  cbn [_dispatch_data_apply]. rewrite Hmd. cbn [rbind]. unfold _dispatch_data_apply_client_callout.
  assert (Hbl : (length cb <= length (buf_bytes b))%nat).
  { rewrite <-Hcb, length_take. lia. }
  rewrite (proj2 (Z.ltb_ge _ _)) by (rewrite length_drop; lia). f_equal. f_equal.
  unfold rec_bytes, slice. rewrite (bytes_of_some G _ cb ck) by done. rewrite <-Hcb.
  rewrite skipn_firstn_comm, take_take. f_equal. lia.
Qed.

Lemma apply_records_ok fuel s G k rs offset ctxt :
  wf s G -> Forall (rec_ok s G k) rs -> 0 <= offset -> offset + recs_length rs <= SIZE_MAX ->
  apply_records (_dispatch_data_apply applier (S fuel) s) rs offset ctxt =
    Ok (run_regions applier ctxt offset (map (fun r => (data_object r, rec_bytes G r)) rs)).
Proof.
  intros Hwf Hrs. revert offset ctxt. induction Hrs as [|r rs Hr Hrs IH]; intros offset ctxt H0 Hm; [done|].
  cbn [apply_records map run_regions]. rewrite (apply_child fuel s G k) by done. cbn [rbind].
  destruct (applier ctxt _ _ _) as [ctxt' result]. destruct result; [|done].
  rewrite recs_length_cons in Hm. pose proof (recs_length_nonneg s G k rs Hrs).
  pose proof (rec_length_pos s G k r Hr).
  rewrite u64_small by (unfold SIZE_MAX in *; lia). rewrite (rec_bytes_length s G k) by done.
  apply IH; lia.
Qed.

Lemma apply_ok fuel p ctxt s G dd bs k :
  wf s G -> G !! p = Some (bs, k) -> objs s !! p = Some dd -> bs <> [] ->
  dispatch_data_apply applier (S (S fuel)) p ctxt s =
    Ok (run_regions applier ctxt 0 (regions G p dd bs)).
Proof.
  intros Hwf HG Ho Hne. pose proof (wf_obj _ _ Hwf _ _ _ _ Ho HG) as (S1 & S2 & S3).
  assert (Hpos : 0 < Z.of_nat (length bs)) by (destruct bs; [done|cbn; lia]).
  unfold dispatch_data_apply. unfold get_data at 1. rewrite Ho. cbn [rbind].
  rewrite S1, (proj2 (Z.eqb_neq _ 0)) by lia.
  change (_dispatch_data_apply applier (S (S fuel)) s p 0 0 (Z.of_nat (length bs)) ctxt) with
    (let! (buf, _, _) := _dispatch_data_map_direct p 0 s in
      match buf with
      | Some b => _dispatch_data_apply_client_callout applier ctxt p 0 (drop (Z.to_nat 0) b) (Z.of_nat (length bs))
      | None => let! dd := get_data p s in
          apply_records (_dispatch_data_apply applier (S fuel) s) (dd_records dd) 0 ctxt
      end).
  destruct (map_direct_cases s G p 0 bs k dd Hwf HG Ho ltac:(lia)) as [[Hm Hcase]|(H2 & Hb & Hm)].
  - destruct Hm as (l & p' & off' & bs' & k' & dd' & -> & Ht & _). cbn [rbind].
    change (Z.to_nat 0) with 0%nat in *. rewrite !drop_0, Nat.sub_0_r in *.
    unfold _dispatch_data_apply_client_callout.
    assert (length bs <= length l)%nat by (rewrite <-Ht, length_take; lia).
    rewrite (proj2 (Z.ltb_ge _ _)) by lia. rewrite Nat2Z.id, Ht.
    assert (Hreg : regions G p dd bs = [(p, bs)]).
    { unfold regions. destruct (dd_records dd) as [|r [|r2 rs]]; try done.
      destruct (dd_buf dd); [done|]. destruct Hcase as [Hc|?]; [cbn in Hc; lia|done]. }
    rewrite Hreg. cbn [run_regions]. by destruct (applier ctxt p 0 bs) as [? [|]].
  - rewrite Hm. cbn [rbind]. unfold get_data. rewrite Ho. cbn [rbind].
    assert (Hreg : regions G p dd bs = map (fun r => (data_object r, rec_bytes G r)) (dd_records dd)).
    { unfold regions. rewrite Hb. destruct (dd_records dd) as [|r [|r2 rs]]; cbn in H2; try lia. done. }
    rewrite Hreg. destruct (dd_records dd) as [|r rs]; [cbn in H2; lia|]. destruct S3 as (A & B & _).
    apply (apply_records_ok fuel s G k); try done. rewrite <-(recs_bytes_length s G k), <-B by done. lia.
Qed.
End Visit.

(** ** Flattening *)

Lemma run_flatten rs acc :
  run_regions flatten_step (Ok acc) (Z.of_nat (length acc)) rs = (Ok (acc ++ concat (map snd rs)), true).
Proof.
  revert acc. induction rs as [|[q b] rs IH]; intros acc; cbn [run_regions map concat snd].
  { by rewrite app_nil_r. }
  unfold flatten_step at 1. cbn [rbind]. rewrite Z.eqb_refl.
  replace (Z.of_nat (length acc) + Z.of_nat (length b)) with (Z.of_nat (length (acc ++ b)))
    by (rewrite length_app; lia).
  rewrite IH. by rewrite app_assoc.
Qed.

Section Map.
Context (new_object : gmap Z dispatch_data_s -> Z).
Context (new_fresh : forall m, m !! new_object m = None /\ new_object m <> 0 /\
                               new_object m <> dispatch_data_empty).
Context (new_buffer : dstate -> Z -> option Z).

Lemma flatten_ok fuel p s G dd bs k :
  wf s G -> G !! p = Some (bs, k) -> objs s !! p = Some dd -> bs <> [] ->
  _dispatch_data_flatten new_buffer (S (S fuel)) p s =
    Ok (match new_buffer s (dd_size dd) with Some a => Some (Buffer a bs) | None => None end).
Proof.
  intros Hwf HG Ho Hne. unfold _dispatch_data_flatten. unfold get_data at 1. rewrite Ho. cbn [rbind].
  destruct (new_buffer s (dd_size dd)) as [a|]; [|done].
  rewrite (apply_ok flatten_step fuel p (Ok []) s G dd bs k) by done. cbn [rbind].
  change 0 with (Z.of_nat (length (@nil Z))). rewrite run_flatten. cbn [rbind].
  by rewrite (regions_concat s G p dd bs k) by (by eapply wf_obj).
Qed.

Lemma create_map_ok fuel p s G bs k :
  wf s G -> G !! p = Some (bs, k) -> bs <> [] ->
  Z.of_nat (length bs) + sizeof_dispatch_data_s <= SIZE_MAX ->
  (forall n, exists a, new_buffer s n = Some a) ->
  exists s' q G' k' l, dispatch_data_create_map new_object new_buffer (S (S fuel)) p s =
      Ok (s', q, Some l, Z.of_nat (length bs)) /\
    take (length bs) l = bs /\ wf s' G' /\ later s G s' G' /\ G' !! q = Some (bs, k').
Proof.
  intros Hwf HG Hne Hsz Hnb. destruct (get_data_ok s G p bs k Hwf HG) as (dd & Hgd & Ho & Hd).
  pose proof Hd as (S1 & S2 & S3).
  assert (Hpos : 0 < Z.of_nat (length bs)) by (destruct bs; [done|cbn; lia]).
  unfold dispatch_data_create_map. rewrite Hgd. cbn [rbind].
  rewrite S1, (proj2 (Z.eqb_neq _ 0)) by lia.
  destruct (map_direct_cases s G p 0 bs k dd Hwf HG Ho ltac:(lia)) as [[Hm _]|(H2 & Hb & Hm)].
  - destruct Hm as (l & p' & off' & bs' & k' & dd' & -> & Ht & _). cbn [rbind].
    destruct (retain_ok s G p bs k Hwf HG) as (s' & R & W & L). rewrite R. cbn [rbind].
    change (Z.to_nat 0) with 0%nat in Ht. rewrite drop_0, Nat.sub_0_r in Ht.
    exists s', p, G, k, l. done.
  - rewrite Hm. cbn [rbind]. rewrite (flatten_ok fuel p s G dd bs k) by done. cbn [rbind].
    destruct (Hnb (dd_size dd)) as [a Ha]. rewrite Ha.
    pose proof (create_ok new_object new_fresh new_buffer s G (Buffer a bs) (Z.of_nat (length bs)) None
      DISPATCH_DATA_DESTRUCTOR_FREE Hwf) as Hc.
    destruct Hc as (s' & q & G' & k' & Hc & W & L & HG'); [lia|cbn; lia|done|done|].
    rewrite Hc. cbn [rbind buf_bytes]. exists s', q, G', k', bs. split; [done|].
    split; [by rewrite take_ge|]. split; [done|]. split; [done|]. rewrite HG'. cbn [buf_bytes].
    rewrite Nat2Z.id. by rewrite take_ge.
Qed.

(** Installing the flattened copy leaves every object's bytes as they were. *)
Lemma flattened_ok fuel p s G bs k :
  wf s G -> G !! p = Some (bs, k) -> bs <> [] ->
  (forall n, exists a, new_buffer s n = Some a) ->
  exists s' l, dispatch_data_get_flattened_bytes_4libxpc new_buffer (S (S fuel)) p s = Ok (s', Some l) /\
    take (length bs) l = bs /\ wf s' G /\ later s G s' G /\
    (exists l', dispatch_data_get_flattened_bytes_4libxpc new_buffer (S (S fuel)) p s' = Ok (s', Some l') /\
       take (length bs) l' = bs).
Proof.
  intros Hwf HG Hne Hnb. destruct (get_data_ok s G p bs k Hwf HG) as (dd & Hgd & Ho & Hd).
  pose proof Hd as (S1 & S2 & S3).
  assert (Hpos : 0 < Z.of_nat (length bs)) by (destruct bs; [done|cbn; lia]).
  assert (Hdirect : forall s1 dd1, wf s1 G -> objs s1 !! p = Some dd1 -> mapped s1 G p 0 bs k (_dispatch_data_map_direct p 0 s1) ->
    exists l, dispatch_data_get_flattened_bytes_4libxpc new_buffer (S (S fuel)) p s1 = Ok (s1, Some l) /\
      take (length bs) l = bs).
  { intros s1 dd1 W1 Ho1 (l & p' & off' & bs' & k' & dd' & Hm & Ht & _).
    unfold dispatch_data_get_flattened_bytes_4libxpc, get_data. rewrite Ho1. cbn [rbind].
    destruct (wf_obj _ _ W1 _ _ _ _ Ho1 HG) as (S1' & _).
    rewrite S1', (proj2 (Z.eqb_neq _ 0)) by lia. rewrite Hm. cbn [rbind]. exists l. split; [done|].
    change (Z.to_nat 0) with 0%nat in Ht. by rewrite drop_0, Nat.sub_0_r in Ht. }
  destruct (map_direct_cases s G p 0 bs k dd Hwf HG Ho ltac:(lia)) as [[Hm _]|(H2 & Hb & Hm)].
  - destruct (Hdirect s dd Hwf Ho Hm) as (l & Hl & Ht). exists s, l. split; [done|]. split; [done|].
    split; [done|]. split; [apply later_refl|]. eauto.
  - destruct (Hnb (dd_size dd)) as [a Ha]. set (dd1 := with_buf (Some (Buffer a bs)) dd).
    set (s1 := set_objs (insert p dd1) s).
    assert (Hl1 : later s G s1 G).
    { split; [done|]. intros q d Hq. cbn. destruct (decide (q = p)) as [->|].
      - rewrite lookup_insert_eq. rewrite Ho in Hq. injection Hq as <-. eexists. split; [done|]. cbn. auto.
      - rewrite lookup_insert_ne by congruence. eauto 10. }
    assert (W1 : wf s1 G).
    { destruct Hwf as [D N E O]. split.
      - intros q. cbn. destruct (decide (q = p)) as [->|]; [rewrite lookup_insert_eq, HG; split; eauto|].
        rewrite lookup_insert_ne by congruence. apply D.
      - cbn. rewrite lookup_insert_ne; [done|]. congruence.
      - cbn. rewrite lookup_insert_ne; [done|]. intros ->. rewrite E in Ho. injection Ho as <-.
        cbn in H2. lia.
      - intros q d bs' k' Hq HG'. cbn in Hq. destruct (decide (q = p)) as [->|].
        + rewrite lookup_insert_eq in Hq. injection Hq as <-. rewrite HG in HG'. injection HG' as <- <-.
          eapply data_ok_later; [exact Hl1|]. split; [done|]. split; [done|]. cbn [dd_records dd1 with_buf].
          destruct (dd_records dd) as [|r rs]; [cbn in H2; lia|]. destruct S3 as (A & B & C & _).
          split; [done|]. split; [done|]. split; [done|]. cbn. intros b [= <-]. done.
        + rewrite lookup_insert_ne in Hq by congruence. eapply data_ok_later; [exact Hl1|]. by eapply O. }
    assert (Ho1 : objs s1 !! p = Some dd1) by (cbn; apply lookup_insert_eq).
    exists s1, bs. split; [|split; [by rewrite take_ge|split; [done|split; [done|]]]].
    + unfold dispatch_data_get_flattened_bytes_4libxpc. rewrite Hgd. cbn [rbind].
      rewrite S1, (proj2 (Z.eqb_neq _ 0)) by lia. rewrite Hm. cbn [rbind].
      rewrite (flatten_ok fuel p s G dd bs k) by done. rewrite Ha. cbn [rbind].
      rewrite Hgd. cbn [rbind]. rewrite Hb. change (Z.to_nat 0) with 0%nat. by rewrite drop_0.
    + apply (Hdirect s1 dd1 W1 Ho1).
      destruct (map_direct_cases s1 G p 0 bs k dd1 W1 HG Ho1 ltac:(lia)) as [[Hm1 _]|(_ & Hb1 & _)]; [done|].
      done.
Qed.

(** ** Region lookup *)

Lemma find_region_ok s G k rs location offset :
  Forall (rec_ok s G k) rs -> 0 <= offset -> offset <= location < offset + recs_length rs ->
  offset + recs_length rs <= SIZE_MAX -> (forall r, r ∈ rs -> r_from r <= SIZE_MAX) ->
  exists r off, find_region rs 0 location offset = Some (r, r_from r, r_length r, off) /\
    rec_ok s G k r /\ offset <= off <= location /\ location < off + r_length r /\
    off + r_length r <= offset + recs_length rs /\
    slice (off - offset) (r_length r) (recs_bytes G rs) = rec_bytes G r.
Proof.
  intros Hrs. revert offset. induction Hrs as [|r rs Hr Hrs IH]; intros offset H0 Hloc Hm Hfrom;
    [rewrite recs_length_nil in *; lia|].
  rewrite recs_length_cons in *. pose proof (recs_length_nonneg s G k rs Hrs).
  pose proof (rec_length_pos s G k r Hr). pose proof (rec_bytes_length s G k r Hr) as Hlen.
  assert (0 <= r_from r <= SIZE_MAX).
  { split; [|apply Hfrom; apply list_elem_of_here]. destruct Hr as (?&?&?&?&?&?&?&?&?&?). done. }
  unfold SIZE_MAX in *. cbn [find_region]. rewrite Z.geb_leb, (proj2 (Z.leb_gt _ _)) by lia.
  rewrite Z.sub_0_r, !u64_small by (rewrite ?u64_small; lia). rewrite Z.geb_leb.
  destruct (Z.leb_spec (offset + r_length r) location).
  - destruct (IH (offset + r_length r)) as (r' & off & E & R & B1 & B2 & B3 & B4); [lia|lia|lia| |].
    { intros x Hx. apply Hfrom. by apply list_elem_of_further. }
    exists r', off. split; [done|]. split; [done|]. split; [lia|]. split; [lia|]. split; [lia|].
    rewrite <-B4. apply slice_drop_eq. rewrite recs_bytes_cons, drop_app_Z by lia. f_equal. lia.
  - exists r, offset. rewrite Z.add_0_l. split; [done|]. split; [done|]. split; [lia|]. split; [lia|]. split; [lia|].
    rewrite Z.sub_diag, recs_bytes_cons. unfold slice. change (Z.to_nat 0) with 0%nat.
    rewrite drop_0. rewrite take_app_le by lia. rewrite take_ge by lia. done.
Qed.

Lemma copy_region_child fuel s G k r location o :
  wf s G -> rec_ok s G k r ->
  exists s' q G' k', _dispatch_data_copy_region new_object (S fuel) (data_object r) (r_from r) (r_length r)
      location o s = Ok (s', q, o) /\ wf s' G' /\ later s G s' G' /\ G' !! q = Some (rec_bytes G r, k').
Proof.
  intros Hwf Hr. pose proof Hr as (cb & ck & cd & A1 & A2 & A3 & A4 & A5 & A6 & A7).
  pose proof (wf_obj _ _ Hwf _ _ _ _ A3 A1) as (S1 & S2 & _).
  assert (Hrb : rec_bytes G r = slice (r_from r) (r_length r) cb)
    by (unfold rec_bytes; by rewrite (bytes_of_some G _ cb ck)).
  destruct (retain_ok s G _ _ _ Hwf A1) as (s1 & R1 & W1 & L1).
  destruct (proj2 L1 _ _ A3) as (cd1 & Hcd1 & Rec1 & Sz1 & Buf1).
  cbn [_dispatch_data_copy_region]. unfold get_data at 1. rewrite A3. cbn [rbind].
  destruct (direct_buf s G cd cb ck) as (b & Hb & Hcb); [by eapply wf_obj|by destruct cb; [cbn in *; lia|]|done|].
  assert (Hmd : _dispatch_data_map_direct (data_object r) (r_from r) s =
    Ok (Some (drop (Z.to_nat (r_from r)) (buf_bytes b)), data_object r, r_from r)).
  { unfold _dispatch_data_map_direct, get_data. rewrite A3. cbn [rbind].
    rewrite S1, (proj2 (Z.eqb_neq _ 0)) by lia. cbn [negb c_assert rbind].
    destruct A4 as [_ A4]. destruct (dd_records cd) as [|x [|y l]]; [|by cbn in A4|];
      cbn [rbind]; by rewrite Hb. }
  rewrite Hmd. cbn [rbind]. rewrite R1. cbn [rbind].
  destruct ((r_from r =? 0) && (r_length r =? dd_size cd)) eqn:Efull.
  - apply andb_true_iff in Efull as [E1%Z.eqb_eq E2%Z.eqb_eq].
    exists s1, (data_object r), G, ck. split; [done|]. split; [done|]. split; [done|].
    rewrite Hrb, E1, E2, S1, slice_all. done.
  - unfold get_data. rewrite Hcd1. cbn [rbind]. rewrite Sz1, Efull.
    destruct (alloc_ok new_object new_fresh s1 G 1 0
      (composite (r_length r) [RangeRecord (data_object r) (r_from r) (r_length r)])
      (rec_bytes G r) k W1 ltac:(lia) ltac:(lia)) as (s2 & q & A & W2 & L2 & _).
    { done. }
    { pose proof (rec_bytes_length s G k r Hr). split; [cbn; lia|]. split; [lia|].
      cbn [dd_records composite]. split; [|split; [|done]].
      - apply Forall_cons. split; [|done]. apply (rec_ok_later s G s1 G) in Hr; [|done].
        by destruct r.
      - unfold recs_bytes. cbn [map concat]. rewrite app_nil_r. by destruct r. }
    rewrite A. cbn [rbind]. eexists s2, q, _, k. split; [done|]. split; [exact W2|].
    split; [by eapply later_trans|]. apply lookup_insert_eq.
Qed.

Lemma copy_region_ok fuel p location s G bs k :
  wf s G -> G !! p = Some (bs, k) -> 0 <= location < Z.of_nat (length bs) ->
  exists s' q G' k' off n, dispatch_data_copy_region new_object (S (S fuel)) p location s = Ok (s', q, off) /\
    wf s' G' /\ later s G s' G' /\ G' !! q = Some (slice off n bs, k') /\
    0 <= off <= location /\ location < off + n /\ off + n <= Z.of_nat (length bs).
Proof.
  intros Hwf HG Hloc. destruct (get_data_ok s G p bs k Hwf HG) as (dd & Hgd & Ho & Hd).
  pose proof Hd as (S1 & S2 & S3). unfold dispatch_data_copy_region. rewrite Hgd. cbn [rbind].
  rewrite S1, Z.geb_leb, (proj2 (Z.leb_gt _ _)) by lia.
  remember (S fuel) as f1. cbn [_dispatch_data_copy_region]. rewrite Hgd. cbn [rbind].
  rewrite S1, !Z.eqb_refl. cbn [andb].
  destruct (map_direct_cases s G p 0 bs k dd Hwf HG Ho ltac:(lia)) as [[Hm _]|(H2 & Hb & Hm)].
  - destruct Hm as (l & p' & off' & bs' & k' & dd' & -> & Ht & _). cbn [rbind].
    destruct (retain_ok s G p bs k Hwf HG) as (s' & R & W & L). rewrite R. cbn [rbind].
    exists s', p, G, k, 0, (Z.of_nat (length bs)). rewrite slice_all. split; [done|].
    split; [done|]. split; [done|]. split; [done|]. lia.
  - rewrite Hm. cbn [rbind]. rewrite Hgd. cbn [rbind].
    destruct (dd_records dd) as [|r0 rs0] eqn:E; [cbn in H2; lia|].
    destruct S3 as (A & B & _). pose proof (recs_bytes_length s G k _ A) as HL. rewrite <-B in HL.
    destruct (find_region_ok s G k (r0 :: rs0) location 0 A) as (r & off & Ef & Hr & B1 & B2 & B3 & B4);
      [lia|lia|lia| |].
    { intros r Hr. rewrite Forall_forall in A. pose proof (A r Hr) as Hok.
      pose proof (rec_bound s G k r Hwf Hok). pose proof (rec_length_pos s G k r Hok). lia. }
    rewrite Ef. rewrite Z.add_0_l. subst f1.
    rewrite (u64_small off) by (unfold SIZE_MAX in *; lia).
    destruct (copy_region_child fuel s G k r (u64 (location - off)) off Hwf Hr) as (s' & q & G' & k' & -> & W & L & HG').
    exists s', q, G', k', off, (r_length r). split; [done|]. split; [done|]. split; [done|].
    rewrite Z.sub_0_r, <-B in B4. rewrite B4. split; [done|]. lia.
Qed.
End Map.
