(* ===== verification/DataThms.v ===== *)
(** * DataThms: data objects are immutable byte strings

    The guarantees of the data API, on any well formed memory, and a concrete
    memory with two leaves and a composite on which they are exercised. *)

From S2P Require Import Prelude DispatchData DataSpec DataOps DataVisit.

(** ** A concrete memory *)

Definition bump_object (m : gmap Z dispatch_data_s) : Z :=
  map_fold (fun k _ a => Z.max k a) 1 m + 1.

Lemma bump_object_fresh m :
  m !! bump_object m = None /\ bump_object m <> 0 /\ bump_object m <> dispatch_data_empty.
Proof.
  assert (Hub : 1 <= map_fold (fun k _ a => Z.max k a) 1 m /\
    forall k o, m !! k = Some o -> k <= map_fold (fun k _ a => Z.max k a) 1 m).
  { apply (map_fold_weak_ind (fun acc m => 1 <= acc /\ forall k o, m !! k = Some o -> k <= acc)).
    - split; [lia|]. intros k o Hk. by rewrite lookup_empty in Hk.
    - intros i x m' acc Hi [H0 IH]. split; [lia|]. intros k o.
      destruct (decide (k = i)) as [->|]; [lia|].
      rewrite lookup_insert_ne by congruence. intros Hk%IH. lia. }
  destruct Hub as [H0 Hub]. unfold bump_object, dispatch_data_empty. split; [|lia].
  destruct (m !! _) eqn:E; [|done]. apply Hub in E. lia.
Qed.

Definition bump_buffer (s : dstate) (n : Z) : option Z := Some 1000.

Definition leaf1 : dispatch_data_s :=
  leaf_data None (Buffer 500 [97; 98; 99; 100]) 3 (DestructorBlock 7).
Definition leaf2 : dispatch_data_s :=
  leaf_data None (Buffer 600 [101; 102; 103; 104]) 4 DISPATCH_DATA_DESTRUCTOR_FREE.
Definition comp12 : dispatch_data_s := composite 5 [RangeRecord 10 0 3; RangeRecord 11 1 2].

Definition demo_data : dstate :=
  DState (<[12 := comp12]> (<[11 := leaf2]> (<[10 := leaf1]> {[1 := empty_data]}))) [].
Definition demo_ghost : ghost :=
  <[12 := ([97; 98; 99; 102; 103], 1%nat)]> (<[11 := ([101; 102; 103; 104], 0%nat)]>
    (<[10 := ([97; 98; 99], 0%nat)]> {[1 := ([], 0%nat)]})).

Lemma demo_records : Forall (rec_ok demo_data demo_ghost 1) [RangeRecord 10 0 3; RangeRecord 11 1 2].
Proof.
  apply Forall_cons; split; [|apply Forall_cons; split; [|done]].
  - exists [97; 98; 99], 0%nat, leaf1. split; [reflexivity|]. split; [lia|]. split; [reflexivity|].
    split; [by split|]. cbn. lia.
  - exists [101; 102; 103; 104], 0%nat, leaf2. split; [reflexivity|]. split; [lia|]. split; [reflexivity|].
    split; [by split|]. cbn. lia.
Qed.

Lemma demo_wf : wf demo_data demo_ghost.
Proof.
  split; [|reflexivity|reflexivity|].
  - intros p. unfold demo_data, demo_ghost. cbn [objs].
    destruct (decide (p = 12)) as [->|]; [by split; eauto|].
    destruct (decide (p = 11)) as [->|]; [by split; eauto|].
    destruct (decide (p = 10)) as [->|]; [by split; eauto|].
    destruct (decide (p = 1)) as [->|]; [by split; eauto|].
    rewrite !lookup_insert_ne by congruence. rewrite !lookup_singleton_ne by congruence.
    by split; intros [? ?].
  - intros p dd bs k Hp HG. unfold demo_data, demo_ghost in Hp, HG. cbn [objs] in Hp.
    destruct (decide (p = 12)) as [->|].
    { injection Hp as <-. injection HG as <- <-. split; [reflexivity|]. split; [vm_compute; discriminate|].
      split; [exact demo_records|]. split; [reflexivity|]. split; [vm_compute; discriminate|done]. }
    destruct (decide (p = 11)) as [->|].
    { injection Hp as <-. injection HG as <- <-. split; [reflexivity|]. split; [vm_compute; discriminate|].
      right. eexists. split; [reflexivity|]. by split. }
    destruct (decide (p = 10)) as [->|].
    { injection Hp as <-. injection HG as <- <-. split; [reflexivity|]. split; [vm_compute; discriminate|].
      right. eexists. split; [reflexivity|]. by split. }
    destruct (decide (p = 1)) as [->|].
    { injection Hp as <-. injection HG as <- <-. split; [reflexivity|]. split; [vm_compute; discriminate|].
      by left. }
    rewrite !lookup_insert_ne in Hp by congruence. by rewrite lookup_singleton_ne in Hp by congruence.
Qed.

(** ** Properties *)

(** Creating a data object from a buffer of at least [size] bytes
    gives an object with exactly those bytes, whether they are copied, stored
    inline or left in place; every older object keeps its bytes. *)
Theorem data_create_bytes new_object new_buffer s G b size q d :
  (forall m, m !! new_object m = None /\ new_object m <> 0 /\ new_object m <> dispatch_data_empty) ->
  wf s G -> 0 <= size -> size <= Z.of_nat (length (buf_bytes b)) ->
  size + sizeof_dispatch_data_s <= SIZE_MAX ->
  (d = DISPATCH_DATA_DESTRUCTOR_DEFAULT -> exists a, new_buffer s size = Some a) ->
  yields s G (dispatch_data_create new_object new_buffer (Some b) size q d s)
    (take (Z.to_nat size) (buf_bytes b)).
Proof. intros. by apply create_ok. Qed.

Lemma data_create_bytes_witness :
  yields demo_data demo_ghost
    (dispatch_data_create bump_object bump_buffer (Some (Buffer 700 [1; 2; 3])) 2 None
       DISPATCH_DATA_DESTRUCTOR_DEFAULT demo_data) [1; 2].
Proof.
  apply (data_create_bytes bump_object bump_buffer demo_data demo_ghost (Buffer 700 [1; 2; 3]) 2 None);
    [exact bump_object_fresh|exact demo_wf|lia|vm_compute; discriminate|vm_compute; discriminate|].
  intros _. exists 1000. reflexivity.
Defined.

(** [C20] Concatenation.  The result's bytes are those of the first object
    followed by those of the second, for all objects whose sizes add up within
    a [size_t]; every older object keeps its bytes. *)
Theorem data_concat_bytes new_object s G p1 bs1 k1 p2 bs2 k2 d1 d2 :
  (forall m, m !! new_object m = None /\ new_object m <> 0 /\ new_object m <> dispatch_data_empty) ->
  wf s G -> G !! p1 = Some (bs1, k1) -> G !! p2 = Some (bs2, k2) ->
  objs s !! p1 = Some d1 -> objs s !! p2 = Some d2 ->
  Z.of_nat (length bs1) + Z.of_nat (length bs2) <= SIZE_MAX ->
  (_dispatch_data_num_records d1 + _dispatch_data_num_records d2) * sizeof_range_record
    + sizeof_dispatch_data_s <= SIZE_MAX ->
  yields s G (dispatch_data_create_concat new_object p1 p2 s) (bs1 ++ bs2).
Proof. intros. by eapply concat_ok. Qed.

Lemma data_concat_bytes_witness :
  yields demo_data demo_ghost (dispatch_data_create_concat bump_object 12 11 demo_data)
    [97; 98; 99; 102; 103; 101; 102; 103; 104].
Proof.
  apply (data_concat_bytes bump_object demo_data demo_ghost 12 [97; 98; 99; 102; 103] 1 11
    [101; 102; 103; 104] 0 comp12 leaf2);
    [exact bump_object_fresh|exact demo_wf|reflexivity|reflexivity|reflexivity|reflexivity
    |vm_compute; discriminate|vm_compute; discriminate].
Defined.

(** [C21] Subranges.  For every offset and length the result's bytes are
    that part of the object's bytes, cut off at its end; the search through
    the records, the trimming of the first and the last one, and the descent
    into a single record never leave the object, never hit the corruption
    checks, and end with fuel for the depth of the object. *)
Theorem data_subrange_bytes new_object fuel p offset len s G bs k :
  (forall m, m !! new_object m = None /\ new_object m <> 0 /\ new_object m <> dispatch_data_empty) ->
  wf s G -> G !! p = Some (bs, k) -> (k < fuel)%nat -> 0 <= offset -> 0 <= len ->
  yields s G (dispatch_data_create_subrange new_object fuel p offset len s)
    (take (Z.to_nat len) (drop (Z.to_nat offset) bs)).
Proof. intros. by eapply subrange_ok. Qed.

Lemma data_subrange_bytes_witness :
  yields demo_data demo_ghost (dispatch_data_create_subrange bump_object 2 12 1 3 demo_data)
    [98; 99; 102].
Proof.
  apply (data_subrange_bytes bump_object 2 12 1 3 demo_data demo_ghost [97; 98; 99; 102; 103] 1);
    [exact bump_object_fresh|exact demo_wf|reflexivity|lia|lia|lia].
Defined.

(** Visiting.  [dispatch_data_apply] calls the applier on a list of
    regions, in order, each with the offset at which it starts and its bytes,
    until the applier returns false; put together, the regions are exactly the
    object's bytes. *)
Theorem data_apply_regions {C : Type} (applier : C -> Z -> Z -> list Z -> C * bool)
    fuel p ctxt s G dd bs k :
  wf s G -> G !! p = Some (bs, k) -> objs s !! p = Some dd -> (2 <= fuel)%nat ->
  exists rs, concat (map snd rs) = bs /\
    dispatch_data_apply applier fuel p ctxt s = Ok (run_regions applier ctxt 0 rs).
Proof.
  intros Hwf HG Ho Hf. pose proof (wf_obj _ _ Hwf _ _ _ _ Ho HG) as Hd.
  destruct (decide (bs = [])) as [->|Hne].
  - exists []. split; [done|]. unfold dispatch_data_apply, get_data. rewrite Ho. cbn [rbind].
    destruct Hd as (S1 & _). by rewrite S1.
  - exists (regions G p dd bs). split; [by eapply regions_concat|].
    destruct fuel as [|[|fuel]]; [lia|lia|]. by apply (apply_ok applier fuel p ctxt s G dd bs k).
Qed.

Lemma data_apply_regions_witness :
  exists rs, concat (map snd rs) = [97; 98; 99; 102; 103] /\
    dispatch_data_apply (fun acc _ off b => (acc ++ [(off, b)], true)) 2 12 [] demo_data =
      Ok (run_regions (fun acc _ off b => (acc ++ [(off, b)], true)) [] 0 rs).
Proof.
  apply (data_apply_regions (fun acc _ off b => (acc ++ [(off, b)], true)) 2 12 [] demo_data
    demo_ghost comp12 [97; 98; 99; 102; 103] 1);
    [exact demo_wf|reflexivity|reflexivity|lia].
Defined.

(** Mapping.  With memory available, [dispatch_data_create_map] of a
    non-empty object returns a pointer to all of its bytes, their number, and
    an object that holds them; every older object keeps its bytes. *)
Theorem data_create_map_bytes new_object new_buffer fuel p s G bs k :
  (forall m, m !! new_object m = None /\ new_object m <> 0 /\ new_object m <> dispatch_data_empty) ->
  wf s G -> G !! p = Some (bs, k) -> bs <> [] ->
  Z.of_nat (length bs) + sizeof_dispatch_data_s <= SIZE_MAX ->
  (forall n, exists a, new_buffer s n = Some a) -> (2 <= fuel)%nat ->
  exists s' q G' k' l, dispatch_data_create_map new_object new_buffer fuel p s =
      Ok (s', q, Some l, Z.of_nat (length bs)) /\
    take (length bs) l = bs /\ wf s' G' /\ later s G s' G' /\ G' !! q = Some (bs, k').
Proof.
  intros. destruct fuel as [|[|fuel]]; [lia|lia|]. by eapply create_map_ok.
Qed.

Lemma data_create_map_bytes_witness :
  exists s' q G' k' l, dispatch_data_create_map bump_object bump_buffer 2 12 demo_data =
      Ok (s', q, Some l, 5) /\
    take 5 l = [97; 98; 99; 102; 103] /\ wf s' G' /\ later demo_data demo_ghost s' G' /\
    G' !! q = Some ([97; 98; 99; 102; 103], k').
Proof.
  apply (data_create_map_bytes bump_object bump_buffer 2 12 demo_data demo_ghost
    [97; 98; 99; 102; 103] 1);
    [exact bump_object_fresh|exact demo_wf|reflexivity|discriminate|vm_compute; discriminate| |lia].
  intros n. exists 1000. reflexivity.
Defined.

(** Flattening in place.  The flattened bytes are the object's bytes;
    installing the copy changes the bytes of no object, and asking again
    returns the same bytes without changing anything. *)
Theorem data_flattened_bytes new_buffer fuel p s G bs k :
  wf s G -> G !! p = Some (bs, k) -> bs <> [] ->
  (forall n, exists a, new_buffer s n = Some a) -> (2 <= fuel)%nat ->
  exists s' l, dispatch_data_get_flattened_bytes_4libxpc new_buffer fuel p s = Ok (s', Some l) /\
    take (length bs) l = bs /\ wf s' G /\ later s G s' G /\
    (exists l', dispatch_data_get_flattened_bytes_4libxpc new_buffer fuel p s' = Ok (s', Some l') /\
       take (length bs) l' = bs).
Proof.
  intros. destruct fuel as [|[|fuel]]; [lia|lia|]. by eapply flattened_ok.
Qed.

Lemma data_flattened_bytes_witness :
  exists s' l, dispatch_data_get_flattened_bytes_4libxpc bump_buffer 2 12 demo_data = Ok (s', Some l) /\
    take 5 l = [97; 98; 99; 102; 103] /\ wf s' demo_ghost /\ later demo_data demo_ghost s' demo_ghost /\
    (exists l', dispatch_data_get_flattened_bytes_4libxpc bump_buffer 2 12 s' = Ok (s', Some l') /\
       take 5 l' = [97; 98; 99; 102; 103]).
Proof.
  apply (data_flattened_bytes bump_buffer 2 12 demo_data demo_ghost [97; 98; 99; 102; 103] 1);
    [exact demo_wf|reflexivity|discriminate| |lia].
  intros n. exists 1000. reflexivity.
Defined.

(** Region lookup.  For a location inside the object,
    [dispatch_data_copy_region] returns an object and the offset at which it
    starts: its bytes are the object's bytes there, and the location lies in
    the region. *)
Theorem data_copy_region_bytes new_object fuel p location s G bs k :
  (forall m, m !! new_object m = None /\ new_object m <> 0 /\ new_object m <> dispatch_data_empty) ->
  wf s G -> G !! p = Some (bs, k) -> 0 <= location < Z.of_nat (length bs) -> (2 <= fuel)%nat ->
  exists s' q G' k' off n, dispatch_data_copy_region new_object fuel p location s = Ok (s', q, off) /\
    wf s' G' /\ later s G s' G' /\
    G' !! q = Some (take (Z.to_nat n) (drop (Z.to_nat off) bs), k') /\
    0 <= off <= location /\ location < off + n /\ off + n <= Z.of_nat (length bs).
Proof.
  intros. destruct fuel as [|[|fuel]]; [lia|lia|]. by eapply copy_region_ok.
Qed.

Lemma data_copy_region_bytes_witness :
  exists s' q G' k' off n, dispatch_data_copy_region bump_object 2 12 4 demo_data = Ok (s', q, off) /\
    wf s' G' /\ later demo_data demo_ghost s' G' /\
    G' !! q = Some (take (Z.to_nat n) (drop (Z.to_nat off) [97; 98; 99; 102; 103]), k') /\
    0 <= off <= 4 /\ 4 < off + n /\ off + n <= 5.
Proof.
  apply (data_copy_region_bytes bump_object 2 12 4 demo_data demo_ghost [97; 98; 99; 102; 103] 1);
    [exact bump_object_fresh|exact demo_wf|reflexivity|cbn; lia|lia].
Defined.
