(* ===== verification/Transform.v ===== *)
(** * Transform: base32, base64 and UTF transforms of libdispatch

    Model of [src/transform.c].  A transform sees its input through two
    services of the data component: [dispatch_data_apply], which hands it the
    regions in order, and [_dispatch_data_subrange_map], which gives a pointer
    to a range of the whole contents.  Here an input is the list of its regions
    ([data]); the first service is [run_regions] and the second a slice of the
    concatenation, which is what the data component guarantees.

    An output is the list of the leaves it is made of.  A leaf records the size
    it was created with besides the bytes of its buffer, because the code can
    get the size wrong.  [malloc] is a section variable: it says whether an
    allocation of the given size succeeds.  The host is little-endian. *)

From S2P Require Import Prelude DispatchData DataSpec DataVisit.

(** ** Data *)

Abbreviation data := (list (list Z)).

Definition contents (d : data) : list Z := concat d.
Definition data_size (d : data) : Z := Z.of_nat (length (contents d)).

(** [dispatch_data_apply]: the region object is not used by the transforms. *)
Definition data_apply {C} (f : C -> Z -> list Z -> C * bool) (ctxt : C) (d : data) : C * bool :=
  run_regions (fun c _ offset bytes => f c offset bytes) ctxt 0 (map (pair 0) d).

Record leaf := Leaf { leaf_size : Z; leaf_bytes : list Z }.

(** [dispatch_data_create] and [dispatch_data_create_concat]: empty pieces
    disappear. *)
Definition data_concat (rv : list leaf) (l : leaf) : list leaf :=
  if leaf_size l =? 0 then rv else rv ++ [l].

(** Bytes of a leaf whose size is honest. *)
Definition leaf_ok (l : leaf) : Prop := leaf_size l = Z.of_nat (length (leaf_bytes l)).

Definition out_bytes (ls : list leaf) : list Z :=
  concat (map (fun l => take (Z.to_nat (leaf_size l)) (leaf_bytes l)) ls).

Definition _dispatch_data_subrange_map (d : data) (offset size : Z) : option (list Z) :=
  let subrange := slice offset size (contents d) in
  if Z.of_nat (length subrange) =? size then Some subrange else None.

(** ** Tables *)

Definition base32_encode_table : list Z :=
  [65; 66; 67; 68; 69; 70; 71; 72; 73; 74; 75; 76; 77; 78; 79; 80; 81; 82; 83; 84;
   85; 86; 87; 88; 89; 90; 50; 51; 52; 53; 54; 55; 0].

Definition base32_decode_table : list Z :=
  [-1; -1; -1; -1; -1; -1; -1; -1; -1; -1; -1; -1; -1; -1; -1; -1; -1; -1; -1; -1;
   -1; -1; -1; -1; -1; -1; -1; -1; -1; -1; -1; -1; -1; -1; -1; -1; -1; -1; -1; -1;
   -1; -1; -1; -1; -1; -1; -1; -1; -1; -1; 26; 27; 28; 29; 30; 31; -1; -1; -1; -1;
   -1; -2; -1; -1; -1; 0; 1; 2; 3; 4; 5; 6; 7; 8; 9; 10; 11; 12; 13; 14;
   15; 16; 17; 18; 19; 20; 21; 22; 23; 24; 25].

Definition base32_decode_table_size : Z := Z.of_nat (length base32_decode_table).

Definition base32hex_encode_table : list Z :=
  [48; 49; 50; 51; 52; 53; 54; 55; 56; 57; 65; 66; 67; 68; 69; 70; 71; 72; 73; 74;
   75; 76; 77; 78; 79; 80; 81; 82; 83; 84; 85; 86; 0].

Definition base32hex_decode_table : list Z :=
  [-1; -1; -1; -1; -1; -1; -1; -1; -1; -1; -1; -1; -1; -1; -1; -1; -1; -1; -1; -1;
   -1; -1; -1; -1; -1; -1; -1; -1; -1; -1; -1; -1; -1; -1; -1; -1; -1; -1; -1; -1;
   -1; -1; -1; -1; -1; -1; -1; -1; 0; 1; 2; 3; 4; 5; 6; 7; 8; 9; -1; -1;
   -1; -2; -1; -1; -1; 10; 11; 12; 13; 14; 15; 16; 17; 18; 19; 20; 21; 22; 23; 24;
   25; 26; 27; 28; 29; 30; 31].

Definition base32hex_decode_table_size : Z := Z.of_nat (length base32hex_encode_table).

Definition base64_encode_table : list Z :=
  [65; 66; 67; 68; 69; 70; 71; 72; 73; 74; 75; 76; 77; 78; 79; 80; 81; 82; 83; 84;
   85; 86; 87; 88; 89; 90; 97; 98; 99; 100; 101; 102; 103; 104; 105; 106; 107; 108; 109; 110;
   111; 112; 113; 114; 115; 116; 117; 118; 119; 120; 121; 122; 48; 49; 50; 51; 52; 53; 54; 55;
   56; 57; 43; 47; 0].

Definition base64_decode_table : list Z :=
  [-1; -1; -1; -1; -1; -1; -1; -1; -1; -1; -1; -1; -1; -1; -1; -1; -1; -1; -1; -1;
   -1; -1; -1; -1; -1; -1; -1; -1; -1; -1; -1; -1; -1; -1; -1; -1; -1; -1; -1; -1;
   -1; -1; -1; 62; -1; -1; -1; 63; 52; 53; 54; 55; 56; 57; 58; 59; 60; 61; -1; -1;
   -1; -2; -1; -1; -1; 0; 1; 2; 3; 4; 5; 6; 7; 8; 9; 10; 11; 12; 13; 14;
   15; 16; 17; 18; 19; 20; 21; 22; 23; 24; 25; -1; -1; -1; -1; -1; -1; 26; 27; 28;
   29; 30; 31; 32; 33; 34; 35; 36; 37; 38; 39; 40; 41; 42; 43; 44; 45; 46; 47; 48;
   49; 50; 51].

Definition base64_decode_table_size : Z := Z.of_nat (length base64_decode_table).

Definition table_get (table : list Z) (i : Z) : Z := default 0 (table !! Z.to_nat i).

Definition howmany (x y : Z) : Z := (x + (y - 1)) / y.

Section Transform.
Context (malloc : Z -> bool).

(** ** Encoders

    [to_base64] and [to_base32_with_table] have the same shape: a byte at
    position [count] emits characters that depend on [count] modulo the group
    size [m], on the byte and on the byte before it; the last region is
    padded. *)

Section Encode.
Context (m : Z).
Context (emit : Z -> Z -> Z -> list Z).       (* phase, last, curr *)
Context (padding : Z -> Z -> list Z).         (* phase, final byte *)

(** One region from index [i] on; [prev] is [bytes[i - 1]], None at [i = 0]. *)
Fixpoint encode_loop (d : data) (offset : Z) (prev : option Z) (bytes : list Z)
    (count : Z) (out : list Z) : option (Z * list Z) :=
  match bytes with
  | [] => Some (count, out)
  | curr :: bytes =>
      match (if count mod m =? 0 then Some 0
             else match prev with
                  | Some b => Some b
                  | None => match _dispatch_data_subrange_map d (u64 (offset - 1)) 1 with
                            | Some (b :: _) => Some b
                            | _ => None
                            end
                  end) with
      | None => None
      | Some last =>
          encode_loop d offset (Some curr) bytes (count + 1) (out ++ emit (count mod m) last curr)
      end
  end.

Definition encode_region (d : data) (total : Z) (st : Z * list Z) (offset : Z) (bytes : list Z)
    : (Z * list Z) * bool :=
  let '(count, out) := st in
  match encode_loop d offset None bytes count out with
  | None => (st, false)
  | Some (count, out) =>
      let size := Z.of_nat (length bytes) in
      if offset + size =? total
      then ((count, out ++ padding (count mod m) (table_get bytes (size - 1))), true)
      else ((count, out), true)
  end.

(** [dest] holds [dest_size] bytes: writing more is out of bounds, and bytes
    that were not written are not defined. *)
Definition encode_with (group : Z) (d : data) : res (option (list leaf)) :=
  let total := data_size d in
  let dest_size := howmany total m in
  if dest_size >? SIZE_MAX / group then Ok None
  else
    let dest_size := dest_size * group in
    if negb (malloc dest_size) then Ok None
    else
      let '((_, out), success) := data_apply (encode_region d total) (0, []) d in
      if negb success then Ok None
      else if Z.of_nat (length out) =? dest_size
      then Ok (Some (data_concat [] (Leaf dest_size out))) else Crash OutOfBounds.
End Encode.

Definition base64_emit (phase last curr : Z) : list Z :=
  let t := table_get base64_encode_table in
  if phase =? 0 then [t (Z.land (Z.shiftr curr 2) 0x3f)]
  else if phase =? 1 then [t (Z.land (Z.lor (Z.shiftl last 4) (Z.shiftr curr 4)) 0x3f)]
  else [t (Z.land (Z.lor (Z.shiftl last 2) (Z.shiftr curr 6)) 0x3f); t (Z.land curr 0x3f)].

Definition base64_padding (phase final : Z) : list Z :=
  let t := table_get base64_encode_table in
  if phase =? 0 then []
  else if phase =? 1 then [t (Z.land (Z.shiftl final 4) 0x30); 61; 61]
  else [t (Z.land (Z.shiftl final 2) 0x3c); 61].

Definition _dispatch_transform_to_base64 (d : data) : res (option (list leaf)) :=
  encode_with 3 base64_emit base64_padding 4 d.

Definition base32_emit (table : list Z) (phase last curr : Z) : list Z :=
  let t := table_get table in
  if phase =? 0 then [t (Z.land (Z.shiftr curr 3) 0x1f)]
  else if phase =? 1 then
    [t (Z.land (Z.lor (Z.shiftl last 2) (Z.shiftr curr 6)) 0x1f); t (Z.land (Z.shiftr curr 1) 0x1f)]
  else if phase =? 2 then [t (Z.land (Z.lor (Z.shiftl last 4) (Z.shiftr curr 4)) 0x1f)]
  else if phase =? 3 then
    [t (Z.land (Z.lor (Z.shiftl last 1) (Z.shiftr curr 7)) 0x1f); t (Z.land (Z.shiftr curr 2) 0x1f)]
  else [t (Z.land (Z.lor (Z.shiftl last 3) (Z.shiftr curr 5)) 0x1f); t (Z.land curr 0x1f)].

Definition base32_padding (table : list Z) (phase final : Z) : list Z :=
  let t := table_get table in
  if phase =? 0 then []
  else if phase =? 1 then t (Z.land (Z.shiftl final 2) 0x1c) :: replicate 6 61
  else if phase =? 2 then t (Z.land (Z.shiftl final 4) 0x10) :: replicate 4 61
  else if phase =? 3 then t (Z.land (Z.shiftl final 1) 0x1e) :: replicate 3 61
  else t (Z.land (Z.shiftl final 3) 0x18) :: replicate 1 61.

Definition _dispatch_transform_to_base32_with_table (table : list Z) (d : data)
    : res (option (list leaf)) :=
  encode_with 5 (base32_emit table) (base32_padding table) 8 d.

Definition _dispatch_transform_to_base32 : data -> res (option (list leaf)) :=
  _dispatch_transform_to_base32_with_table base32_encode_table.
Definition _dispatch_transform_to_base32hex : data -> res (option (list leaf)) :=
  _dispatch_transform_to_base32_with_table base32hex_encode_table.

(** ** Decoders *)

Record decoder := Decoder { dec_x : Z; dec_count : Z; dec_pad : Z }.

Definition is_blank (c : Z) : bool := (c =? 10) || (c =? 9) || (c =? 32).

(** The loop over one region: what it has written to [dest], and whether it
    came to the end or refused a byte.  [bits] is 5 or 6, a group has [2 ^ gshift]
    characters, and [flush] gives the bytes of a complete group. *)
Fixpoint decode_loop (table : list Z) (table_size bits group : Z) (flush : Z -> list Z)
    (bytes : list Z) (st : decoder) (dest : list Z) : decoder * list Z * bool :=
  match bytes with
  | [] => (st, dest, true)
  | c :: bytes =>
      if is_blank c then decode_loop table table_size bits group flush bytes st dest
      else if (c >=? table_size) || (table_get table c =? -1) then (st, dest, false)
      else
        let count := u64 (dec_count st + 1) in
        let value := table_get table c in
        let '(value, pad) := if value =? -2 then (0, u64 (dec_pad st + 1)) else (value, dec_pad st) in
        let x := u64 (u64 (Z.shiftl (dec_x st) bits) + value) in
        let dest := if Z.land count (group - 1) =? 0 then dest ++ flush x else dest in
        decode_loop table table_size bits group flush bytes (Decoder x count pad) dest
  end.

Definition byte_at (x shift : Z) : Z := Z.land (Z.shiftr x shift) 0xff.

Definition base64_flush (x : Z) : list Z := [byte_at x 16; byte_at x 8; byte_at x 0].
Definition base32_flush (x : Z) : list Z :=
  [byte_at x 32; byte_at x 24; byte_at x 16; byte_at x 8; byte_at x 0].

(** The size of what a region decoded, from the number of bytes written. *)
Definition base64_final (written pad : Z) : Z :=
  if pad >? 0 then u64 (written - pad) else written.

Definition base32_final (written pad : Z) : Z :=
  if pad =? 1 then u64 (written - 1)
  else if pad =? 3 then u64 (written - 2)
  else if pad =? 4 then u64 (written - 3)
  else if pad =? 6 then u64 (written - 4)
  else written.

Section Decode.
Context (table : list Z) (table_size bits group unit : Z).
Context (flush : Z -> list Z) (final : Z -> Z -> Z).

(** A region writes into a buffer of [howmany(size, group) * unit] bytes. *)
Definition decode_region (st : res (decoder * list leaf)) (offset : Z) (bytes : list Z)
    : res (decoder * list leaf) * bool :=
  match st with
  | Crash w => (Crash w, false)
  | Ok (dec, rv) =>
      let dest_size := howmany (Z.of_nat (length bytes)) group * unit in
      if negb (malloc dest_size) then (st, false)
      else
        let '(dec, dest, accepted) := decode_loop table table_size bits group flush bytes dec [] in
        let written := Z.of_nat (length dest) in
        if dest_size <? written then (Crash OutOfBounds, false)
        else if negb accepted then (st, false)
        else (Ok (dec, data_concat rv (Leaf (final written (dec_pad dec)) dest)), true)
  end.

Definition decode_with (d : data) : res (option (list leaf)) :=
  let '(st, success) := data_apply decode_region (Ok (Decoder 0 0 0, [])) d in
  let! (_, rv) := st in
  Ok (if success then Some rv else None).
End Decode.

Definition _dispatch_transform_from_base64 : data -> res (option (list leaf)) :=
  decode_with base64_decode_table base64_decode_table_size 6 4 3 base64_flush base64_final.

Definition _dispatch_transform_from_base32_with_table (table : list Z) (table_size : Z)
    : data -> res (option (list leaf)) :=
  decode_with table table_size 5 8 5 base32_flush base32_final.

Definition _dispatch_transform_from_base32 : data -> res (option (list leaf)) :=
  _dispatch_transform_from_base32_with_table base32_decode_table base32_decode_table_size.
Definition _dispatch_transform_from_base32hex : data -> res (option (list leaf)) :=
  _dispatch_transform_from_base32_with_table base32hex_decode_table base32hex_decode_table_size.

(** ** The output buffer of the UTF transforms *)

Record dispatch_transform_buffer_s := TBuffer {
  tb_data : list leaf;        (* finished pieces *)
  tb_start : bool;            (* start is not NULL *)
  tb_bytes : list Z;          (* from start to ptr *)
  tb_size : Z;
}.

Definition BUFFER_MALLOC_MAX : Z := 100 * 1024 * 1024.

Definition buffer_init : dispatch_transform_buffer_s := TBuffer [] false [] 0.

(** Makes room for [required] bytes, in a new piece if the current one has not
    enough left. *)
Definition _dispatch_transform_buffer_new (b : dispatch_transform_buffer_s) (required size : Z)
    : dispatch_transform_buffer_s * bool :=
  let remaining := u64 (tb_size b - Z.of_nat (length (tb_bytes b))) in
  if (required =? 0) || (remaining <? required) then
    let d := if tb_start b && negb (Z.of_nat (length (tb_bytes b)) =? 0)
             then data_concat (tb_data b) (Leaf (Z.of_nat (length (tb_bytes b))) (tb_bytes b))
             else tb_data b in
    let size := u64 (required + size) in
    if size >? 0 then
      if size >? BUFFER_MALLOC_MAX then (TBuffer d false (tb_bytes b) size, false)
      else if negb (malloc size) then (TBuffer d false (tb_bytes b) size, false)
      else (TBuffer d true [] size, true)
    else (TBuffer d false [] size, true)
  else (b, true).

(** Writing at [ptr]. *)
Definition tb_write (b : dispatch_transform_buffer_s) (bytes : list Z)
    : res dispatch_transform_buffer_s :=
  if tb_start b && (Z.of_nat (length (tb_bytes b)) + Z.of_nat (length bytes) <=? tb_size b)
  then Ok (TBuffer (tb_data b) (tb_start b) (tb_bytes b ++ bytes) (tb_size b))
  else Crash OutOfBounds.

(** ** Byte order *)

Inductive byte_order := OSLittleEndian | OSBigEndian.

Definition swap16 (x : Z) : Z := Z.lor (Z.shiftl (Z.land x 0xff) 8) (Z.shiftr x 8).

Definition _dispatch_transform_swap_to_host (x : Z) (byteOrder : byte_order) : Z :=
  match byteOrder with OSLittleEndian => x | OSBigEndian => swap16 x end.
Definition _dispatch_transform_swap_from_host (x : Z) (byteOrder : byte_order) : Z :=
  match byteOrder with OSLittleEndian => x | OSBigEndian => swap16 x end.

(** A [uint16_t] in memory on this host. *)
Definition u16_bytes (x : Z) : list Z := [Z.land x 0xff; Z.shiftr x 8].
Definition read_u16 (bytes : list Z) : res Z :=
  match bytes with
  | lo :: hi :: _ => Ok (lo + 256 * hi)
  | _ => Crash OutOfBounds
  end.

(** ** UTF-8 sequences *)

Definition _dispatch_transform_utf8_length (byte : Z) : Z :=
  if Z.land byte 0x80 =? 0 then 1
  else if Z.land byte 0xe0 =? 0xc0 then 2
  else if Z.land byte 0xf0 =? 0xe0 then 3
  else if Z.land byte 0xf8 =? 0xf0 then 4
  else 0.

Fixpoint read_tail (seq_length : nat) (bytes : list Z) (wch : Z) : res Z :=
  match seq_length with
  | O => Ok wch
  | S n =>
      match bytes with
      | [] => Crash OutOfBounds
      | c :: bytes =>
          let wch := Z.lor wch (Z.land c 0x3f) in
          read_tail n bytes (match n with O => wch | _ => u32 (Z.shiftl wch 6) end)
      end
  end.

Definition _dispatch_transform_read_utf8_sequence (bytes : list Z) : res Z :=
  match bytes with
  | [] => Crash OutOfBounds
  | c :: bytes =>
      let seq_length := _dispatch_transform_utf8_length c in
      let wch :=
        if seq_length =? 4 then Z.shiftl (Z.land c 0x7) 6
        else if seq_length =? 3 then Z.shiftl (Z.land c 0xf) 6
        else if seq_length =? 2 then Z.shiftl (Z.land c 0x1f) 6
        else if seq_length =? 1 then Z.land c 0x7f
        else 0 in
      read_tail (Z.to_nat (u8 (seq_length - 1))) bytes wch
  end.

(** ** UTF-8 to UTF-16 *)

Record utf_state := UtfState { us_skip : Z; us_buffer : dispatch_transform_buffer_s }.

(** Room for [n] code units, then the units. *)
Definition put_units (b : dispatch_transform_buffer_s) (units : list Z) (next : Z)
    (byteOrder : byte_order) : res (dispatch_transform_buffer_s * bool) :=
  let '(b, ok) := _dispatch_transform_buffer_new b (2 * Z.of_nat (length units)) next in
  if ok then
    let! b := tb_write b (concat (map (fun u =>
      u16_bytes (_dispatch_transform_swap_from_host u byteOrder)) units)) in
    Ok (b, true)
  else Ok (b, false).

Definition emit_utf16 (b : dispatch_transform_buffer_s) (wch at_end next : Z) (byteOrder : byte_order)
    : res (dispatch_transform_buffer_s * bool) :=
  if (wch =? 0xfeff) && (at_end =? 3) then Ok (b, true)
  else if (0xd800 <=? wch) && (wch <? 0xdfff) then Ok (b, false)
  else if 0x10000 <=? wch then
    let wch := wch - 0x10000 in
    put_units b [Z.land (Z.shiftr wch 10) 0x3ff + 0xd800; Z.land wch 0x3ff + 0xdc00] next byteOrder
  else put_units b [Z.land wch 0xffff] next byteOrder.

(** The loop over one region of [size] bytes, of which [src] are left. *)
Fixpoint to_utf16_loop (fuel : nat) (d : data) (byteOrder : byte_order) (offset size i : Z)
    (src : list Z) (st : utf_state) : res (utf_state * bool) :=
  match fuel with
  | O => Crash OutOfFuel
  | S fuel =>
      if i <? size then
        match src with
        | [] => Crash OutOfBounds
        | c :: _ =>
            let byte_size := _dispatch_transform_utf8_length c in
            if byte_size =? 0 then Ok (st, false)
            else if byte_size + i >? size then
              match _dispatch_data_subrange_map d (u64 (offset + i)) byte_size with
              | None => Ok (st, false)
              | Some p =>
                  let! wch := _dispatch_transform_read_utf8_sequence p in
                  let skip := u64 (us_skip st + (byte_size - (size - i))) in
                  let! (b, ok) := emit_utf16 (us_buffer st) wch (u64 (offset + size)) 0 byteOrder in
                  if ok then to_utf16_loop fuel d byteOrder offset size size [] (UtfState skip b)
                  else Ok (UtfState skip b, false)
              end
            else
              let! wch := _dispatch_transform_read_utf8_sequence src in
              let i := i + byte_size in
              if (size - i) * 2 >? SIZE_MAX then Ok (st, false)
              else
                let! (b, ok) := emit_utf16 (us_buffer st) wch (u64 (offset + i)) ((size - i) * 2) byteOrder in
                if ok then to_utf16_loop fuel d byteOrder offset size i
                             (drop (Z.to_nat byte_size) src) (UtfState (us_skip st) b)
                else Ok (UtfState (us_skip st) b, false)
        end
      else Ok (UtfState (us_skip st) (_dispatch_transform_buffer_new (us_buffer st) 0 0).1, true)
  end.

Definition to_utf16_region (d : data) (byteOrder : byte_order) (st : res utf_state)
    (offset : Z) (bytes : list Z) : res utf_state * bool :=
  let out :=
    let! st := st in
    let size := Z.of_nat (length bytes) in
    let! (b, ok) :=
      (if offset =? 0 then
         if size * 2 + 2 >? SIZE_MAX then Ok (us_buffer st, false)
         else
           let '(b, ok) := _dispatch_transform_buffer_new (us_buffer st) (size * 2 + 2) 0 in
           if ok then
             let! b := tb_write b (u16_bytes (_dispatch_transform_swap_from_host 0xfeff byteOrder)) in
             Ok (b, true)
           else Ok (b, false)
       else Ok (us_buffer st, true)) in
    if negb ok then Ok (UtfState (us_skip st) b, false)
    else if us_skip st >=? size then Ok (UtfState (us_skip st - size) b, true)
    else to_utf16_loop (S (length bytes)) d byteOrder offset (size - us_skip st) 0
           (drop (Z.to_nat (us_skip st)) bytes) (UtfState 0 b) in
  match out with
  | Ok (st, ok) => (Ok st, ok)
  | Crash w => (Crash w, false)
  end.

Definition _dispatch_transform_to_utf16 (byteOrder : byte_order) (d : data) : res (option (list leaf)) :=
  let '(st, success) := data_apply (to_utf16_region d byteOrder) (Ok (UtfState 0 buffer_init)) d in
  let! st := st in
  Ok (if success then Some (tb_data (us_buffer st)) else None).

Definition _dispatch_transform_to_utf16le := _dispatch_transform_to_utf16 OSLittleEndian.
Definition _dispatch_transform_to_utf16be := _dispatch_transform_to_utf16 OSBigEndian.

(** ** UTF-16 to UTF-8 *)

Definition utf8_bytes (wch : Z) : list Z :=
  if wch <? 0x80 then [Z.land wch 0xff]
  else if wch <? 0x800 then [Z.lor 0xc0 (Z.shiftr wch 6); Z.lor 0x80 (Z.land wch 0x3f)]
  else if wch <? 0x10000 then
    [Z.lor 0xe0 (Z.shiftr wch 12); Z.lor 0x80 (Z.land (Z.shiftr wch 6) 0x3f);
     Z.lor 0x80 (Z.land wch 0x3f)]
  else if wch <? 0x200000 then
    [Z.lor 0xf0 (Z.shiftr wch 18); Z.lor 0x80 (Z.land (Z.shiftr wch 12) 0x3f);
     Z.lor 0x80 (Z.land (Z.shiftr wch 6) 0x3f); Z.lor 0x80 (Z.land wch 0x3f)]
  else [].

Definition put_utf8 (b : dispatch_transform_buffer_s) (wch next : Z)
    : res (dispatch_transform_buffer_s * bool) :=
  match utf8_bytes wch with
  | [] => Ok (b, true)
  | bytes =>
      let '(b, ok) := _dispatch_transform_buffer_new b (Z.of_nat (length bytes)) next in
      if ok then let! b := tb_write b bytes in Ok (b, true) else Ok (b, false)
  end.

(** Code unit [i] of the region: read ahead into the next region for the last
    byte of an odd sized one. *)
Definition from_utf16_unit (d : data) (byteOrder : byte_order) (offset size max i : Z)
    (src : list Z) (skip : Z) : res (option (Z * Z)) :=
  if (i =? max - 1) && (max >? size / 2) then
    match _dispatch_data_subrange_map d (u64 (offset + i * 2)) 2 with
    | None => Ok None
    | Some p => let! u := read_u16 p in
                Ok (Some (_dispatch_transform_swap_to_host u byteOrder, u64 (skip + 1)))
    end
  else
    let! u := read_u16 (drop (Z.to_nat (2 * i)) src) in
    Ok (Some (_dispatch_transform_swap_to_host u byteOrder, skip)).

(** The second half of a surrogate pair. *)
Definition from_utf16_low (d : data) (byteOrder : byte_order) (offset max i : Z)
    (src : list Z) (skip : Z) : res (option (Z * Z)) :=
  if i >=? max then
    match _dispatch_data_subrange_map d (u64 (offset + i * 2)) 2 with
    | None => Ok None
    | Some p => let! u := read_u16 p in
                Ok (Some (_dispatch_transform_swap_to_host u byteOrder, u64 (skip + 2)))
    end
  else
    let! u := read_u16 (drop (Z.to_nat (2 * i)) src) in
    Ok (Some (_dispatch_transform_swap_to_host u byteOrder, skip)).

Definition is_high (ch : Z) : bool := (0xd800 <=? ch) && (ch <=? 0xdbff).
Definition is_low (ch : Z) : bool := (0xdc00 <=? ch) && (ch <=? 0xdfff).

Fixpoint from_utf16_loop (fuel : nat) (d : data) (byteOrder : byte_order) (offset size max i : Z)
    (src : list Z) (st : utf_state) : res (utf_state * bool) :=
  match fuel with
  | O => Crash OutOfFuel
  | S fuel =>
      if i <? max then
        let! got := from_utf16_unit d byteOrder offset size max i src (us_skip st) in
        match got with
        | None => Ok (st, false)
        | Some (ch, skip) =>
            let st := UtfState skip (us_buffer st) in
            if (ch =? 0xfffe) && (offset =? 0) && (i =? 0) then Ok (st, false)
            else if (ch =? 0xfeff) && (offset =? 0) && (i =? 0) then
              from_utf16_loop fuel d byteOrder offset size max (i + 1) src st
            else
              let! decoded :=
                (if is_high ch then
                   let! got := from_utf16_low d byteOrder offset max (i + 1) src skip in
                   Ok (match got with
                       | None => None
                       | Some (lo, skip) =>
                           if is_low lo
                           then Some (Z.lor (Z.shiftl (ch - 0xd800) 10) (Z.land lo 0x3ff) + 0x10000,
                                      i + 1, skip)
                           else None
                       end)
                 else if is_low ch then Ok None
                 else Ok (Some (ch, i, skip))) in
              match decoded with
              | None => Ok (st, false)
              | Some (wch, i, skip) =>
                  if u64 (max - i) * 2 >? SIZE_MAX then Ok (UtfState skip (us_buffer st), false)
                  else
                    let! (b, ok) := put_utf8 (us_buffer st) wch (u64 (max - i) * 2) in
                    if ok then from_utf16_loop fuel d byteOrder offset size max (i + 1) src (UtfState skip b)
                    else Ok (UtfState skip b, false)
              end
        end
      else Ok (UtfState (us_skip st) (_dispatch_transform_buffer_new (us_buffer st) 0 0).1, true)
  end.

Definition from_utf16_region (d : data) (byteOrder : byte_order) (st : res utf_state)
    (offset : Z) (bytes : list Z) : res utf_state * bool :=
  let out :=
    let! st := st in
    let size := Z.of_nat (length bytes) in
    let '(b, ok) := if offset =? 0
                    then _dispatch_transform_buffer_new (us_buffer st) (howmany size 3 * 2) 0
                    else (us_buffer st, true) in
    if negb ok then Ok (UtfState (us_skip st) b, false)
    else if us_skip st >=? size then Ok (UtfState (us_skip st - size) b, true)
    else
      let src := drop (Z.to_nat (us_skip st)) bytes in
      let size := size - us_skip st in
      let max := size / 2 + (if size mod 2 =? 0 then 0 else 1) in
      from_utf16_loop (S (length bytes)) d byteOrder offset size max 0 src (UtfState 0 b) in
  match out with
  | Ok (st, ok) => (Ok st, ok)
  | Crash w => (Crash w, false)
  end.

Definition _dispatch_transform_from_utf16 (byteOrder : byte_order) (d : data)
    : res (option (list leaf)) :=
  let '(st, success) := data_apply (from_utf16_region d byteOrder) (Ok (UtfState 0 buffer_init)) d in
  let! st := st in
  Ok (if success then Some (tb_data (us_buffer st)) else None).

Definition _dispatch_transform_from_utf16le := _dispatch_transform_from_utf16 OSLittleEndian.
Definition _dispatch_transform_from_utf16be := _dispatch_transform_from_utf16 OSBigEndian.

Definition leaves (d : data) : list leaf :=
  map (fun b => Leaf (Z.of_nat (length b)) b) d.

(** The byte order mark is cut off; the result is a subrange of the input. *)
Definition _dispatch_transform_to_utf8_without_bom (d : data) : res (option (list leaf)) :=
  let has_bom := match _dispatch_data_subrange_map d 0 3 with
                 | Some p => bool_decide (p = [0xef; 0xbb; 0xbf])
                 | None => false
                 end in
  if has_bom then
    let rest := slice 3 (data_size d - 3) (contents d) in
    Ok (Some (data_concat [] (Leaf (Z.of_nat (length rest)) rest)))
  else Ok (Some (leaves d)).

(** ** Formats *)

Definition _DISPATCH_DATA_FORMAT_NONE : Z := 0x1.
Definition _DISPATCH_DATA_FORMAT_UTF8 : Z := 0x2.
Definition _DISPATCH_DATA_FORMAT_UTF16LE : Z := 0x4.
Definition _DISPATCH_DATA_FORMAT_UTF16BE : Z := 0x8.
Definition _DISPATCH_DATA_FORMAT_UTF_ANY : Z := 0x10.
Definition _DISPATCH_DATA_FORMAT_BASE32 : Z := 0x20.
Definition _DISPATCH_DATA_FORMAT_BASE32HEX : Z := 0x40.
Definition _DISPATCH_DATA_FORMAT_BASE64 : Z := 0x80.

Record dispatch_data_format_type_s := Format {
  f_type : Z;
  f_input_mask : Z;
  f_output_mask : Z;
  f_decode : option (data -> res (option (list leaf)));
  f_encode : option (data -> res (option (list leaf)));
}.

Definition base_mask : Z :=
  Z.lor (Z.lor _DISPATCH_DATA_FORMAT_NONE _DISPATCH_DATA_FORMAT_BASE32)
        (Z.lor _DISPATCH_DATA_FORMAT_BASE32HEX _DISPATCH_DATA_FORMAT_BASE64).
Definition utf_mask : Z :=
  Z.lor _DISPATCH_DATA_FORMAT_UTF8 (Z.lor _DISPATCH_DATA_FORMAT_UTF16BE _DISPATCH_DATA_FORMAT_UTF16LE).

(** [~0u], widened to 64 bits. *)
Definition any_mask : Z := UINT32_MAX.

Definition _dispatch_data_format_type_none : dispatch_data_format_type_s :=
  Format _DISPATCH_DATA_FORMAT_NONE any_mask any_mask None None.
Definition _dispatch_data_format_type_base32 : dispatch_data_format_type_s :=
  Format _DISPATCH_DATA_FORMAT_BASE32 base_mask base_mask
    (Some _dispatch_transform_from_base32) (Some _dispatch_transform_to_base32).
Definition _dispatch_data_format_type_base32hex : dispatch_data_format_type_s :=
  Format _DISPATCH_DATA_FORMAT_BASE32HEX base_mask base_mask
    (Some _dispatch_transform_from_base32hex) (Some _dispatch_transform_to_base32hex).
Definition _dispatch_data_format_type_base64 : dispatch_data_format_type_s :=
  Format _DISPATCH_DATA_FORMAT_BASE64 base_mask base_mask
    (Some _dispatch_transform_from_base64) (Some _dispatch_transform_to_base64).
Definition _dispatch_data_format_type_utf16le : dispatch_data_format_type_s :=
  Format _DISPATCH_DATA_FORMAT_UTF16LE utf_mask utf_mask
    (Some _dispatch_transform_from_utf16le) (Some _dispatch_transform_to_utf16le).
Definition _dispatch_data_format_type_utf16be : dispatch_data_format_type_s :=
  Format _DISPATCH_DATA_FORMAT_UTF16BE utf_mask utf_mask
    (Some _dispatch_transform_from_utf16be) (Some _dispatch_transform_to_utf16be).
Definition _dispatch_data_format_type_utf8 : dispatch_data_format_type_s :=
  Format _DISPATCH_DATA_FORMAT_UTF8 utf_mask utf_mask
    None (Some _dispatch_transform_to_utf8_without_bom).
Definition _dispatch_data_format_type_utf_any : dispatch_data_format_type_s :=
  Format _DISPATCH_DATA_FORMAT_UTF_ANY 0 0 None None.

Definition _dispatch_transform_detect_utf (d : data) : res (option dispatch_data_format_type_s) :=
  match _dispatch_data_subrange_map d 0 2 with
  | None => Ok None
  | Some p =>
      let! ch := read_u16 p in
      Ok (Some (if ch =? 0xfeff then _dispatch_data_format_type_utf16le
                else if ch =? 0xfffe then _dispatch_data_format_type_utf16be
                else _dispatch_data_format_type_utf8))
  end.

(** Reading a leaf beyond its buffer is out of bounds. *)
Definition as_data (ls : list leaf) : res data :=
  if forallb (fun l => leaf_size l <=? Z.of_nat (length (leaf_bytes l))) ls
  then Ok (map (fun l => take (Z.to_nat (leaf_size l)) (leaf_bytes l)) ls)
  else Crash OutOfBounds.

(** The result [None] is [DISPATCH_BAD_INPUT]. *)
Definition dispatch_data_create_with_transform (d : data)
    (input output : dispatch_data_format_type_s) : res (option (list leaf)) :=
  let! input :=
    (if f_type input =? _DISPATCH_DATA_FORMAT_UTF_ANY then _dispatch_transform_detect_utf d
     else Ok (Some input)) in
  match input with
  | None => Ok None
  | Some input =>
      if negb (Z.ldiff (f_type input) (f_input_mask output) =? 0) then Ok None
      else if negb (Z.ldiff (f_type output) (f_output_mask input) =? 0) then Ok None
      else if data_size d =? 0 then Ok (Some (leaves d))
      else
        let! temp1 := (match f_decode input with
                       | Some decode => decode d
                       | None => Ok (Some (leaves d))
                       end) in
        match temp1 with
        | None => Ok None
        | Some temp1 =>
            match f_encode output with
            | Some encode => let! temp1 := as_data temp1 in encode temp1
            | None => Ok (Some temp1)
            end
        end
  end.

End Transform.
