(* ===== verification/TransformBase.v ===== *)
(** * TransformBase: base64 and base32

    The encoders compute the RFC 4648 encoding of the contents whatever the
    division into regions, and the decoders invert it. *)

From S2P Require Import Prelude DispatchData DataSpec DataOps DataVisit Transform.

(** ** The encoder as a function of the contents *)

Section Stream.
Context (m : Z) (emit : Z -> Z -> Z -> list Z) (padding : Z -> Z -> list Z).
Context (m_pos : 1 < m).

(** What is emitted for [bytes], which start at position [count] and follow
    the byte [prev]. *)
Fixpoint stream (count prev : Z) (bytes : list Z) : list Z :=
  match bytes with
  | [] => []
  | c :: bytes =>
      emit (count mod m) (if count mod m =? 0 then 0 else prev) c ++ stream (count + 1) c bytes
  end.

Lemma stream_app count prev a b :
  stream count prev (a ++ b) =
  stream count prev a ++ stream (count + Z.of_nat (length a)) (List.last a prev) b.
Proof.
  revert count prev. induction a as [|c a IH]; intros count prev.
  { cbn [app stream length List.last]. by rewrite Z.add_0_r. }
  cbn [app stream length]. rewrite IH, app_assoc. f_equal.
  replace (count + 1 + Z.of_nat (length a)) with (count + Z.of_nat (S (length a))) by lia.
  f_equal. destruct a as [|x a]; [done|].
  change (List.last (c :: x :: a) prev) with (List.last (x :: a) prev).
  clear. revert x. induction a as [|y a IH]; intros x; [done|].
  change (List.last (y :: a) c = List.last (y :: a) prev). apply IH.
Qed.

Lemma encode_loop_prev d offset b bytes count out :
  encode_loop m emit d offset (Some b) bytes count out =
    Some (count + Z.of_nat (length bytes), out ++ stream count b bytes).
Proof.
  revert b count out. induction bytes as [|c bytes IH]; intros b count out; cbn [encode_loop stream length].
  { by rewrite Z.add_0_r, app_nil_r. }
  destruct (count mod m =? 0); rewrite IH, <-app_assoc; do 2 f_equal; lia.
Qed.

(** The byte before a region is found in the contents. *)
Lemma subrange_last d pre rest :
  contents d = pre ++ rest -> pre <> [] -> Z.of_nat (length pre) <= SIZE_MAX ->
  _dispatch_data_subrange_map d (u64 (Z.of_nat (length pre) - 1)) 1 = Some [List.last pre 0].
Proof.
  intros Hc Hne Hm. unfold _dispatch_data_subrange_map, SIZE_MAX in *. rewrite Hc.
  destruct (exists_last Hne) as (pre' & x & ->). rewrite length_app in *. cbn [length] in *.
  rewrite u64_small by lia. rewrite List.last_last.
  assert (Hs : slice (Z.of_nat (length pre' + 1) - 1) 1 ((pre' ++ [x]) ++ rest) = [x]).
  { unfold slice. rewrite <-app_assoc. rewrite drop_app_ge by lia.
    replace (Z.to_nat (Z.of_nat (length pre' + 1) - 1) - length pre')%nat with 0%nat by lia. done. }
  by rewrite Hs.
Qed.

Lemma encode_loop_region d pre bytes rest out :
  contents d = pre ++ bytes ++ rest -> Z.of_nat (length pre) <= SIZE_MAX ->
  encode_loop m emit d (Z.of_nat (length pre)) None bytes (Z.of_nat (length pre)) out =
    Some (Z.of_nat (length pre) + Z.of_nat (length bytes),
          out ++ stream (Z.of_nat (length pre)) (List.last pre 0) bytes).
Proof.
  intros Hc Hm. destruct bytes as [|c bytes]; cbn [encode_loop stream length].
  { by rewrite Z.add_0_r, app_nil_r. }
  destruct (Z.eqb_spec (Z.of_nat (length pre) mod m) 0) as [E|E].
  - rewrite encode_loop_prev, <-app_assoc. do 2 f_equal. lia.
  - rewrite (subrange_last d pre ((c :: bytes) ++ rest) Hc); [| |done].
    + rewrite encode_loop_prev, <-app_assoc. do 2 f_equal. lia.
    + intros ->. by rewrite Z.mod_0_l in E by lia.
Qed.

Lemma last_app_ne (a b : list Z) d0 : b <> [] -> List.last (a ++ b) d0 = List.last b d0.
Proof.
  intros Hb. destruct (exists_last Hb) as (b' & x & ->). by rewrite app_assoc, !List.last_last.
Qed.

Lemma table_get_last (bytes : list Z) :
  bytes <> [] -> table_get bytes (Z.of_nat (length bytes) - 1) = List.last bytes 0.
Proof.
  intros Hb. destruct (exists_last Hb) as (b' & x & ->). rewrite List.last_last, length_app.
  unfold table_get. cbn [length].
  replace (Z.to_nat (Z.of_nat (length b' + 1) - 1)) with (length b') by lia.
  by rewrite lookup_app_r, Nat.sub_diag by lia.
Qed.

(** All regions from [pre] on. *)
Lemma encode_regions d ds pre :
  contents d = pre ++ concat ds -> Forall (fun b => b <> []) ds -> ds <> [] ->
  data_size d <= SIZE_MAX ->
  run_regions (fun c _ offset bytes => encode_region m emit padding d (data_size d) c offset bytes)
    (Z.of_nat (length pre), stream 0 0 pre) (Z.of_nat (length pre)) (map (pair 0) ds) =
  ((data_size d, stream 0 0 (contents d) ++ padding (data_size d mod m) (List.last (contents d) 0)), true).
Proof.
  revert pre. induction ds as [|b ds IH]; intros pre Hc Hne Hds Hm; [done|].
  apply Forall_cons in Hne as [Hb Hne]. cbn [map run_regions].
  assert (Hlen : data_size d = Z.of_nat (length pre) + Z.of_nat (length b) + Z.of_nat (length (concat ds))).
  { unfold data_size. rewrite Hc. cbn [concat]. rewrite !length_app. lia. }
  unfold encode_region at 1.
  rewrite (encode_loop_region d pre b (concat ds)) by (done || lia).
  assert (Hst : stream 0 0 pre ++ stream (Z.of_nat (length pre)) (List.last pre 0) b = stream 0 0 (pre ++ b)).
  { by rewrite stream_app. }
  rewrite Hst. destruct ds as [|b2 ds].
  - rewrite (proj2 (Z.eqb_eq _ (data_size d))) by (cbn in Hlen; lia).
    cbn [map run_regions]. f_equal. f_equal; [cbn in Hlen; lia|].
    cbn [concat] in Hc. rewrite app_nil_r in Hc. rewrite Hc, table_get_last by done.
    f_equal. f_equal; [f_equal; cbn in Hlen; lia|]. by rewrite last_app_ne.
  - assert (Hpos : (0 < length b2)%nat).
    { apply Forall_cons in Hne as [Hb2 _]. destruct b2; [done|cbn; lia]. }
    rewrite (proj2 (Z.eqb_neq _ (data_size d))) by (rewrite Hlen; cbn [concat]; rewrite length_app; lia).
    replace (Z.of_nat (length pre) + Z.of_nat (length b)) with (Z.of_nat (length (pre ++ b)))
      by (rewrite length_app; lia).
    apply IH; try done. rewrite Hc. cbn [concat]. by rewrite app_assoc.
Qed.

(** The whole encoder. *)
Lemma encode_with_ok malloc group d :
  Forall (fun b => b <> []) d -> 0 < group ->
  howmany (data_size d) m <= SIZE_MAX / group -> data_size d <= SIZE_MAX ->
  malloc (howmany (data_size d) m * group) = true ->
  (forall l, padding 0 l = []) ->
  Z.of_nat (length (stream 0 0 (contents d) ++ padding (data_size d mod m) (List.last (contents d) 0))) =
    howmany (data_size d) m * group ->
  encode_with malloc m emit padding group d =
    Ok (Some (data_concat [] (Leaf (howmany (data_size d) m * group)
      (stream 0 0 (contents d) ++ padding (data_size d mod m) (List.last (contents d) 0))))).
Proof.
  intros Hne Hg Hh Hm Hmal Hp0 Hlen. unfold encode_with.
  rewrite Z.gtb_ltb, (proj2 (Z.ltb_ge _ _)) by lia. rewrite Hmal. cbn [negb].
  destruct d as [|b d].
  - unfold data_apply. cbn [map run_regions negb].
    unfold data_size, contents in *. cbn [concat length] in *.
    rewrite Z.mod_0_l, Hp0 in * by lia. cbn in Hlen. cbn [stream app length]. rewrite <-Hlen. done.
  - unfold data_apply.
    pose proof (encode_regions (b :: d) (b :: d) [] eq_refl Hne ltac:(done) Hm) as He.
    cbn [length stream] in He. change (Z.of_nat 0) with 0 in He. rewrite He. cbn [negb].
    by rewrite Hlen, Z.eqb_refl.
Qed.
End Stream.

(** ** Bit arithmetic *)

(** Bits [lo..] of [last] followed by the top bits of [curr]. *)
Lemma straddle last curr n k w :
  byte curr -> 0 <= n -> 0 <= k -> n + k = 8 -> 0 <= w ->
  Z.land (Z.lor (Z.shiftl last n) (Z.shiftr curr k)) (2 ^ w - 1) = (last * 2 ^ n + curr / 2 ^ k) mod 2 ^ w.
Proof.
  intros Hc Hn Hk Hnk Hw. rewrite land_mask by done. rewrite shiftr_div by done.
  rewrite lor_shift; [done|done|]. unfold byte in Hc.
  split; [apply Z.div_pos; lia|]. apply Z.div_lt_upper_bound; [lia|].
  rewrite <-Z.pow_add_r by lia. replace (k + n) with 8 by lia. lia.
Qed.

(** ** Base64 *)

(** RFC 4648, table 1: the upper-case letters, the lower-case letters, the
    digits, and the signs plus and solidus. *)
Definition b64 (v : Z) : Z :=
  if v <? 26 then 65 + v
  else if v <? 52 then 97 + (v - 26)
  else if v <? 62 then 48 + (v - 52)
  else if v =? 62 then 43 else 47.

(** The table of the code is that of the RFC. *)
Lemma b64_get v : 0 <= v < 64 -> table_get base64_encode_table v = b64 v.
Proof.
  intros Hv. assert (forallb (fun n => table_get base64_encode_table (Z.of_nat n) =? b64 (Z.of_nat n)) (seq 0 64) = true) as H
    by (by vm_compute).
  rewrite forallb_forall in H. specialize (H (Z.to_nat v)). rewrite Z2Nat.id in H by lia. apply Z.eqb_eq, H, in_seq. lia.
Qed.

(** RFC 4648, section 4: groups of 24 bits as four characters, the last group
    padded. *)
Fixpoint b64_ref (bs : list Z) : list Z :=
  match bs with
  | a :: b :: c :: bs =>
      b64 (a / 4) :: b64 (a mod 4 * 16 + b / 16) :: b64 (b mod 16 * 4 + c / 64) :: b64 (c mod 64)
        :: b64_ref bs
  | [a; b] => [b64 (a / 4); b64 (a mod 4 * 16 + b / 16); b64 (b mod 16 * 4); 61]
  | [a] => [b64 (a / 4); b64 (a mod 4 * 16); 61; 61]
  | [] => []
  end.

(** Induction three bytes at a time. *)
Lemma list_ind3 (P : list Z -> Prop) :
  P [] -> (forall a, P [a]) -> (forall a b, P [a; b]) ->
  (forall a b c l, P l -> P (a :: b :: c :: l)) -> forall l, P l.
Proof.
  intros H0 H1 H2 H3. fix IH 1. intros [|a [|b [|c l]]];
    [exact H0|exact (H1 a)|exact (H2 a b)|exact (H3 a b c l (IH l))].
Qed.

Lemma base64_emit0 last c : byte c -> base64_emit 0 last c = [b64 (c / 4)].
Proof.
  intros Hc. unfold base64_emit. cbn [Z.eqb]. change 63 with (2 ^ 6 - 1).
  rewrite land_mask, shiftr_div by lia. unfold byte in Hc. rewrite b64_get by (apply Z.mod_pos_bound; lia). f_equal. f_equal.
  change (2 ^ 2) with 4. change (2 ^ 6) with 64. Z.to_euclidean_division_equations; lia.
Qed.

Lemma base64_emit1 last c : byte last -> byte c -> base64_emit 1 last c = [b64 (last mod 4 * 16 + c / 16)].
Proof.
  intros Hl Hc. unfold base64_emit. cbn [Z.eqb Pos.eqb]. change 63 with (2 ^ 6 - 1).
  rewrite straddle by (done || lia). unfold byte in *. rewrite b64_get by (apply Z.mod_pos_bound; lia). f_equal. f_equal.
  change (2 ^ 4) with 16. change (2 ^ 6) with 64. Z.to_euclidean_division_equations; lia.
Qed.

Lemma base64_emit2 last c : byte last -> byte c ->
  base64_emit 2 last c = [b64 (last mod 16 * 4 + c / 64); b64 (c mod 64)].
Proof.
  intros Hl Hc. unfold base64_emit. cbn [Z.eqb Pos.eqb]. change 63 with (2 ^ 6 - 1).
  rewrite straddle, land_mask by (done || lia). unfold byte in *. rewrite !b64_get by (apply Z.mod_pos_bound; lia). change (2 ^ 6) with 64.
  change (2 ^ 2) with 4. f_equal. f_equal. Z.to_euclidean_division_equations; lia.
Qed.

Lemma base64_pad1 c : byte c -> base64_padding 1 c = [b64 (c mod 4 * 16); 61; 61].
Proof.
  intros Hc. unfold base64_padding. cbn [Z.eqb Pos.eqb].
  change 48 with (Z.shiftl (2 ^ 2 - 1) 4). rewrite <-Z.shiftl_land, land_mask by lia.
  rewrite Z.shiftl_mul_pow2 by lia. by rewrite b64_get by zbits.
Qed.

Lemma base64_pad2 c : byte c -> base64_padding 2 c = [b64 (c mod 16 * 4); 61].
Proof.
  intros Hc. unfold base64_padding. cbn [Z.eqb Pos.eqb].
  change 60 with (Z.shiftl (2 ^ 4 - 1) 2). rewrite <-Z.shiftl_land, land_mask by lia.
  rewrite Z.shiftl_mul_pow2 by lia. by rewrite b64_get by zbits.
Qed.

(** Positions count modulo the group size. *)
Lemma stream_shift m emit count prev bs :
  1 < m -> stream m emit (count + m) prev bs = stream m emit count prev bs.
Proof.
  intros Hm. revert count prev. induction bs as [|c bs IH]; intros count prev; [done|].
  cbn [stream]. rewrite <-(IH (count + 1)). replace (count + m + 1) with (count + 1 + m) by lia.
  replace ((count + m) mod m) with (count mod m); [done|].
  rewrite <-(Z_mod_plus_full count 1 m). f_equal. lia.
Qed.

Lemma stream_start m emit prev prev' bs : 1 < m -> stream m emit 0 prev bs = stream m emit 0 prev' bs.
Proof. intros Hm. destruct bs; [done|]. cbn [stream]. by rewrite Z.mod_0_l by lia. Qed.

Lemma b64_ref_stream bs prev :
  Forall byte bs ->
  stream 3 base64_emit 0 prev bs ++
    base64_padding (Z.of_nat (length bs) mod 3) (List.last bs 0) = b64_ref bs.
Proof.
  revert prev. induction bs as [|a|a b|a b c bs IH] using list_ind3; intros prev Hb; [done|..].
  - apply Forall_cons in Hb as [Ha _]. cbn [stream app length List.last].
    change (0 mod 3) with 0. change (Z.of_nat 1 mod 3) with 1.
    rewrite base64_emit0, base64_pad1 by done. done.
  - apply Forall_cons in Hb as [Ha Hb]. apply Forall_cons in Hb as [Hb _].
    cbn [stream app length List.last]. change (0 mod 3) with 0. change ((0 + 1) mod 3) with 1.
    change (Z.of_nat 2 mod 3) with 2. cbn [Z.eqb].
    rewrite base64_emit0, base64_emit1, base64_pad2 by done. done.
  - apply Forall_cons in Hb as [Ha Hb]. apply Forall_cons in Hb as [Hb Hc].
    apply Forall_cons in Hc as [Hc Hbs].
    cbn [stream b64_ref]. change (0 mod 3) with 0. change ((0 + 1) mod 3) with 1.
    change ((0 + 1 + 1) mod 3) with 2. cbn [Z.eqb].
    rewrite base64_emit0, base64_emit1, base64_emit2 by done. cbn [app]. do 4 f_equal.
    change (0 + 1 + 1 + 1) with (0 + 3). rewrite stream_shift by lia. rewrite <-(IH c Hbs). f_equal.
    destruct bs as [|x bs]; [done|]. f_equal. cbn [length].
    replace (Z.of_nat (S (S (S (S (length bs)))))) with (Z.of_nat (S (length bs)) + 1 * 3) by lia.
    by rewrite Z.mod_add by lia.
Qed.

Lemma length_b64_ref bs : Z.of_nat (length (b64_ref bs)) = howmany (Z.of_nat (length bs)) 3 * 4.
Proof.
  induction bs as [|a|a b|a b c bs IH] using list_ind3; [done..|].
  cbn [b64_ref length] in *. unfold howmany in *.
  replace (Z.of_nat (S (S (S (length bs)))) + (3 - 1)) with (Z.of_nat (length bs) + (3 - 1) + 1 * 3) by lia.
  rewrite Z.div_add by lia. lia.
Qed.

Lemma to_base64_ok malloc d :
  Forall (fun b => b <> []) d -> Forall byte (contents d) ->
  howmany (data_size d) 3 <= SIZE_MAX / 4 -> data_size d <= SIZE_MAX ->
  malloc (howmany (data_size d) 3 * 4) = true ->
  _dispatch_transform_to_base64 malloc d =
    Ok (Some (data_concat [] (Leaf (howmany (data_size d) 3 * 4) (b64_ref (contents d))))).
Proof.
  intros Hne Hb Hh Hm Hmal. unfold _dispatch_transform_to_base64.
  assert (Hs : stream 3 base64_emit 0 0 (contents d) ++
    base64_padding (data_size d mod 3) (List.last (contents d) 0) = b64_ref (contents d))
    by (by apply b64_ref_stream).
  rewrite (encode_with_ok 3 base64_emit base64_padding ltac:(lia) malloc 4 d); try done; [by rewrite Hs|].
  rewrite Hs. apply length_b64_ref.
Qed.

(** ** Decoding *)

Lemma u64_mod z n : 0 <= n <= 64 -> u64 z mod 2 ^ n = z mod 2 ^ n.
Proof.
  intros Hn. unfold u64. apply Z.mod_mod_divide.
  exists (2 ^ (64 - n)). rewrite <-Z.pow_add_r by lia. f_equal. lia.
Qed.

(** The accumulator, seen through its low [n] bits. *)
Lemma acc_mod x v bits n :
  0 <= bits -> 0 <= n <= 64 ->
  u64 (u64 (Z.shiftl x bits) + v) mod 2 ^ n = (x mod 2 ^ n * 2 ^ bits + v) mod 2 ^ n.
Proof.
  intros Hb Hn. rewrite u64_mod by done. rewrite <-Zplus_mod_idemp_l, u64_mod by done.
  rewrite Zplus_mod_idemp_l, Z.shiftl_mul_pow2 by done.
  rewrite <-(Zplus_mod_idemp_l (x mod 2 ^ n * 2 ^ bits)), Zmult_mod_idemp_l.
  by rewrite Zplus_mod_idemp_l.
Qed.

Lemma byte_at_mod x s n : 0 <= s -> s + 8 <= n -> byte_at x s = x mod 2 ^ n / 2 ^ s mod 256.
Proof.
  intros Hs Hn. unfold byte_at. change 255 with (2 ^ 8 - 1). rewrite land_mask, shiftr_div by lia.
  change 256 with (2 ^ 8). rewrite (Z.div_mod x (2 ^ n)) at 1 by lia.
  replace (2 ^ n) with (2 ^ (n - s - 8) * 2 ^ 8 * 2 ^ s) at 1
    by (rewrite <-!Z.pow_add_r by lia; f_equal; lia).
  replace (2 ^ (n - s - 8) * 2 ^ 8 * 2 ^ s * (x / 2 ^ n) + x mod 2 ^ n) with
    (x mod 2 ^ n + (2 ^ (n - s - 8) * (x / 2 ^ n) * 2 ^ 8) * 2 ^ s) by lia.
  rewrite Z.div_add by lia. by rewrite Z.mod_add by lia.
Qed.

Lemma land_count count group g :
  group = 2 ^ g -> 0 <= g <= 64 -> Z.land (u64 count) (group - 1) = count mod group.
Proof. intros -> Hg. rewrite land_mask, u64_mod by lia. done. Qed.

Section DecodeChar.
Context (table : list Z) (table_size bits group : Z) (flush : Z -> list Z).

Definition decodes (c v : Z) : Prop :=
  is_blank c = false /\ c < table_size /\ table_get table c = v /\ 0 <= v < 2 ^ bits.

Definition acc (x v : Z) : Z := u64 (u64 (Z.shiftl x bits) + v).

(** A character that does not complete its group. *)
Lemma decode_char g c v rest x count pad dest :
  decodes c v -> group = 2 ^ g -> 0 <= g <= 64 ->
  decode_loop table table_size bits group flush (c :: rest) (Decoder x count pad) dest =
  decode_loop table table_size bits group flush rest (Decoder (acc x v) (u64 (count + 1)) pad)
    (if (count + 1) mod group =? 0 then dest ++ flush (acc x v) else dest).
Proof.
  intros (H1 & H2 & H3 & H4) Hg Hgb. cbn [decode_loop dec_x dec_count dec_pad]. rewrite H1, H3.
  rewrite Z.geb_leb, (proj2 (Z.leb_gt _ _)) by done. rewrite (proj2 (Z.eqb_neq v (-1))) by lia.
  rewrite (proj2 (Z.eqb_neq v (-2))) by lia. cbn [orb].
  by rewrite (land_count _ group g).
Qed.

(** A padding character. *)
Lemma decode_pad g c rest x count pad dest :
  is_blank c = false -> c < table_size -> table_get table c = -2 -> group = 2 ^ g -> 0 <= g <= 64 ->
  decode_loop table table_size bits group flush (c :: rest) (Decoder x count pad) dest =
  decode_loop table table_size bits group flush rest (Decoder (acc x 0) (u64 (count + 1)) (u64 (pad + 1)))
    (if (count + 1) mod group =? 0 then dest ++ flush (acc x 0) else dest).
Proof.
  intros H1 H2 H3 Hg Hgb. cbn [decode_loop dec_x dec_count dec_pad]. rewrite H1, H3.
  rewrite Z.geb_leb, (proj2 (Z.leb_gt _ _)) by done. cbn [orb Z.eqb Pos.eqb].
  by rewrite (land_count _ group g).
Qed.
End DecodeChar.

(** Every character of an alphabet decodes to its index. *)
Definition alphabet_ok (enc dec : list Z) (size bits : Z) (n : nat) : bool :=
  forallb (fun v => let c := table_get enc (Z.of_nat v) in
    negb (is_blank c) && (c <? size) && (table_get dec c =? Z.of_nat v) && (Z.of_nat v <? 2 ^ bits))
    (seq 0 n).

Lemma alphabet_decodes enc dec size bits n v :
  alphabet_ok enc dec size bits n = true -> 0 <= v < Z.of_nat n ->
  decodes dec size bits (table_get enc v) v.
Proof.
  intros Ha Hv. unfold alphabet_ok in Ha. rewrite forallb_forall in Ha.
  specialize (Ha (Z.to_nat v)). rewrite Z2Nat.id in Ha by lia.
  rewrite !andb_true_iff, negb_true_iff, !Z.ltb_lt, Z.eqb_eq in Ha.
  destruct Ha as (((H1 & H2) & H3) & H4); [apply in_seq; lia|]. split_and!; try done; lia.
Qed.

Lemma b64_decodes v : 0 <= v < 64 -> decodes base64_decode_table base64_decode_table_size 6 (b64 v) v.
Proof. intros Hv. rewrite <- b64_get by done. apply (alphabet_decodes _ _ _ _ 64); [by vm_compute|lia]. Qed.

Abbreviation b64_loop := (decode_loop base64_decode_table base64_decode_table_size 6 4 base64_flush).

Lemma b64_flush_bytes x v1 v2 v3 v4 :
  0 <= v1 < 64 -> 0 <= v2 < 64 -> 0 <= v3 < 64 -> 0 <= v4 < 64 ->
  base64_flush (acc 6 (acc 6 (acc 6 (acc 6 x v1) v2) v3) v4) =
    [v1 * 4 + v2 / 16; v2 mod 16 * 16 + v3 / 4; v3 mod 4 * 64 + v4].
Proof.
  intros H1 H2 H3 H4. set (y := acc 6 _ v4).
  assert (Hy : y mod 2 ^ 24 = v1 * 2 ^ 18 + v2 * 2 ^ 12 + v3 * 2 ^ 6 + v4).
  { unfold y, acc. rewrite !acc_mod by lia. change (2 ^ 24) with 16777216. change (2 ^ 6) with 64.
    change (2 ^ 18) with 262144. change (2 ^ 12) with 4096.
    Z.to_euclidean_division_equations; lia. }
  unfold base64_flush. rewrite !(byte_at_mod y _ 24) by lia. rewrite Hy.
  change (2 ^ 18) with 262144. change (2 ^ 12) with 4096. change (2 ^ 6) with 64.
  change (2 ^ 16) with 65536. change (2 ^ 8) with 256. change (2 ^ 0) with 1.
  repeat f_equal; Z.to_euclidean_division_equations; lia.
Qed.

Lemma succ_u64_mod c g : 0 <= g <= 64 -> (u64 c + 1) mod 2 ^ g = (c + 1) mod 2 ^ g.
Proof. intros Hg. rewrite <-Zplus_mod_idemp_l, u64_mod by done. apply Zplus_mod_idemp_l. Qed.

(** The count after [k] more characters. *)
Fixpoint count_after (k : nat) (c : Z) : Z :=
  match k with O => c | S k => u64 (count_after k c + 1) end.

Lemma count_after_mod k c g : 0 <= g <= 64 -> count_after k c mod 2 ^ g = (c + Z.of_nat k) mod 2 ^ g.
Proof.
  intros Hg. induction k as [|k IH]; cbn [count_after]; [by rewrite Z.add_0_r|].
  rewrite u64_mod by done. rewrite <-Zplus_mod_idemp_l, IH, Zplus_mod_idemp_l. f_equal. lia.
Qed.

Lemma count_phase k c g :
  0 <= g <= 64 -> c mod 2 ^ g = 0 -> (count_after k c + 1) mod 2 ^ g = (Z.of_nat k + 1) mod 2 ^ g.
Proof.
  intros Hg Hc. rewrite <-Zplus_mod_idemp_l, count_after_mod by done.
  rewrite Zplus_mod_idemp_l. replace (c + Z.of_nat k + 1) with (Z.of_nat k + 1 + c) by lia.
  rewrite <-Zplus_mod_idemp_r, Hc, Z.add_0_r. done.
Qed.

(** A symbol of an encoding: a character with its value, or a pad. *)
Definition symbol (table : list Z) (size bits c v p : Z) : Prop :=
  decodes table size bits c v /\ p = 0 \/
  (is_blank c = false /\ c < size /\ table_get table c = -2) /\ v = 0 /\ p = 1.

Lemma decode_symbol table size bits group flush g c v p rest x count pad dest :
  symbol table size bits c v p -> group = 2 ^ g -> 0 <= g <= 64 -> 0 <= pad < 100 ->
  decode_loop table size bits group flush (c :: rest) (Decoder x count pad) dest =
  decode_loop table size bits group flush rest (Decoder (acc bits x v) (u64 (count + 1)) (pad + p))
    (if (count + 1) mod group =? 0 then dest ++ flush (acc bits x v) else dest).
Proof.
  intros [[Hd ->]|((H1 & H2 & H3) & -> & ->)] Hg Hgb Hp.
  - rewrite Z.add_0_r. by apply (decode_char _ _ _ _ _ g).
  - rewrite (decode_pad _ _ _ _ _ g) by done. by rewrite (u64_small (pad + 1)) by lia.
Qed.

(** *** Groups of four *)

Abbreviation sym64 := (symbol base64_decode_table base64_decode_table_size 6).

Lemma sym64_char v : 0 <= v < 64 -> sym64 (b64 v) v 0.
Proof. intros Hv. left. split; [by apply b64_decodes|done]. Qed.

Lemma sym64_pad : sym64 61 0 1.
Proof. right. by vm_compute. Qed.

Lemma b64_group c1 v1 p1 c2 v2 p2 c3 v3 p3 c4 v4 p4 rest x count pad dest :
  sym64 c1 v1 p1 -> sym64 c2 v2 p2 -> sym64 c3 v3 p3 -> sym64 c4 v4 p4 ->
  0 <= v1 < 64 -> 0 <= v2 < 64 -> 0 <= v3 < 64 -> 0 <= v4 < 64 ->
  0 <= p1 <= 1 -> 0 <= p2 <= 1 -> 0 <= p3 <= 1 -> 0 <= pad < 90 -> count mod 4 = 0 ->
  exists x', b64_loop (c1 :: c2 :: c3 :: c4 :: rest) (Decoder x count pad) dest =
    b64_loop rest (Decoder x' (count_after 4 count) (pad + p1 + p2 + p3 + p4))
      (dest ++ [v1 * 4 + v2 / 16; v2 mod 16 * 16 + v3 / 4; v3 mod 4 * 64 + v4]).
Proof.
  intros S1 S2 S3 S4 H1 H2 H3 H4 Q1 Q2 Q3 Hp Hc.
  pose proof (count_phase 0 count 2 ltac:(lia) Hc) as P0. pose proof (count_phase 1 count 2 ltac:(lia) Hc) as P1.
  pose proof (count_phase 2 count 2 ltac:(lia) Hc) as P2. pose proof (count_phase 3 count 2 ltac:(lia) Hc) as P3.
  cbn [count_after] in *. change (2 ^ 2) with 4 in *.
  rewrite (decode_symbol _ _ _ _ _ 2 _ _ _ _ _ _ _ _ S1) by (done || lia). rewrite P0.
  rewrite (decode_symbol _ _ _ _ _ 2 _ _ _ _ _ _ _ _ S2) by (done || lia). rewrite P1.
  rewrite (decode_symbol _ _ _ _ _ 2 _ _ _ _ _ _ _ _ S3) by (done || lia). rewrite P2.
  rewrite (decode_symbol _ _ _ _ _ 2 _ _ _ _ _ _ _ _ S4) by (done || lia). rewrite P3.
  eexists. by rewrite <-(b64_flush_bytes x) by done.
Qed.

Lemma b64_ref_decode bs : forall x count dest,
  Forall byte bs -> count mod 4 = 0 ->
  exists x' count', b64_loop (b64_ref bs) (Decoder x count 0) dest =
    (Decoder x' count' ((3 - Z.of_nat (length bs) mod 3) mod 3),
     dest ++ bs ++ replicate (Z.to_nat ((3 - Z.of_nat (length bs) mod 3) mod 3)) 0, true).
Proof.
  induction bs as [|a|a b|a b c bs IH] using list_ind3; intros x count dest Hb Hc.
  - exists x, count. cbn. by rewrite app_nil_r.
  - apply Forall_cons in Hb as [Ha _]. unfold byte in *.
    destruct (b64_group (b64 (a / 4)) (a / 4) 0 (b64 (a mod 4 * 16)) (a mod 4 * 16) 0 61 0 1 61 0 1
      [] x count 0 dest) as [x' E]; try lia; try (apply sym64_char); try (apply sym64_pad); try zbits.
    exists x', (count_after 4 count). cbn [b64_ref]. rewrite E.
    replace (a / 4 * 4 + a mod 4 * 16 / 16) with a by zbits.
    replace ((a mod 4 * 16) mod 16 * 16 + 0 / 4) with 0 by zbits. done.
  - apply Forall_cons in Hb as [Ha Hb]. apply Forall_cons in Hb as [Hb _]. unfold byte in *.
    destruct (b64_group (b64 (a / 4)) (a / 4) 0 (b64 (a mod 4 * 16 + b / 16)) (a mod 4 * 16 + b / 16) 0
      (b64 (b mod 16 * 4)) (b mod 16 * 4) 0 61 0 1 [] x count 0 dest) as [x' E];
      try lia; try (apply sym64_char); try (apply sym64_pad); try zbits.
    exists x', (count_after 4 count). cbn [b64_ref]. rewrite E.
    replace (a / 4 * 4 + (a mod 4 * 16 + b / 16) / 16) with a by zbits.
    replace ((a mod 4 * 16 + b / 16) mod 16 * 16 + b mod 16 * 4 / 4) with b by zbits.
    replace ((b mod 16 * 4) mod 4 * 64 + 0) with 0 by zbits. done.
  - apply Forall_cons in Hb as [Ha Hb]. apply Forall_cons in Hb as [Hb Hcs].
    apply Forall_cons in Hcs as [Hcc Hbs]. unfold byte in *.
    destruct (b64_group (b64 (a / 4)) (a / 4) 0 (b64 (a mod 4 * 16 + b / 16)) (a mod 4 * 16 + b / 16) 0
      (b64 (b mod 16 * 4 + c / 64)) (b mod 16 * 4 + c / 64) 0 (b64 (c mod 64)) (c mod 64) 0
      (b64_ref bs) x count 0 dest) as [x' E];
      try lia; try (apply sym64_char); try zbits.
    destruct (IH x' (count_after 4 count) (dest ++ [a; b; c]) Hbs) as (x2 & count2 & HI).
    { pose proof (count_after_mod 4 count 2 ltac:(lia)) as P4. change (2 ^ 2) with 4 in P4.
      rewrite P4, Zplus_mod, Hc. done. }
    exists x2, count2. cbn [b64_ref]. rewrite E.
    replace (a / 4 * 4 + (a mod 4 * 16 + b / 16) / 16) with a by zbits.
    replace ((a mod 4 * 16 + b / 16) mod 16 * 16 + (b mod 16 * 4 + c / 64) / 4) with b by zbits.
    replace ((b mod 16 * 4 + c / 64) mod 4 * 64 + c mod 64) with c by zbits.
    change (0 + 0 + 0 + 0 + 0) with 0. rewrite HI. cbn [length].
    replace (Z.of_nat (S (S (S (length bs))))) with (Z.of_nat (length bs) + 1 * 3) by lia.
    rewrite Z.mod_add by lia. by rewrite <-app_assoc.
Qed.

(** Decoding the encoding of [bs] as one region. *)
Lemma from_base64_ref malloc bs :
  Forall byte bs -> bs <> [] -> Z.of_nat (length bs) <= SIZE_MAX ->
  malloc (howmany (Z.of_nat (length (b64_ref bs))) 4 * 3) = true ->
  exists ls, _dispatch_transform_from_base64 malloc [b64_ref bs] = Ok (Some ls) /\ out_bytes ls = bs.
Proof.
  intros Hb Hne Hm Hmal. unfold _dispatch_transform_from_base64, decode_with, data_apply.
  cbn [map run_regions]. unfold decode_region at 1. rewrite Hmal. cbn [negb].
  destruct (b64_ref_decode bs 0 0 [] Hb eq_refl) as (x' & count' & HD). rewrite HD. clear HD.
  set (pad := (3 - Z.of_nat (length bs) mod 3) mod 3).
  assert (Hpad : 0 <= pad < 3) by (unfold pad; apply Z.mod_pos_bound; lia).
  assert (Hpos : (0 < length bs)%nat) by (destruct bs; [done|cbn; lia]).
  cbn [dec_pad app]. rewrite length_app, length_replicate.
  rewrite (proj2 (Z.ltb_ge _ _)).
  2: { rewrite length_b64_ref. unfold howmany, pad. zbits. }
  cbn [rbind].
  assert (Hfin : base64_final (Z.of_nat (length bs + Z.to_nat pad)) pad = Z.of_nat (length bs)).
  { unfold base64_final. rewrite Z.gtb_ltb. unfold SIZE_MAX in *.
    destruct (Z.ltb_spec 0 pad); [rewrite u64_small|]; lia. }
  rewrite Hfin. eexists. split; [done|]. unfold data_concat. cbn [leaf_size].
  rewrite (proj2 (Z.eqb_neq _ 0)) by lia. unfold out_bytes. cbn [map concat leaf_size leaf_bytes app].
  rewrite app_nil_r, Nat2Z.id. by rewrite take_app_length.
Qed.
