(* ===== verification/TransformBase32.v ===== *)
(** * TransformBase32: base32 with either alphabet *)

From S2P Require Import Prelude DispatchData DataSpec DataOps DataVisit Transform TransformBase.

(** RFC 4648, tables 3 and 4: the alphabets of the code. *)
Lemma base32_alphabet v : 0 <= v < 32 ->
  table_get base32_encode_table v = (if v <? 26 then 65 + v else 50 + (v - 26)) /\
  table_get base32hex_encode_table v = (if v <? 10 then 48 + v else 65 + (v - 10)).
Proof.
  intros Hv. assert (forallb (fun n => let v := Z.of_nat n in
    (table_get base32_encode_table v =? (if v <? 26 then 65 + v else 50 + (v - 26))) &&
    (table_get base32hex_encode_table v =? (if v <? 10 then 48 + v else 65 + (v - 10)))) (seq 0 32) = true) as H
    by (by vm_compute).
  rewrite forallb_forall in H. specialize (H (Z.to_nat v)). rewrite Z2Nat.id, andb_true_iff, !Z.eqb_eq in H by lia.
  apply H, in_seq. lia.
Qed.

Section Base32.
Context (enc : list Z).

Definition b32 (v : Z) : Z := table_get enc v.

(** RFC 4648, section 6, with an alphabet. *)
Fixpoint b32_ref (bs : list Z) : list Z :=
  match bs with
  | a :: b :: c :: d :: e :: bs =>
      b32 (a / 8) :: b32 (a mod 8 * 4 + b / 64) :: b32 (b / 2 mod 32) :: b32 (b mod 2 * 16 + c / 16)
        :: b32 (c mod 16 * 2 + d / 128) :: b32 (d / 4 mod 32) :: b32 (d mod 4 * 8 + e / 32)
        :: b32 (e mod 32) :: b32_ref bs
  | [a; b; c; d] =>
      [b32 (a / 8); b32 (a mod 8 * 4 + b / 64); b32 (b / 2 mod 32); b32 (b mod 2 * 16 + c / 16);
       b32 (c mod 16 * 2 + d / 128); b32 (d / 4 mod 32); b32 (d mod 4 * 8); 61]
  | [a; b; c] =>
      [b32 (a / 8); b32 (a mod 8 * 4 + b / 64); b32 (b / 2 mod 32); b32 (b mod 2 * 16 + c / 16);
       b32 (c mod 16 * 2); 61; 61; 61]
  | [a; b] =>
      [b32 (a / 8); b32 (a mod 8 * 4 + b / 64); b32 (b / 2 mod 32); b32 (b mod 2 * 16); 61; 61; 61; 61]
  | [a] => [b32 (a / 8); b32 (a mod 8 * 4); 61; 61; 61; 61; 61; 61]
  | [] => []
  end.

Lemma list_ind5 (P : list Z -> Prop) :
  P [] -> (forall a, P [a]) -> (forall a b, P [a; b]) -> (forall a b c, P [a; b; c]) ->
  (forall a b c d, P [a; b; c; d]) ->
  (forall a b c d e l, P l -> P (a :: b :: c :: d :: e :: l)) -> forall l, P l.
Proof.
  intros H0 H1 H2 H3 H4 H5. fix IH 1. intros [|a [|b [|c [|d [|e l]]]]];
    [exact H0|exact (H1 a)|exact (H2 a b)|exact (H3 a b c)|exact (H4 a b c d)
    |exact (H5 a b c d e l (IH l))].
Qed.

(** ** Encoding *)

Lemma straddle5 last c n k : byte c -> 0 <= n -> 0 <= k -> n + k = 8 ->
  Z.land (Z.lor (Z.shiftl last n) (Z.shiftr c k)) 31 = (last * 2 ^ n + c / 2 ^ k) mod 32.
Proof. intros. change 31 with (2 ^ 5 - 1). by rewrite straddle by (done || lia). Qed.

Lemma land5 z : Z.land z 31 = z mod 32.
Proof. change 31 with (2 ^ 5 - 1). by rewrite land_mask by lia. Qed.

Lemma b32_emit0 l c : byte c -> base32_emit enc 0 l c = [b32 (c / 8)].
Proof.
  intros Hc. unfold base32_emit, b32. cbn [Z.eqb Pos.eqb]. rewrite land5, shiftr_div by lia.
  change (2 ^ 3) with 8. unfold byte in *. f_equal. f_equal. zbits.
Qed.

Lemma b32_emit1 l c : byte l -> byte c ->
  base32_emit enc 1 l c = [b32 (l mod 8 * 4 + c / 64); b32 (c / 2 mod 32)].
Proof.
  intros Hl Hc. unfold base32_emit, b32. cbn [Z.eqb Pos.eqb]. rewrite straddle5 by (done || lia).
  rewrite land5, shiftr_div by lia. change (2 ^ 1) with 2. change (2 ^ 2) with 4. change (2 ^ 6) with 64.
  unfold byte in *. f_equal. f_equal. zbits.
Qed.

Lemma b32_emit2 l c : byte l -> byte c -> base32_emit enc 2 l c = [b32 (l mod 2 * 16 + c / 16)].
Proof.
  intros Hl Hc. unfold base32_emit, b32. cbn [Z.eqb Pos.eqb]. rewrite straddle5 by (done || lia).
  change (2 ^ 4) with 16. unfold byte in *. f_equal. f_equal. zbits.
Qed.

Lemma b32_emit3 l c : byte l -> byte c ->
  base32_emit enc 3 l c = [b32 (l mod 16 * 2 + c / 128); b32 (c / 4 mod 32)].
Proof.
  intros Hl Hc. unfold base32_emit, b32. cbn [Z.eqb Pos.eqb]. rewrite straddle5 by (done || lia).
  rewrite land5, shiftr_div by lia. change (2 ^ 1) with 2. change (2 ^ 2) with 4. change (2 ^ 7) with 128.
  unfold byte in *. f_equal. f_equal. zbits.
Qed.

Lemma b32_emit4 l c : byte l -> byte c ->
  base32_emit enc 4 l c = [b32 (l mod 4 * 8 + c / 32); b32 (c mod 32)].
Proof.
  intros Hl Hc. unfold base32_emit, b32. cbn [Z.eqb Pos.eqb]. rewrite straddle5 by (done || lia).
  rewrite land5. change (2 ^ 3) with 8. change (2 ^ 5) with 32.
  unfold byte in *. f_equal. f_equal. zbits.
Qed.

(** The masks of the padding keep the low bits, shifted up. *)
Lemma pad_bits c n w : 0 <= n -> 0 <= w ->
  Z.land (Z.shiftl c n) (Z.shiftl (2 ^ w - 1) n) = c mod 2 ^ w * 2 ^ n.
Proof. intros. rewrite <-Z.shiftl_land, land_mask by lia. by rewrite Z.shiftl_mul_pow2. Qed.

Lemma b32_pad1 c : base32_padding enc 1 c = b32 (c mod 8 * 4) :: replicate 6 61.
Proof. unfold base32_padding, b32. cbn [Z.eqb Pos.eqb]. do 2 f_equal. by apply (pad_bits c 2 3). Qed.
Lemma b32_pad2 c : base32_padding enc 2 c = b32 (c mod 2 * 16) :: replicate 4 61.
Proof. unfold base32_padding, b32. cbn [Z.eqb Pos.eqb]. do 2 f_equal. by apply (pad_bits c 4 1). Qed.
Lemma b32_pad3 c : base32_padding enc 3 c = b32 (c mod 16 * 2) :: replicate 3 61.
Proof. unfold base32_padding, b32. cbn [Z.eqb Pos.eqb]. do 2 f_equal. by apply (pad_bits c 1 4). Qed.
Lemma b32_pad4 c : base32_padding enc 4 c = b32 (c mod 4 * 8) :: replicate 1 61.
Proof. unfold base32_padding, b32. cbn [Z.eqb Pos.eqb]. do 2 f_equal. by apply (pad_bits c 3 2). Qed.

Ltac forall_bytes :=
  repeat match goal with
  | H : Forall byte (_ :: _) |- _ => apply Forall_cons in H as [? H]
  end.

Ltac b32_phases :=
  change (0 mod 5) with 0; change ((0 + 1) mod 5) with 1; change ((0 + 1 + 1) mod 5) with 2;
  change ((0 + 1 + 1 + 1) mod 5) with 3; change ((0 + 1 + 1 + 1 + 1) mod 5) with 4; cbn [Z.eqb].

Lemma b32_ref_stream bs prev :
  Forall byte bs ->
  stream 5 (base32_emit enc) 0 prev bs ++
    base32_padding enc (Z.of_nat (length bs) mod 5) (List.last bs 0) = b32_ref bs.
Proof.
  revert prev. induction bs as [|a|a b|a b c|a b c d|a b c d e bs IH] using list_ind5;
    intros prev Hb; forall_bytes; cbn [stream app length List.last b32_ref]; b32_phases;
    rewrite ?b32_emit0, ?b32_emit1, ?b32_emit2, ?b32_emit3, ?b32_emit4 by done.
  - done.
  - change (Z.of_nat 1 mod 5) with 1. by rewrite b32_pad1.
  - change (Z.of_nat 2 mod 5) with 2. by rewrite b32_pad2.
  - change (Z.of_nat 3 mod 5) with 3. by rewrite b32_pad3.
  - change (Z.of_nat 4 mod 5) with 4. by rewrite b32_pad4.
  - cbn [app]. do 8 f_equal. change (0 + 1 + 1 + 1 + 1 + 1) with (0 + 5). rewrite stream_shift by lia.
    rewrite <-(IH e Hb). f_equal. destruct bs as [|x bs]; [done|]. f_equal. cbn [length].
    replace (Z.of_nat (S (S (S (S (S (S (length bs)))))))) with (Z.of_nat (S (length bs)) + 1 * 5) by lia.
    by rewrite Z.mod_add by lia.
Qed.

Lemma length_b32_ref bs : Z.of_nat (length (b32_ref bs)) = howmany (Z.of_nat (length bs)) 5 * 8.
Proof.
  induction bs as [|a|a b|a b c|a b c d|a b c d e bs IH] using list_ind5; [done..|].
  cbn [b32_ref length] in *. unfold howmany in *.
  replace (Z.of_nat (S (S (S (S (S (length bs)))))) + (5 - 1)) with (Z.of_nat (length bs) + (5 - 1) + 1 * 5) by lia.
  rewrite Z.div_add by lia. lia.
Qed.

Lemma to_base32_ok malloc d :
  Forall (fun b => b <> []) d -> Forall byte (contents d) ->
  howmany (data_size d) 5 <= SIZE_MAX / 8 -> data_size d <= SIZE_MAX ->
  malloc (howmany (data_size d) 5 * 8) = true ->
  _dispatch_transform_to_base32_with_table malloc enc d =
    Ok (Some (data_concat [] (Leaf (howmany (data_size d) 5 * 8) (b32_ref (contents d))))).
Proof.
  intros Hne Hb Hh Hm Hmal. unfold _dispatch_transform_to_base32_with_table.
  assert (Hs : stream 5 (base32_emit enc) 0 0 (contents d) ++
    base32_padding enc (data_size d mod 5) (List.last (contents d) 0) = b32_ref (contents d))
    by (by apply b32_ref_stream).
  rewrite (encode_with_ok 5 (base32_emit enc) (base32_padding enc) ltac:(lia) malloc 8 d); try done;
    [by rewrite Hs|].
  rewrite Hs. apply length_b32_ref.
Qed.

(** ** Decoding *)

Context (dec : list Z) (size : Z).
Context (alphabet : alphabet_ok enc dec size 5 32 = true).
Context (pad_char : 61 < size /\ table_get dec 61 = -2).

Abbreviation b32_loop := (decode_loop dec size 5 8 base32_flush).
Abbreviation sym32 := (symbol dec size 5).

Lemma sym32_char v : 0 <= v < 32 -> sym32 (b32 v) v 0.
Proof. intros Hv. left. split; [|done]. by apply (alphabet_decodes enc dec size 5 32). Qed.

Lemma sym32_pad : sym32 61 0 1.
Proof. right. destruct pad_char. split; [|done]. by split_and!. Qed.

Lemma b32_flush_bytes x v1 v2 v3 v4 v5 v6 v7 v8 :
  0 <= v1 < 32 -> 0 <= v2 < 32 -> 0 <= v3 < 32 -> 0 <= v4 < 32 ->
  0 <= v5 < 32 -> 0 <= v6 < 32 -> 0 <= v7 < 32 -> 0 <= v8 < 32 ->
  base32_flush (acc 5 (acc 5 (acc 5 (acc 5 (acc 5 (acc 5 (acc 5 (acc 5 x v1) v2) v3) v4) v5) v6) v7) v8) =
    [v1 * 8 + v2 / 4; v2 mod 4 * 64 + v3 * 2 + v4 / 16; v4 mod 16 * 16 + v5 / 2;
     v5 mod 2 * 128 + v6 * 4 + v7 / 8; v7 mod 8 * 32 + v8].
Proof.
  intros. set (y := acc 5 _ v8).
  assert (Hy : y mod 2 ^ 40 = v1 * 34359738368 + v2 * 1073741824 + v3 * 33554432 + v4 * 1048576 +
    v5 * 32768 + v6 * 1024 + v7 * 32 + v8).
  { unfold y, acc. rewrite !acc_mod by lia. change (2 ^ 40) with 1099511627776. change (2 ^ 5) with 32.
    generalize (x mod 1099511627776). intros z. zbits. }
  unfold base32_flush. rewrite !(byte_at_mod y _ 40) by lia. rewrite Hy.
  change (2 ^ 32) with 4294967296. change (2 ^ 24) with 16777216.
  change (2 ^ 16) with 65536. change (2 ^ 8) with 256. change (2 ^ 0) with 1.
  repeat f_equal; zbits.
Qed.
Lemma b32_group c1 v1 p1 c2 v2 p2 c3 v3 p3 c4 v4 p4 c5 v5 p5 c6 v6 p6 c7 v7 p7 c8 v8 p8 rest x count pad dest :
  sym32 c1 v1 p1 -> sym32 c2 v2 p2 -> sym32 c3 v3 p3 -> sym32 c4 v4 p4 -> sym32 c5 v5 p5 -> sym32 c6 v6 p6 -> sym32 c7 v7 p7 -> sym32 c8 v8 p8 ->
  0 <= v1 < 32 -> 0 <= v2 < 32 -> 0 <= v3 < 32 -> 0 <= v4 < 32 -> 0 <= v5 < 32 -> 0 <= v6 < 32 -> 0 <= v7 < 32 -> 0 <= v8 < 32 ->
  0 <= p1 <= 1 -> 0 <= p2 <= 1 -> 0 <= p3 <= 1 -> 0 <= p4 <= 1 -> 0 <= p5 <= 1 -> 0 <= p6 <= 1 -> 0 <= p7 <= 1 ->
  0 <= pad < 90 -> count mod 8 = 0 ->
  exists x', b32_loop (c1 :: c2 :: c3 :: c4 :: c5 :: c6 :: c7 :: c8 :: rest) (Decoder x count pad) dest =
    b32_loop rest (Decoder x' (count_after 8 count) (pad + p1 + p2 + p3 + p4 + p5 + p6 + p7 + p8))
      (dest ++ [v1 * 8 + v2 / 4; v2 mod 4 * 64 + v3 * 2 + v4 / 16; v4 mod 16 * 16 + v5 / 2;
        v5 mod 2 * 128 + v6 * 4 + v7 / 8; v7 mod 8 * 32 + v8]).
Proof.
  intros S1 S2 S3 S4 S5 S6 S7 S8 H1 H2 H3 H4 H5 H6 H7 H8 Q1 Q2 Q3 Q4 Q5 Q6 Q7 Hp Hc.
  pose proof (count_phase 0 count 3 ltac:(lia) Hc) as P0.
  pose proof (count_phase 1 count 3 ltac:(lia) Hc) as P1.
  pose proof (count_phase 2 count 3 ltac:(lia) Hc) as P2.
  pose proof (count_phase 3 count 3 ltac:(lia) Hc) as P3.
  pose proof (count_phase 4 count 3 ltac:(lia) Hc) as P4.
  pose proof (count_phase 5 count 3 ltac:(lia) Hc) as P5.
  pose proof (count_phase 6 count 3 ltac:(lia) Hc) as P6.
  pose proof (count_phase 7 count 3 ltac:(lia) Hc) as P7.
  cbn [count_after] in *. change (2 ^ 3) with 8 in *.
  rewrite (decode_symbol _ _ _ _ _ 3 _ _ _ _ _ _ _ _ S1) by (done || lia). rewrite P0.
  rewrite (decode_symbol _ _ _ _ _ 3 _ _ _ _ _ _ _ _ S2) by (done || lia). rewrite P1.
  rewrite (decode_symbol _ _ _ _ _ 3 _ _ _ _ _ _ _ _ S3) by (done || lia). rewrite P2.
  rewrite (decode_symbol _ _ _ _ _ 3 _ _ _ _ _ _ _ _ S4) by (done || lia). rewrite P3.
  rewrite (decode_symbol _ _ _ _ _ 3 _ _ _ _ _ _ _ _ S5) by (done || lia). rewrite P4.
  rewrite (decode_symbol _ _ _ _ _ 3 _ _ _ _ _ _ _ _ S6) by (done || lia). rewrite P5.
  rewrite (decode_symbol _ _ _ _ _ 3 _ _ _ _ _ _ _ _ S7) by (done || lia). rewrite P6.
  rewrite (decode_symbol _ _ _ _ _ 3 _ _ _ _ _ _ _ _ S8) by (done || lia). rewrite P7.
  eexists. rewrite <-(b32_flush_bytes x) by done. done.
Qed.

(** The number of pads for [n] bytes in the last group, and of bytes they stand for. *)
Definition pads (n : Z) : Z :=
  if n =? 1 then 6 else if n =? 2 then 4 else if n =? 3 then 3 else if n =? 4 then 1 else 0.

Ltac sym32_tac := first [apply sym32_pad | apply sym32_char; zbits | zbits].

Lemma b32_ref_decode bs : forall x count dest,
  Forall byte bs -> count mod 8 = 0 ->
  exists x' count', b32_loop (b32_ref bs) (Decoder x count 0) dest =
    (Decoder x' count' (pads (Z.of_nat (length bs) mod 5)),
     dest ++ bs ++ replicate (Z.to_nat ((5 - Z.of_nat (length bs) mod 5) mod 5)) 0, true).
Proof.
  induction bs as [|a|a b|a b c|a b c d|a b c d e bs IH] using list_ind5; intros x count dest Hb Hc;
    forall_bytes; unfold byte in *.
  - exists x, count. cbn. by rewrite app_nil_r.
  - destruct (b32_group (b32 (a / 8)) (a / 8) 0 (b32 (a mod 8 * 4)) (a mod 8 * 4) 0
      61 0 1 61 0 1 61 0 1 61 0 1 61 0 1 61 0 1 [] x count 0 dest) as [x' E]; try sym32_tac.
    exists x', (count_after 8 count). cbn [b32_ref]. rewrite E.
    replace (a / 8 * 8 + a mod 8 * 4 / 4) with a by zbits.
    replace ((a mod 8 * 4) mod 4 * 64 + 0 * 2 + 0 / 16) with 0 by zbits. done.
  - destruct (b32_group (b32 (a / 8)) (a / 8) 0 (b32 (a mod 8 * 4 + b / 64)) (a mod 8 * 4 + b / 64) 0
      (b32 (b / 2 mod 32)) (b / 2 mod 32) 0 (b32 (b mod 2 * 16)) (b mod 2 * 16) 0
      61 0 1 61 0 1 61 0 1 61 0 1 [] x count 0 dest) as [x' E]; try sym32_tac.
    exists x', (count_after 8 count). cbn [b32_ref]. rewrite E.
    replace (a / 8 * 8 + (a mod 8 * 4 + b / 64) / 4) with a by zbits.
    replace ((a mod 8 * 4 + b / 64) mod 4 * 64 + b / 2 mod 32 * 2 + b mod 2 * 16 / 16) with b by zbits.
    replace ((b mod 2 * 16) mod 16 * 16 + 0 / 2) with 0 by zbits. done.
  - destruct (b32_group (b32 (a / 8)) (a / 8) 0 (b32 (a mod 8 * 4 + b / 64)) (a mod 8 * 4 + b / 64) 0
      (b32 (b / 2 mod 32)) (b / 2 mod 32) 0 (b32 (b mod 2 * 16 + c / 16)) (b mod 2 * 16 + c / 16) 0
      (b32 (c mod 16 * 2)) (c mod 16 * 2) 0 61 0 1 61 0 1 61 0 1 [] x count 0 dest) as [x' E]; try sym32_tac.
    exists x', (count_after 8 count). cbn [b32_ref]. rewrite E.
    replace (a / 8 * 8 + (a mod 8 * 4 + b / 64) / 4) with a by zbits.
    replace ((a mod 8 * 4 + b / 64) mod 4 * 64 + b / 2 mod 32 * 2 + (b mod 2 * 16 + c / 16) / 16) with b by zbits.
    replace ((b mod 2 * 16 + c / 16) mod 16 * 16 + c mod 16 * 2 / 2) with c by zbits.
    replace ((c mod 16 * 2) mod 2 * 128 + 0 * 4 + 0 / 8) with 0 by zbits. done.
  - destruct (b32_group (b32 (a / 8)) (a / 8) 0 (b32 (a mod 8 * 4 + b / 64)) (a mod 8 * 4 + b / 64) 0
      (b32 (b / 2 mod 32)) (b / 2 mod 32) 0 (b32 (b mod 2 * 16 + c / 16)) (b mod 2 * 16 + c / 16) 0
      (b32 (c mod 16 * 2 + d / 128)) (c mod 16 * 2 + d / 128) 0 (b32 (d / 4 mod 32)) (d / 4 mod 32) 0
      (b32 (d mod 4 * 8)) (d mod 4 * 8) 0 61 0 1 [] x count 0 dest) as [x' E]; try sym32_tac.
    exists x', (count_after 8 count). cbn [b32_ref]. rewrite E.
    replace (a / 8 * 8 + (a mod 8 * 4 + b / 64) / 4) with a by zbits.
    replace ((a mod 8 * 4 + b / 64) mod 4 * 64 + b / 2 mod 32 * 2 + (b mod 2 * 16 + c / 16) / 16) with b by zbits.
    replace ((b mod 2 * 16 + c / 16) mod 16 * 16 + (c mod 16 * 2 + d / 128) / 2) with c by zbits.
    replace ((c mod 16 * 2 + d / 128) mod 2 * 128 + d / 4 mod 32 * 4 + d mod 4 * 8 / 8) with d by zbits.
    replace ((d mod 4 * 8) mod 8 * 32 + 0) with 0 by zbits. done.
  - destruct (b32_group (b32 (a / 8)) (a / 8) 0 (b32 (a mod 8 * 4 + b / 64)) (a mod 8 * 4 + b / 64) 0
      (b32 (b / 2 mod 32)) (b / 2 mod 32) 0 (b32 (b mod 2 * 16 + c / 16)) (b mod 2 * 16 + c / 16) 0
      (b32 (c mod 16 * 2 + d / 128)) (c mod 16 * 2 + d / 128) 0 (b32 (d / 4 mod 32)) (d / 4 mod 32) 0
      (b32 (d mod 4 * 8 + e / 32)) (d mod 4 * 8 + e / 32) 0 (b32 (e mod 32)) (e mod 32) 0
      (b32_ref bs) x count 0 dest) as [x' E]; try sym32_tac.
    destruct (IH x' (count_after 8 count) (dest ++ [a; b; c; d; e]) Hb) as (x2 & count2 & HI).
    { pose proof (count_after_mod 8 count 3 ltac:(lia)) as P8. change (2 ^ 3) with 8 in P8.
      rewrite P8, Zplus_mod, Hc. done. }
    exists x2, count2. cbn [b32_ref]. rewrite E.
    replace (a / 8 * 8 + (a mod 8 * 4 + b / 64) / 4) with a by zbits.
    replace ((a mod 8 * 4 + b / 64) mod 4 * 64 + b / 2 mod 32 * 2 + (b mod 2 * 16 + c / 16) / 16) with b by zbits.
    replace ((b mod 2 * 16 + c / 16) mod 16 * 16 + (c mod 16 * 2 + d / 128) / 2) with c by zbits.
    replace ((c mod 16 * 2 + d / 128) mod 2 * 128 + d / 4 mod 32 * 4 + (d mod 4 * 8 + e / 32) / 8) with d by zbits.
    replace ((d mod 4 * 8 + e / 32) mod 8 * 32 + e mod 32) with e by zbits.
    change (0 + 0 + 0 + 0 + 0 + 0 + 0 + 0 + 0) with 0. rewrite HI. cbn [length].
    replace (Z.of_nat (S (S (S (S (S (length bs))))))) with (Z.of_nat (length bs) + 1 * 5) by lia.
    rewrite Z.mod_add by lia. by rewrite <-app_assoc.
Qed.

Lemma from_base32_ref malloc bs :
  Forall byte bs -> bs <> [] -> Z.of_nat (length bs) <= SIZE_MAX - 4 ->
  malloc (howmany (Z.of_nat (length (b32_ref bs))) 8 * 5) = true ->
  exists ls, _dispatch_transform_from_base32_with_table malloc dec size [b32_ref bs] = Ok (Some ls) /\
    out_bytes ls = bs.
Proof.
  intros Hb Hne Hm Hmal. unfold _dispatch_transform_from_base32_with_table, decode_with, data_apply.
  cbn [map run_regions]. unfold decode_region at 1. rewrite Hmal. cbn [negb].
  destruct (b32_ref_decode bs 0 0 [] Hb eq_refl) as (x' & count' & HD). rewrite HD. clear HD.
  assert (Hpos : (0 < length bs)%nat) by (destruct bs; [done|cbn; lia]).
  cbn [dec_pad app]. rewrite length_app, length_replicate.
  rewrite (proj2 (Z.ltb_ge _ _)).
  2: { rewrite length_b32_ref. unfold howmany. zbits. }
  cbn [rbind].
  assert (Hfin : base32_final (Z.of_nat (length bs + Z.to_nat ((5 - Z.of_nat (length bs) mod 5) mod 5)))
    (pads (Z.of_nat (length bs) mod 5)) = Z.of_nat (length bs)).
  { unfold SIZE_MAX in *. pose proof (Z.mod_pos_bound (Z.of_nat (length bs)) 5 ltac:(lia)) as Hr.
    remember (Z.of_nat (length bs) mod 5) as r eqn:Er.
    assert (r = 0 \/ r = 1 \/ r = 2 \/ r = 3 \/ r = 4) as [->|[->|[->|[->| ->]]]] by lia;
      unfold pads, base32_final; cbn [Z.eqb Pos.eqb];
      [change ((5 - 0) mod 5) with 0|change ((5 - 1) mod 5) with 4|change ((5 - 2) mod 5) with 3
      |change ((5 - 3) mod 5) with 2|change ((5 - 4) mod 5) with 1]; rewrite ?u64_small by lia; lia. }
  rewrite Hfin. eexists. split; [done|]. unfold data_concat. cbn [leaf_size].
  rewrite (proj2 (Z.eqb_neq _ 0)) by lia. unfold out_bytes. cbn [map concat leaf_size leaf_bytes app].
  rewrite app_nil_r, Nat2Z.id. by rewrite take_app_length.
Qed.
End Base32.
