(* ===== verification/TransformUtf.v ===== *)
(** * TransformUtf: UTF-8 to UTF-16 and back

    On text that arrives in one region, each transform maps every scalar value
    to its encoding, and the two are inverse to each other. *)

From S2P Require Import Prelude DispatchData DataSpec DataOps DataVisit Transform TransformBase.

(** ** Lead bytes *)

Definition lead_length (b : Z) : Z :=
  if b <? 128 then 1 else if b <? 192 then 0 else if b <? 224 then 2
  else if b <? 240 then 3 else if b <? 248 then 4 else 0.

Lemma utf8_length_lead b : byte b -> _dispatch_transform_utf8_length b = lead_length b.
Proof.
  intros Hb. assert (H : forallb (fun n => _dispatch_transform_utf8_length (Z.of_nat n) =?
    lead_length (Z.of_nat n)) (seq 0 256) = true) by (by vm_compute).
  rewrite forallb_forall in H. specialize (H (Z.to_nat b)). unfold byte in Hb.
  rewrite Z2Nat.id in H by lia. apply Z.eqb_eq, H, in_seq. lia.
Qed.

(** ** Sequences, as numbers *)

Lemma utf8_bytes1 c : 0 <= c < 0x80 -> utf8_bytes c = [c].
Proof.
  intros Hc. unfold utf8_bytes. rewrite (proj2 (Z.ltb_lt _ _)) by lia.
  change 255 with (2 ^ 8 - 1). rewrite land_mask by lia. by rewrite Z.mod_small by lia.
Qed.

Lemma tail_byte x : Z.lor 128 (Z.land x 63) = 128 + x mod 64.
Proof.
  change 63 with (2 ^ 6 - 1). rewrite land_mask by lia. change (2 ^ 6) with 64.
  apply (lor_const 2 6); [done|lia|]. pose proof (Z.mod_pos_bound x 64). lia.
Qed.

Lemma utf8_bytes2 c : 0x80 <= c < 0x800 -> utf8_bytes c = [192 + c / 64; 128 + c mod 64].
Proof.
  intros Hc. unfold utf8_bytes. rewrite (proj2 (Z.ltb_ge _ _)), (proj2 (Z.ltb_lt _ _)) by lia.
  rewrite tail_byte, shiftr_div by lia. change (2 ^ 6) with 64.
  rewrite (lor_const 3 6) by (done || zbits). done.
Qed.

Lemma utf8_bytes3 c : 0x800 <= c < 0x10000 ->
  utf8_bytes c = [224 + c / 4096; 128 + c / 64 mod 64; 128 + c mod 64].
Proof.
  intros Hc. unfold utf8_bytes. rewrite !(proj2 (Z.ltb_ge _ _)), (proj2 (Z.ltb_lt _ _)) by lia.
  rewrite !tail_byte, !shiftr_div by lia. change (2 ^ 6) with 64. change (2 ^ 12) with 4096.
  rewrite (lor_const 14 4) by (done || zbits). done.
Qed.

Lemma utf8_bytes4 c : 0x10000 <= c < 0x200000 ->
  utf8_bytes c = [240 + c / 262144; 128 + c / 4096 mod 64; 128 + c / 64 mod 64; 128 + c mod 64].
Proof.
  intros Hc. unfold utf8_bytes. rewrite !(proj2 (Z.ltb_ge _ _)), (proj2 (Z.ltb_lt _ _)) by lia.
  rewrite !tail_byte, !shiftr_div by lia. change (2 ^ 6) with 64. change (2 ^ 12) with 4096.
  change (2 ^ 18) with 262144. rewrite (lor_const 30 3) by (done || zbits). done.
Qed.

(** A continuation byte extends the number read so far. *)
Lemma read_tail_step n x bytes wch :
  0 <= x < 64 -> 0 <= wch -> wch mod 64 = 0 -> wch + 63 < 2 ^ 26 ->
  read_tail (S n) (128 + x :: bytes) wch =
    read_tail n bytes (match n with O => wch + x | _ => (wch + x) * 64 end).
Proof.
  intros Hx Hw H64 Hb. cbn [read_tail].
  assert (Hl : Z.land (128 + x) 63 = x).
  { change 63 with (2 ^ 6 - 1). rewrite land_mask by lia. change (2 ^ 6) with 64. zbits. }
  rewrite Hl.
  assert (Hor : Z.lor wch x = wch + x).
  { apply (lor_const (wch / 64) 6); [|lia|done]. rewrite Z.shiftl_mul_pow2 by lia. change (2 ^ 6) with 64. zbits. }
  rewrite Hor. destruct n; [done|]. f_equal. rewrite Z.shiftl_mul_pow2 by lia. change (2 ^ 6) with 64.
  apply u32_small. lia.
Qed.

Lemma lead_mask b k w : 0 <= w -> 0 <= k < 2 ^ w -> b mod 2 ^ w = 0 -> Z.land (b + k) (2 ^ w - 1) = k.
Proof.
  intros Hw Hk Hb. rewrite land_mask by done. rewrite <-Zplus_mod_idemp_l, Hb, Z.add_0_l.
  by apply Z.mod_small.
Qed.

(** Reading back the sequence of a scalar value. *)
Lemma read_utf8_bytes c rest :
  0 <= c < 0x110000 ->
  exists b tl, utf8_bytes c = b :: tl /\
    _dispatch_transform_utf8_length b = Z.of_nat (S (length tl)) /\ (S (length tl) <= 4)%nat /\
    (0x10000 <= c -> length tl = 3%nat) /\
    _dispatch_transform_read_utf8_sequence (utf8_bytes c ++ rest) = Ok c.
Proof.
  intros Hc.
  destruct (decide (c < 0x80)); [|destruct (decide (c < 0x800)); [|destruct (decide (c < 0x10000))]].
  - rewrite utf8_bytes1 by lia. exists c, []. split; [done|].
    assert (Hl : _dispatch_transform_utf8_length c = 1).
    { rewrite utf8_length_lead by (unfold byte; lia). unfold lead_length.
      by rewrite (proj2 (Z.ltb_lt _ _)) by lia. }
    split; [done|]. split; [cbn; lia|]. split; [lia|]. cbn [app _dispatch_transform_read_utf8_sequence].
    rewrite Hl. cbn [Z.eqb Pos.eqb]. change (Z.to_nat (u8 (1 - 1))) with 0%nat. cbn [read_tail].
    f_equal. change 127 with (2 ^ 7 - 1). rewrite land_mask by lia. apply Z.mod_small. lia.
  - rewrite utf8_bytes2 by lia. eexists _, _. split; [done|].
    assert (Hl : _dispatch_transform_utf8_length (192 + c / 64) = 2).
    { rewrite utf8_length_lead by (unfold byte; zbits). unfold lead_length.
      rewrite !(proj2 (Z.ltb_ge _ _)), (proj2 (Z.ltb_lt _ _)) by zbits. done. }
    split; [done|]. split; [cbn; lia|]. split; [lia|]. cbn [app _dispatch_transform_read_utf8_sequence].
    rewrite Hl. cbn [Z.eqb Pos.eqb]. change (Z.to_nat (u8 (2 - 1))) with 1%nat.
    change 31 with (2 ^ 5 - 1). rewrite (lead_mask 192) by (done || zbits).
    rewrite Z.shiftl_mul_pow2 by lia. change (2 ^ 6) with 64.
    rewrite read_tail_step by zbits. cbn [read_tail]. f_equal. zbits.
  - rewrite utf8_bytes3 by lia. eexists _, _. split; [done|].
    assert (Hl : _dispatch_transform_utf8_length (224 + c / 4096) = 3).
    { rewrite utf8_length_lead by (unfold byte; zbits). unfold lead_length.
      rewrite !(proj2 (Z.ltb_ge _ _)), (proj2 (Z.ltb_lt _ _)) by zbits. done. }
    split; [done|]. split; [cbn; lia|]. split; [lia|]. cbn [app _dispatch_transform_read_utf8_sequence].
    rewrite Hl. cbn [Z.eqb Pos.eqb]. change (Z.to_nat (u8 (3 - 1))) with 2%nat.
    change 15 with (2 ^ 4 - 1). rewrite (lead_mask 224) by (done || zbits).
    rewrite Z.shiftl_mul_pow2 by lia. change (2 ^ 6) with 64.
    rewrite !read_tail_step by zbits. cbn [read_tail]. f_equal. zbits.
  - rewrite utf8_bytes4 by lia. eexists _, _. split; [done|].
    assert (Hl : _dispatch_transform_utf8_length (240 + c / 262144) = 4).
    { rewrite utf8_length_lead by (unfold byte; zbits). unfold lead_length.
      rewrite !(proj2 (Z.ltb_ge _ _)), (proj2 (Z.ltb_lt _ _)) by zbits. done. }
    split; [done|]. split; [cbn; lia|]. split; [done|]. cbn [app _dispatch_transform_read_utf8_sequence].
    rewrite Hl. cbn [Z.eqb Pos.eqb]. change (Z.to_nat (u8 (4 - 1))) with 3%nat.
    change 7 with (2 ^ 3 - 1). rewrite (lead_mask 240) by (done || zbits).
    rewrite Z.shiftl_mul_pow2 by lia. change (2 ^ 6) with 64.
    rewrite !read_tail_step by zbits. cbn [read_tail]. f_equal. zbits.
Qed.

(** ** The output buffer *)

Section Utf.
Context (malloc : Z -> bool).
Context (malloc_ok : forall n, malloc n = true).

Definition tb_view (b : dispatch_transform_buffer_s) : list Z := out_bytes (tb_data b) ++ tb_bytes b.

Definition tb_ok (b : dispatch_transform_buffer_s) : Prop :=
  Z.of_nat (length (tb_bytes b)) <= tb_size b <= BUFFER_MALLOC_MAX /\
  (tb_start b = false -> tb_bytes b = []).

Lemma out_bytes_concat ls bytes :
  out_bytes (data_concat ls (Leaf (Z.of_nat (length bytes)) bytes)) = out_bytes ls ++ bytes.
Proof.
  unfold data_concat. cbn [leaf_size]. destruct (Z.eqb_spec (Z.of_nat (length bytes)) 0) as [E|E].
  - rewrite (nil_length_inv bytes) by lia. by rewrite app_nil_r.
  - unfold out_bytes. rewrite map_app, concat_app. cbn [map concat leaf_size leaf_bytes].
    rewrite app_nil_r, Nat2Z.id. by rewrite firstn_all.
Qed.

(** Flushing or reallocating loses nothing. *)
Lemma flush_view b :
  tb_ok b ->
  out_bytes (if tb_start b && negb (Z.of_nat (length (tb_bytes b)) =? 0)
             then data_concat (tb_data b) (Leaf (Z.of_nat (length (tb_bytes b))) (tb_bytes b))
             else tb_data b) = tb_view b.
Proof.
  intros [_ Hs]. unfold tb_view. destruct (tb_start b); cbn [andb].
  - destruct (Z.eqb_spec (Z.of_nat (length (tb_bytes b))) 0) as [E|E]; cbn [negb].
    + rewrite (nil_length_inv (tb_bytes b)) by lia. by rewrite app_nil_r.
    + apply out_bytes_concat.
  - rewrite Hs by done. by rewrite app_nil_r.
Qed.

Lemma buffer_room b required next :
  tb_ok b -> 0 < required -> 0 <= next -> required + next <= BUFFER_MALLOC_MAX ->
  exists b', _dispatch_transform_buffer_new malloc b required next = (b', true) /\ tb_ok b' /\
    tb_view b' = tb_view b /\
    (tb_start b' = true -> Z.of_nat (length (tb_bytes b')) + required <= tb_size b') /\
    (tb_start b = true \/ tb_size b = 0 -> tb_start b' = true).
Proof.
  intros Hok Hr Hn Hmax. pose proof Hok as [Hsz Hst]. unfold BUFFER_MALLOC_MAX in *.
  unfold _dispatch_transform_buffer_new. rewrite (proj2 (Z.eqb_neq required 0)) by lia. cbn [orb].
  rewrite (u64_small (tb_size b - _)) by lia.
  destruct (Z.ltb_spec (tb_size b - Z.of_nat (length (tb_bytes b))) required).
  - rewrite (u64_small (required + next)) by lia. rewrite Z.gtb_ltb, (proj2 (Z.ltb_lt _ _)) by lia.
    unfold BUFFER_MALLOC_MAX. rewrite Z.gtb_ltb, (proj2 (Z.ltb_ge _ _)) by lia. rewrite malloc_ok. cbn [negb].
    eexists. split; [done|]. split; [|split; [|split]].
    + split; [cbn; unfold BUFFER_MALLOC_MAX; lia|done].
    + unfold tb_view at 1. cbn [tb_data tb_bytes]. rewrite app_nil_r. by apply flush_view.
    + cbn. lia.
    + done.
  - exists b. split; [done|]. split; [done|]. split; [done|]. split; [lia|].
    intros [?|?]; [done|lia].
Qed.

Lemma buffer_put b bytes next :
  tb_ok b -> tb_start b = true \/ tb_size b = 0 -> bytes <> [] -> 0 <= next ->
  Z.of_nat (length bytes) + next <= BUFFER_MALLOC_MAX ->
  exists b', (let '(b, ok) := _dispatch_transform_buffer_new malloc b (Z.of_nat (length bytes)) next in
     if ok then let! b := tb_write b bytes in Ok (b, true) else Ok (b, false)) = Ok (b', true) /\
    tb_ok b' /\ tb_start b' = true /\ tb_view b' = tb_view b ++ bytes.
Proof.
  intros Hok Hst Hne Hn Hmax. assert (0 < length bytes)%nat by (destruct bytes; [done|cbn; lia]).
  destruct (buffer_room b (Z.of_nat (length bytes)) next) as (b1 & E & Hok1 & Hv & Hroom & Hs1); [done|lia|done|done|].
  rewrite E. specialize (Hs1 Hst). specialize (Hroom Hs1).
  unfold tb_write. rewrite Hs1, (proj2 (Z.leb_le _ _)) by lia. cbn [andb rbind].
  eexists. split; [done|]. destruct Hok1 as [Hsz _]. split; [|split; [done|]].
  - split; [cbn; rewrite length_app; lia|]. cbn. congruence.
  - rewrite <-Hv. unfold tb_view. cbn. by rewrite app_assoc.
Qed.

(** The last flush. *)
Lemma buffer_flush b :
  tb_ok b -> out_bytes (tb_data (_dispatch_transform_buffer_new malloc b 0 0).1) = tb_view b.
Proof.
  intros Hok. unfold _dispatch_transform_buffer_new. cbn [Z.eqb orb]. change (u64 (0 + 0)) with 0.
  cbn [Z.gtb Z.compare]. cbn [fst tb_data]. by apply flush_view.
Qed.

(** ** To UTF-16 *)

Definition utf16_units (c : Z) : list Z :=
  if c <? 0x10000 then [c] else [0xd800 + (c - 0x10000) / 1024; 0xdc00 + (c - 0x10000) mod 1024].

Definition units_bytes (order : byte_order) (us : list Z) : list Z :=
  concat (map (fun u => u16_bytes (_dispatch_transform_swap_from_host u order)) us).

Definition utf8_text (cps : list Z) : list Z := concat (map utf8_bytes cps).
Definition utf16_text (order : byte_order) (cps : list Z) : list Z :=
  units_bytes order (0xfeff :: concat (map utf16_units cps)).

Lemma length_units_bytes order us : length (units_bytes order us) = (2 * length us)%nat.
Proof.
  induction us as [|u us IH]; [done|]. unfold units_bytes in *. cbn [map concat].
  rewrite length_app, IH. cbn [u16_bytes length]. lia.
Qed.

Lemma units_bytes_app order us vs : units_bytes order (us ++ vs) = units_bytes order us ++ units_bytes order vs.
Proof. unfold units_bytes. by rewrite map_app, concat_app. Qed.

Lemma put_units_ok b us next order :
  tb_ok b -> tb_start b = true -> us <> [] -> 0 <= next -> 2 * Z.of_nat (length us) + next <= BUFFER_MALLOC_MAX ->
  exists b', put_units malloc b us next order = Ok (b', true) /\ tb_ok b' /\ tb_start b' = true /\
    tb_view b' = tb_view b ++ units_bytes order us.
Proof.
  intros Hok Hst Hne Hn Hmax. pose proof (length_units_bytes order us) as Hl.
  destruct (buffer_put b (units_bytes order us) next) as (b' & E & R); [done|by left| |done|lia|].
  { intros E. rewrite E in Hl. destruct us; [done|cbn in Hl; lia]. }
  exists b'. split; [|done]. rewrite Hl in E.
  replace (Z.of_nat (2 * length us)) with (2 * Z.of_nat (length us)) in E by lia. exact E.
Qed.

Lemma emit_utf16_ok b c at_end next order :
  tb_ok b -> tb_start b = true -> scalar c -> (c = 0xfeff -> at_end <> 3) -> 0 <= next ->
  4 + next <= BUFFER_MALLOC_MAX ->
  exists b', emit_utf16 malloc b c at_end next order = Ok (b', true) /\ tb_ok b' /\ tb_start b' = true /\
    tb_view b' = tb_view b ++ units_bytes order (utf16_units c).
Proof.
  intros Hok Hst Hsc Hbom Hn Hmax. unfold emit_utf16, utf16_units.
  destruct (Z.eqb_spec c 65279) as [->|Hc]; [rewrite (proj2 (Z.eqb_neq at_end 3)) by (by apply Hbom)|];
    cbn [andb].
  { cbn [Z.leb Z.ltb Z.compare Pos.compare Pos.compare_cont andb].
    apply put_units_ok; try done. cbn. lia. }
  assert (Hns : (0xd800 <=? c) && (c <? 0xdfff) = false).
  { destruct (Z.leb_spec 0xd800 c); [|done]. destruct (Z.ltb_spec c 0xdfff); [|done].
    unfold scalar in Hsc. lia. }
  rewrite Hns. unfold scalar in Hsc. destruct (Z.leb_spec 65536 c).
  - rewrite (proj2 (Z.ltb_ge c 65536)) by lia. change 1023 with (2 ^ 10 - 1).
    rewrite !land_mask, shiftr_div by lia. change (2 ^ 10) with 1024.
    replace (((c - 65536) / 1024) mod 1024 + 55296) with (0xd800 + (c - 65536) / 1024) by zbits.
    rewrite (Z.add_comm ((c - 65536) mod 1024)).
    apply put_units_ok; try done; cbn; lia.
  - rewrite (proj2 (Z.ltb_lt c 65536)) by lia. change 65535 with (2 ^ 16 - 1).
    rewrite land_mask by lia. rewrite Z.mod_small by lia. apply put_units_ok; try done. cbn; lia.
Qed.

Lemma to_utf16_loop_ok d order size fuel cps i b :
  Forall scalar cps -> i + Z.of_nat (length (utf8_text cps)) = size -> 0 <= i ->
  (length (utf8_text cps) < fuel)%nat -> 2 * size + 4 <= BUFFER_MALLOC_MAX ->
  (i = 0 -> hd_error cps <> Some 0xfeff) -> tb_ok b -> tb_start b = true ->
  exists b', to_utf16_loop malloc fuel d order 0 size i (utf8_text cps) (UtfState 0 b) =
      Ok (UtfState 0 b', true) /\
    out_bytes (tb_data b') = tb_view b ++ units_bytes order (concat (map utf16_units cps)).
Proof.
  revert cps i b. induction fuel as [|fuel IH]; [lia|]. intros cps i b Hs Hsz Hi Hf Hmax Hbom Hok Hst.
  unfold BUFFER_MALLOC_MAX in *.
  destruct cps as [|c cps].
  - cbn in Hsz. cbn [to_utf16_loop]. rewrite (proj2 (Z.ltb_ge i size)) by lia. eexists. split; [done|].
    rewrite buffer_flush by done. cbn. by rewrite app_nil_r.
  - apply Forall_cons in Hs as [Hc Hs].
    assert (Hc' : 0 <= c < 0x110000) by (unfold scalar in Hc; lia).
    destruct (read_utf8_bytes c (utf8_text cps) Hc') as (l & tl & Eb & Hlen & H4 & Hbig & Hread).
    change (utf8_text (c :: cps)) with (utf8_bytes c ++ utf8_text cps) in *. rewrite Eb in *.
    cbn [app] in *. cbn [length] in Hsz, Hf. rewrite length_app in Hsz, Hf.
    cbn [to_utf16_loop]. rewrite (proj2 (Z.ltb_lt i size)) by lia.
    rewrite Hlen, (proj2 (Z.eqb_neq _ 0)) by lia.
    rewrite Z.gtb_ltb, (proj2 (Z.ltb_ge _ _)) by lia. rewrite Hread. cbn [rbind].
    unfold SIZE_MAX. rewrite Z.gtb_ltb, (proj2 (Z.ltb_ge _ _)) by lia.
    rewrite Z.add_0_l, u64_small by lia.
    assert (Hbom' : c = 65279 -> i + Z.of_nat (S (length tl)) <> 3).
    { intros -> E3. assert (i = 0) as ->; [|by apply Hbom].
      apply (f_equal length) in Eb. cbn in Eb. lia. }
    destruct (emit_utf16_ok b c (i + Z.of_nat (S (length tl))) ((size - (i + Z.of_nat (S (length tl)))) * 2) order)
      as (b1 & E1 & Hok1 & Hst1 & Hv1); [done|done|done|done|lia|unfold BUFFER_MALLOC_MAX; lia|].
    cbn [us_buffer us_skip]. rewrite E1. cbn [rbind us_skip]. rewrite Nat2Z.id.
    replace (drop (S (length tl)) (l :: tl ++ utf8_text cps)) with (utf8_text cps)
      by (cbn; by rewrite drop_app_length).
    destruct (IH cps (i + Z.of_nat (S (length tl))) b1) as (b' & E' & Hv'); try done; try lia.
    exists b'. split; [done|]. rewrite Hv', Hv1, <-app_assoc. f_equal.
    cbn [map concat]. by rewrite units_bytes_app.
Qed.

Lemma to_utf16_text order cps :
  Forall scalar cps -> hd_error cps <> Some 0xfeff -> cps <> [] ->
  2 * Z.of_nat (length (utf8_text cps)) + 4 <= BUFFER_MALLOC_MAX ->
  exists ls, _dispatch_transform_to_utf16 malloc order [utf8_text cps] = Ok (Some ls) /\
    out_bytes ls = utf16_text order cps.
Proof.
  intros Hs Hbom Hne Hmax. unfold _dispatch_transform_to_utf16, data_apply. cbn [map run_regions].
  assert (Hpos : (0 < length (utf8_text cps))%nat).
  { destruct cps as [|c cps]; [done|]. apply Forall_cons in Hs as [Hc _].
    destruct (read_utf8_bytes c [] ltac:(unfold scalar in Hc; lia)) as (l & tl & Eb & _).
    change (utf8_text (c :: cps)) with (utf8_bytes c ++ utf8_text cps). rewrite Eb. cbn. lia. }
  unfold to_utf16_region at 1. cbn [rbind us_buffer us_skip Z.eqb].
  unfold SIZE_MAX, BUFFER_MALLOC_MAX in *. rewrite Z.gtb_ltb, (proj2 (Z.ltb_ge _ _)) by lia.
  destruct (buffer_room buffer_init (Z.of_nat (length (utf8_text cps)) * 2 + 2) 0)
    as (b1 & E1 & Hok1 & Hv1 & Hroom1 & Hst1); [split; [cbn; unfold BUFFER_MALLOC_MAX; lia|done]|lia|lia|unfold BUFFER_MALLOC_MAX; lia|].
  rewrite E1. specialize (Hst1 (or_intror eq_refl)). specialize (Hroom1 Hst1).
  unfold tb_write. rewrite Hst1, (proj2 (Z.leb_le _ _)) by (cbn [u16_bytes length]; lia). cbn [andb rbind negb].
  rewrite Z.geb_leb, (proj2 (Z.leb_gt _ _)) by lia. change (Z.to_nat 0) with 0%nat. rewrite drop_0, Z.sub_0_r.
  match goal with |- context [to_utf16_loop _ _ _ _ _ _ _ _ (UtfState 0 ?b)] => set (b2 := b) end.
  assert (Hok2 : tb_ok b2).
  { destruct Hok1 as [[_ ?] _]. split; [|by cbn; rewrite ?Hst1]. cbn [b2 tb_bytes tb_size].
    rewrite length_app. cbn [u16_bytes length] in *. lia. }
  destruct (to_utf16_loop_ok [utf8_text cps] order (Z.of_nat (length (utf8_text cps)))
    (S (length (utf8_text cps))) cps 0 b2) as (b' & E' & Hv'); try done; try lia.
  rewrite E'. cbn [rbind us_buffer]. eexists. split; [done|]. rewrite Hv'.
  unfold tb_view, b2. cbn [tb_data tb_bytes].
  rewrite app_assoc. change (out_bytes (tb_data b1) ++ tb_bytes b1) with (tb_view b1). rewrite Hv1. done.
Qed.
(** ** From UTF-16 *)

Definition unit16 (u : Z) : Prop := 0 <= u < 65536.

Lemma swap16_eq u : unit16 u -> swap16 u = u mod 256 * 256 + u / 256.
Proof.
  intros Hu. unfold unit16, swap16 in *. change 255 with (2 ^ 8 - 1).
  rewrite land_mask, shiftr_div by lia. change (2 ^ 8) with 256.
  rewrite lor_shift by zbits. done.
Qed.

Lemma swap_round u order :
  unit16 u -> unit16 (_dispatch_transform_swap_from_host u order) /\
    _dispatch_transform_swap_to_host (_dispatch_transform_swap_from_host u order) order = u.
Proof.
  intros Hu. destruct order; cbn; [done|].
  rewrite (swap16_eq u) by done. assert (unit16 (u mod 256 * 256 + u / 256)) by (unfold unit16 in *; zbits).
  split; [done|]. rewrite swap16_eq by done. unfold unit16 in *. zbits.
Qed.

Lemma read_u16_bytes u rest : unit16 u -> read_u16 (u16_bytes u ++ rest) = Ok u.
Proof.
  intros Hu. unfold u16_bytes, unit16 in *. cbn [app read_u16]. f_equal.
  change 255 with (2 ^ 8 - 1). rewrite land_mask, shiftr_div by lia. change (2 ^ 8) with 256. zbits.
Qed.

Lemma read_unit order us i u :
  us !! i = Some u -> unit16 u ->
  (let! w := read_u16 (drop (2 * i) (units_bytes order us)) in
   Ok (_dispatch_transform_swap_to_host w order)) = Ok u.
Proof.
  intros Hi Hu. rewrite <-(take_drop_middle us i u Hi), units_bytes_app.
  assert (Hl : length (take i us) = i) by (apply length_take_le; apply lookup_lt_Some in Hi; lia).
  rewrite drop_app_ge by (rewrite length_units_bytes; lia).
  rewrite length_units_bytes, Hl, Nat.sub_diag, drop_0.
  change (units_bytes order (u :: drop (S i) us)) with
    (u16_bytes (_dispatch_transform_swap_from_host u order) ++ units_bytes order (drop (S i) us)).
  destruct (swap_round u order Hu) as [H1 H2]. rewrite read_u16_bytes by done. cbn [rbind]. by rewrite H2.
Qed.

(** Reading a unit of an even sized region. *)
Lemma from_unit_ok d order us i u skip :
  us !! i = Some u -> unit16 u ->
  let max := Z.of_nat (length us) in
  from_utf16_unit d order 0 (2 * max) max (Z.of_nat i) (units_bytes order us) skip = Ok (Some (u, skip)) /\
  from_utf16_low d order 0 max (Z.of_nat i) (units_bytes order us) skip = Ok (Some (u, skip)).
Proof.
  intros Hi Hu max. pose proof (read_unit order us i u Hi Hu) as Hr.
  apply lookup_lt_Some in Hi. unfold from_utf16_unit, from_utf16_low.
  assert (Hm : (max >? 2 * max / 2) = false).
  { rewrite Z.gtb_ltb. apply Z.ltb_ge. rewrite Z.mul_comm, Z.div_mul by lia. lia. }
  rewrite Hm, andb_false_r, Z.geb_leb, (proj2 (Z.leb_gt _ _)) by lia.
  replace (Z.to_nat (2 * Z.of_nat i)) with (2 * i)%nat by lia.
  destruct (read_u16 _) as [w|]; cbn [rbind] in *; [|done]. injection Hr as Hr. rewrite Hr. done.
Qed.

Lemma put_utf8_ok b c next :
  tb_ok b -> tb_start b = true -> 0 <= c < 0x110000 -> 0 <= next -> 4 + next <= BUFFER_MALLOC_MAX ->
  exists b', put_utf8 malloc b c next = Ok (b', true) /\ tb_ok b' /\ tb_start b' = true /\
    tb_view b' = tb_view b ++ utf8_bytes c.
Proof.
  intros Hok Hst Hc Hn Hmax.
  destruct (read_utf8_bytes c [] Hc) as (l & tl & Eb & _ & H4 & _). unfold put_utf8. rewrite Eb.
  apply (buffer_put b (l :: tl) next); try done; [by left|]. cbn [length]. lia.
Qed.

Lemma utf16_units_units c : scalar c -> Forall unit16 (utf16_units c).
Proof.
  intros Hc. unfold utf16_units, scalar, unit16 in *. destruct (Z.ltb_spec c 65536).
  - apply Forall_cons. split; [lia|done].
  - apply Forall_cons. split; [zbits|]. apply Forall_cons. split; [zbits|done].
Qed.

Lemma high_low c : 0x10000 <= c < 0x110000 ->
  let h := 0xd800 + (c - 0x10000) / 1024 in let lo := 0xdc00 + (c - 0x10000) mod 1024 in
  is_high h = true /\ is_low lo = true /\
  Z.lor (Z.shiftl (h - 0xd800) 10) (Z.land lo 0x3ff) + 0x10000 = c.
Proof.
  intros Hc h lo. assert (Hh : 0xd800 <= h <= 0xdbff) by (unfold h; zbits).
  assert (Hl : 0xdc00 <= lo <= 0xdfff) by (unfold lo; zbits).
  split; [unfold is_high; rewrite !(proj2 (Z.leb_le _ _)) by lia; done|].
  split; [unfold is_low; rewrite !(proj2 (Z.leb_le _ _)) by lia; done|].
  change 1023 with (2 ^ 10 - 1). rewrite land_mask by lia. change (2 ^ 10) with 1024.
  rewrite lor_shift by zbits. unfold h, lo. zbits.
Qed.

Lemma from_utf16_loop_ok d order us fuel pre cps b :
  us = pre ++ concat (map utf16_units cps) -> pre <> [] ->
  Forall scalar cps -> Forall unit16 us ->
  let max := Z.of_nat (length us) in
  (length us - length pre < fuel)%nat -> 2 * max + 4 <= BUFFER_MALLOC_MAX ->
  tb_ok b -> tb_start b = true ->
  exists b', from_utf16_loop malloc fuel d order 0 (2 * max) max (Z.of_nat (length pre))
      (units_bytes order us) (UtfState 0 b) = Ok (UtfState 0 b', true) /\
    out_bytes (tb_data b') = tb_view b ++ utf8_text cps.
Proof.
  revert pre cps b. induction fuel as [|fuel IH]; intros pre cps b Hus Hpre Hs Hu max Hf Hmax Hok Hst; [lia|].
  subst max.
  assert (Hp0 : (0 < length pre)%nat) by (destruct pre; [done|cbn; lia]).
  unfold BUFFER_MALLOC_MAX in Hmax. cbn [from_utf16_loop us_skip us_buffer]. destruct cps as [|c cps].
  - cbn in Hus. rewrite app_nil_r in Hus. subst us. rewrite Z.ltb_irrefl. eexists. split; [done|].
    rewrite buffer_flush by done. cbn. by rewrite app_nil_r.
  - apply Forall_cons in Hs as [Hc Hs]. cbn [map concat] in Hus.
    assert (Hlen : length us = (length pre + length (utf16_units c) + length (concat (map utf16_units cps)))%nat)
      by (rewrite Hus, !length_app; lia).
    unfold utf16_units at 1 in Hus. unfold utf16_units at 1 in Hlen. unfold scalar in Hc.
    destruct (Z.ltb_spec c 65536) as [Hsm|Hbig]; cbn [length app] in *.
    + assert (Hi : us !! length pre = Some c) by (rewrite Hus; by rewrite lookup_app_r, Nat.sub_diag by lia).
      rewrite (proj2 (Z.ltb_lt _ _)) by lia.
      rewrite (proj1 (from_unit_ok d order us _ c 0 Hi ltac:(unfold unit16; lia))). cbn [rbind us_skip us_buffer].
      rewrite (proj2 (Z.eqb_neq (Z.of_nat (length pre)) 0)), !andb_false_r by lia.
      assert (Hh : is_high c = false) by (unfold is_high; destruct (Z.leb_spec 0xd800 c), (Z.leb_spec c 0xdbff); try done; lia).
      assert (Hl : is_low c = false) by (unfold is_low; destruct (Z.leb_spec 0xdc00 c), (Z.leb_spec c 0xdfff); try done; lia).
      rewrite Hh, Hl. cbn [rbind]. rewrite u64_small by lia. unfold SIZE_MAX.
      rewrite Z.gtb_ltb, (proj2 (Z.ltb_ge _ _)) by lia.
      destruct (put_utf8_ok b c ((Z.of_nat (length us) - Z.of_nat (length pre)) * 2)) as (b1 & E1 & Hok1 & Hst1 & Hv1);
        [done|done|lia|lia|unfold BUFFER_MALLOC_MAX; lia|]. rewrite E1. cbn [rbind].
      destruct (IH (pre ++ [c]) cps b1) as (b' & E' & Hv'); try done.
      * by rewrite Hus, <-app_assoc.
      * by destruct pre.
      * rewrite length_app. cbn [length]. lia.
      * rewrite length_app, Nat2Z.inj_add in E'. exists b'. split; [exact E'|].
        rewrite Hv', Hv1, <-app_assoc. done.
    + assert (Hi : us !! length pre = Some (0xd800 + (c - 0x10000) / 1024))
        by (rewrite Hus; by rewrite lookup_app_r, Nat.sub_diag by lia).
      assert (Hi2 : us !! S (length pre) = Some (0xdc00 + (c - 0x10000) mod 1024)).
      { rewrite Hus, lookup_app_r by lia. by replace (S (length pre) - length pre)%nat with 1%nat by lia. }
      destruct (high_low c ltac:(lia)) as (Hh & Hl & Hw). cbn zeta in Hh, Hl, Hw.
      rewrite (proj2 (Z.ltb_lt _ _)) by lia.
      rewrite (proj1 (from_unit_ok d order us _ _ 0 Hi ltac:(by eapply Forall_lookup_1))). cbn [rbind us_skip us_buffer].
      rewrite (proj2 (Z.eqb_neq (Z.of_nat (length pre)) 0)), !andb_false_r by lia. rewrite Hh.
      replace (Z.of_nat (length pre) + 1) with (Z.of_nat (S (length pre))) by lia.
      rewrite (proj2 (from_unit_ok d order us _ _ 0 Hi2 ltac:(by eapply Forall_lookup_1))). cbn [rbind].
      rewrite Hl, Hw. rewrite u64_small by lia. unfold SIZE_MAX.
      rewrite Z.gtb_ltb, (proj2 (Z.ltb_ge _ _)) by lia.
      destruct (put_utf8_ok b c ((Z.of_nat (length us) - Z.of_nat (S (length pre))) * 2)) as (b1 & E1 & Hok1 & Hst1 & Hv1);
        [done|done|lia|lia|unfold BUFFER_MALLOC_MAX; lia|]. rewrite E1. cbn [rbind].
      destruct (IH (pre ++ [0xd800 + (c - 0x10000) / 1024; 0xdc00 + (c - 0x10000) mod 1024]) cps b1)
        as (b' & E' & Hv'); try done.
      * by rewrite Hus, <-app_assoc.
      * by destruct pre.
      * rewrite length_app. cbn [length]. lia.
      * rewrite length_app in E'. cbn [length] in E'.
        replace (Z.of_nat (length pre + 2)) with (Z.of_nat (S (length pre)) + 1) in E' by lia.
        exists b'. split; [exact E'|]. rewrite Hv', Hv1, <-app_assoc. done.
Qed.

Lemma from_utf16_text order cps :
  Forall scalar cps ->
  Z.of_nat (length (utf16_text order cps)) + 4 <= BUFFER_MALLOC_MAX ->
  exists ls, _dispatch_transform_from_utf16 malloc order [utf16_text order cps] = Ok (Some ls) /\
    out_bytes ls = utf8_text cps.
Proof.
  intros Hs Hmax. unfold _dispatch_transform_from_utf16, data_apply. cbn [map run_regions].
  unfold utf16_text in *. set (us := 0xfeff :: concat (map utf16_units cps)) in *.
  assert (Hu : Forall unit16 us).
  { apply Forall_cons. split; [unfold unit16; lia|]. apply Forall_concat, Forall_map.
    eapply Forall_impl; [exact Hs|]. apply utf16_units_units. }
  pose proof (length_units_bytes order us) as Hlen. rewrite Hlen in Hmax.
  assert (Hpos : (0 < length us)%nat) by (cbn; lia). unfold BUFFER_MALLOC_MAX in Hmax.
  unfold from_utf16_region at 1. cbn [rbind us_buffer us_skip Z.eqb].
  destruct (buffer_room buffer_init (howmany (Z.of_nat (length (units_bytes order us))) 3 * 2) 0)
    as (b1 & E1 & Hok1 & Hv1 & Hroom1 & Hst1);
    [split; [cbn; unfold BUFFER_MALLOC_MAX; lia|done]|unfold howmany; zbits|lia|unfold howmany, BUFFER_MALLOC_MAX; zbits|].
  rewrite E1. specialize (Hst1 (or_intror eq_refl)). cbn [negb].
  rewrite Z.geb_leb, (proj2 (Z.leb_gt _ _)) by lia. change (Z.to_nat 0) with 0%nat. rewrite drop_0, Z.sub_0_r.
  rewrite Hlen. replace (Z.of_nat (2 * length us)) with (2 * Z.of_nat (length us)) by lia.
  rewrite (Z.mul_comm 2), Z.mod_mul, Z.div_mul by lia. cbn [Z.eqb]. rewrite Z.add_0_r, Z.mul_comm.
  (* the byte order mark is skipped *)
  remember (2 * length us)%nat as fuel eqn:Ef. cbn [from_utf16_loop]. rewrite (proj2 (Z.ltb_lt 0 _)) by lia.
  assert (Hbom : unit16 0xfeff) by (unfold unit16; lia).
  destruct (from_unit_ok [units_bytes order us] order us 0 0xfeff 0 eq_refl Hbom) as [Hu0 _].
  cbn [us_skip us_buffer]. change (Z.of_nat 0) with 0 in Hu0. rewrite Hu0. cbn [rbind us_skip us_buffer].
  cbn [Z.eqb Pos.eqb andb].
  destruct (from_utf16_loop_ok [units_bytes order us] order us fuel [0xfeff] cps b1) as (b' & E' & Hv');
    try done; [cbn [length] in *; lia|unfold BUFFER_MALLOC_MAX; lia|].
  change (0 + 1) with (Z.of_nat (length [65279])). rewrite E'. cbn [rbind us_buffer].
  eexists. split; [done|]. rewrite Hv', Hv1. done.
Qed.
End Utf.
