(* ===== verification/TransformThms.v ===== *)
(** * TransformThms: what the transforms guarantee, and where they go wrong *)

From S2P Require Import Prelude DispatchData DataSpec DataOps DataVisit Transform.
From S2P Require Import TransformBase TransformBase32 TransformUtf.

(** ** Decoders never write past their buffer *)

(** A region of [n] bytes completes at most [howmany n group] groups. *)
Lemma decode_loop_length table size bits group unit flush g bytes st dest st' dest' ok :
  group = 2 ^ g -> 0 <= g <= 64 -> (forall x, Z.of_nat (length (flush x)) = unit) -> 0 <= unit ->
  decode_loop table size bits group flush bytes st dest = (st', dest', ok) ->
  Z.of_nat (length dest') <= Z.of_nat (length dest) +
    (dec_count st mod group + Z.of_nat (length bytes)) / group * unit.
Proof.
  intros Hg Hgb Hu Hu0. assert (0 < group) by (rewrite Hg; lia).
  revert st dest. induction bytes as [|c bytes IH]; intros st dest; cbn [decode_loop length].
  { intros [= <- <- _]. pose proof (Z.mod_pos_bound (dec_count st) group).
    rewrite Z.div_small by lia. lia. }
  destruct (is_blank c).
  { intros Hl%IH. etrans; [exact Hl|]. apply Z.add_le_mono_l, Z.mul_le_mono_nonneg_r; [done|].
    apply Z.div_le_mono; lia. }
  destruct (_ || _).
  { intros [= _ <- _]. pose proof (Z.mod_pos_bound (dec_count st) group ltac:(done)).
    assert (0 <= (dec_count st mod group + Z.of_nat (S (length bytes))) / group) by (apply Z.div_pos; lia). nia. }
  destruct (if table_get table c =? -2 then _ else _) as [v p].
  rewrite (land_count _ group g) by done.
  assert (Hm : u64 (dec_count st + 1) mod group = (dec_count st mod group + 1) mod group).
  { rewrite Hg, u64_mod by done. by rewrite Zplus_mod_idemp_l. }
  pose proof (Z.mod_pos_bound (dec_count st) group ltac:(done)) as Hr.
  set (r := dec_count st mod group) in *.
  intros Hl%IH. cbn [dec_count] in Hl. rewrite Hm in Hl. etrans; [exact Hl|].
  assert (Hc1 : (dec_count st + 1) mod group = (r + 1) mod group) by (unfold r; by rewrite Zplus_mod_idemp_l).
  rewrite Hc1. destruct (decide (r + 1 = group)) as [E|E].
  - rewrite E, Z_mod_same_full. cbn [Z.eqb]. rewrite length_app, Nat2Z.inj_add, Hu, Z.add_0_l.
    replace (r + Z.of_nat (S (length bytes))) with (Z.of_nat (length bytes) + 1 * group) by lia.
    rewrite Z.div_add by lia. lia.
  - rewrite (Z.mod_small (r + 1)) by lia. rewrite (proj2 (Z.eqb_neq _ 0)) by lia.
    replace (r + 1 + Z.of_nat (length bytes)) with (r + Z.of_nat (S (length bytes))) by lia. lia.
Qed.

Lemma decode_region_safe malloc table size bits group unit flush final g st offset bytes :
  group = 2 ^ g -> 0 <= g <= 64 -> (forall x, Z.of_nat (length (flush x)) = unit) -> 0 <= unit ->
  (exists a, st = Ok a) ->
  exists a, (decode_region malloc table size bits group unit flush final st offset bytes).1 = Ok a.
Proof.
  intros Hg Hgb Hu Hu0 [[dec rv] ->]. unfold decode_region. destruct (negb _); [cbn; eauto|].
  destruct (decode_loop _ _ _ _ _ _ _ _) as [[dec' dest] ok] eqn:E.
  pose proof (decode_loop_length _ _ _ _ _ _ _ _ _ _ _ _ _ Hg Hgb Hu Hu0 E) as Hl. cbn [length] in Hl.
  rewrite (proj2 (Z.ltb_ge _ _)); [destruct ok; cbn; eauto|]. etrans; [exact Hl|]. cbn.
  apply Z.mul_le_mono_nonneg_r; [done|]. unfold howmany. assert (0 < group) by (rewrite Hg; lia).
  apply Z.div_le_mono; [done|]. pose proof (Z.mod_pos_bound (dec_count dec) group). lia.
Qed.

Lemma decode_with_safe malloc table size bits group unit flush final g d :
  group = 2 ^ g -> 0 <= g <= 64 -> (forall x, Z.of_nat (length (flush x)) = unit) -> 0 <= unit ->
  exists r, decode_with malloc table size bits group unit flush final d = Ok r.
Proof.
  intros Hg Hgb Hu Hu0. unfold decode_with, data_apply.
  assert (H : forall rs st off, (exists a, st = Ok a) -> exists a,
    (run_regions (fun c (_ offset : Z) bytes =>
       decode_region malloc table size bits group unit flush final c offset bytes) st off rs).1 = Ok a).
  { induction rs as [|[q b] rs IH]; intros st off Hst; [done|]. cbn [run_regions].
    destruct (decode_region_safe malloc table size bits group unit flush final g st off b Hg Hgb Hu Hu0 Hst)
      as [a Ha].
    destruct (decode_region _ _ _ _ _ _ _ _ _ _) as [st' [|]]; cbn in Ha; [apply IH; eauto|cbn; eauto]. }
  destruct (H (map (pair 0) d) (Ok (Decoder 0 0 0, [])) 0) as [[dec rv] Ha]; [eauto|].
  destruct (run_regions _ _ _ _) as [st ok]. cbn in Ha. subst st. cbn [rbind]. eauto.
Qed.

(** ** Decoding in pieces *)

Section Pieces.
Context (table : list Z) (size bits group : Z) (flush : Z -> list Z).
#[local] Abbreviation loop := (decode_loop table size bits group flush).

Lemma decode_loop_app a b st dest :
  loop (a ++ b) st dest =
    let '(st1, dest1, ok) := loop a st dest in if ok : bool then loop b st1 dest1 else (st1, dest1, false).
Proof.
  revert st dest. induction a as [|c a IH]; intros st dest; [done|]. cbn [app decode_loop].
  destruct (is_blank c); [apply IH|]. destruct (_ || _); [done|].
  destruct (if table_get table c =? -2 then _ else _) as [v p]. apply IH.
Qed.

Lemma decode_loop_dest a st dest : loop a st dest = let '(st1, o, ok) := loop a st [] in (st1, dest ++ o, ok).
Proof.
  revert st dest. induction a as [|c a IH]; intros st dest; cbn [decode_loop]; [by rewrite app_nil_r|].
  destruct (is_blank c); [apply IH|]. destruct (_ || _); [by rewrite app_nil_r|].
  destruct (if table_get table c =? -2 then _ else _) as [v p].
  rewrite IH. symmetry. rewrite IH. destruct (loop a _ []) as [[st1 o] ok]. f_equal. f_equal.
  destruct (_ =? 0); [by rewrite app_assoc|done].
Qed.
End Pieces.

(** Only the pad character counts as one. *)
Lemma base64_no_pad a st dest :
  61 ∉ a -> dec_pad (decode_loop base64_decode_table base64_decode_table_size 6 4 base64_flush a st dest).1.1 = dec_pad st.
Proof.
  revert st dest. induction a as [|c a IH]; intros st dest Hc; [done|]. apply not_elem_of_cons in Hc as [Hne Hc].
  cbn [decode_loop]. destruct (is_blank c); [by apply IH|].
  destruct (_ || _) eqn:Eo; [done|]. destruct (Z.eqb_spec (table_get base64_decode_table c) (-2)) as [E|E]; [|by rewrite IH].
  exfalso. apply Hne. apply orb_false_iff in Eo as [Es _]. rewrite Z.geb_leb, Z.leb_gt in Es.
  assert (forallb (fun n => (Z.of_nat n =? 61) || negb (table_get base64_decode_table (Z.of_nat n) =? -2)) (seq 0 123) = true) as H
    by (by vm_compute).
  change base64_decode_table_size with 123 in Es. rewrite forallb_forall in H. destruct (decide (0 <= c)) as [Hp|Hp].
  - specialize (H (Z.to_nat c)). rewrite Z2Nat.id in H by done. rewrite E in H.
    rewrite orb_false_r, Z.eqb_eq in H. symmetry. apply H, in_seq. lia.
  - unfold table_get in E. replace (Z.to_nat c) with 0%nat in E by lia. done.
Qed.

Lemma out_bytes_append rv o : out_bytes (data_concat rv (Leaf (Z.of_nat (length o)) o)) = out_bytes rv ++ o.
Proof.
  unfold data_concat. cbn [leaf_size]. destruct (Z.eqb_spec (Z.of_nat (length o)) 0) as [E|E].
  - destruct o; [by rewrite app_nil_r|cbn in E; lia].
  - unfold out_bytes. rewrite map_app, concat_app. cbn [map concat leaf_size leaf_bytes]. rewrite app_nil_r, Nat2Z.id.
    by rewrite take_ge by done.
Qed.

Section Divided.
Context (malloc : Z -> bool) (Hmal : forall n, malloc n = true).
#[local] Abbreviation loop := (decode_loop base64_decode_table base64_decode_table_size 6 4 base64_flush).
#[local] Abbreviation region :=
  (decode_region malloc base64_decode_table base64_decode_table_size 6 4 3 base64_flush base64_final).

Lemma base64_region st rv off b st1 o :
  loop b st [] = (st1, o, true) ->
  region (Ok (st, rv)) off b = (Ok (st1, data_concat rv (Leaf (base64_final (Z.of_nat (length o)) (dec_pad st1)) o)), true).
Proof.
  intros E. pose proof (decode_loop_length _ _ _ 4 3 base64_flush 2 _ _ _ _ _ _ eq_refl ltac:(lia) ltac:(done) ltac:(lia) E) as Hl.
  unfold decode_region. rewrite Hmal, E. cbn [negb length] in *. rewrite (proj2 (Z.ltb_ge _ _)); [done|].
  etrans; [exact Hl|]. unfold howmany. pose proof (Z.mod_pos_bound (dec_count st) 4 ltac:(lia)).
  cbn. apply Z.mul_le_mono_nonneg_r; [lia|]. apply Z.div_le_mono; lia.
Qed.

(** Regions without a pad character give what their concatenation gives. *)
Lemma base64_regions rs st rv off tl st1 o :
  loop (concat rs) st [] = (st1, o, true) -> 61 ∉ concat rs -> dec_pad st = 0 ->
  exists rv' off', out_bytes rv' = out_bytes rv ++ o /\
    run_regions (fun c (_ offset : Z) bytes => region c offset bytes) (Ok (st, rv)) off (map (pair 0) rs ++ tl) =
    run_regions (fun c (_ offset : Z) bytes => region c offset bytes) (Ok (st1, rv')) off' tl.
Proof.
  revert st rv off o. induction rs as [|b rs IH]; intros st rv off o E Hp H0.
  - injection E as <- <-. exists rv, off. by rewrite app_nil_r.
  - cbn [concat] in E, Hp. rewrite decode_loop_app in E. rewrite not_elem_of_app in Hp. destruct Hp as [Hb Hp].
    destruct (loop b st []) as [[st2 o2] ok2] eqn:E2. destruct ok2; [|done].
    rewrite decode_loop_dest in E. destruct (loop (concat rs) st2 []) as [[st3 o3] ok3] eqn:E3. injection E as -> <- ->.
    pose proof (base64_no_pad b st [] Hb) as Hpad. rewrite E2 in Hpad. cbn [fst] in Hpad.
    cbn [map app run_regions]. rewrite (base64_region _ _ _ _ _ _ E2), Hpad, H0.
    change (base64_final (Z.of_nat (length o2)) 0) with (Z.of_nat (length o2)).
    destruct (IH st2 (data_concat rv (Leaf (Z.of_nat (length o2)) o2)) (off + Z.of_nat (length b)) o3 E3 Hp ltac:(congruence))
      as (rv' & off' & Ho & Er).
    exists rv', off'. rewrite Er, Ho, out_bytes_append, <- app_assoc. done.
Qed.

(** The encoding of [bs], divided so that the last piece has the padding. *)
Lemma from_base64_divided bs rs x :
  Forall byte bs -> Z.of_nat (length bs) <= SIZE_MAX -> concat rs ++ x = b64_ref bs -> 61 ∉ concat rs ->
  exists ls, _dispatch_transform_from_base64 malloc (rs ++ [x]) = Ok (Some ls) /\ out_bytes ls = bs.
Proof.
  intros Hb Hm Hx Hp. destruct (b64_ref_decode bs 0 0 [] Hb eq_refl) as (x' & count' & HD).
  pose proof (length_b64_ref bs) as Hlen. rewrite <- Hx in HD, Hlen. cbn [app] in HD. rewrite decode_loop_app in HD.
  destruct (loop (concat rs) (Decoder 0 0 0) []) as [[st1 o1] ok1] eqn:E1. destruct ok1; [|done].
  rewrite decode_loop_dest in HD. destruct (loop x st1 []) as [[st2 o2] ok2] eqn:E2. injection HD as -> Ho ->.
  unfold _dispatch_transform_from_base64, decode_with, data_apply. rewrite map_app.
  destruct (base64_regions rs (Decoder 0 0 0) [] 0 (map (pair 0) [x]) st1 o1 E1 Hp eq_refl) as (rv & off & Hrv & ->).
  cbn [map run_regions]. rewrite (base64_region _ _ _ _ _ _ E2). cbn [dec_pad rbind].
  set (pad := (3 - Z.of_nat (length bs) mod 3) mod 3) in *.
  assert (Hpad : 0 <= pad < 3) by (unfold pad; apply Z.mod_pos_bound; lia).
  eexists. split; [done|].
  assert (pad <= Z.of_nat (length o2)) as Hle.
  { destruct (decide (pad = 0)) as [->|Hnz]; [lia|].
    pose proof (decode_loop_length _ _ _ 4 3 base64_flush 2 _ _ _ _ _ _ eq_refl ltac:(lia) ltac:(done) ltac:(lia) E1) as Hl1.
    cbn [length dec_count] in Hl1. apply (f_equal length) in Ho as Hol. rewrite !length_app, length_replicate in Hol.
    assert (x <> []) as Hxne.
    { intros ->. rewrite app_nil_r in *. pose proof (base64_no_pad (concat rs) (Decoder 0 0 0) [] Hp) as Hn.
      rewrite E1 in Hn. cbn in Hn, E2. injection E2 as E2 _. rewrite E2 in Hn. cbn in Hn. lia. }
    assert (0 < length x)%nat by (destruct x; [done|cbn; lia]). rewrite length_app in Hlen. unfold howmany, pad in *. zbits. }
  assert (base64_final (Z.of_nat (length o2)) pad = Z.of_nat (length o2) - pad) as ->.
  { unfold base64_final. rewrite Z.gtb_ltb. destruct (Z.ltb_spec 0 pad); [|lia].
    apply (f_equal length) in Ho as Hol. rewrite !length_app, length_replicate in Hol. unfold SIZE_MAX in Hm.
    rewrite u64_small; [done|]. lia. }
  assert (bs = o1 ++ take (Z.to_nat (Z.of_nat (length o2) - pad)) o2) as Hbs.
  { apply (f_equal length) in Ho as Hol. rewrite !length_app, length_replicate in Hol.
    apply (f_equal (take (length bs))) in Ho. rewrite take_app_length in Ho. rewrite <- Ho.
    rewrite take_app_ge by lia. f_equal. f_equal. lia. }
  cbn [app] in Hrv. unfold data_concat. cbn [leaf_size].
  destruct (Z.eqb_spec (Z.of_nat (length o2) - pad) 0) as [E|E].
  - rewrite E in Hbs. by rewrite Hbs, Hrv, app_nil_r.
  - unfold out_bytes in *. rewrite map_app, concat_app, Hrv. cbn [map concat leaf_size leaf_bytes]. by rewrite app_nil_r.
Qed.
End Divided.

(** ** Properties *)

(** [C22] Base64 encoding.  Whatever the division of the contents into
    regions, the result is one leaf holding the RFC 4648 encoding of the
    contents: the byte before a region is fetched correctly, exactly
    [4 * ceil(n / 3)] characters are written into a buffer of that size, and
    the padding appears once, at the end. *)
Theorem base64_encode_rfc malloc d :
  Forall (fun b => b <> []) d -> Forall byte (contents d) ->
  howmany (data_size d) 3 <= SIZE_MAX / 4 -> data_size d <= SIZE_MAX ->
  malloc (howmany (data_size d) 3 * 4) = true ->
  _dispatch_transform_to_base64 malloc d =
    Ok (Some (data_concat [] (Leaf (howmany (data_size d) 3 * 4) (b64_ref (contents d))))).
Proof. apply to_base64_ok. Qed.

Definition always (n : Z) : bool := true.

Lemma base64_encode_rfc_witness :
  _dispatch_transform_to_base64 always [[77]; [97; 110; 77]] =
    Ok (Some [Leaf 8 [84; 87; 70; 117; 84; 81; 61; 61]]).
Proof.
  apply (base64_encode_rfc always [[77]; [97; 110; 77]]);
    [repeat constructor; discriminate|repeat constructor; vm_compute; discriminate
    |vm_compute; discriminate|vm_compute; discriminate|reflexivity].
Defined.

(** [C23] Base64 round trip.  The encoder, given contents divided into regions in
    any way, produces an object whose contents the decoder turns back into
    those, in whatever regions it gets them as long as the pad characters are
    all in the last one.  (Pads in two regions break the decoder, as
    [base64_padding_underflow] shows.) *)
Theorem base64_roundtrip malloc d :
  (forall n, malloc n = true) -> Forall (fun b => b <> []) d -> Forall byte (contents d) ->
  data_size d <= SIZE_MAX / 4 ->
  exists ls d', _dispatch_transform_to_base64 malloc d = Ok (Some ls) /\ as_data ls = Ok d' /\
    forall rs x, contents (rs ++ [x]) = contents d' -> 61 ∉ contents rs ->
      exists ls', _dispatch_transform_from_base64 malloc (rs ++ [x]) = Ok (Some ls') /\ out_bytes ls' = contents d.
Proof.
  intros Hmal Hne Hb Hsz. pose proof (length_b64_ref (contents d)) as Hl. fold (data_size d) in Hl.
  assert (0 <= data_size d) by (unfold data_size; lia).
  assert (Hh : 0 <= howmany (data_size d) 3 <= data_size d) by (unfold howmany; zbits).
  rewrite to_base64_ok; try done; [|lia|unfold SIZE_MAX in *; zbits].
  eexists _, (if decide (data_size d = 0) then [] else [b64_ref (contents d)]). split; [done|].
  assert (forall y, contents (if decide (data_size d = 0) then [] else [b64_ref (contents d)]) = y -> y = b64_ref (contents d)) as Hy.
  { intros y <-. case_decide as H0; [|unfold contents at 1; cbn; by rewrite app_nil_r].
    rewrite H0 in Hl. change (howmany 0 3 * 4) with 0 in Hl. destruct (b64_ref (contents d)); [done|cbn [length] in Hl; lia]. }
  split.
  - unfold data_concat. cbn [leaf_size]. case_decide as H0.
    + by rewrite H0.
    + rewrite (proj2 (Z.eqb_neq _ 0)) by (unfold howmany; zbits). unfold as_data. cbn [app forallb map leaf_size leaf_bytes].
      rewrite Hl, Z.leb_refl. cbn [andb]. by rewrite take_ge by lia.
  - intros rs x Hx Hp. symmetry in Hx. apply Hy in Hx. unfold contents in Hx. rewrite concat_app in Hx. cbn [concat] in Hx.
    rewrite app_nil_r in Hx. apply from_base64_divided; try done. fold (data_size d). unfold SIZE_MAX in *. zbits.
Qed.

Lemma base64_roundtrip_witness :
  exists ls d', _dispatch_transform_to_base64 always [[1; 2]; [255]; [0; 7]] = Ok (Some ls) /\ as_data ls = Ok d' /\
    contents d' = contents [[65; 81]; [76; 47; 65; 65]; [99; 61]] /\
    exists ls', _dispatch_transform_from_base64 always [[65; 81]; [76; 47; 65; 65]; [99; 61]] = Ok (Some ls') /\
      out_bytes ls' = [1; 2; 255; 0; 7].
Proof.
  destruct (base64_roundtrip always [[1; 2]; [255]; [0; 7]]) as (ls & d' & E1 & E2 & H);
    [reflexivity|repeat constructor; discriminate|repeat constructor; vm_compute; discriminate|vm_compute; discriminate|].
  exists ls, d'. split; [exact E1|]. split; [exact E2|].
  assert (contents d' = contents [[65; 81]; [76; 47; 65; 65]; [99; 61]]) as Hc.
  { vm_compute in E1. injection E1 as <-. vm_compute in E2. injection E2 as <-. reflexivity. }
  split; [exact Hc|]. apply (H [[65; 81]; [76; 47; 65; 65]] [99; 61]); [symmetry; exact Hc|].
  apply (bool_decide_unpack _). vm_compute. exact I.
Defined.

(** Base32 round trip.  The base32 encoder writes the RFC 4648
    encoding, [8 * ceil(n / 5)] characters with the right padding, whatever
    the regions, and decoding it gives back the contents. *)
Theorem base32_roundtrip malloc d :
  (forall n, malloc n = true) -> Forall (fun b => b <> []) d -> d <> [] -> Forall byte (contents d) ->
  data_size d <= SIZE_MAX / 8 ->
  exists ls d' ls', _dispatch_transform_to_base32 malloc d = Ok (Some ls) /\ as_data ls = Ok d' /\
    contents d' = b32_ref base32_encode_table (contents d) /\
    _dispatch_transform_from_base32 malloc d' = Ok (Some ls') /\ out_bytes ls' = contents d.
Proof.
  intros Hmal Hne Hd Hb Hsz.
  assert (Hc : contents d <> []).
  { destruct d as [|b d]; [done|]. apply Forall_cons in Hne as [Hb0 _]. unfold contents. cbn.
    by destruct b. }
  assert (Hpos : 0 < data_size d) by (unfold data_size; destruct (contents d); [done|cbn; lia]).
  assert (Hh : 0 < howmany (data_size d) 5 <= data_size d) by (unfold howmany; zbits).
  unfold _dispatch_transform_to_base32.
  rewrite to_base32_ok; try done; [|lia|unfold SIZE_MAX in *; zbits].
  unfold data_concat. cbn [leaf_size]. rewrite (proj2 (Z.eqb_neq _ 0)) by lia.
  pose proof (length_b32_ref base32_encode_table (contents d)) as Hl. fold (data_size d) in Hl.
  eexists _, [b32_ref base32_encode_table (contents d)].
  destruct (from_base32_ref base32_encode_table base32_decode_table base32_decode_table_size
    ltac:(by vm_compute) ltac:(by vm_compute) malloc (contents d)) as (ls' & E & Ho); [done|done| |done|].
  { fold (data_size d). unfold SIZE_MAX in *. zbits. }
  exists ls'. split; [done|]. split; [|split; [unfold contents; cbn; by rewrite app_nil_r|done]].
  unfold as_data. cbn [app forallb map leaf_size leaf_bytes]. rewrite Hl, Z.leb_refl. cbn [andb].
  rewrite take_ge by lia. done.
Qed.

Lemma base32_roundtrip_witness :
  exists ls d' ls', _dispatch_transform_to_base32 always [[102; 111; 111]; [98; 97; 114]] = Ok (Some ls) /\
    as_data ls = Ok d' /\
    contents d' = [77; 90; 88; 87; 54; 89; 84; 66; 79; 73; 61; 61; 61; 61; 61; 61] /\
    _dispatch_transform_from_base32 always d' = Ok (Some ls') /\
    out_bytes ls' = [102; 111; 111; 98; 97; 114].
Proof.
  apply (base32_roundtrip always [[102; 111; 111]; [98; 97; 114]]);
    [reflexivity|repeat constructor; discriminate|discriminate|repeat constructor; vm_compute; discriminate
    |vm_compute; discriminate].
Defined.

(** [C24] Decoders stay inside their buffers.  For every input, however it
    is divided and whatever bytes it has, the base64 and base32 decoders never
    write more than the buffer they allocated for a region. *)
Theorem base_decoders_in_bounds malloc d :
  (exists r, _dispatch_transform_from_base64 malloc d = Ok r) /\
  (exists r, _dispatch_transform_from_base32 malloc d = Ok r) /\
  (exists r, _dispatch_transform_from_base32hex malloc d = Ok r).
Proof.
  split; [|split].
  - by apply (decode_with_safe _ _ _ _ _ _ _ _ 2).
  - by apply (decode_with_safe _ _ _ _ _ _ _ _ 3).
  - by apply (decode_with_safe _ _ _ _ _ _ _ _ 3).
Qed.

(** The base64 decoder does not check the padding.  Four pad
    characters make it subtract 4 from the 3 bytes it wrote: the result is a
    data object of size [2^64 - 1] on a buffer of 3 bytes.  The same happens
    to the valid text [QQ==] when its pads fall into two regions. *)
Theorem base64_padding_underflow malloc :
  malloc 3 = true ->
  _dispatch_transform_from_base64 malloc [[61; 61; 61; 61]] =
    Ok (Some [Leaf SIZE_MAX [0; 0; 0]]) /\
  _dispatch_transform_from_base64 malloc [[81; 81; 61]; [61]] =
    Ok (Some [Leaf SIZE_MAX []; Leaf 1 [65; 0; 0]]).
Proof.
  intros Hm. split.
  - unfold _dispatch_transform_from_base64, decode_with, data_apply. cbn [map run_regions].
    unfold decode_region. change (howmany _ _ * 3) with 3. rewrite Hm. vm_compute. reflexivity.
  - unfold _dispatch_transform_from_base64, decode_with, data_apply. cbn [map run_regions].
    unfold decode_region at 1. change (howmany _ _ * 3) with 3. rewrite Hm.
    unfold decode_region. change (howmany _ _ * 3) with 3. cbn [negb]. rewrite Hm. vm_compute. reflexivity.
Qed.

Lemma base64_padding_underflow_witness :
  always 3 = true /\
  _dispatch_transform_from_base64 always [[61; 61; 61; 61]] = Ok (Some [Leaf SIZE_MAX [0; 0; 0]]).
Proof. split; [reflexivity|]. apply (base64_padding_underflow always). reflexivity. Defined.

(** *** Base32hex *)

(** The decoder compares with the size of the wrong table: every byte that is
    not blank is refused. *)
Lemma hex_refuses c : is_blank c = false ->
  (c >=? base32hex_decode_table_size) || (table_get base32hex_decode_table c =? -1) = true.
Proof.
  intros Hb. rewrite Z.geb_leb. change base32hex_decode_table_size with 33.
  destruct (Z.leb_spec 33 c) as [|Hc]; [done|]. cbn [orb].
  assert (Hall : forallb (fun n => table_get base32hex_decode_table (Z.of_nat n) =? -1) (seq 0 33) = true)
    by (by vm_compute).
  rewrite forallb_forall in Hall. destruct (decide (0 <= c)).
  - specialize (Hall (Z.to_nat c)). rewrite Z2Nat.id in Hall by lia. apply Hall, in_seq. lia.
  - unfold table_get. by replace (Z.to_nat c) with 0%nat by lia.
Qed.

Lemma hex_loop bytes st dest :
  decode_loop base32hex_decode_table base32hex_decode_table_size 5 8 base32_flush bytes st dest =
    (st, dest, forallb is_blank bytes).
Proof.
  induction bytes as [|c bytes IH]; [done|]. cbn [decode_loop forallb].
  destruct (is_blank c) eqn:E; [exact IH|]. by rewrite hex_refuses.
Qed.

(** Base32hex decoding never succeeds.  The decoder's table size is
    computed from the encoding table, so every input with at least one byte
    that is not blank, in particular every non-empty output of the base32hex
    encoder, is refused. *)
Theorem base32hex_never_decodes malloc d c :
  (forall n, malloc n = true) -> c ∈ contents d -> is_blank c = false ->
  _dispatch_transform_from_base32hex malloc d = Ok None.
Proof.
  intros Hmal Hin Hb. unfold _dispatch_transform_from_base32hex, _dispatch_transform_from_base32_with_table,
    decode_with, data_apply.
  set (f := fun (c : res (decoder * list leaf)) (_ offset : Z) bytes => _).
  assert (H : forall ds off dec rv, c ∈ concat ds -> exists a,
    run_regions f (Ok (dec, rv)) off (map (pair 0) ds) = (Ok a, false)).
  { induction ds as [|b ds IH]; intros off dec rv Hc; [by apply elem_of_nil in Hc|].
    cbn [map run_regions]. unfold f at 1, decode_region. rewrite Hmal, hex_loop. cbn [negb].
    cbn [length]. rewrite (proj2 (Z.ltb_ge _ _)) by (cbn; apply Z.mul_nonneg_nonneg; [unfold howmany; apply Z.div_pos; lia|lia]).
    destruct (forallb is_blank b) eqn:Eb; [cbn [negb]|cbn; eauto].
    apply IH. cbn in Hc. apply elem_of_app in Hc as [Hc|Hc]; [|done].
    rewrite forallb_forall in Eb. rewrite Eb in Hb; [done|]. by apply list_elem_of_In. }
  destruct (H d 0 (Decoder 0 0 0) [] Hin) as [a Ha]. rewrite Ha. by destruct a.
Qed.

Lemma base32hex_never_decodes_witness :
  _dispatch_transform_to_base32hex always [[102; 111; 111; 98; 97]] =
    Ok (Some [Leaf 8 [67; 80; 78; 77; 85; 79; 74; 49]]) /\
  _dispatch_transform_from_base32hex always [[67; 80; 78; 77; 85; 79; 74; 49]] = Ok None.
Proof.
  split; [reflexivity|].
  apply (base32hex_never_decodes always [[67; 80; 78; 77; 85; 79; 74; 49]] 67);
    [reflexivity|cbn; apply list_elem_of_here|reflexivity].
Defined.

(** *** UTF *)

(** UTF round trip.  Text given in one region, a sequence of Unicode
    scalar values not starting with a byte order mark, is turned into UTF-16
    of either byte order with a byte order mark in front, and that is turned
    back into the same UTF-8. *)
Theorem utf16_roundtrip malloc order cps :
  (forall n, malloc n = true) -> Forall scalar cps -> hd_error cps <> Some 0xfeff -> cps <> [] ->
  4 * Z.of_nat (length (utf8_text cps)) + 8 <= BUFFER_MALLOC_MAX ->
  exists ls ls', _dispatch_transform_to_utf16 malloc order [utf8_text cps] = Ok (Some ls) /\
    out_bytes ls = utf16_text order cps /\
    _dispatch_transform_from_utf16 malloc order [out_bytes ls] = Ok (Some ls') /\
    out_bytes ls' = utf8_text cps.
Proof.
  intros Hmal Hs Hbom Hne Hmax.
  assert (Hlen : Z.of_nat (length (concat (map utf16_units cps))) <= Z.of_nat (length (utf8_text cps))).
  { clear Hbom Hne Hmax. induction cps as [|c cps IH]; [done|]. apply Forall_cons in Hs as [Hc Hs].
    specialize (IH Hs). change (utf8_text (c :: cps)) with (utf8_bytes c ++ utf8_text cps).
    cbn [map concat]. rewrite !length_app.
    destruct (read_utf8_bytes c [] ltac:(unfold scalar in Hc; lia)) as (b & tl & Eb & _ & _ & Hbig & _).
    rewrite Eb.
    assert (length (utf16_units c) <= length (b :: tl))%nat; [|lia].
    unfold utf16_units. destruct (Z.ltb_spec c 65536); cbn [length]; [lia|].
    specialize (Hbig ltac:(lia)). lia. }
  destruct (to_utf16_text malloc Hmal order cps) as (ls & E & Ho); [done|done|done|lia|].
  destruct (from_utf16_text malloc Hmal order cps) as (ls' & E' & Ho'); [done| |].
  { unfold utf16_text. rewrite length_units_bytes. cbn [length]. lia. }
  exists ls, ls'. split; [done|]. split; [done|]. rewrite Ho. done.
Qed.

Lemma utf16_roundtrip_witness :
  exists ls ls', _dispatch_transform_to_utf16 always OSBigEndian [[195; 169; 240; 157; 132; 158]] = Ok (Some ls) /\
    out_bytes ls = [254; 255; 0; 233; 216; 52; 221; 30] /\
    _dispatch_transform_from_utf16 always OSBigEndian [out_bytes ls] = Ok (Some ls') /\
    out_bytes ls' = [195; 169; 240; 157; 132; 158].
Proof.
  apply (utf16_roundtrip always OSBigEndian [0xe9; 0x1d11e]);
    [reflexivity|repeat constructor; unfold scalar; lia|discriminate|discriminate|vm_compute; discriminate].
Defined.

(** Three faults of the UTF transforms, each by a run.
    After a sequence that spans two regions, the position in the second region
    is counted without the bytes already consumed: valid text in three regions
    makes the transform decode at the wrong place, there on a continuation
    byte whose length is taken as 255, and read far beyond the mapped bytes;
    in one region the same text converts.
    A surrogate pair whose second unit starts with the last byte of a region
    of odd size is read from the region, one byte beyond its end; in one region
    the same text converts.
    The UTF-8 form of U+DFFF, which is not a scalar value, is accepted and
    becomes a lone low surrogate, which the transform back refuses; U+DFFE is
    refused. *)
Theorem utf16_faults :
  (_dispatch_transform_to_utf16le always [[0xc3]; [0xa9; 0xe6; 0x97]; [0xa5; 0x41]] = Crash OutOfBounds /\
   exists ls, _dispatch_transform_to_utf16le always [[0xc3; 0xa9; 0xe6; 0x97; 0xa5; 0x41]] = Ok (Some ls)) /\
  (_dispatch_transform_from_utf16le always [[0x34; 0xd8; 0x1e]; [0xdd]] = Crash OutOfBounds /\
   exists ls, _dispatch_transform_from_utf16le always [[0x34; 0xd8; 0x1e; 0xdd]] = Ok (Some ls) /\
     out_bytes ls = [0xf0; 0x9d; 0x84; 0x9e]) /\
  (_dispatch_transform_to_utf16le always [[0xed; 0xbf; 0xbe]] = Ok None /\
   exists ls, _dispatch_transform_to_utf16le always [[0xed; 0xbf; 0xbf]] = Ok (Some ls) /\
     _dispatch_transform_from_utf16le always [out_bytes ls] = Ok None).
Proof.
  split; [|split].
  - split; [vm_compute; reflexivity|]. eexists. vm_compute. reflexivity.
  - split; [vm_compute; reflexivity|]. eexists. split; [vm_compute; reflexivity|vm_compute; reflexivity].
  - split; [vm_compute; reflexivity|]. eexists. split; [vm_compute; reflexivity|vm_compute; reflexivity].
Qed.
