(* ===== verification/StrTo.v ===== *)
(** * StrTo: the integer conversions of the C library

    Model of [strtol], [strtoll], [strtoimax], [strtoul], [strtoull],
    [strtoumax] ([stdlib/FreeBSD/strto*.c]), of their wide character versions
    ([locale/FreeBSD/wcsto*.c]), and of the functions built on them
    ([strtoq], [strtouq], [strtonum], [atoi], [atol], [atoll]).

    A string is the memory from its first character on, a list of [char]
    (signed, -128 .. 127) or [wchar_t] values that holds its NUL somewhere; a
    read beyond the list is [OutOfBounds].  [s] is the part of the list from
    the pointer [s] on, so that [*s++] takes its head.  [*endptr] is an offset
    from [nptr].

    Which characters are white space depends on the locale: it is what the
    class [Ctype] stands for. *)

From S2P Require Import Prelude.

(** ** Locales *)

(** A [locale_t]: the two reserved values, or a locale object. *)
Inductive locale_t (L : Type) : Type :=
  | LC_C_LOCALE
  | LC_GLOBAL_LOCALE
  | Locale (l : L).
Arguments LC_C_LOCALE {L}.
Arguments LC_GLOBAL_LOCALE {L}.
Arguments Locale {L} l.

(** What the conversions use of the locale code: the character classes of a
    locale object, and the three distinguished objects. *)
Class Ctype (L : Type) : Type := {
  isspace_l : Z -> L -> bool;
  iswspace_l : Z -> L -> bool;
  _c_locale : L;
  __global_locale : L;
  __current_locale : L
}.

Definition NORMALIZE_LOCALE `{Ctype L} (x : locale_t L) : L :=
  match x with
  | LC_C_LOCALE => _c_locale
  | LC_GLOBAL_LOCALE => __global_locale
  | Locale l => l
  end.

(** ** Limits *)

Definition LONG_MIN : Z := - 2 ^ 63.
Definition LONG_MAX : Z := 2 ^ 63 - 1.
Definition ULONG_MAX : Z := 2 ^ 64 - 1.

(** The parts in which the signed and the unsigned conversions differ: the
    largest magnitude of each sign, the value stored on overflow, both as the
    unsigned type of [acc], and the conversion to the type returned. *)
Record limits := {
  magnitude : bool -> Z;
  saturate : bool -> Z;
  returned : Z -> Z
}.

Definition signed_limits : limits := {|
  magnitude neg := if neg then u64 (u64 (- (LONG_MIN + LONG_MAX)) + LONG_MAX) else LONG_MAX;
  saturate neg := u64 (if neg then LONG_MIN else LONG_MAX);
  returned := s64
|}.

Definition unsigned_limits : limits := {|
  magnitude neg := ULONG_MAX;
  saturate neg := ULONG_MAX;
  returned z := z
|}.

(** ** The conversion *)

(** Value, offset stored in [*endptr], and [errno] when it is set. *)
Record conversion := Conv { value : Z; endptr : Z; err : option errno_t }.

Definition digit_value (c : Z) : option Z :=
  if (48 <=? c) && (c <=? 57) then Some (c - 48)                    (* '0' .. '9' *)
  else if (65 <=? c) && (c <=? 90) then Some (c - (65 - 10))        (* 'A' .. 'Z' *)
  else if (97 <=? c) && (c <=? 122) then Some (c - (97 - 10))       (* 'a' .. 'z' *)
  else None.

(** [do { c = *s++; } while (isspace(c));] *)
Fixpoint skip_space (isspace : Z -> bool) (s : list Z) : res (Z * list Z) :=
  match s with
  | [] => Crash OutOfBounds
  | c :: s => if isspace c then skip_space isspace s else Ok (c, s)
  end.

(** [c = *s++] *)
Definition next_char (s : list Z) : res (Z * list Z) :=
  match s with
  | [] => Crash OutOfBounds
  | c :: s => Ok (c, s)
  end.

(** The optional sign: [neg], and the cursor behind it. *)
Definition read_sign (c : Z) (s : list Z) : res (bool * (Z * list Z)) :=
  if c =? 45 then let! cs := next_char s in Ok (true, cs)           (* '-' *)
  else if c =? 43 then let! cs := next_char s in Ok (false, cs)     (* '+' *)
  else Ok (false, (c, s)).

(** The guard of the hexadecimal prefix.  The narrow conversions look one
    character further than the wide ones. *)
Definition hex_digit (c : Z) : bool :=
  ((48 <=? c) && (c <=? 57)) || ((65 <=? c) && (c <=? 70)) || ((97 <=? c) && (c <=? 102)).

Definition hex_prefix (lookahead : bool) (base c : Z) (s : list Z) : res bool :=
  if ((base =? 0) || (base =? 16)) && (c =? 48) then
    let! x := arr_get s 0 in
    if (x =? 120) || (x =? 88) then
      if lookahead then let! h := arr_get s 1 in Ok (hex_digit h) else Ok true
    else Ok false
  else Ok false.

(** The loop over the digits: [acc], [any] and the cursor at its end. *)
Fixpoint accumulate (base cutoff cutlim : Z) (c : Z) (s : list Z) (acc any : Z)
    : res (Z * Z * list Z) :=
  match digit_value c with
  | None => Ok (acc, any, s)
  | Some d =>
      if d >=? base then Ok (acc, any, s)
      else
        let '(acc, any) :=
          if (any <? 0) || (acc >? cutoff) || ((acc =? cutoff) && (d >? cutlim)) then (acc, -1)
          else (u64 (u64 (acc * base) + d), 1) in
        match s with
        | [] => Crash OutOfBounds
        | c :: s => accumulate base cutoff cutlim c s acc any
        end
  end.

Definition strto (isspace : Z -> bool) (lookahead : bool) (lim : limits) (nptr : list Z) (base : Z)
    : res conversion :=
  let! (c, s) := skip_space isspace nptr in
  let! (neg, (c, s)) := read_sign c s in
  let! hex := hex_prefix lookahead base c s in
  let! (base, c, s) :=
    (if hex then let! c := arr_get s 1 in Ok (16, c, drop 2 s) else Ok (base, c, s)) in
  let base := if base =? 0 then (if c =? 48 then 8 else 10) else base in
  if (base <? 2) || (base >? 36) then Ok (Conv (returned lim 0) 0 (Some EINVAL))
  else
    let cutlim := magnitude lim neg mod base in
    let cutoff := magnitude lim neg / base in
    let! (acc, any, s) := accumulate base cutoff cutlim c s 0 0 in
    let stop := Z.of_nat (length nptr) - Z.of_nat (length s) - 1 in
    if any <? 0 then Ok (Conv (returned lim (saturate lim neg)) stop (Some ERANGE))
    else if any =? 0 then Ok (Conv (returned lim acc) 0 (Some EINVAL))
    else Ok (Conv (returned lim (if neg then u64 (- acc) else acc)) stop None).

(** ** The functions of the library *)

Section Functions.
Context `{Ctype L}.

Definition narrow_space (loc : L) (c : Z) : bool := isspace_l (u8 c) loc.
Definition wide_space (loc : L) (c : Z) : bool := iswspace_l c loc.

Definition strtol_l (nptr : list Z) (base : Z) (loc : locale_t L) : res conversion :=
  strto (narrow_space (NORMALIZE_LOCALE loc)) true signed_limits nptr base.

Definition strtol (nptr : list Z) (base : Z) : res conversion :=
  strtol_l nptr base (Locale __current_locale).

Definition strtoll_l (nptr : list Z) (base : Z) (loc : locale_t L) : res conversion :=
  strto (narrow_space (NORMALIZE_LOCALE loc)) true signed_limits nptr base.

Definition strtoll (nptr : list Z) (base : Z) : res conversion :=
  strtoll_l nptr base (Locale __current_locale).

Definition strtoimax_l (nptr : list Z) (base : Z) (loc : locale_t L) : res conversion :=
  strto (narrow_space (NORMALIZE_LOCALE loc)) true signed_limits nptr base.

Definition strtoimax (nptr : list Z) (base : Z) : res conversion :=
  strtoimax_l nptr base (Locale __current_locale).

Definition strtoul_l (nptr : list Z) (base : Z) (loc : locale_t L) : res conversion :=
  strto (narrow_space (NORMALIZE_LOCALE loc)) true unsigned_limits nptr base.

Definition strtoul (nptr : list Z) (base : Z) : res conversion :=
  strtoul_l nptr base (Locale __current_locale).

Definition strtoull_l (nptr : list Z) (base : Z) (loc : locale_t L) : res conversion :=
  strto (narrow_space (NORMALIZE_LOCALE loc)) true unsigned_limits nptr base.

Definition strtoull (nptr : list Z) (base : Z) : res conversion :=
  strtoull_l nptr base (Locale __current_locale).

Definition strtoumax_l (nptr : list Z) (base : Z) (loc : locale_t L) : res conversion :=
  strto (narrow_space (NORMALIZE_LOCALE loc)) true unsigned_limits nptr base.

Definition strtoumax (nptr : list Z) (base : Z) : res conversion :=
  strtoumax_l nptr base (Locale __current_locale).

Definition wcstol_l (nptr : list Z) (base : Z) (loc : locale_t L) : res conversion :=
  strto (wide_space (NORMALIZE_LOCALE loc)) false signed_limits nptr base.

Definition wcstol (nptr : list Z) (base : Z) : res conversion :=
  wcstol_l nptr base (Locale __current_locale).

Definition wcstoll_l (nptr : list Z) (base : Z) (loc : locale_t L) : res conversion :=
  strto (wide_space (NORMALIZE_LOCALE loc)) false signed_limits nptr base.

Definition wcstoll (nptr : list Z) (base : Z) : res conversion :=
  wcstoll_l nptr base (Locale __current_locale).

Definition wcstoimax_l (nptr : list Z) (base : Z) (loc : locale_t L) : res conversion :=
  strto (wide_space (NORMALIZE_LOCALE loc)) false signed_limits nptr base.

Definition wcstoimax (nptr : list Z) (base : Z) : res conversion :=
  wcstoimax_l nptr base (Locale __current_locale).

Definition wcstoul_l (nptr : list Z) (base : Z) (loc : locale_t L) : res conversion :=
  strto (wide_space (NORMALIZE_LOCALE loc)) false unsigned_limits nptr base.

Definition wcstoul (nptr : list Z) (base : Z) : res conversion :=
  wcstoul_l nptr base (Locale __current_locale).

Definition wcstoull_l (nptr : list Z) (base : Z) (loc : locale_t L) : res conversion :=
  strto (wide_space (NORMALIZE_LOCALE loc)) false unsigned_limits nptr base.

Definition wcstoull (nptr : list Z) (base : Z) : res conversion :=
  wcstoull_l nptr base (Locale __current_locale).

Definition wcstoumax_l (nptr : list Z) (base : Z) (loc : locale_t L) : res conversion :=
  strto (wide_space (NORMALIZE_LOCALE loc)) false unsigned_limits nptr base.

Definition wcstoumax (nptr : list Z) (base : Z) : res conversion :=
  wcstoumax_l nptr base (Locale __current_locale).

(** ** Functions built on them *)

Definition strtoq (nptr : list Z) (base : Z) : res conversion :=
  strtoll_l nptr base (Locale __current_locale).

Definition strtoq_l (nptr : list Z) (base : Z) (loc : locale_t L) : res conversion :=
  strtoll_l nptr base loc.

Definition strtouq (nptr : list Z) (base : Z) : res conversion :=
  strtoull_l nptr base (Locale __current_locale).

Definition strtouq_l (nptr : list Z) (base : Z) (loc : locale_t L) : res conversion :=
  strtoull_l nptr base loc.

Definition atoi_l (str : list Z) (loc : locale_t L) : res Z :=
  let! r := strtol_l str 10 loc in Ok (s32 (value r)).

Definition atoi (str : list Z) : res Z :=
  let! r := strtol_l str 10 (Locale __current_locale) in Ok (s32 (value r)).

Definition atol_l (str : list Z) (loc : locale_t L) : res Z :=
  let! r := strtol_l str 10 loc in Ok (value r).

Definition atol (str : list Z) : res Z :=
  let! r := strtol_l str 10 (Locale __current_locale) in Ok (value r).

Definition atoll_l (str : list Z) (loc : locale_t L) : res Z :=
  let! r := strtoll_l str 10 loc in Ok (value r).

Definition atoll (str : list Z) : res Z :=
  let! r := strtoll_l str 10 (Locale __current_locale) in Ok (value r).

(** [strtonum]: the result, which error message [*errstrp] points to (None for
    NULL), and the [errno] it leaves, None when that is the caller's. *)
Inductive errval := INVALID | TOOSMALL | TOOLARGE.

Definition errval_errno (e : errval) : errno_t :=
  match e with
  | INVALID => EINVAL
  | TOOSMALL | TOOLARGE => ERANGE
  end.

Definition strtonum_result (error : option errval) (ll : Z) : Z * option errval * option errno_t :=
  (match error with Some _ => 0 | None => ll end, error, errval_errno <$> error).

Definition strtonum (numstr : list Z) (minval maxval : Z) : res (Z * option errval * option errno_t) :=
  if minval >? maxval then Ok (strtonum_result (Some INVALID) 0)
  else
    let! r := strtoll numstr 10 in
    let ll := value r in
    let! invalid :=
      (if bool_decide (err r = Some EINVAL) || (endptr r =? 0) then Ok true
       else let! last := arr_get numstr (endptr r) in Ok (negb (last =? 0))) in
    if (invalid : bool) then Ok (strtonum_result (Some INVALID) ll)
    else if ((ll =? LONG_MIN) && bool_decide (err r = Some ERANGE)) || (ll <? minval) then
      Ok (strtonum_result (Some TOOSMALL) ll)
    else if ((ll =? LONG_MAX) && bool_decide (err r = Some ERANGE)) || (ll >? maxval) then
      Ok (strtonum_result (Some TOOLARGE) ll)
    else Ok (strtonum_result None ll).

End Functions.
