(* ===== verification/StrToSpec.v ===== *)
(** * StrToSpec: what an integer conversion means

    The text of a number, read without bounds on its value, and the lemmas
    that the loops of [StrTo] compute it: in particular that the guard on
    [cutoff] and [cutlim] is the comparison with the largest magnitude, so
    that [acc] never wraps. *)

From Stdlib Require Ascii String.
From S2P Require Import Prelude StrTo.

(** ** Specification *)

Fixpoint drop_while (p : Z -> bool) (l : list Z) : list Z :=
  match l with
  | [] => []
  | a :: l' => if p a then drop_while p l' else l
  end.

Fixpoint take_while (p : Z -> bool) (l : list Z) : list Z :=
  match l with
  | [] => []
  | a :: l => if p a then a :: take_while p l else []
  end.

(** The digits, in either case, in the order of their values. *)
Module Digits.
Import Stdlib.Strings.Ascii Stdlib.Strings.String.

Definition chars (s : string) : list Z := map (fun a => Z.of_nat (nat_of_ascii a)) (list_ascii_of_string s).

Definition lower_digits : list Z := chars "0123456789abcdefghijklmnopqrstuvwxyz".
Definition upper_digits : list Z := chars "0123456789ABCDEFGHIJKLMNOPQRSTUVWXYZ".

End Digits.
Import Digits.

Definition position (c : Z) (l : list Z) : option Z := (Z.of_nat ∘ fst) <$> list_find (eq c) l.

Definition digit_of (c : Z) : option Z :=
  match position c lower_digits with
  | Some d => Some d
  | None => position c upper_digits
  end.

Definition is_digit (base c : Z) : bool :=
  match digit_of c with
  | Some d => d <? base
  | None => false
  end.

(** The number a string of digits continues [a] to. *)
Definition horner (base a : Z) (ds : list Z) : Z :=
  fold_left (fun a c => a * base + default 0 (digit_of c)) ds a.

Definition text_sign (l : list Z) : bool * list Z :=
  match l with
  | c :: l' => if c =? 45 then (true, l') else if c =? 43 then (false, l') else (false, l)
  | [] => (false, [])
  end.

(** "0x" or "0X" counts only in front of a hexadecimal digit. *)
Definition hex_prefixed (l : list Z) : bool :=
  match l with
  | c :: x :: h :: _ => (c =? 48) && ((x =? 120) || (x =? 88)) && is_digit 16 h
  | _ => false
  end.

Definition radix (base : Z) (l : list Z) : Z * list Z :=
  if ((base =? 0) || (base =? 16)) && hex_prefixed l then (16, drop 2 l)
  else if base =? 0 then (if bool_decide (hd_error l = Some 48) then 8 else 10, l)
  else (base, l).

(** Sign, magnitude and end of the number a text starts with. *)
Definition parsed (isspace : Z -> bool) (base : Z) (text : list Z) : option (bool * Z * Z) :=
  let '(neg, l) := text_sign (drop_while isspace text) in
  let '(b, l) := radix base l in
  let ds := take_while (is_digit b) l in
  if (2 <=? b) && (b <=? 36) && negb (bool_decide (ds = [])) then
    Some (neg, horner b 0 ds, Z.of_nat (length text) - Z.of_nat (length l) + Z.of_nat (length ds))
  else None.

Definition signed_value (neg : bool) (m : Z) : Z := if neg then - m else m.

Definition strtol_spec (isspace : Z -> bool) (base : Z) (text : list Z) : conversion :=
  match parsed isspace base text with
  | None => Conv 0 0 (Some EINVAL)
  | Some (neg, m, e) =>
      let v := signed_value neg m in
      if v <? LONG_MIN then Conv LONG_MIN e (Some ERANGE)
      else if LONG_MAX <? v then Conv LONG_MAX e (Some ERANGE)
      else Conv v e None
  end.

Definition strtoul_spec (isspace : Z -> bool) (base : Z) (text : list Z) : conversion :=
  match parsed isspace base text with
  | None => Conv 0 0 (Some EINVAL)
  | Some (neg, m, e) =>
      if ULONG_MAX <? m then Conv ULONG_MAX e (Some ERANGE)
      else Conv (signed_value neg m mod 2 ^ 64) e None
  end.

(** ** Digits *)

Lemma position_high c l : Forall byte l -> ~ byte c -> position c l = None.
Proof.
  intros Hl Hc. unfold position. rewrite (proj2 (list_find_None _ _)); [done|].
  apply Forall_forall. intros x Hx <-. rewrite Forall_forall in Hl. by apply Hc, Hl.
Qed.

(** The values the code computes are those of the digits. *)
Lemma digit_value_of c : digit_value c = digit_of c.
Proof.
  destruct (decide (byte c)) as [Hc|Hc]; [revert c Hc; by apply (byte_ind _)|].
  unfold digit_of. rewrite !position_high;
      try done; try (apply (bool_decide_unpack _); vm_compute; reflexivity).
    unfold digit_value, byte in *. repeat (case_match; [lia|]). done.
Qed.

Lemma digit_value_range c d : digit_value c = Some d -> 0 <= d < 36.
Proof. unfold digit_value. repeat case_match; intros; simplify_eq; lia. Qed.

Lemma digit_value_nul : digit_value 0 = None.
Proof. done. Qed.

Lemma is_digit_eq base c :
  is_digit base c = match digit_value c with Some d => d <? base | None => false end.
Proof. unfold is_digit. by rewrite digit_value_of. Qed.

Lemma hex_digit_is c : hex_digit c = is_digit 16 c.
Proof.
  rewrite is_digit_eq. unfold hex_digit, digit_value.
  destruct ((48 <=? c) && (c <=? 57)) eqn:E1; [cbn; lia|].
  destruct ((65 <=? c) && (c <=? 90)) eqn:E2; [cbn; lia|].
  destruct ((97 <=? c) && (c <=? 122)) eqn:E3; cbn; lia.
Qed.

Lemma is_digit_value base c d : digit_value c = Some d -> is_digit base c = (d <? base).
Proof. rewrite is_digit_eq. by intros ->. Qed.

Lemma horner_cons base a c ds : horner base a (c :: ds) = horner base (a * base + default 0 (digit_value c)) ds.
Proof. by rewrite digit_value_of. Qed.

Lemma horner_ge base a ds : 1 <= base -> 0 <= a -> a <= horner base a ds.
Proof.
  intros Hb. revert a. induction ds as [|c ds IH]; intros a Ha; [done|].
  rewrite horner_cons.
  assert (0 <= default 0 (digit_value c)).
  { destruct (digit_value c) eqn:E; [apply digit_value_range in E; cbn; lia|done]. }
  specialize (IH (a * base + default 0 (digit_value c))). nia.
Qed.

(** The overflow guard is the comparison with the largest magnitude. *)
Lemma cutoff_guard M base acc d :
  0 < base -> 0 <= d < base ->
  (acc >? M / base) || ((acc =? M / base) && (d >? M mod base)) = (M <? acc * base + d).
Proof.
  intros Hb Hd. pose proof (Z.div_mod M base ltac:(lia)) as HM.
  pose proof (Z.mod_pos_bound M base Hb) as Hr.
  set (q := M / base) in *. set (r := M mod base) in *. clearbody q r.
  rewrite !Z.gtb_ltb.
  destruct (Z.ltb_spec q acc), (Z.eqb_spec acc q), (Z.ltb_spec r d), (Z.ltb_spec M (acc * base + d));
    cbn; try done; subst; nia.
Qed.

(** ** The loops *)

Lemma skip_space_ok isspace l rest :
  isspace 0 = false ->
  exists c s, skip_space isspace (l ++ 0 :: rest) = Ok (c, s) /\ c :: s = drop_while isspace l ++ 0 :: rest.
Proof.
  intros H0. induction l as [|a l IH]; cbn [app skip_space drop_while].
  - rewrite H0. by eexists _, _.
  - destruct (isspace a) eqn:Ea; [done|]. by eexists _, _.
Qed.

Lemma read_sign_ok l rest c s :
  c :: s = l ++ 0 :: rest ->
  exists c' s', read_sign c s = Ok (fst (text_sign l), (c', s')) /\
    c' :: s' = snd (text_sign l) ++ 0 :: rest.
Proof.
  intros E. unfold read_sign, text_sign.
  destruct l as [|a l]; cbn [app] in E; injection E as -> ->; [by eexists _, _|].
  destruct (a =? 45); [|destruct (a =? 43)]; [| |by eexists _, _];
    destruct l; cbn; by eexists _, _.
Qed.

Lemma arr_get_0 x (l : list Z) : arr_get (x :: l) 0 = Ok x.
Proof. done. Qed.

Lemma arr_get_1 x y (l : list Z) : arr_get (x :: y :: l) 1 = Ok y.
Proof. done. Qed.

Lemma hex_prefix_ok base l rest c s :
  c :: s = l ++ 0 :: rest ->
  hex_prefix true base c s = Ok (((base =? 0) || (base =? 16)) && hex_prefixed l).
Proof.
  intros E. unfold hex_prefix. destruct ((base =? 0) || (base =? 16)); [|done]. cbn [andb].
  destruct l as [|a l]; cbn [app] in E; injection E as -> ->; [done|].
  destruct (a =? 48) eqn:Ea.
  - destruct l as [|x [|h l]]; cbn [app]; rewrite arr_get_0; cbn [rbind hex_prefixed];
      rewrite ?Ea; [done| |]; destruct ((x =? 120) || (x =? 88)); try done; rewrite arr_get_1;
      cbn [rbind]; by rewrite ?hex_digit_is.
  - unfold hex_prefixed. by destruct l as [|x [|h l]]; rewrite ?Ea.
Qed.

Lemma accumulate_overflowed base cutoff cutlim l rest c s acc :
  c :: s = l ++ 0 :: rest ->
  exists s', accumulate base cutoff cutlim c s acc (-1) = Ok (acc, -1, s') /\
    (length s' + length (take_while (is_digit base) l))%nat = length s.
Proof.
  revert c s. induction l as [|a l IH]; intros c s E; cbn [app] in E; injection E as -> ->.
  - exists rest. split; [|cbn; lia]. by destruct rest.
  - cbn [take_while]. rewrite (is_digit_eq base a).
    destruct (l ++ 0 :: rest) as [|c' s'] eqn:E'; [by destruct l|].
    cbn [accumulate]. destruct (digit_value a) as [d|]; [|eexists; split; [done|cbn; lia]].
    rewrite Z.geb_leb. destruct (Z.leb_spec base d); destruct (Z.ltb_spec d base); try lia;
      [eexists; split; [done|cbn; lia]|].
    change (-1 <? 0) with true. cbn [orb].
    destruct (IH c' s' eq_refl) as (s'' & -> & Hl). exists s''. split; [done|]. cbn [length]. lia.
Qed.

(** The digits are summed up exactly, or the sum exceeds the largest
    magnitude. *)
Lemma accumulate_ok M base l rest c s acc any :
  2 <= base <= 36 -> 0 <= M < 2 ^ 64 -> 0 <= acc <= M -> 0 <= any ->
  c :: s = l ++ 0 :: rest ->
  let ds := take_while (is_digit base) l in
  let m := horner base acc ds in
  exists acc' any' s', accumulate base (M / base) (M mod base) c s acc any = Ok (acc', any', s') /\
    (length s' + length ds)%nat = length s /\
    (if M <? m then any' = -1 else acc' = m /\ any' = if bool_decide (ds = []) then any else 1).
Proof.
  intros Hb HM. revert c s acc any. induction l as [|a l IH]; intros c s acc any Ha Hany E;
    cbn [app] in E; injection E as -> ->.
  - cbn zeta. cbn [take_while]. exists acc, any, rest. split; [by destruct rest|].
    split; [cbn; lia|]. cbn. by rewrite (proj2 (Z.ltb_ge _ _)) by lia.
  - cbn zeta. cbn [take_while]. 
    rewrite (is_digit_eq base a).
    destruct (l ++ 0 :: rest) as [|c' s'] eqn:E'; [by destruct l|].
    assert (Hstop : exists acc' any' s'', Ok (acc, any, c' :: s') = Ok (acc', any', s'') /\
      (length s'' + length (@nil Z))%nat = length (c' :: s') /\
      (if M <? horner base acc [] then any' = -1
       else acc' = horner base acc [] /\ any' = if bool_decide (@nil Z = []) then any else 1)).
    { eexists _, _, _. split; [done|]. split; [cbn; lia|]. cbn. by rewrite (proj2 (Z.ltb_ge _ _)) by lia. }
    cbn [accumulate]. destruct (digit_value a) as [d|] eqn:Ed; [|exact Hstop].
    rewrite Z.geb_leb. destruct (Z.leb_spec base d); destruct (Z.ltb_spec d base); try lia; [exact Hstop|].
    clear Hstop. pose proof (digit_value_range _ _ Ed) as Hd.
    rewrite (proj2 (Z.ltb_ge any 0)) by lia. cbn [orb]. rewrite cutoff_guard by lia.
    rewrite !horner_cons, Ed. cbn [default id].
    destruct (Z.ltb_spec M (acc * base + d)) as [Hov|Hfit].
    + destruct (accumulate_overflowed base (M / base) (M mod base) l rest c' s' acc) as (s'' & -> & Hl); [done|].
      eexists _, _, _. split; [done|]. split; [cbn [length]; lia|].
      pose proof (horner_ge base (acc * base + d) (take_while (is_digit base) l) ltac:(lia) ltac:(nia)).
      by rewrite (proj2 (Z.ltb_lt M _)) by lia.
    + rewrite (u64_small (acc * base)) by nia. rewrite u64_small by nia.
      destruct (IH c' s' (acc * base + d) 1) as (acc' & any' & s'' & -> & Hl & Hm); [nia|lia|done|].
      eexists _, _, _. split; [done|]. split; [cbn [length]; lia|].
      destruct (M <? _); [done|]. destruct Hm as [-> ->]. split; [done|].
      rewrite (bool_decide_eq_false_2 (a :: _ = [])) by done. by case_bool_decide.
Qed.
