(* ===== verification/StrToThms.v ===== *)
(** * StrToThms: correctness of the integer conversions

    Every function of the two families computes its specification on every
    string and base; the wide functions with one exception, which is proved
    too. *)

From S2P Require Import Prelude StrTo StrToSpec.

(** ** One conversion, for both signednesses *)

(** What is left when the magnitude is known: the last lines of the code. *)
Definition finish (lim : limits) (p : option (bool * Z * Z)) : conversion :=
  match p with
  | None => Conv (returned lim 0) 0 (Some EINVAL)
  | Some (neg, m, e) =>
      if magnitude lim neg <? m then Conv (returned lim (saturate lim neg)) e (Some ERANGE)
      else Conv (returned lim (if neg then u64 (- m) else m)) e None
  end.

Lemma radix_length base l : (length (snd (radix base l)) <= length l)%nat.
Proof. unfold radix. repeat case_match; cbn; rewrite ?length_drop; lia. Qed.

(** The cursor behind the prefix. *)
Lemma strto_radix base l rest c s :
  c :: s = l ++ 0 :: rest ->
  exists b c' s',
    (if ((base =? 0) || (base =? 16)) && hex_prefixed l
     then let! c := arr_get s 1 in Ok (16, c, drop 2 s) else Ok (base, c, s)) = Ok (b, c', s') /\
    (if b =? 0 then (if c' =? 48 then 8 else 10) else b) = fst (radix base l) /\
    c' :: s' = snd (radix base l) ++ 0 :: rest.
Proof.
  intros E. unfold radix. destruct (_ && hex_prefixed l) eqn:Eh.
  - apply andb_true_iff in Eh as [_ Eh]. destruct l as [|a [|x [|h l]]]; try done.
    cbn [app] in E. injection E as -> ->. rewrite arr_get_1. cbn [rbind drop].
    eexists _, _, _. split; [done|]. by split.
  - eexists _, _, _. split; [done|]. cbn zeta. destruct (base =? 0) eqn:Eb; [|by split].
    split; [|done]. cbn [fst]. f_equal.
    destruct l as [|a l]; cbn [app] in E; injection E as -> ->; cbn [hd_error]; [done|].
    destruct (Z.eqb_spec a 48); by case_bool_decide; simplify_eq.
Qed.

Lemma drop_while_length p l : (length (drop_while p l) <= length l)%nat.
Proof. induction l as [|a l IH]; cbn; [done|]. case_match; cbn; lia. Qed.

Lemma text_sign_length l : (length (snd (text_sign l)) <= length l)%nat.
Proof. unfold text_sign. repeat case_match; cbn; lia. Qed.

Lemma strto_finish isspace lim text rest base :
  isspace 0 = false -> (forall neg, 0 <= magnitude lim neg < 2 ^ 64) ->
  strto isspace true lim (text ++ 0 :: rest) base = Ok (finish lim (parsed isspace base text)).
Proof.
  intros H0 HM. unfold strto, parsed.
  destruct (skip_space_ok isspace text rest H0) as (c0 & s0 & -> & E0). cbn [rbind].
  destruct (read_sign_ok _ rest c0 s0 E0) as (c1 & s1 & -> & E1). cbn [rbind].
  destruct (text_sign _) as [neg l1] eqn:Es. cbn [fst snd] in *.
  rewrite (hex_prefix_ok base l1 rest c1 s1 E1). cbn [rbind].
  destruct (strto_radix base l1 rest c1 s1 E1) as (b & c2 & s2 & -> & Eb & E2). cbn [rbind].
  rewrite Eb. clear Eb b. destruct (radix base l1) as [b l2] eqn:Er. cbn [fst snd] in *.
  assert (Hl2 : (length l2 <= length text)%nat).
  { pose proof (radix_length base l1). pose proof (drop_while_length isspace text).
    pose proof (text_sign_length (drop_while isspace text)). rewrite Er, Es in *. cbn [snd] in *. lia. }
  rewrite Z.gtb_ltb.
  destruct (Z.ltb_spec b 2); destruct (Z.leb_spec 2 b); try lia; cbn [orb andb]; [done|].
  destruct (Z.ltb_spec 36 b); destruct (Z.leb_spec b 36); try lia; cbn [andb]; [done|].
  destruct (accumulate_ok (magnitude lim neg) b l2 rest c2 s2 0 0)
    as (acc & any & s' & -> & Hs & Hm); [lia|apply HM|specialize (HM neg); lia|lia|done|].
  cbn [rbind]. set (ds := take_while (is_digit b) l2) in *.
  assert (Hend : Z.of_nat (length (text ++ 0%Z :: rest)) - Z.of_nat (length s') - 1 =
    Z.of_nat (length text) - Z.of_nat (length l2) + Z.of_nat (length ds)).
  { apply (f_equal length) in E2. rewrite length_app in *. cbn [length] in *. lia. }
  rewrite Hend. destruct (bool_decide (ds = [])) eqn:Eds; cbn [negb].
  - apply bool_decide_eq_true in Eds. rewrite Eds in *. cbn in Hm.
    rewrite (proj2 (Z.ltb_ge _ 0)) in Hm by (apply HM). destruct Hm as [-> ->]. done.
  - cbn [finish]. destruct (magnitude lim neg <? horner b 0 ds); [by rewrite Hm|].
    by destruct Hm as [-> ->].
Qed.

Lemma parsed_nonneg isspace base text neg m e :
  parsed isspace base text = Some (neg, m, e) -> 0 <= m /\ 0 < e <= Z.of_nat (length text).
Proof.
  unfold parsed. destruct (text_sign _) as [ng l1] eqn:Es, (radix base l1) as [b l2] eqn:Er.
  pose proof (radix_length base l1) as H1. pose proof (drop_while_length isspace text) as H2.
  pose proof (text_sign_length (drop_while isspace text)) as H3. rewrite Er in H1. rewrite Es in H3. cbn [snd] in *.
  destruct (Z.leb_spec 2 b); [|done]. destruct (b <=? 36); [|done]. cbn [andb].
  case_bool_decide as Hd; [done|]. intros [= <- <- <-].
  split; [by apply horner_ge; lia|].
  assert (Ht : (length (take_while (is_digit b) l2) <= length l2)%nat).
  { clear. induction l2 as [|a l IH]; cbn; [done|]. case_match; cbn; lia. }
  destruct (take_while (is_digit b) l2); [done|]. cbn [length] in *. lia.
Qed.

Lemma strtol_finish isspace base text :
  finish signed_limits (parsed isspace base text) = strtol_spec isspace base text.
Proof.
  unfold strtol_spec. destruct (parsed isspace base text) as [[[neg m] e]|] eqn:E; [|done].
  apply parsed_nonneg in E as [Hm _]. cbn [finish]. unfold signed_value.
  destruct neg; cbn [signed_limits magnitude saturate returned].
  - change (u64 (u64 (- (LONG_MIN + LONG_MAX)) + LONG_MAX)) with (2 ^ 63). unfold LONG_MIN, LONG_MAX.
    destruct (Z.ltb_spec (2 ^ 63) m); destruct (Z.ltb_spec (- m) (- 2 ^ 63)); try lia; [done|].
    rewrite (proj2 (Z.ltb_ge _ _)) by lia. f_equal. unfold s64, u64.
    rewrite Zplus_mod_idemp_l, Z.mod_small by lia. lia.
  - unfold LONG_MIN, LONG_MAX.
    rewrite (proj2 (Z.ltb_ge m (- 2 ^ 63))) by lia.
    destruct (Z.ltb_spec (2 ^ 63 - 1) m); [done|]. by rewrite s64_small by lia.
Qed.

Lemma strtoul_finish isspace base text :
  finish unsigned_limits (parsed isspace base text) = strtoul_spec isspace base text.
Proof.
  unfold strtoul_spec. destruct (parsed isspace base text) as [[[neg m] e]|] eqn:E; [|done].
  apply parsed_nonneg in E as [Hm _]. cbn [finish unsigned_limits magnitude saturate returned].
  unfold signed_value, ULONG_MAX. destruct (Z.ltb_spec (2 ^ 64 - 1) m); [done|].
  destruct neg; [done|]. by rewrite Z.mod_small by lia.
Qed.

Lemma signed_magnitude neg : 0 <= magnitude signed_limits neg < 2 ^ 64.
Proof. by destruct neg; vm_compute. Qed.

Lemma unsigned_magnitude neg : 0 <= magnitude unsigned_limits neg < 2 ^ 64.
Proof. by destruct neg; vm_compute. Qed.

(** ** The wide functions *)

(** "0x" without a hexadecimal digit behind it. *)
Definition bare_hex_prefix (base : Z) (l : list Z) : bool :=
  ((base =? 0) || (base =? 16)) && negb (hex_prefixed l) &&
  match l with
  | c :: x :: _ => (c =? 48) && ((x =? 120) || (x =? 88))
  | _ => false
  end.

Lemma hex_prefix_wide base l rest c s :
  c :: s = l ++ 0 :: rest ->
  hex_prefix false base c s =
    Ok ((((base =? 0) || (base =? 16)) && hex_prefixed l) || bare_hex_prefix base l).
Proof.
  intros E. unfold hex_prefix, bare_hex_prefix. destruct ((base =? 0) || (base =? 16)); [|done]. cbn [andb].
  destruct l as [|a l]; cbn [app] in E; injection E as -> ->; [done|].
  destruct (a =? 48) eqn:Ea.
  - destruct l as [|x [|h l]]; cbn [app]; rewrite arr_get_0; cbn [rbind hex_prefixed];
      rewrite ?Ea; [done| |]; destruct ((x =? 120) || (x =? 88)); try done. cbn. by destruct (is_digit 16 h).
  - unfold hex_prefixed. by destruct l as [|x [|h l]]; rewrite ?Ea.
Qed.

Definition wide_finish (isspace : Z -> bool) (lim : limits) (base : Z) (text : list Z) : conversion :=
  if bare_hex_prefix base (snd (text_sign (drop_while isspace text)))
  then Conv (returned lim 0) 0 (Some EINVAL)
  else finish lim (parsed isspace base text).

Lemma strto_wide isspace lim text rest base :
  isspace 0 = false -> (forall neg, 0 <= magnitude lim neg < 2 ^ 64) ->
  strto isspace false lim (text ++ 0 :: rest) base = Ok (wide_finish isspace lim base text).
Proof.
  intros H0 HM. unfold wide_finish.
  destruct (bare_hex_prefix _ _) eqn:Hb.
  - unfold strto. destruct (skip_space_ok isspace text rest H0) as (c0 & s0 & -> & E0). cbn [rbind].
    destruct (read_sign_ok _ rest c0 s0 E0) as (c1 & s1 & -> & E1). cbn [rbind].
    destruct (text_sign _) as [neg l1]. cbn [fst snd] in *.
    rewrite (hex_prefix_wide base l1 rest c1 s1 E1), Hb, orb_true_r. cbn [rbind].
    unfold bare_hex_prefix in Hb. apply andb_true_iff in Hb as [Hb Hx]. apply andb_true_iff in Hb as [_ Hb].
    destruct l1 as [|a [|x l]]; try done. cbn [app] in E1. injection E1 as -> ->. cbn [drop].
    assert (Hh : exists h s', l ++ 0 :: rest = h :: s' /\ is_digit 16 h = false).
    { destruct l as [|h l]; cbn [app]; eexists _, _; (split; [done|]); [done|].
      cbn in Hb. rewrite Hx in Hb. cbn in Hb. by apply negb_true_iff. }
    destruct Hh as (h & s' & -> & Hh). rewrite arr_get_1. cbn [rbind drop].
    rewrite is_digit_eq in Hh. change ((16 <? 2) || (16 >? 36)) with false. cbn [Z.eqb].
    assert (Ha : forall q r, accumulate 16 q r h s' 0 0 = Ok (0, 0, s')).
    { intros. destruct s'; cbn [accumulate]; destruct (digit_value h); try done;
        rewrite Z.geb_leb, Z.leb_antisym, Hh; done. }
    by rewrite Ha.
  - rewrite <-(strto_finish _ lim text rest base H0 HM). unfold strto.
    destruct (skip_space_ok isspace text rest H0) as (c0 & s0 & -> & E0). cbn [rbind].
    destruct (read_sign_ok _ rest c0 s0 E0) as (c1 & s1 & -> & E1). cbn [rbind].
    by rewrite (hex_prefix_wide base _ rest c1 s1 E1), (hex_prefix_ok base _ rest c1 s1 E1), Hb, orb_false_r.
Qed.

(** ** [strtonum] *)

Definition strtonum_spec (isspace : Z -> bool) (text : list Z) (minval maxval : Z)
    : Z * option errval * option errno_t :=
  match parsed isspace 10 text with
  | Some (neg, m, e) =>
      if (maxval <? minval) || negb (e =? Z.of_nat (length text)) then (0, Some INVALID, Some EINVAL)
      else if signed_value neg m <? minval then (0, Some TOOSMALL, Some ERANGE)
      else if maxval <? signed_value neg m then (0, Some TOOLARGE, Some ERANGE)
      else (signed_value neg m, None, None)
  | None => (0, Some INVALID, Some EINVAL)
  end.

Lemma strtonum_end (text : list Z) e :
  0 ∉ text -> 0 <= e <= Z.of_nat (length text) ->
  exists c, arr_get (text ++ [0]) e = Ok c /\ (c =? 0) = (e =? Z.of_nat (length text)).
Proof.
  intros H0 He. destruct (Z.eqb_spec e (Z.of_nat (length text))) as [->|Hne].
  - exists 0. split; [|done]. apply arr_get_ok; [lia|]. rewrite Nat2Z.id. by apply list_lookup_middle.
  - destruct (lookup_in_range text e) as [c Hc]; [lia|]. exists c. split.
    + apply arr_get_ok; [lia|]. by apply lookup_app_l_Some.
    + apply Z.eqb_neq. intros ->. by apply H0, (list_elem_of_lookup_2 _ _ _ Hc).
Qed.

(** ** Locales *)

(** What is asked of the locale code: NUL is not white space. *)
Class CtypeLaws (L : Type) `{Ctype L} : Prop := {
  isspace_nul l : isspace_l 0 l = false;
  iswspace_nul l : iswspace_l 0 l = false
}.

(** The C locale, as the only one. *)
Definition posix_space (c : Z) : bool := (c =? 32) || ((9 <=? c) && (c <=? 13)).

#[export] Instance posix_ctype : Ctype unit := {|
  isspace_l c _ := posix_space c;
  iswspace_l c _ := posix_space c;
  _c_locale := tt; __global_locale := tt; __current_locale := tt
|}.

#[export] Instance posix_laws : CtypeLaws unit.
Proof. by split. Qed.

Section Claims.
Context {L : Type} {ctype : Ctype L} {laws : CtypeLaws L}.

Abbreviation nspace loc := (narrow_space (NORMALIZE_LOCALE loc)).
Abbreviation wspace loc := (wide_space (NORMALIZE_LOCALE loc)).

Lemma narrow_space_nul l : narrow_space l 0 = false.
Proof. apply isspace_nul. Qed.

(** [C25] The narrow conversions, signed and unsigned, read every string in
    every base as the specification says, which has no bounds on the number:
    white space, a sign, the longest run of digits of the radix; the value
    when it fits, the nearest end of the range with [ERANGE] when it does not,
    and [EINVAL] with the pointer at the start when there is no number.  The
    memory behind the NUL is never read. *)
Theorem strto_correct text rest base loc :
  Forall (fun f => f (text ++ 0 :: rest) base loc = Ok (strtol_spec (nspace loc) base text))
    [strtol_l; strtoll_l; strtoimax_l; strtoq_l] /\
  Forall (fun f => f (text ++ 0 :: rest) base loc = Ok (strtoul_spec (nspace loc) base text))
    [strtoul_l; strtoull_l; strtoumax_l; strtouq_l].
Proof.
  pose proof (fun lim => strto_finish (nspace loc) lim text rest base (narrow_space_nul _)) as Hf.
  rewrite <-strtol_finish, <-strtoul_finish.
  split; repeat constructor; (apply Hf; [apply signed_magnitude || apply unsigned_magnitude]).
Qed.

(** [C26] The wide conversions read a string as the narrow ones do, except a
    "0x" with no hexadecimal digit behind it in base 0 or 16: there they refuse
    the number 0 that the text starts with. *)
Theorem wcsto_correct text rest base loc :
  let bare := bare_hex_prefix base (snd (text_sign (drop_while (wspace loc) text))) in
  Forall (fun f => f (text ++ 0 :: rest) base loc =
      Ok (if bare then Conv 0 0 (Some EINVAL) else strtol_spec (wspace loc) base text))
    [wcstol_l; wcstoll_l; wcstoimax_l] /\
  Forall (fun f => f (text ++ 0 :: rest) base loc =
      Ok (if bare then Conv 0 0 (Some EINVAL) else strtoul_spec (wspace loc) base text))
    [wcstoul_l; wcstoull_l; wcstoumax_l].
Proof.
  cbn zeta. pose proof (fun lim => strto_wide (wspace loc) lim text rest base (iswspace_nul _)) as Hf.
  rewrite <-strtol_finish, <-strtoul_finish. unfold wide_finish in Hf.
  split; repeat constructor;
    (etrans; [apply Hf; [apply signed_magnitude || apply unsigned_magnitude]|by case_match]).
Qed.

(** [C27] [strtonum] accepts exactly the strings that are a decimal number in
    full with a value between the two bounds, and names the right reason
    otherwise, also for numbers beyond [long long]. *)
Theorem strtonum_correct text minval maxval :
  0 ∉ text -> LONG_MIN <= minval -> maxval <= LONG_MAX ->
  strtonum (text ++ [0]) minval maxval =
    Ok (strtonum_spec (narrow_space __current_locale) text minval maxval).
Proof.
  intros H0 Hmin Hmax. unfold strtonum, strtonum_spec. rewrite Z.gtb_ltb.
  destruct (Z.ltb_spec maxval minval) as [Hlt|Hle].
  { cbn [orb]. by destruct (parsed _ _ _) as [[[??]?]|]. }
  cbn [orb]. change (strtoll (text ++ [0]) 10) with
    (strto (narrow_space __current_locale) true signed_limits (text ++ [0]) 10).
  rewrite strto_finish, strtol_finish by (apply narrow_space_nul || apply signed_magnitude).
  cbn [rbind]. unfold strtol_spec.
  destruct (parsed _ _ _) as [[[neg m] e]|] eqn:E; [|done].
  apply parsed_nonneg in E as [Hm He]. unfold LONG_MIN, LONG_MAX in *.
  set (v := signed_value neg m). clearbody v.
  destruct (strtonum_end text e H0 ltac:(lia)) as (c & Hc & Ez).
  assert (Hinv : forall ll er, er <> Some EINVAL ->
    (if bool_decide (er = Some EINVAL) || (e =? 0) then Ok true
     else let! last := arr_get (text ++ [0]) e in Ok (negb (last =? 0))) =
    Ok (negb (endptr (Conv ll e er) =? Z.of_nat (length text)))).
  { intros ll er Her. rewrite bool_decide_eq_false_2 by done. rewrite (proj2 (Z.eqb_neq e 0)) by lia.
    cbn [orb endptr]. by rewrite Hc, <-Ez. }
  destruct (Z.ltb_spec v (- 2 ^ 63)); [|destruct (Z.ltb_spec (2 ^ 63 - 1) v)];
    cbn [value err endptr];
    match goal with |- context [bool_decide (?er = Some EINVAL)] => rewrite (Hinv 0 er) by done end;
    cbn [rbind endptr]; (destruct (negb (e =? _)); [done|]).
  - rewrite Z.eqb_refl. cbn [andb orb]. rewrite bool_decide_eq_true_2 by done. cbn [orb].
    by rewrite (proj2 (Z.ltb_lt v _)) by lia.
  - rewrite (proj2 (Z.ltb_ge v _)), (proj2 (Z.ltb_lt _ v)) by lia.
    rewrite (proj2 (Z.ltb_ge _ minval)) by lia. by vm_compute.
  - rewrite !bool_decide_eq_false_2 by done. rewrite !andb_false_r. cbn [orb]. rewrite Z.gtb_ltb.
    destruct (v <? minval); [done|]. by destruct (maxval <? v).
Qed.

End Claims.

Lemma strto_correct_witness :
  strtol_l ([45; 48; 120; 49; 102; 103] ++ 0 :: []) 0 (L := unit) LC_C_LOCALE = Ok (Conv (-31) 5 None) /\
  strtoul_l ([43; 49; 56; 52; 52; 54; 55; 52; 52; 48; 55; 51; 55; 48; 57; 53; 53; 49; 54; 49; 54] ++ 0 :: [])
    10 (L := unit) LC_C_LOCALE = Ok (Conv ULONG_MAX 21 (Some ERANGE)).
Proof.
  split.
  - destruct (strto_correct (L := unit) [45; 48; 120; 49; 102; 103] [] 0 LC_C_LOCALE) as [Hs _].
    apply Forall_cons in Hs as [Hs _]. exact Hs.
  - destruct (strto_correct (L := unit)
      [43; 49; 56; 52; 52; 54; 55; 52; 52; 48; 55; 51; 55; 48; 57; 53; 53; 49; 54; 49; 54] [] 10 LC_C_LOCALE)
      as [_ Hs].
    apply Forall_cons in Hs as [Hs _]. exact Hs.
Defined.

(** On "0x" the wide and the narrow function differ. *)
Lemma wcsto_correct_witness :
  wcstol_l ([48; 120] ++ 0 :: []) 16 (L := unit) LC_C_LOCALE = Ok (Conv 0 0 (Some EINVAL)) /\
  strtol_l ([48; 120] ++ 0 :: []) 16 (L := unit) LC_C_LOCALE = Ok (Conv 0 1 None).
Proof.
  split; [|reflexivity].
  destruct (wcsto_correct (L := unit) [48; 120] [] 16 LC_C_LOCALE) as [Hs _].
  apply Forall_cons in Hs as [Hs _]. exact Hs.
Defined.

Lemma strtonum_correct_witness :
  strtonum ([32; 45; 49; 50] ++ [0]) (-20) 20 = Ok (-12, None, None) /\
  strtonum ([57; 57; 120] ++ [0]) (-20) 20 = Ok (0, Some INVALID, Some EINVAL).
Proof.
  split.
  - etransitivity; [apply (strtonum_correct (L := unit) [32; 45; 49; 50] (-20) 20)|reflexivity];
      [by apply (bool_decide_unpack _)|vm_compute; discriminate..].
  - etransitivity; [apply (strtonum_correct (L := unit) [57; 57; 120] (-20) 20)|reflexivity];
      [by apply (bool_decide_unpack _)|vm_compute; discriminate..].
Defined.
