(* ===== verification/Encoding.v ===== *)
(** * Encoding: the interface of a multibyte encoding

    A locale reaches its encoding through the function pointers of
    [struct __xlocale_st_runelocale] ([locale/xlocale_private.h]): [runelocale]
    here, over the type [St] the encoding keeps in an [mbstate_t].  The string
    conversions every encoding may use, [__mbsnrtowcs_std] and
    [__wcsnrtombs_std] ([locale/FreeBSD/mbsnrtowcs.c], [wcsnrtombs.c]), are
    written against it.

    Strings are lists of bytes (0 .. 255) or of [wchar_t] values (32-bit,
    signed) from the pointer on.  A [size_t] result is its value: [(size_t)-1]
    and [(size_t)-2] are the two largest. *)

From S2P Require Import Prelude.

Definition size_minus_1 : Z := 2 ^ 64 - 1.
Definition size_minus_2 : Z := 2 ^ 64 - 2.

(** Outcome of [mbrtowc]: what it returns, what it stores in [*pwc] if [pwc]
    is not NULL, [errno] when it is set, and the state. *)
Record mbr (St : Type) := Mbr {
  mb_ret : Z; mb_pwc : option Z; mb_errno : option errno_t; mb_state : St }.
Arguments Mbr {St} _ _ _ _.
Arguments mb_ret {St} _.
Arguments mb_pwc {St} _.
Arguments mb_errno {St} _.
Arguments mb_state {St} _.

(** Outcome of [wcrtomb]: what it returns and the bytes it stores. *)
Record wcr (St : Type) := Wcr {
  wc_ret : Z; wc_bytes : list Z; wc_errno : option errno_t; wc_state : St }.
Arguments Wcr {St} _ _ _ _.
Arguments wc_ret {St} _.
Arguments wc_bytes {St} _.
Arguments wc_errno {St} _.
Arguments wc_state {St} _.

(** Outcome of a string conversion: the elements stored from [dst] on, and
    [*src] afterwards, an offset from its first value or None for NULL. *)
Record sconv (St : Type) := Sconv {
  sc_ret : Z; sc_dst : list Z; sc_src : option Z; sc_errno : option errno_t; sc_state : St }.
Arguments Sconv {St} _ _ _ _ _.
Arguments sc_ret {St} _.
Arguments sc_dst {St} _.
Arguments sc_src {St} _.
Arguments sc_errno {St} _.
Arguments sc_state {St} _.

(** A pointer argument that may be NULL is an [option], or a [bool] ("not
    NULL") where only that matters. *)
Record runelocale (St : Type) := {
  __mbrtowc : option (list Z) -> Z -> St -> res (mbr St);
  __mbsinit : option St -> bool;
  __mbsnrtowcs : bool -> list Z -> Z -> Z -> St -> res (sconv St);
  __wcrtomb : bool -> Z -> St -> wcr St;
  __wcsnrtombs : bool -> list Z -> Z -> Z -> St -> res (sconv St);
  __mb_cur_max : Z;
  __mb_sb_limit : Z
}.
Arguments __mbrtowc {St} _ _ _ _.
Arguments __mbsinit {St} _ _.
Arguments __mbsnrtowcs {St} _ _ _ _ _ _.
Arguments __wcrtomb {St} _ _ _ _.
Arguments __wcsnrtombs {St} _ _ _ _ _ _.
Arguments __mb_cur_max {St} _.
Arguments __mb_sb_limit {St} _.

Section Std.
Context {St : Type} (mbrtowc : option (list Z) -> Z -> St -> res (mbr St)).
Context (wcrtomb : bool -> Z -> St -> wcr St) (mb_cur_max : Z).

(** ** [__mbsnrtowcs_std] *)

(** [dst == NULL]: the loop ends by itself; every round but the last takes at
    least one byte, so one round more than there are bytes is enough. *)
Fixpoint std_mbs_count (fuel : nat) (s : list Z) (nms nchr : Z) (ps : St) : res (sconv St) :=
  match fuel with
  | O => Crash OutOfFuel
  | S fuel =>
      let! r := mbrtowc (Some s) nms ps in
      let nb := mb_ret r in
      if nb =? size_minus_1 then Ok (Sconv size_minus_1 [] (Some 0) (mb_errno r) (mb_state r))
      else if (nb =? 0) || (nb =? size_minus_2) then Ok (Sconv nchr [] (Some 0) None (mb_state r))
      else std_mbs_count fuel (drop (Z.to_nat nb) s) (u64 (nms - nb)) (nchr + 1) (mb_state r)
  end.

(** [dst != NULL]; [pos] is [s - *src]. *)
Fixpoint std_mbs_loop (len : nat) (s : list Z) (nms pos nchr : Z) (dst : list Z) (ps : St)
    : res (sconv St) :=
  match len with
  | O => Ok (Sconv nchr dst (Some pos) None ps)
  | S len =>
      let! r := mbrtowc (Some s) nms ps in
      let nb := mb_ret r in
      let dst := dst ++ option_list (mb_pwc r) in
      if nb =? size_minus_1 then Ok (Sconv size_minus_1 dst (Some pos) (mb_errno r) (mb_state r))
      else if nb =? size_minus_2 then Ok (Sconv nchr dst (Some (pos + nms)) None (mb_state r))
      else if nb =? 0 then Ok (Sconv nchr dst None None (mb_state r))
      else std_mbs_loop len (drop (Z.to_nat nb) s) (u64 (nms - nb)) (pos + nb) (nchr + 1) dst (mb_state r)
  end.

Definition __mbsnrtowcs_std (dst : bool) (src : list Z) (nms len : Z) (ps : St) : res (sconv St) :=
  if dst then std_mbs_loop (Z.to_nat len) src nms 0 0 [] ps
  else std_mbs_count (S (length src)) src nms 0 ps.

(** ** [__wcsnrtombs_std] *)

Fixpoint std_wcs_count (s : list Z) (nwc nbytes : Z) (ps : St) : res (sconv St) :=
  if negb (0 <? nwc) then Ok (Sconv nbytes [] (Some 0) None ps)
  else
    match s with
    | [] => Crash OutOfBounds
    | wc :: s =>
        let r := wcrtomb true wc ps in
        let nb := wc_ret r in
        if nb =? size_minus_1 then Ok (Sconv size_minus_1 [] (Some 0) (wc_errno r) (wc_state r))
        else if wc =? 0 then Ok (Sconv (u64 (nbytes + nb - 1)) [] (Some 0) None (wc_state r))
        else std_wcs_count s (nwc - 1) (u64 (nbytes + nb)) (wc_state r)
    end.

Fixpoint std_wcs_loop (s : list Z) (nwc len pos nbytes : Z) (dst : list Z) (ps : St)
    : res (sconv St) :=
  if negb ((0 <? len) && (0 <? nwc)) then Ok (Sconv nbytes dst (Some pos) None ps)
  else
    match s with
    | [] => Crash OutOfBounds
    | wc :: s =>
        let r := wcrtomb true wc ps in
        let nb := wc_ret r in
        if nb =? size_minus_1 then Ok (Sconv size_minus_1 dst (Some pos) (wc_errno r) (wc_state r))
        else if negb (len >? mb_cur_max) && (nb >? len) then Ok (Sconv nbytes dst (Some pos) None ps)
        else if wc =? 0 then
          Ok (Sconv (u64 (nbytes + nb - 1)) (dst ++ wc_bytes r) None None (wc_state r))
        else std_wcs_loop s (nwc - 1) (len - nb) (pos + 1) (nbytes + nb) (dst ++ wc_bytes r) (wc_state r)
    end.

Definition __wcsnrtombs_std (dst : bool) (src : list Z) (nwc len : Z) (ps : St) : res (sconv St) :=
  if dst then std_wcs_loop src nwc len 0 0 [] ps
  else std_wcs_count src nwc 0 ps.

End Std.
