(* ===== verification/EncodingText.v ===== *)
(** * EncodingText: what an encoding promises, and strings over it

    [EncodingLaws] is the promise of an encoding to the string conversions:
    [code c bs] says that [bs] are the bytes of the character [c]; in a state
    with no character pending ([idle]) the decoder reads them and nothing
    else, the encoder writes them, and the string conversions of the encoding are the standard
    ones.  A string then survives the conversion to bytes and back. *)

From S2P Require Import Prelude Encoding.

Definition MB_LEN_MAX : Z := 6.

Class EncodingLaws {St : Type} (xrl : runelocale St) (initial : St) (idle : St -> Prop)
    (code : Z -> list Z -> Prop) : Prop := {
  initial_idle : idle initial;
  initial_mbsinit : __mbsinit xrl (Some initial) = true;
  code_length c bs : code c bs -> 1 <= Z.of_nat (length bs) <= __mb_cur_max xrl;
  cur_max_bound : __mb_cur_max xrl <= MB_LEN_MAX;
  code_nul : code 0 [0];
  decode_code st c bs t n :
    idle st -> code c bs -> Z.of_nat (length bs) <= n ->
    n <= Z.of_nat (length (bs ++ t)) \/ 0 ∈ bs ++ t ->
    exists st', idle st' /\
      __mbrtowc xrl (Some (bs ++ t)) n st =
        Ok (Mbr (if c =? 0 then 0 else Z.of_nat (length bs)) (Some c) None st');
  decode_byte st b :
    idle st -> byte b ->
    exists r, __mbrtowc xrl (Some [b]) 1 st = Ok r /\
      match mb_pwc r with Some c => code c [b] | None => 1 < mb_ret r end;
  encode_code st c bs :
    idle st -> code c bs ->
    exists st', idle st' /\ __wcrtomb xrl true c st = Wcr (Z.of_nat (length bs)) bs None st';
  mbs_std dst src nms len st :
    idle st -> 0 <= nms < 2 ^ 64 -> 0 <= len ->
    __mbsnrtowcs xrl dst src nms len st = __mbsnrtowcs_std (__mbrtowc xrl) dst src nms len st;
  wcs_std dst src nwc len st :
    idle st -> 0 <= nwc < 2 ^ 64 -> 0 <= len ->
    __wcsnrtombs xrl dst src nwc len st =
      __wcsnrtombs_std (__wcrtomb xrl) (__mb_cur_max xrl) dst src nwc len st
}.

(** An encoding whose decoder reads nothing but the codes. *)
Class StrictDecoder {St : Type} (xrl : runelocale St) (idle : St -> Prop)
    (code : Z -> list Z -> Prop) : Prop :=
  decode_sound : forall st s n r c,
    idle st -> Forall byte s -> 0 <= n <= Z.of_nat (length s) ->
    __mbrtowc xrl (Some s) n st = Ok r -> mb_pwc r = Some c ->
    exists bs t, s = bs ++ t /\ code c bs /\ Z.of_nat (length bs) <= n.

(** Laws and strictness for another description of the same codes. *)
Lemma laws_iff {St} (xrl : runelocale St) initial idle (code code' : Z -> list Z -> Prop) :
  (forall c bs, code' c bs <-> code c bs) ->
  EncodingLaws xrl initial idle code -> EncodingLaws xrl initial idle code'.
Proof.
  intros Hc H. split; try apply H.
  - intros c bs ?%Hc. by apply (code_length (EncodingLaws := H) c).
  - by apply Hc, H.
  - intros st c bs t n Hi ?%Hc. by apply (decode_code (EncodingLaws := H) st c bs t n).
  - intros st b Hi Hb. destruct (decode_byte (EncodingLaws := H) st b Hi Hb) as (r & E & Hr).
    exists r. split; [done|]. destruct (mb_pwc r); [by apply Hc|done].
  - intros st c bs Hi ?%Hc. by apply (encode_code (EncodingLaws := H) st c bs).
Qed.

Lemma strict_iff {St} (xrl : runelocale St) idle (code code' : Z -> list Z -> Prop) :
  (forall c bs, code' c bs <-> code c bs) ->
  StrictDecoder xrl idle code -> StrictDecoder xrl idle code'.
Proof.
  intros Hc H st s n r c Hi Hb Hn E Hp. destruct (H st s n r c Hi Hb Hn E Hp) as (bs & t & ? & ?%Hc & ?).
  by exists bs, t.
Qed.

Lemma strict_decode_byte {St} (xrl : runelocale St) idle (code : Z -> list Z -> Prop) st b r :
  StrictDecoder xrl idle code -> (forall c bs, code c bs -> bs <> []) -> idle st -> byte b ->
  __mbrtowc xrl (Some [b]) 1 st = Ok r -> (mb_pwc r = None -> 1 < mb_ret r) ->
  exists r, __mbrtowc xrl (Some [b]) 1 st = Ok r /\
    match mb_pwc r with Some c => code c [b] | None => 1 < mb_ret r end.
Proof.
  intros Hd Hne Hi Hb E H1. exists r. split; [done|]. destruct (mb_pwc r) as [c|] eqn:Hc; [|by apply H1].
  destruct (Hd st [b] 1 r c) as (bs & t & Hs & Hcode & Hl); [done|by constructor|done|done|done|].
  pose proof (Hne _ _ Hcode). destruct bs as [|b' [|]]; [done| |cbn in Hl; lia]. by injection Hs as <- <-.
Qed.

(** What a call that completes or fails a character returns, when [n1] bytes
    of it were taken by the call before: the outcome [r] of one call with all
    the bytes, in terms of the outcome [r'] of the second of two. *)
Definition resumed_by {St : Type} (eqv : St -> St -> Prop) (n1 : Z) (r' r : mbr St) : Prop :=
  mb_pwc r = mb_pwc r' /\ mb_errno r = mb_errno r' /\
  mb_ret r = (if bool_decide (mb_ret r' ∈ [0; size_minus_1; size_minus_2]) then mb_ret r' else n1 + mb_ret r') /\
  (mb_errno r = None -> eqv (mb_state r) (mb_state r')).

(** A decoder that can be given a character in pieces. *)
Definition Restartable {St : Type} (mbrtowc : option (list Z) -> Z -> St -> res (mbr St))
    (valid : St -> Prop) (eqv : St -> St -> Prop) : Prop :=
  forall st st' s1 s2 n2,
    valid st -> s1 <> [] -> Forall byte s1 -> Forall byte s2 -> 0 <= n2 <= Z.of_nat (length s2) ->
    mbrtowc (Some s1) (Z.of_nat (length s1)) st = Ok (Mbr size_minus_2 None None st') ->
    valid st' /\
    exists r' r, mbrtowc (Some s2) n2 st' = Ok r' /\
      mbrtowc (Some (s1 ++ s2)) (Z.of_nat (length s1) + n2) st = Ok r /\
      resumed_by eqv (Z.of_nat (length s1)) r' r.

Section Text.
Context {St : Type} {xrl : runelocale St} {initial : St} {idle : St -> Prop} {code : Z -> list Z -> Prop}.
Context {laws : EncodingLaws xrl initial idle code}.

(** The bytes of a text. *)
Definition coded (cps : list Z) (bss : list (list Z)) : Prop := Forall2 code cps bss /\ 0 ∉ cps.

Lemma coded_cons c cps bs bss : coded (c :: cps) (bs :: bss) -> code c bs /\ c <> 0 /\ coded cps bss.
Proof.
  intros [[Hc Hs]%Forall2_cons [H1 H2]%not_elem_of_cons]. split; [done|]. split; [congruence|by split].
Qed.

Lemma code_small c bs :
  code c bs -> 1 <= Z.of_nat (length bs) <= MB_LEN_MAX /\ (Z.of_nat (length bs) =? size_minus_1) = false /\
    (Z.of_nat (length bs) =? size_minus_2) = false /\ (Z.of_nat (length bs) =? 0) = false.
Proof.
  intros Hc%code_length. pose proof cur_max_bound as Hm. unfold MB_LEN_MAX in *.
  rewrite !Z.eqb_neq. unfold size_minus_1, size_minus_2. lia.
Qed.

(** ** Bytes to wide characters *)

Lemma std_mbs_loop_text cps : forall bss len nms rest pos nchr dst st,
  coded cps bss -> idle st -> (length cps < len)%nat ->
  Z.of_nat (length (concat bss)) < nms < 2 ^ 64 ->
  exists st', idle st' /\
    std_mbs_loop (__mbrtowc xrl) len (concat bss ++ 0 :: rest) nms pos nchr dst st =
      Ok (Sconv (nchr + Z.of_nat (length cps)) (dst ++ cps ++ [0]) None None st').
Proof.
  induction cps as [|c cps IH]; intros bss len nms rest pos nchr dst st Hc Hst Hlen Hn;
    (destruct len as [|len]; [cbn in Hlen; lia|]).
  - destruct Hc as [->%Forall2_nil_inv_l _]. cbn [concat app]. cbn in Hn.
    destruct (decode_code st 0 [0] rest nms) as (st' & Hst' & E);
      [done|apply code_nul|cbn; lia|right; set_solver|].
    cbn [app] in E. exists st'. split; [done|]. cbn [std_mbs_loop]. rewrite E. cbn. by rewrite Z.add_0_r.
  - destruct bss as [|bs bss]; [by destruct Hc as [Hc _]; inversion Hc|].
    apply coded_cons in Hc as (Hc & H0 & Hcs). pose proof (code_small _ _ Hc) as (Hb & E1 & E2 & E3).
    cbn [concat] in *. rewrite length_app in Hn. rewrite <-app_assoc.
    destruct (decode_code st c bs (concat bss ++ 0 :: rest) nms) as (st' & Hst' & E);
      [done|done|lia|right; set_solver|].
    cbn [std_mbs_loop]. rewrite E. cbn [rbind mb_ret mb_pwc mb_state option_list].
    rewrite (proj2 (Z.eqb_neq c 0)) by done. cbn iota. rewrite E1, E2, E3.
    rewrite Nat2Z.id, drop_app_length, u64_small by lia.
    destruct (IH bss len (nms - Z.of_nat (length bs)) rest (pos + Z.of_nat (length bs)) (nchr + 1) (dst ++ [c]) st')
      as (st2 & Hst2 & E4); [done|done|cbn in Hlen; lia|lia|].
    exists st2. split; [done|]. change (option_list (Some c)) with [c]. rewrite E4, <-app_assoc. cbn [length app]. do 2 f_equal. lia.
Qed.

Lemma std_mbs_count_text cps : forall bss fuel nms rest nchr st,
  coded cps bss -> idle st -> (length cps < fuel)%nat ->
  Z.of_nat (length (concat bss)) < nms < 2 ^ 64 ->
  exists st', idle st' /\
    std_mbs_count (__mbrtowc xrl) fuel (concat bss ++ 0 :: rest) nms nchr st =
      Ok (Sconv (nchr + Z.of_nat (length cps)) [] (Some 0) None st').
Proof.
  induction cps as [|c cps IH]; intros bss fuel nms rest nchr st Hc Hst Hlen Hn;
    (destruct fuel as [|fuel]; [cbn in Hlen; lia|]).
  - destruct Hc as [->%Forall2_nil_inv_l _]. cbn [concat app]. cbn in Hn.
    destruct (decode_code st 0 [0] rest nms) as (st' & Hst' & E);
      [done|apply code_nul|cbn; lia|right; set_solver|].
    cbn [app] in E. exists st'. split; [done|]. cbn [std_mbs_count]. rewrite E. cbn. by rewrite Z.add_0_r.
  - destruct bss as [|bs bss]; [by destruct Hc as [Hc _]; inversion Hc|].
    apply coded_cons in Hc as (Hc & H0 & Hcs). pose proof (code_small _ _ Hc) as (Hb & E1 & E2 & E3).
    cbn [concat] in *. rewrite length_app in Hn. rewrite <-app_assoc.
    destruct (decode_code st c bs (concat bss ++ 0 :: rest) nms) as (st' & Hst' & E);
      [done|done|lia|right; set_solver|].
    cbn [std_mbs_count]. rewrite E. cbn [rbind mb_ret mb_pwc mb_state].
    rewrite (proj2 (Z.eqb_neq c 0)) by done. cbn iota. rewrite E1, E2, E3. cbn [orb].
    rewrite Nat2Z.id, drop_app_length, u64_small by lia.
    destruct (IH bss fuel (nms - Z.of_nat (length bs)) rest (nchr + 1) st')
      as (st2 & Hst2 & E4); [done|done|cbn in Hlen; lia|lia|].
    exists st2. split; [done|]. rewrite E4. cbn [length]. do 2 f_equal. lia.
Qed.

(** ** Wide characters to bytes *)

Lemma std_wcs_loop_text cps : forall bss nwc len rest pos nbytes dst st,
  coded cps bss -> idle st -> Z.of_nat (length cps) < nwc -> Z.of_nat (length (concat bss)) < len ->
  0 <= nbytes -> nbytes + Z.of_nat (length (concat bss)) < 2 ^ 64 ->
  exists st', idle st' /\
    std_wcs_loop (__wcrtomb xrl) (__mb_cur_max xrl) (cps ++ 0 :: rest) nwc len pos nbytes dst st =
      Ok (Sconv (nbytes + Z.of_nat (length (concat bss))) (dst ++ concat bss ++ [0]) None None st').
Proof.
  induction cps as [|c cps IH]; intros bss nwc len rest pos nbytes dst st Hc Hst Hn Hlen Hnb H64.
  - destruct Hc as [->%Forall2_nil_inv_l _]. cbn [concat app length] in *.
    destruct (encode_code st 0 [0]) as (st' & Hst' & E); [done|apply code_nul|].
    exists st'. split; [done|]. cbn [std_wcs_loop].
    rewrite (proj2 (Z.ltb_lt 0 len)), (proj2 (Z.ltb_lt 0 nwc)), E by (cbn in *; lia).
    cbn [andb negb wc_ret wc_bytes wc_state length].
    change (Z.of_nat 1) with 1. change (1 =? size_minus_1) with false.
    rewrite (Z.gtb_ltb 1 len), (proj2 (Z.ltb_ge len 1)), andb_false_r by (cbn in *; lia). cbn [Z.eqb].
    rewrite u64_small by lia. do 2 f_equal. cbn. lia.
  - destruct bss as [|bs bss]; [by destruct Hc as [Hc _]; inversion Hc|].
    apply coded_cons in Hc as (Hc & H0 & Hcs). pose proof (code_small _ _ Hc) as (Hb & E1 & E2 & E3).
    cbn [concat] in *. rewrite (length_app bs) in *. cbn [app length] in *.
    destruct (encode_code st c bs) as (st' & Hst' & E); [done|done|].
    cbn [std_wcs_loop]. rewrite (proj2 (Z.ltb_lt 0 len)), (proj2 (Z.ltb_lt 0 nwc)), E by lia.
    cbn [andb negb wc_ret wc_bytes wc_state]. rewrite E1.
    rewrite (Z.gtb_ltb (Z.of_nat _) len), (proj2 (Z.ltb_ge len _)), andb_false_r by lia.
    rewrite (proj2 (Z.eqb_neq c 0)) by done.
    destruct (IH bss (nwc - 1) (len - Z.of_nat (length bs)) rest (pos + 1) (nbytes + Z.of_nat (length bs)) (dst ++ bs) st')
      as (st2 & Hst2 & E4); [done|done|lia|lia|lia|lia|].
    exists st2. split; [done|]. rewrite E4, <-!app_assoc. do 2 f_equal. lia.
Qed.

Lemma std_wcs_count_text cps : forall bss nwc rest nbytes st,
  coded cps bss -> idle st -> Z.of_nat (length cps) < nwc ->
  0 <= nbytes -> nbytes + Z.of_nat (length (concat bss)) < 2 ^ 64 ->
  exists st', idle st' /\
    std_wcs_count (__wcrtomb xrl) (cps ++ 0 :: rest) nwc nbytes st =
      Ok (Sconv (nbytes + Z.of_nat (length (concat bss))) [] (Some 0) None st').
Proof.
  induction cps as [|c cps IH]; intros bss nwc rest nbytes st Hc Hst Hn Hnb H64.
  - destruct Hc as [->%Forall2_nil_inv_l _]. cbn [concat app length] in *.
    destruct (encode_code st 0 [0]) as (st' & Hst' & E); [done|apply code_nul|].
    exists st'. split; [done|]. cbn [std_wcs_count].
    rewrite (proj2 (Z.ltb_lt 0 nwc)), E by (cbn in *; lia). cbn [negb wc_ret wc_bytes wc_state length].
    change (Z.of_nat 1) with 1. change (1 =? size_minus_1) with false. cbn [Z.eqb].
    rewrite u64_small by lia. do 2 f_equal. cbn. lia.
  - destruct bss as [|bs bss]; [by destruct Hc as [Hc _]; inversion Hc|].
    apply coded_cons in Hc as (Hc & H0 & Hcs). pose proof (code_small _ _ Hc) as (Hb & E1 & E2 & E3).
    cbn [concat] in *. rewrite (length_app bs) in *. cbn [app length] in *.
    destruct (encode_code st c bs) as (st' & Hst' & E); [done|done|].
    cbn [std_wcs_count]. rewrite (proj2 (Z.ltb_lt 0 nwc)), E by lia.
    cbn [negb wc_ret wc_bytes wc_state]. rewrite E1. rewrite (proj2 (Z.eqb_neq c 0)) by done.
    rewrite u64_small by lia.
    destruct (IH bss (nwc - 1) rest (nbytes + Z.of_nat (length bs)) st')
      as (st2 & Hst2 & E4); [done|done|lia|lia|lia|].
    exists st2. split; [done|]. rewrite E4. do 2 f_equal. lia.
Qed.

Lemma coded_length cps bss : coded cps bss -> Z.of_nat (length cps) <= Z.of_nat (length (concat bss)).
Proof.
  intros [Hc _]. induction Hc as [|c bs cps bss Hc _ IH]; [done|].
  cbn [length concat]. rewrite length_app. pose proof (code_small _ _ Hc). lia.
Qed.
End Text.
