(* ===== verification/AsciiPath.v ===== *)
(** * AsciiPath: string conversions with a fast path for ASCII

    The loops of [mbsnrtowcs] and [wcsnrtombs] in [locale/FreeBSD/utf8.c] and
    [utf2.c], which are the same but for the functions they call: an ASCII
    character is converted in the loop, every other one by [mbrtowc] or
    [wcrtomb] of the encoding.  [want] is the number of bytes of a character
    that are still to come. *)

From S2P Require Import Prelude Encoding.

Section AsciiPath.
Context {St : Type} (mbrtowc : option (list Z) -> Z -> St -> res (mbr St)).
Context (wcrtomb : bool -> Z -> St -> wcr St) (want : St -> Z) (mb_cur_max : Z).

(** ** Bytes to wide characters *)

Definition ascii_char (b : Z) : bool := (0 <? b) && (b <? 128).

(** [nms > 0 && (signed char)*s > 0] *)
Definition fast_byte (s : list Z) (nms : Z) : res bool :=
  if nms >? 0 then let! b := arr_get s 0 in Ok (ascii_char b) else Ok false.

Fixpoint mbs_count (fuel : nat) (s : list Z) (nms nchr : Z) (us : St)
    : res (sconv St) :=
  match fuel with
  | O => Crash OutOfFuel
  | S fuel =>
      let! fast := fast_byte s nms in
      if (fast : bool) then mbs_count fuel (drop 1 s) (u64 (nms - 1)) (nchr + 1) us
      else
        let! r := mbrtowc (Some s) nms us in
        let nb := mb_ret r in
        if nb =? size_minus_1 then Ok (Sconv size_minus_1 [] (Some 0) (mb_errno r) (mb_state r))
        else if (nb =? 0) || (nb =? size_minus_2) then Ok (Sconv nchr [] (Some 0) None (mb_state r))
        else mbs_count fuel (drop (Z.to_nat nb) s) (u64 (nms - nb)) (nchr + 1) (mb_state r)
  end.

Fixpoint mbs_loop (len : nat) (s : list Z) (nms pos nchr : Z) (dst : list Z) (us : St)
    : res (sconv St) :=
  match len with
  | O => Ok (Sconv nchr dst (Some pos) None us)
  | S len =>
      let! fast := fast_byte s nms in
      if (fast : bool) then
        let! b := arr_get s 0 in
        mbs_loop len (drop 1 s) (u64 (nms - 1)) (pos + 1) (nchr + 1) (dst ++ [b]) us
      else
        let! r := mbrtowc (Some s) nms us in
        let nb := mb_ret r in
        let dst := dst ++ option_list (mb_pwc r) in
        if nb =? size_minus_1 then Ok (Sconv size_minus_1 dst (Some pos) (mb_errno r) (mb_state r))
        else if nb =? size_minus_2 then Ok (Sconv nchr dst (Some (pos + nms)) None (mb_state r))
        else if nb =? 0 then Ok (Sconv nchr dst None None (mb_state r))
        else mbs_loop len (drop (Z.to_nat nb) s) (u64 (nms - nb)) (pos + nb) (nchr + 1) dst (mb_state r)
  end.

Definition ascii_mbsnrtowcs (dst : bool) (src : list Z) (nms len : Z) (us : St)
    : res (sconv St) :=
  let! unsafe :=
    (if (dst : bool) then
       if (nms >? 0) && (len >? 0) && (want us >? 0) then fast_byte src nms else Ok false
     else if (nms >? 0) && (want us >? 0) then fast_byte src nms else Ok false) in
  if (unsafe : bool) then Ok (Sconv size_minus_1 [] (Some 0) (Some EILSEQ) us)
  else if dst then mbs_loop (Z.to_nat len) src nms 0 0 [] us
  else mbs_count (S (length src)) src nms 0 us.

(** ** Wide characters to bytes *)

Definition ascii_wide (wc : Z) : bool := (0 <=? wc) && (wc <? 0x80).

Fixpoint wcs_count (s : list Z) (nwc nbytes : Z) (us : St) : res (sconv St) :=
  if negb (0 <? nwc) then Ok (Sconv nbytes [] (Some 0) None us)
  else
    match s with
    | [] => Crash OutOfBounds
    | wc :: s =>
        let r := if ascii_wide wc then Wcr 1 [] None us else wcrtomb true wc us in
        let nb := wc_ret r in
        if nb =? size_minus_1 then Ok (Sconv size_minus_1 [] (Some 0) (wc_errno r) (wc_state r))
        else if wc =? 0 then Ok (Sconv (u64 (nbytes + nb - 1)) [] (Some 0) None (wc_state r))
        else wcs_count s (nwc - 1) (u64 (nbytes + nb)) (wc_state r)
    end.

Fixpoint wcs_loop (s : list Z) (nwc len pos nbytes : Z) (dst : list Z) (us : St)
    : res (sconv St) :=
  if negb ((0 <? len) && (0 <? nwc)) then Ok (Sconv nbytes dst (Some pos) None us)
  else
    match s with
    | [] => Crash OutOfBounds
    | wc :: s =>
        let ascii := ascii_wide wc in
        let r := if ascii then Wcr 1 [wc] None us else wcrtomb true wc us in
        let nb := wc_ret r in
        if nb =? size_minus_1 then Ok (Sconv size_minus_1 dst (Some pos) (wc_errno r) (wc_state r))
        else if negb ascii && negb (len >? mb_cur_max) && (nb >? len) then
          Ok (Sconv nbytes dst (Some pos) None (wc_state r))
        else if wc =? 0 then
          Ok (Sconv (u64 (nbytes + nb - 1)) (dst ++ wc_bytes r) None None (wc_state r))
        else wcs_loop s (nwc - 1) (len - nb) (pos + 1) (nbytes + nb) (dst ++ wc_bytes r) (wc_state r)
    end.

Definition ascii_wcsnrtombs (dst : bool) (src : list Z) (nwc len : Z) (us : St)
    : res (sconv St) :=
  if negb (want us =? 0) then Ok (Sconv size_minus_1 [] (Some 0) (Some EINVAL) us)
  else if dst then wcs_loop src nwc len 0 0 [] us
  else wcs_count src nwc 0 us.

End AsciiPath.

(** ** The fast paths change nothing

    What an encoding has to promise for the loops with a fast path for ASCII
    to be the loops of the standard routines. *)

Class AsciiPath {St : Type} (mbrtowc : option (list Z) -> Z -> St -> res (mbr St))
    (wcrtomb : bool -> Z -> St -> wcr St) (want : St -> Z) : Prop := {
  path_ascii s n us b :
    want us = 0 -> 0 < n -> arr_get s 0 = Ok b -> ascii_char b = true ->
    mbrtowc (Some s) n us = Ok (Mbr 1 (Some b) None us);
  path_bounds s n us w : want us = 0 -> 0 < n -> arr_get s 0 = Crash w -> mbrtowc (Some s) n us = Crash w;
  path_complete s n us r :
    mbrtowc (Some s) n us = Ok r -> mb_ret r <> size_minus_1 -> mb_ret r <> size_minus_2 -> want (mb_state r) = 0;
  path_encode wc us : want us = 0 -> ascii_wide wc = true -> wcrtomb true wc us = Wcr 1 [wc] None us;
  path_state wc us : wc_state (wcrtomb true wc us) = us
}.

Section Path.
Context {St : Type} {mbrtowc : option (list Z) -> Z -> St -> res (mbr St)}.
Context {wcrtomb : bool -> Z -> St -> wcr St} {want : St -> Z} {Hpath : AsciiPath mbrtowc wcrtomb want}.
Implicit Types us : St.

(** ** Bytes to wide characters *)

(** When no octet is pending, the fast path is what the slow one does. *)
Lemma fast_byte_mbrtowc s nms us :
  want us = 0 -> 0 <= nms ->
  match fast_byte s nms with
  | Ok true => exists b, arr_get s 0 = Ok b /\ mbrtowc (Some s) nms us = Ok (Mbr 1 (Some b) None us)
  | Ok false => True
  | Crash w => mbrtowc (Some s) nms us = Crash w
  end.
Proof.
  intros Hw Hn. unfold fast_byte. rewrite Z.gtb_ltb. destruct (Z.ltb_spec 0 nms); [|done].
  destruct (arr_get s 0) as [b|] eqn:Eb; cbn [rbind].
  - destruct (ascii_char b) eqn:Ha; [|done]. exists b. split; [done|]. by eapply path_ascii.
  - by eapply path_bounds.
Qed.

Lemma mbs_count_std fuel : forall s nms nchr us,
  want us = 0 -> 0 <= nms ->
  mbs_count mbrtowc fuel s nms nchr us = std_mbs_count mbrtowc fuel s nms nchr us.
Proof.
  induction fuel as [|fuel IH]; intros s nms nchr us Hw Hn; [done|]. cbn [mbs_count std_mbs_count].
  pose proof (fast_byte_mbrtowc s nms us Hw Hn) as Hf.
  destruct (fast_byte s nms) as [[|]|]; cbn [rbind].
  - destruct Hf as (b & _ & ->). apply IH; [done|apply u64_range].
  - destruct (mbrtowc (Some s) nms us) as [r|] eqn:Er; [|done]. cbn [rbind].
    destruct (Z.eqb_spec (mb_ret r) size_minus_1); [done|].
    destruct (Z.eqb_spec (mb_ret r) 0); [done|]. destruct (Z.eqb_spec (mb_ret r) size_minus_2); [done|].
    apply IH; [by eapply path_complete|apply u64_range].
  - by rewrite Hf.
Qed.

Lemma mbs_loop_std len : forall s nms pos nchr dst us,
  want us = 0 -> 0 <= nms ->
  mbs_loop mbrtowc len s nms pos nchr dst us = std_mbs_loop mbrtowc len s nms pos nchr dst us.
Proof.
  induction len as [|len IH]; intros s nms pos nchr dst us Hw Hn; [done|]. cbn [mbs_loop std_mbs_loop].
  pose proof (fast_byte_mbrtowc s nms us Hw Hn) as Hf.
  destruct (fast_byte s nms) as [[|]|]; cbn [rbind].
  - destruct Hf as (b & -> & ->). apply IH; [done|apply u64_range].
  - destruct (mbrtowc (Some s) nms us) as [r|] eqn:Er; [|done]. cbn [rbind].
    destruct (Z.eqb_spec (mb_ret r) size_minus_1); [done|].
    destruct (Z.eqb_spec (mb_ret r) size_minus_2); [done|]. destruct (Z.eqb_spec (mb_ret r) 0); [done|].
    apply IH; [by eapply path_complete|apply u64_range].
  - by rewrite Hf.
Qed.

(** The first round, when octets are pending: no fast path, the rest as above. *)
Lemma mbs_count_pending fuel s nms nchr us :
  0 <= nms -> fast_byte s nms = Ok false ->
  mbs_count mbrtowc fuel s nms nchr us = std_mbs_count mbrtowc fuel s nms nchr us.
Proof.
  intros Hn Hf. destruct fuel as [|fuel]; [done|]. cbn [mbs_count std_mbs_count]. rewrite Hf. cbn [rbind].
  destruct (mbrtowc (Some s) nms us) as [r|] eqn:Er; [|done]. cbn [rbind].
  destruct (Z.eqb_spec (mb_ret r) size_minus_1); [done|].
  destruct (Z.eqb_spec (mb_ret r) 0); [done|]. destruct (Z.eqb_spec (mb_ret r) size_minus_2); [done|].
  apply mbs_count_std; [by eapply path_complete|apply u64_range].
Qed.

Lemma mbs_loop_pending len s nms pos nchr dst us :
  0 <= nms -> fast_byte s nms = Ok false ->
  mbs_loop mbrtowc len s nms pos nchr dst us = std_mbs_loop mbrtowc len s nms pos nchr dst us.
Proof.
  intros Hn Hf. destruct len as [|len]; [done|]. cbn [mbs_loop std_mbs_loop]. rewrite Hf. cbn [rbind].
  destruct (mbrtowc (Some s) nms us) as [r|] eqn:Er; [|done]. cbn [rbind].
  destruct (Z.eqb_spec (mb_ret r) size_minus_1); [done|].
  destruct (Z.eqb_spec (mb_ret r) size_minus_2); [done|]. destruct (Z.eqb_spec (mb_ret r) 0); [done|].
  apply mbs_loop_std; [by eapply path_complete|apply u64_range].
Qed.

(** ** Wide characters to bytes *)

Lemma wcs_count_std s : forall nwc nbytes us,
  want us = 0 -> wcs_count wcrtomb s nwc nbytes us = std_wcs_count wcrtomb s nwc nbytes us.
Proof.
  induction s as [|wc s IH]; intros nwc nbytes us Hw; cbn [wcs_count std_wcs_count]; [done|].
  destruct (negb (0 <? nwc)); [done|]. destruct (ascii_wide wc) eqn:Ha.
  - rewrite path_encode by done. cbn [wc_ret wc_state]. change (1 =? size_minus_1) with false. cbn iota.
    destruct (wc =? 0); [done|]. by apply IH.
  - rewrite path_state. repeat case_match; try done. by apply IH.
Qed.

Lemma wcs_loop_std mb_cur_max s : forall nwc len pos nbytes dst us,
  want us = 0 ->
  wcs_loop wcrtomb mb_cur_max s nwc len pos nbytes dst us = std_wcs_loop wcrtomb mb_cur_max s nwc len pos nbytes dst us.
Proof.
  induction s as [|wc s IH]; intros nwc len pos nbytes dst us Hw; cbn [wcs_loop std_wcs_loop]; [done|].
  destruct (Z.ltb_spec 0 len) as [Hlen|]; [|done]. destruct (0 <? nwc); [|done]. cbn [negb andb].
  destruct (ascii_wide wc) eqn:Ha; cbn [negb].
  - rewrite path_encode by done. cbn [wc_ret wc_state wc_bytes]. change (1 =? size_minus_1) with false.
    rewrite (Z.gtb_ltb 1 len), (proj2 (Z.ltb_ge len 1)) by lia. rewrite !andb_false_r. cbn [andb].
    destruct (wc =? 0); [done|]. by apply IH.
  - rewrite path_state. cbn [andb]. repeat case_match; try done. by apply IH.
Qed.


(** With nothing pending the conversions are the standard ones. *)
Lemma ascii_mbsnrtowcs_std dst src nms len us :
  want us = 0 -> 0 <= nms ->
  ascii_mbsnrtowcs mbrtowc want dst src nms len us = __mbsnrtowcs_std mbrtowc dst src nms len us.
Proof.
  intros Hw Hn. unfold ascii_mbsnrtowcs, __mbsnrtowcs_std. rewrite Hw. change (0 >? 0) with false. rewrite !andb_false_r.
  destruct dst; cbn [rbind]; [by apply mbs_loop_std|by apply mbs_count_std].
Qed.

Lemma ascii_wcsnrtombs_std mb_cur_max dst src nwc len us :
  want us = 0 ->
  ascii_wcsnrtombs wcrtomb want mb_cur_max dst src nwc len us = __wcsnrtombs_std wcrtomb mb_cur_max dst src nwc len us.
Proof.
  intros Hw. unfold ascii_wcsnrtombs, __wcsnrtombs_std. rewrite Hw. cbn [Z.eqb negb].
  by destruct dst; [apply wcs_loop_std|apply wcs_count_std].
Qed.
End Path.
