(* ===== verification/Utf8.v ===== *)
(** * Utf8: the UTF-8 encoding of the C library

    Model of [locale/FreeBSD/utf8.c]: the restartable decoder and encoder of
    one character; the string conversions with their fast paths for ASCII are
    those of [AsciiPath].  Bytes are 0 .. 255, so [(unsigned char)*s] is the byte itself, and
    [(signed char)*s > 0] that it is not NUL and below 128. *)

From S2P Require Import Prelude Encoding AsciiPath.

(** ** State *)

Record SecondByte := Second { lowerbound : Z; upperbound : Z }.

Definition sb_00_00 : SecondByte := Second 0x00 0x00.
Definition sb_80_8F : SecondByte := Second 0x80 0x8f.
Definition sb_80_9F : SecondByte := Second 0x80 0x9f.
Definition sb_80_BF : SecondByte := Second 0x80 0xbf.
Definition sb_90_BF : SecondByte := Second 0x90 0xbf.
Definition sb_A0_BF : SecondByte := Second 0xa0 0xbf.

Definition UTF8_MB_CUR_MAX : Z := 4.

Record _UTF8State := Utf8St { ch : Z; want : Z; sb : SecondByte }.

#[export] Instance SecondByte_eq_dec : EqDecision SecondByte.
Proof. solve_decision. Defined.

#[export] Instance UTF8State_eq_dec : EqDecision _UTF8State.
Proof. solve_decision. Defined.

(** A zeroed [mbstate_t]. *)
Definition utf8_initial : _UTF8State := Utf8St 0 0 sb_00_00.

Definition _UTF8_mbsinit (ps : option _UTF8State) : bool :=
  match ps with
  | None => true
  | Some us => want us =? 0
  end.

(** ** [_UTF8_mbrtowc] *)

(** Mask, length and range of the second byte for a first byte; None is the
    jump to [malformed]. *)
Definition first_octet (ch : Z) : option (Z * Z * SecondByte) :=
  if Z.land ch 0x80 =? 0 then Some (0x7f, 1, sb_00_00)
  else if Z.land ch 0xe0 =? 0xc0 then
    if ch <? 0xc2 then None else Some (0x1f, 2, sb_80_BF)
  else if Z.land ch 0xf0 =? 0xe0 then
    Some (0x0f, 3, if ch =? 0xe0 then sb_A0_BF else if ch =? 0xed then sb_80_9F else sb_80_BF)
  else if Z.land ch 0xf8 =? 0xf0 then
    if ch >? 0xf4 then None
    else Some (0x07, 4, if ch =? 0xf0 then sb_90_BF else if ch =? 0xf4 then sb_80_8F else sb_80_BF)
  else None.

(** [rounds] rounds of the loop over the octets; None is [malformed]. *)
Fixpoint decode_octets (rounds : nat) (s : list Z) (sb : SecondByte) (wch : Z)
    : res (option (SecondByte * Z)) :=
  match rounds with
  | O => Ok (Some (sb, wch))
  | S rounds =>
      match s with
      | [] => Crash OutOfBounds
      | b :: s =>
          let wch' := Z.lor (s32 (Z.shiftl wch 6)) (Z.land b 0x3f) in
          if negb (lowerbound sb =? 0) then
            if (b <? lowerbound sb) || (b >? upperbound sb) then Ok None
            else decode_octets rounds s sb_00_00 wch'
          else if negb (Z.land b 0xc0 =? 0x80) then Ok None
          else decode_octets rounds s sb wch'
      end
  end.

Definition malformed (us : _UTF8State) : mbr _UTF8State :=
  Mbr size_minus_1 None (Some EILSEQ) us.

(** From the loop on: [i] octets are done, [wch] is what they gave. *)
Definition mbrtowc_octets (us : _UTF8State) (s : list Z) (i want n wch : Z) (sb : SecondByte)
    : res (mbr _UTF8State) :=
  let! r := decode_octets (Z.to_nat (Z.min want n - i)) s sb wch in
  match r with
  | None => Ok (malformed us)
  | Some (sb, wch) =>
      let i := Z.max i (Z.min want n) in
      if i <? want then Ok (Mbr size_minus_2 None None (Utf8St wch (want - i) sb))
      else Ok (Mbr (if wch =? 0 then 0 else want) (Some wch) None (Utf8St (ch us) 0 (Utf8.sb us)))
  end.

Definition _UTF8_mbrtowc (s : option (list Z)) (n : Z) (us : _UTF8State) : res (mbr _UTF8State) :=
  if (want us <? 0) || (want us >? UTF8_MB_CUR_MAX) then Ok (Mbr size_minus_1 None (Some EINVAL) us)
  else
    let null := bool_decide (s = None) in
    let n := if null then 1 else n in
    let s := default [0] s in
    if n =? 0 then Ok (Mbr size_minus_2 None None us)
    else
      let! r :=
        (if want us =? 0 then
           let! c := arr_get s 0 in
           if Z.land c (Z.lnot 0x7f) =? 0 then Ok (Mbr (if c =? 0 then 0 else 1) (Some c) None us)
           else
             match first_octet c with
             | None => Ok (malformed us)
             | Some (mask, want, sb) => mbrtowc_octets us (drop 1 s) 1 want n (Z.land c mask) sb
             end
         else mbrtowc_octets us s 0 (want us) n (ch us) (sb us)) in
      Ok (if null then Mbr (mb_ret r) None (mb_errno r) (mb_state r) else r).

Definition _UTF8_mbsnrtowcs : bool -> list Z -> Z -> Z -> _UTF8State -> res (sconv _UTF8State) :=
  ascii_mbsnrtowcs _UTF8_mbrtowc want.

(** ** [_UTF8_wcrtomb] *)

(** [for (i = len - 1; i > 0; i--) { s[i] = (wc & 0x3f) | 0x80; wc >>= 6; }
    *s = (wc & 0xff) | lead;], with what is already stored behind. *)
Fixpoint put_octets (i : nat) (wc lead : Z) (stored : list Z) : list Z :=
  match i with
  | O => Z.lor (Z.land wc 0xff) lead :: stored
  | S i => put_octets i (Z.shiftr wc 6) lead (Z.lor (Z.land wc 0x3f) 0x80 :: stored)
  end.

(** First octet and length for a character; None is the jump to [illegal]. *)
Definition lead_octet (wc : Z) : option (Z * Z) :=
  if Z.land wc (Z.lnot 0x7f) =? 0 then Some (0, 1)
  else if Z.land wc (Z.lnot 0x7ff) =? 0 then Some (0xc0, 2)
  else if Z.land wc (Z.lnot 0xffff) =? 0 then
    if (0xd800 <=? wc) && (wc <=? 0xdfff) then None else Some (0xe0, 3)
  else if Z.land wc (Z.lnot 0x1fffff) =? 0 then
    if wc >? 0x10ffff then None else Some (0xf0, 4)
  else None.

Definition _UTF8_wcrtomb (s : bool) (wc : Z) (us : _UTF8State) : wcr _UTF8State :=
  if negb (want us =? 0) then Wcr size_minus_1 [] (Some EINVAL) us
  else if negb s then Wcr 1 [] None us
  else if Z.land wc (Z.lnot 0x7f) =? 0 then Wcr 1 [u8 wc] None us
  else
    match lead_octet wc with
    | None => Wcr size_minus_1 [] (Some EILSEQ) us
    | Some (lead, len) => Wcr len (put_octets (Z.to_nat (len - 1)) wc lead []) None us
    end.

Definition _UTF8_wcsnrtombs : bool -> list Z -> Z -> Z -> _UTF8State -> res (sconv _UTF8State) :=
  ascii_wcsnrtombs _UTF8_wcrtomb want UTF8_MB_CUR_MAX.

(** ** The locale *)

Definition _UTF8_init : runelocale _UTF8State := {|
  __mbrtowc := _UTF8_mbrtowc;
  __wcrtomb := _UTF8_wcrtomb;
  __mbsinit := _UTF8_mbsinit;
  __mbsnrtowcs := _UTF8_mbsnrtowcs;
  __wcsnrtombs := _UTF8_wcsnrtombs;
  __mb_cur_max := UTF8_MB_CUR_MAX;
  __mb_sb_limit := 128
|}.
