(* ===== verification/Utf8Decode.v ===== *)
(** * Utf8Decode: well-formed UTF-8 and the decoder

    The encoding of a scalar value as arithmetic, the table of well-formed
    byte sequences, and that the two say the same; then the decoder of one
    character, its state between two calls, and the encoder. *)

From S2P Require Import Prelude Encoding Utf8 EncodingText.

(** ** Specification *)

Definition encode (c : Z) : list Z :=
  if c <? 0x80 then [c]
  else if c <? 0x800 then [192 + c / 64; 128 + c mod 64]
  else if c <? 0x10000 then [224 + c / 4096; 128 + c / 64 mod 64; 128 + c mod 64]
  else [240 + c / 262144; 128 + c / 4096 mod 64; 128 + c / 64 mod 64; 128 + c mod 64].

Definition utf8_string (cps : list Z) : list Z := concat (map encode cps).

(** Number of continuation bytes, and range of the first of them. *)
Definition lead_class (b : Z) : option (nat * Z * Z) :=
  if b <? 0x80 then Some (0%nat, 0, 0)
  else if b <? 0xc2 then None
  else if b <? 0xe0 then Some (1%nat, 0x80, 0xbf)
  else if b <? 0xf0 then
    Some (2%nat, if b =? 0xe0 then 0xa0 else 0x80, if b =? 0xed then 0x9f else 0xbf)
  else if b <? 0xf5 then
    Some (3%nat, if b =? 0xf0 then 0x90 else 0x80, if b =? 0xf4 then 0x8f else 0xbf)
  else None.

Definition continuation (b : Z) : bool := (0x80 <=? b) && (b <=? 0xbf).

(** Continuation bytes, the first of them between [lo] and [hi]. *)
Definition tail_ok (lo hi : Z) (tl : list Z) : bool :=
  match tl with
  | [] => true
  | b :: tl => (lo <=? b) && (b <=? hi) && forallb continuation tl
  end.

(** The bits of the first byte, and the number the others continue it to. *)
Definition lead_bits (b : Z) (w : nat) : Z :=
  match w with
  | O => b
  | 1%nat => b - 192
  | 2%nat => b - 224
  | _ => b - 240
  end.

Definition continue (a : Z) (tl : list Z) : Z := fold_left (fun a b => a * 64 + (b - 128)) tl a.

Lemma encode_length c : 1 <= Z.of_nat (length (encode c)) <= 4.
Proof. unfold encode. repeat case_match; cbn; lia. Qed.

(** ** Table and arithmetic agree *)

Lemma lead_class_inv b w lo hi :
  lead_class b = Some (w, lo, hi) ->
  (w = 0%nat /\ b < 0x80) \/
  (0x80 <= lo /\ hi <= 0xbf /\
    ((w = 1%nat /\ 0xc2 <= b < 0xe0) \/
     (w = 2%nat /\ 0xe0 <= b < 0xf0 /\ (b = 0xe0 -> lo = 0xa0) /\ (b = 0xed -> hi = 0x9f)) \/
     (w = 3%nat /\ 0xf0 <= b < 0xf5 /\ (b = 0xf0 -> lo = 0x90) /\ (b = 0xf4 -> hi = 0x8f)))).
Proof. unfold lead_class. intros Hc. repeat case_match; simplify_eq; lia. Qed.

Lemma lead_class_byte b w lo hi : lead_class b = Some (w, lo, hi) -> b < 0xf5.
Proof. intros H%lead_class_inv. lia. Qed.

(** A well-formed sequence is the encoding of the number it stands for. *)
Lemma sequence_encode b w lo hi tl :
  lead_class b = Some (w, lo, hi) -> 0 <= b -> length tl = w -> tail_ok lo hi tl = true ->
  scalar (continue (lead_bits b w) tl) /\ encode (continue (lead_bits b w) tl) = b :: tl.
Proof.
  intros Hc%lead_class_inv Hb Hl Ht. unfold encode, scalar.
  destruct Hc as [[-> Hc]|(Hlo & Hhi & [[-> Hc]|[[-> Hc]|[-> Hc]]])];
    destruct tl as [|x [|y [|z [|]]]]; try discriminate Hl; cbn [tail_ok forallb] in Ht;
    unfold continuation in Ht; cbn [continue fold_left lead_bits];
    (split; [lia|]);
    repeat match goal with |- context [?a <? ?b] => destruct (Z.ltb_spec a b); [try lia|try lia] end;
    repeat (apply (f_equal2 cons); [zbits|]); done.
Qed.

(** The encoding of a scalar value is a well-formed sequence. *)
Lemma encode_sequence c :
  scalar c -> exists b tl w lo hi, encode c = b :: tl /\ lead_class b = Some (w, lo, hi) /\ 0 <= b /\
    length tl = w /\ tail_ok lo hi tl = true.
Proof.
  intros Hc. unfold encode, scalar in *.
  destruct (Z.ltb_spec c 0x80); [|destruct (Z.ltb_spec c 0x800); [|destruct (Z.ltb_spec c 0x10000)]];
    eexists _, _, _, _, _; (split; [done|]); unfold lead_class;
    repeat match goal with |- context [?a <? ?b] => destruct (Z.ltb_spec a b); [try zbits|try zbits] end;
    (split; [done|]); (split; [zbits|]); (split; [done|]); cbn [tail_ok forallb]; unfold continuation; [done|..].
  - zbits.
  - destruct (Z.eqb_spec (224 + c / 4096) 0xe0), (Z.eqb_spec (224 + c / 4096) 0xed); zbits.
  - destruct (Z.eqb_spec (240 + c / 262144) 0xf0), (Z.eqb_spec (240 + c / 262144) 0xf4); zbits.
Qed.

Lemma encode_inj c c' t t' : scalar c -> scalar c' -> encode c ++ t = encode c' ++ t' -> c = c'.
Proof.
  unfold encode, scalar. intros Hc Hc' E.
  repeat match type of E with context [?a <? ?b] => destruct (Z.ltb_spec a b) end;
    cbn [app] in E; injection E as; zbits.
Qed.

(** ** The UTF-8 decoder of one character

    What [_UTF8_mbrtowc] computes in terms of the table of [Utf8Spec], and how
    it resumes in the middle of a sequence. *)

(** The bits of the first byte that belong to the number. *)
Definition class_mask (w : nat) : Z :=
  match w with O => 0x7f | 1%nat => 0x1f | 2%nat => 0x0f | _ => 0x07 end.

Lemma first_octet_class b :
  byte b -> first_octet b =
    match lead_class b with
    | Some (w, lo, hi) => Some (class_mask w, Z.of_nat w + 1, Second lo hi)
    | None => None
    end.
Proof. revert b. by apply (byte_ind _). Qed.

Lemma first_octet_bits b w lo hi :
  byte b -> lead_class b = Some (w, lo, hi) -> Z.land b (class_mask w) = lead_bits b w.
Proof.
  intros Hb Hc. apply (byte_ind (fun b => match lead_class b with
    | Some (w, _, _) => Z.land b (class_mask w) =? lead_bits b w
    | None => true end = true)) in Hb; [|by vm_compute]. rewrite Hc in Hb. by apply Z.eqb_eq.
Qed.

Lemma continuation_bits b : byte b -> (Z.land b 0xc0 =? 0x80) = continuation b.
Proof. revert b. by apply (byte_ind _). Qed.

Lemma continuation_value b : byte b -> continuation b = true -> Z.land b 0x3f = b - 128.
Proof. revert b. by apply (byte_ind (fun b => continuation b = true -> Z.land b 0x3f = b - 128)). Qed.

Lemma ascii_bits b : byte b -> (Z.land b (Z.lnot 0x7f) =? 0) = (b <? 0x80).
Proof. revert b. by apply (byte_ind _). Qed.

(** ** The loop over the octets *)

Definition sb_ok (sb : SecondByte) : Prop :=
  sb = sb_00_00 \/ (0x80 <= lowerbound sb /\ upperbound sb <= 0xbf).

(** Which octets the loop accepts: none of the range is pending, or one is. *)
Definition octets_ok (sb : SecondByte) (tl : list Z) : bool :=
  if lowerbound sb =? 0 then forallb continuation tl else tail_ok (lowerbound sb) (upperbound sb) tl.

Lemma sb_ok_zero : sb_ok sb_00_00.
Proof. by left. Qed.

Lemma octet_value wch b :
  byte b -> continuation b = true -> 0 <= wch < 2 ^ 25 ->
  Z.lor (s32 (Z.shiftl wch 6)) (Z.land b 0x3f) = wch * 64 + (b - 128).
Proof.
  intros Hb Hc Hw. rewrite continuation_value by done. unfold continuation in Hc.
  rewrite s32_small by (rewrite Z.shiftl_mul_pow2; lia). rewrite lor_shift by lia. lia.
Qed.

Lemma decode_octets_ok k : forall s sb wch,
  (k <= length s)%nat -> Forall byte (take k s) -> sb_ok sb -> 0 <= wch -> (wch + 1) * 64 ^ Z.of_nat k <= 2 ^ 31 ->
  decode_octets k s sb wch =
    Ok (if octets_ok sb (take k s)
        then Some (match k with O => sb | _ => sb_00_00 end, continue wch (take k s)) else None).
Proof.
  induction k as [|k IH]; intros s sb wch Hl Hb Hsb Hw Hmax.
  { cbn. unfold octets_ok. by destruct (lowerbound sb =? 0). }
  destruct s as [|b s]; [cbn in Hl; lia|]. cbn [take] in *. apply Forall_cons in Hb as [Hb Hbs].
  cbn [length] in Hl. rewrite Nat2Z.inj_succ, Z.pow_succ_r in Hmax by lia.
  assert (Hp : 1 <= 64 ^ Z.of_nat k) by (apply (Z.pow_le_mono_r 64 0); lia).
  cbn [decode_octets]. unfold octets_ok at 1.
  assert (Hrest : continuation b = true ->
    decode_octets k s sb_00_00 (Z.lor (s32 (Z.shiftl wch 6)) (Z.land b 0x3f)) =
      Ok (if forallb continuation (take k s)
          then Some (sb_00_00, continue wch (b :: take k s)) else None)).
  { intros Hc. rewrite octet_value by (done || nia).
    assert (0 <= b - 128 <= 63) by (unfold continuation in Hc; lia).
    rewrite IH; [|lia|done|apply sb_ok_zero|nia|nia]. by destruct k. }
  destruct Hsb as [->|Hsb].
  - cbn [lowerbound sb_00_00 Z.eqb negb forallb]. rewrite continuation_bits by done.
    destruct (continuation b) eqn:Hc; [|done]. cbn [negb andb]. by apply Hrest.
  - rewrite (proj2 (Z.eqb_neq _ 0)) by lia. cbn [negb tail_ok]. rewrite Z.gtb_ltb.
    destruct (Z.ltb_spec b (lowerbound sb)); destruct (Z.leb_spec (lowerbound sb) b); try lia; [done|].
    destruct (Z.ltb_spec (upperbound sb) b); destruct (Z.leb_spec b (upperbound sb)); try lia; [done|].
    cbn [orb andb]. apply Hrest. unfold continuation. lia.
Qed.

(** The loop may be left after any octet and taken up there again. *)
Lemma decode_octets_app s1 : forall k2 s2 sb wch,
  decode_octets (length s1 + k2) (s1 ++ s2) sb wch =
    let! r := decode_octets (length s1) s1 sb wch in
    match r with
    | None => Ok None
    | Some (sb', wch') => decode_octets k2 s2 sb' wch'
    end.
Proof.
  induction s1 as [|b s1 IH]; intros k2 s2 sb wch; [done|].
  cbn [length Nat.add app decode_octets].
  destruct (negb (lowerbound sb =? 0)).
  - destruct (_ || _); [done|]. apply IH.
  - destruct (negb _); [done|]. apply IH.
Qed.

Lemma decode_octets_take k s t sb wch :
  (k <= length s)%nat -> decode_octets k (s ++ t) sb wch = decode_octets k s sb wch.
Proof.
  intros Hk. rewrite <-(take_drop k s) at 1. rewrite <-app_assoc.
  pose proof (decode_octets_app (take k s) 0 (drop k s ++ t) sb wch) as E1.
  pose proof (decode_octets_app (take k s) 0 (drop k s) sb wch) as E2.
  rewrite length_take_le in E1, E2 by done. rewrite Nat.add_0_r in E1, E2.
  rewrite take_drop in E2. by rewrite E1, E2.
Qed.

(** ** From the initial state *)

(** What the decoder makes of [b :: tl], all it is given. *)
Definition decoded (us : _UTF8State) (b : Z) (tl : list Z) : mbr _UTF8State :=
  match lead_class b with
  | None => malformed us
  | Some (w, lo, hi) =>
      let t := take w tl in
      let c := continue (lead_bits b w) t in
      if negb (tail_ok lo hi t) then malformed us
      else if (length tl <? w)%nat then
        Mbr size_minus_2 None None
          (Utf8St c (Z.of_nat w - Z.of_nat (length tl)) (match tl with [] => Second lo hi | _ => sb_00_00 end))
      else Mbr (if c =? 0 then 0 else Z.of_nat w + 1) (Some c) None (Utf8St (ch us) 0 (sb us))
  end.

Lemma lead_bits_bound b w lo hi :
  lead_class b = Some (w, lo, hi) -> 0 <= b ->
  0 <= lead_bits b w /\ (lead_bits b w + 1) * 64 ^ Z.of_nat w <= 2 ^ 21.
Proof.
  intros Hc%lead_class_inv Hb.
  destruct Hc as [[-> Hc]|(Hlo & Hhi & [[-> Hc]|[[-> Hc]|[-> Hc]]])]; cbn [lead_bits];
    (split; [lia|]); [change (64 ^ Z.of_nat 0) with 1|change (64 ^ Z.of_nat 1) with 64
                     |change (64 ^ Z.of_nat 2) with 4096|change (64 ^ Z.of_nat 3) with 262144]; lia.
Qed.

Lemma mbrtowc_initial us b tl rest :
  want us = 0 -> byte b -> Forall byte tl ->
  _UTF8_mbrtowc (Some ((b :: tl) ++ rest)) (Z.of_nat (length (b :: tl))) us = Ok (decoded us b tl).
Proof.
  intros Hw Hb Htl. unfold _UTF8_mbrtowc. rewrite Hw. change ((0 <? 0) || (0 >? UTF8_MB_CUR_MAX)) with false.
  cbn [bool_decide default Z.eqb]. rewrite bool_decide_eq_false_2 by done.
  rewrite (proj2 (Z.eqb_neq _ 0)) by (cbn [length]; lia).
  cbn [app id]. change (arr_get (b :: tl ++ rest) 0) with (Ok b). cbn [rbind].
  rewrite ascii_bits by done. unfold decoded.
  destruct (Z.ltb_spec b 0x80) as [Hlt|Hge].
  { assert (lead_class b = Some (0%nat, 0, 0)) as ->.
    { unfold lead_class. by rewrite (proj2 (Z.ltb_lt _ _)). }
    rewrite take_0. cbn. unfold continue; cbn. destruct us; cbn in *; subst. by destruct (b =? 0). }
  rewrite first_octet_class by done. destruct (lead_class b) as [[[w lo] hi]|] eqn:Hc; [|done].
  rewrite (first_octet_bits b w lo hi) by done. cbn [drop]. rewrite drop_0. unfold mbrtowc_octets.
  pose proof (lead_bits_bound _ _ _ _ Hc ltac:(unfold byte in Hb; lia)) as [H0 H21].
  apply lead_class_inv in Hc as Hi. cbn [length].
  replace (Z.to_nat (Z.min (Z.of_nat w + 1) (Z.of_nat (S (length tl))) - 1)) with (min w (length tl)) by lia.
  rewrite decode_octets_take by lia.
  rewrite decode_octets_ok;
    [|lia|by apply Forall_take|right; cbn; lia|done|].
  2: { transitivity ((lead_bits b w + 1) * 64 ^ Z.of_nat w); [|lia].
       apply Z.mul_le_mono_nonneg_l; [lia|]. apply Z.pow_le_mono_r; lia. }
  replace (take (min w (length tl)) tl) with (take w tl).
  2: { destruct (Nat.min_spec w (length tl)) as [[? ->]|[? ->]]; [done|].
       rewrite firstn_all. apply take_ge. lia. }
  unfold octets_ok. cbn [lowerbound upperbound]. rewrite (proj2 (Z.eqb_neq lo 0)) by lia.
  cbn [rbind]. destruct (tail_ok lo hi (take w tl)) eqn:Ht; cbn [negb]; [|done].
  destruct (Nat.ltb_spec (length tl) w).
  - rewrite (proj2 (Z.ltb_lt _ _)) by lia.
    replace (Z.of_nat w + 1 - Z.max 1 (Z.min (Z.of_nat w + 1) (Z.of_nat (S (length tl)))))
      with (Z.of_nat w - Z.of_nat (length tl)) by lia.
    destruct tl; [by rewrite Nat.min_0_r|]. destruct w; [lia|done].
  - by rewrite (proj2 (Z.ltb_ge _ _)) by lia.
Qed.

(** ** The decoder between two calls, and the encoder

    A sequence may be cut anywhere: the state carries the first part over to
    the next call.  The encoder emits the sequence of the specification. *)

(** ** States

    When no character is pending, what else the state holds does not count. *)

#[export] Instance utf8_equiv : Equiv _UTF8State :=
  fun a b => want a = want b /\ (want a = 0 \/ a = b).

#[export] Instance utf8_equivalence : Equivalence (≡@{_UTF8State}).
Proof.
  split.
  - intros a. split; [done|by right].
  - intros a b [Hw [H0| ->]]; (split; [done|]); [left; congruence|by right].
  - intros a b c [Hw [H0| ->]] [Hw' H']; [split; [congruence|by left]|by split].
Qed.

(** Same outcome, up to the state. *)
#[export] Instance mbr_equiv : Equiv (mbr _UTF8State) :=
  fun r r' => mb_ret r = mb_ret r' /\ mb_pwc r = mb_pwc r' /\ mb_errno r = mb_errno r' /\
    mb_state r ≡ mb_state r'.

#[export] Instance res_equiv `{Equiv A} : Equiv (res A) :=
  fun r r' => match r, r' with
              | Ok a, Ok a' => a ≡ a'
              | Crash w, Crash w' => w = w'
              | _, _ => False
              end.

#[export] Instance UTF8_mbrtowc_proper s n : Proper ((≡) ==> (≡)) (_UTF8_mbrtowc s n).
Proof.
  intros us us' [Hw [H0| ->]].
  2: { destruct (_UTF8_mbrtowc s n us') as [r|]; [|done]. split; [done|]. split; [done|]. by split. }
  unfold _UTF8_mbrtowc. rewrite <-Hw, H0. cbn [Z.eqb]. change ((0 <? 0) || (0 >? UTF8_MB_CUR_MAX)) with false.
  assert (Hus : us ≡ us') by (split; [done|by left]). set (m := if bool_decide (s = None) then 1 else n). clearbody m.
  destruct (m =? 0); [by split|]. destruct (arr_get _ 0) as [b|]; [|done]. cbn [rbind].
  destruct (Z.land b _ =? 0); [by destruct (bool_decide _); split|].
  destruct (first_octet b) as [[[mask w] sb]|]; [|by destruct (bool_decide _); split].
  unfold mbrtowc_octets. destruct (decode_octets _ _ _ _) as [[[sb' wch]|]|]; cbn [rbind];
    [|by destruct (bool_decide _); split|done].
  destruct (_ <? w); (destruct (bool_decide _); (split; [done|]; split; [done|]; split; [done|])); cbn;
    try done; split; cbn; by (done || left).
Qed.

(** ** Resumption *)

Lemma decode_octets_total k : forall s sb wch,
  (k <= length s)%nat -> exists r, decode_octets k s sb wch = Ok r.
Proof.
  induction k as [|k IH]; intros s sb wch Hk; [by eexists|].
  destruct s as [|b s]; cbn in Hk; [lia|]. cbn [decode_octets].
  destruct (negb (lowerbound sb =? 0)); case_match; try (by eexists); apply IH; lia.
Qed.

Lemma octets_resume us us' s1 s2 i w n2 wch sb0 :
  0 <= i -> 1 <= w <= 4 -> 0 <= n2 <= Z.of_nat (length s2) -> 0 < i + Z.of_nat (length s1) ->
  mbrtowc_octets us s1 i w (i + Z.of_nat (length s1)) wch sb0 = Ok (Mbr size_minus_2 None None us') ->
  0 < want us' <= 4 /\
  exists r' r, mbrtowc_octets us' s2 0 (want us') n2 (ch us') (sb us') = Ok r' /\
    mbrtowc_octets us (s1 ++ s2) i w (i + Z.of_nat (length s1) + n2) wch sb0 = Ok r /\
    resumed_by (≡) (i + Z.of_nat (length s1)) r' r.
Proof.
  intros Hi Hw Hn2 Hn1 H1. set (n1 := i + Z.of_nat (length s1)) in *. unfold mbrtowc_octets in H1.
  destruct (decode_octets (Z.to_nat (Z.min w n1 - i)) s1 sb0 wch) as [[[sb1 wch1]|]|] eqn:E1;
    cbn [rbind] in H1; [|done|done].
  destruct (Z.ltb_spec (Z.max i (Z.min w n1)) w) as [Hlt|]; [|done]. injection H1 as <-. cbn [want ch sb].
  split; [lia|].
  replace (Z.to_nat (Z.min w n1 - i)) with (length s1) in E1 by lia.
  replace (w - Z.max i (Z.min w n1)) with (w - n1) by lia.
  unfold mbrtowc_octets.
  replace (Z.to_nat (Z.min w (n1 + n2) - i)) with (length s1 + Z.to_nat (Z.min (w - n1) n2))%nat by lia.
  rewrite decode_octets_app, E1, Z.sub_0_r. cbn [rbind].
  destruct (decode_octets_total (Z.to_nat (Z.min (w - n1) n2)) s2 sb1 wch1) as [[[sb2 wch2]|] ->]; [lia| |].
  - cbn [rbind]. rewrite (Z.max_r i) by lia. rewrite (Z.max_r 0) by lia.
    destruct (Z.ltb_spec (Z.min (w - n1) n2) (w - n1)); destruct (Z.ltb_spec (Z.min w (n1 + n2)) w); try lia.
    + eexists _, _. split; [done|]. split; [done|]. split; [done|]. split; [done|]. split; [done|].
      intros _. cbn [mb_state].
      replace (w - Z.min w (n1 + n2)) with (w - n1 - Z.min (w - n1) n2) by lia. done.
    + eexists _, _. split; [done|]. split; [done|]. split; [done|]. split; [done|].
      split; [|intros _; by split; [|left]]. cbn [mb_ret]. destruct (wch2 =? 0); [done|].
      rewrite bool_decide_eq_false_2; [lia|]. rewrite !elem_of_cons, elem_of_nil.
      unfold size_minus_1, size_minus_2. lia.
  - eexists _, _. split; [done|]. split; [done|]. split; [done|]. split; [done|]. by split.
Qed.

(** A call with octets pending goes to the loop at once. *)
Lemma mbrtowc_pending us s n :
  1 <= want us <= 4 -> 0 <= n ->
  _UTF8_mbrtowc (Some s) n us = mbrtowc_octets us s 0 (want us) n (ch us) (sb us).
Proof.
  intros Hw Hn. unfold _UTF8_mbrtowc, UTF8_MB_CUR_MAX. rewrite Z.gtb_ltb.
  rewrite (proj2 (Z.ltb_ge _ _)), (proj2 (Z.ltb_ge _ _)) by lia. cbn [orb].
  rewrite bool_decide_eq_false_2 by done. cbn [default id].
  rewrite (proj2 (Z.eqb_neq (want us) 0)) by lia. destruct (Z.eqb_spec n 0) as [->|].
  - unfold mbrtowc_octets. rewrite Z.min_r by lia. change (Z.to_nat (0 - 0)) with 0%nat. cbn [decode_octets rbind].
    rewrite Z.max_id, (proj2 (Z.ltb_lt _ _)), Z.sub_0_r by lia. by destruct us.
  - by destruct (mbrtowc_octets us s 0 (want us) n (ch us) (sb us)).
Qed.

(** A call with none pending looks at the first octet. *)
Lemma mbrtowc_fresh us b s n :
  want us = 0 -> 0 < n ->
  _UTF8_mbrtowc (Some (b :: s)) n us =
    if Z.land b (Z.lnot 0x7f) =? 0 then Ok (Mbr (if b =? 0 then 0 else 1) (Some b) None us)
    else match first_octet b with
         | None => Ok (malformed us)
         | Some (mask, w, sb0) => mbrtowc_octets us s 1 w n (Z.land b mask) sb0
         end.
Proof.
  intros Hw Hn. unfold _UTF8_mbrtowc. rewrite Hw. change ((0 <? 0) || (0 >? UTF8_MB_CUR_MAX)) with false.
  rewrite bool_decide_eq_false_2 by done. cbn [default id Z.eqb]. rewrite (proj2 (Z.eqb_neq n 0)) by lia.
  change (arr_get (b :: s) 0) with (Ok b). cbn [rbind drop]. rewrite drop_0.
  destruct (Z.land b _ =? 0); [done|]. destruct (first_octet b) as [[[??]?]|]; [|done].
  by destruct (mbrtowc_octets _ _ _ _ _ _ _).
Qed.

Lemma first_octet_want b mask w sb0 : first_octet b = Some (mask, w, sb0) -> 1 <= w <= 4.
Proof. unfold first_octet. intros H. repeat case_match; simplify_eq; lia. Qed.

(** ** The encoder *)

Lemma land_lnot_zero wc n : 0 <= n -> (Z.land wc (Z.lnot (2 ^ n - 1)) =? 0) = (0 <=? wc) && (wc <? 2 ^ n).
Proof.
  intros Hn. replace (2 ^ n - 1) with (Z.ones n) by (rewrite Z.ones_equiv; lia).
  rewrite <-Z.ldiff_land, Z.ldiff_ones_r, Z.shiftl_mul_pow2, Z.shiftr_div_pow2 by lia.
  assert (HP : 0 < 2 ^ n) by lia. pose proof (Z.mod_pos_bound wc (2 ^ n) HP) as Hr.
  pose proof (Z.div_mod wc (2 ^ n) ltac:(lia)) as Hd. apply Bool.eq_iff_eq_true.
  rewrite andb_true_iff, Z.eqb_eq, Z.leb_le, Z.ltb_lt. split.
  - intros H0. rewrite (Z.mul_comm (wc / 2 ^ n)) in H0. rewrite H0 in Hd. lia.
  - intros Hw. by rewrite Z.div_small.
Qed.

Lemma tail_octet x : Z.lor (Z.land x 0x3f) 0x80 = 128 + x mod 64.
Proof.
  change 63 with (2 ^ 6 - 1). rewrite land_mask, Z.lor_comm by lia. change (2 ^ 6) with 64.
  apply (lor_const 2 6); [done|lia|]. pose proof (Z.mod_pos_bound x 64). lia.
Qed.

Lemma head_octet x lead k n :
  lead = Z.shiftl k n -> 0 <= n <= 8 -> 0 <= x < 2 ^ n -> Z.lor (Z.land x 0xff) lead = lead + x.
Proof.
  intros Hl Hn Hx. change 255 with (2 ^ 8 - 1). rewrite land_mask by lia.
  assert (2 ^ n <= 2 ^ 8) by (apply Z.pow_le_mono_r; lia).
  rewrite Z.mod_small by lia. rewrite Z.lor_comm. apply (lor_const k n); [done|lia|done].
Qed.

Lemma wcrtomb_spec wc us :
  want us = 0 -> _UTF8_wcrtomb true wc us =
    if decide (scalar wc) then Wcr (Z.of_nat (length (encode wc))) (encode wc) None us
    else Wcr size_minus_1 [] (Some EILSEQ) us.
Proof.
  intros Hw. unfold _UTF8_wcrtomb, lead_octet. rewrite Hw. cbn [Z.eqb negb].
  change 0x7f with (2 ^ 7 - 1). change 0x7ff with (2 ^ 11 - 1). change 0xffff with (2 ^ 16 - 1).
  change 0x1fffff with (2 ^ 21 - 1). rewrite !land_lnot_zero by lia.
  change (2 ^ 7) with 0x80. change (2 ^ 11) with 0x800. change (2 ^ 16) with 0x10000. change (2 ^ 21) with 0x200000.
  unfold encode, scalar. destruct (Z.leb_spec 0 wc); cbn [andb].
  2: { destruct (decide _); [lia|done]. }
  destruct (Z.ltb_spec wc 0x80); [|destruct (Z.ltb_spec wc 0x800); [|destruct (Z.ltb_spec wc 0x10000)]].
  - destruct (decide _); [|lia]. unfold u8. by rewrite Z.mod_small by lia.
  - destruct (decide _); [|lia]. cbn [Z.sub Z.add Z.opp Z.pos_sub Pos.pred_double Z.to_nat Pos.to_nat Pos.iter_op put_octets].
    change (Z.to_nat (2 - 1)) with 1%nat. cbn [put_octets].
    rewrite tail_octet, shiftr_div by lia. change (2 ^ 6) with 64.
    by rewrite (head_octet _ _ 6 5) by (done || zbits).
  - destruct (Z.leb_spec 0xd800 wc), (Z.leb_spec wc 0xdfff); cbn [andb];
      (destruct (decide _); [try lia|try lia]); try done;
    change (Z.to_nat (3 - 1)) with 2%nat; cbn [put_octets];
    rewrite !tail_octet, !shiftr_div by lia; change (2 ^ 6) with 64; rewrite Z.div_div by lia;
    change (64 * 64) with 4096; by rewrite (head_octet _ _ 14 4) by (done || zbits).
  - rewrite Z.gtb_ltb. destruct (Z.ltb_spec wc 0x200000); destruct (Z.ltb_spec 0x10ffff wc); try lia;
      (destruct (decide _); [try lia|try lia]); try done.
    change (Z.to_nat (4 - 1)) with 3%nat. cbn [put_octets].
    rewrite !tail_octet, !shiftr_div by lia. change (2 ^ 6) with 64. rewrite !Z.div_div by lia.
    change (64 * 64) with 4096. change (4096 * 64) with 262144.
    by rewrite (head_octet _ _ 30 3) by (done || zbits).
Qed.
