(* ===== verification/Utf8Strings.v ===== *)
(** * Utf8Strings: the string conversions of UTF-8

    The decoder and the encoder allow the fast paths of [AsciiPath], and the
    loops end within their fuel and stay within their buffers. *)

From S2P Require Import Prelude Encoding AsciiPath Utf8 Utf8Decode.

(** A state between two calls. *)
Definition utf8_wf (us : _UTF8State) : Prop := want us = 0 \/ (1 <= want us <= 4 /\ sb_ok (sb us)).

(** ** One character *)

Lemma mbrtowc_ascii s n us b :
  want us = 0 -> 0 < n -> arr_get s 0 = Ok b -> ascii_char b = true ->
  _UTF8_mbrtowc (Some s) n us = Ok (Mbr 1 (Some b) None us).
Proof.
  intros Hw Hn Hs Ha. unfold _UTF8_mbrtowc. rewrite Hw. change ((0 <? 0) || (0 >? UTF8_MB_CUR_MAX)) with false.
  rewrite bool_decide_eq_false_2 by done. rewrite (proj2 (Z.eqb_neq n 0)) by lia. cbn [default id Z.eqb].
  rewrite Hs. cbn [rbind]. change 0x7f with (2 ^ 7 - 1). rewrite land_lnot_zero by lia. unfold ascii_char in Ha.
  change (2 ^ 7) with 128. destruct (Z.leb_spec 0 b), (Z.ltb_spec b 128); try lia. cbn [andb].
  by rewrite (proj2 (Z.eqb_neq b 0)) by lia.
Qed.

(** An ASCII character in the middle of a sequence is an error. *)
Lemma mbrtowc_interrupted s n us b :
  1 <= want us <= 4 -> sb_ok (sb us) -> 0 < n -> arr_get s 0 = Ok b -> ascii_char b = true ->
  _UTF8_mbrtowc (Some s) n us = Ok (malformed us).
Proof.
  intros Hw Hsb Hn Hs Ha. unfold _UTF8_mbrtowc. unfold UTF8_MB_CUR_MAX. rewrite Z.gtb_ltb.
  rewrite (proj2 (Z.ltb_ge _ _)), (proj2 (Z.ltb_ge _ _)) by lia. cbn [orb].
  rewrite bool_decide_eq_false_2 by done. rewrite (proj2 (Z.eqb_neq n 0)), (proj2 (Z.eqb_neq (want us) 0)) by lia.
  cbn [default id]. unfold mbrtowc_octets. rewrite Z.sub_0_r.
  destruct (Z.to_nat (Z.min (want us) n)) as [|k] eqn:Ek; [lia|].
  apply arr_get_inv in Hs as [_ Hs]. destruct s as [|b' s]; [done|]. cbn in Hs. injection Hs as ->.
  cbn [decode_octets]. unfold ascii_char in Ha.
  destruct Hsb as [-> |Hsb].
  - cbn [lowerbound sb_00_00 Z.eqb negb]. rewrite continuation_bits by (unfold byte; lia).
    unfold continuation. by rewrite (proj2 (Z.leb_gt _ _)) by lia.
  - rewrite (proj2 (Z.eqb_neq _ 0)) by lia. cbn [negb]. by rewrite (proj2 (Z.ltb_lt _ _)) by lia.
Qed.

(** The octets are there, so the call returns; it takes at most what it is
    given, and a complete character leaves no octet pending. *)
Lemma mbrtowc_octets_total us s i w n wch sb0 :
  0 <= i <= n -> n - i <= Z.of_nat (length s) -> 1 <= w <= 4 -> 1 <= n -> utf8_wf us ->
  exists r, mbrtowc_octets us s i w n wch sb0 = Ok r /\
    (mb_ret r ∈ [0; size_minus_1; size_minus_2] \/ (1 <= mb_ret r <= n /\ want (mb_state r) = 0)).
Proof.
  intros Hi Hn Hw H1 Hwf. unfold mbrtowc_octets.
  destruct (decode_octets_total (Z.to_nat (Z.min w n - i)) s sb0 wch) as [[[sb1 wch1]|] ->]; [lia| |]; cbn [rbind].
  - destruct (Z.ltb_spec (Z.max i (Z.min w n)) w).
    + eexists. split; [done|]. left. cbn. set_solver.
    + eexists. split; [done|]. cbn. destruct (wch1 =? 0); [left; set_solver|right; lia].
  - eexists. split; [done|]. left. cbn. set_solver.
Qed.

Lemma mbrtowc_total us s n :
  0 <= n <= Z.of_nat (length s) -> utf8_wf us ->
  exists r, _UTF8_mbrtowc (Some s) n us = Ok r /\
    (mb_ret r ∈ [0; size_minus_1; size_minus_2] \/ (1 <= mb_ret r <= n /\ want (mb_state r) = 0)).
Proof.
  intros Hn Hwf. unfold _UTF8_mbrtowc. unfold UTF8_MB_CUR_MAX. rewrite Z.gtb_ltb.
  rewrite (proj2 (Z.ltb_ge _ _)), (proj2 (Z.ltb_ge _ _)) by (destruct Hwf; lia). cbn [orb].
  rewrite bool_decide_eq_false_2 by done. cbn [default id].
  destruct (Z.eqb_spec n 0); [eexists; split; [done|]; left; cbn; set_solver|].
  destruct s as [|b s]; [cbn in Hn; lia|]. change (arr_get (b :: s) 0) with (Ok b). cbn [rbind drop length] in *.
  destruct (Z.eqb_spec (want us) 0) as [Hw|Hw].
  - destruct (Z.land b _ =? 0).
    { eexists. split; [done|]. cbn. destruct (b =? 0); [left; set_solver|right; lia]. }
    destruct (first_octet b) as [[[mask w] sb0]|] eqn:Hf.
    + assert (1 <= w <= 4) by (unfold first_octet in Hf; repeat case_match; simplify_eq; lia).
      rewrite drop_0.
      destruct (mbrtowc_octets_total us s 1 w n (Z.land b mask) sb0) as (r & -> & Hr); [lia..|done|].
      eexists. split; [done|exact Hr].
    + eexists. split; [done|]. left. cbn. set_solver.
  - destruct (mbrtowc_octets_total us (b :: s) 0 (want us) n (ch us) (sb us)) as (r & -> & Hr);
      [lia|cbn [length]; lia|destruct Hwf; lia|lia|done|].
    eexists. split; [done|exact Hr].
Qed.

(** A call that returns a number of octets leaves none pending. *)
Lemma mbrtowc_complete s n us r :
  _UTF8_mbrtowc (Some s) n us = Ok r -> mb_ret r <> size_minus_1 -> mb_ret r <> size_minus_2 ->
  want (mb_state r) = 0.
Proof.
  intros E H1 H2. unfold _UTF8_mbrtowc in E. destruct (_ || _); [by simplify_eq|].
  rewrite bool_decide_eq_false_2 in E by done. cbn [default id] in E.
  destruct (n =? 0); [by simplify_eq|].
  assert (Hoct : forall s i w wch sb0 r', mbrtowc_octets us s i w n wch sb0 = Ok r' ->
    mb_ret r' <> size_minus_1 -> mb_ret r' <> size_minus_2 -> want (mb_state r') = 0).
  { clear. intros s i w wch sb0 r' E H1 H2. unfold mbrtowc_octets in E. inv_res.
    destruct a as [[sb1 wch1]|]; [|by simplify_eq]. case_match; by simplify_eq. }
  inv_res. destruct (Z.eqb_spec (want us) 0) as [Hw|Hw]; [|by eapply Hoct].
  inv_res. destruct (Z.land _ _ =? 0); [by simplify_eq|].
  destruct (first_octet _) as [[[??]?]|]; [by eapply Hoct|by simplify_eq].
Qed.

(** The loops return, with what they were given. *)
Lemma std_mbs_count_total fuel : forall s nms nchr us,
  0 <= nms <= Z.of_nat (length s) -> nms < 2 ^ 64 -> (Z.to_nat nms < fuel)%nat -> utf8_wf us ->
  exists r, std_mbs_count _UTF8_mbrtowc fuel s nms nchr us = Ok r.
Proof.
  induction fuel as [|fuel IH]; intros s nms nchr us Hn H64 Hf Hw; [lia|]. cbn [std_mbs_count].
  destruct (mbrtowc_total us s nms Hn Hw) as (r & -> & Hr). cbn [rbind].
  destruct (Z.eqb_spec (mb_ret r) size_minus_1); [by eexists|].
  destruct (Z.eqb_spec (mb_ret r) 0); [by eexists|]. destruct (Z.eqb_spec (mb_ret r) size_minus_2); [by eexists|].
  destruct Hr as [Hr|[Hr Hst]]; [set_solver|].
  rewrite u64_small by lia. apply IH; [rewrite length_drop; lia|lia|lia|by left].
Qed.

Lemma std_mbs_loop_total len : forall s nms pos nchr dst us,
  0 <= nms <= Z.of_nat (length s) -> nms < 2 ^ 64 -> utf8_wf us ->
  exists r, std_mbs_loop _UTF8_mbrtowc len s nms pos nchr dst us = Ok r.
Proof.
  induction len as [|len IH]; intros s nms pos nchr dst us Hn H64 Hw; [by eexists|]. cbn [std_mbs_loop].
  destruct (mbrtowc_total us s nms Hn Hw) as (r & -> & Hr). cbn [rbind].
  destruct (Z.eqb_spec (mb_ret r) size_minus_1); [by eexists|].
  destruct (Z.eqb_spec (mb_ret r) size_minus_2); [by eexists|]. destruct (Z.eqb_spec (mb_ret r) 0); [by eexists|].
  destruct Hr as [Hr|[Hr Hst]]; [set_solver|].
  rewrite u64_small by lia. apply IH; [rewrite length_drop; lia|lia|by left].
Qed.

(** ** Wide characters to bytes *)

Lemma wcrtomb_ascii wc us :
  want us = 0 -> ascii_wide wc = true -> _UTF8_wcrtomb true wc us = Wcr 1 [wc] None us.
Proof.
  intros Hw Ha. unfold ascii_wide in Ha. rewrite wcrtomb_spec by done.
  unfold encode. rewrite (proj2 (Z.ltb_lt _ _)) by lia.
  destruct (decide (scalar wc)); [done|]. unfold scalar in *. lia.
Qed.

Lemma wcrtomb_state wc us : wc_state (_UTF8_wcrtomb true wc us) = us.
Proof. unfold _UTF8_wcrtomb. repeat case_match; done. Qed.

#[export] Instance utf8_path : AsciiPath _UTF8_mbrtowc _UTF8_wcrtomb want.
Proof.
  split.
  - apply mbrtowc_ascii.
  - intros s n us w Hw Hn Eb. unfold _UTF8_mbrtowc. rewrite Hw. change ((0 <? 0) || (0 >? UTF8_MB_CUR_MAX)) with false.
    rewrite bool_decide_eq_false_2 by done. rewrite (proj2 (Z.eqb_neq n 0)) by lia.
    cbn [default id Z.eqb]. by rewrite Eb.
  - apply mbrtowc_complete.
  - apply wcrtomb_ascii.
  - apply wcrtomb_state.
Qed.

(** Every character is written in full within the [len] bytes left. *)
Lemma std_wcs_loop_bounds s : forall nwc len pos nbytes dst us,
  want us = 0 -> 0 <= len -> nwc <= Z.of_nat (length s) ->
  exists r, std_wcs_loop _UTF8_wcrtomb UTF8_MB_CUR_MAX s nwc len pos nbytes dst us = Ok r /\
    Z.of_nat (length (sc_dst r)) <= Z.of_nat (length dst) + len.
Proof.
  induction s as [|wc s IH]; intros nwc len pos nbytes dst us Hw Hlen Hs; cbn [std_wcs_loop];
    (destruct (Z.ltb_spec 0 len); [|eexists; (split; [done|]); cbn; lia]);
    (destruct (Z.ltb_spec 0 nwc); [|eexists; (split; [done|]); cbn; lia]); cbn [negb andb].
  { cbn in Hs. lia. }
  rewrite wcrtomb_spec by done. destruct (decide (scalar wc)) as [Hsc|]; cbn [wc_ret wc_bytes wc_state];
    [|eexists; (split; [done|]); cbn; lia].
  pose proof (encode_length wc) as Hb.
  rewrite (proj2 (Z.eqb_neq _ size_minus_1)) by (unfold size_minus_1; lia).
  unfold UTF8_MB_CUR_MAX in *. rewrite !Z.gtb_ltb.
  destruct (negb (4 <? len) && (len <? Z.of_nat (length (encode wc)))) eqn:E;
    [eexists; (split; [done|]); cbn; lia|].
  assert (Z.of_nat (length (encode wc)) <= len) by lia.
  destruct (wc =? 0); [eexists; (split; [done|]); cbn [sc_dst]; rewrite length_app; lia|].
  destruct (IH (nwc - 1) (len - Z.of_nat (length (encode wc))) (pos + 1) (nbytes + Z.of_nat (length (encode wc)))
    (dst ++ encode wc) us) as (r & -> & Hr); [done|lia|cbn [length] in Hs; lia|].
  eexists. split; [done|]. rewrite length_app in Hr. lia.
Qed.
