(* ===== verification/Utf8Thms.v ===== *)
(** * Utf8Thms: correctness of the UTF-8 encoding *)

From S2P Require Import Prelude Transform TransformUtf Encoding AsciiPath Utf8 Utf8Decode Utf8Strings EncodingText.

(** ** Prefixes of sequences *)





Lemma decoded_encode us c t :
  scalar c -> Forall byte t ->
  exists b tl, encode c ++ t = b :: tl /\ byte b /\ Forall byte tl /\
    decoded us b tl = Mbr (if c =? 0 then 0 else Z.of_nat (length (encode c))) (Some c) None
      (Utf8St (ch us) 0 (sb us)).
Proof.
  intros Hc Ht. destruct (encode_sequence c Hc) as (b & tl & w & lo & hi & E & Hl & Hb & Hw & Hok).
  exists b, (tl ++ t). rewrite E. split; [done|].
  destruct (sequence_encode b w lo hi tl Hl Hb Hw Hok) as [Hsc E'].
  assert (Ec : continue (lead_bits b w) tl = c).
  { apply (encode_inj _ _ [] []); [done|done|]. by rewrite !app_nil_r, E', E. }
  pose proof (lead_class_byte _ _ _ _ Hl). split; [unfold byte; lia|]. split.
  { apply Forall_app. split; [|done]. apply lead_class_inv in Hl.
    destruct tl as [|x tl]; [done|]. cbn [tail_ok] in Hok. apply andb_true_iff in Hok as [Hx Hr].
    constructor; [unfold byte; cbn [length] in Hw; lia|]. rewrite forallb_forall in Hr. apply Forall_forall. intros y Hy.
    apply list_elem_of_In, Hr in Hy. unfold continuation in Hy. unfold byte. lia. }
  unfold decoded. rewrite Hl. rewrite <-Hw, take_app_length, Hok. cbn [negb].
  rewrite (proj2 (Nat.ltb_ge _ _)) by (rewrite length_app; lia).
  rewrite Hw, Ec. cbn [length]. rewrite Hw. by rewrite Nat2Z.inj_succ, Z.add_1_r.
Qed.

(** Decoding what the encoder of a character wrote, whatever follows. *)
Lemma mbrtowc_encode us c t rest :
  want us = 0 -> scalar c -> Forall byte t ->
  _UTF8_mbrtowc (Some ((encode c ++ t) ++ rest)) (Z.of_nat (length (encode c ++ t))) us =
    Ok (Mbr (if c =? 0 then 0 else Z.of_nat (length (encode c))) (Some c) None (Utf8St (ch us) 0 (sb us))).
Proof.
  intros Hw Hc Ht. destruct (decoded_encode us c t Hc Ht) as (b & tl & E & Hb & Htl & Hd).
  rewrite E, mbrtowc_initial by done. by rewrite Hd.
Qed.





(** ** Strings *)

Lemma mbsnrtowcs_std dst src nms len us :
  utf8_wf us -> 0 <= nms <= Z.of_nat (length src) -> 0 <= len ->
  _UTF8_mbsnrtowcs dst src nms len us = __mbsnrtowcs_std _UTF8_mbrtowc dst src nms len us.
Proof.
  intros Hwf Hn Hl. destruct (decide (want us = 0)) as [Hw|Hw]; [apply ascii_mbsnrtowcs_std; [done|lia]|].
  unfold _UTF8_mbsnrtowcs, ascii_mbsnrtowcs, __mbsnrtowcs_std. rewrite !Z.gtb_ltb.
  destruct Hwf as [?|[Hw' Hsb]]; [done|]. rewrite (proj2 (Z.ltb_lt 0 (want us))), !andb_true_r by lia.
  assert (Hf : exists f, fast_byte src nms = Ok f /\ (f = true -> 0 < nms /\
    _UTF8_mbrtowc (Some src) nms us = Ok (malformed us))).
  { unfold fast_byte. rewrite Z.gtb_ltb. destruct (Z.ltb_spec 0 nms); [|by eexists].
    destruct src as [|b src]; [cbn in Hn; lia|]. eexists. split; [done|]. intros Ha. split; [lia|].
    by apply (mbrtowc_interrupted _ _ _ b). }
  destruct Hf as (f & Ef & Hf).
  assert (Hslow : nms <= 0 -> fast_byte src nms = Ok false).
  { intros. unfold fast_byte. by rewrite Z.gtb_ltb, (proj2 (Z.ltb_ge 0 nms)). }
  destruct dst.
  - destruct (Z.ltb_spec 0 len); [|replace (Z.to_nat len) with 0%nat by lia; by rewrite andb_false_r].
    rewrite andb_true_r. destruct (Z.ltb_spec 0 nms); [|apply mbs_loop_pending; auto with lia].
    rewrite Ef. cbn [rbind]. destruct f; [|by apply mbs_loop_pending; [lia|]].
    destruct (Z.to_nat len) as [|k] eqn:Ek; [lia|]. cbn [std_mbs_loop]. by rewrite (proj2 (Hf eq_refl)).
  - destruct (Z.ltb_spec 0 nms); [|apply mbs_count_pending; auto with lia].
    rewrite Ef. cbn [rbind]. destruct f; [|by apply mbs_count_pending; [lia|]].
    cbn [std_mbs_count]. by rewrite (proj2 (Hf eq_refl)).
Qed.

(** [C30] The conversion of a string with its ASCII fast path is the standard
    one over [mbrtowc]: on every input, well formed or not, from every state a
    call can leave, with and without a destination, the two give the same
    result, and it is a result: no byte beyond the [nms] given is read and the
    loop ends. *)
Theorem utf8_mbsnrtowcs_equiv dst src nms len us :
  utf8_wf us -> 0 <= nms <= Z.of_nat (length src) -> nms < 2 ^ 64 -> 0 <= len ->
  _UTF8_mbsnrtowcs dst src nms len us = __mbsnrtowcs_std _UTF8_mbrtowc dst src nms len us /\
  exists r, _UTF8_mbsnrtowcs dst src nms len us = Ok r.
Proof.
  intros Hwf Hn H64 Hl. rewrite mbsnrtowcs_std by done. split; [done|]. unfold __mbsnrtowcs_std.
  destruct dst; [by apply std_mbs_loop_total|apply std_mbs_count_total; [done|done|lia|done]].
Qed.

Lemma utf8_mbsnrtowcs_equiv_witness :
  _UTF8_mbsnrtowcs true [0x82; 0xac; 0x41; 0xc3; 0x28] 5 9 (Utf8St 2 2 sb_80_BF) =
    __mbsnrtowcs_std _UTF8_mbrtowc true [0x82; 0xac; 0x41; 0xc3; 0x28] 5 9 (Utf8St 2 2 sb_80_BF) /\
  exists r, _UTF8_mbsnrtowcs true [0x82; 0xac; 0x41; 0xc3; 0x28] 5 9 (Utf8St 2 2 sb_80_BF) = Ok r.
Proof.
  apply (utf8_mbsnrtowcs_equiv true [0x82; 0xac; 0x41; 0xc3; 0x28] 5 9 (Utf8St 2 2 sb_80_BF));
    [right; split; [cbn; lia|right; cbn; lia]|cbn; lia|lia|lia].
Defined.

(** The conversion back with its ASCII fast path is the standard one
    over [wcrtomb], with and without a destination; with one it returns and
    never writes beyond the [len] bytes it is given, also where it encodes in
    place. *)
Theorem utf8_wcsnrtombs_equiv dst src nwc len us :
  want us = 0 -> 0 <= nwc <= Z.of_nat (length src) -> 0 <= len ->
  _UTF8_wcsnrtombs dst src nwc len us = __wcsnrtombs_std _UTF8_wcrtomb UTF8_MB_CUR_MAX dst src nwc len us /\
  (dst = true -> exists r, _UTF8_wcsnrtombs dst src nwc len us = Ok r /\ Z.of_nat (length (sc_dst r)) <= len).
Proof.
  intros Hw Hn Hl. unfold _UTF8_wcsnrtombs. rewrite ascii_wcsnrtombs_std by done. split; [done|]. intros ->.
  unfold __wcsnrtombs_std.
  destruct (std_wcs_loop_bounds src nwc len 0 0 [] us) as (r & -> & Hr); [done|done|lia|].
  by exists r.
Qed.

Lemma utf8_wcsnrtombs_equiv_witness :
  _UTF8_wcsnrtombs true [0x41; 0x20ac; 0x20ac] 3 6 utf8_initial =
    __wcsnrtombs_std _UTF8_wcrtomb UTF8_MB_CUR_MAX true [0x41; 0x20ac; 0x20ac] 3 6 utf8_initial /\
  (true = true -> exists r, _UTF8_wcsnrtombs true [0x41; 0x20ac; 0x20ac] 3 6 utf8_initial = Ok r /\
    Z.of_nat (length (sc_dst r)) <= 6).
Proof.
  apply (utf8_wcsnrtombs_equiv true [0x41; 0x20ac; 0x20ac] 3 6 utf8_initial); [reflexivity|cbn; lia|lia].
Defined.

(** ** UTF-8 is a lawful, strict and restartable encoding *)

Definition utf8_code (c : Z) (bs : list Z) : Prop := scalar c /\ bs = encode c.

Definition utf8_idle (us : _UTF8State) : Prop := want us = 0.

Definition utf8_valid (us : _UTF8State) : Prop := 0 <= want us <= UTF8_MB_CUR_MAX.

(** A character that is complete is not changed by more bytes. *)
Lemma mbrtowc_longer s n n' us r c :
  want us = 0 -> s <> [] -> 0 < n <= n' ->
  _UTF8_mbrtowc (Some s) n us = Ok r -> mb_pwc r = Some c -> _UTF8_mbrtowc (Some s) n' us = Ok r.
Proof.
  intros Hw Hne Hn E Hc. destruct s as [|b s]; [done|]. rewrite mbrtowc_fresh in E |- * by (done || lia).
  destruct (Z.land b _ =? 0); [done|]. destruct (first_octet b) as [[[mask w] sb0]|] eqn:Ef; [|done].
  apply first_octet_want in Ef. unfold mbrtowc_octets in *.
  destruct (Z.le_gt_cases w n); [by rewrite (Z.min_l w n) in E by lia; rewrite Z.min_l by lia|].
  destruct (decode_octets _ s sb0 _) as [[[sb1 wch]|]|]; cbn [rbind] in E; [|by simplify_eq|done].
  rewrite (proj2 (Z.ltb_lt _ w)) in E by lia. by simplify_eq.
Qed.

#[export] Instance utf8_strict : StrictDecoder _UTF8_init utf8_idle utf8_code.
Proof.
  intros us s n r c Hw Hb Hn E Hc. cbn [_UTF8_init __mbrtowc] in E. unfold utf8_idle in Hw.
  destruct (take (Z.to_nat n) s) as [|b tl] eqn:Et.
  { assert (n = 0) as ->. { apply (f_equal length) in Et. rewrite length_take in Et. cbn in Et. lia. }
    unfold _UTF8_mbrtowc in E. rewrite Hw in E. cbn in E. by simplify_eq. }
  assert (Hs : s = (b :: tl) ++ drop (Z.to_nat n) s) by (by rewrite <-Et, take_drop).
  assert (Hl : Z.of_nat (length (b :: tl)) = n) by (rewrite <-Et, length_take; lia).
  assert (Hbt : Forall byte (b :: tl)) by (rewrite <-Et; by apply Forall_take).
  apply Forall_cons in Hbt as [Hbb Hbt]. rewrite Hs, <-Hl, mbrtowc_initial in E by done. injection E as <-.
  unfold decoded in Hc. destruct (lead_class b) as [[[w lo] hi]|] eqn:Hcl; [|done].
  destruct (tail_ok lo hi (take w tl)) eqn:Ht; [|done]. cbn [negb] in Hc.
  destruct (Nat.ltb_spec (length tl) w); [done|]. injection Hc as <-.
  destruct (sequence_encode b w lo hi (take w tl) Hcl ltac:(unfold byte in Hbb; lia)
    ltac:(rewrite length_take; lia) Ht) as [Hsc E].
  exists (b :: take w tl), (drop w tl ++ drop (Z.to_nat n) s). split; [|split; [by split|]].
  - rewrite Hs at 1. cbn [app]. by rewrite app_assoc, take_drop.
  - cbn [length] in *. rewrite length_take. lia.
Qed.

#[export] Instance utf8_laws : EncodingLaws _UTF8_init utf8_initial utf8_idle utf8_code.
Proof.
  unfold utf8_idle. split; try done.
  - intros c bs [_ ->]. apply encode_length.
  - split; [|done]. by left.
  - intros us c bs t n Hw [Hc ->] Hn _. exists (Utf8St (ch us) 0 (sb us)). split; [done|].
    pose proof (mbrtowc_encode us c [] t Hw Hc (Forall_nil_2 _)) as E. rewrite app_nil_r in E.
    pose proof (encode_length c). eapply mbrtowc_longer; [done| |split; [|exact Hn]|exact E|done]; [|lia].
    intros Hnil%(f_equal length). rewrite length_app in Hnil. cbn in Hnil. lia.
  - intros us b Hw Hb. eapply (strict_decode_byte _ utf8_idle); [apply utf8_strict| |done|done| |].
    + intros c' bs [_ ->] Hnil. pose proof (encode_length c') as Hl. rewrite Hnil in Hl. cbn in Hl. lia.
    + apply (mbrtowc_initial us b [] []); [done|done|constructor].
    + unfold decoded. by repeat case_match.
  - intros us c bs Hw [Hc ->]. exists us. split; [done|]. cbn [_UTF8_init __wcrtomb].
    rewrite wcrtomb_spec by done. by rewrite decide_True.
  - intros dst src nms len us Hw Hn Hl. apply ascii_mbsnrtowcs_std; [done|lia].
  - intros dst src nwc len us Hw Hn Hl. by apply ascii_wcsnrtombs_std.
Qed.

Lemma utf8_restart : Restartable _UTF8_mbrtowc utf8_valid (≡).
Proof.
  intros us us' s1 s2 n2 Hv Hne _ _ Hn2 H1. destruct s1 as [|b s1]; [done|]. unfold utf8_valid, UTF8_MB_CUR_MAX in *.
  assert (Hlen : Z.of_nat (length (b :: s1)) = 1 + Z.of_nat (length s1)) by (cbn [length]; lia).
  destruct (decide (want us = 0)) as [Hw|Hw].
  - rewrite mbrtowc_fresh in H1 by (done || lia). cbn [app]. rewrite mbrtowc_fresh by (done || lia).
    destruct (Z.land b _ =? 0); [by simplify_eq|].
    destruct (first_octet b) as [[[mask w] sb0]|] eqn:Hf; [|by simplify_eq].
    apply first_octet_want in Hf. rewrite Hlen in *.
    destruct (octets_resume us us' s1 s2 1 w n2 (Z.land b mask) sb0) as (Hw' & r' & r & E' & E & Hr);
      [lia|lia|lia|lia|done|].
    split; [lia|]. exists r', r. by rewrite mbrtowc_pending by lia.
  - rewrite mbrtowc_pending in H1 by lia. rewrite (mbrtowc_pending us) by lia.
    destruct (octets_resume us us' (b :: s1) s2 0 (want us) n2 (ch us) (sb us)) as (Hw' & r' & r & E' & E & Hr);
      [lia|lia|lia|lia|done|].
    split; [lia|]. exists r', r. by rewrite mbrtowc_pending by lia.
Qed.
