(* ===== verification/Utf2.v ===== *)
(** * Utf2: the encoding UTF2 of the C library

    Model of [locale/FreeBSD/utf2.c]: the 16-bit characters in one to three
    bytes, as UTF-8 writes them, surrogates included.  The string conversions
    are those of [AsciiPath], and the loop that stores the bytes of a character
    is the one of [Utf8]. *)

From S2P Require Import Prelude Encoding AsciiPath Utf8 EncodingText Utf8Decode.

Definition UTF2_MB_CUR_MAX : Z := 3.

Record _UTF2State := Utf2St { ch2 : Z; want2 : Z; lbound : Z }.

#[export] Instance UTF2State_eq_dec : EqDecision _UTF2State.
Proof. solve_decision. Defined.

Definition utf2_initial : _UTF2State := Utf2St 0 0 0.

Definition _UTF2_mbsinit (ps : option _UTF2State) : bool :=
  match ps with
  | None => true
  | Some us => want2 us =? 0
  end.

(** ** [_UTF2_mbrtowc] *)

(** Mask, length and least character for a first byte. *)
Definition utf2_first_octet (ch : Z) : option (Z * Z * Z) :=
  if Z.land ch 0x80 =? 0 then Some (0x7f, 1, 0)
  else if Z.land ch 0xe0 =? 0xc0 then Some (0x1f, 2, 0x80)
  else if Z.land ch 0xf0 =? 0xe0 then Some (0x0f, 3, 0x800)
  else None.

(** [rounds] rounds of the loop over the octets; None is a bad one. *)
Fixpoint utf2_octets (rounds : nat) (s : list Z) (wch : Z) : res (option Z) :=
  match rounds with
  | O => Ok (Some wch)
  | S rounds =>
      match s with
      | [] => Crash OutOfBounds
      | b :: s =>
          if negb (Z.land b 0xc0 =? 0x80) then Ok None
          else utf2_octets rounds s (Z.lor (s32 (Z.shiftl wch 6)) (Z.land b 0x3f))
      end
  end.

Definition utf2_malformed (us : _UTF2State) : mbr _UTF2State :=
  Mbr size_minus_1 None (Some EILSEQ) us.

(** From the loop on: [i] octets are done, [wch] is what they gave. *)
Definition utf2_rest (us : _UTF2State) (s : list Z) (i want n wch lb : Z) : res (mbr _UTF2State) :=
  let! r := utf2_octets (Z.to_nat (Z.min want n - i)) s wch in
  match r with
  | None => Ok (utf2_malformed us)
  | Some wch =>
      let i := Z.max i (Z.min want n) in
      if i <? want then Ok (Mbr size_minus_2 None None (Utf2St wch (want - i) lb))
      else if wch <? lb then Ok (utf2_malformed us)
      else Ok (Mbr (if wch =? 0 then 0 else want) (Some wch) None (Utf2St (ch2 us) 0 (lbound us)))
  end.

Definition _UTF2_mbrtowc (s : option (list Z)) (n : Z) (us : _UTF2State) : res (mbr _UTF2State) :=
  if (want2 us <? 0) || (want2 us >? 6) then Ok (Mbr size_minus_1 None (Some EINVAL) us)
  else
    let null := bool_decide (s = None) in
    let n := if null then 1 else n in
    let s := default [0] s in
    if n =? 0 then Ok (Mbr size_minus_2 None None us)
    else
      let! r :=
        (if want2 us =? 0 then
           let! c := arr_get s 0 in
           if Z.land c (Z.lnot 0x7f) =? 0 then Ok (Mbr (if c =? 0 then 0 else 1) (Some c) None us)
           else
             match utf2_first_octet c with
             | None => Ok (utf2_malformed us)
             | Some (mask, want, lb) => utf2_rest us (drop 1 s) 1 want n (Z.land c mask) lb
             end
         else utf2_rest us s 0 (want2 us) n (ch2 us) (lbound us)) in
      Ok (if null then Mbr (mb_ret r) None (mb_errno r) (mb_state r) else r).

Definition _UTF2_mbsnrtowcs : bool -> list Z -> Z -> Z -> _UTF2State -> res (sconv _UTF2State) :=
  ascii_mbsnrtowcs _UTF2_mbrtowc want2.

(** ** [_UTF2_wcrtomb] *)

Definition utf2_lead_octet (wc : Z) : option (Z * Z) :=
  if Z.land wc (Z.lnot 0x7f) =? 0 then Some (0, 1)
  else if Z.land wc (Z.lnot 0x7ff) =? 0 then Some (0xc0, 2)
  else if Z.land wc (Z.lnot 0xffff) =? 0 then Some (0xe0, 3)
  else None.

Definition _UTF2_wcrtomb (s : bool) (wc : Z) (us : _UTF2State) : wcr _UTF2State :=
  if negb (want2 us =? 0) then Wcr size_minus_1 [] (Some EINVAL) us
  else if negb s then Wcr 1 [] None us
  else if Z.land wc (Z.lnot 0x7f) =? 0 then Wcr 1 [u8 wc] None us
  else
    match utf2_lead_octet wc with
    | None => Wcr size_minus_1 [] (Some EILSEQ) us
    | Some (lead, len) => Wcr len (put_octets (Z.to_nat (len - 1)) wc lead []) None us
    end.

Definition _UTF2_wcsnrtombs : bool -> list Z -> Z -> Z -> _UTF2State -> res (sconv _UTF2State) :=
  ascii_wcsnrtombs _UTF2_wcrtomb want2 UTF2_MB_CUR_MAX.

(** ** The locale *)

Definition _UTF2_init : runelocale _UTF2State := {|
  __mbrtowc := _UTF2_mbrtowc;
  __wcrtomb := _UTF2_wcrtomb;
  __mbsinit := _UTF2_mbsinit;
  __mbsnrtowcs := _UTF2_mbsnrtowcs;
  __wcsnrtombs := _UTF2_wcsnrtombs;
  __mb_cur_max := UTF2_MB_CUR_MAX;
  __mb_sb_limit := 128
|}.

(** ** Laws: UTF2 is a lawful, strict and restartable encoding *)


Definition utf2_code (c : Z) (bs : list Z) : Prop := 0 <= c < 0x10000 /\ bs = encode c.

Definition utf2_idle (us : _UTF2State) : Prop := want2 us = 0.

(** A state a call leaves: a character of the encoding is under way. *)
Definition utf2_valid (us : _UTF2State) : Prop := 0 <= want2 us <= 6.

(** When nothing is pending, what else the state holds does not count. *)
Definition utf2_eqv (a b : _UTF2State) : Prop := want2 a = want2 b /\ (want2 a = 0 \/ a = b).

(** ** Bytes *)

Definition first_class (b : Z) : option (Z * Z * Z) :=
  if b <? 0x80 then Some (0x7f, 1, 0)
  else if b <? 0xc0 then None
  else if b <? 0xe0 then Some (0x1f, 2, 0x80)
  else if b <? 0xf0 then Some (0x0f, 3, 0x800)
  else None.

Lemma utf2_first_class b : byte b -> utf2_first_octet b = first_class b.
Proof. revert b. by apply (byte_ind _). Qed.

(** The bits of the first of two or three bytes. *)
Lemma utf2_first_bits b :
  byte b -> Z.land b 0x1f = b mod 32 /\ Z.land b 0x0f = b mod 16.
Proof. revert b. by apply (byte_ind (fun b => Z.land b 0x1f = b mod 32 /\ Z.land b 0x0f = b mod 16)). Qed.

(** ** The loop *)

Lemma utf2_octets_ok k : forall s wch,
  (k <= length s)%nat -> Forall byte (take k s) -> 0 <= wch -> (wch + 1) * 64 ^ Z.of_nat k <= 2 ^ 31 ->
  utf2_octets k s wch = Ok (if forallb continuation (take k s) then Some (continue wch (take k s)) else None).
Proof.
  induction k as [|k IH]; intros s wch Hl Hb Hw Hmax; [done|].
  destruct s as [|b s]; [cbn in Hl; lia|]. cbn [take] in *. apply Forall_cons in Hb as [Hb Hbs].
  cbn [length] in Hl. rewrite Nat2Z.inj_succ, Z.pow_succ_r in Hmax by lia.
  assert (Hp : 1 <= 64 ^ Z.of_nat k) by (apply (Z.pow_le_mono_r 64 0); lia).
  cbn [utf2_octets forallb]. rewrite continuation_bits by done. destruct (continuation b) eqn:Hc; [|done]. cbn [negb andb].
  rewrite octet_value by (done || nia). assert (0 <= b - 128 <= 63) by (unfold continuation in Hc; lia).
  rewrite IH; [done|lia|done|nia|nia].
Qed.

Lemma utf2_octets_app s1 : forall k2 s2 wch,
  utf2_octets (length s1 + k2) (s1 ++ s2) wch =
    let! r := utf2_octets (length s1) s1 wch in
    match r with
    | None => Ok None
    | Some wch' => utf2_octets k2 s2 wch'
    end.
Proof.
  induction s1 as [|b s1 IH]; intros k2 s2 wch; [done|].
  cbn [length Nat.add app utf2_octets]. destruct (negb _); [done|]. apply IH.
Qed.

Lemma utf2_octets_total k : forall s wch, (k <= length s)%nat -> exists r, utf2_octets k s wch = Ok r.
Proof.
  induction k as [|k IH]; intros s wch Hk; [by eexists|]. destruct s as [|b s]; cbn in Hk; [lia|].
  cbn [utf2_octets]. destruct (negb _); [by eexists|]. apply IH. lia.
Qed.

(** ** One call *)

Lemma utf2_pending us s n :
  1 <= want2 us <= 6 -> 0 <= n -> _UTF2_mbrtowc (Some s) n us = utf2_rest us s 0 (want2 us) n (ch2 us) (lbound us).
Proof.
  intros Hw Hn. unfold _UTF2_mbrtowc. rewrite Z.gtb_ltb.
  rewrite (proj2 (Z.ltb_ge _ _)), (proj2 (Z.ltb_ge _ _)) by lia. cbn [orb].
  rewrite bool_decide_eq_false_2 by done. cbn [default id].
  rewrite (proj2 (Z.eqb_neq (want2 us) 0)) by lia. destruct (Z.eqb_spec n 0) as [->|].
  - unfold utf2_rest. rewrite Z.min_r by lia. change (Z.to_nat (0 - 0)) with 0%nat. cbn [utf2_octets rbind].
    rewrite Z.max_id, (proj2 (Z.ltb_lt _ _)), Z.sub_0_r by lia. by destruct us.
  - by destruct (utf2_rest us s 0 (want2 us) n (ch2 us) (lbound us)).
Qed.

Lemma utf2_fresh us b s n :
  want2 us = 0 -> 0 < n ->
  _UTF2_mbrtowc (Some (b :: s)) n us =
    if Z.land b (Z.lnot 0x7f) =? 0 then Ok (Mbr (if b =? 0 then 0 else 1) (Some b) None us)
    else match utf2_first_octet b with
         | None => Ok (utf2_malformed us)
         | Some (mask, w, lb) => utf2_rest us s 1 w n (Z.land b mask) lb
         end.
Proof.
  intros Hw Hn. unfold _UTF2_mbrtowc. rewrite Hw. change ((0 <? 0) || (0 >? 6)) with false.
  rewrite bool_decide_eq_false_2 by done. cbn [default id Z.eqb]. rewrite (proj2 (Z.eqb_neq n 0)) by lia.
  change (arr_get (b :: s) 0) with (Ok b). cbn [rbind drop]. rewrite drop_0.
  destruct (Z.land b _ =? 0); [done|]. destruct (utf2_first_octet b) as [[[??]?]|]; [|done].
  by destruct (utf2_rest _ _ _ _ _ _ _).
Qed.

Lemma utf2_first_want b mask w lb : utf2_first_octet b = Some (mask, w, lb) -> 1 <= w <= 3.
Proof. unfold utf2_first_octet. intros H. repeat case_match; simplify_eq; lia. Qed.

(** A character of two or three bytes, read to its end. *)
Lemma utf2_rest_complete us s w n wch lb :
  2 <= w -> w <= n -> w - 1 <= Z.of_nat (length s) -> Forall byte (take (Z.to_nat (w - 1)) s) ->
  0 <= wch -> (wch + 1) * 64 ^ (w - 1) <= 2 ^ 31 ->
  utf2_rest us s 1 w n wch lb =
    let t := take (Z.to_nat (w - 1)) s in
    Ok (if negb (forallb continuation t) then utf2_malformed us
        else if continue wch t <? lb then utf2_malformed us
        else Mbr (if continue wch t =? 0 then 0 else w) (Some (continue wch t)) None (Utf2St (ch2 us) 0 (lbound us))).
Proof.
  intros Hw Hn Hl Hb H0 Hmax. unfold utf2_rest. rewrite Z.min_l by lia.
  rewrite utf2_octets_ok by (try done; rewrite ?Z2Nat.id; lia). cbn [rbind]. cbn zeta.
  destruct (forallb continuation _); [|done]. cbn [negb]. rewrite Z.max_r, Z.ltb_irrefl by lia. by destruct (_ <? lb).
Qed.

(** Lead byte, continuation bytes and lower bound make an encoding. *)
Lemma utf2_sequence b mask w lb t :
  byte b -> utf2_first_octet b = Some (mask, w, lb) -> 0x80 <= b -> Z.of_nat (length t) = w - 1 ->
  forallb continuation t = true -> lb <= continue (Z.land b mask) t -> utf2_code (continue (Z.land b mask) t) (b :: t).
Proof.
  intros Hb Hf Hge Hl Ht Hlb. rewrite utf2_first_class in Hf by done. destruct (utf2_first_bits b Hb) as [E1 E2].
  unfold first_class in Hf. destruct (Z.ltb_spec b 0x80); [lia|]. destruct (Z.ltb_spec b 0xc0); [done|].
  destruct (Z.ltb_spec b 0xe0); [|destruct (Z.ltb_spec b 0xf0); [|done]]; simplify_eq;
    destruct t as [|x [|y [|]]]; cbn [length] in Hl; try lia; cbn [forallb] in Ht; unfold continuation in Ht;
    cbn [continue fold_left] in *; rewrite ?E1, ?E2 in *; unfold utf2_code, encode; (split; [zbits|]);
    repeat match goal with |- context [?a <? ?b] => destruct (Z.ltb_spec a b); [try lia|try zbits] end;
    repeat (apply (f_equal2 cons); [zbits|]); try done.
Qed.

(** The encoding of a character begins with its lead byte. *)
Lemma utf2_encoded c :
  0x80 <= c < 0x10000 -> exists b t mask w lb, encode c = b :: t /\ byte b /\ Forall byte t /\ 0x80 <= b /\
    utf2_first_octet b = Some (mask, w, lb) /\ Z.of_nat (length t) = w - 1 /\ 2 <= w /\
    forallb continuation t = true /\ continue (Z.land b mask) t = c /\ lb <= c /\
    0 <= Z.land b mask /\ (Z.land b mask + 1) * 64 ^ (w - 1) <= 2 ^ 31.
Proof.
  intros Hc. unfold encode. rewrite (proj2 (Z.ltb_ge c 0x80)) by lia.
  destruct (Z.ltb_spec c 0x800); [|rewrite (proj2 (Z.ltb_lt c 0x10000)) by lia].
  - assert (Hb : byte (192 + c / 64)) by (unfold byte; zbits). destruct (utf2_first_bits _ Hb) as [E1 _].
    eexists _, _, 0x1f, 2, 0x80. split; [done|]. split; [done|]. rewrite utf2_first_class, E1 by done.
    split; [repeat constructor; unfold byte; zbits|]. split; [zbits|].
    split; [unfold first_class; repeat case_match; try done; zbits|]. split; [done|]. split; [done|].
    split; [cbn; unfold continuation; zbits|]. split; [cbn [continue fold_left]; zbits|]. split; [lia|].
    change (64 ^ (2 - 1)) with 64. split; zbits.
  - assert (Hb : byte (224 + c / 4096)) by (unfold byte; zbits). destruct (utf2_first_bits _ Hb) as [_ E2].
    eexists _, _, 0x0f, 3, 0x800. split; [done|]. split; [done|]. rewrite utf2_first_class, E2 by done.
    split; [repeat constructor; unfold byte; zbits|]. split; [zbits|].
    split; [unfold first_class; repeat case_match; try done; zbits|]. split; [done|]. split; [done|].
    split; [cbn; unfold continuation; zbits|]. split; [cbn [continue fold_left]; zbits|]. split; [lia|].
    change (64 ^ (3 - 1)) with 4096. split; zbits.
Qed.

Lemma utf2_wcrtomb_spec wc us :
  want2 us = 0 -> _UTF2_wcrtomb true wc us =
    if decide (0 <= wc < 0x10000) then Wcr (Z.of_nat (length (encode wc))) (encode wc) None us
    else Wcr size_minus_1 [] (Some EILSEQ) us.
Proof.
  intros Hw. unfold _UTF2_wcrtomb, utf2_lead_octet. rewrite Hw. cbn [Z.eqb negb].
  change 0x7f with (2 ^ 7 - 1). change 0x7ff with (2 ^ 11 - 1). change 0xffff with (2 ^ 16 - 1).
  rewrite !land_lnot_zero by lia. change (2 ^ 7) with 0x80. change (2 ^ 11) with 0x800. change (2 ^ 16) with 0x10000.
  unfold encode. destruct (Z.leb_spec 0 wc); cbn [andb]; [|destruct (decide _); [lia|done]].
  destruct (Z.ltb_spec wc 0x80); [|destruct (Z.ltb_spec wc 0x800); [|destruct (Z.ltb_spec wc 0x10000)]];
    (destruct (decide _); [try lia|try lia]); try done.
  - unfold u8. by rewrite Z.mod_small by lia.
  - change (Z.to_nat (2 - 1)) with 1%nat. cbn [put_octets]. rewrite tail_octet, shiftr_div by lia. change (2 ^ 6) with 64.
    by rewrite (head_octet _ _ 6 5) by (done || zbits).
  - change (Z.to_nat (3 - 1)) with 2%nat. cbn [put_octets].
    rewrite !tail_octet, !shiftr_div by lia. change (2 ^ 6) with 64. rewrite Z.div_div by lia.
    change (64 * 64) with 4096. by rewrite (head_octet _ _ 14 4) by (done || zbits).
Qed.

(** ** The promises *)

#[export] Instance utf2_path : AsciiPath _UTF2_mbrtowc _UTF2_wcrtomb want2.
Proof.
  split.
  - intros s n us b Hw Hn Hs Ha. apply arr_get_inv in Hs as [_ Hs]. destruct s as [|b' s]; [done|]. cbn in Hs.
    injection Hs as ->. rewrite utf2_fresh by done. unfold ascii_char in Ha. rewrite ascii_bits by (unfold byte; lia).
    rewrite (proj2 (Z.ltb_lt _ _)), (proj2 (Z.eqb_neq b 0)) by lia. done.
  - intros s n us w Hw Hn Eb. unfold _UTF2_mbrtowc. rewrite Hw. change ((0 <? 0) || (0 >? 6)) with false.
    rewrite bool_decide_eq_false_2 by done. rewrite (proj2 (Z.eqb_neq n 0)) by lia.
    cbn [default id Z.eqb]. by rewrite Eb.
  - intros s n us r E H1 H2. unfold _UTF2_mbrtowc in E. destruct (_ || _); [by simplify_eq|].
    rewrite bool_decide_eq_false_2 in E by done. cbn [default id] in E. destruct (n =? 0); [by simplify_eq|].
    assert (Hrest : forall s i w wch lb r', utf2_rest us s i w n wch lb = Ok r' ->
      mb_ret r' <> size_minus_1 -> mb_ret r' <> size_minus_2 -> want2 (mb_state r') = 0).
    { clear. intros s i w wch lb r' E H1 H2. unfold utf2_rest in E. inv_res.
      destruct a as [wch1|]; [|by simplify_eq]. repeat case_match; by simplify_eq. }
    inv_res. destruct (Z.eqb_spec (want2 us) 0) as [Hw|Hw]; [|by eapply Hrest].
    inv_res. destruct (Z.land _ _ =? 0); [by simplify_eq|].
    destruct (utf2_first_octet _) as [[[??]?]|]; [by eapply Hrest|by simplify_eq].
  - intros wc us Hw Ha. unfold ascii_wide in Ha. rewrite utf2_wcrtomb_spec, decide_True by (done || lia).
    unfold encode. by rewrite (proj2 (Z.ltb_lt _ _)) by lia.
  - intros wc us. unfold _UTF2_wcrtomb. repeat case_match; done.
Qed.

#[export] Instance utf2_strict : StrictDecoder _UTF2_init utf2_idle utf2_code.
Proof.
  intros us s n r c Hw Hb Hn E Hc. cbn [_UTF2_init __mbrtowc] in E. unfold utf2_idle in Hw.
  destruct (decide (n = 0)) as [->|Hn0].
  { unfold _UTF2_mbrtowc in E. rewrite Hw in E. cbn in E. by simplify_eq. }
  destruct s as [|b s]; [cbn in Hn; lia|]. apply Forall_cons in Hb as [Hbb Hb].
  rewrite utf2_fresh, ascii_bits in E by (done || lia). destruct (Z.ltb_spec b 0x80).
  { simplify_eq. cbn in Hc. injection Hc as <-. exists [b], s. split; [done|]. unfold utf2_code, encode, byte in *.
    rewrite (proj2 (Z.ltb_lt _ _)) by lia. cbn. split; [|lia]. split; [lia|done]. }
  destruct (utf2_first_octet b) as [[[mask w] lb]|] eqn:Hf; [|by simplify_eq].
  assert (Hw2 : 2 <= w <= 3 /\ 0 <= Z.land b mask < 32).
  { rewrite utf2_first_class in Hf by done. destruct (utf2_first_bits b Hbb) as [E1 E2]. unfold first_class in Hf.
    repeat case_match; simplify_eq; rewrite ?E1, ?E2; try lia; zbits. }
  destruct (Z.le_gt_cases w n) as [Hle|Hgt].
  - rewrite utf2_rest_complete in E; [|lia|done|cbn [length] in Hn; lia|by apply Forall_take|lia|].
    2: { assert (64 ^ (w - 1) <= 64 ^ 2) by (apply Z.pow_le_mono_r; lia). nia. }
    cbn zeta in E. set (t := take (Z.to_nat (w - 1)) s) in *.
    destruct (forallb continuation t) eqn:Ht; cbn [negb] in E; [|by simplify_eq].
    destruct (Z.ltb_spec (continue (Z.land b mask) t) lb); [by simplify_eq|]. injection E as <-. cbn in Hc. injection Hc as <-.
    assert (Hlt : Z.of_nat (length t) = w - 1) by (unfold t; rewrite length_take; cbn [length] in Hn; lia).
    exists (b :: t), (drop (Z.to_nat (w - 1)) s). split; [cbn [app]; unfold t; by rewrite take_drop|].
    split; [by eapply utf2_sequence|cbn [length]; lia].
  - unfold utf2_rest in E. destruct (utf2_octets _ _ _) as [[wch|]|]; cbn [rbind] in E; [|by simplify_eq|done].
    rewrite (proj2 (Z.ltb_lt _ w)) in E by lia. by simplify_eq.
Qed.

Lemma utf2_decode us c t n :
  want2 us = 0 -> 0 <= c < 0x10000 -> Z.of_nat (length (encode c)) <= n ->
  exists us', want2 us' = 0 /\
    _UTF2_mbrtowc (Some (encode c ++ t)) n us = Ok (Mbr (if c =? 0 then 0 else Z.of_nat (length (encode c))) (Some c) None us').
Proof.
  intros Hw Hc Hn. destruct (Z.lt_ge_cases c 0x80) as [Hlt|Hge].
  { exists us. split; [done|]. unfold encode in *. rewrite (proj2 (Z.ltb_lt _ _)) in * by lia. cbn [app length] in *.
    rewrite utf2_fresh, ascii_bits by (done || (unfold byte; lia)). by rewrite (proj2 (Z.ltb_lt _ _)) by lia. }
  destruct (utf2_encoded c ltac:(lia)) as (b & tl & mask & w & lb & E & Hb & Htl & Hb8 & Hf & Hl & Hw2 & Hct & Hcc & Hlb & H0 & Hm).
  rewrite E in *. cbn [app length] in *. rewrite utf2_fresh, ascii_bits by (done || lia).
  rewrite (proj2 (Z.ltb_ge b 0x80)) by lia. rewrite Hf.
  assert (Htk : take (Z.to_nat (w - 1)) (tl ++ t) = tl) by (replace (Z.to_nat (w - 1)) with (length tl) by lia; apply take_app_length).
  rewrite utf2_rest_complete; [|lia|lia|rewrite length_app; lia|by rewrite Htk|done|done]. rewrite Htk. cbn zeta.
  rewrite Hct, Hcc. cbn [negb]. rewrite (proj2 (Z.ltb_ge c lb)) by lia. eexists. split; [|repeat f_equal].
  - done.
  - destruct (Z.eqb_spec c 0); lia.
Qed.

#[export] Instance utf2_laws : EncodingLaws _UTF2_init utf2_initial utf2_idle utf2_code.
Proof.
  unfold utf2_idle. split; try done.
  - intros c bs [Hc ->]. unfold encode. repeat case_match; cbn; unfold UTF2_MB_CUR_MAX; lia.
  - intros us c bs t n Hw [Hc ->] Hn _. by apply utf2_decode.
  - intros us b Hw Hb. destruct (_UTF2_mbrtowc (Some [b]) 1 us) as [r|] eqn:E.
    + eapply (strict_decode_byte _ utf2_idle); [apply utf2_strict| |done|done|exact E|].
      { intros c' bs [_ ->] Hnil. pose proof (encode_length c') as Hl. rewrite Hnil in Hl. cbn in Hl. lia. }
      rewrite utf2_fresh in E by (done || lia). destruct (Z.land b _ =? 0); [by simplify_eq|].
      destruct (utf2_first_octet b) as [[[mask w] lb]|] eqn:Hf; [|by simplify_eq].
      unfold utf2_rest in E. apply utf2_first_want in Hf. replace (Z.to_nat (Z.min w 1 - 1)) with 0%nat in E by lia.
      cbn [utf2_octets rbind] in E. repeat case_match; by simplify_eq.
    + exfalso. rewrite utf2_fresh in E by (done || lia). destruct (Z.land b _ =? 0); [done|].
      destruct (utf2_first_octet b) as [[[mask w] lb]|] eqn:Hf; [|done]. apply utf2_first_want in Hf.
      unfold utf2_rest in E. replace (Z.to_nat (Z.min w 1 - 1)) with 0%nat in E by lia.
      cbn [utf2_octets rbind] in E. by repeat case_match.
  - intros us c bs Hw [Hc ->]. exists us. split; [done|]. cbn [_UTF2_init __wcrtomb].
    by rewrite utf2_wcrtomb_spec, decide_True.
  - intros dst src nms len us Hw Hn Hl. apply ascii_mbsnrtowcs_std; [done|lia].
  - intros dst src nwc len us Hw Hn Hl. by apply ascii_wcsnrtombs_std.
Qed.

(** ** Restarting *)

Lemma utf2_resume us us' s1 s2 i w n2 wch lb :
  0 <= i -> 1 <= w <= 6 -> 0 <= n2 <= Z.of_nat (length s2) -> 0 < i + Z.of_nat (length s1) ->
  utf2_rest us s1 i w (i + Z.of_nat (length s1)) wch lb = Ok (Mbr size_minus_2 None None us') ->
  0 < want2 us' <= 6 /\
  exists r' r, utf2_rest us' s2 0 (want2 us') n2 (ch2 us') (lbound us') = Ok r' /\
    utf2_rest us (s1 ++ s2) i w (i + Z.of_nat (length s1) + n2) wch lb = Ok r /\
    resumed_by utf2_eqv (i + Z.of_nat (length s1)) r' r.
Proof.
  intros Hi Hw Hn2 Hn1 H1. set (n1 := i + Z.of_nat (length s1)) in *. unfold utf2_rest in H1.
  destruct (utf2_octets (Z.to_nat (Z.min w n1 - i)) s1 wch) as [[wch1|]|] eqn:E1; cbn [rbind] in H1; [|done|done].
  destruct (Z.ltb_spec (Z.max i (Z.min w n1)) w) as [Hlt|]; [|by destruct (wch1 <? lb)].
  injection H1 as <-. cbn [want2 ch2 lbound]. split; [lia|].
  replace (Z.to_nat (Z.min w n1 - i)) with (length s1) in E1 by lia.
  replace (w - Z.max i (Z.min w n1)) with (w - n1) by lia. unfold utf2_rest.
  replace (Z.to_nat (Z.min w (n1 + n2) - i)) with (length s1 + Z.to_nat (Z.min (w - n1) n2))%nat by lia.
  rewrite utf2_octets_app, E1, Z.sub_0_r. cbn [rbind].
  destruct (utf2_octets_total (Z.to_nat (Z.min (w - n1) n2)) s2 wch1) as [[wch2|] ->]; [lia| |].
  - cbn [rbind]. rewrite (Z.max_r i) by lia. rewrite (Z.max_r 0) by lia.
    destruct (Z.ltb_spec (Z.min (w - n1) n2) (w - n1)); destruct (Z.ltb_spec (Z.min w (n1 + n2)) w); try lia.
    + eexists _, _. split; [done|]. split; [done|]. split; [done|]. split; [done|]. split; [done|].
      intros _. cbn [mb_state]. replace (w - Z.min w (n1 + n2)) with (w - n1 - Z.min (w - n1) n2) by lia.
      split; [done|by right].
    + destruct (wch2 <? lb); [eexists _, _; split; [done|]; split; [done|]; split; [done|]; split; [done|]; by split|].
      eexists _, _. split; [done|]. split; [done|]. split; [done|]. split; [done|].
      split; [|intros _; by split; [|left]]. cbn [mb_ret]. destruct (wch2 =? 0); [done|].
      rewrite bool_decide_eq_false_2; [lia|]. rewrite !elem_of_cons, elem_of_nil.
      unfold size_minus_1, size_minus_2. lia.
  - eexists _, _. split; [done|]. split; [done|]. split; [done|]. split; [done|]. by split.
Qed.

Lemma utf2_restart : Restartable _UTF2_mbrtowc utf2_valid utf2_eqv.
Proof.
  intros us us' s1 s2 n2 Hv Hne _ _ Hn2 H1. destruct s1 as [|b s1]; [done|]. unfold utf2_valid in *.
  assert (Hlen : Z.of_nat (length (b :: s1)) = 1 + Z.of_nat (length s1)) by (cbn [length]; lia).
  destruct (decide (want2 us = 0)) as [Hw|Hw].
  - rewrite utf2_fresh in H1 by (done || lia). cbn [app]. rewrite utf2_fresh by (done || lia).
    destruct (Z.land b _ =? 0); [by simplify_eq|].
    destruct (utf2_first_octet b) as [[[mask w] lb]|] eqn:Hf; [|by simplify_eq].
    apply utf2_first_want in Hf. rewrite Hlen in *.
    destruct (utf2_resume us us' s1 s2 1 w n2 (Z.land b mask) lb) as (Hw' & r' & r & E' & E & Hr); [lia|lia|lia|lia|done|].
    split; [lia|]. exists r', r. by rewrite utf2_pending by lia.
  - rewrite utf2_pending in H1 by lia. rewrite (utf2_pending us) by lia.
    destruct (utf2_resume us us' (b :: s1) s2 0 (want2 us) n2 (ch2 us) (lbound us)) as (Hw' & r' & r & E' & E & Hr);
      [lia|lia|lia|lia|done|].
    split; [lia|]. exists r', r. by rewrite utf2_pending by lia.
Qed.
