(* ===== verification/SingleByte.v ===== *)
(** * SingleByte: the encodings NONE and ASCII of the C library

    Model of [locale/FreeBSD/none.c] and [ascii.c]: a character is a byte, of
    any value or below 128.  There is no conversion state; the state type is
    [unit]. *)

From S2P Require Import Prelude Encoding EncodingText.

Definition UCHAR_MAX : Z := 255.

(** ** NONE *)

Definition _none_mbsinit (ps : option unit) : bool := true.

Definition _none_mbrtowc (s : option (list Z)) (n : Z) (ps : unit) : res (mbr unit) :=
  match s with
  | None => Ok (Mbr 0 None None ps)
  | Some s =>
      if n =? 0 then Ok (Mbr size_minus_2 None None ps)
      else
        let! b := arr_get s 0 in
        Ok (Mbr (if b =? 0 then 0 else 1) (Some b) None ps)
  end.

Definition _none_wcrtomb (s : bool) (wc : Z) (ps : unit) : wcr unit :=
  if negb s then Wcr 1 [] None ps
  else if (wc <? 0) || (wc >? UCHAR_MAX) then Wcr size_minus_1 [] (Some EILSEQ) ps
  else Wcr 1 [u8 wc] None ps.

(** [memchr(s, '\0', n)]: the offset found. *)
Fixpoint memchr_nul (s : list Z) (n pos : Z) : res (option Z) :=
  if n =? 0 then Ok None
  else
    match s with
    | [] => Crash OutOfBounds
    | b :: s => if b =? 0 then Ok (Some pos) else memchr_nul s (n - 1) (pos + 1)
    end.

Fixpoint none_mbs_loop (s : list Z) (nms len pos : Z) (dst : list Z) (ps : unit) : res (sconv unit) :=
  if negb ((0 <? len) && (0 <? nms)) then Ok (Sconv pos dst (Some pos) None ps)
  else
    match s with
    | [] => Crash OutOfBounds
    | b :: s =>
        if b =? 0 then Ok (Sconv pos (dst ++ [b]) None None ps)
        else none_mbs_loop s (nms - 1) (len - 1) (pos + 1) (dst ++ [b]) ps
    end.

Definition _none_mbsnrtowcs (dst : bool) (src : list Z) (nms len : Z) (ps : unit) : res (sconv unit) :=
  if negb dst then
    let! s := memchr_nul src nms 0 in
    Ok (Sconv (default nms s) [] (Some 0) None ps)
  else none_mbs_loop src nms len 0 [] ps.

(** The conversions back differ only in the largest character. *)
Fixpoint single_wcs_count (max : Z) (s : list Z) (nwc pos : Z) (ps : unit) : res (sconv unit) :=
  if negb (0 <? nwc) then Ok (Sconv pos [] (Some 0) None ps)
  else
    match s with
    | [] => Crash OutOfBounds
    | wc :: s =>
        if wc =? 0 then Ok (Sconv pos [] (Some 0) None ps)
        else if (wc <? 0) || (wc >? max) then Ok (Sconv size_minus_1 [] (Some 0) (Some EILSEQ) ps)
        else single_wcs_count max s (nwc - 1) (pos + 1) ps
    end.

Fixpoint single_wcs_loop (max : Z) (s : list Z) (nwc len pos : Z) (dst : list Z) (ps : unit) : res (sconv unit) :=
  if negb ((0 <? len) && (0 <? nwc)) then Ok (Sconv pos dst (Some pos) None ps)
  else
    match s with
    | [] => Crash OutOfBounds
    | wc :: s =>
        if (wc <? 0) || (wc >? max) then Ok (Sconv size_minus_1 dst (Some pos) (Some EILSEQ) ps)
        else if wc =? 0 then Ok (Sconv pos (dst ++ [u8 wc]) None None ps)
        else single_wcs_loop max s (nwc - 1) (len - 1) (pos + 1) (dst ++ [u8 wc]) ps
    end.

Definition _none_wcsnrtombs (dst : bool) (src : list Z) (nwc len : Z) (ps : unit) : res (sconv unit) :=
  if negb dst then single_wcs_count UCHAR_MAX src nwc 0 ps
  else single_wcs_loop UCHAR_MAX src nwc len 0 [] ps.

Definition _none_init : runelocale unit := {|
  __mbrtowc := _none_mbrtowc;
  __mbsinit := _none_mbsinit;
  __mbsnrtowcs := _none_mbsnrtowcs;
  __wcrtomb := _none_wcrtomb;
  __wcsnrtombs := _none_wcsnrtombs;
  __mb_cur_max := 1;
  __mb_sb_limit := 256
|}.

(** ** ASCII *)

Definition _ascii_mbsinit (ps : option unit) : bool := true.

Definition _ascii_mbrtowc (s : option (list Z)) (n : Z) (ps : unit) : res (mbr unit) :=
  match s with
  | None => Ok (Mbr 0 None None ps)
  | Some s =>
      if n =? 0 then Ok (Mbr size_minus_2 None None ps)
      else
        let! b := arr_get s 0 in
        if negb (Z.land b 0x80 =? 0) then Ok (Mbr size_minus_1 None (Some EILSEQ) ps)
        else Ok (Mbr (if b =? 0 then 0 else 1) (Some b) None ps)
  end.

Definition _ascii_wcrtomb (s : bool) (wc : Z) (ps : unit) : wcr unit :=
  if negb s then Wcr 1 [] None ps
  else if (wc <? 0) || (wc >? 127) then Wcr size_minus_1 [] (Some EILSEQ) ps
  else Wcr 1 [u8 wc] None ps.

Fixpoint ascii_mbs_count (s : list Z) (nms pos : Z) (ps : unit) : res (sconv unit) :=
  if negb (0 <? nms) then Ok (Sconv pos [] (Some 0) None ps)
  else
    match s with
    | [] => Crash OutOfBounds
    | b :: s =>
        if b =? 0 then Ok (Sconv pos [] (Some 0) None ps)
        else if negb (Z.land b 0x80 =? 0) then Ok (Sconv size_minus_1 [] (Some 0) (Some EILSEQ) ps)
        else ascii_mbs_count s (nms - 1) (pos + 1) ps
    end.

Fixpoint ascii_mbs_loop (s : list Z) (nms len pos : Z) (dst : list Z) (ps : unit) : res (sconv unit) :=
  if negb ((0 <? len) && (0 <? nms)) then Ok (Sconv pos dst (Some pos) None ps)
  else
    match s with
    | [] => Crash OutOfBounds
    | b :: s =>
        if negb (Z.land b 0x80 =? 0) then Ok (Sconv size_minus_1 dst (Some pos) (Some EILSEQ) ps)
        else if b =? 0 then Ok (Sconv pos (dst ++ [b]) None None ps)
        else ascii_mbs_loop s (nms - 1) (len - 1) (pos + 1) (dst ++ [b]) ps
    end.

Definition _ascii_mbsnrtowcs (dst : bool) (src : list Z) (nms len : Z) (ps : unit) : res (sconv unit) :=
  if negb dst then ascii_mbs_count src nms 0 ps
  else ascii_mbs_loop src nms len 0 [] ps.

Definition _ascii_wcsnrtombs (dst : bool) (src : list Z) (nwc len : Z) (ps : unit) : res (sconv unit) :=
  if negb dst then single_wcs_count 127 src nwc 0 ps
  else single_wcs_loop 127 src nwc len 0 [] ps.

Definition _ascii_init : runelocale unit := {|
  __mbrtowc := _ascii_mbrtowc;
  __mbsinit := _ascii_mbsinit;
  __mbsnrtowcs := _ascii_mbsnrtowcs;
  __wcrtomb := _ascii_wcrtomb;
  __wcsnrtombs := _ascii_wcsnrtombs;
  __mb_cur_max := 1;
  __mb_sb_limit := 128
|}.

(** ** Laws: NONE and ASCII are lawful encodings

    Their string conversions, loops over bytes of their own, are the standard
    ones. *)


(** A character of an encoding with characters up to [max]. *)
Definition single_code (max : Z) (c : Z) (bs : list Z) : Prop := 0 <= c <= max /\ bs = [c].

Lemma ascii_bit b : byte b -> negb (Z.land b 0x80 =? 0) = (127 <? b).
Proof. revert b. by apply (byte_ind _). Qed.

(** ** NONE *)

Lemma none_count_std s : forall fuel nms pos,
  0 <= nms < 2 ^ 64 -> (length s < fuel)%nat ->
  (let! r := memchr_nul s nms pos in Ok (Sconv (default (pos + nms) r) [] (Some 0) None tt)) =
    std_mbs_count _none_mbrtowc fuel s nms pos tt.
Proof.
  induction s as [|b s IH]; intros fuel nms pos Hn Hf; (destruct fuel as [|fuel]; [cbn in Hf; lia|]);
    cbn [memchr_nul std_mbs_count _none_mbrtowc]; (destruct (Z.eqb_spec nms 0) as [->|Hz]; [cbn; by rewrite Z.add_0_r|]).
  - done.
  - change (arr_get (b :: s) 0) with (Ok b). cbn [rbind mb_ret mb_state].
    destruct (Z.eqb_spec b 0); [done|]. change (1 =? size_minus_1) with false.
    change ((1 =? 0) || (1 =? size_minus_2)) with false. cbn iota. change (Z.to_nat 1) with 1%nat.
    cbn [drop]. rewrite drop_0, u64_small by lia. rewrite <-IH by (cbn in Hf; lia).
    by replace (pos + 1 + (nms - 1)) with (pos + nms) by lia.
Qed.

Lemma none_mbs_loop_std s : forall nms len pos dst,
  0 <= nms < 2 ^ 64 -> 0 <= len ->
  none_mbs_loop s nms len pos dst tt = std_mbs_loop _none_mbrtowc (Z.to_nat len) s nms pos pos dst tt.
Proof.
  induction s as [|b s IH]; intros nms len pos dst Hn Hl; cbn [none_mbs_loop];
    (destruct (Z.ltb_spec 0 len); [|by replace (Z.to_nat len) with 0%nat by lia]);
    replace (Z.to_nat len) with (S (Z.to_nat (len - 1))) by lia; cbn [std_mbs_loop _none_mbrtowc andb];
    (destruct (Z.ltb_spec 0 nms); [rewrite (proj2 (Z.eqb_neq nms 0)) by lia
                                  |replace nms with 0 by lia; cbn; by rewrite Z.add_0_r, app_nil_r]).
  - done.
  - change (arr_get (b :: s) 0) with (Ok b). cbn [negb rbind mb_ret mb_pwc mb_state].
    change (option_list (Some b)) with [b].
    destruct (Z.eqb_spec b 0); [done|]. change (1 =? size_minus_1) with false.
    change (1 =? size_minus_2) with false. change (1 =? 0) with false. cbn iota. change (Z.to_nat 1) with 1%nat.
    cbn [drop]. rewrite drop_0, u64_small by lia. apply IH; lia.
Qed.

(** ** ASCII *)

Lemma ascii_count_std s : forall fuel nms pos,
  0 <= nms < 2 ^ 64 -> (length s < fuel)%nat ->
  ascii_mbs_count s nms pos tt = std_mbs_count _ascii_mbrtowc fuel s nms pos tt.
Proof.
  induction s as [|b s IH]; intros fuel nms pos Hn Hf; (destruct fuel as [|fuel]; [cbn in Hf; lia|]);
    cbn [ascii_mbs_count std_mbs_count _ascii_mbrtowc];
    (destruct (Z.ltb_spec 0 nms); [rewrite (proj2 (Z.eqb_neq nms 0)) by lia|by replace nms with 0 by lia]).
  - done.
  - change (arr_get (b :: s) 0) with (Ok b). cbn [negb rbind].
    destruct (Z.eqb_spec b 0) as [->|]; [done|].
    destruct (negb (Z.land b 128 =? 0)); [done|]. cbn [rbind mb_ret mb_state]. change (1 =? size_minus_1) with false.
    change ((1 =? 0) || (1 =? size_minus_2)) with false. cbn iota. change (Z.to_nat 1) with 1%nat.
    cbn [drop]. rewrite drop_0, u64_small by lia. apply IH; [lia|cbn in Hf; lia].
Qed.

Lemma ascii_mbs_loop_std s : forall nms len pos dst,
  0 <= nms < 2 ^ 64 -> 0 <= len ->
  ascii_mbs_loop s nms len pos dst tt = std_mbs_loop _ascii_mbrtowc (Z.to_nat len) s nms pos pos dst tt.
Proof.
  induction s as [|b s IH]; intros nms len pos dst Hn Hl; cbn [ascii_mbs_loop];
    (destruct (Z.ltb_spec 0 len); [|by replace (Z.to_nat len) with 0%nat by lia]);
    replace (Z.to_nat len) with (S (Z.to_nat (len - 1))) by lia; cbn [std_mbs_loop _ascii_mbrtowc andb];
    (destruct (Z.ltb_spec 0 nms); [rewrite (proj2 (Z.eqb_neq nms 0)) by lia
                                  |replace nms with 0 by lia; cbn; by rewrite Z.add_0_r, app_nil_r]).
  - done.
  - change (arr_get (b :: s) 0) with (Ok b). cbn [negb rbind].
    destruct (negb (Z.land b 128 =? 0)); [cbn; by rewrite app_nil_r|]. cbn [rbind mb_ret mb_pwc mb_state].
    change (option_list (Some b)) with [b].
    destruct (Z.eqb_spec b 0); [done|]. change (1 =? size_minus_1) with false.
    change (1 =? size_minus_2) with false. change (1 =? 0) with false. cbn iota. change (Z.to_nat 1) with 1%nat.
    cbn [drop]. rewrite drop_0, u64_small by lia. apply IH; lia.
Qed.

(** ** Back, for both *)

Section Wide.
Context (max : Z) (wcrtomb : bool -> Z -> unit -> wcr unit).
Context (Hmax : 0 <= max < 256).
Context (Hw : forall wc, wcrtomb true wc tt =
  if (wc <? 0) || (wc >? max) then Wcr size_minus_1 [] (Some EILSEQ) tt else Wcr 1 [u8 wc] None tt).

Lemma single_wcs_count_std s : forall nwc pos,
  0 <= nwc -> 0 <= pos -> nwc + pos < 2 ^ 64 ->
  single_wcs_count max s nwc pos tt = std_wcs_count wcrtomb s nwc pos tt.
Proof.
  induction s as [|wc s IH]; intros nwc pos Hn Hp H64; cbn [single_wcs_count std_wcs_count]; [done|].
  destruct (Z.ltb_spec 0 nwc); [|done]. cbn [negb]. rewrite Hw.
  destruct (Z.eqb_spec wc 0) as [->|]; cbn [Z.ltb Z.compare orb].
  - rewrite Z.gtb_ltb, (proj2 (Z.ltb_ge _ _)) by lia. cbn [wc_ret wc_state]. change (1 =? size_minus_1) with false.
    cbn iota. rewrite u64_small by lia. by replace (pos + 1 - 1) with pos by lia.
  - destruct ((wc <? 0) || (wc >? max)); [done|]. cbn [wc_ret wc_state]. change (1 =? size_minus_1) with false.
    cbn iota. rewrite u64_small by lia. apply IH; lia.
Qed.

Lemma single_wcs_loop_std s : forall nwc len pos dst,
  0 <= nwc -> 0 <= len -> 0 <= pos -> nwc + pos < 2 ^ 64 ->
  single_wcs_loop max s nwc len pos dst tt = std_wcs_loop wcrtomb 1 s nwc len pos pos dst tt.
Proof.
  induction s as [|wc s IH]; intros nwc len pos dst Hn Hl Hp H64; cbn [single_wcs_loop std_wcs_loop]; [done|].
  destruct (Z.ltb_spec 0 len); [|done]. destruct (Z.ltb_spec 0 nwc); [|done]. cbn [negb andb]. rewrite Hw.
  destruct ((wc <? 0) || (wc >? max)); [done|]. cbn [wc_ret wc_state wc_bytes]. change (1 =? size_minus_1) with false.
  rewrite (Z.gtb_ltb 1 len), (proj2 (Z.ltb_ge len 1)), andb_false_r by lia. cbn iota.
  destruct (wc =? 0); [rewrite u64_small by lia; by replace (pos + 1 - 1) with pos by lia|]. apply IH; lia.
Qed.

Lemma single_encode c bs : single_code max c bs -> wcrtomb true c tt = Wcr (Z.of_nat (length bs)) bs None tt.
Proof.
  intros [Hc ->]. rewrite Hw, Z.gtb_ltb, !(proj2 (Z.ltb_ge _ _)) by lia. cbn [orb]. by rewrite u8_small by lia.
Qed.
End Wide.

(** ** Laws *)

#[export] Instance none_strict : StrictDecoder _none_init (fun _ => True) (single_code UCHAR_MAX).
Proof.
  intros [] s n r c _ Hb Hn E Hc. cbn -[Z.eqb] in E. destruct (Z.eqb_spec n 0); [by simplify_eq|].
  destruct s as [|b s]; [cbn in Hn; lia|]. cbn in E. injection E as <-. injection Hc as <-.
  apply Forall_cons in Hb as [Hb _]. exists [b], s. split; [done|].
  split; [split; [unfold byte in Hb; unfold UCHAR_MAX; lia|done]|cbn; lia].
Qed.

#[export] Instance none_laws : EncodingLaws _none_init tt (fun _ => True) (single_code UCHAR_MAX).
Proof.
  split; try done.
  - intros c bs [_ ->]. done.
  - intros [] c bs t n _ [Hc ->] Hn _. exists tt. split; [done|]. cbn -[Z.eqb]. cbn in Hn.
    by rewrite (proj2 (Z.eqb_neq n 0)) by lia.
  - intros [] b _ Hb. apply (strict_decode_byte _ (fun _ => True) _ _ _ (Mbr (if b =? 0 then 0 else 1) (Some b) None tt));
      try done; [apply none_strict|]. by intros ? ? [_ ->].
  - intros [] c bs _ Hc. exists tt. split; [done|]. by apply (single_encode UCHAR_MAX).
  - intros [|] src nms len [] _ Hn Hl; [apply none_mbs_loop_std; lia|].
    cbn [__mbsnrtowcs _none_init _none_mbsnrtowcs negb]. unfold __mbsnrtowcs_std. rewrite <-none_count_std by lia. done.
  - intros [|] src nwc len [] _ Hn Hl; [apply single_wcs_loop_std|apply single_wcs_count_std]; done || lia.
Qed.

#[export] Instance ascii_strict : StrictDecoder _ascii_init (fun _ => True) (single_code 127).
Proof.
  intros [] s n r c _ Hb Hn E Hc. cbn [__mbrtowc _ascii_init _ascii_mbrtowc] in E.
  destruct (Z.eqb_spec n 0); [by simplify_eq|].
  destruct s as [|b s]; [cbn in Hn; lia|]. apply Forall_cons in Hb as [Hb _].
  change (arr_get (b :: s) 0) with (Ok b) in E. cbn [rbind] in E. rewrite ascii_bit in E by done.
  destruct (Z.ltb_spec 127 b); [by simplify_eq|]. injection E as <-. injection Hc as <-.
  exists [b], s. split; [done|]. split; [split; [unfold byte in Hb; lia|done]|cbn; lia].
Qed.

#[export] Instance ascii_laws : EncodingLaws _ascii_init tt (fun _ => True) (single_code 127).
Proof.
  split; try done.
  - intros c bs [_ ->]. done.
  - intros [] c bs t n _ [Hc ->] Hn _. exists tt. split; [done|]. cbn [__mbrtowc _ascii_init _ascii_mbrtowc].
    cbn in Hn. rewrite (proj2 (Z.eqb_neq n 0)) by lia. change (arr_get ([c] ++ t) 0) with (Ok c). cbn [rbind].
    rewrite ascii_bit by (unfold byte; lia). by rewrite (proj2 (Z.ltb_ge _ _)) by lia.
  - intros [] b _ Hb. eapply (strict_decode_byte _ (fun _ => True)); [apply ascii_strict|by intros ? ? [_ ->]|done|done| |].
    + cbn [__mbrtowc _ascii_init _ascii_mbrtowc Z.eqb]. change (arr_get [b] 0) with (Ok b). cbn [rbind].
      instantiate (1 := if negb (Z.land b 0x80 =? 0) then _ else _). by destruct (negb (Z.land b 0x80 =? 0)).
    + by destruct (negb (Z.land b 0x80 =? 0)).
  - intros [] c bs _ Hc. exists tt. split; [done|]. by apply (single_encode 127).
  - intros [|] src nms len [] _ Hn Hl; [apply ascii_mbs_loop_std; lia|apply ascii_count_std; lia].
  - intros [|] src nwc len [] _ Hn Hl; [apply single_wcs_loop_std|apply single_wcs_count_std]; done || lia.
Qed.
