(* ===== verification/DoubleByte.v ===== *)
(** * DoubleByte: the encodings GBK, Big5 and Shift JIS of the C library

    Model of [locale/FreeBSD/gbk.c], [big5.c] and [mskanji.c].  A character is
    one byte, or a lead byte and any byte but NUL.  The three decoders are the
    same but for which bytes lead; the state is the lead byte that is pending,
    or 0. *)

From S2P Require Import Prelude Encoding EncodingText.

Record lead_state := LeadSt { lead_ch : Z }.

(** The decoder, up to the test for a lead byte. *)
Definition lead_mbrtowc (leads : Z -> bool) (s : option (list Z)) (n : Z) (gs : lead_state)
    : res (mbr lead_state) :=
  if negb (Z.land (lead_ch gs) (Z.lnot 0xff) =? 0) then Ok (Mbr size_minus_1 None (Some EINVAL) gs)
  else
    let null := bool_decide (s = None) in
    let n := if null then 1 else n in
    let s := default [0] s in
    let store wc := if null then None else Some wc in
    if n =? 0 then Ok (Mbr size_minus_2 None None gs)
    else if negb (lead_ch gs =? 0) then
      let! b := arr_get s 0 in
      if b =? 0 then Ok (Mbr size_minus_1 None (Some EILSEQ) gs)
      else Ok (Mbr 1 (store (Z.lor (Z.shiftl (lead_ch gs) 8) (Z.land b 0xff))) None (LeadSt 0))
    else
      let! b := arr_get s 0 in
      let wc := Z.land b 0xff in
      if leads b then
        if n <? 2 then Ok (Mbr size_minus_2 None None (LeadSt wc))
        else
          let! b := arr_get s 1 in
          if b =? 0 then Ok (Mbr size_minus_1 None (Some EILSEQ) gs)
          else Ok (Mbr 2 (store (Z.lor (Z.shiftl wc 8) (Z.land b 0xff))) None gs)
      else Ok (Mbr (if wc =? 0 then 0 else 1) (store wc) None gs).

Definition lead_mbsinit (ps : option lead_state) : bool :=
  match ps with
  | None => true
  | Some gs => lead_ch gs =? 0
  end.

(** The encoder of GBK, of Big5 and of GB 2312, for a state that is initial or
    not. *)
Definition high_bit_wcrtomb {St} (initial : St -> bool) (s : bool) (wc : Z) (gs : St) : wcr St :=
  if negb (initial gs) then Wcr size_minus_1 [] (Some EINVAL) gs
  else if negb s then Wcr 1 [] None gs
  else if negb (Z.land wc 0x8000 =? 0) then
    Wcr 2 [Z.land (Z.shiftr wc 8) 0xff; Z.land wc 0xff] None gs
  else Wcr 1 [Z.land wc 0xff] None gs.

(** A locale of an encoding that has no string conversions of its own. *)
Definition std_runelocale {St} (mbrtowc : option (list Z) -> Z -> St -> res (mbr St))
    (wcrtomb : bool -> Z -> St -> wcr St) (mbsinit : option St -> bool) (mb_cur_max mb_sb_limit : Z)
    : runelocale St := {|
  __mbrtowc := mbrtowc;
  __wcrtomb := wcrtomb;
  __mbsinit := mbsinit;
  __mbsnrtowcs := __mbsnrtowcs_std mbrtowc;
  __wcsnrtombs := __wcsnrtombs_std wcrtomb mb_cur_max;
  __mb_cur_max := mb_cur_max;
  __mb_sb_limit := mb_sb_limit
|}.

(** ** GBK *)

Definition _gbk_check (c : Z) : Z :=
  let c := Z.land c 0xff in
  if (c >=? 0x81) && (c <=? 0xfe) then 2 else 1.

Definition _GBK_mbsinit : option lead_state -> bool := lead_mbsinit.

Definition _GBK_mbrtowc : option (list Z) -> Z -> lead_state -> res (mbr lead_state) :=
  lead_mbrtowc (fun b => _gbk_check b =? 2).

Definition _GBK_wcrtomb : bool -> Z -> lead_state -> wcr lead_state :=
  high_bit_wcrtomb (fun gs => lead_ch gs =? 0).

Definition _GBK_init : runelocale lead_state :=
  std_runelocale _GBK_mbrtowc _GBK_wcrtomb _GBK_mbsinit 2 128.

(** ** Big5 *)

Definition _big5_check (c : Z) : Z :=
  let c := Z.land c 0xff in
  if (c >=? 0xa1) && (c <=? 0xfe) then 2 else 1.

Definition _BIG5_mbsinit : option lead_state -> bool := lead_mbsinit.

Definition _BIG5_mbrtowc : option (list Z) -> Z -> lead_state -> res (mbr lead_state) :=
  lead_mbrtowc (fun b => _big5_check b =? 2).

Definition _BIG5_wcrtomb : bool -> Z -> lead_state -> wcr lead_state :=
  high_bit_wcrtomb (fun bs => lead_ch bs =? 0).

Definition _BIG5_init : runelocale lead_state :=
  std_runelocale _BIG5_mbrtowc _BIG5_wcrtomb _BIG5_mbsinit 2 128.

(** ** Shift JIS *)

Definition mskanji_lead (b : Z) : bool :=
  let wc := Z.land b 0xff in
  ((wc >? 0x80) && (wc <? 0xa0)) || ((wc >=? 0xe0) && (wc <? 0xfd)).

Definition _MSKanji_mbsinit : option lead_state -> bool := lead_mbsinit.

Definition _MSKanji_mbrtowc : option (list Z) -> Z -> lead_state -> res (mbr lead_state) :=
  lead_mbrtowc mskanji_lead.

(** [for (i = len; i-- > 0; ) *s++ = wc >> (i << 3);] *)
Fixpoint put_bytes (i : nat) (wc : Z) : list Z :=
  match i with
  | O => []
  | S i => u8 (Z.shiftr wc (8 * Z.of_nat i)) :: put_bytes i wc
  end.

Definition _MSKanji_wcrtomb (s : bool) (wc : Z) (ms : lead_state) : wcr lead_state :=
  if negb (lead_ch ms =? 0) then Wcr size_minus_1 [] (Some EINVAL) ms
  else if negb s then Wcr 1 [] None ms
  else
    let len := if wc >? 0x100 then 2 else 1 in
    Wcr len (put_bytes (Z.to_nat len) wc) None ms.

Definition _MSKanji_init : runelocale lead_state :=
  std_runelocale _MSKanji_mbrtowc _MSKanji_wcrtomb _MSKanji_mbsinit 2 256.

(** ** Laws: GBK, Big5 and Shift JIS are lawful and restartable *)


Section Lead.
Context (leads : Z -> bool).
Context (leads_range : forall b, byte b -> leads b = true -> 0x81 <= b <= 0xfe).

(** A byte that does not lead, or a lead byte and a byte that is not NUL. *)
Definition lead_code (c : Z) (bs : list Z) : Prop :=
  (byte c /\ leads c = false /\ bs = [c]) \/
  exists l b, byte l /\ leads l = true /\ byte b /\ b <> 0 /\ c = l * 256 + b /\ bs = [l; b].

Definition lead_idle (gs : lead_state) : Prop := lead_ch gs = 0.

Lemma lead_value l b : byte l -> byte b -> Z.lor (Z.shiftl l 8) (Z.land b 0xff) = l * 256 + b.
Proof. intros Hl Hb. rewrite land_byte by done. by rewrite lor_shift by (done || lia). Qed.

(** The decoder with nothing pending. *)
Lemma lead_fresh b s n gs :
  lead_idle gs -> byte b -> 0 < n ->
  lead_mbrtowc leads (Some (b :: s)) n gs =
    if leads b then
      if n <? 2 then Ok (Mbr size_minus_2 None None (LeadSt b))
      else
        let! b' := arr_get s 0 in
        if b' =? 0 then Ok (Mbr size_minus_1 None (Some EILSEQ) gs)
        else Ok (Mbr 2 (Some (Z.lor (Z.shiftl b 8) (Z.land b' 0xff))) None gs)
    else Ok (Mbr (if b =? 0 then 0 else 1) (Some b) None gs).
Proof.
  intros Hi Hb Hn. unfold lead_mbrtowc. rewrite Hi. change (negb (Z.land 0 (Z.lnot 255) =? 0)) with false.
  rewrite bool_decide_eq_false_2 by done. cbn [default id]. rewrite (proj2 (Z.eqb_neq n 0)) by lia.
  cbn [Z.eqb negb]. change (arr_get (b :: s) 0) with (Ok b). cbn [rbind]. rewrite land_byte by done.
  by replace (arr_get (b :: s) 1) with (arr_get s 0).
Qed.

(** The decoder with a lead byte pending. *)
Lemma lead_pending s n l :
  byte l -> l <> 0 -> 0 <= n ->
  lead_mbrtowc leads (Some s) n (LeadSt l) =
    if n =? 0 then Ok (Mbr size_minus_2 None None (LeadSt l))
    else
      let! b := arr_get s 0 in
      if b =? 0 then Ok (Mbr size_minus_1 None (Some EILSEQ) (LeadSt l))
      else Ok (Mbr 1 (Some (Z.lor (Z.shiftl l 8) (Z.land b 0xff))) None (LeadSt 0)).
Proof.
  intros Hl H0 Hn. unfold lead_mbrtowc. cbn [lead_ch].
  assert (Z.land l (Z.lnot 0xff) = 0) as -> by (by apply (land_above l 8)).
  cbn [Z.eqb negb]. rewrite bool_decide_eq_false_2 by done. by rewrite (proj2 (Z.eqb_neq l 0)) by done.
Qed.

(** ** Laws, for any encoder that writes the codes *)

Context (wcrtomb : bool -> Z -> lead_state -> wcr lead_state) (sb_limit : Z).
Context (encodes : forall gs c bs, lead_idle gs -> lead_code c bs ->
  wcrtomb true c gs = Wcr (Z.of_nat (length bs)) bs None gs).
Context (leads_nul : leads 0 = false).

Lemma lead_strict :
  StrictDecoder (std_runelocale (lead_mbrtowc leads) wcrtomb lead_mbsinit 2 sb_limit) lead_idle lead_code.
Proof.
  intros gs s n r c Hi Hb Hn E Hc. cbn [std_runelocale __mbrtowc] in E.
  destruct (decide (n = 0)) as [->|].
  { unfold lead_mbrtowc in E. rewrite Hi in E. cbn in E. injection E as <-. done. }
  destruct s as [|b s]; [cbn in Hn; lia|]. apply Forall_cons in Hb as [Hb Hs].
  rewrite lead_fresh in E by (done || lia). destruct (leads b) eqn:Hl.
  - destruct (Z.ltb_spec n 2); [by simplify_eq|]. destruct s as [|b' s]; [cbn in Hn; lia|].
    change (arr_get (b' :: s) 0) with (Ok b') in E. cbn [rbind] in E. apply Forall_cons in Hs as [Hb' _].
    destruct (Z.eqb_spec b' 0); [by simplify_eq|]. injection E as <-. injection Hc as <-.
    exists [b; b'], s. split; [done|]. split; [|cbn; lia]. right. exists b, b'.
    rewrite lead_value by done. repeat split; done || apply Hb || apply Hb'.
  - injection E as <-. injection Hc as <-. exists [b], s. split; [done|]. split; [by left|cbn; lia].
Qed.

Lemma lead_laws :
  EncodingLaws (std_runelocale (lead_mbrtowc leads) wcrtomb lead_mbsinit 2 sb_limit) (LeadSt 0) lead_idle lead_code.
Proof.
  split; try done.
  - intros c bs [(_ & _ & ->)|(l & b & _ & _ & _ & _ & _ & ->)]; cbn; lia.
  - left. repeat split; try done; unfold byte; lia.
  - intros gs c bs t n Hi [(Hb & Hl & ->)|(l & b & Hlb & Hl & Hb & H0 & -> & ->)] Hn _; cbn [length] in Hn;
      exists gs; (split; [done|]); cbn [app std_runelocale __mbrtowc]; rewrite lead_fresh by (done || lia); rewrite Hl.
    + by destruct (c =? 0).
    + rewrite (proj2 (Z.ltb_ge n 2)) by lia. change (arr_get (b :: t) 0) with (Ok b). cbn [rbind].
      rewrite (proj2 (Z.eqb_neq b 0)) by done. rewrite lead_value by done.
      rewrite (proj2 (Z.eqb_neq (l * 256 + b) 0)); [done|]. pose proof (leads_range l Hlb Hl). unfold byte in Hb. lia.
  - intros gs b Hi Hb. eapply strict_decode_byte;
      [apply lead_strict|by intros c' bs [(_ & _ & ->)|(l & b' & _ & _ & _ & _ & _ & ->)]|done|done| |].
    + cbn [std_runelocale __mbrtowc]. rewrite lead_fresh by done. cbn [Z.ltb Z.compare].
      instantiate (1 := if leads b then _ else _). by destruct (leads b).
    + by destruct (leads b).
  - intros gs c bs Hi Hc. exists gs. split; [done|]. by apply encodes.
Qed.

Lemma lead_restart : Restartable (lead_mbrtowc leads) (fun gs => byte (lead_ch gs)) eq.
Proof.
  intros [l] st' s1 s2 n2 Hl Hne Hb1 _ Hn2 E1. cbn in Hl. destruct s1 as [|b s1]; [done|].
  apply Forall_cons in Hb1 as [Hb _]. cbn [length] in *. rewrite Nat2Z.inj_succ in *.
  destruct (decide (l = 0)) as [->|Hl0].
  2: { rewrite lead_pending, (proj2 (Z.eqb_neq _ 0)) in E1 by (done || lia).
       change (arr_get (b :: s1) 0) with (Ok b) in E1. cbn [rbind] in E1. by destruct (b =? 0). }
  rewrite lead_fresh in E1 by (done || lia). destruct (leads b) eqn:Hlb; [|done].
  destruct s1 as [|b1 s1].
  2: { cbn [length] in E1. rewrite (proj2 (Z.ltb_ge _ 2)) in E1 by lia.
       change (arr_get (b1 :: s1) 0) with (Ok b1) in E1. cbn [rbind] in E1. by destruct (b1 =? 0). }
  injection E1 as <-. split; [done|]. cbn [length app]. change (Z.succ (Z.of_nat 0)) with 1.
  pose proof (leads_range b Hb Hlb). rewrite lead_pending, lead_fresh, Hlb by (done || lia).
  destruct (Z.eqb_spec n2 0) as [->|Hn0].
  { eexists _, _. split; [done|]. split; [done|]. by split. }
  rewrite (proj2 (Z.ltb_ge _ 2)) by lia. destruct s2 as [|b2 s2]; [cbn in Hn2; lia|].
  change (arr_get (b2 :: s2) 0) with (Ok b2). cbn [rbind].
  destruct (b2 =? 0); eexists _, _; (split; [done|]); (split; [done|]); by split.
Qed.
End Lead.

(** ** The three encodings *)

Lemma gbk_leads b : byte b -> (_gbk_check b =? 2) = (0x81 <=? b) && (b <=? 0xfe).
Proof. revert b. by apply (byte_ind _). Qed.

Lemma big5_leads b : byte b -> (_big5_check b =? 2) = (0xa1 <=? b) && (b <=? 0xfe).
Proof. revert b. by apply (byte_ind _). Qed.

Lemma mskanji_leads b :
  byte b -> mskanji_lead b = (0x81 <=? b) && (b <=? 0x9f) || (0xe0 <=? b) && (b <=? 0xfc).
Proof. revert b. by apply (byte_ind _). Qed.

(** Writing the high byte, then the low one. *)
Lemma code_bytes l b : byte l -> byte b ->
  Z.land (Z.shiftr (l * 256 + b) 8) 0xff = l /\ Z.land (l * 256 + b) 0xff = b.
Proof.
  unfold byte. intros Hl Hb. change 255 with (2 ^ 8 - 1). rewrite !land_mask, shiftr_div by lia. zbits.
Qed.

Lemma high_bit_of c : 0 <= c < 0x10000 -> negb (Z.land c 0x8000 =? 0) = (0x8000 <=? c).
Proof.
  intros Hc. change 0x8000 with ((2 ^ 1 - 1) * 2 ^ 15) at 1. rewrite land_field by lia.
  destruct (Z.leb_spec 0x8000 c); [rewrite (proj2 (Z.eqb_neq _ _)) by zbits|rewrite (proj2 (Z.eqb_eq _ _)) by zbits]; done.
Qed.

Lemma high_bit_encodes {St} (initial : St -> bool) leads gs c bs :
  (forall b, byte b -> leads b = true -> 0x81 <= b <= 0xfe) ->
  initial gs = true -> lead_code leads c bs ->
  high_bit_wcrtomb initial true c gs = Wcr (Z.of_nat (length bs)) bs None gs.
Proof.
  intros Hr Hi [(Hb & _ & ->)|(l & b & Hlb & Hl & Hb & _ & -> & ->)]; unfold high_bit_wcrtomb; rewrite Hi; cbn [negb].
  - unfold byte in Hb. rewrite high_bit_of, (proj2 (Z.leb_gt _ _)) by lia. by rewrite land_byte.
  - pose proof (Hr l Hlb Hl). destruct (code_bytes l b Hlb Hb) as [-> ->]. unfold byte in *.
    by rewrite high_bit_of, (proj2 (Z.leb_le _ _)) by lia.
Qed.

Lemma lead_initial gs : lead_idle gs -> (lead_ch gs =? 0) = true.
Proof. apply Z.eqb_eq. Qed.

Lemma gbk_range b : byte b -> (_gbk_check b =? 2) = true -> 0x81 <= b <= 0xfe.
Proof. intros Hb. rewrite gbk_leads by done. lia. Qed.

Lemma big5_range b : byte b -> (_big5_check b =? 2) = true -> 0x81 <= b <= 0xfe.
Proof. intros Hb. rewrite big5_leads by done. lia. Qed.

Lemma mskanji_range b : byte b -> mskanji_lead b = true -> 0x81 <= b <= 0xfe.
Proof. intros Hb. rewrite mskanji_leads by done. lia. Qed.

(** Codes described by byte ranges alone: single bytes, and pairs of a lead and
    a trail byte, numbered with the lead byte first. *)
Definition byte_codes (single lead trail : Z -> Prop) (c : Z) (bs : list Z) : Prop :=
  single c /\ bs = [c] \/
  exists l t, lead l /\ trail t /\ c = l * 256 + t /\ bs = [l; t].

(** The codes the library takes for characters.  Any byte but NUL may follow a
    lead byte, and every other byte is a character. *)
Definition gbk_code : Z -> list Z -> Prop :=
  byte_codes (fun b => 0 <= b <= 0x80 \/ b = 0xff) (fun b => 0x81 <= b <= 0xfe) (fun b => 1 <= b <= 0xff).
Definition big5_code : Z -> list Z -> Prop :=
  byte_codes (fun b => 0 <= b <= 0xa0 \/ b = 0xff) (fun b => 0xa1 <= b <= 0xfe) (fun b => 1 <= b <= 0xff).
Definition mskanji_code : Z -> list Z -> Prop :=
  byte_codes (fun b => 0 <= b <= 0x80 \/ 0xa0 <= b <= 0xdf \/ 0xfd <= b <= 0xff)
    (fun b => 0x81 <= b <= 0x9f \/ 0xe0 <= b <= 0xfc) (fun b => 1 <= b <= 0xff).

(** The codes of the manual pages gbk.5, big5.5 and mskanji.5. *)
Definition gbk_manual : Z -> list Z -> Prop :=
  byte_codes (fun b => 0 <= b <= 0x7f) (fun b => 0x80 <= b <= 0xfe) (fun b => 0x40 <= b <= 0xfe).
Definition big5_manual : Z -> list Z -> Prop :=
  byte_codes (fun b => 0 <= b <= 0x7f) (fun b => 0xa1 <= b <= 0xfe) (fun b => 0x40 <= b <= 0xfe).
Definition mskanji_manual : Z -> list Z -> Prop :=
  byte_codes (fun b => 0 <= b <= 0x7f \/ 0xa1 <= b <= 0xdf)
    (fun b => 0x81 <= b <= 0x9f \/ 0xe0 <= b <= 0xea \/ 0xed <= b <= 0xee \/ 0xf0 <= b <= 0xfc)
    (fun b => 0x40 <= b <= 0xfc /\ b <> 0x7f).

Lemma byte_codes_mono (single lead trail single' lead' trail' : Z -> Prop) c bs :
  (forall b, single b -> single' b) -> (forall b, lead b -> lead' b) -> (forall b, trail b -> trail' b) ->
  byte_codes single lead trail c bs -> byte_codes single' lead' trail' c bs.
Proof. intros Hs Hl Ht [[? ->]|(l & t & ? & ? & -> & ->)]; [left; auto|right; exists l, t; auto]. Qed.

Lemma big5_manual_read c bs : big5_manual c bs -> big5_code c bs.
Proof. apply byte_codes_mono; lia. Qed.

Lemma mskanji_manual_read c bs : mskanji_manual c bs -> mskanji_code c bs.
Proof. apply byte_codes_mono; lia. Qed.

(** The code takes 0x80 for a character of its own. *)
Lemma gbk_manual_read c bs : gbk_manual c bs -> bs !! 0%nat <> Some 0x80 -> gbk_code c bs.
Proof.
  intros [[Hc ->]|(l & t & Hl & Ht & -> & ->)] Hne; [left; split; [lia|done]|right; exists l, t].
  assert (l <> 0x80) by (intros ->; by apply Hne). repeat split; lia || done.
Qed.

(** The ranges are those the decoders test. *)
Lemma byte_codes_lead leads (single lead : Z -> Prop) c bs :
  (forall b, byte b -> (single b <-> leads b = false) /\ (lead b <-> leads b = true)) ->
  (forall b, single b \/ lead b -> byte b) ->
  byte_codes single lead (fun b => 1 <= b <= 0xff) c bs <-> lead_code leads c bs.
Proof.
  intros Hr Hbyte. unfold byte_codes, lead_code, byte in *. split.
  - intros [[Hs ->]|(l & t & Hl & Ht & -> & ->)].
    + left. assert (Hb : 0 <= c < 256) by auto. split; [done|]. split; [by apply Hr|done].
    + right. assert (Hb : 0 <= l < 256) by auto. exists l, t. split; [done|].
      split; [by apply Hr|]. repeat split; done || lia.
  - intros [(Hb & Hl & ->)|(l & t & Hb & Hl & Ht & H0 & -> & ->)].
    + left. split; [by apply Hr|done].
    + right. exists l, t. split; [by apply Hr|]. repeat split; done || lia.
Qed.

Lemma gbk_code_lead c bs : gbk_code c bs <-> lead_code (fun b => _gbk_check b =? 2) c bs.
Proof.
  apply byte_codes_lead; [|unfold byte; lia]. intros b Hb. rewrite gbk_leads by done. unfold byte in Hb. lia.
Qed.

Lemma big5_code_lead c bs : big5_code c bs <-> lead_code (fun b => _big5_check b =? 2) c bs.
Proof.
  apply byte_codes_lead; [|unfold byte; lia]. intros b Hb. rewrite big5_leads by done. unfold byte in Hb. lia.
Qed.

Lemma mskanji_code_lead c bs : mskanji_code c bs <-> lead_code mskanji_lead c bs.
Proof.
  apply byte_codes_lead; [|unfold byte; lia]. intros b Hb. rewrite mskanji_leads by done. unfold byte in Hb. lia.
Qed.

#[export] Instance gbk_laws : EncodingLaws _GBK_init (LeadSt 0) lead_idle gbk_code.
Proof.
  eapply laws_iff; [exact gbk_code_lead|]. apply lead_laws; [apply gbk_range| |done]. intros gs c bs Hi%lead_initial.
  by apply high_bit_encodes; [apply gbk_range|].
Qed.

#[export] Instance big5_laws : EncodingLaws _BIG5_init (LeadSt 0) lead_idle big5_code.
Proof.
  eapply laws_iff; [exact big5_code_lead|]. apply lead_laws; [apply big5_range| |done]. intros gs c bs Hi%lead_initial.
  by apply high_bit_encodes; [apply big5_range|].
Qed.

Lemma mskanji_encodes gs c bs :
  lead_idle gs -> lead_code mskanji_lead c bs -> _MSKanji_wcrtomb true c gs = Wcr (Z.of_nat (length bs)) bs None gs.
Proof.
  intros Hi [(Hb & _ & ->)|(l & b & Hlb & Hl & Hb & _ & -> & ->)]; unfold _MSKanji_wcrtomb;
    rewrite lead_initial by done; cbn [negb]; unfold byte in *.
  - rewrite Z.gtb_ltb, (proj2 (Z.ltb_ge _ _)) by lia. change (Z.to_nat 1) with 1%nat. cbn [put_bytes length].
    change (8 * Z.of_nat 0) with 0. by rewrite Z.shiftr_0_r, u8_small by lia.
  - pose proof (mskanji_range l Hlb Hl). rewrite Z.gtb_ltb, (proj2 (Z.ltb_lt _ _)) by lia.
    change (Z.to_nat 2) with 2%nat. cbn [put_bytes length]. unfold u8. rewrite !shiftr_div by lia.
    repeat f_equal; cbn; zbits.
Qed.

#[export] Instance mskanji_laws : EncodingLaws _MSKanji_init (LeadSt 0) lead_idle mskanji_code.
Proof.
  eapply laws_iff; [exact mskanji_code_lead|].
  apply lead_laws; [apply mskanji_range|apply mskanji_encodes|done].
Qed.
