(* ===== verification/Gb.v ===== *)
(** * Gb: the encodings GB 2312 and GB 18030 of the C library

    Model of [locale/FreeBSD/gb2312.c] and [gb18030.c].  Their decoders collect
    the bytes of a character in the conversion state, in a buffer as large as
    the longest character, and look at the buffer; they differ in the size of
    the buffer, in how they read it, and in whether they set [errno]. *)

From S2P Require Import Prelude Encoding EncodingText DoubleByte.

(** [count], and the array [bytes]. *)
Record gb_state := GbSt { gb_count : Z; gb_bytes : list Z }.

(** [strncpy] from [s]: the [n] bytes it writes. *)
Fixpoint strncpy (s : list Z) (n : nat) {struct n} : res (list Z) :=
  match n with
  | O => Ok []
  | S n' =>
      match s with
      | [] => Crash OutOfBounds
      | b :: s =>
          if b =? 0 then Ok (replicate n 0)
          else let! bs := strncpy s n' in Ok (b :: bs)
      end
  end.

(** [bs] written over the array from the index [i] on. *)
Definition arr_splice (arr : list Z) (i : Z) (bs : list Z) : list Z :=
  take (Z.to_nat i) arr ++ bs ++ drop (Z.to_nat i + length bs) arr.

(** What the bytes in the buffer are: too few, not a character, or a character
    and its length. *)
Inductive gb_reading :=
  | GbMore
  | GbBad
  | GbChar (len wch : Z).

Section Buffered.
Context (size : Z) (read : list Z -> gb_reading) (bad_errno : option errno_t).

Definition gb_mbsinit (ps : option gb_state) : bool :=
  match ps with
  | None => true
  | Some gs => gb_count gs =? 0
  end.

Definition gb_mbrtowc (s : option (list Z)) (n : Z) (gs : gb_state) : res (mbr gb_state) :=
  if (gb_count gs <? 0) || (gb_count gs >? size) then Ok (Mbr size_minus_1 None (Some EINVAL) gs)
  else
    let null := bool_decide (s = None) in
    let n := if null then 1 else n in
    let s := default [0] s in
    let ncopy := Z.min (Z.min n size) (size - gb_count gs) in
    let! copied := strncpy s (Z.to_nat ncopy) in
    let bytes := arr_splice (gb_bytes gs) (gb_count gs) copied in
    let ocount := gb_count gs in
    let count := gb_count gs + ncopy in
    match read (take (Z.to_nat count) bytes) with
    | GbMore => Ok (Mbr size_minus_2 None None (GbSt count bytes))
    | GbBad => Ok (Mbr size_minus_1 None bad_errno (GbSt count bytes))
    | GbChar len wc =>
        Ok (Mbr (if wc =? 0 then 0 else u64 (len - ocount)) (if null then None else Some wc) None (GbSt 0 bytes))
    end.
End Buffered.

(** ** GB 2312 *)

Definition GB2312_MB_CUR_MAX : Z := 2.

Definition _GB2312_check (s : list Z) : Z :=
  match s with
  | [] => -2
  | b0 :: s =>
      if (b0 >=? 0xa1) && (b0 <=? 0xfe) then
        match s with
        | [] => -2
        | b1 :: _ => if (b1 <? 0xa1) || (b1 >? 0xfe) then -1 else 2
        end
      else if negb (Z.land b0 0x80 =? 0) then -1
      else 1
  end.

Definition gb2312_read (s : list Z) : gb_reading :=
  let len := _GB2312_check s in
  if len =? -2 then GbMore
  else if len <? 0 then GbBad
  else GbChar len (fold_left (fun wc b => Z.lor (Z.shiftl wc 8) b) (take (Z.to_nat len) s) 0).

(** A sequence it refuses leaves [errno] alone. *)
Definition _GB2312_mbrtowc : option (list Z) -> Z -> gb_state -> res (mbr gb_state) :=
  gb_mbrtowc GB2312_MB_CUR_MAX gb2312_read None.

Definition _GB2312_wcrtomb : bool -> Z -> gb_state -> wcr gb_state :=
  high_bit_wcrtomb (fun gs => gb_count gs =? 0).

Definition _GB2312_mbsinit : option gb_state -> bool := gb_mbsinit.

Definition _GB2312_init : runelocale gb_state :=
  std_runelocale _GB2312_mbrtowc _GB2312_wcrtomb _GB2312_mbsinit GB2312_MB_CUR_MAX 128.

(** ** GB 18030 *)

Definition GB18030_MB_CUR_MAX : Z := 4.

Definition gb18030_read (s : list Z) : gb_reading :=
  match s with
  | [] => GbMore
  | ch :: s =>
      if ch <=? 0x7f then GbChar 1 ch
      else if (ch >=? 0x81) && (ch <=? 0xfe) then
        let wch := ch in
        match s with
        | [] => GbMore
        | ch :: s =>
            if ((ch >=? 0x40) && (ch <=? 0x7e)) || ((ch >=? 0x80) && (ch <=? 0xfe)) then
              GbChar 2 (Z.lor (Z.shiftl wch 8) ch)
            else if (ch >=? 0x30) && (ch <=? 0x39) then
              let wch := Z.lor (Z.shiftl (Z.land wch 0x7f) 8) ch in
              match s with
              | [] => GbMore
              | ch :: s =>
                  if (ch <? 0x81) || (ch >? 0xfe) then GbBad
                  else
                    let wch := Z.lor (Z.shiftl wch 8) ch in
                    match s with
                    | [] => GbMore
                    | ch :: _ =>
                        if (ch <? 0x30) || (ch >? 0x39) then GbBad
                        else GbChar 4 (Z.lor (Z.shiftl wch 8) ch)
                    end
              end
            else GbBad
        end
      else GbBad
  end.

Definition _GB18030_mbrtowc : option (list Z) -> Z -> gb_state -> res (mbr gb_state) :=
  gb_mbrtowc GB18030_MB_CUR_MAX gb18030_read (Some EILSEQ).

Definition _GB18030_mbsinit : option gb_state -> bool := gb_mbsinit.

(** [wc] is a [wchar_t], 32 bits wide; a refused character may leave some of
    its bytes in the array. *)
Definition _GB18030_wcrtomb (s : bool) (wc : Z) (gs : gb_state) : wcr gb_state :=
  let ilseq bs := Wcr size_minus_1 bs (Some EILSEQ) gs in
  if negb (gb_count gs =? 0) then Wcr size_minus_1 [] (Some EINVAL) gs
  else if negb s then Wcr 1 [] None gs
  else if negb (Z.land wc (Z.lnot 0x7fffffff) =? 0) then ilseq []
  else if negb (Z.land wc 0x7f000000 =? 0) then
    let wc := s32 (Z.lor wc 0x80000000) in
    let c1 := Z.land (Z.shiftr wc 24) 0xff in
    if (c1 <? 0x81) || (c1 >? 0xfe) then ilseq []
    else
      let c2 := Z.land (Z.shiftr wc 16) 0xff in
      if (c2 <? 0x30) || (c2 >? 0x39) then ilseq [c1]
      else
        let c3 := Z.land (Z.shiftr wc 8) 0xff in
        if (c3 <? 0x81) || (c3 >? 0xfe) then ilseq [c1; c2]
        else
          let c4 := Z.land wc 0xff in
          if (c4 <? 0x30) || (c4 >? 0x39) then ilseq [c1; c2; c3]
          else Wcr 4 [c1; c2; c3; c4] None gs
  else if negb (Z.land wc 0x00ff0000 =? 0) then ilseq []
  else if negb (Z.land wc 0x0000ff00 =? 0) then
    let c1 := Z.land (Z.shiftr wc 8) 0xff in
    if (c1 <? 0x81) || (c1 >? 0xfe) then ilseq []
    else
      let c2 := Z.land wc 0xff in
      if (c2 <? 0x40) || (c2 =? 0x7f) || (c2 =? 0xff) then ilseq [c1]
      else Wcr 2 [c1; c2] None gs
  else if wc <=? 0x7f then Wcr 1 [wc] None gs
  else ilseq [].

Definition _GB18030_init : runelocale gb_state :=
  std_runelocale _GB18030_mbrtowc _GB18030_wcrtomb _GB18030_mbsinit GB18030_MB_CUR_MAX 128.

(** ** Laws: GB 2312 and GB 18030 are lawful and restartable

    What is common to the two is proved of a decoder that collects bytes in a
    buffer and reads the buffer, for any way to read it that looks at the
    bytes from left to right ([Reads]). *)


(** ** The copy *)

Lemma strncpy_total s n : (n <= length s)%nat \/ 0 ∈ s -> exists q, strncpy s n = Ok q /\ length q = n.
Proof.
  revert s. induction n as [|n IH]; intros s Hs; [by exists []|]. destruct s as [|b s].
  { destruct Hs as [Hs|Hs]; [cbn in Hs; lia|by apply elem_of_nil in Hs]. }
  cbn [strncpy]. destruct (Z.eqb_spec b 0) as [->|Hb].
  { eexists. split; [done|]. apply length_replicate. }
  destruct (IH s) as (q & -> & Hq).
  { destruct Hs as [Hs|[?|Hs]%elem_of_cons]; [left; cbn in Hs; lia|congruence|by right]. }
  exists (b :: q). cbn. split; [done|lia].
Qed.

(** It is exact up to and including the first NUL. *)
Lemma strncpy_prefix s : forall n q k,
  strncpy s n = Ok q -> (k < n)%nat -> 0 ∉ take k s \/ 0 ∉ take k q -> take (S k) q = take (S k) s.
Proof.
  induction s as [|b s IH]; intros [|n] q k E Hk H0; try (done || lia).
  cbn [strncpy] in E. destruct (Z.eqb_spec b 0) as [->|Hb].
  { injection E as <-. destruct k as [|k]; [done|]. cbn in H0. set_solver. }
  destruct (strncpy s n) as [q'|] eqn:E'; [|done]. injection E as <-. destruct k as [|k]; [done|].
  rewrite !firstn_cons. f_equal. apply (IH n); [done|lia|]. cbn [take] in H0. set_solver.
Qed.

Lemma strncpy_app s1 s2 n :
  0 ∉ s1 -> strncpy (s1 ++ s2) (length s1 + n) = (let! q := strncpy s2 n in Ok (s1 ++ q)).
Proof.
  induction s1 as [|b s1 IH]; intros H0; [cbn; by destruct (strncpy s2 n)|].
  apply not_elem_of_cons in H0 as [Hb H0]. cbn [app length Nat.add strncpy].
  rewrite (proj2 (Z.eqb_neq b 0)) by done. rewrite IH by done. by destruct (strncpy s2 n).
Qed.

Lemma arr_splice_app p r bs :
  arr_splice (p ++ r) (Z.of_nat (length p)) bs = p ++ bs ++ drop (length bs) r.
Proof.
  unfold arr_splice. rewrite Nat2Z.id, take_app_length. rewrite <-drop_drop, drop_app_length. done.
Qed.

(** ** Readings *)

(** A reading is decided by a prefix, and never at a NUL inside a character. *)
Class Reads (size : Z) (read : list Z -> gb_reading) : Prop := {
  size_range : 1 <= size <= MB_LEN_MAX;
  read_nul t : read (0 :: t) = GbChar 1 0;
  read_more bs : read bs = GbMore -> Z.of_nat (length bs) < size /\ 0 ∉ bs;
  read_bad bs t : read bs = GbBad -> read (bs ++ t) = GbBad;
  read_char bs t len c : read bs = GbChar len c -> read (bs ++ t) = GbChar len c;
  read_len bs len c :
    read bs = GbChar len c ->
    1 <= len <= Z.of_nat (length bs) /\ len <= size /\ read (take (Z.to_nat len) bs) = GbChar len c
}.

Section Buffered.
Context (size : Z) (read : list Z -> gb_reading) {reads : Reads size read} (bad_errno : option errno_t).
Abbreviation decode := (gb_mbrtowc size read bad_errno).

Definition gb_code (c : Z) (bs : list Z) : Prop := Forall byte bs /\ read bs = GbChar (Z.of_nat (length bs)) c.

Definition gb_idle (gs : gb_state) : Prop := gb_count gs = 0 /\ Z.of_nat (length (gb_bytes gs)) = size.

(** The bytes [p] of a character are pending. *)
Definition pending (gs : gb_state) (p r : list Z) : Prop :=
  gs = GbSt (Z.of_nat (length p)) (p ++ r) /\ Z.of_nat (length (p ++ r)) = size /\ read p = GbMore.

Definition gb_valid (gs : gb_state) : Prop := exists p r, pending gs p r.

Lemma read_nil : read [] = GbMore.
Proof.
  destruct (read []) as [| |len c] eqn:E; [done| |].
  - apply (read_bad _ [0]) in E. cbn [app] in E. by rewrite read_nul in E.
  - apply read_len in E as [Hl _]. cbn in Hl. lia.
Qed.

(** A character is not complete before its last byte. *)
Lemma read_before bs len c k :
  read bs = GbChar len c -> Z.of_nat k < len -> read (take k bs) = GbMore.
Proof.
  intros E Hk. destruct (read (take k bs)) as [| |len' c'] eqn:E'; [done| |].
  - apply (read_bad _ (drop k bs)) in E'. rewrite take_drop in E'. congruence.
  - pose proof (read_len _ _ _ E') as [Hl _]. apply (read_char _ (drop k bs)) in E'. rewrite take_drop in E'.
    rewrite E in E'. injection E' as <- <-. rewrite length_take in Hl. lia.
Qed.

Lemma idle_pending gs : gb_idle gs -> pending gs [] (gb_bytes gs).
Proof. destruct gs as [n bs]. intros [Hc Hl]. cbn in *. subst n. split; [done|]. by split; [|apply read_nil]. Qed.

Lemma strncpy_length s : forall n q, strncpy s n = Ok q -> length q = n.
Proof.
  induction s as [|b s IH]; intros [|n] q E; [by injection E as <-|done|by injection E as <-|].
  cbn [strncpy] in E. destruct (b =? 0); [injection E as <-; apply (length_replicate (S n))|].
  destruct (strncpy s n) eqn:E'; [|done]. injection E as <-. cbn. f_equal. by apply IH.
Qed.

(** The decoder, in terms of the bytes pending and the bytes copied. *)
Lemma gb_decode gs p r s n q :
  pending gs p r -> 0 <= n ->
  strncpy s (Z.to_nat (Z.min n (size - Z.of_nat (length p)))) = Ok q ->
  let bytes := p ++ q ++ drop (length q) r in
  Z.of_nat (length bytes) = size /\
  decode (Some s) n gs = Ok
    match read (p ++ q) with
    | GbMore => Mbr size_minus_2 None None (GbSt (Z.of_nat (length (p ++ q))) bytes)
    | GbBad => Mbr size_minus_1 None bad_errno (GbSt (Z.of_nat (length (p ++ q))) bytes)
    | GbChar len c => Mbr (if c =? 0 then 0 else u64 (len - Z.of_nat (length p))) (Some c) None (GbSt 0 bytes)
    end.
Proof.
  intros (-> & Hl & Hp) Hn E bytes. pose proof (read_more _ Hp) as [Hps _].
  pose proof (strncpy_length _ _ _ E) as Hq.
  assert (Hz : Z.of_nat (length q) = Z.min n (size - Z.of_nat (length p))) by lia.
  rewrite length_app in Hl. split.
  { unfold bytes. rewrite !length_app, length_drop in *. lia. }
  unfold gb_mbrtowc. cbn [gb_count gb_bytes].
  rewrite (proj2 (Z.ltb_ge _ _)), Z.gtb_ltb, (proj2 (Z.ltb_ge _ _)) by lia. cbn [orb].
  rewrite bool_decide_eq_false_2 by done. cbn [default id].
  replace (Z.min (Z.min n size) (size - Z.of_nat (length p))) with (Z.of_nat (length q)) by lia.
  rewrite <-Hz in E. rewrite E. cbn [rbind]. rewrite arr_splice_app. fold bytes.
  replace (Z.of_nat (length p) + Z.of_nat (length q)) with (Z.of_nat (length (p ++ q))) by (rewrite length_app; lia).
  rewrite Nat2Z.id. replace (take (length (p ++ q)) bytes) with (p ++ q); [by destruct (read (p ++ q))|].
  unfold bytes. by rewrite (app_assoc p q), take_app_length.
Qed.

Lemma gb_decode_code gs c bs t n :
  gb_idle gs -> gb_code c bs -> Z.of_nat (length bs) <= n ->
  n <= Z.of_nat (length (bs ++ t)) \/ 0 ∈ bs ++ t ->
  exists gs', gb_idle gs' /\
    decode (Some (bs ++ t)) n gs =
      Ok (Mbr (if c =? 0 then 0 else Z.of_nat (length bs)) (Some c) None gs').
Proof.
  intros Hi%idle_pending [_ Hc] Hn Ht. pose proof (read_len _ _ _ Hc) as (Hlen & Hsz & _). pose proof size_range as Hs.
  destruct (strncpy_total (bs ++ t) (Z.to_nat (Z.min n (size - 0)))) as (q & E & Hq).
  { destruct Ht; [left; lia|by right]. }
  destruct (gb_decode gs [] _ (bs ++ t) n q Hi) as (Hr & ->); [lia|done|]. cbn [app length] in *.
  assert (Hbs : q = bs ++ drop (length bs) q).
  { rewrite <-(take_drop (length bs) q) at 1. f_equal.
    replace (length bs) with (S (length bs - 1)) by lia. rewrite (strncpy_prefix _ _ _ _ E); [|lia|left].
    - replace (S (length bs - 1)) with (length bs) by lia. apply take_app_length.
    - rewrite take_app_le by lia. apply read_more. apply (read_before _ _ _ _ Hc). lia. }
  replace (read q) with (GbChar (Z.of_nat (length bs)) c) by (rewrite Hbs; symmetry; by apply read_char).
  exists (GbSt 0 (q ++ drop (length q) (gb_bytes gs))). split; [by split|].
  rewrite Z.sub_0_r, u64_small; [done|unfold MB_LEN_MAX in *; lia].
Qed.

Lemma gb_decode_sound gs s n r c :
  gb_idle gs -> Forall byte s -> 0 <= n <= Z.of_nat (length s) ->
  decode (Some s) n gs = Ok r -> mb_pwc r = Some c ->
  exists bs t, s = bs ++ t /\ gb_code c bs /\ Z.of_nat (length bs) <= n.
Proof.
  intros Hi%idle_pending Hb Hn E Hc.
  destruct (strncpy_total s (Z.to_nat (Z.min n (size - 0)))) as (q & Eq & Hq); [left; lia|].
  destruct (gb_decode gs [] _ s n q Hi) as (_ & E'); [lia|done|]. rewrite E in E'. cbn [app] in E'.
  injection E' as ->. destruct (read q) as [| |len c'] eqn:Er; [done|done|]. injection Hc as ->.
  pose proof (read_len _ _ _ Er) as (Hlen & _ & Et).
  exists (take (Z.to_nat len) s), (drop (Z.to_nat len) s). split; [by rewrite take_drop|].
  assert (Htk : take (Z.to_nat len) q = take (Z.to_nat len) s).
  { replace (Z.to_nat len) with (S (Z.to_nat len - 1)) by lia. apply (strncpy_prefix _ _ _ _ Eq); [lia|right].
    apply read_more, (read_before _ _ _ _ Er). lia. }
  split; [split; [by apply Forall_take|]|rewrite length_take; lia].
  rewrite <-Htk, length_take. by replace (Z.of_nat _) with len by lia.
Qed.

(** ** In pieces *)

(** A call that asks for more has taken every byte. *)
Lemma gb_more gs gs' p r s :
  pending gs p r -> decode (Some s) (Z.of_nat (length s)) gs = Ok (Mbr size_minus_2 None None gs') ->
  pending gs' (p ++ s) (drop (length s) r) /\ 0 ∉ s.
Proof.
  intros Hp E. pose proof Hp as (-> & Hl & Hm). pose proof (read_more _ Hm) as [Hps _]. 
  destruct (strncpy_total s (Z.to_nat (Z.min (Z.of_nat (length s)) (size - Z.of_nat (length p))))) as (q & Eq & Hq);
    [left; lia|].
  destruct (gb_decode _ p r s _ q Hp (Nat2Z.is_nonneg _) Eq) as (Hr & E'). rewrite E in E'.
  assert (Hmore : read (p ++ q) = GbMore).
  { destruct (read (p ++ q)) as [| |len c] eqn:Er; [done|injection E'; discriminate|injection E'; discriminate]. }
  rewrite Hmore in E'. injection E' as ->. pose proof (read_more _ Hmore) as [Hps1 H0].
  rewrite length_app in Hps1. assert (Hlq : length q = length s) by lia.
  assert (q = s) as ->.
  { destruct s as [|b s]; [by destruct q|].
    assert (Ht : take (S (length s)) q = take (S (length s)) (b :: s)).
    { apply (strncpy_prefix _ _ _ _ Eq); [cbn in *; lia|right]. intros (? & ?%list_elem_of_lookup_2 & _)%elem_of_take. set_solver. }
    by rewrite !firstn_all2 in Ht by (cbn in *; lia). }
  split; [|set_solver]. split; [by rewrite <-app_assoc|]. by rewrite <-app_assoc.
Qed.

Lemma gb_restart : Restartable decode gb_valid eq.
Proof.
  intros gs gs' s1 s2 n2 (p & r & Hp) Hne _ _ Hn2 E1. pose proof size_range as Hs. unfold MB_LEN_MAX in Hs.
  destruct (gb_more _ _ _ _ _ Hp E1) as [Hp' H0]. split; [by exists (p ++ s1), (drop (length s1) r)|].
  pose proof Hp' as (_ & Hl & Hm). pose proof (read_more _ Hm) as [Hps _]. rewrite length_app in Hps.
  destruct (strncpy_total s2 (Z.to_nat (Z.min n2 (size - Z.of_nat (length (p ++ s1)))))) as (q2 & Eq2 & Hq2); [left; lia|].
  destruct (gb_decode _ _ _ s2 n2 q2 Hp') as (Hr2 & E2); [lia|done|].
  destruct (gb_decode _ p r (s1 ++ s2) (Z.of_nat (length s1) + n2) (s1 ++ q2) Hp) as (_ & E3); [lia| |].
  { rewrite length_app in Eq2.
    replace (Z.to_nat _) with (length s1 + Z.to_nat (Z.min n2 (size - Z.of_nat (length p + length s1))))%nat by lia.
    by rewrite strncpy_app, Eq2. }
  rewrite <-!app_assoc in *. rewrite drop_drop in *. rewrite (length_app s1 q2) in E3.
  eexists _, _. split; [exact E2|]. split; [exact E3|].
  unfold resumed_by. destruct (read (p ++ s1 ++ q2)) as [| |len c] eqn:Er; cbn [mb_pwc mb_errno mb_ret mb_state];
    [done|done|].
  split; [done|]. split; [done|]. split; [|done]. destruct (c =? 0); [done|].
  pose proof (read_len _ _ _ Er) as (Hlen & Hsz & _).
  assert (Z.of_nat (length (p ++ s1)) < len).
  { destruct (Z.lt_ge_cases (Z.of_nat (length (p ++ s1))) len) as [|Hge]; [done|].
    rewrite (app_assoc p s1) in Er. pose proof (read_len _ _ _ Er) as (_ & _ & Et).
    rewrite take_app_le in Et by lia. apply (read_char _ (drop (Z.to_nat len) (p ++ s1))) in Et.
    rewrite take_drop in Et. congruence. }
  rewrite length_app in *. rewrite !u64_small by lia. rewrite bool_decide_eq_false_2; [lia|].
  rewrite !elem_of_cons, elem_of_nil. unfold size_minus_1, size_minus_2. lia.
Qed.
End Buffered.

(** ** GB 2312 *)

Lemma gb2312_read_eq s :
  gb2312_read s =
    match s with
    | [] => GbMore
    | b0 :: s =>
        if (b0 >=? 0xa1) && (b0 <=? 0xfe) then
          match s with
          | [] => GbMore
          | b1 :: _ => if (b1 <? 0xa1) || (b1 >? 0xfe) then GbBad else GbChar 2 (Z.lor (Z.shiftl b0 8) b1)
          end
        else if negb (Z.land b0 0x80 =? 0) then GbBad
        else GbChar 1 b0
    end.
Proof. destruct s as [|b0 [|b1 s]]; [done| |]; unfold gb2312_read; cbn [_GB2312_check]; by repeat case_match. Qed.

(** Case analysis on a reading. *)
Ltac read_cases :=
  repeat match goal with
  | H : context [match ?x with _ => _ end] |- _ => destruct x eqn:?; try done
  | H : GbChar _ _ = GbChar _ _ |- _ => injection H as <- <-
  end.

(** The first bytes, for the lengths there are. *)
Ltac take_len :=
  change (Z.to_nat 1) with 1%nat; change (Z.to_nat 2) with 2%nat; change (Z.to_nat 4) with 4%nat; cbn [take].

#[export] Instance gb2312_reads : Reads GB2312_MB_CUR_MAX gb2312_read.
Proof.
  split.
  - done.
  - done.
  - intros bs. rewrite gb2312_read_eq. intros H. read_cases; cbn; set_solver by lia.
  - intros bs t. rewrite !gb2312_read_eq. intros H. read_cases; cbn [app]; by repeat (case_match; try lia).
  - intros bs t len c. rewrite !gb2312_read_eq. intros H. read_cases; cbn [app]; by repeat (case_match; try lia).
  - intros bs len c. rewrite !gb2312_read_eq. intros H. unfold GB2312_MB_CUR_MAX. read_cases; cbn [length];
      (split; [lia|]); (split; [lia|]); take_len; by repeat (case_match; try lia).
Qed.

#[export] Instance gb18030_reads : Reads GB18030_MB_CUR_MAX gb18030_read.
Proof.
  unfold gb18030_read, GB18030_MB_CUR_MAX. split.
  - done.
  - done.
  - intros bs H. read_cases; cbn [length]; (split; [lia|]);
      rewrite ?not_elem_of_cons; repeat split; lia || apply not_elem_of_nil.
  - intros bs t H. read_cases; cbn [app]; by repeat (case_match; try lia).
  - intros bs t len c H. read_cases; cbn [app]; by repeat (case_match; try lia).
  - intros bs len c H. read_cases; cbn [length];
      (split; [lia|]); (split; [lia|]); take_len; by repeat (case_match; try lia).
Qed.

(** ** Laws *)

Lemma gb_laws size read errno wcrtomb sb_limit :
  Reads size read ->
  (forall gs c bs, gb_idle size gs -> gb_code read c bs ->
    wcrtomb true c gs = Wcr (Z.of_nat (length bs)) bs None gs) ->
  EncodingLaws (std_runelocale (gb_mbrtowc size read errno) wcrtomb gb_mbsinit size sb_limit)
    (GbSt 0 (replicate (Z.to_nat size) 0)) (gb_idle size) (gb_code read).
Proof.
  intros Hr He. pose proof size_range as Hs. split; try done.
  - split; [done|]. cbn. rewrite length_replicate. lia.
  - intros c bs [_ H]. apply read_len in H. cbn. lia.
  - apply Hs.
  - split; [by repeat constructor|]. apply read_nul.
  - intros gs c bs t n. apply gb_decode_code, _.
  - intros gs b Hi Hb. pose proof (idle_pending size read _ Hi) as Hp.
    destruct (strncpy_total [b] (Z.to_nat (Z.min 1 (size - 0)))) as (q & Eq & Hq); [left; cbn; lia|].
    destruct (gb_decode size read errno gs [] _ [b] 1 q Hp) as (_ & E); [done|done|].
    eapply strict_decode_byte; [|intros c bs [_ H] ->; apply read_len in H as [H _]; cbn in H; lia|done|done|exact E|].
    + intros gs' s n r' c'. apply gb_decode_sound, _.
    + by destruct (read ([] ++ q)).
  - intros gs c bs Hi Hc. exists gs. split; [done|]. by apply He.
Qed.

Lemma gb_initial size gs : gb_idle size gs -> (gb_count gs =? 0) = true.
Proof. intros [-> _]. done. Qed.

Lemma gb2312_lead_code c bs :
  gb_code gb2312_read c bs -> lead_code (fun b => (0x81 <=? b) && (b <=? 0xfe)) c bs.
Proof.
  intros [Hb H]. rewrite gb2312_read_eq in H. destruct bs as [|b0 bs]; [done|]. apply Forall_cons in Hb as [Hb0 Hb].
  destruct ((b0 >=? 0xa1) && (b0 <=? 0xfe)) eqn:E0.
  - destruct bs as [|b1 bs]; [done|]. apply Forall_cons in Hb as [Hb1 _].
    destruct ((b1 <? 0xa1) || (b1 >? 0xfe)) eqn:E1; [done|]. injection H as Hl <-.
    destruct bs; [|cbn in Hl; lia]. right. exists b0, b1. rewrite lor_shift by (apply Hb1 || lia).
    repeat split; apply Hb0 || apply Hb1 || lia || done.
  - destruct (negb (Z.land b0 0x80 =? 0)) eqn:E1; [done|]. injection H as Hl <-.
    destruct bs; [|cbn in Hl; lia]. left. split; [done|]. split; [|done].
    clear Hl. revert b0 Hb0 E0 E1. apply (byte_ind (fun b0 => (b0 >=? 161) && (b0 <=? 254) = false ->
      negb (Z.land b0 128 =? 0) = false -> (129 <=? b0) && (b0 <=? 254) = false)). by vm_compute.
Qed.

(** The characters of gb2312.5, by byte ranges. *)
Definition gb2312_code : Z -> list Z -> Prop :=
  byte_codes (fun b => 0 <= b <= 0x7f) (fun b => 0xa1 <= b <= 0xfe) (fun b => 0xa1 <= b <= 0xfe).

Lemma gb2312_code_read c bs : gb2312_code c bs <-> gb_code gb2312_read c bs.
Proof.
  assert (Hbit : forall b, byte b -> negb (Z.land b 0x80 =? 0) = (0x80 <=? b)) by (by apply (byte_ind _)).
  unfold gb_code. rewrite gb2312_read_eq. split.
  - intros [[Hs ->]|(l & t & Hl & Ht & -> & ->)]; (split; [repeat constructor; unfold byte; lia|]).
    + rewrite Hbit by (unfold byte; lia). by repeat (case_match; try lia).
    + repeat (case_match; try lia). by rewrite lor_shift by lia.
  - intros [Hb H]. destruct bs as [|b0 bs]; [done|]. apply Forall_cons in Hb as [Hb0 Hb].
    rewrite Hbit in H by done. unfold byte in Hb0.
    destruct ((b0 >=? 0xa1) && (b0 <=? 0xfe)) eqn:E0.
    + destruct bs as [|b1 bs]; [done|]. apply Forall_cons in Hb as [Hb1 _]. unfold byte in Hb1.
      destruct ((b1 <? 0xa1) || (b1 >? 0xfe)) eqn:E1; [done|]. injection H as Hl <-.
      destruct bs; [|cbn in Hl; lia]. right. exists b0, b1. rewrite lor_shift by lia.
      repeat split; lia || done.
    + destruct (0x80 <=? b0) eqn:E1; [done|]. injection H as Hl <-.
      destruct bs; [|cbn in Hl; lia]. left. split; [lia|done].
Qed.

#[export] Instance gb2312_laws :
  EncodingLaws _GB2312_init (GbSt 0 [0; 0]) (gb_idle GB2312_MB_CUR_MAX) gb2312_code.
Proof.
  eapply laws_iff; [exact gb2312_code_read|]. apply gb_laws; [apply _|]. intros gs c bs Hi%gb_initial Hc%gb2312_lead_code.
  apply (high_bit_encodes _ (fun b => (0x81 <=? b) && (b <=? 0xfe))); [lia|done|done].
Qed.

(** The characters of gb18030.5, by byte ranges; a code of four bytes is
    numbered without the top bit of its first byte. *)
Definition gb18030_code (c : Z) (bs : list Z) : Prop :=
  (bs = [c] /\ 0 <= c <= 0x7f) \/
  (exists b0 b1, bs = [b0; b1] /\ c = b0 * 2 ^ 8 + b1 /\ 0x81 <= b0 <= 0xfe /\ 0x40 <= b1 <= 0xfe /\ b1 <> 0x7f) \/
  (exists b0 b1 b2 b3, bs = [b0; b1; b2; b3] /\ c = (b0 - 0x80) * 2 ^ 24 + b1 * 2 ^ 16 + b2 * 2 ^ 8 + b3 /\
    0x81 <= b0 <= 0xfe /\ 0x30 <= b1 <= 0x39 /\ 0x81 <= b2 <= 0xfe /\ 0x30 <= b3 <= 0x39).

Lemma gb18030_code_inv c bs : gb_code gb18030_read c bs -> gb18030_code c bs.
Proof.
  intros [Hb H]. unfold gb18030_read in H.
  assert (Hlen : forall l : list Z, Z.of_nat (length l) = 0 -> l = []) by (intros [|]; cbn; [done|lia]).
  repeat match goal with
  | H : context [match ?x with _ => _ end] |- _ => destruct x eqn:?; try done
  | H : Forall byte (_ :: _) |- _ => apply Forall_cons in H as [? H]
  | H : GbChar _ _ = GbChar _ _ |- _ => injection H as ? <-
  end; unfold byte in *; subst; cbn [length] in *.
  - left. rewrite (Hlen l) by lia. split; [done|lia].
  - right. left. rewrite (Hlen l0) by lia. rewrite lor_shift by lia. eexists _, _. split; [done|]. lia.
  - right. right. rewrite (Hlen l2) by lia. change 0x7f with (2 ^ 7 - 1). rewrite land_mask, !lor_shift by lia.
    replace (z mod 2 ^ 7) with (z - 0x80) by zbits. eexists _, _, _, _. split; [done|]. lia.
Qed.

Lemma gb18030_encodes gs c bs :
  gb_idle GB18030_MB_CUR_MAX gs -> gb_code gb18030_read c bs ->
  _GB18030_wcrtomb true c gs = Wcr (Z.of_nat (length bs)) bs None gs.
Proof.
  intros Hi%gb_initial Hc%gb18030_code_inv. unfold _GB18030_wcrtomb. rewrite Hi. cbn [negb].
  assert (Hr : 0 <= c < 2 ^ 31) by (destruct Hc as [?|[(?&?&?)|(?&?&?&?&?)]]; lia).
  change 0x7fffffff with (2 ^ 31 - 1). change 0x7f000000 with ((2 ^ 7 - 1) * 2 ^ 24).
  change 0xff0000 with ((2 ^ 8 - 1) * 2 ^ 16). change 0xff00 with ((2 ^ 8 - 1) * 2 ^ 8).
  change 0xff with (2 ^ 8 - 1). rewrite land_above, !land_field, !land_mask, !shiftr_div by lia. cbn [Z.eqb negb].
  rewrite Z.lor_comm, (lor_const 1 31) by (done || lia). unfold s32.
  destruct Hc as [(-> & Hc)|[(b0 & b1 & -> & -> & H0 & H1 & H7)|(b0 & b1 & b2 & b3 & -> & -> & H0 & H1 & H2 & H3)]].
  - rewrite !(Z.div_small c) by lia. cbn [Z.modulo Z.mul Z.eqb negb]. by rewrite (proj2 (Z.leb_le _ _)) by lia.
  - replace ((b0 * 2 ^ 8 + b1) / 2 ^ 24) with 0 by zbits. replace ((b0 * 2 ^ 8 + b1) / 2 ^ 16) with 0 by zbits.
    replace ((b0 * 2 ^ 8 + b1) / 2 ^ 8) with b0 by zbits. rewrite (Z.mod_small b0) by lia.
    replace ((b0 * 2 ^ 8 + b1) mod 2 ^ 8) with b1 by zbits. cbn [Z.modulo Z.mul Z.eqb negb].
    by repeat (case_match; try lia).
  - set (c := _ + b3) in *. set (w := (2147483648 + c + 2 ^ 31) mod 2 ^ 32 - 2 ^ 31).
    assert (Hw : w = c - 2 ^ 31) by (subst c w; zbits). clearbody w. subst w.
    replace ((c / 2 ^ 24) mod 2 ^ 7) with (b0 - 0x80) by (subst c; zbits).
    replace ((c - 2 ^ 31) / 2 ^ 24 mod 2 ^ 8) with b0 by (subst c; zbits).
    replace ((c - 2 ^ 31) / 2 ^ 16 mod 2 ^ 8) with b1 by (subst c; zbits).
    replace ((c - 2 ^ 31) / 2 ^ 8 mod 2 ^ 8) with b2 by (subst c; zbits).
    replace ((c - 2 ^ 31) mod 2 ^ 8) with b3 by (subst c; zbits).
    by repeat (case_match; try lia).
Qed.

Lemma gb18030_code_read c bs : gb18030_code c bs <-> gb_code gb18030_read c bs.
Proof.
  split; [|apply gb18030_code_inv]. unfold gb_code.
  intros [(-> & Hc)|[(b0 & b1 & -> & -> & H0 & H1 & H7)|(b0 & b1 & b2 & b3 & -> & -> & H0 & H1 & H2 & H3)]];
    (split; [repeat constructor; unfold byte; lia|]); cbn [gb18030_read length].
  - by rewrite (proj2 (Z.leb_le _ _)) by lia.
  - repeat (case_match; try lia). by rewrite lor_shift by lia.
  - repeat (case_match; try lia). change 0x7f with (2 ^ 7 - 1). rewrite land_mask, !lor_shift by lia.
    f_equal. replace (b0 mod 2 ^ 7) with (b0 - 0x80) by zbits. lia.
Qed.

#[export] Instance gb18030_laws :
  EncodingLaws _GB18030_init (GbSt 0 [0; 0; 0; 0]) (gb_idle GB18030_MB_CUR_MAX) gb18030_code.
Proof. eapply laws_iff; [exact gb18030_code_read|]. apply gb_laws; [apply _|apply gb18030_encodes]. Qed.
