(* ===== verification/Euc.v ===== *)
(** * Euc: the extended Unix codes of the C library

    Model of [locale/FreeBSD/euc.c].  A locale describes four code sets, the
    length of their characters and the bits that tell their wide characters
    apart; [_EUC_init] reads the description from a line of text with
    [strtol].  The sets 2 and 3 start with the bytes [_SS2] and [_SS3]. *)

From S2P Require Import Prelude StrTo Encoding EncodingText DoubleByte.

(** [_EucInfo] and [_EucState]. *)
Record euc_info := EucInfo { euc_count : list Z; euc_bits : list Z; euc_mask : Z }.
Record euc_state := EucSt { es_ch : Z; es_set : Z; es_want : Z }.

Definition _SS2 : Z := 0x8e.
Definition _SS3 : Z := 0x8f.
Definition GR_BITS : Z := 0x80808080.

Definition _EUC_mbsinit (ps : option euc_state) : bool :=
  match ps with
  | None => true
  | Some es => es_want es =? 0
  end.

Definition _euc_set (c : Z) : Z :=
  let c := Z.land c 0xff in
  if negb (Z.land c 0x80 =? 0) then (if c =? _SS3 then 3 else if c =? _SS2 then 2 else 1) else 0.

Section Info.
Context (CEI : euc_info) (mb_cur_max : Z).

(** ** [_EUC_mbrtowc] *)

(** The [for] loop, with the bound [MIN(want, n)]: None when it finds a NUL,
    or [i] and [wc] behind it. *)
Fixpoint euc_more (s : list Z) (i bound wc : Z) : res (option (Z * Z)) :=
  if negb (i <? bound) then Ok (Some (i, wc))
  else
    match s with
    | [] => Crash OutOfBounds
    | b :: s => if b =? 0 then Ok None else euc_more s (i + 1) bound (s32 (Z.lor (Z.shiftl wc 8) b))
    end.

(** From the loop on; [skipped] is 1 behind a single shift. *)
Definition euc_loop (null : bool) (set want i n : Z) (s : list Z) (wc : Z) (skipped : Z) (es : euc_state)
    : res (mbr euc_state) :=
  let! r := euc_more s i (Z.min (u64 want) n) wc in
  match r with
  | None => Ok (Mbr size_minus_1 None (Some EILSEQ) es)
  | Some (i, wc) =>
      if i <? want then Ok (Mbr size_minus_2 None None (EucSt wc set (want - i)))
      else
        let! bits := arr_get (euc_bits CEI) set in
        let wc := Z.lor (Z.land wc (Z.lnot (euc_mask CEI))) bits in
        Ok (Mbr (if wc =? 0 then 0 else skipped + i) (if null then None else Some wc) None
              (EucSt (es_ch es) (es_set es) 0))
  end.

Definition _EUC_mbrtowc (s : option (list Z)) (n : Z) (es : euc_state) : res (mbr euc_state) :=
  if (es_want es <? 0) || (es_want es >? mb_cur_max) || (es_set es <? 0) || (es_set es >? 3) then
    Ok (Mbr size_minus_1 None (Some EINVAL) es)
  else
    let null := bool_decide (s = None) in
    let n := if null then 1 else n in
    let s := default [0] s in
    if n =? 0 then Ok (Mbr size_minus_2 None None es)
    else if es_want es =? 0 then
      let! b := arr_get s 0 in
      let set := _euc_set b in
      let! want := arr_get (euc_count CEI) set in
      if (set =? 2) || (set =? 3) then
        let want := want - 1 in
        let n := n - 1 in
        if n =? 0 then Ok (Mbr size_minus_2 None None (EucSt 0 set want))
        else
          let! b := arr_get s 1 in
          if b =? 0 then Ok (Mbr size_minus_1 None (Some EILSEQ) es)
          else euc_loop null set want 1 n (drop 2 s) b 1 es
      else euc_loop null set want 1 n (drop 1 s) b 0 es
    else euc_loop null (es_set es) (es_want es) 0 n s (es_ch es) 0 es.

(** ** [_EUC_wcrtomb] *)

(** [while (i-- > 0) *s++ = (nm >> (i << 3)) | high;] *)
Fixpoint euc_put (high : Z) (i : nat) (nm : Z) : list Z :=
  match i with
  | O => []
  | S i => u8 (Z.lor (Z.shiftr nm (8 * Z.of_nat i)) high) :: euc_put high i nm
  end.

Definition _EUC_wcrtomb (s : bool) (wc : Z) (es : euc_state) : wcr euc_state :=
  let count x := nth x (euc_count CEI) 0 in
  let bits x := nth x (euc_bits CEI) 0 in
  if negb (es_want es =? 0) then Wcr size_minus_1 [] (Some EINVAL) es
  else if negb s then Wcr 1 [] None es
  else
    let m := Z.land wc (euc_mask CEI) in
    let nm := Z.land wc (Z.lnot m) in
    let CodeSet1 := Wcr (u64 (count 1%nat)) (euc_put 0x80 (Z.to_nat (count 1%nat)) nm) None es in
    if m =? bits 1%nat then CodeSet1
    else if m =? bits 0%nat then Wcr (u64 (count 0%nat)) (euc_put 0 (Z.to_nat (count 0%nat)) nm) None es
    else if m =? bits 2%nat then
      Wcr (u64 (count 2%nat)) (_SS2 :: euc_put 0 (Z.to_nat (count 2%nat - 1)) (s32 (Z.lor nm GR_BITS))) None es
    else if m =? bits 3%nat then
      Wcr (u64 (count 3%nat)) (_SS3 :: euc_put 0 (Z.to_nat (count 3%nat - 1)) (s32 (Z.lor nm GR_BITS))) None es
    else CodeSet1.

Definition euc_runelocale : runelocale euc_state :=
  std_runelocale _EUC_mbrtowc _EUC_wcrtomb _EUC_mbsinit mb_cur_max 256.
End Info.

(** ** [_EUC_init] *)

Section Init.
Context `{Ctype L}.

(** Over the spaces and tabs at [v]. *)
Fixpoint skip_blank (v : list Z) : res (list Z) :=
  match v with
  | [] => Crash OutOfBounds
  | c :: v' => if (c =? 32) || (c =? 9) then skip_blank v' else Ok v
  end.

(** [(int)strtol(v, &e, 0)], and [v = e]; None if there is no number. *)
Definition euc_number (v : list Z) : res (option (Z * list Z)) :=
  let! r := strtol v 0 in
  if endptr r =? 0 then Ok None else Ok (Some (s32 (value r), drop (Z.to_nat (endptr r)) v)).

(** The loop over the code sets; [x] of them are left. *)
Fixpoint euc_sets (x : nat) (v : list Z) (counts bits : list Z) (cur_max : Z)
    : res (option (list Z * list Z * Z * list Z)) :=
  match x with
  | O => Ok (Some (counts, bits, cur_max, v))
  | S x =>
      let! r := euc_number v in
      match r with
      | None => Ok None
      | Some (count, v) =>
          let cur_max := if cur_max <? count then count else cur_max in
          let! v := skip_blank v in
          let! r := euc_number v in
          match r with
          | None => Ok None
          | Some (bit, v) =>
              let! v := skip_blank v in
              euc_sets x v (counts ++ [count]) (bits ++ [bit]) cur_max
          end
      end
  end.

(** None for [EFTYPE], the error of a description that is missing or cannot
    be read; the new description otherwise, with [__mb_cur_max]. *)
Definition _EUC_init (variable : option (list Z)) : res (option (euc_info * Z)) :=
  match variable with
  | None => Ok None
  | Some v =>
      let! v := skip_blank v in
      let! r := euc_sets 4 v [] [] 0 in
      match r with
      | None => Ok None
      | Some (counts, bits, cur_max, v) =>
          let! r := euc_number v in
          match r with
          | None => Ok None
          | Some (mask, _) => Ok (Some (EucInfo counts bits mask, cur_max))
          end
      end
  end.
End Init.

(** ** Laws: extended Unix codes are lawful and restartable

    For descriptions as the manual page has them ([euc_wf]): ASCII in the set 0,
    and the high bits of the bytes to tell the others apart. *)


Record euc_wf (CEI : euc_info) (mb_cur_max : Z) (c1 c2 c3 b1 b2 b3 : Z) : Prop := {
  wf_count : euc_count CEI = [1; c1; c2; c3];
  wf_bits : euc_bits CEI = [0; b1; b2; b3];
  wf_max : mb_cur_max = Z.max 1 (Z.max c1 (Z.max c2 c3));
  wf_c1 : 1 <= c1 <= 3;
  wf_c2 : 2 <= c2 <= 4;
  wf_c3 : 2 <= c3 <= 4;
  wf_mask : Z.land (euc_mask CEI) 0x808080 = euc_mask CEI;
  wf_b1 : Z.land b1 (euc_mask CEI) = b1;
  wf_b2 : Z.land b2 (euc_mask CEI) = b2;
  wf_b3 : Z.land b3 (euc_mask CEI) = b3;
  wf_distinct : NoDup [0; b1; b2; b3]
}.

Section Euc.
Context (CEI : euc_info) (mb_cur_max c1 c2 c3 b1 b2 b3 : Z).
Context (wf : euc_wf CEI mb_cur_max c1 c2 c3 b1 b2 b3).

(** ** The loop *)

(** What the loop returns once it has nothing left to read or to want. *)
Definition euc_end (set want : Z) (wc used : Z) (es : euc_state) : res (mbr euc_state) :=
  if 0 <? want then Ok (Mbr size_minus_2 None None (EucSt wc set want))
  else
    let! bits := arr_get (euc_bits CEI) set in
    let wc := Z.lor (Z.land wc (Z.lnot (euc_mask CEI))) bits in
    Ok (Mbr (if wc =? 0 then 0 else used) (Some wc) None (EucSt (es_ch es) (es_set es) 0)).

(** The loop as a recursion over the bytes it is still to read. *)
Fixpoint euc_run (set want n : Z) (s : list Z) (wc used : Z) (es : euc_state) : res (mbr euc_state) :=
  if (want =? 0) || (n =? 0) then euc_end set want wc used es
  else
    match s with
    | [] => Crash OutOfBounds
    | b :: s =>
        if b =? 0 then Ok (Mbr size_minus_1 None (Some EILSEQ) es)
        else euc_run set (want - 1) (n - 1) s (s32 (Z.lor (Z.shiftl wc 8) b)) (used + 1) es
    end.

Lemma euc_loop_run set s : forall want i n wc skipped es,
  0 <= i <= want -> i <= n -> want < 2 ^ 31 ->
  euc_loop CEI false set want i n s wc skipped es = euc_run set (want - i) (n - i) s wc (skipped + i) es.
Proof.
  unfold euc_loop. induction s as [|b s IH]; intros want i n wc skipped es Hi Hn Hw;
    cbn [euc_more euc_run]; rewrite (u64_small want) by lia;
    (destruct (Z.ltb_spec i (Z.min want n)) as [Hlt|Hge]; cbn [negb];
     [rewrite (proj2 (Z.eqb_neq (want - i) 0)), (proj2 (Z.eqb_neq (n - i) 0)) by lia; cbn [orb]
     |replace ((want - i =? 0) || (n - i =? 0)) with true by lia; cbn [rbind]; unfold euc_end;
      by replace (0 <? want - i) with (i <? want) by lia]).
  - done.
  - destruct (b =? 0); [done|]. specialize (IH want (i + 1) n (s32 (Z.lor (Z.shiftl wc 8) b)) skipped es).
    rewrite u64_small in IH by lia. rewrite IH by lia. f_equal; lia.
Qed.

(** ** The decoder *)

Definition euc_idle (es : euc_state) : Prop := es_want es = 0 /\ 0 <= es_set es <= 3.

Definition euc_valid (es : euc_state) : Prop := 0 <= es_want es < mb_cur_max /\ 0 <= es_set es <= 3.

Definition set_count (set : Z) : Z :=
  if set =? 0 then 1 else if set =? 1 then c1 else if set =? 2 then c2 else c3.

Lemma euc_set_range b : byte b -> 0 <= _euc_set b <= 3.
Proof. revert b. apply (byte_ind (fun b => 0 <= _euc_set b <= 3)). by vm_compute. Qed.

Lemma set_lookup b : byte b -> arr_get (euc_count CEI) (_euc_set b) = Ok (set_count (_euc_set b)).
Proof.
  intros Hb. pose proof (euc_set_range b Hb). rewrite (wf_count _ _ _ _ _ _ _ _ wf). unfold set_count.
  assert (_euc_set b = 0 \/ _euc_set b = 1 \/ _euc_set b = 2 \/ _euc_set b = 3) as [->|[->|[->| ->]]] by lia; done.
Qed.

(** Whether a byte is a single shift. *)
Definition shifts (b : Z) : bool := (b =? _SS2) || (b =? _SS3).

Lemma shifts_set b : byte b -> (_euc_set b =? 2) || (_euc_set b =? 3) = shifts b.
Proof. revert b. by apply (byte_ind _). Qed.

Lemma count_bounds b : byte b ->
  (if shifts b then 2 else 1) <= set_count (_euc_set b) <= mb_cur_max /\ mb_cur_max <= 4.
Proof.
  intros Hb. pose proof (shifts_set b Hb) as Hs. pose proof (euc_set_range b Hb).
  destruct wf. unfold set_count. rewrite <-Hs.
  assert (_euc_set b = 0 \/ _euc_set b = 1 \/ _euc_set b = 2 \/ _euc_set b = 3) as [->|[->|[->| ->]]] by lia;
    cbn; lia.
Qed.

(** With nothing pending: the first byte stands for itself, or it is a single
    shift. *)
Lemma euc_fresh b s n es :
  euc_idle es -> byte b -> (shifts b = true -> Forall byte (take 1 s)) -> 0 < n ->
  _EUC_mbrtowc CEI mb_cur_max (Some (b :: s)) n es =
    euc_run (_euc_set b) (set_count (_euc_set b) - 1) (n - 1) s (if shifts b then 0 else b) 1 es.
Proof.
  intros [Hw Hs] Hb Hsb Hn. pose proof (count_bounds b Hb) as [Hc Hm]. unfold _EUC_mbrtowc. rewrite Hw.
  replace ((0 <? 0) || (0 >? mb_cur_max) || (es_set es <? 0) || (es_set es >? 3)) with false by (destruct (shifts b); lia).
  rewrite bool_decide_eq_false_2 by done. cbn [default id]. rewrite (proj2 (Z.eqb_neq n 0)) by lia. cbn [Z.eqb].
  change (arr_get (b :: s) 0) with (Ok b). cbn [rbind]. rewrite set_lookup by done. cbn [rbind].
  rewrite shifts_set by done. destruct (shifts b) eqn:Esh.
  - destruct (Z.eqb_spec (n - 1) 0) as [E0|H0].
    { rewrite E0. destruct s; cbn [euc_run]; rewrite orb_true_r; unfold euc_end;
        by rewrite (proj2 (Z.ltb_lt _ _)) by lia. }
    replace (arr_get (b :: s) 1) with (arr_get s 0) by done.
    destruct s as [|b' s]; cbn [euc_run]; rewrite (proj2 (Z.eqb_neq (n - 1) 0)), (proj2 (Z.eqb_neq (_ - 1) 0)) by lia; [done|].
    change (arr_get (b' :: s) 0) with (Ok b'). cbn [rbind orb]. destruct (b' =? 0) eqn:Eb'; [done|].
    change (drop 2 (b :: b' :: s)) with s. rewrite euc_loop_run by lia.
    apply Forall_cons in Hsb as [Hb' _]; [|done]. unfold byte in Hb'.
    rewrite Z.shiftl_0_l, Z.lor_0_l, s32_small by lia. f_equal; lia.
  - change (drop 1 (b :: s)) with s. rewrite euc_loop_run by lia. done.
Qed.

Lemma euc_pending s n es :
  euc_valid es -> es_want es <> 0 -> 0 <= n ->
  _EUC_mbrtowc CEI mb_cur_max (Some s) n es =
    euc_run (es_set es) (es_want es) n s (es_ch es) 0 es.
Proof.
  intros [Hw Hs] H0 Hn. assert (mb_cur_max <= 4) by (destruct wf; lia). unfold _EUC_mbrtowc.
  replace ((es_want es <? 0) || (es_want es >? mb_cur_max) || (es_set es <? 0) || (es_set es >? 3)) with false by lia.
  rewrite bool_decide_eq_false_2 by done. cbn [default id]. rewrite (proj2 (Z.eqb_neq (es_want es) 0)) by done.
  destruct (Z.eqb_spec n 0) as [->|].
  - destruct s; cbn [euc_run]; rewrite orb_true_r; unfold euc_end; rewrite (proj2 (Z.ltb_lt 0 _)) by lia;
      by destruct es.
  - rewrite euc_loop_run by lia. f_equal; lia.
Qed.

(** ** In pieces *)

Lemma euc_end_more set want wc used es es' :
  euc_end set want wc used es = Ok (Mbr size_minus_2 None None es') -> 0 < want /\ es' = EucSt wc set want.
Proof.
  unfold euc_end. destruct (Z.ltb_spec 0 want); [|by destruct (arr_get _ _)]. intros [= <-]. done.
Qed.

(** A call that asks for more has taken every byte. *)
Lemma euc_run_more set s1 : forall want wc used es es',
  euc_run set want (Z.of_nat (length s1)) s1 wc used es = Ok (Mbr size_minus_2 None None es') ->
  exists wc', es' = EucSt wc' set (want - Z.of_nat (length s1)) /\ Z.of_nat (length s1) < want /\
    forall n2 s2, 0 <= n2 ->
      euc_run set want (Z.of_nat (length s1) + n2) (s1 ++ s2) wc used es =
        euc_run set (want - Z.of_nat (length s1)) n2 s2 wc' (used + Z.of_nat (length s1)) es.
Proof.
  induction s1 as [|b s1 IH]; intros want wc used es es' E.
  - cbn [length euc_run] in E. rewrite orb_true_r in E. apply euc_end_more in E as [Hw ->].
    exists wc. cbn [length app]. change (Z.of_nat 0) with 0. rewrite Z.sub_0_r. split; [done|]. split; [done|].
    intros n2 s2 _. by rewrite Z.add_0_r.
  - cbn [length] in E |- *. rewrite Nat2Z.inj_succ in *. cbn [euc_run app] in *.
    rewrite (proj2 (Z.eqb_neq (Z.succ _) 0)), orb_false_r in E by lia.
    destruct (Z.eqb_spec want 0) as [->|Hw]; [by apply euc_end_more in E as [? _]; lia|].
    destruct (b =? 0); [done|]. replace (Z.succ (Z.of_nat (length s1)) - 1) with (Z.of_nat (length s1)) in E by lia.
    destruct (IH _ _ _ _ _ E) as (wc' & -> & Hlt & Hr). exists wc'. split; [f_equal; lia|]. split; [lia|].
    intros n2 s2 Hn2. rewrite (proj2 (Z.eqb_neq (Z.succ _ + _) 0)) by lia. cbn [orb].
    replace (Z.succ (Z.of_nat (length s1)) + n2 - 1) with (Z.of_nat (length s1) + n2) by lia.
    rewrite Hr by done. f_equal; lia.
Qed.

(** States that behave alike: what is left of a finished character does not
    matter. *)
Definition euc_eqv (es1 es2 : euc_state) : Prop :=
  es_want es1 = es_want es2 /\ (es_want es1 <> 0 -> es1 = es2).

Lemma euc_run_resume set s : forall want n wc used d es es',
  0 <= set <= 3 -> 0 <= want <= 4 -> 0 <= n <= Z.of_nat (length s) ->
  0 <= used -> used + want <= 8 -> 0 < used + want -> 0 <= d < 2 ^ 63 ->
  exists r' r, euc_run set want n s wc used es' = Ok r' /\ euc_run set want n s wc (d + used) es = Ok r /\
    resumed_by euc_eqv d r' r.
Proof.
  assert (Hend : forall want wc used d es es',
    0 <= set <= 3 -> 0 <= used <= 8 -> 0 < used + want -> 0 <= want ->
    exists r' r, euc_end set want wc used es' = Ok r' /\ euc_end set want wc (d + used) es = Ok r /\
      resumed_by euc_eqv d r' r).
  { intros want wc used d es es' Hset Hu Hp Hw. unfold euc_end. destruct (Z.ltb_spec 0 want).
    { eexists _, _. split; [done|]. split; [done|]. by split. }
    rewrite (wf_bits _ _ _ _ _ _ _ _ wf). destruct (lookup_in_range [0; b1; b2; b3] set) as [bits Hb]; [cbn; lia|].
    rewrite (arr_get_ok _ _ bits) by (done || lia). cbn [rbind]. eexists _, _. split; [done|]. split; [done|].
    unfold resumed_by. cbn [mb_pwc mb_errno mb_ret mb_state]. split; [done|]. split; [done|].
    split; [|by split]. destruct (_ =? 0); [done|]. rewrite bool_decide_eq_false_2; [done|].
    rewrite !elem_of_cons, elem_of_nil. unfold size_minus_1, size_minus_2. lia. }
  induction s as [|b s IH]; intros want n wc used d es es' Hset Hw Hn Hu Hs Hp Hd; cbn [euc_run length] in *.
  - replace n with 0 by lia. rewrite orb_true_r. apply Hend; lia.
  - destruct ((want =? 0) || (n =? 0)) eqn:E; [apply Hend; lia|].
    destruct (b =? 0); [eexists _, _; split; [done|]; split; [done|]; by split|].
    rewrite <-Z.add_assoc. apply IH; lia.
Qed.

Lemma euc_restart : Restartable (_EUC_mbrtowc CEI mb_cur_max) euc_valid euc_eqv.
Proof.
  intros es es' s1 s2 n2 Hv Hne Hb1 Hb2 Hn2 E1. assert (mb_cur_max <= 4) by (destruct wf; lia).
  destruct (decide (es_want es = 0)) as [H0|H0].
  - destruct s1 as [|b s1]; [done|]. apply Forall_cons in Hb1 as [Hb Hb1].
    assert (Hi : euc_idle es) by (split; [done|apply Hv]). pose proof (count_bounds b Hb) as [Hc _].
    pose proof (euc_set_range b Hb). cbn [length app] in *. rewrite Nat2Z.inj_succ in *.
    assert (Hcb : 1 <= set_count (_euc_set b) <= mb_cur_max) by (destruct (shifts b); lia).
    rewrite euc_fresh in E1; [|done|done|intros _; by apply Forall_take|lia].
    replace (Z.succ (Z.of_nat (length s1)) - 1) with (Z.of_nat (length s1)) in E1 by lia.
    destruct (euc_run_more _ _ _ _ _ _ _ E1) as (wc' & -> & Hlt & Hr).
    assert (Hv' : euc_valid (EucSt wc' (_euc_set b) (set_count (_euc_set b) - 1 - Z.of_nat (length s1)))).
    { split; cbn; lia. }
    split; [done|]. rewrite euc_pending by (done || cbn; lia). cbn [es_set es_want es_ch].
    rewrite euc_fresh; [|done|done|intros _; by apply Forall_take, Forall_app|lia].
    replace (Z.succ (Z.of_nat (length s1)) + n2 - 1) with (Z.of_nat (length s1) + n2) by lia.
    rewrite Hr by lia. replace (1 + Z.of_nat (length s1)) with (Z.succ (Z.of_nat (length s1)) + 0) by lia.
    apply euc_run_resume; lia.
  - rewrite euc_pending in E1 by (done || lia).
    destruct (euc_run_more _ _ _ _ _ _ _ E1) as (wc' & -> & Hlt & Hr).
    assert (Hv' : euc_valid (EucSt wc' (es_set es) (es_want es - Z.of_nat (length s1)))).
    { destruct Hv. split; cbn; lia. }
    split; [done|]. rewrite !euc_pending by (done || cbn; lia). cbn [es_set es_want es_ch].
    rewrite Hr by lia. replace (0 + Z.of_nat (length s1)) with (Z.of_nat (length s1) + 0) by lia.
    destruct Hv. apply euc_run_resume; lia.
Qed.
End Euc.

(** ** Extended Unix codes are a lawful encoding *)

(** A byte of the sets 1, 2 and 3. *)
Definition high_byte (b : Z) : Prop := 0x80 <= b < 0x100.

(** The number the bytes write, behind the number [w]. *)
Definition be_value (w : Z) (bs : list Z) : Z := fold_left (fun v b => v * 256 + b) bs w.

Lemma be_value_div w bs : Forall byte bs -> be_value w bs / 2 ^ (8 * Z.of_nat (length bs)) = w.
Proof.
  intros Hb. revert w. induction Hb as [|b bs Hb _ IH]; intros w; cbn [be_value fold_left length].
  - apply Z.div_1_r.
  - replace (8 * Z.of_nat (S (length bs))) with (8 * Z.of_nat (length bs) + 8) by lia.
    rewrite Z.pow_add_r, <-Z.div_div by lia. change (fold_left _ bs ?x) with (be_value x bs). rewrite IH.
    unfold byte in Hb. zbits.
Qed.

(** ** Bits *)

Lemma small_bits c n k : 0 <= c < 2 ^ n -> 0 <= n -> n <= k -> Z.testbit c k = false.
Proof. intros Hc Hn Hk. apply (proj1 (Z.bounded_iff_bits_nonneg n c Hn ltac:(lia)) ltac:(lia) k Hk). Qed.

Lemma byte_bits b j : high_byte b -> 0 <= j -> (7 <= j -> Z.testbit b j = (j =? 7)).
Proof.
  intros Hb Hj H7. destruct (Z.eqb_spec j 7) as [->|].
  - rewrite Z.testbit_eqb by lia. apply Z.eqb_eq. unfold high_byte in Hb. zbits.
  - apply (small_bits _ 8); unfold high_byte in Hb; lia.
Qed.

Lemma u8_bits z j : 0 <= j -> Z.testbit (u8 z) j = (j <? 8) && Z.testbit z j.
Proof.
  intros Hj. unfold u8. destruct (Z.ltb_spec j 8); [by rewrite Z.mod_pow2_bits_low by lia|].
  by rewrite Z.mod_pow2_bits_high by lia.
Qed.

Lemma s32_bits z k : 0 <= k < 32 -> Z.testbit (s32 z) k = Z.testbit z k.
Proof.
  intros Hk. rewrite <-(Z.mod_pow2_bits_low (s32 z) 32), <-(Z.mod_pow2_bits_low z 32) by lia. f_equal.
  unfold s32. rewrite Zminus_mod_idemp_l. f_equal. lia.
Qed.

(** The high bits of the first three bytes. *)
Lemma high_bits k : 0 <= k -> Z.testbit 0x808080 k = (k <? 24) && (k mod 8 =? 7).
Proof.
  intros Hk. destruct (Z.ltb_spec k 24); [|apply (small_bits _ 24); lia].
  assert (Ha : forallb (fun n => Bool.eqb (Z.testbit 0x808080 (Z.of_nat n)) (Z.of_nat n mod 8 =? 7)) (seq 0 24) = true)
    by (by vm_compute).
  rewrite forallb_forall in Ha. specialize (Ha (Z.to_nat k)). rewrite Z2Nat.id in Ha by lia.
  apply Bool.eqb_prop, Ha, in_seq. lia.
Qed.

Lemma gr_bits k : 0 <= k < 24 -> Z.testbit GR_BITS k = (k mod 8 =? 7).
Proof.
  intros Hk. change GR_BITS with (Z.lor 0x808080 0x80000000). rewrite Z.lor_spec, high_bits by lia.
  rewrite (proj2 (Z.ltb_lt _ _)) by lia. change 0x80000000 with (2 ^ 31).
  by rewrite Z.pow2_bits_false, orb_false_r by lia.
Qed.

(** ** Writing the bytes *)

(** What is written, when the bits below the high ones are those of the number. *)
Lemma euc_put_bytes high nm bs : forall w,
  Forall high_byte bs ->
  (forall k j, 0 <= j < 8 -> 0 <= k < Z.of_nat (length bs) ->
    Z.testbit nm (8 * k + j) || Z.testbit high j = Z.testbit (be_value w bs) (8 * k + j) || (j =? 7)) ->
  euc_put high (length bs) nm = bs.
Proof.
  induction bs as [|b bs IH]; intros w Hb Hbits; [done|]. apply Forall_cons in Hb as [Hb Hbs].
  cbn [length euc_put]. f_equal.
  - apply Z.bits_inj'. intros j Hj. rewrite u8_bits by done. destruct (Z.ltb_spec j 8); cbn [andb].
    2: { symmetry. apply (small_bits _ 8); unfold high_byte in Hb; lia. }
    rewrite Z.lor_spec, Z.shiftr_spec by lia. rewrite (Z.add_comm j), Hbits by (cbn; lia).
    cbn [be_value fold_left]. change (fold_left _ bs ?x) with (be_value x bs).
    assert (Hv : Z.testbit (be_value (w * 256 + b) bs) (8 * Z.of_nat (length bs) + j) = Z.testbit (w * 256 + b) j).
    { rewrite <-(be_value_div (w * 256 + b) bs) at 2; [rewrite Z.div_pow2_bits by lia; f_equal; lia|].
      eapply Forall_impl; [done|]. unfold high_byte, byte. lia. }
    rewrite Hv. rewrite <-(Z.mod_pow2_bits_low (w * 256 + b) 8 j) by lia.
    replace ((w * 256 + b) mod 2 ^ 8) with b by (unfold high_byte in Hb; zbits).
    destruct (decide (7 <= j)); [rewrite (byte_bits b j) by done; by destruct (j =? 7)|].
    by rewrite (proj2 (Z.eqb_neq j 7)), orb_false_r by lia.
  - apply (IH (w * 256 + b)); [done|]. intros k j Hj Hk. apply Hbits; cbn [length]; lia.
Qed.

Section Laws.
Context (CEI : euc_info) (mb_cur_max c1 c2 c3 b1 b2 b3 : Z).
Context (wf : euc_wf CEI mb_cur_max c1 c2 c3 b1 b2 b3).
Abbreviation mask := (euc_mask CEI).

(** The wide character of the number [v] in a set with the bits [bits]. *)
Definition euc_wide (v bits : Z) : Z := Z.lor (Z.land v (Z.lnot mask)) bits.

(** The characters: the sets 0 to 3. *)
Definition euc_code (c : Z) (bs : list Z) : Prop :=
  (0 <= c < 0x80 /\ bs = [c]) \/
  (exists b t, bs = b :: t /\ Forall high_byte bs /\ shifts b = false /\ Z.of_nat (length bs) = c1 /\
    c = euc_wide (be_value 0 bs) b1) \/
  (exists t, bs = _SS2 :: t /\ Forall high_byte t /\ Z.of_nat (length bs) = c2 /\ c = euc_wide (be_value 0 t) b2) \/
  (exists t, bs = _SS3 :: t /\ Forall high_byte t /\ Z.of_nat (length bs) = c3 /\ c = euc_wide (be_value 0 t) b3).

(** ** The bits of a wide character *)

Lemma mask_bits k : 0 <= k -> Z.testbit mask k = true -> k < 24 /\ k mod 8 = 7.
Proof.
  intros Hk. rewrite <-(wf_mask _ _ _ _ _ _ _ _ wf), Z.land_spec, high_bits by done. lia.
Qed.

Lemma set_bits k bits : Z.land bits mask = bits -> Z.testbit bits k = true -> Z.testbit mask k = true.
Proof. intros <-. rewrite Z.land_spec. by intros [_ ?]%andb_true_iff. Qed.

Lemma wide_mask v bits : Z.land bits mask = bits -> Z.land (euc_wide v bits) mask = bits.
Proof.
  intros Hb. apply Z.bits_inj'. intros k Hk. unfold euc_wide. rewrite Z.land_spec, Z.lor_spec, Z.land_spec, Z.lnot_spec by done.
  pose proof (set_bits k bits Hb). by destruct (Z.testbit v k), (Z.testbit bits k), (Z.testbit mask k); auto.
Qed.

Lemma wide_number v bits :
  Z.land bits mask = bits -> Z.land (euc_wide v bits) (Z.lnot bits) = Z.land v (Z.lnot mask).
Proof.
  intros Hb. apply Z.bits_inj'. intros k Hk. unfold euc_wide. rewrite !Z.land_spec, Z.lor_spec, Z.land_spec, !Z.lnot_spec by done.
  pose proof (set_bits k bits Hb) as Hs. destruct (Z.testbit v k), (Z.testbit bits k), (Z.testbit mask k); auto.
Qed.

Lemma ascii_mask c : 0 <= c < 0x80 -> Z.land c mask = 0 /\ Z.land c (Z.lnot mask) = c.
Proof.
  intros Hc. assert (Hk : forall k, 0 <= k -> Z.testbit c k = true -> Z.testbit mask k = false).
  { intros k Hk E. destruct (Z.testbit mask k) eqn:Em; [|done]. apply mask_bits in Em as [Hk' Hm]; [|done].
    rewrite (small_bits c 7) in E; [done|lia|lia|]. zbits. }
  split; apply Z.bits_inj'; intros k Hk0; rewrite Z.land_spec, ?Z.bits_0, ?Z.lnot_spec by done;
    specialize (Hk k Hk0); destruct (Z.testbit c k); auto; by rewrite Hk.
Qed.

(** ** Decoding *)

Lemma euc_run_bytes set t : forall n rest w used es,
  Forall high_byte t -> Z.of_nat (length t) <= n -> 0 <= w -> (w + 1) * 256 ^ Z.of_nat (length t) <= 2 ^ 24 ->
  euc_run CEI set (Z.of_nat (length t)) n (t ++ rest) w used es =
    euc_end CEI set 0 (be_value w t) (used + Z.of_nat (length t)) es.
Proof.
  induction t as [|b t IH]; intros n rest w used es Ht Hn Hw Hv.
  - cbn [length app]. change (Z.of_nat 0) with 0. rewrite Z.add_0_r. by destruct rest.
  - apply Forall_cons in Ht as [Hb Ht]. cbn [length app be_value fold_left] in *. rewrite Nat2Z.inj_succ in *.
    rewrite Z.pow_succ_r in Hv by lia. assert (0 < 256 ^ Z.of_nat (length t)) by (apply Z.pow_pos_nonneg; lia).
    unfold high_byte in Hb. cbn [euc_run].
    rewrite !(proj2 (Z.eqb_neq _ 0)) by lia. cbn [orb].
    rewrite lor_shift, s32_small by nia. rewrite Z.sub_1_r, Z.pred_succ. rewrite IH by (done || nia).
    change (fold_left _ t ?x) with (be_value x t). f_equal; lia.
Qed.

Lemma set_of_byte b : byte b -> _euc_set b = if b <? 0x80 then 0 else if b =? _SS3 then 3 else if b =? _SS2 then 2 else 1.
Proof. revert b. by apply (byte_ind _). Qed.

Lemma euc_end_char set bits v used es :
  arr_get (euc_bits CEI) set = Ok bits ->
  euc_end CEI set 0 v used es =
    Ok (Mbr (if euc_wide v bits =? 0 then 0 else used) (Some (euc_wide v bits)) None (EucSt (es_ch es) (es_set es) 0)).
Proof. intros E. unfold euc_end. cbn [Z.ltb Z.compare]. by rewrite E. Qed.

Lemma get_bits k bits : [0; b1; b2; b3] !! Z.to_nat k = Some bits -> 0 <= k -> arr_get (euc_bits CEI) k = Ok bits.
Proof. intros E Hk. rewrite (wf_bits _ _ _ _ _ _ _ _ wf). by apply arr_get_ok. Qed.

(** Bytes that fit in three. *)
Lemma three_bytes k : 0 <= k <= 3 -> (0 + 1) * 256 ^ k <= 2 ^ 24.
Proof. intros Hk. pose proof (Z.pow_le_mono_r 256 k 3). lia. Qed.

(** A set behind a single shift. *)
Lemma euc_decode_shift es s x cnt bits v t n :
  euc_idle es -> (s = _SS2 /\ x = 2 /\ cnt = c2 /\ bits = b2) \/ (s = _SS3 /\ x = 3 /\ cnt = c3 /\ bits = b3) ->
  Forall high_byte v -> Z.of_nat (length (s :: v)) = cnt -> Z.of_nat (length (s :: v)) <= n ->
  _EUC_mbrtowc CEI mb_cur_max (Some (s :: v ++ t)) n es =
    Ok (Mbr (if euc_wide (be_value 0 v) bits =? 0 then 0 else Z.of_nat (length (s :: v)))
      (Some (euc_wide (be_value 0 v) bits)) None (EucSt (es_ch es) (es_set es) 0)).
Proof.
  intros Hi Hs Hv Hlen Hn. cbn [length] in *.
  assert (Hx : byte s /\ _euc_set s = x /\ shifts s = true /\ set_count c1 c2 c3 x = cnt /\
    arr_get (euc_bits CEI) x = Ok bits /\ 2 <= cnt <= 4).
  { pose proof (wf_c2 _ _ _ _ _ _ _ _ wf). pose proof (wf_c3 _ _ _ _ _ _ _ _ wf).
    destruct Hs as [(-> & -> & -> & ->)|(-> & -> & -> & ->)]; repeat split; try (done || lia); by apply get_bits. }
  destruct Hx as (Hsb & Hset & Hsh & Hcnt & Hbit & Hc4).
  rewrite (euc_fresh CEI mb_cur_max c1 c2 c3 b1 b2 b3 wf); [|done|done| |lia].
  2: { intros _. destruct Hv as [|b v Hb Hv]; [cbn in *; lia|]. repeat constructor; unfold high_byte in Hb; lia. }
  rewrite Hset, Hsh, Hcnt. replace (cnt - 1) with (Z.of_nat (length v)) by lia.
  rewrite euc_run_bytes, (euc_end_char _ bits) by (done || lia || (apply three_bytes; lia)).
  do 2 f_equal. case_match; lia.
Qed.

Lemma euc_decode_code es c bs t n :
  euc_idle es -> euc_code c bs -> Z.of_nat (length bs) <= n ->
  _EUC_mbrtowc CEI mb_cur_max (Some (bs ++ t)) n es =
    Ok (Mbr (if c =? 0 then 0 else Z.of_nat (length bs)) (Some c) None (EucSt (es_ch es) (es_set es) 0)).
Proof.
  intros Hi [(Hc & ->)|[(b & v & -> & Hv & Hsh & Hl & ->)|[(v & -> & Hv & Hl & ->)|(v & -> & Hv & Hl & ->)]]] Hn;
    cbn [app].
  - cbn in Hn. assert (Hset : _euc_set c = 0) by (rewrite set_of_byte by (unfold byte; lia); by rewrite (proj2 (Z.ltb_lt _ _)) by lia).
    assert (Hns : shifts c = false) by (unfold shifts, _SS2, _SS3; lia).
    rewrite (euc_fresh CEI mb_cur_max c1 c2 c3 b1 b2 b3 wf); [|done|unfold byte; lia|congruence|lia].
    rewrite Hns, Hset. change (set_count c1 c2 c3 0 - 1) with (Z.of_nat (length (@nil Z))).
    rewrite (euc_run_bytes 0 [] _ t), (euc_end_char 0 0) by (done || cbn; lia || by apply get_bits).
    cbn [be_value fold_left length]. unfold euc_wide. by rewrite (proj2 (ascii_mask c Hc)), Z.lor_0_r.
  - pose proof (wf_c1 _ _ _ _ _ _ _ _ wf) as H1. apply Forall_cons in Hv as [Hb Hv]. cbn [length] in *.
    assert (Hbb : byte b) by (unfold high_byte in Hb; unfold byte; lia).
    assert (Hset : _euc_set b = 1).
    { rewrite set_of_byte by done. unfold shifts in Hsh. apply orb_false_iff in Hsh as [-> ->].
      by rewrite (proj2 (Z.ltb_ge _ _)) by apply Hb. }
    rewrite (euc_fresh CEI mb_cur_max c1 c2 c3 b1 b2 b3 wf); [|done|done|congruence|lia].
    rewrite Hsh, Hset. change (set_count c1 c2 c3 1) with c1. replace (c1 - 1) with (Z.of_nat (length v)) by lia.
    rewrite euc_run_bytes, (euc_end_char 1 b1); [|by apply get_bits|done|lia|apply Hbb|].
    + change (be_value 0 (b :: v)) with (be_value b v). do 2 f_equal. case_match; lia.
    + pose proof (Z.pow_le_mono_r 256 (Z.of_nat (length v)) 2). unfold high_byte in Hb. nia.
  - apply (euc_decode_shift es _SS2 2 c2 b2); auto.
  - apply (euc_decode_shift es _SS3 3 c3 b3); auto 10.
Qed.

(** ** Encoding *)

Lemma number_bits v k j :
  0 <= j < 8 -> 0 <= k ->
  Z.testbit (Z.land v (Z.lnot mask)) (8 * k + j) || (j =? 7) = Z.testbit v (8 * k + j) || (j =? 7).
Proof.
  intros Hj Hk. rewrite Z.land_spec, Z.lnot_spec by lia. destruct (Z.eqb_spec j 7); [by rewrite !orb_true_r|].
  destruct (Z.testbit mask (8 * k + j)) eqn:E; [|by rewrite andb_true_r].
  apply mask_bits in E as [_ E]; [zbits|lia].
Qed.

Lemma put_set1 v bs : Forall high_byte bs -> v = be_value 0 bs ->
  euc_put 0x80 (length bs) (Z.land v (Z.lnot mask)) = bs.
Proof.
  intros Hb ->. apply (euc_put_bytes _ _ _ 0); [done|]. intros k j Hj Hk.
  change 0x80 with (2 ^ 7). rewrite Z.pow2_bits_eqb, (Z.eqb_sym 7) by lia. apply number_bits; lia.
Qed.

Lemma put_shifted v bs : Forall high_byte bs -> (length bs <= 3)%nat -> v = be_value 0 bs ->
  euc_put 0 (length bs) (s32 (Z.lor (Z.land v (Z.lnot mask)) GR_BITS)) = bs.
Proof.
  intros Hb Hl ->. apply (euc_put_bytes _ _ _ 0); [done|]. intros k j Hj Hk.
  rewrite Z.bits_0, orb_false_r, s32_bits, Z.lor_spec, gr_bits by lia.
  replace ((8 * k + j) mod 8) with j by zbits. apply number_bits; lia.
Qed.

Lemma euc_encode_code es c bs :
  euc_idle es -> euc_code c bs ->
  _EUC_wcrtomb CEI true c es = Wcr (Z.of_nat (length bs)) bs None es.
Proof.
  intros [Hw _] Hc. destruct wf as [Hcount Hbits _ H1 H2 H3 _ Hb1 Hb2 Hb3 Hnd]. unfold _EUC_wcrtomb.
  rewrite Hw, Hcount, Hbits. cbn [Z.eqb negb nth].
  assert (b1 <> 0 /\ b2 <> 0 /\ b3 <> 0 /\ b2 <> b1 /\ b3 <> b1 /\ b3 <> b2) as (N1 & N2 & N3 & N21 & N31 & N32).
  { apply NoDup_cons in Hnd as [H0 [H1' [H2' _]%NoDup_cons]%NoDup_cons]. set_solver. }
  destruct Hc as [(Hc & ->)|[(b & v & -> & Hv & _ & Hl & ->)|[(v & -> & Hv & Hl & ->)|(v & -> & Hv & Hl & ->)]]].
  - rewrite (proj1 (ascii_mask c Hc)). rewrite (proj2 (Z.eqb_neq 0 b1)) by done. cbn [Z.eqb].
    change (Z.to_nat 1) with 1%nat. cbn [euc_put length]. change (8 * Z.of_nat 0) with 0.
    rewrite Z.shiftr_0_r, Z.lor_0_r, Z.land_m1_r, u8_small by lia. done.
  - rewrite wide_mask, wide_number, Z.eqb_refl by done. rewrite u64_small by lia. rewrite <-Hl, Nat2Z.id.
    by rewrite put_set1.
  - rewrite wide_mask, wide_number, !(proj2 (Z.eqb_neq b2 _)), Z.eqb_refl by done. rewrite u64_small by lia.
    cbn [length] in Hl. replace (Z.to_nat (c2 - 1)) with (length v) by lia. rewrite put_shifted by (done || lia).
    by rewrite <-Hl.
  - rewrite wide_mask, wide_number, !(proj2 (Z.eqb_neq b3 _)), Z.eqb_refl by done. rewrite u64_small by lia.
    cbn [length] in Hl. replace (Z.to_nat (c3 - 1)) with (length v) by lia. rewrite put_shifted by (done || lia).
    by rewrite <-Hl.
Qed.

(** ** Laws *)

Lemma euc_decode_byte es b :
  euc_idle es -> byte b ->
  exists r, _EUC_mbrtowc CEI mb_cur_max (Some [b]) 1 es = Ok r /\
    match mb_pwc r with Some c => euc_code c [b] | None => 1 < mb_ret r end.
Proof.
  intros Hi Hb. rewrite (euc_fresh CEI mb_cur_max c1 c2 c3 b1 b2 b3 wf) by (done || lia).
  cbn [euc_run]. rewrite orb_true_r. unfold euc_end.
  destruct (Z.ltb_spec 0 (set_count c1 c2 c3 (_euc_set b) - 1)) as [|Hle]; [by eexists|].
  pose proof (count_bounds CEI mb_cur_max c1 c2 c3 b1 b2 b3 wf b Hb) as [Hcb _].
  destruct (shifts b) eqn:Hsh; [lia|]. pose proof Hsh as Hsh2. unfold shifts in Hsh2. apply orb_false_iff in Hsh2 as [E2 E3].
  rewrite set_of_byte, E2, E3 in * by done. destruct (Z.ltb_spec b 0x80) as [Hlt|Hge].
  - rewrite (get_bits 0 0) by done. eexists. split; [done|]. cbn [mb_pwc]. unfold byte in Hb.
    left. rewrite (proj2 (ascii_mask b ltac:(lia))), Z.lor_0_r. split; [lia|done].
  - rewrite (get_bits 1 b1) by done. eexists. split; [done|]. cbn [mb_pwc]. right. left. exists b, [].
    change (set_count c1 c2 c3 1) with c1 in *. split; [done|]. split; [by repeat constructor; try apply Hb|].
    split; [done|]. split; [cbn; lia|done].
Qed.

Lemma euc_laws : EncodingLaws (euc_runelocale CEI mb_cur_max) (EucSt 0 0 0) euc_idle euc_code.
Proof.
  split; try done.
  - intros c bs Hc. destruct wf as [_ _ Hm H1 H2 H3 _ _ _ _ _]. cbn [euc_runelocale std_runelocale __mb_cur_max].
    destruct Hc as [(_ & ->)|[(b & v & _ & _ & _ & Hl & _)|[(v & _ & _ & Hl & _)|(v & _ & _ & Hl & _)]]]; cbn in *; lia.
  - destruct wf as [_ _ Hm H1 H2 H3 _ _ _ _ _]. cbn. unfold MB_LEN_MAX. lia.
  - by left.
  - intros es c bs t n Hi Hc Hn _. eexists. split; [|by apply euc_decode_code]. by split; [|apply Hi].
  - intros es b. apply euc_decode_byte.
  - intros es c bs Hi Hc. exists es. split; [done|]. by apply euc_encode_code.
Qed.
End Laws.

(** ** The description in the manual page *)

Definition euc_jp : euc_info := EucInfo [1; 2; 2; 3] [0; 0x8080; 0x0080; 0x8000] 0x8080.

Lemma euc_jp_wf : euc_wf euc_jp 3 2 2 3 0x8080 0x0080 0x8000.
Proof. split; try (done || lia). apply (bool_decide_eq_true_1 (NoDup [0; 32896; 128; 32768])). by vm_compute. Qed.
