(* ===== verification/Multibyte.v ===== *)
(** * Multibyte: the multibyte conversions of the C library

    Model of [locale/FreeBSD/mbrtowc.c], [mbrlen.c], [mbsinit.c], [mblen.c],
    [mbtowc.c], [wctomb.c], [mbsrtowcs.c], [mbsnrtowcs.c], [wcrtomb.c],
    [wcsrtombs.c], [wcsnrtombs.c], [mbstowcs.c], [wcstombs.c], [btowc.c] and
    [wctob.c]: the functions programs call, over the encoding of a locale.

    A locale object holds its encoding and the conversion states that the
    functions use when the caller gives none; the process knows three locale
    objects by name.  The type [St] is what the encodings keep in an
    [mbstate_t], and [initial] is a zeroed one. *)

From S2P Require Import Prelude StrTo Encoding EncodingText.

Definition EOF : Z := -1.
Definition WEOF : Z := -1.

(** The conversion states of a locale object. *)
Inductive mbs_slot :=
  | __mbs_mblen | __mbs_mbrlen | __mbs_mbrtowc | __mbs_mbsnrtowcs | __mbs_mbsrtowcs
  | __mbs_mbtowc | __mbs_wcrtomb | __mbs_wcsnrtombs | __mbs_wcsrtombs | __mbs_wctomb.

#[export] Instance mbs_slot_eq_dec : EqDecision mbs_slot.
Proof. solve_decision. Defined.

Record xlocale (St : Type) := Xlocale { __lc_ctype : runelocale St; __mbs : mbs_slot -> St }.
Arguments Xlocale {St} _ _.
Arguments __lc_ctype {St} _.
Arguments __mbs {St} _ _.

(** The locale objects, of the type [L] of their addresses. *)
Record locales (L St : Type) := Locales {
  object : L -> xlocale St; c_locale : L; global_locale : L; current_locale : L }.
Arguments Locales {L St} _ _ _ _.
Arguments object {L St} _ _.
Arguments c_locale {L St} _.
Arguments global_locale {L St} _.
Arguments current_locale {L St} _.

Section Functions.
Context {L St : Type} `{EqDecision L} (initial : St).
Abbreviation world := (locales L St).

Definition normalize_locale (w : world) (loc : locale_t L) : L :=
  match loc with
  | LC_C_LOCALE => c_locale w
  | LC_GLOBAL_LOCALE => global_locale w
  | Locale l => l
  end.

(** Assignment to a conversion state of a locale object. *)
Definition set_mbs (w : world) (l : L) (k : mbs_slot) (st : St) : world :=
  Locales (fun l' => if decide (l' = l) then
      Xlocale (__lc_ctype (object w l)) (fun k' => if decide (k' = k) then st else __mbs (object w l) k')
    else object w l') (c_locale w) (global_locale w) (current_locale w).

(** A call with the state [ps], or with the locale's own when [ps] is NULL. *)
Definition with_state {A} (w : world) (l : L) (k : mbs_slot) (ps : option St) (call : St -> res A) (after : A -> St)
    : res (A * world) :=
  match ps with
  | Some st => let! r := call st in Ok (r, w)
  | None => let! r := call (__mbs (object w l) k) in Ok (r, set_mbs w l k (after r))
  end.

(** ** One character, with a state *)

Definition mbrtowc_l (s : option (list Z)) (n : Z) (ps : option St) (loc : locale_t L) (w : world)
    : res (mbr St * world) :=
  let l := normalize_locale w loc in
  with_state w l __mbs_mbrtowc ps (__mbrtowc (__lc_ctype (object w l)) s n) mb_state.

Definition mbrtowc (s : option (list Z)) (n : Z) (ps : option St) (w : world) : res (mbr St * world) :=
  mbrtowc_l s n ps (Locale (current_locale w)) w.

(** [pwc] is NULL: the character is dropped. *)
Definition mbrlen_l (s : option (list Z)) (n : Z) (ps : option St) (loc : locale_t L) (w : world)
    : res (mbr St * world) :=
  let l := normalize_locale w loc in
  with_state w l __mbs_mbrlen ps
    (fun st => let! r := __mbrtowc (__lc_ctype (object w l)) s n st in
               Ok (Mbr (mb_ret r) None (mb_errno r) (mb_state r))) mb_state.

Definition mbrlen (s : option (list Z)) (n : Z) (ps : option St) (w : world) : res (mbr St * world) :=
  mbrlen_l s n ps (Locale (current_locale w)) w.

Definition mbsinit_l (ps : option St) (loc : locale_t L) (w : world) : bool :=
  __mbsinit (__lc_ctype (object w (normalize_locale w loc))) ps.

Definition mbsinit (ps : option St) (w : world) : bool := mbsinit_l ps (Locale (current_locale w)) w.

Definition wcrtomb_l (s : bool) (wc : Z) (ps : option St) (loc : locale_t L) (w : world) : res (wcr St * world) :=
  let l := normalize_locale w loc in
  with_state w l __mbs_wcrtomb ps (fun st => Ok (__wcrtomb (__lc_ctype (object w l)) s wc st)) wc_state.

Definition wcrtomb (s : bool) (wc : Z) (ps : option St) (w : world) : res (wcr St * world) :=
  wcrtomb_l s wc ps (Locale (current_locale w)) w.

(** ** One character, with the locale's state

    What the functions return, as an [int]; what is stored; [errno] if set. *)

Definition mblen_l (s : option (list Z)) (n : Z) (loc : locale_t L) (w : world)
    : res (Z * option errno_t * world) :=
  let l := normalize_locale w loc in
  match s with
  | None => Ok (0, None, set_mbs w l __mbs_mblen initial)
  | Some s =>
      let! r := __mbrtowc (__lc_ctype (object w l)) (Some s) n (__mbs (object w l) __mbs_mblen) in
      let w := set_mbs w l __mbs_mblen (mb_state r) in
      if (mb_ret r =? size_minus_1) || (mb_ret r =? size_minus_2) then Ok (-1, mb_errno r, w)
      else Ok (s32 (mb_ret r), mb_errno r, w)
  end.

Definition mblen (s : option (list Z)) (n : Z) (w : world) : res (Z * option errno_t * world) :=
  mblen_l s n (Locale (current_locale w)) w.

Definition mbtowc_l (s : option (list Z)) (n : Z) (loc : locale_t L) (w : world)
    : res (Z * option Z * option errno_t * world) :=
  let l := normalize_locale w loc in
  match s with
  | None => Ok (0, None, None, set_mbs w l __mbs_mbtowc initial)
  | Some s =>
      let! r := __mbrtowc (__lc_ctype (object w l)) (Some s) n (__mbs (object w l) __mbs_mbtowc) in
      let w := set_mbs w l __mbs_mbtowc (mb_state r) in
      if (mb_ret r =? size_minus_1) || (mb_ret r =? size_minus_2) then Ok (-1, mb_pwc r, mb_errno r, w)
      else Ok (s32 (mb_ret r), mb_pwc r, mb_errno r, w)
  end.

Definition mbtowc (s : option (list Z)) (n : Z) (w : world) : res (Z * option Z * option errno_t * world) :=
  mbtowc_l s n (Locale (current_locale w)) w.

Definition wctomb_l (s : bool) (wchar : Z) (loc : locale_t L) (w : world)
    : Z * list Z * option errno_t * world :=
  let l := normalize_locale w loc in
  if negb s then (0, [], None, set_mbs w l __mbs_wctomb initial)
  else
    let r := __wcrtomb (__lc_ctype (object w l)) true wchar (__mbs (object w l) __mbs_wctomb) in
    let w := set_mbs w l __mbs_wctomb (wc_state r) in
    if wc_ret r =? size_minus_1 then (-1, wc_bytes r, wc_errno r, w)
    else (s32 (wc_ret r), wc_bytes r, wc_errno r, w).

Definition wctomb (s : bool) (wchar : Z) (w : world) : Z * list Z * option errno_t * world :=
  wctomb_l s wchar (Locale (current_locale w)) w.

(** ** Strings *)

Definition mbsnrtowcs_l (dst : bool) (src : list Z) (nms len : Z) (ps : option St) (loc : locale_t L) (w : world)
    : res (sconv St * world) :=
  let l := normalize_locale w loc in
  with_state w l __mbs_mbsnrtowcs ps (__mbsnrtowcs (__lc_ctype (object w l)) dst src nms len) sc_state.

Definition mbsnrtowcs (dst : bool) (src : list Z) (nms len : Z) (ps : option St) (w : world) : res (sconv St * world) :=
  mbsnrtowcs_l dst src nms len ps (Locale (current_locale w)) w.

Definition mbsrtowcs_l (dst : bool) (src : list Z) (len : Z) (ps : option St) (loc : locale_t L) (w : world)
    : res (sconv St * world) :=
  let l := normalize_locale w loc in
  with_state w l __mbs_mbsrtowcs ps (__mbsnrtowcs (__lc_ctype (object w l)) dst src SIZE_MAX len) sc_state.

Definition mbsrtowcs (dst : bool) (src : list Z) (len : Z) (ps : option St) (w : world) : res (sconv St * world) :=
  mbsrtowcs_l dst src len ps (Locale (current_locale w)) w.

Definition wcsnrtombs_l (dst : bool) (src : list Z) (nwc len : Z) (ps : option St) (loc : locale_t L) (w : world)
    : res (sconv St * world) :=
  let l := normalize_locale w loc in
  with_state w l __mbs_wcsnrtombs ps (__wcsnrtombs (__lc_ctype (object w l)) dst src nwc len) sc_state.

Definition wcsnrtombs (dst : bool) (src : list Z) (nwc len : Z) (ps : option St) (w : world) : res (sconv St * world) :=
  wcsnrtombs_l dst src nwc len ps (Locale (current_locale w)) w.

Definition wcsrtombs_l (dst : bool) (src : list Z) (len : Z) (ps : option St) (loc : locale_t L) (w : world)
    : res (sconv St * world) :=
  let l := normalize_locale w loc in
  with_state w l __mbs_wcsrtombs ps (__wcsnrtombs (__lc_ctype (object w l)) dst src SIZE_MAX len) sc_state.

Definition wcsrtombs (dst : bool) (src : list Z) (len : Z) (ps : option St) (w : world) : res (sconv St * world) :=
  wcsrtombs_l dst src len ps (Locale (current_locale w)) w.

(** With a state of the call's own: the locale objects stay as they are. *)
Definition mbstowcs_l (pwcs : bool) (s : list Z) (n : Z) (loc : locale_t L) (w : world)
    : res (Z * list Z * option errno_t) :=
  let! r := __mbsnrtowcs (__lc_ctype (object w (normalize_locale w loc))) pwcs s SIZE_MAX n initial in
  Ok (sc_ret r, sc_dst r, sc_errno r).

Definition mbstowcs (pwcs : bool) (s : list Z) (n : Z) (w : world) : res (Z * list Z * option errno_t) :=
  mbstowcs_l pwcs s n (Locale (current_locale w)) w.

Definition wcstombs_l (s : bool) (pwcs : list Z) (n : Z) (loc : locale_t L) (w : world)
    : res (Z * list Z * option errno_t) :=
  let! r := __wcsnrtombs (__lc_ctype (object w (normalize_locale w loc))) s pwcs SIZE_MAX n initial in
  Ok (sc_ret r, sc_dst r, sc_errno r).

Definition wcstombs (s : bool) (pwcs : list Z) (n : Z) (w : world) : res (Z * list Z * option errno_t) :=
  wcstombs_l s pwcs n (Locale (current_locale w)) w.

(** ** Bytes *)

(** [cc] is a [char]; its byte is [u8 c]. *)
Definition btowc_l (c : Z) (loc : locale_t L) (w : world) : res Z :=
  if c =? EOF then Ok WEOF
  else
    let! r := __mbrtowc (__lc_ctype (object w (normalize_locale w loc))) (Some [u8 c]) 1 initial in
    if mb_ret r >? 1 then Ok WEOF
    else
      match mb_pwc r with
      | Some wc => Ok wc
      | None => Crash UninitRead
      end.

Definition btowc (c : Z) (w : world) : res Z := btowc_l c (Locale (current_locale w)) w.

Definition wctob_l (c : Z) (loc : locale_t L) (w : world) : res Z :=
  if c =? WEOF then Ok EOF
  else
    let r := __wcrtomb (__lc_ctype (object w (normalize_locale w loc))) true c initial in
    if negb (wc_ret r =? 1) then Ok EOF
    else
      match wc_bytes r with
      | b :: _ => Ok b
      | [] => Crash UninitRead
      end.

Definition wctob (c : Z) (w : world) : res Z := wctob_l c (Locale (current_locale w)) w.
End Functions.
