(* ===== verification/MultibyteThms.v ===== *)
(** * MultibyteThms: the multibyte conversions over a lawful encoding *)

From S2P Require Import Prelude StrTo Encoding EncodingText DoubleByte Utf8 Utf8Decode Utf8Thms Multibyte.

Section Client.
Context {L St : Type} `{EqDecision L}.
Context (xrl : runelocale St) (initial : St) (idle : St -> Prop) (code : Z -> list Z -> Prop).
Context {laws : EncodingLaws xrl initial idle code}.

(** The locale object [l] has the encoding. *)
Definition encoded_by (w : locales L St) (l : L) : Prop := __lc_ctype (object w l) = xrl.

(** It has no character pending in the state [k]. *)
Definition ready (w : locales L St) (l : L) (k : mbs_slot) : Prop :=
  encoded_by w l /\ idle (__mbs (object w l) k).

(** Nothing but the state [k] of the object [l] differs. *)
Definition only_slot (w w' : locales L St) (l : L) (k : mbs_slot) : Prop :=
  (forall l', __lc_ctype (object w' l') = __lc_ctype (object w l')) /\
  (forall l' k', l' <> l \/ k' <> k -> __mbs (object w' l') k' = __mbs (object w l') k') /\
  forall loc, normalize_locale w' loc = normalize_locale w loc.

Lemma set_mbs_only w l k st : only_slot w (set_mbs w l k st) l k.
Proof.
  split; [|split; [|by intros []]].
  - intros l'. cbn. by destruct (decide (l' = l)) as [->|].
  - intros l' k' Hne. cbn. destruct (decide (l' = l)) as [->|]; [|done]. cbn.
    by destruct (decide (k' = k)) as [->|]; [destruct Hne|].
Qed.

Lemma set_mbs_ready w l k st : encoded_by w l -> idle st -> ready (set_mbs w l k st) l k.
Proof.
  intros He Hi. split; [unfold encoded_by in *; by rewrite (proj1 (set_mbs_only w l k st))|].
  cbn. rewrite decide_True by done. cbn. by rewrite decide_True.
Qed.

(** What the encoding returns for a character, as an [int]. *)
Lemma code_ret c bs :
  code c bs -> let ret := if c =? 0 then 0 else Z.of_nat (length bs) in
  (ret =? size_minus_1) || (ret =? size_minus_2) = false /\ s32 ret = ret.
Proof.
  intros Hc. pose proof (code_small _ _ Hc) as (Hl & E1 & E2 & _). unfold MB_LEN_MAX in Hl. cbn zeta.
  destruct (c =? 0); [done|]. rewrite E1, E2. split; [done|]. apply s32_small. lia.
Qed.
End Client.
Arguments ready {L St} _ _ _ _ _.
Arguments encoded_by {L St} _ _ _.
Arguments only_slot {L St} _ _ _ _.

(** A call of [mbtowc] or [mblen] with a string, up to what [mblen] does not
    store: the decoder, from the locale's state [k]. *)
Definition decode_step {L St} `{EqDecision L} (k : mbs_slot) (s : list Z) (n : Z) (loc : locale_t L)
    (w : locales L St) : res (Z * option Z * option errno_t * locales L St) :=
  let l := normalize_locale w loc in
  let! r := __mbrtowc (__lc_ctype (object w l)) (Some s) n (__mbs (object w l) k) in
  Ok (if (mb_ret r =? size_minus_1) || (mb_ret r =? size_minus_2) then -1 else s32 (mb_ret r),
      mb_pwc r, mb_errno r, set_mbs w l k (mb_state r)).

Section Steps.
Context {L St : Type} `{EqDecision L}.
Context (xrl : runelocale St) (initial : St) (idle : St -> Prop) (code : Z -> list Z -> Prop).
Context {laws : EncodingLaws xrl initial idle code}.
Context (valid : St -> Prop) (eqv : St -> St -> Prop) (restart : Restartable (__mbrtowc xrl) valid eqv).
Context (idle_valid : forall st, idle st -> valid st).
Context (idle_eqv : forall st st', idle st -> eqv st st' -> idle st').
Implicit Types (w : locales L St) (k : mbs_slot).

Lemma mbtowc_step s n loc w : mbtowc_l initial (Some s) n loc w = decode_step __mbs_mbtowc s n loc w.
Proof. unfold mbtowc_l, decode_step. destruct (__mbrtowc _ _ _ _); [cbn|done..]. by destruct (_ || _). Qed.

Lemma mblen_step s n loc w :
  mblen_l initial (Some s) n loc w =
    let! (ret, _, errno, w') := decode_step __mbs_mblen s n loc w in Ok (ret, errno, w').
Proof. unfold mblen_l, decode_step. destruct (__mbrtowc _ _ _ _); [cbn|done..]. by destruct (_ || _). Qed.

Lemma only_slot_trans w1 w2 w3 l k : only_slot w1 w2 l k -> only_slot w2 w3 l k -> only_slot w1 w3 l k.
Proof.
  intros (A1 & A2 & A3) (B1 & B2 & B3). split; [|split].
  - intros l'. by rewrite B1.
  - intros l' k' Hne. by rewrite B2, A2.
  - intros loc. by rewrite B3.
Qed.

(** A whole character, with none pending. *)
Lemma step_complete k w loc c bs t n :
  let l := normalize_locale w loc in
  ready xrl idle w l k -> code c bs -> Z.of_nat (length bs) <= n <= Z.of_nat (length (bs ++ t)) ->
  exists w', decode_step k (bs ++ t) n loc w =
      Ok (if c =? 0 then 0 else Z.of_nat (length bs), Some c, None, w') /\
    only_slot w w' l k /\ ready xrl idle w' l k.
Proof.
  intros l [He Hi] Hc Hn. destruct (code_ret xrl initial idle code c bs Hc) as [Er Es].
  destruct (decode_code (__mbs (object w l) k) c bs t n) as (st & Hst & E); [done|done|lia|left; lia|].
  unfold decode_step. fold l. pose proof He as He'. unfold encoded_by in He'. rewrite He', E.
  cbn [rbind mb_ret mb_pwc mb_errno mb_state]. rewrite Er, Es.
  eexists. split; [done|]. split; [apply set_mbs_only|by apply set_mbs_ready].
Qed.

(** A character in two pieces: the first call takes note of the bytes it
    was given, the second completes the character. *)
Lemma step_divided k w loc c p q t n st1 :
  let l := normalize_locale w loc in
  ready xrl idle w l k -> code c (p ++ q) -> c <> 0 -> p <> [] -> Forall byte (p ++ q ++ t) ->
  Z.of_nat (length q) <= n <= Z.of_nat (length (q ++ t)) ->
  __mbrtowc xrl (Some p) (Z.of_nat (length p)) (__mbs (object w l) k) = Ok (Mbr size_minus_2 None None st1) ->
  exists w1 w2, decode_step k p (Z.of_nat (length p)) loc w = Ok (-1, None, None, w1) /\
    decode_step k (q ++ t) n loc w1 = Ok (Z.of_nat (length q), Some c, None, w2) /\
    only_slot w w2 l k /\ ready xrl idle w2 l k.
Proof.
  intros l [He Hi] Hc H0 Hp [Hb1 Hb2]%Forall_app Hn E1.
  assert (E1' : decode_step k p (Z.of_nat (length p)) loc w = Ok (-1, None, None, set_mbs w l k st1)).
  { unfold decode_step. fold l. unfold encoded_by in He. by rewrite He, E1. }
  set (w1 := set_mbs w l k st1) in *.
  destruct (set_mbs_only w l k st1) as (Hct & Hsl & Hnl). fold w1 in Hct, Hsl, Hnl.
  assert (Hw1 : __mbs (object w1 l) k = st1).
  { cbn. rewrite decide_True by done. cbn. by rewrite decide_True. }
  destruct (restart (__mbs (object w l) k) st1 p (q ++ t) n) as (_ & r' & r & E2 & E3 & Rp & Re & Rr & Rs);
    [by apply idle_valid|done|done|done|lia|done|].
  destruct (decode_code (__mbs (object w l) k) c (p ++ q) t (Z.of_nat (length p) + n)) as (st & Hst & E);
    [done|done|rewrite length_app; lia|left; rewrite <-app_assoc, length_app; lia|].
  rewrite <-app_assoc, E3 in E. injection E as ->. cbn [mb_pwc mb_errno mb_ret mb_state] in *.
  rewrite (proj2 (Z.eqb_neq c 0)) in Rr by done.
  pose proof (code_small _ _ Hc) as (Hl & L1 & L2 & _). unfold MB_LEN_MAX in Hl. rewrite length_app in *.
  assert (Hret : mb_ret r' = Z.of_nat (length q)).
  { case_bool_decide as Hin; [|lia]. rewrite <-Rr in Hin. exfalso. unfold size_minus_1, size_minus_2 in *.
    rewrite !elem_of_cons, elem_of_nil in Hin. lia. }
  exists w1, (set_mbs w1 l k (mb_state r')). split; [done|]. split; [|split].
  - unfold decode_step. rewrite Hnl. fold l. rewrite Hct, Hw1. unfold encoded_by in He. rewrite He, E2.
    cbn [rbind]. rewrite Hret, <-Rp, <-Re. unfold size_minus_1, size_minus_2.
    rewrite (proj2 (Z.eqb_neq _ _)), (proj2 (Z.eqb_neq _ _)) by lia. by rewrite s32_small by lia.
  - eapply only_slot_trans; [apply set_mbs_only|apply set_mbs_only].
  - apply set_mbs_ready; [unfold encoded_by in *; by rewrite Hct|]. eapply idle_eqv; [exact Hst|by apply Rs].
Qed.

(** Bytes that are no character, or not yet one. *)
Lemma step_refused k w loc s n r :
  let l := normalize_locale w loc in
  encoded_by xrl w l -> __mbrtowc xrl (Some s) n (__mbs (object w l) k) = Ok r ->
  mb_ret r = size_minus_1 \/ mb_ret r = size_minus_2 ->
  exists w', decode_step k s n loc w = Ok (-1, mb_pwc r, mb_errno r, w') /\
    only_slot w w' l k /\ __mbs (object w' l) k = mb_state r.
Proof.
  intros l He E Hr. unfold decode_step. fold l. unfold encoded_by in He. rewrite He, E. cbn [rbind].
  eexists. split; [by destruct Hr as [->| ->]|]. split; [apply set_mbs_only|].
  cbn. rewrite decide_True by done. cbn. by rewrite decide_True.
Qed.

(** A call with NULL, then one with a character. *)
Lemma step_reset k w loc c bs t n :
  let l := normalize_locale w loc in
  encoded_by xrl w l -> code c bs -> Z.of_nat (length bs) <= n <= Z.of_nat (length (bs ++ t)) ->
  exists w', decode_step k (bs ++ t) n loc (set_mbs w l k initial) =
      Ok (if c =? 0 then 0 else Z.of_nat (length bs), Some c, None, w') /\
    only_slot w w' l k /\ ready xrl idle w' l k.
Proof.
  intros l He Hc Hn. assert (H0 : idle initial) by apply initial_idle.
  destruct (set_mbs_only w l k initial) as (Hct & Hsl & Hnl).
  destruct (step_complete k (set_mbs w l k initial) loc c bs t n) as (w' & E & Ho & Hr);
    [rewrite Hnl; by apply set_mbs_ready|done|done|].
  rewrite Hnl in Ho, Hr. exists w'. split; [done|]. split; [|done].
  eapply only_slot_trans; [apply set_mbs_only|done].
Qed.

Lemma wctomb_code w loc c bs :
  let l := normalize_locale w loc in
  ready xrl idle w l __mbs_wctomb -> code c bs ->
  exists w', wctomb_l initial true c loc w = (Z.of_nat (length bs), bs, None, w') /\
    only_slot w w' l __mbs_wctomb /\ ready xrl idle w' l __mbs_wctomb.
Proof.
  intros l [He Hi] Hc. destruct (encode_code (__mbs (object w l) __mbs_wctomb) c bs) as (st & Hst & E); [done|done|].
  unfold wctomb_l. fold l. cbn [negb]. pose proof He as He'. unfold encoded_by in He'. rewrite He', E.
  cbn [wc_ret wc_bytes wc_errno wc_state].
  pose proof (code_small _ _ Hc) as (Hl & E1 & _). unfold MB_LEN_MAX in Hl. rewrite E1, s32_small by lia.
  eexists. split; [done|]. split; [apply set_mbs_only|by apply set_mbs_ready].
Qed.
End Steps.

(** [C34] [mbtowc], [mblen] and [wctomb] keep the state of the conversion in the
    locale, and each touches no other state of any locale.  For [mbtowc] and
    [mblen], in a lawful encoding whose decoder is restartable:
    with no character pending, a call with a whole character returns it and its
    length and leaves none pending;
    a call with a first part [p] of a character, one the decoder calls
    incomplete, returns -1, and the next call, with the rest [q], returns the
    character and the length of the rest, and leaves none pending;
    a call the decoder refuses, or calls incomplete, returns -1 with the
    decoder's [errno], and the decoder's state is kept;
    and after a call with NULL, whatever was pending or refused before, the next
    call with a whole character returns it.
    [wctomb] writes the code of the character and returns its length, with
    nothing pending or after a call with NULL; when the encoder refuses the
    character it returns -1. *)
Theorem hidden_state_steps {L St} `{EqDecision L} (xrl : runelocale St) initial idle code
    `{!EncodingLaws xrl initial idle code} valid eqv (w : locales L St) loc :
  Restartable (__mbrtowc xrl) valid eqv -> (forall st, idle st -> valid st) ->
  (forall st st', idle st -> eqv st st' -> idle st') ->
  let l := normalize_locale w loc in
  let mbtowc := mbtowc_l initial in let mblen := mblen_l initial in let wctomb := wctomb_l initial in
  let m := __mbs_mbtowc in let e := __mbs_mblen in let o := __mbs_wctomb in
  encoded_by xrl w l ->
  (forall c bs t n, code c bs -> Z.of_nat (length bs) <= n <= Z.of_nat (length (bs ++ t)) ->
    let ret := if c =? 0 then 0 else Z.of_nat (length bs) in
    (ready xrl idle w l m -> exists w', mbtowc (Some (bs ++ t)) n loc w = Ok (ret, Some c, None, w') /\
      only_slot w w' l m /\ ready xrl idle w' l m) /\
    (ready xrl idle w l e -> exists w', mblen (Some (bs ++ t)) n loc w = Ok (ret, None, w') /\
      only_slot w w' l e /\ ready xrl idle w' l e) /\
    (exists w1 w2, mbtowc None n loc w = Ok (0, None, None, w1) /\
      mbtowc (Some (bs ++ t)) n loc w1 = Ok (ret, Some c, None, w2) /\
      only_slot w w2 l m /\ ready xrl idle w2 l m) /\
    (exists w1 w2, mblen None n loc w = Ok (0, None, w1) /\
      mblen (Some (bs ++ t)) n loc w1 = Ok (ret, None, w2) /\
      only_slot w w2 l e /\ ready xrl idle w2 l e)) /\
  (forall c p q t n, code c (p ++ q) -> c <> 0 -> p <> [] -> Forall byte (p ++ q ++ t) ->
    Z.of_nat (length q) <= n <= Z.of_nat (length (q ++ t)) ->
    let incomplete k := exists st1, __mbrtowc xrl (Some p) (Z.of_nat (length p)) (__mbs (object w l) k) =
      Ok (Mbr size_minus_2 None None st1) in
    (ready xrl idle w l m -> incomplete m ->
      exists w1 w2, mbtowc (Some p) (Z.of_nat (length p)) loc w = Ok (-1, None, None, w1) /\
        mbtowc (Some (q ++ t)) n loc w1 = Ok (Z.of_nat (length q), Some c, None, w2) /\
        only_slot w w2 l m /\ ready xrl idle w2 l m) /\
    (ready xrl idle w l e -> incomplete e ->
      exists w1 w2, mblen (Some p) (Z.of_nat (length p)) loc w = Ok (-1, None, w1) /\
        mblen (Some (q ++ t)) n loc w1 = Ok (Z.of_nat (length q), None, w2) /\
        only_slot w w2 l e /\ ready xrl idle w2 l e)) /\
  (forall s n r, mb_ret r = size_minus_1 \/ mb_ret r = size_minus_2 ->
    (__mbrtowc xrl (Some s) n (__mbs (object w l) m) = Ok r ->
      exists w', mbtowc (Some s) n loc w = Ok (-1, mb_pwc r, mb_errno r, w') /\
        only_slot w w' l m /\ __mbs (object w' l) m = mb_state r) /\
    (__mbrtowc xrl (Some s) n (__mbs (object w l) e) = Ok r ->
      exists w', mblen (Some s) n loc w = Ok (-1, mb_errno r, w') /\
        only_slot w w' l e /\ __mbs (object w' l) e = mb_state r)) /\
  (forall c bs, code c bs ->
    (ready xrl idle w l o -> exists w', wctomb true c loc w = (Z.of_nat (length bs), bs, None, w') /\
      only_slot w w' l o /\ ready xrl idle w' l o) /\
    (exists w1 w2, wctomb false c loc w = (0, [], None, w1) /\
      wctomb true c loc w1 = (Z.of_nat (length bs), bs, None, w2) /\
      only_slot w w2 l o /\ ready xrl idle w2 l o)) /\
  (forall c, wc_ret (__wcrtomb xrl true c (__mbs (object w l) o)) = size_minus_1 ->
    exists bs err w', wctomb true c loc w = (-1, bs, err, w') /\ only_slot w w' l o).
Proof.
  intros HR Hv Heq l mbtowc mblen wctomb m e o He. subst mbtowc mblen wctomb.
  assert (Hstep : forall s n w, mbtowc_l initial (Some s) n loc w = decode_step m s n loc w)
    by (intros; apply mbtowc_step).
  assert (Hlen : forall s n w ret c err w', decode_step e s n loc w = Ok (ret, c, err, w') ->
    mblen_l initial (Some s) n loc w = Ok (ret, err, w')) by (intros * E; subst e; by rewrite mblen_step, E).
  assert (H0 : idle initial) by apply initial_idle.
  split; [|split; [|split; [|split]]].
  - intros c bs t n Hc Hn ret. split; [|split; [|split]].
    + intros Hr. rewrite Hstep. by apply (step_complete xrl initial idle code).
    + intros Hr. destruct (step_complete xrl initial idle code e w loc c bs t n) as (w' & E & ?); [done..|].
      exists w'. by split; [eapply Hlen|].
    + destruct (step_reset xrl initial idle code m w loc c bs t n) as (w' & E & ?); [done..|].
      eexists _, w'. split; [done|]. by rewrite Hstep.
    + destruct (step_reset xrl initial idle code e w loc c bs t n) as (w' & E & ?); [done..|].
      eexists _, w'. split; [done|]. by split; [eapply Hlen|].
  - intros c p q t n Hc Hc0 Hp Hb Hn incomplete.
    assert (Hdiv : forall k st1, ready xrl idle w l k -> _ -> _) by
      (intros k st1; exact (fun Hr => step_divided xrl initial idle code valid eqv HR Hv Heq k w loc c p q t n st1
         Hr Hc Hc0 Hp Hb Hn)).
    split; intros Hr [st1 E1]; destruct (Hdiv _ st1 Hr E1) as (w1 & w2 & S1 & S2 & S3); exists w1, w2;
      [by rewrite !Hstep|].
    split; [by eapply Hlen|]. by split; [eapply Hlen|].
  - intros s n r Hret. split; intros E.
    + destruct (step_refused xrl m w loc s n r He E Hret) as (w' & S1 & S2). exists w'. by rewrite Hstep.
    + destruct (step_refused xrl e w loc s n r He E Hret) as (w' & S1 & S2). exists w'.
      by split; [eapply Hlen|].
  - intros c bs Hc. split; [intros Hr; by apply (wctomb_code xrl initial idle code)|].
    destruct (set_mbs_only w l o initial) as (_ & _ & Hnl).
    destruct (wctomb_code xrl initial idle code (set_mbs w l o initial) loc c bs) as (w' & E & Ho & Hr);
      [rewrite Hnl; by apply set_mbs_ready|done|]. rewrite Hnl in Ho, Hr.
    eexists _, w'. split; [done|]. split; [done|]. split; [|done].
    eapply only_slot_trans; [apply set_mbs_only|done].
  - intros c Hret. subst o. unfold wctomb_l. fold l. cbn [negb]. unfold encoded_by in He. rewrite He, Hret.
    eexists _, _, _. split; [done|]. apply set_mbs_only.
Qed.

(** A process with one locale object, its states as they are at the start. *)
Definition single_locale {St} (xrl : runelocale St) (initial : St) : locales unit St :=
  Locales (fun _ => Xlocale xrl (fun _ => initial)) tt tt tt.

Lemma hidden_state_steps_witness :
  exists w1 w2,
    mbtowc_l (LeadSt 0) (Some [0xb0]) 1 (Locale tt) (single_locale _GBK_init (LeadSt 0)) = Ok (-1, None, None, w1) /\
    mbtowc_l (LeadSt 0) (Some [0xa1; 0x41]) 2 (Locale tt) w1 = Ok (1, Some 0xb0a1, None, w2) /\
    ready _GBK_init lead_idle w2 tt __mbs_mbtowc.
Proof.
  destruct (hidden_state_steps _GBK_init (LeadSt 0) lead_idle gbk_code (fun gs => byte (lead_ch gs)) eq
    (single_locale _GBK_init (LeadSt 0)) (Locale tt)) as (_ & H & _).
  - apply lead_restart, gbk_range.
  - intros [ch] E. unfold lead_idle in E. cbn in *. unfold byte. lia.
  - intros st st' Hi <-. exact Hi.
  - reflexivity.
  - destruct (H 0xb0a1 [0xb0] [0xa1] [0x41] 2) as (H1 & _).
    + right. exists 0xb0, 0xa1. repeat split; done || lia.
    + discriminate.
    + discriminate.
    + repeat constructor; lia.
    + cbn. lia.
    + destruct H1 as (w1 & w2 & E1 & E2 & _ & Hr); [split; reflexivity|exists (LeadSt 0xb0); reflexivity|].
      exists w1, w2. split; [exact E1|]. split; [exact E2|exact Hr].
Defined.

(** [C31] A string survives the conversion to bytes and back in every lawful
    encoding.  [wcstombs] writes the codes of its characters and the NUL, and
    [mbstowcs] reads the string and its NUL back, into arrays just large
    enough or larger; without an array each returns the length of what the
    other call stores.  [wcsrtombs] and [mbsrtowcs] do the same from a state
    with no character pending, and end at the NUL. *)
Theorem strings_roundtrip {L St} `{EqDecision L} (xrl : runelocale St) initial idle code
    `{!EncodingLaws xrl initial idle code} (w : locales L St) loc cps bss rest rest' n n' st :
  encoded_by xrl w (normalize_locale w loc) -> Forall2 code cps bss -> 0 ∉ cps -> idle st ->
  let u := concat bss in
  Z.of_nat (length u) < SIZE_MAX -> Z.of_nat (length u) < n -> Z.of_nat (length cps) < n' ->
  wcstombs_l initial true (cps ++ 0 :: rest) n loc w = Ok (Z.of_nat (length u), u ++ [0], None) /\
  wcstombs_l initial false (cps ++ 0 :: rest) 0 loc w = Ok (Z.of_nat (length u), [], None) /\
  mbstowcs_l initial true (u ++ 0 :: rest') n' loc w = Ok (Z.of_nat (length cps), cps ++ [0], None) /\
  mbstowcs_l initial false (u ++ 0 :: rest') 0 loc w = Ok (Z.of_nat (length cps), [], None) /\
  (exists st', idle st' /\
    wcsrtombs_l true (cps ++ 0 :: rest) n (Some st) loc w =
      Ok (Sconv (Z.of_nat (length u)) (u ++ [0]) None None st', w)) /\
  (exists st', idle st' /\
    mbsrtowcs_l true (u ++ 0 :: rest') n' (Some st) loc w =
      Ok (Sconv (Z.of_nat (length cps)) (cps ++ [0]) None None st', w)).
Proof.
  intros He Hcs H0 Hst u HM Hn Hn'. unfold encoded_by in He.
  assert (Hc : coded cps bss) by done. pose proof (coded_length _ _ Hc) as Hle. fold u in Hle.
  unfold wcstombs_l, mbstowcs_l, wcsrtombs_l, mbsrtowcs_l, with_state. rewrite !He.
  assert (Hi : idle initial) by apply initial_idle. unfold SIZE_MAX in *.
  rewrite !wcs_std, !mbs_std by (done || lia). unfold __wcsnrtombs_std, __mbsnrtowcs_std.
  assert (Hw : forall st, idle st -> exists st', idle st' /\
    std_wcs_loop (__wcrtomb xrl) (__mb_cur_max xrl) (cps ++ 0 :: rest) 18446744073709551615 n 0 0 [] st =
      Ok (Sconv (Z.of_nat (length u)) (u ++ [0]) None None st')).
  { intros st1 Hst1. destruct (std_wcs_loop_text cps bss 18446744073709551615 n rest 0 0 [] st1)
      as (st' & ? & E); fold u; try done || lia. by exists st'. }
  assert (Hm : forall st, idle st -> exists st', idle st' /\
    std_mbs_loop (__mbrtowc xrl) (Z.to_nat n') (u ++ 0 :: rest') 18446744073709551615 0 0 [] st =
      Ok (Sconv (Z.of_nat (length cps)) (cps ++ [0]) None None st')).
  { intros st1 Hst1. destruct (std_mbs_loop_text cps bss (Z.to_nat n') 18446744073709551615 rest' 0 0 [] st1)
      as (st' & ? & E); fold u; try done || lia. by exists st'. }
  destruct (Hw initial Hi) as (? & _ & ->). destruct (Hm initial Hi) as (? & _ & ->).
  destruct (Hw st Hst) as (sw & Hsw & ->). destruct (Hm st Hst) as (sm & Hsm & ->).
  destruct (std_wcs_count_text cps bss 18446744073709551615 rest 0 initial) as (? & _ & ->); fold u; try done || lia.
  destruct (std_mbs_count_text cps bss (S (length (u ++ 0 :: rest'))) 18446744073709551615 rest' 0 initial)
    as (? & _ & E); fold u; try done || lia; [rewrite length_app; lia|]. fold u in E. rewrite E.
  split; [done|]. split; [done|]. split; [done|]. split; [done|]. split; [by exists sw|by exists sm].
Qed.

Lemma strings_roundtrip_witness :
  wcstombs_l utf8_initial true [0x48; 0xe9; 0x1d11e; 0] 8 (Locale tt) (single_locale _UTF8_init utf8_initial) =
    Ok (7, [0x48; 0xc3; 0xa9; 0xf0; 0x9d; 0x84; 0x9e; 0], None) /\
  mbstowcs_l utf8_initial true [0x48; 0xc3; 0xa9; 0xf0; 0x9d; 0x84; 0x9e; 0] 4 (Locale tt)
    (single_locale _UTF8_init utf8_initial) = Ok (3, [0x48; 0xe9; 0x1d11e; 0], None).
Proof.
  destruct (strings_roundtrip _UTF8_init utf8_initial utf8_idle utf8_code (single_locale _UTF8_init utf8_initial)
    (Locale tt) [0x48; 0xe9; 0x1d11e] [[0x48]; [0xc3; 0xa9]; [0xf0; 0x9d; 0x84; 0x9e]] [] [] 8 4 utf8_initial)
    as (H1 & _ & H2 & _); [reflexivity| |by apply (bool_decide_unpack _)|reflexivity|reflexivity..|].
  - repeat constructor; unfold scalar; lia.
  - split; [exact H1|exact H2].
Defined.

(** [btowc] and [wctob] are the codes of one byte.  [btowc] gives the
    character a byte is the code of, and [WEOF] for a byte that is none;
    [wctob] takes the character back to the byte, and a character with a
    longer code to [EOF]. *)
Theorem btowc_wctob {L St} `{EqDecision L} (xrl : runelocale St) initial idle code
    `{!EncodingLaws xrl initial idle code} (w : locales L St) loc b :
  encoded_by xrl w (normalize_locale w loc) -> byte b ->
  (forall c, code c [b] -> btowc_l initial b loc w = Ok c /\ (c <> WEOF -> wctob_l initial c loc w = Ok b)) /\
  ((forall c, ~ code c [b]) -> btowc_l initial b loc w = Ok WEOF) /\
  (forall c bs, code c bs -> length bs <> 1%nat -> wctob_l initial c loc w = Ok EOF).
Proof.
  intros He Hb. unfold encoded_by in He. assert (Hi : idle initial) by apply initial_idle.
  assert (Hbt : btowc_l initial b loc w =
    let! r := __mbrtowc xrl (Some [b]) 1 initial in
    if mb_ret r >? 1 then Ok WEOF else match mb_pwc r with Some wc => Ok wc | None => Crash UninitRead end).
  { unfold btowc_l, EOF. unfold byte in Hb. rewrite (proj2 (Z.eqb_neq b _)), He, u8_small by lia. done. }
  split; [|split].
  - intros c Hc. split.
    + destruct (decode_code initial c [b] [] 1) as (st & _ & E); [done|done|done|by left|].
      rewrite Hbt. cbn [app] in E. rewrite E. cbn. by destruct (c =? 0).
    + intros Hw. unfold wctob_l. rewrite (proj2 (Z.eqb_neq c WEOF)) by done. rewrite He.
      destruct (encode_code initial c [b]) as (st & _ & ->); done.
  - intros Hno. destruct (decode_byte initial b Hi Hb) as (r & E & Hr). rewrite Hbt, E. cbn [rbind].
    destruct (mb_pwc r) as [c|]; [by destruct (Hno c)|]. by rewrite Z.gtb_ltb, (proj2 (Z.ltb_lt 1 _)).
  - intros c bs Hc Hl. unfold wctob_l. destruct (c =? WEOF); [done|]. rewrite He.
    destruct (encode_code initial c bs) as (st & _ & ->); [done|done|]. cbn [wc_ret].
    by rewrite (proj2 (Z.eqb_neq _ 1)) by lia.
Qed.

Lemma btowc_wctob_witness :
  btowc_l (LeadSt 0) 0x80 (Locale tt) (single_locale _GBK_init (LeadSt 0)) = Ok 0x80 /\
  btowc_l (LeadSt 0) 0x81 (Locale tt) (single_locale _GBK_init (LeadSt 0)) = Ok WEOF.
Proof.
  destruct (btowc_wctob _GBK_init (LeadSt 0) lead_idle gbk_code (single_locale _GBK_init (LeadSt 0)) (Locale tt) 0x80)
    as (H1 & _ & _); [reflexivity|unfold byte; lia|].
  destruct (btowc_wctob _GBK_init (LeadSt 0) lead_idle gbk_code (single_locale _GBK_init (LeadSt 0)) (Locale tt) 0x81)
    as (_ & H2 & _); [reflexivity|unfold byte; lia|].
  destruct (H1 0x80) as [E _]; [left; repeat split; done || lia|].
  split; [exact E|apply H2].
  intros c [(H & E')|(l & b & _ & _ & _ & E')]; [injection E' as <-; lia|discriminate E'].
Defined.
