(* ===== verification/EncodingThms.v ===== *)
(** * EncodingThms: the encodings of the C library keep their promises

    Every encoding is an instance of the interface the conversions rely on
    ([EncodingLaws]), all but the extended Unix codes read nothing else
    ([StrictDecoder]), and the decoders with a state can be given a character
    in pieces ([Restartable]). *)

From S2P Require Import Prelude StrTo StrToThms Encoding EncodingText Utf8 Utf8Decode Utf8Thms Utf2 SingleByte.
From S2P Require Import DoubleByte Gb Euc.

(** ** Strict decoders *)

#[export] Instance gbk_strict : StrictDecoder _GBK_init lead_idle gbk_code.
Proof. eapply strict_iff; [exact gbk_code_lead|]. apply lead_strict. Qed.

#[export] Instance big5_strict : StrictDecoder _BIG5_init lead_idle big5_code.
Proof. eapply strict_iff; [exact big5_code_lead|]. apply lead_strict. Qed.

#[export] Instance mskanji_strict : StrictDecoder _MSKanji_init lead_idle mskanji_code.
Proof. eapply strict_iff; [exact mskanji_code_lead|]. apply lead_strict. Qed.

#[export] Instance gb2312_strict :
  StrictDecoder _GB2312_init (gb_idle GB2312_MB_CUR_MAX) gb2312_code.
Proof.
  eapply strict_iff; [exact gb2312_code_read|]. intros gs s n r c. apply gb_decode_sound, _.
Qed.

#[export] Instance gb18030_strict :
  StrictDecoder _GB18030_init (gb_idle GB18030_MB_CUR_MAX) gb18030_code.
Proof.
  eapply strict_iff; [exact gb18030_code_read|]. intros gs s n r c. apply gb_decode_sound, _.
Qed.

(** ** The description of extended Unix codes *)



(** ** Theorems *)




(** [C33] The decoders with a state are restartable, that of the extended Unix
    codes for a well-formed description ([euc_wf]).  When the bytes given so
    far are a part of a character, from whatever state the calls before left,
    the call that gets the rest gives the outcome of one call with all of
    them: the same character, error or request for more, the number of bytes
    short of those already taken, and a state that behaves the same. *)
Theorem encodings_restartable CEI mb_cur_max c1 c2 c3 b1 b2 b3 :
  euc_wf CEI mb_cur_max c1 c2 c3 b1 b2 b3 ->
  Restartable _UTF8_mbrtowc utf8_valid (≡) /\
  Restartable _UTF2_mbrtowc utf2_valid utf2_eqv /\
  Restartable _GBK_mbrtowc (fun gs => byte (lead_ch gs)) eq /\
  Restartable _BIG5_mbrtowc (fun gs => byte (lead_ch gs)) eq /\
  Restartable _MSKanji_mbrtowc (fun gs => byte (lead_ch gs)) eq /\
  Restartable _GB2312_mbrtowc (gb_valid GB2312_MB_CUR_MAX gb2312_read) eq /\
  Restartable _GB18030_mbrtowc (gb_valid GB18030_MB_CUR_MAX gb18030_read) eq /\
  Restartable (_EUC_mbrtowc CEI mb_cur_max) (euc_valid mb_cur_max) euc_eqv.
Proof.
  intros Hwf. split; [apply utf8_restart|]. split; [apply utf2_restart|]. split; [apply lead_restart, gbk_range|].
  split; [apply lead_restart, big5_range|]. split; [apply lead_restart, mskanji_range|].
  split; [apply gb_restart, _|]. split; [apply gb_restart, _|]. by eapply euc_restart.
Qed.

Lemma encodings_restartable_witness :
  exists r' r, _EUC_mbrtowc euc_jp 3 (Some [0xe2; 0x41]) 2 (EucSt 0xb0 3 1) = Ok r' /\
    _EUC_mbrtowc euc_jp 3 (Some ([0x8f; 0xb0] ++ [0xe2; 0x41])) (Z.of_nat 2 + 2) (EucSt 0 0 0) = Ok r /\
    resumed_by euc_eqv (Z.of_nat 2) r' r.
Proof.
  destruct (encodings_restartable euc_jp 3 2 2 3 0x8080 0x0080 0x8000 euc_jp_wf) as (_ & _ & _ & _ & _ & _ & _ & H).
  apply (H (EucSt 0 0 0) (EucSt 0xb0 3 1) [0x8f; 0xb0] [0xe2; 0x41] 2);
    [split; cbn; lia|discriminate|repeat constructor; lia|repeat constructor; lia|cbn; lia|vm_compute; reflexivity].
Defined.
