(* ===== verification/Sort.v ===== *)
(** * Sort: heapsort, qsort and bsearch of the C library

    Model of [stdlib/FreeBSD/heapsort.c], [qsort.c] and [bsearch.c].  An array
    is a list of elements and an index counts elements: the loops that swap and
    copy the bytes of an element ([SWAP], [COPY], [swapfunc]) move it whole.
    [compar] is the caller's comparison; [_r] and [_b] versions of the
    functions differ in how they call it.  A pointer into an array with a
    number of elements behind it is a slice of the list. *)

From S2P Require Import Prelude.

Section Sort.
Context {A : Type} (compar : A -> A -> Z).

(** The two elements change places. *)
Definition arr_swap (a : list A) (i j : Z) : res (list A) :=
  let! x := arr_get a i in
  let! y := arr_get a j in
  let! a := arr_set a i y in
  arr_set a j x.

(** ** heapsort

    Items are numbered from 1. *)

Definition item (base : list A) (i : Z) : res A := arr_get base (i - 1).

(** The larger child of the two at [child_i], if there are two. *)
Definition larger_child (base : list A) (nmemb child_i : Z) : res Z :=
  if child_i <? nmemb then
    let! x := item base child_i in
    let! y := item base (child_i + 1) in
    Ok (if compar x y <? 0 then child_i + 1 else child_i)
  else Ok child_i.

(** [CREATE]: every round at least doubles [par_i]. *)
Fixpoint CREATE (fuel : nat) (base : list A) (nmemb par_i : Z) : res (list A) :=
  match fuel with
  | O => Crash OutOfFuel
  | S fuel =>
      if negb (par_i * 2 <=? nmemb) then Ok base
      else
        let! child_i := larger_child base nmemb (par_i * 2) in
        let! child := item base child_i in
        let! par := item base par_i in
        if compar child par <=? 0 then Ok base
        else
          let! base := arr_swap base (par_i - 1) (child_i - 1) in
          CREATE fuel base nmemb child_i
  end.

(** The first loop of [SELECT]: [par_i] at its end. *)
Fixpoint SELECT_down (fuel : nat) (base : list A) (nmemb par_i : Z) : res (list A * Z) :=
  match fuel with
  | O => Crash OutOfFuel
  | S fuel =>
      if negb (par_i * 2 <=? nmemb) then Ok (base, par_i)
      else
        let! child_i := larger_child base nmemb (par_i * 2) in
        let! child := item base child_i in
        let! base := arr_set base (par_i - 1) child in
        SELECT_down fuel base nmemb child_i
  end.

(** The second: every round halves [child_i]. *)
Fixpoint SELECT_up (fuel : nat) (base : list A) (k : A) (child_i : Z) : res (list A) :=
  match fuel with
  | O => Crash OutOfFuel
  | S fuel =>
      let par_i := child_i / 2 in
      let! stop := (if child_i =? 1 then Ok true else let! par := item base par_i in Ok (compar k par <? 0)) in
      if (stop : bool) then arr_set base (child_i - 1) k
      else
        let! par := item base par_i in
        let! base := arr_set base (child_i - 1) par in
        SELECT_up fuel base k par_i
  end.

Definition SELECT (base : list A) (nmemb : Z) (k : A) : res (list A) :=
  let! (base, i) := SELECT_down (S (Z.to_nat nmemb)) base nmemb 1 in
  SELECT_up (S (Z.to_nat nmemb)) base k i.

(** [for (l = nmemb / 2 + 1; --l;)], from [l] down to 1. *)
Fixpoint build_heap (l : nat) (base : list A) (nmemb : Z) : res (list A) :=
  match l with
  | O => Ok base
  | S l' =>
      let! base := CREATE (S (Z.to_nat nmemb)) base nmemb (Z.of_nat l) in
      build_heap l' base nmemb
  end.

(** [while (nmemb > 1)], with [nmemb - 1] rounds. *)
Fixpoint take_heap (rounds : nat) (base : list A) : res (list A) :=
  match rounds with
  | O => Ok base
  | S r =>
      let nmemb := Z.of_nat rounds + 1 in
      let! k := item base nmemb in
      let! top := item base 1 in
      let! base := arr_set base (nmemb - 1) top in
      let! base := SELECT base (nmemb - 1) k in
      take_heap r base
  end.

(** What it returns, [errno] if it sets it, and the array.  [malloc] says
    whether there is memory for the element [k]. *)
Definition heapsort (malloc : bool) (base : list A) (nmemb size : Z) : res (Z * option errno_t * list A) :=
  if nmemb <=? 1 then Ok (0, None, base)
  else if size =? 0 then Ok (-1, Some EINVAL, base)
  else if negb malloc then Ok (-1, None, base)
  else
    let! base := build_heap (Z.to_nat (nmemb / 2)) base nmemb in
    let! base := take_heap (Z.to_nat (nmemb - 1)) base in
    Ok (0, None, base).

(** ** qsort *)

(** The inner loop of [_isort]: None when the limit of swaps is exceeded. *)
Fixpoint isort_insert (fuel : nat) (a : list A) (pl swap_cnt swap_limit : Z) : res (list A * option Z) :=
  match fuel with
  | O => Crash OutOfFuel
  | S fuel =>
      let! go := (if pl >? 0 then
                    let! x := arr_get a (pl - 1) in
                    let! y := arr_get a pl in
                    Ok (compar x y >? 0)
                  else Ok false) in
      if negb go then Ok (a, Some swap_cnt)
      else
        let! a := arr_swap a pl (pl - 1) in
        let swap_cnt := if swap_limit =? 0 then swap_cnt else swap_cnt + 1 in
        if negb (swap_limit =? 0) && (swap_cnt >? swap_limit) then Ok (a, None)
        else isort_insert fuel a (pl - 1) swap_cnt swap_limit
  end.

(** The outer loop, with [rounds] left and [pm] next. *)
Fixpoint isort_loop (rounds : nat) (a : list A) (pm swap_cnt swap_limit : Z) : res (bool * list A) :=
  match rounds with
  | O => Ok (true, a)
  | S rounds =>
      let! (a, r) := isort_insert (S (Z.to_nat pm)) a pm swap_cnt swap_limit in
      match r with
      | None => Ok (false, a)
      | Some swap_cnt => isort_loop rounds a (pm + 1) swap_cnt swap_limit
      end
  end.

Definition _isort (a : list A) (n swap_limit : Z) : res (bool * list A) :=
  isort_loop (Z.to_nat (n - 1)) a 1 0 swap_limit.

(** Indices stand for the pointers. *)
Definition med3 (arr : list A) (a b c : Z) : res Z :=
  let! x := arr_get arr a in
  let! y := arr_get arr b in
  let! z := arr_get arr c in
  Ok (if compar x y <? 0 then
        (if compar y z <? 0 then b else if compar x z <? 0 then c else a)
      else
        (if compar y z >? 0 then b else if compar x z <? 0 then a else c)).

(** The index of the pseudomedian. *)
Definition pseudomedian (arr : list A) (n : Z) : res Z :=
  let pl := 0 in
  let pm := n / 2 in
  let pn := n - 1 in
  let! (pl, pm, pn) :=
    (if n >? 40 then
       let d := n / 8 in
       let! pl := med3 arr pl (pl + d) (pl + 2 * d) in
       let! pm := med3 arr (pm - d) pm (pm + d) in
       let! pn := med3 arr (pn - 2 * d) (pn - d) pn in
       Ok (pl, pm, pn)
     else Ok (pl, pm, pn)) in
  med3 arr pl pm pn.

(** [while (pb <= pc && (cmp_result = CMP(pb, a)) <= 0)] *)
Fixpoint scan_up (fuel : nat) (a : list A) (pa pb pc swap_cnt : Z) : res (list A * Z * Z * Z) :=
  match fuel with
  | O => Crash OutOfFuel
  | S fuel =>
      if negb (pb <=? pc) then Ok (a, pa, pb, swap_cnt)
      else
        let! x := arr_get a pb in
        let! v := arr_get a 0 in
        if compar x v >? 0 then Ok (a, pa, pb, swap_cnt)
        else if compar x v =? 0 then
          let! a := arr_swap a pa pb in
          scan_up fuel a (pa + 1) (pb + 1) pc 1
        else scan_up fuel a pa (pb + 1) pc swap_cnt
  end.

(** [while (pb <= pc && (cmp_result = CMP(pc, a)) >= 0)] *)
Fixpoint scan_down (fuel : nat) (a : list A) (pb pc pd swap_cnt : Z) : res (list A * Z * Z * Z) :=
  match fuel with
  | O => Crash OutOfFuel
  | S fuel =>
      if negb (pb <=? pc) then Ok (a, pc, pd, swap_cnt)
      else
        let! x := arr_get a pc in
        let! v := arr_get a 0 in
        if compar x v <? 0 then Ok (a, pc, pd, swap_cnt)
        else if compar x v =? 0 then
          let! a := arr_swap a pc pd in
          scan_down fuel a pb (pc - 1) (pd - 1) 1
        else scan_down fuel a pb (pc - 1) pd swap_cnt
  end.

(** The [for (;;)] around them: the array and [pa], [pb], [pc], [pd] and
    [swap_cnt] behind it. *)
Fixpoint partition (fuel : nat) (a : list A) (pa pb pc pd swap_cnt : Z) : res (list A * (Z * Z * Z * Z) * Z) :=
  match fuel with
  | O => Crash OutOfFuel
  | S fuel =>
      let! (a, pa, pb, swap_cnt) := scan_up (S (Z.to_nat (pc + 1 - pb))) a pa pb pc swap_cnt in
      let! (a, pc, pd, swap_cnt) := scan_down (S (Z.to_nat (pc + 1 - pb))) a pb pc pd swap_cnt in
      if pb >? pc then Ok (a, (pa, pb, pc, pd), swap_cnt)
      else
        let! a := arr_swap a pb pc in
        partition fuel a pa (pb + 1) (pc - 1) pd 1
  end.

(** [vecswap]: [n] elements from [i] and from [j] on. *)
Fixpoint vecswap (n : nat) (a : list A) (i j : Z) : res (list A) :=
  match n with
  | O => Ok a
  | S n =>
      let! a := arr_swap a i j in
      vecswap n a (i + 1) (j + 1)
  end.

(** A call on the [n] elements from [i] on. *)
Definition on_slice (a : list A) (i n : Z) (call : list A -> res (list A)) : res (list A) :=
  let! s := call (take (Z.to_nat n) (drop (Z.to_nat i) a)) in
  Ok (take (Z.to_nat i) a ++ s ++ drop (Z.to_nat (i + n)) a).

(** [_qsort] on an array of [length a] elements; [depth] is [depth_limit],
    which every round and every call lowers. *)
Fixpoint _qsort (malloc : bool) (depth : nat) (a : list A) (es : Z) : res (list A) :=
  let n := Z.of_nat (length a) in
  match depth with
  | O => let! (_, _, a) := heapsort malloc a n es in Ok a
  | S depth =>
      if n <=? 7 then
        let! (_, a) := _isort a n 0 in Ok a
      else
        let! pm := pseudomedian a n in
        let! a := arr_swap a 0 pm in
        let! (a, (pa, pb, pc, pd), swap_cnt) := partition (S (length a)) a 1 1 (n - 1) (n - 1) 0 in
        let d1 := Z.min pa (pb - pa) in
        let! a := vecswap (Z.to_nat d1) a 0 (pb - d1) in
        let d1 := Z.min (pd - pc) (n - pd - 1) in
        let! a := vecswap (Z.to_nat d1) a pb (n - d1) in
        let! (done, a) := (if swap_cnt =? 0 then _isort a n (s32 (1 + n / 4)) else Ok (false, a)) in
        if (done : bool) then Ok a
        else
          let d1 := pb - pa in
          let d2 := pd - pc in
          let left a := if d1 >? 1 then on_slice a 0 d1 (fun s => _qsort malloc depth s es) else Ok a in
          let right a := if d2 >? 1 then on_slice a (n - d2) d2 (fun s => _qsort malloc depth s es) else Ok a in
          if d1 <=? d2 then let! a := left a in right a
          else let! a := right a in left a
  end.

(** [flsl]: the number of the highest bit, from 1. *)
Definition flsl (x : Z) : Z := if x =? 0 then 0 else Z.log2 x + 1.

Definition DEPTH (x : Z) : Z := 2 * (flsl x - 1).

Definition qsort (malloc : bool) (a : list A) (es : Z) : res (list A) :=
  _qsort malloc (Z.to_nat (DEPTH (Z.of_nat (length a)))) a es.
End Sort.

(** ** The versions for blocks and with a context *)

Definition heapsort_b {A} (compar : A -> A -> Z) := heapsort compar.

Definition __heapsort_r {A T} (thunk : T) (compar : T -> A -> A -> Z) := heapsort (compar thunk).

Definition qsort_r {A T} (malloc : bool) (a : list A) (es : Z) (thunk : T) (compar : T -> A -> A -> Z) : res (list A) :=
  qsort (compar thunk) malloc a es.

(** ** bsearch *)

(** The loop: [base] is an offset from [base0]. *)
Fixpoint bsearch_loop {K A} (compar : K -> A -> Z) (fuel : nat) (key : K) (arr : list A) (base lim : Z) : res (option Z) :=
  match fuel with
  | O => Crash OutOfFuel
  | S fuel =>
      if lim =? 0 then Ok None
      else
        let p := base + Z.shiftr lim 1 in
        let! x := arr_get arr p in
        let cmp := compar key x in
        if cmp =? 0 then Ok (Some p)
        else
          let '(base, lim) := if cmp >? 0 then (p + 1, lim - 1) else (base, lim) in
          bsearch_loop compar fuel key arr base (Z.shiftr lim 1)
  end.

(** The index of the element found, None for NULL. *)
Definition bsearch {K A} (compar : K -> A -> Z) (key : K) (base0 : list A) : res (option Z) :=
  bsearch_loop compar (S (length base0)) key base0 0 (Z.of_nat (length base0)).

Definition bsearch_b {K A} (compar : K -> A -> Z) := bsearch compar.
