(* ===== verification/SortBase.v ===== *)
(** * SortBase: comparisons, arrays and swaps *)

From Stdlib Require Export Sorting.Sorted.
From S2P Require Import Prelude Sort.

(** A comparison that is consistent: a total preorder. *)
Class Comparator {A : Type} (compar : A -> A -> Z) : Prop := {
  compar_antisym x y : compar x y < 0 <-> 0 < compar y x;
  compar_trans x y z : compar x y <= 0 -> compar y z <= 0 -> compar x z <= 0
}.

(** The comparison by subtraction. *)
#[export] Instance sub_comparator : Comparator Z.sub.
Proof. split; lia. Qed.

Section Array.
Context {A : Type} `{!Inhabited A} (compar : A -> A -> Z).
Implicit Types a : list A.

Definition elt (a : list A) (i : Z) : A := a !!! Z.to_nat i.

Abbreviation len a := (Z.of_nat (length a)).

Lemma arr_get_elt a i : 0 <= i < len a -> arr_get a i = Ok (elt a i).
Proof. intros Hi. apply arr_get_ok; [lia|]. apply list_lookup_lookup_total_lt. lia. Qed.

Lemma elt_set a i x k :
  0 <= i < len a -> 0 <= k -> elt (<[Z.to_nat i := x]> a) k = if decide (k = i) then x else elt a k.
Proof.
  intros Hi Hk. unfold elt. rewrite list_lookup_total_insert. destruct (decide (k = i)) as [->|].
  - rewrite decide_True; [done|lia].
  - rewrite decide_False; [done|lia].
Qed.

Lemma perm_len a a' : a' ≡ₚ a -> len a' = len a.
Proof. intros E. by rewrite E. Qed.

Lemma arr_swap_spec a i j :
  0 <= i < len a -> 0 <= j < len a ->
  exists a', arr_swap a i j = Ok a' /\ a' ≡ₚ a /\
    forall k, 0 <= k -> elt a' k = if decide (k = i) then elt a j else if decide (k = j) then elt a i else elt a k.
Proof.
  intros Hi Hj. unfold arr_swap. rewrite !arr_get_elt by done. cbn [rbind]. rewrite arr_set_ok by done. cbn [rbind].
  rewrite arr_set_ok by (rewrite length_insert; lia). eexists. split; [done|]. split.
  - apply Permutation_insert_swap; apply list_lookup_lookup_total_lt; lia.
  - intros k Hk. rewrite !elt_set by (rewrite ?length_insert; lia).
    destruct (decide (k = j)), (decide (k = i)); by subst.
Qed.

(** ** Sorted arrays *)

Definition sorted (a : list A) : Prop := forall i j, 0 <= i < j -> j < len a -> compar (elt a i) (elt a j) <= 0.

Lemma elt_cons x a i : 0 <= i -> elt (x :: a) (i + 1) = elt a i.
Proof. intros Hi. unfold elt. by replace (Z.to_nat (i + 1)) with (S (Z.to_nat i)) by lia. Qed.

Lemma elem_of_elt a x : x ∈ a <-> exists i, 0 <= i < len a /\ elt a i = x.
Proof.
  rewrite list_elem_of_lookup. split.
  - intros [i Hi]. exists (Z.of_nat i). apply lookup_lt_Some in Hi as Hl. split; [lia|].
    unfold elt. rewrite Nat2Z.id. by apply list_lookup_total_correct.
  - intros (i & Hi & <-). exists (Z.to_nat i). apply list_lookup_lookup_total_lt. lia.
Qed.

Lemma sorted_strongly a : sorted a -> StronglySorted (fun x y => compar x y <= 0) a.
Proof.
  induction a as [|x a IH]; intros Hs; constructor.
  - apply IH. intros i j Hi Hj. rewrite <-(elt_cons x a i), <-(elt_cons x a j) by lia. apply Hs; cbn [length]; lia.
  - apply Forall_forall. intros y (i & Hi & <-)%elem_of_elt. rewrite <-(elt_cons x a i) by lia.
    apply (Hs 0 (i + 1)); cbn [length]; lia.
Qed.

(** ** Consistent comparisons *)

Context {Hc : Comparator compar}.

Lemma compar_refl x : compar x x = 0.
Proof. pose proof (compar_antisym x x). lia. Qed.

Lemma compar_flip x y : ~ compar x y <= 0 -> compar y x < 0.
Proof. intros H. apply compar_antisym. lia. Qed.

Lemma compar_total x y : compar x y <= 0 \/ compar y x <= 0.
Proof. pose proof (compar_antisym x y). lia. Qed.
End Array.
