(* ===== verification/HeapThms.v ===== *)
(** * HeapThms: heapsort

    In bounds and a permutation for every comparison; sorted for a consistent
    one. *)

From S2P Require Import Prelude Sort SortBase.

Section Heap.
Context {A : Type} `{!Inhabited A} (compar : A -> A -> Z).
Implicit Types a : list A.

Abbreviation len a := (Z.of_nat (length a)).

(** The item with the number [i]. *)
Definition it (a : list A) (i : Z) : A := elt a (i - 1).

Definition le_it (a : list A) (i j : Z) : Prop := compar (it a i) (it a j) <= 0.

Definition child (p c : Z) : Prop := c = 2 * p \/ c = 2 * p + 1.

Lemma item_ok a i : 1 <= i <= len a -> item a i = Ok (it a i).
Proof. intros Hi. apply arr_get_elt. lia. Qed.

Lemma it_set a i x k : 1 <= i <= len a -> 1 <= k ->
  it (<[Z.to_nat (i - 1) := x]> a) k = if decide (k = i) then x else it a k.
Proof. intros Hi Hk. unfold it. rewrite elt_set by lia. destruct (decide (k = i)), (decide (k - 1 = i - 1)); done || lia. Qed.

Lemma larger_child_spec a n p :
  1 <= p -> 2 * p <= n <= len a ->
  exists c, larger_child compar a n (p * 2) = Ok c /\ child p c /\ c <= n /\
    (Comparator compar -> forall c', child p c' -> c' <= n -> le_it a c' c).
Proof.
  intros Hp Hn. unfold larger_child, child. destruct (Z.ltb_spec (p * 2) n) as [Hlt|Hge].
  - rewrite !item_ok by lia. cbn [rbind]. destruct (Z.ltb_spec (compar (it a (p * 2)) (it a (p * 2 + 1))) 0) as [Hl|Hl].
    + exists (p * 2 + 1). split; [done|]. split; [lia|]. split; [lia|]. intros Hcc c' [-> | ->] _; unfold le_it.
      * rewrite (Z.mul_comm 2 p). lia.
      * rewrite (Z.mul_comm 2 p), compar_refl by done. lia.
    + exists (p * 2). split; [done|]. split; [lia|]. split; [lia|]. intros Hcc c' [-> | ->] _; unfold le_it.
      * rewrite (Z.mul_comm 2 p), compar_refl by done. lia.
      * rewrite (Z.mul_comm 2 p). pose proof (compar_antisym (it a (p * 2)) (it a (p * 2 + 1))).
        pose proof (compar_antisym (it a (p * 2 + 1)) (it a (p * 2))). lia.
  - exists (p * 2). split; [done|]. split; [lia|]. split; [lia|]. intros Hcc c' Hc' Hle. unfold le_it.
    replace c' with (p * 2) by lia. rewrite compar_refl by done. lia.
Qed.

(** ** CREATE *)

(** The parents from [l] on are not smaller than their children up to [n]. *)
Definition heap (l n : Z) (a : list A) : Prop :=
  forall p c, l <= p -> child p c -> c <= n -> le_it a c p.

(** But for the parent [q]. *)
Definition heap_but (l n q : Z) (a : list A) : Prop :=
  (forall p c, l <= p -> child p c -> c <= n -> p <> q -> le_it a c p) /\
  (forall p c, l <= p -> child p q -> child q c -> c <= n -> le_it a c p).

Lemma heap_but_done l n q c a :
  Comparator compar -> heap_but l n q a -> child q c -> c <= n ->
  (forall c', child q c' -> c' <= n -> le_it a c' c) -> le_it a c q -> heap l n a.
Proof.
  intros Hcc [H1 _] Hc Hn Hmax Hle p c' Hp Hc' Hn'. destruct (decide (p = q)) as [->|]; [|by apply H1].
  eapply compar_trans; [by apply Hmax|done].
Qed.

Lemma heap_but_swap l n q c a a' :
  1 <= l <= q -> heap_but l n q a -> child q c -> c <= n ->
  (forall c', child q c' -> c' <= n -> le_it a c' c) -> le_it a q c ->
  (forall k, 1 <= k -> it a' k = if decide (k = q) then it a c else if decide (k = c) then it a q else it a k) ->
  heap_but l n c a'.
Proof.
  intros Hl [H1 H2] Hc Hn Hmax Hlt Hit. unfold heap_but, le_it, child in *. split.
  - intros p d Hp Hd Hdn Hpc. rewrite !Hit by lia. destruct (decide (p = q)) as [->|Hpq].
    + destruct (decide (d = q)); [lia|]. destruct (decide (d = c)); [done|]. by apply Hmax.
    + rewrite (decide_False (P := p = c)) by done. destruct (decide (d = q)) as [->|].
      * apply H2; lia.
      * destruct (decide (d = c)); [lia|]. by apply H1.
  - intros p d Hp Hpc Hd Hdn. rewrite !Hit by lia. destruct (decide (p = q)) as [->|]; [|lia].
    destruct (decide (d = q)); [lia|]. destruct (decide (d = c)); [lia|]. apply H1; lia.
Qed.

Lemma CREATE_spec fuel : forall a n q l,
  1 <= l <= q -> n <= len a -> n - q < Z.of_nat fuel -> 0 < Z.of_nat fuel ->
  exists a', CREATE compar fuel a n q = Ok a' /\ a' ≡ₚ a /\
    (Comparator compar -> heap_but l n q a -> heap l n a').
Proof.
  induction fuel as [|fuel IH]; intros a n q l Hl Hn Hf Hf0; [lia|]. cbn [CREATE].
  destruct (Z.leb_spec (q * 2) n) as [Hq|Hq]; cbn [negb].
  2: { exists a. split; [done|]. split; [done|]. intros _ [H1 _] p c Hp Hc Hcn. apply H1; unfold child in *; try lia. }
  destruct (larger_child_spec a n q) as (c & -> & Hc & Hcn & Hmax); [lia|lia|]. cbn [rbind].
  assert (Hcq : q < c) by (unfold child in Hc; lia).
  rewrite !item_ok by lia. cbn [rbind]. destruct (Z.leb_spec (compar (it a c) (it a q)) 0) as [Hle|Hgt].
  { exists a. split; [done|]. split; [done|]. intros Hcc Hh. by eapply heap_but_done; eauto. }
  destruct (arr_swap_spec a (q - 1) (c - 1)) as (a1 & -> & Hp1 & Hit); [lia|lia|]. cbn [rbind].
  pose proof (perm_len _ _ Hp1) as Hlen. destruct (IH a1 n c l) as (a2 & -> & Hp2 & Hh2); [lia|lia|lia|lia|].
  exists a2. split; [done|]. split; [by rewrite Hp2|]. intros Hcc Hh. apply Hh2; [done|].
  apply (heap_but_swap l n q c a a1); auto.
  - unfold le_it. apply Z.lt_le_incl, compar_flip; [done|]. lia.
  - intros k Hk. unfold it. rewrite Hit by lia.
    destruct (decide (k = q)), (decide (k - 1 = q - 1)); try lia; [done|].
    destruct (decide (k = c)), (decide (k - 1 = c - 1)); done || lia.
Qed.

Lemma build_heap_spec l : forall a n,
  n <= len a -> n < 2 * (Z.of_nat l + 1) \/ (Comparator compar -> heap (Z.of_nat l + 1) n a) ->
  exists a', build_heap compar l a n = Ok a' /\ a' ≡ₚ a /\ (Comparator compar -> heap 1 n a').
Proof.
  induction l as [|l IH]; intros a n Hn Hh; cbn [build_heap].
  - exists a. split; [done|]. split; [done|]. intros Hcc. destruct Hh as [Hlt|Hh]; [|by apply Hh].
    intros p c Hp Hc Hcn. unfold child in Hc. lia.
  - destruct (CREATE_spec (S (Z.to_nat n)) a n (Z.of_nat (S l)) (Z.of_nat (S l))) as (a1 & -> & Hp1 & Hh1); [lia..|].
    cbn [rbind]. pose proof (perm_len _ _ Hp1) as Hlen. destruct (IH a1 n) as (a2 & -> & Hp2 & Hh2); [lia| |].
    { right. intros Hcc. replace (Z.of_nat l + 1) with (Z.of_nat (S l)) by lia. apply Hh1; [done|]. split.
      - intros p c Hp Hc Hcn Hne. destruct Hh as [Hlt|Hh]; [unfold child in Hc; lia|]. apply Hh; [done|lia|done|done].
      - intros p c Hp Hc. unfold child in Hc. lia. }
    exists a2. split; [done|]. split; [by rewrite Hp2|done].
Qed.

(** ** SELECT *)

(** A heap with a hole at [q]: what is stored there does not count. *)
Definition heap_hole (n q : Z) (a : list A) : Prop :=
  (forall p c, 1 <= p -> child p c -> c <= n -> p <> q -> c <> q -> le_it a c p) /\
  (forall p c, 1 <= p -> child p q -> child q c -> c <= n -> le_it a c p).

(** [k] in the hole. *)
Definition fill (a : list A) (q : Z) (k : A) : list A := <[Z.to_nat (q - 1) := k]> a.

(** The items outside the hole satisfy [Q]. *)
Definition items_but (Q : A -> Prop) (n q : Z) (a : list A) : Prop :=
  forall i, 1 <= i <= n -> i <> q -> Q (it a i).

(** Moving the item at [c] into the hole at [q] moves the hole. *)
Lemma fill_move a q c k :
  1 <= q <= len a -> 1 <= c <= len a -> q <> c -> fill (fill a q (it a c)) c k ≡ₚ fill a q k.
Proof.
  intros Hq Hc Hne. unfold fill.
  assert (E : <[Z.to_nat (c - 1):=k]> (<[Z.to_nat (q - 1):=it a c]> a) =
    <[Z.to_nat (c - 1):=k]> (<[Z.to_nat (q - 1):=it a c]> (<[Z.to_nat (q - 1):=k]> a))) by (by rewrite list_insert_insert_eq).
  rewrite E. apply Permutation_insert_swap.
  - apply list_lookup_insert_eq. lia.
  - rewrite list_lookup_insert_ne by lia. apply list_lookup_lookup_total_lt. lia.
Qed.

Lemma fill_items Q n q c a :
  1 <= q <= len a -> 1 <= c <= n -> items_but Q n q a -> q <> c -> items_but Q n c (fill a q (it a c)).
Proof.
  intros Hq Hc HQ Hne i Hi Hic. unfold fill. rewrite it_set by lia.
  destruct (decide (i = q)); [by apply HQ|by apply HQ].
Qed.

Lemma hole_down n q c a :
  1 <= q <= len a -> heap_hole n q a -> child q c -> c <= n ->
  (forall c', child q c' -> c' <= n -> le_it a c' c) -> heap_hole n c (fill a q (it a c)).
Proof.
  intros Hq [H1 H2] Hc Hn Hmax. unfold heap_hole, fill, le_it, child in *. split.
  - intros p d Hp Hd Hdn Hpc Hdc. rewrite !it_set by lia. destruct (decide (p = q)) as [->|].
    + destruct (decide (d = q)); [lia|]. by apply Hmax.
    + destruct (decide (d = q)) as [->|]; [by apply H2|]. by apply H1.
  - intros p d Hp Hpc Hd Hdn. rewrite !it_set by lia. destruct (decide (p = q)) as [->|]; [|lia].
    destruct (decide (d = q)); [lia|]. apply H1; lia.
Qed.

Lemma SELECT_down_spec fuel : forall a n q,
  1 <= q <= n -> n <= len a -> n - q < Z.of_nat fuel ->
  exists a' q', SELECT_down compar fuel a n q = Ok (a', q') /\ 1 <= q' <= n /\ n < 2 * q' /\
    length a' = length a /\ (forall k, fill a' q' k ≡ₚ fill a q k) /\
    (forall i, n < i -> it a' i = it a i) /\
    (Comparator compar -> heap_hole n q a -> heap_hole n q' a') /\
    (forall Q, items_but Q n q a -> items_but Q n q' a').
Proof.
  induction fuel as [|fuel IH]; intros a n q Hq Hn Hf; [lia|]. cbn [SELECT_down].
  destruct (Z.leb_spec (q * 2) n) as [Hle|Hgt]; cbn [negb].
  2: { exists a, q. split; [done|]. split; [lia|]. split; [lia|]. by split. }
  destruct (larger_child_spec a n q) as (c & -> & Hc & Hcn & Hmax); [lia|lia|]. cbn [rbind].
  assert (Hcq : q < c) by (unfold child in Hc; lia).
  rewrite item_ok by lia. cbn [rbind]. rewrite arr_set_ok by lia. cbn [rbind]. fold (fill a q (it a c)).
  assert (Hlen : length (fill a q (it a c)) = length a) by apply length_insert.
  destruct (IH (fill a q (it a c)) n c) as (a' & q' & -> & Hq' & Hn' & Hl' & Hp & Hfr & Hh & HQ); [lia|lia|lia|].
  exists a', q'. split; [done|]. split; [done|]. split; [done|]. split; [lia|]. split.
  { intros k. rewrite Hp. apply fill_move; lia. }
  split. { intros i Hi. rewrite Hfr by done. unfold fill. rewrite it_set by lia. by rewrite decide_False by lia. }
  split. { intros Hcc Hh0. apply Hh; [done|]. apply hole_down; auto; lia. }
  intros Q HQ0. apply HQ, fill_items; auto; lia.
Qed.

Lemma hole_up n q p a k :
  Comparator compar -> 1 <= p -> q <= n -> n <= len a -> child p q -> heap_hole n q a ->
  (forall c, child q c -> c <= n -> compar (it a c) k <= 0) -> compar (it a p) k <= 0 ->
  heap_hole n p (fill a q (it a p)) /\
  (forall c, child p c -> c <= n -> compar (it (fill a q (it a p)) c) k <= 0).
Proof.
  intros Hcc Hp Hq Hn Hpq [H1 H2] Hk Hpk. unfold heap_hole, fill, le_it, child in *. split; [split|].
  - intros r d Hr Hd Hdn Hrp Hdp. rewrite !it_set by lia. destruct (decide (r = q)) as [->|].
    + destruct (decide (d = q)); [lia|]. by apply H2.
    + destruct (decide (d = q)); [lia|]. by apply H1.
  - intros r d Hr Hrp Hd Hdn. rewrite !it_set by lia. destruct (decide (r = q)); [lia|].
    destruct (decide (d = q)) as [->|]; [apply H1; lia|].
    eapply compar_trans; [apply (H1 p d); lia|apply (H1 r p); lia].
  - intros c Hc Hcn. rewrite it_set by lia. destruct (decide (c = q)); [done|].
    eapply compar_trans; [apply (H1 p c); lia|done].
Qed.

Lemma hole_place n q a k :
  Comparator compar -> 1 <= q <= n -> n <= len a -> heap_hole n q a ->
  (forall c, child q c -> c <= n -> compar (it a c) k <= 0) ->
  (forall p, 1 <= p -> child p q -> compar k (it a p) <= 0) -> heap 1 n (fill a q k).
Proof.
  intros Hcc Hq Hn [H1 H2] Hk Hpk p c Hp Hc Hcn. unfold fill, le_it. rewrite !it_set by (unfold child in Hc; lia).
  destruct (decide (p = q)) as [->|].
  - destruct (decide (c = q)); [unfold child in Hc; lia|]. by apply Hk.
  - destruct (decide (c = q)) as [->|]; [by apply Hpk|]. by apply H1.
Qed.

Lemma SELECT_up_spec fuel : forall a n k q,
  1 <= q <= n -> n <= len a -> q < Z.of_nat fuel ->
  exists a', SELECT_up compar fuel a k q = Ok a' /\ a' ≡ₚ fill a q k /\
    (forall i, n < i -> it a' i = it a i) /\
    (Comparator compar -> heap_hole n q a -> (forall c, child q c -> c <= n -> compar (it a c) k <= 0) -> heap 1 n a') /\
    (forall Q : A -> Prop, items_but Q n q a -> Q k -> forall i, 1 <= i <= n -> Q (it a' i)).
Proof.
  assert (Hput : forall a n k q, 1 <= q <= n -> n <= len a ->
    (forall i, n < i -> it (fill a q k) i = it a i) /\
    (forall Q : A -> Prop, items_but Q n q a -> Q k -> forall i, 1 <= i <= n -> Q (it (fill a q k) i))).
  { intros a n k q Hq Hn. unfold fill. split.
    - intros i Hi. rewrite it_set by lia. by rewrite decide_False by lia.
    - intros Q HQ Hk i Hi. rewrite it_set by lia. destruct (decide (i = q)); [done|by apply HQ]. }
  induction fuel as [|fuel IH]; intros a n k q Hq Hn Hf; [lia|]. cbn [SELECT_up].
  destruct (Hput a n k q Hq Hn) as [Hfr HQ]. destruct (Z.eqb_spec q 1) as [->|Hq1]; cbn [rbind].
  - rewrite arr_set_ok by lia. exists (fill a 1 k). split; [done|]. split; [done|]. split; [done|]. split; [|done].
    intros Hcc Hh Hk. apply hole_place; auto. unfold child. lia.
  - assert (Hp : child (q / 2) q) by (unfold child; zbits). assert (1 <= q / 2 < q) by zbits.
    rewrite item_ok by lia. cbn [rbind]. destruct (Z.ltb_spec (compar k (it a (q / 2))) 0) as [Hlt|Hge].
    + rewrite arr_set_ok by lia. exists (fill a q k). split; [done|]. split; [done|]. split; [done|]. split; [|done].
      intros Hcc Hh Hk. apply hole_place; auto. intros p Hp1 Hpq.
      replace p with (q / 2) by (unfold child in *; lia). lia.
    + rewrite arr_set_ok by lia. cbn [rbind]. fold (fill a q (it a (q / 2))).
      assert (Hlen : length (fill a q (it a (q / 2))) = length a) by apply length_insert.
      destruct (IH (fill a q (it a (q / 2))) n k (q / 2)) as (a' & -> & Hp' & Hfr' & Hh' & HQ'); [lia|lia|lia|].
      exists a'. split; [done|]. split; [rewrite Hp'; apply fill_move; lia|]. split.
      { intros i Hi. rewrite Hfr' by done. unfold fill. rewrite it_set by lia. by rewrite decide_False by lia. }
      split.
      * intros Hcc Hh Hk. assert (Hpk : compar (it a (q / 2)) k <= 0).
        { pose proof (compar_antisym k (it a (q / 2))). pose proof (compar_antisym (it a (q / 2)) k). lia. }
        destruct (hole_up n q (q / 2) a k Hcc) as [Hh1 Hk1]; auto; try lia.
      * intros Q HQ0 Hk. apply HQ'; [|done]. apply fill_items; auto; lia.
Qed.

(** The first item of a heap is the largest. *)
Lemma heap_top n a : Comparator compar -> heap 1 n a -> forall i, 1 <= i <= n -> le_it a i 1.
Proof.
  intros Hcc Hh i. enough (H : forall m : nat, forall i, i <= Z.of_nat m -> 1 <= i <= n -> le_it a i 1).
  { intros Hi. apply (H (Z.to_nat i)); lia. }
  intros m. induction m as [|m IH]; intros j Hm Hj; [lia|].
  destruct (decide (j = 1)) as [->|]; [unfold le_it; rewrite compar_refl by done; lia|].
  eapply compar_trans; [|apply (IH (j / 2))]; [apply Hh|..]; unfold child; zbits.
Qed.

(** ** The sort *)

Definition tail_sorted (n : Z) (a : list A) : Prop :=
  forall i j, 1 <= i < j -> n < j <= len a -> le_it a i j.

Lemma SELECT_spec a n k :
  1 <= n -> n < len a ->
  exists a', SELECT compar a n k = Ok a' /\ a' ≡ₚ fill a 1 k /\
    (forall i, n < i -> it a' i = it a i) /\
    (Comparator compar -> heap_hole n 1 a -> heap 1 n a') /\
    (forall Q : A -> Prop, items_but Q n 1 a -> Q k -> forall i, 1 <= i <= n -> Q (it a' i)).
Proof.
  intros Hn Hl. unfold SELECT.
  destruct (SELECT_down_spec (S (Z.to_nat n)) a n 1) as (a1 & q & -> & Hq & Hnq & Hlen & Hp & Hfr & Hh & HQ); [lia..|].
  cbn [rbind]. destruct (SELECT_up_spec (S (Z.to_nat n)) a1 n k q) as (a2 & -> & Hp2 & Hfr2 & Hh2 & HQ2); [lia..|].
  exists a2. split; [done|]. split; [by rewrite Hp2, Hp|]. split; [intros i Hi; by rewrite Hfr2, Hfr|]. split.
  - intros Hcc Hh0. apply Hh2; auto. unfold child. lia.
  - intros Q HQ0 Hk. apply HQ2; auto.
Qed.

Lemma take_heap_spec r : forall a,
  Z.of_nat r + 1 <= len a ->
  exists a', take_heap compar r a = Ok a' /\ a' ≡ₚ a /\
    (Comparator compar -> heap 1 (Z.of_nat r + 1) a -> tail_sorted (Z.of_nat r + 1) a -> sorted compar a').
Proof.
  induction r as [|r IH]; intros a Hr; cbn [take_heap].
  - exists a. split; [done|]. split; [done|]. intros _ _ Ht i j Hi Hj.
    pose proof (Ht (i + 1) (j + 1)) as Hij. unfold le_it, it in Hij. rewrite !Z.add_simpl_r in Hij. apply Hij; lia.
  - set (n := Z.of_nat (S r) + 1) in *. rewrite !item_ok by lia. cbn [rbind]. rewrite arr_set_ok by lia. cbn [rbind].
    fold (fill a n (it a 1)). set (a1 := fill a n (it a 1)).
    assert (Hlen1 : length a1 = length a) by apply length_insert.
    destruct (SELECT_spec a1 (n - 1) (it a n)) as (a2 & -> & Hp2 & Hfr & Hh & HQ); [lia|lia|]. cbn [rbind].
    assert (Hpa : a2 ≡ₚ a).
    { rewrite Hp2. unfold a1, fill. apply Permutation_insert_swap; apply list_lookup_lookup_total_lt; lia. }
    pose proof (perm_len _ _ Hpa) as Hlen2. replace (Z.of_nat r + 1) with (n - 1) in IH by lia.
    destruct (IH a2) as (a3 & -> & Hp3 & Hs3); [lia|]. exists a3. split; [done|]. split; [by rewrite Hp3|].
    intros Hcc Hh0 Ht.
    assert (Hit : forall i, 1 <= i -> it a1 i = if decide (i = n) then it a 1 else it a i) by (intros; apply it_set; lia).
    assert (Hbut : forall Q : A -> Prop, (forall i, 1 <= i <= n -> Q (it a i)) -> forall i, 1 <= i <= n - 1 -> Q (it a2 i)).
    { intros Q HQ0. apply HQ; [|apply HQ0; lia]. intros i Hi _. rewrite Hit by lia.
      rewrite decide_False by lia. apply HQ0. lia. }
    apply Hs3; [done| |].
    + apply Hh; [done|]. split.
      * intros p c Hp Hc Hcn Hp1 Hc1. unfold le_it. rewrite !Hit by (unfold child in Hc; lia).
        rewrite !decide_False by (unfold child in Hc; lia). apply Hh0; [done|done|lia].
      * unfold child. lia.
    + intros i j Hi Hj. unfold le_it. rewrite (Hfr j), Hit by lia.
      assert (Hj' : forall x, 1 <= x <= n -> compar (it a x) (if decide (j = n) then it a 1 else it a j) <= 0).
      { intros x Hx. destruct (decide (j = n)); [by apply (heap_top n)|]. apply Ht; lia. }
      destruct (Z.le_gt_cases i (n - 1)).
      * apply (Hbut (fun x => compar x (if decide (j = n) then it a 1 else it a j) <= 0)); [done|lia].
      * rewrite (Hfr i), Hit by lia. destruct (decide (i = n)); [apply Hj'; lia|].
        rewrite decide_False by lia. apply Ht; lia.
Qed.

Lemma heapsort_spec a size :
  0 < size -> 
  exists a', heapsort compar true a (len a) size = Ok (0, None, a') /\ a' ≡ₚ a /\ (Comparator compar -> sorted compar a').
Proof.
  intros Hsz. unfold heapsort. destruct (Z.leb_spec (len a) 1) as [Hle|Hgt].
  { exists a. split; [done|]. split; [done|]. intros _ i j. lia. }
  rewrite (proj2 (Z.eqb_neq size 0)) by lia. cbn [negb].
  destruct (build_heap_spec (Z.to_nat (len a / 2)) a (len a)) as (a1 & -> & Hp1 & Hh1); [lia|left; zbits|].
  cbn [rbind]. pose proof (perm_len _ _ Hp1) as Hlen.
  destruct (take_heap_spec (Z.to_nat (len a - 1)) a1) as (a2 & -> & Hp2 & Hs); [lia|]. cbn [rbind].
  exists a2. split; [done|]. split; [by rewrite Hp2|]. intros Hcc.
  replace (Z.of_nat (Z.to_nat (len a - 1)) + 1) with (len a) in Hs by lia.
  apply Hs; [done|by apply Hh1|]. intros i j Hi Hj. lia.
Qed.

Lemma heapsort_fails a n size :
  heapsort compar false a n size = Ok (if n <=? 1 then 0 else -1, if (n <=? 1) || negb (size =? 0) then None else Some EINVAL, a).
Proof. unfold heapsort. destruct (n <=? 1); [done|]. by destruct (size =? 0). Qed.
End Heap.
