(* ===== verification/QsortPart.v ===== *)
(** * QsortPart: the parts of qsort

    The insertion sort, the choice of the pivot, the partition and the
    exchange of ranges, for every comparison. *)

From S2P Require Import Prelude Sort SortBase.

Section Qsort.
Context {A : Type} `{!Inhabited A} (compar : A -> A -> Z).
Implicit Types a : list A.

Abbreviation len a := (Z.of_nat (length a)).

(** [a'] is [a] with [i] and [j] exchanged. *)
Definition swapped (a a' : list A) (i j : Z) : Prop :=
  a' ≡ₚ a /\
  forall k, 0 <= k -> elt a' k = if decide (k = i) then elt a j else if decide (k = j) then elt a i else elt a k.

Lemma swap_ok a i j :
  0 <= i < len a -> 0 <= j < len a -> exists a', arr_swap a i j = Ok a' /\ swapped a a' i j.
Proof. apply arr_swap_spec. Qed.

(** ** Insertion sort *)

(** What exchanges of neighbours in the wrong order keep. *)
Definition exchange_closed (P : list A -> Prop) : Prop :=
  forall a a' i, 0 < i < len a -> 0 < compar (elt a (i - 1)) (elt a i) -> swapped a a' i (i - 1) -> P a -> P a'.

Definition sorted_to (m : Z) (a : list A) : Prop :=
  forall i j, 0 <= i < j -> j < m -> compar (elt a i) (elt a j) <= 0.

(** Sorted up to [pm] but for the element at [pl], which is not larger than
    what is behind it. *)
Definition inserting (pl pm : Z) (a : list A) : Prop :=
  (forall i j, 0 <= i < j -> j <= pm -> i <> pl -> j <> pl -> compar (elt a i) (elt a j) <= 0) /\
  (forall j, pl < j <= pm -> compar (elt a pl) (elt a j) <= 0).

Lemma inserting_done pl pm a :
  Comparator compar -> 0 <= pl <= pm -> inserting pl pm a ->
  (0 < pl -> compar (elt a (pl - 1)) (elt a pl) <= 0) -> sorted_to (pm + 1) a.
Proof.
  intros Hc Hpl [H1 H2] Hle i j Hij Hj. destruct (decide (i = pl)) as [->|Hi]; [apply H2; lia|].
  destruct (decide (j = pl)) as [->|Hjp]; [|apply H1; lia].
  destruct (decide (i = pl - 1)) as [->|]; [apply Hle; lia|].
  eapply compar_trans; [apply (H1 i (pl - 1)); lia|apply Hle; lia].
Qed.

Lemma inserting_step pl pm a a' :
  Comparator compar -> 0 < pl <= pm -> inserting pl pm a -> 0 < compar (elt a (pl - 1)) (elt a pl) ->
  swapped a a' pl (pl - 1) -> inserting (pl - 1) pm a'.
Proof.
  intros Hc Hpl [H1 H2] Hgt [_ He]. split.
  - intros i j Hij Hj Hi Hjp. rewrite !He by lia. rewrite !(decide_False (P := _ = pl - 1)) by lia.
    destruct (decide (i = pl)) as [->|]; [rewrite decide_False by lia; apply H1; lia|].
    destruct (decide (j = pl)) as [->|]; apply H1; lia.
  - intros j Hj. rewrite !He by lia. rewrite (decide_False (P := pl - 1 = pl)), (decide_True (P := pl - 1 = pl - 1)) by lia.
    destruct (decide (j = pl)) as [->|].
    + apply Z.lt_le_incl, compar_antisym. done.
    + rewrite decide_False by lia. apply H2. lia.
Qed.

Lemma isort_insert_spec fuel : forall a pl pm cnt lim,
  0 <= pl <= pm -> pm < len a -> pl < Z.of_nat fuel ->
  exists a' r, isort_insert compar fuel a pl cnt lim = Ok (a', r) /\ a' ≡ₚ a /\
    (forall P, exchange_closed P -> P a -> P a') /\
    (lim = 0 -> r <> None) /\
    (Comparator compar -> inserting pl pm a -> r <> None -> sorted_to (pm + 1) a').
Proof.
  induction fuel as [|fuel IH]; intros a pl pm cnt lim Hpl Hpm Hf; [lia|]. cbn [isort_insert].
  assert (Hgo : exists go, (if pl >? 0 then let! x := arr_get a (pl - 1) in let! y := arr_get a pl in Ok (compar x y >? 0)
    else Ok false) = Ok go /\ (go = true <-> 0 < pl /\ 0 < compar (elt a (pl - 1)) (elt a pl))).
  { rewrite Z.gtb_ltb. destruct (Z.ltb_spec 0 pl); [|exists false; split; [done|]; split; [done|lia]].
    rewrite !arr_get_elt by lia. cbn [rbind]. eexists. split; [done|]. rewrite Z.gtb_ltb, Z.ltb_lt. lia. }
  destruct Hgo as (go & -> & Hgo). cbn [rbind]. destruct go; cbn [negb].
  2: { exists a, (Some cnt). split; [done|]. split; [done|]. split; [done|]. split; [done|]. intros Hc Hi _.
       apply (inserting_done pl); auto. intros Hp.
       destruct (Z.le_gt_cases (compar (elt a (pl - 1)) (elt a pl)) 0); [done|].
       assert (false = true); [apply Hgo; lia|done]. }
  destruct (proj1 Hgo eq_refl) as [Hp Hgt].
  destruct (swap_ok a pl (pl - 1)) as (a1 & -> & Hs); [lia|lia|]. cbn [rbind].
  pose proof (perm_len _ _ (proj1 Hs)) as Hlen.
  set (cnt' := if lim =? 0 then cnt else cnt + 1). destruct (negb (lim =? 0) && (cnt' >? lim)) eqn:El.
  { exists a1, None. split; [done|]. split; [apply Hs|]. split; [|split; [lia|done]].
    intros P HP Ha. apply (HP a a1 pl); auto. lia. }
  destruct (IH a1 (pl - 1) pm cnt' lim) as (a2 & r & -> & Hp2 & HP2 & Hl2 & Hs2); [lia|lia|lia|].
  exists a2, r. split; [done|]. split; [rewrite Hp2; apply Hs|]. split; [|split; [done|]].
  - intros P HP Ha. apply HP2; [done|]. apply (HP a a1 pl); auto. lia.
  - intros Hc Hi. apply Hs2; [done|]. apply (inserting_step pl pm a); auto; lia.
Qed.

Lemma isort_loop_spec rounds : forall a pm cnt lim,
  1 <= pm -> Z.of_nat rounds = Z.max 0 (len a - pm) ->
  exists b a', isort_loop compar rounds a pm cnt lim = Ok (b, a') /\ a' ≡ₚ a /\
    (forall P, exchange_closed P -> P a -> P a') /\ (lim = 0 -> b = true) /\
    (Comparator compar -> sorted_to pm a -> b = true -> sorted compar a').
Proof.
  induction rounds as [|rounds IH]; intros a pm cnt lim Hpm Hr; cbn [isort_loop].
  - exists true, a. split; [done|]. split; [done|]. split; [done|]. split; [done|].
    intros _ Hs _ i j Hi Hj. apply Hs; lia.
  - destruct (isort_insert_spec (S (Z.to_nat pm)) a pm pm cnt lim) as (a1 & r & -> & Hp1 & HP1 & Hl1 & Hs1); [lia..|].
    cbn [rbind]. pose proof (perm_len _ _ Hp1) as Hlen. destruct r as [cnt1|].
    2: { exists false, a1. split; [done|]. split; [done|]. split; [done|]. split; [|done]. intros E. exfalso. by apply (Hl1 E). }
    destruct (IH a1 (pm + 1) cnt1 lim) as (b & a2 & -> & Hp2 & HP2 & Hl2 & Hs2); [lia|lia|].
    exists b, a2. split; [done|]. split; [by rewrite Hp2|]. split; [intros P HP Ha; by apply HP2, HP1|]. split; [done|].
    intros Hc Hs. apply Hs2; [done|]. apply Hs1; [done| |done]. split; [|lia].
    intros i j Hij Hj _ Hjp. apply Hs; lia.
Qed.

Lemma isort_spec a lim :
  exists b a', _isort compar a (len a) lim = Ok (b, a') /\ a' ≡ₚ a /\
    (forall P, exchange_closed P -> P a -> P a') /\ (lim = 0 -> b = true) /\
    (Comparator compar -> b = true -> sorted compar a').
Proof.
  destruct (isort_loop_spec (Z.to_nat (len a - 1)) a 1 0 lim) as (b & a' & E & Hp & HP & Hl & Hs); [lia|lia|].
  exists b, a'. split; [done|]. split; [done|]. split; [done|]. split; [done|]. intros Hc. apply Hs; [done|].
  intros i j. lia.
Qed.

(** ** Pivot *)

Lemma med3_spec a x y z :
  0 <= x < len a -> 0 <= y < len a -> 0 <= z < len a ->
  exists m, med3 compar a x y z = Ok m /\ 0 <= m < len a.
Proof.
  intros Hx Hy Hz. unfold med3. rewrite !arr_get_elt by done. cbn [rbind]. eexists. split; [done|].
  by repeat case_match.
Qed.

Lemma pseudomedian_spec a : 7 < len a -> exists m, pseudomedian compar a (len a) = Ok m /\ 0 <= m < len a.
Proof.
  intros Hn. unfold pseudomedian. rewrite Z.gtb_ltb. destruct (Z.ltb_spec 40 (len a)); cbn [rbind].
  - destruct (med3_spec a 0 (0 + len a / 8) (0 + 2 * (len a / 8))) as (pl & -> & Hpl); [zbits..|]. cbn [rbind].
    destruct (med3_spec a (len a / 2 - len a / 8) (len a / 2) (len a / 2 + len a / 8)) as (pm & -> & Hpm); [zbits..|].
    cbn [rbind].
    destruct (med3_spec a (len a - 1 - 2 * (len a / 8)) (len a - 1 - len a / 8) (len a - 1)) as (pn & -> & Hpn); [zbits..|].
    cbn [rbind]. by apply med3_spec.
  - apply med3_spec; zbits.
Qed.
End Qsort.

(** ** The partition of qsort *)

Section Partition.
Context {A : Type} `{!Inhabited A} (compar : A -> A -> Z).
Implicit Types a : list A.

Abbreviation len a := (Z.of_nat (length a)).
Abbreviation vs a k := (compar (elt a k) (elt a 0)).

(** The picture in the source: equal to the first element up to [pa] and from
    [pd] on, less between [pa] and [pb], greater between [pc] and [pd]. *)
Record parted (pa pb pc pd : Z) (a : list A) : Prop := {
  parted_left : 1 <= pa <= pb;
  parted_mid : pb <= pc + 1;
  parted_right : pc <= pd <= len a - 1;
  parted_eq k : 1 <= k < pa -> vs a k = 0;
  parted_lt k : pa <= k < pb -> vs a k < 0;
  parted_gt k : pc < k <= pd -> 0 < vs a k;
  parted_eq' k : pd < k < len a -> vs a k = 0
}.

Ltac at_index := repeat (rewrite decide_False by lia || rewrite decide_True by lia).

Lemma parted_up_eq pa pb pc pd a a' :
  parted pa pb pc pd a -> pb <= pc -> vs a pb = 0 -> swapped a a' pa pb -> parted (pa + 1) (pb + 1) pc pd a'.
Proof.
  intros [HL HM HR H1 H2 H3 H4] Hpb Hv [Hp He]. pose proof (perm_len _ _ Hp) as Hlen.
  assert (E0 : elt a' 0 = elt a 0) by (rewrite He by lia; at_index; done).
  split; try lia; intros k Hk; rewrite E0, He by lia.
  - destruct (decide (k = pa)) as [->|]; [done|]. at_index. apply H1. lia.
  - at_index. destruct (decide (k = pb)) as [->|]; apply H2; lia.
  - at_index. apply H3. lia.
  - at_index. apply H4. lia.
Qed.

Lemma parted_up_lt pa pb pc pd a :
  parted pa pb pc pd a -> pb <= pc -> vs a pb < 0 -> parted pa (pb + 1) pc pd a.
Proof.
  intros [HL HM HR H1 H2 H3 H4] Hpb Hv. split; try lia; try done.
  intros k Hk. destruct (decide (k = pb)) as [->|]; [done|]. apply H2. lia.
Qed.

Lemma parted_down_eq pa pb pc pd a a' :
  parted pa pb pc pd a -> pb <= pc -> vs a pc = 0 -> swapped a a' pc pd -> parted pa pb (pc - 1) (pd - 1) a'.
Proof.
  intros [HL HM HR H1 H2 H3 H4] Hpb Hv [Hp He]. pose proof (perm_len _ _ Hp) as Hlen.
  assert (E0 : elt a' 0 = elt a 0) by (rewrite He by lia; at_index; done).
  split; try lia; intros k Hk; rewrite E0, He by lia.
  - at_index. apply H1. lia.
  - at_index. apply H2. lia.
  - destruct (decide (k = pc)) as [->|]; [apply H3; lia|]. at_index. apply H3. lia.
  - destruct (decide (k = pc)) as [->|]; [by replace pd with pc by lia|].
    destruct (decide (k = pd)) as [->|]; [done|]. apply H4. lia.
Qed.

Lemma parted_down_gt pa pb pc pd a :
  parted pa pb pc pd a -> pb <= pc -> 0 < vs a pc -> parted pa pb (pc - 1) pd a.
Proof.
  intros [HL HM HR H1 H2 H3 H4] Hpb Hv. split; try lia; try done.
  intros k Hk. destruct (decide (k = pc)) as [->|]; [done|]. apply H3. lia.
Qed.

Lemma parted_cross pa pb pc pd a a' :
  parted pa pb pc pd a -> pb <= pc -> 0 < vs a pb -> vs a pc < 0 -> swapped a a' pb pc ->
  parted pa (pb + 1) (pc - 1) pd a'.
Proof.
  intros [HL HM HR H1 H2 H3 H4] Hpb Hb Hc [Hp He]. pose proof (perm_len _ _ Hp) as Hlen.
  assert (pb <> pc) by (intros ->; lia).
  assert (E0 : elt a' 0 = elt a 0) by (rewrite He by lia; at_index; done).
  split; try lia; intros k Hk; rewrite E0, He by lia.
  - at_index. apply H1. lia.
  - destruct (decide (k = pb)) as [->|]; [done|]. at_index. apply H2. lia.
  - destruct (decide (k = pb)); [lia|]. destruct (decide (k = pc)) as [->|]; [done|]. apply H3. lia.
  - at_index. apply H4. lia.
Qed.

Lemma scan_up_spec fuel : forall a pa pb pc pd cnt,
  parted pa pb pc pd a -> pc + 1 - pb < Z.of_nat fuel ->
  exists a' pa' pb' cnt', scan_up compar fuel a pa pb pc cnt = Ok (a', pa', pb', cnt') /\ a' ≡ₚ a /\
    parted pa' pb' pc pd a' /\ pb <= pb' /\ (pb' <= pc -> 0 < vs a' pb').
Proof.
  induction fuel as [|fuel IH]; intros a pa pb pc pd cnt Hpt Hf; [pose proof (parted_mid _ _ _ _ _ Hpt); lia|].
  cbn [scan_up]. pose proof Hpt as [HL HM HR _ _ _ _].
  destruct (Z.leb_spec pb pc) as [Hle|Hgt]; cbn [negb].
  2: { exists a, pa, pb, cnt. split; [done|]. split; [done|]. split; [done|]. lia. }
  rewrite !arr_get_elt by lia. cbn [rbind]. rewrite Z.gtb_ltb. destruct (Z.ltb_spec 0 (vs a pb)) as [Hg|Hng].
  { exists a, pa, pb, cnt. split; [done|]. split; [done|]. split; [done|]. by split. }
  destruct (Z.eqb_spec (vs a pb) 0) as [He|Hne].
  - destruct (swap_ok a pa pb) as (a1 & -> & Hs); [lia|lia|]. cbn [rbind].
    destruct (IH a1 (pa + 1) (pb + 1) pc pd 1) as (a2 & pa2 & pb2 & cnt2 & -> & Hp & Hpt2 & Hb & Hv);
      [by eapply parted_up_eq|lia|].
    exists a2, pa2, pb2, cnt2. split; [done|]. split; [rewrite Hp; apply Hs|]. split; [done|]. split; [lia|done].
  - destruct (IH a pa (pb + 1) pc pd cnt) as (a2 & pa2 & pb2 & cnt2 & -> & Hp & Hpt2 & Hb & Hv);
      [apply parted_up_lt; [done|done|lia]|lia|].
    exists a2, pa2, pb2, cnt2. split; [done|]. split; [done|]. split; [done|]. split; [lia|done].
Qed.

Lemma scan_down_spec fuel : forall a pa pb pc pd cnt,
  parted pa pb pc pd a -> pc + 1 - pb < Z.of_nat fuel -> (pb <= pc -> 0 < vs a pb) ->
  exists a' pc' pd' cnt', scan_down compar fuel a pb pc pd cnt = Ok (a', pc', pd', cnt') /\ a' ≡ₚ a /\
    parted pa pb pc' pd' a' /\ pc' <= pc /\ (pb <= pc' -> 0 < vs a' pb /\ vs a' pc' < 0).
Proof.
  induction fuel as [|fuel IH]; intros a pa pb pc pd cnt Hpt Hf Hb; [pose proof (parted_mid _ _ _ _ _ Hpt); lia|].
  cbn [scan_down]. pose proof Hpt as [HL HM HR _ _ _ _].
  destruct (Z.leb_spec pb pc) as [Hle|Hgt]; cbn [negb].
  2: { exists a, pc, pd, cnt. split; [done|]. split; [done|]. split; [done|]. lia. }
  rewrite !arr_get_elt by lia. cbn [rbind]. destruct (Z.ltb_spec (vs a pc) 0) as [Hg|Hng].
  { exists a, pc, pd, cnt. split; [done|]. split; [done|]. split; [done|]. split; [done|]. intros _. by split; [apply Hb|]. }
  destruct (Z.eqb_spec (vs a pc) 0) as [He|Hne].
  - destruct (swap_ok a pc pd) as (a1 & -> & Hs); [lia|lia|]. cbn [rbind].
    destruct (IH a1 pa pb (pc - 1) (pd - 1) 1) as (a2 & pc2 & pd2 & cnt2 & -> & Hp & Hpt2 & Hc & Hv);
      [by eapply parted_down_eq|lia| |].
    { intros Hle2. destruct Hs as [_ Hs]. rewrite !Hs by lia. at_index. apply Hb. lia. }
    exists a2, pc2, pd2, cnt2. split; [done|]. split; [rewrite Hp; apply Hs|]. split; [done|]. split; [lia|done].
  - destruct (IH a pa pb (pc - 1) pd cnt) as (a2 & pc2 & pd2 & cnt2 & -> & Hp & Hpt2 & Hc & Hv);
      [apply parted_down_gt; [done|done|lia]|lia|intros; apply Hb; lia|].
    exists a2, pc2, pd2, cnt2. split; [done|]. split; [done|]. split; [done|]. split; [lia|done].
Qed.

Lemma partition_spec fuel : forall a pa pb pc pd cnt,
  parted pa pb pc pd a -> pc + 1 - pb < Z.of_nat fuel ->
  exists a' pa' pb' pc' pd' cnt', partition compar fuel a pa pb pc pd cnt = Ok (a', (pa', pb', pc', pd'), cnt') /\
    a' ≡ₚ a /\ parted pa' pb' pc' pd' a' /\ pb' = pc' + 1.
Proof.
  induction fuel as [|fuel IH]; intros a pa pb pc pd cnt Hpt Hf; [pose proof (parted_mid _ _ _ _ _ Hpt); lia|].
  cbn [partition].
  destruct (scan_up_spec (S (Z.to_nat (pc + 1 - pb))) a pa pb pc pd cnt) as (a1 & pa1 & pb1 & cnt1 & -> & Hp1 & Hpt1 & Hb1 & Hv1);
    [done|lia|]. cbn [rbind].
  destruct (scan_down_spec (S (Z.to_nat (pc + 1 - pb1))) a1 pa1 pb1 pc pd cnt1) as (a2 & pc2 & pd2 & cnt2 & -> & Hp2 & Hpt2 & Hc2 & Hv2);
    [done|lia|done|]. cbn [rbind]. rewrite Z.gtb_ltb. pose proof (parted_mid _ _ _ _ _ Hpt2).
  destruct (Z.ltb_spec pc2 pb1) as [Hlt|Hge].
  { exists a2, pa1, pb1, pc2, pd2, cnt2. split; [done|]. split; [by rewrite Hp2|]. split; [done|lia]. }
  pose proof Hpt2 as [HL HM HR _ _ _ _]. destruct (swap_ok a2 pb1 pc2) as (a3 & -> & Hs); [lia|lia|]. cbn [rbind].
  destruct (IH a3 pa1 (pb1 + 1) (pc2 - 1) pd2 1) as (a4 & pa4 & pb4 & pc4 & pd4 & cnt4 & -> & Hp4 & Hpt4 & He4);
    [by apply (parted_cross _ _ _ _ a2); [..|apply Hv2|apply Hv2|]|lia|].
  exists a4, pa4, pb4, pc4, pd4, cnt4. split; [done|]. split; [|done]. rewrite Hp4, (proj1 Hs), Hp2. done.
Qed.

(** ** Exchange of ranges *)

Lemma vecswap_spec r : forall a i j,
  0 <= i -> i + Z.of_nat r <= j -> j + Z.of_nat r <= len a ->
  exists a', vecswap r a i j = Ok a' /\ a' ≡ₚ a /\
    forall k, 0 <= k -> elt a' k =
      if decide (i <= k < i + Z.of_nat r) then elt a (k + (j - i))
      else if decide (j <= k < j + Z.of_nat r) then elt a (k - (j - i)) else elt a k.
Proof.
  induction r as [|r IH]; intros a i j Hi Hij Hj; cbn [vecswap].
  - exists a. split; [done|]. split; [done|]. intros k Hk. by rewrite !decide_False by lia.
  - destruct (swap_ok a i j) as (a1 & -> & Hp1 & He1); [lia|lia|]. cbn [rbind]. pose proof (perm_len _ _ Hp1) as Hlen.
    destruct (IH a1 (i + 1) (j + 1)) as (a2 & -> & Hp2 & He2); [lia|lia|lia|].
    exists a2. split; [done|]. split; [by rewrite Hp2|]. intros k Hk. rewrite He2 by done.
    replace (j + 1 - (i + 1)) with (j - i) by lia.
    destruct (decide (i + 1 <= k < i + 1 + Z.of_nat r)).
    { rewrite (decide_True (P := i <= k < _)) by lia. rewrite He1 by lia. by at_index. }
    destruct (decide (j + 1 <= k < j + 1 + Z.of_nat r)).
    { rewrite (decide_False (P := i <= k < _)), (decide_True (P := j <= k < _)) by lia. rewrite He1 by lia. by at_index. }
    rewrite He1 by done. destruct (decide (k = i)) as [->|].
    { rewrite decide_True by lia. f_equal. lia. }
    destruct (decide (k = j)) as [->|].
    { rewrite (decide_False (P := i <= j < _)), decide_True by lia. f_equal. lia. }
    by rewrite !decide_False by lia.
Qed.

(** Less, equal and greater than [v], with [d1] and [d2] elements. *)
Record three_way (v : A) (d1 d2 : Z) (a : list A) : Prop := {
  three_range : 0 <= d1 /\ 0 <= d2 /\ d1 + d2 <= len a;
  three_lt k : 0 <= k < d1 -> compar (elt a k) v < 0;
  three_eq k : d1 <= k < len a - d2 -> compar (elt a k) v = 0;
  three_gt k : len a - d2 <= k < len a -> 0 < compar (elt a k) v
}.

Lemma middle_spec a pa pb pc pd :
  parted pa pb pc pd a -> pb = pc + 1 ->
  exists a1 a2,
    vecswap (Z.to_nat (Z.min pa (pb - pa))) a 0 (pb - Z.min pa (pb - pa)) = Ok a1 /\
    vecswap (Z.to_nat (Z.min (pd - pc) (len a - pd - 1))) a1 pb (len a - Z.min (pd - pc) (len a - pd - 1)) = Ok a2 /\
    a2 ≡ₚ a /\ 0 <= pb - pa /\ 0 <= pd - pc /\ pb - pa + (pd - pc) <= len a /\
    (Comparator compar -> three_way (elt a 0) (pb - pa) (pd - pc) a2).
Proof.
  intros [HL HM HR H1 H2 H3 H4] Hpc.
  destruct (vecswap_spec (Z.to_nat (Z.min pa (pb - pa))) a 0 (pb - Z.min pa (pb - pa))) as (a1 & E1 & Hp1 & He1); [lia..|].
  pose proof (perm_len _ _ Hp1) as Hlen1.
  destruct (vecswap_spec (Z.to_nat (Z.min (pd - pc) (len a - pd - 1))) a1 pb (len a - Z.min (pd - pc) (len a - pd - 1)))
    as (a2 & E2 & Hp2 & He2); [lia..|].
  pose proof (perm_len _ _ Hp2) as Hlen2.
  exists a1, a2. split; [done|]. split; [done|]. split; [by rewrite Hp2|]. split; [lia|]. split; [lia|]. split; [lia|].
  intros Hc. assert (H0 : forall k, 0 <= k < pa -> vs a k = 0).
  { intros k Hk. destruct (decide (k = 0)) as [->|]; [by apply compar_refl|]. apply H1. lia. }
  split; [lia|..]; intros k Hk; rewrite He2 by lia.
  - at_index. rewrite He1 by lia. destruct (decide (0 <= k < _)); [apply H2; lia|].
    rewrite decide_False by lia. apply H2. lia.
  - destruct (decide (pb <= k < _)).
    { rewrite He1 by lia. rewrite !decide_False by lia. apply H4. lia. }
    rewrite decide_False by lia. rewrite He1 by lia. destruct (decide (0 <= k < _)); [lia|].
    destruct (decide (_ <= k < _)); [apply H0; lia|]. destruct (Z.lt_ge_cases k pb); [apply H0; lia|apply H4; lia].
  - destruct (decide (pb <= k < _)); [lia|]. destruct (decide (_ <= k < _)).
    { rewrite He1 by lia. rewrite !decide_False by lia. apply H3. lia. }
    rewrite He1 by lia. rewrite !decide_False by lia. apply H3. lia.
Qed.

(** A partial insertion sort keeps it. *)
Lemma three_way_closed v d1 d2 : Comparator compar -> exchange_closed compar (three_way v d1 d2).
Proof.
  intros Hc a a' i Hi Hgt [Hp He] [HR H1 H2 H3]. pose proof (perm_len _ _ Hp) as Hlen.
  assert (Hle : forall x y, compar x v <= 0 -> 0 <= compar y v -> compar x y <= 0).
  { intros x y Hx Hy. eapply compar_trans; [exact Hx|]. pose proof (compar_antisym y v). pose proof (compar_antisym v y). lia. }
  assert (Hsame : ~ (i - 1 < d1 <= i) /\ ~ (i - 1 < len a - d2 <= i)).
  { split; intros Hx; assert (compar (elt a (i - 1)) (elt a i) <= 0); try lia; apply Hle.
    - specialize (H1 (i - 1)). lia.
    - destruct (Z.lt_ge_cases i (len a - d2)); [rewrite H2; lia|specialize (H3 i); lia].
    - destruct (Z.lt_ge_cases (i - 1) d1); [specialize (H1 (i - 1)); lia|rewrite H2; lia].
    - specialize (H3 i). lia. }
  split; [lia|..]; intros k Hk; rewrite He by lia; rewrite ?Hlen in *.
  - destruct (decide (k = i)); [apply H1; lia|]. destruct (decide (k = i - 1)); apply H1; lia.
  - destruct (decide (k = i)); [apply H2; lia|]. destruct (decide (k = i - 1)); apply H2; lia.
  - destruct (decide (k = i)); [apply H3; lia|]. destruct (decide (k = i - 1)); apply H3; lia.
Qed.
End Partition.
