(* ===== verification/SortThms.v ===== *)
(** * SortThms: the sorts sort, the search searches *)

From stdpp Require Import sorting.
From S2P Require Import Prelude Sort SortBase HeapThms QsortPart.

Section Sorts.
Context {A : Type} `{!Inhabited A} (compar : A -> A -> Z).
Implicit Types a : list A.

Abbreviation len a := (Z.of_nat (length a)).

(** In ascending order. *)
Abbreviation ascending := (StronglySorted (fun x y => compar x y <= 0)).

Lemma on_slice_app (l s r : list A) call :
  on_slice (l ++ s ++ r) (len l) (len s) call = let! s' := call s in Ok (l ++ s' ++ r).
Proof.
  unfold on_slice. rewrite !Nat2Z.id, drop_app_length, take_app_length.
  destruct (call s); [|done]. cbn [rbind]. rewrite take_app_length. do 3 f_equal.
  replace (Z.to_nat (len l + len s)) with (length (l ++ s)) by (rewrite length_app; lia).
  by rewrite app_assoc, drop_app_length.
Qed.

Lemma cut_slices (d1 d2 : Z) a :
  0 <= d1 -> 0 <= d2 -> d1 + d2 <= len a ->
  exists l m r, a = l ++ m ++ r /\ len l = d1 /\ len r = d2 /\
    (forall v, three_way compar v d1 d2 a ->
      (forall x, x ∈ l -> compar x v < 0) /\ (forall x, x ∈ m -> compar x v = 0) /\ (forall x, x ∈ r -> 0 < compar x v)).
Proof.
  intros H1 H2 H12. set (n1 := Z.to_nat d1). set (n2 := (length a - n1 - Z.to_nat d2)%nat).
  exists (take n1 a), (take n2 (drop n1 a)), (drop n2 (drop n1 a)). split; [by rewrite !take_drop|].
  rewrite length_take, !length_drop. split; [lia|]. split; [lia|]. intros v [_ T1 T2 T3].
  split; [|split]; intros x Hx; apply list_elem_of_lookup in Hx as [i Hi].
  - apply lookup_take_Some in Hi as [Hi Hlt]. rewrite <-(list_lookup_total_correct _ _ _ Hi).
    specialize (T1 (Z.of_nat i)). unfold elt in T1. rewrite Nat2Z.id in T1. apply T1. lia.
  - apply lookup_take_Some in Hi as [Hi Hlt]. rewrite lookup_drop in Hi.
    apply lookup_lt_Some in Hi as Hl. rewrite <-(list_lookup_total_correct _ _ _ Hi).
    specialize (T2 (Z.of_nat (n1 + i))). unfold elt in T2. rewrite Nat2Z.id in T2. apply T2. lia.
  - rewrite !lookup_drop in Hi. apply lookup_lt_Some in Hi as Hl. rewrite <-(list_lookup_total_correct _ _ _ Hi).
    specialize (T3 (Z.of_nat (n1 + (n2 + i)))). unfold elt in T3. rewrite Nat2Z.id in T3. apply T3. lia.
Qed.

(** Sorted parts around a pivot make a sorted whole. *)
Lemma ascending_three v l m r :
  Comparator compar -> ascending l -> ascending r ->
  (forall x, x ∈ l -> compar x v < 0) -> (forall x, x ∈ m -> compar x v = 0) -> (forall x, x ∈ r -> 0 < compar x v) ->
  ascending (l ++ m ++ r).
Proof.
  intros Hc Hl Hr H1 H2 H3.
  assert (Hle : forall x y, compar x v <= 0 -> 0 <= compar y v -> compar x y <= 0).
  { intros x y Hx Hy. eapply compar_trans; [exact Hx|]. pose proof (compar_antisym y v). pose proof (compar_antisym v y). lia. }
  assert (Hm : ascending m).
  { assert (Hm : forall x y, x ∈ m -> y ∈ m -> compar x y <= 0) by (intros x y Hx%H2 Hy%H2; apply Hle; lia).
    clear -Hm. induction m as [|x m IH]; constructor.
    - apply IH. intros y z Hy Hz. apply Hm; set_solver.
    - apply Forall_forall. intros y Hy. apply Hm; set_solver. }
  apply StronglySorted_app_2; [|done|apply StronglySorted_app_2; [|done|done]].
  - intros x y Hx%H1 [Hy%H2|Hy%H3]%elem_of_app; apply Hle; lia.
  - intros x y Hx%H2 Hy%H3. apply Hle; lia.
Qed.

(** A call on a part that has more than one element. *)
Lemma part_spec (G : Prop) (d : Z) (l s r : list A) call :
  d = len s ->
  (forall s, exists s', call s = Ok s' /\ s' ≡ₚ s /\ (G -> ascending s')) ->
  exists s', (if d >? 1 then on_slice (l ++ s ++ r) (len l) d call else Ok (l ++ s ++ r)) = Ok (l ++ s' ++ r) /\
    s' ≡ₚ s /\ (G -> ascending s').
Proof.
  intros -> Hcall. rewrite Z.gtb_ltb. destruct (Z.ltb_spec 1 (len s)).
  - rewrite on_slice_app. destruct (Hcall s) as (s' & -> & Hs'). by exists s'.
  - exists s. split; [done|]. split; [done|]. intros _. destruct s as [|x [|y s]]; [constructor|repeat constructor|cbn in *; lia].
Qed.

(** The calls on the two parts, in either order. *)
Lemma both_parts_spec (G : Prop) (v : A) (d1 d2 n : Z) a call :
  n = len a -> 0 <= d1 -> 0 <= d2 -> d1 + d2 <= len a ->
  (G -> Comparator compar /\ three_way compar v d1 d2 a) ->
  (forall s, exists s', call s = Ok s' /\ s' ≡ₚ s /\ (G -> ascending s')) ->
  let left a := if d1 >? 1 then on_slice a 0 d1 call else Ok a in
  let right a := if d2 >? 1 then on_slice a (n - d2) d2 call else Ok a in
  exists a', (if d1 <=? d2 then let! a := left a in right a else let! a := right a in left a) = Ok a' /\
    a' ≡ₚ a /\ (G -> ascending a').
Proof.
  intros -> Hd1 Hd2 Hd Hg Hcall left right.
  destruct (cut_slices d1 d2 a) as (l & m & r & -> & Hll & Hlr & Hcut); [lia|lia|lia|].
  assert (Hleft : forall r, exists l', left (l ++ m ++ r) = Ok (l' ++ m ++ r) /\ l' ≡ₚ l /\ (G -> ascending l')).
  { intros r'. apply (part_spec G _ [] l (m ++ r')); [lia|done]. }
  assert (Hright : forall l', length l' = length l ->
    exists r', right (l' ++ m ++ r) = Ok (l' ++ m ++ r') /\ r' ≡ₚ r /\ (G -> ascending r')).
  { intros l' Hl'. destruct (part_spec G d2 (l' ++ m) r [] call) as (r' & E & Hr'); [lia|done|].
    exists r'. rewrite !app_nil_r, <-!app_assoc in E. rewrite <-E. split; [|done]. unfold right.
    replace (len (l ++ m ++ r) - d2) with (len (l' ++ m)); [done|]. rewrite !length_app in *. lia. }
  assert (Hfin : forall l' r', l' ≡ₚ l -> r' ≡ₚ r -> (G -> ascending l') -> (G -> ascending r') ->
    l' ++ m ++ r' ≡ₚ l ++ m ++ r /\ (G -> ascending (l' ++ m ++ r'))).
  { intros l' r' Hl' Hr' Hal Har. split; [by rewrite Hl', Hr'|]. intros HG. destruct (Hg HG) as [Hc Ht].
    destruct (Hcut v Ht) as (H1 & H2 & H3). apply (ascending_three v); auto.
    - intros x Hx. apply H1. by rewrite <-Hl'.
    - intros x Hx. apply H3. by rewrite <-Hr'. }
  destruct (d1 <=? d2).
  - destruct (Hleft r) as (l' & -> & Hl' & Hal). cbn [rbind].
    destruct (Hright l') as (r' & -> & Hr' & Har); [by rewrite Hl'|]. exists (l' ++ m ++ r'). auto.
  - destruct (Hright l) as (r' & -> & Hr' & Har); [done|]. cbn [rbind].
    destruct (Hleft r') as (l' & -> & Hl' & Hal). exists (l' ++ m ++ r'). auto.
Qed.

(** The insertion sort that may give up. *)
Lemma try_isort_spec (cnt lim d1 d2 : Z) (v : A) a :
  exists b a', (if cnt =? 0 then _isort compar a (len a) lim else Ok (false, a)) = Ok (b, a') /\ a' ≡ₚ a /\
    (Comparator compar -> b = true -> ascending a') /\
    (Comparator compar -> three_way compar v d1 d2 a -> three_way compar v d1 d2 a').
Proof.
  destruct (cnt =? 0); [|exists false, a; split; [done|]; split; [done|]; by split].
  destruct (isort_spec compar a lim) as (b & a' & -> & Hp & HP & _ & Hs).
  exists b, a'. split; [done|]. split; [done|]. split.
  - intros Hc Hb. by apply sorted_strongly, Hs.
  - intros Hc. by apply HP, three_way_closed.
Qed.

Lemma qsort_depth_spec malloc es depth : 0 < es -> forall a,
  exists a', _qsort compar malloc depth a es = Ok a' /\ a' ≡ₚ a /\ (malloc = true /\ Comparator compar -> ascending a').
Proof.
  intros Hes. induction depth as [|depth IH]; intros a; cbn [_qsort].
  { destruct malloc.
    - destruct (heapsort_spec compar a es Hes) as (a' & -> & Hp & Hs). exists a'. split; [done|]. split; [done|].
      intros [_ Hc]. by apply sorted_strongly, Hs.
    - rewrite heapsort_fails. exists a. split; [done|]. split; [done|]. by intros [? _]. }
  destruct (Z.leb_spec (len a) 7) as [Hsm|Hbig].
  { destruct (isort_spec compar a 0) as (b & a' & -> & Hp & _ & Hb & Hs). cbn [rbind]. exists a'.
    split; [done|]. split; [done|]. intros [_ Hc]. apply sorted_strongly, Hs; [done|]. by apply Hb. }
  destruct (pseudomedian_spec compar a) as (pm & -> & Hpm); [lia|]. cbn [rbind].
  destruct (swap_ok a 0 pm) as (a1 & -> & Hp1 & _); [lia|lia|]. cbn [rbind]. pose proof (perm_len _ _ Hp1) as Hl1.
  destruct (partition_spec compar (S (length a1)) a1 1 1 (len a - 1) (len a - 1) 0)
    as (a2 & pa & pb & pc & pd & cnt & -> & Hp2 & Hpt & Hpc); [split; intros; lia|lia|]. cbn [rbind].
  pose proof (perm_len _ _ Hp2) as Hl2. destruct (middle_spec compar a2 pa pb pc pd Hpt Hpc)
    as (a3 & a4 & E3 & E4 & Hp4 & Hd1 & Hd2 & Hd & Ht).
  replace (len a2) with (len a) in E4 by lia. rewrite E3. cbn [rbind]. rewrite E4. cbn [rbind].
  assert (Hp : a4 ≡ₚ a) by (by rewrite Hp4, Hp2, Hp1). pose proof (perm_len _ _ Hp) as Hl4.
  destruct (try_isort_spec cnt (s32 (1 + len a / 4)) (pb - pa) (pd - pc) (elt a2 0) a4) as (b & a5 & E5 & Hp5 & Hs5 & Ht5).
  rewrite Hl4 in E5. rewrite E5. cbn [rbind]. pose proof (perm_len _ _ Hp5) as Hl5. destruct b.
  { exists a5. split; [done|]. split; [by rewrite Hp5|]. intros [_ Hc]. by apply Hs5. }
  destruct (both_parts_spec (malloc = true /\ Comparator compar) (elt a2 0) (pb - pa) (pd - pc) (len a) a5
    (fun s => _qsort compar malloc depth s es)) as (a6 & E & Hp6 & Hs6); [lia|lia|lia|lia|intros [_ Hc]; auto|apply IH|].
  exists a6. split; [exact E|]. split; [by rewrite Hp6, Hp5|done].
Qed.
End Sorts.

(** ** Search *)

Section Search.
Context {K A : Type} `{!Inhabited A} (compar : K -> A -> Z) (key : K).

Abbreviation len a := (Z.of_nat (length a)).

(** The elements the key is greater than come first, those it is less than
    last. *)
Definition monotone (a : list A) : Prop :=
  forall i j, 0 <= i < j -> j < len a ->
    (0 < compar key (elt a j) -> 0 < compar key (elt a i)) /\ (compar key (elt a i) < 0 -> compar key (elt a j) < 0).

Lemma bsearch_loop_spec fuel : forall a base lim,
  monotone a -> 0 <= base -> 0 <= lim < Z.of_nat fuel -> base + lim <= len a ->
  (forall i, 0 <= i < base -> 0 < compar key (elt a i)) ->
  (forall i, base + lim <= i < len a -> compar key (elt a i) < 0) ->
  exists r, bsearch_loop compar fuel key a base lim = Ok r /\
    match r with
    | Some p => 0 <= p < len a /\ compar key (elt a p) = 0
    | None => forall i, 0 <= i < len a -> compar key (elt a i) <> 0
    end.
Proof.
  induction fuel as [|fuel IH]; intros a base lim Hm Hb Hl Hbl H1 H2; [lia|]. cbn [bsearch_loop].
  destruct (Z.eqb_spec lim 0) as [->|Hne].
  { exists None. split; [done|]. intros i Hi. destruct (Z.lt_ge_cases i base); [specialize (H1 i)|specialize (H2 i)]; lia. }
  rewrite (shiftr_div lim) by lia. change (2 ^ 1) with 2. assert (Hh : 0 <= lim / 2 < lim) by zbits.
  rewrite arr_get_elt by lia. cbn [rbind]. set (p := base + lim / 2) in *. set (c := compar key (elt a p)).
  destruct (Z.eqb_spec c 0); [by exists (Some p); split; [|split; [lia|]]|]. rewrite Z.gtb_ltb.
  destruct (Z.ltb_spec 0 c) as [Hgt|Hle]; rewrite shiftr_div by lia; change (2 ^ 1) with 2.
  - apply IH; try done; [lia|zbits|zbits| |intros i Hi; apply H2; zbits].
    intros i Hi. destruct (decide (i = p)) as [->|]; [done|]. apply (Hm i p); [lia|lia|done].
  - apply IH; try done; [zbits|zbits|]. intros i Hi. destruct (decide (i = p)) as [->|]; [lia|].
    apply (Hm p i); [zbits|lia|lia].
Qed.
End Search.

(** ** Theorems *)

(** heapsort sorts in place.  It returns 0 with the elements permuted,
    whatever the comparison does, and within the bounds of the array; they
    are in ascending order if the comparison is consistent.  Without memory
    for one element, or for elements without a size, it fails and leaves the
    array alone. *)
Theorem heapsort_sorts {A} `{!Inhabited A} (compar : A -> A -> Z) (a : list A) size :
  0 <= size ->
  (0 < size -> exists a', heapsort compar true a (Z.of_nat (length a)) size = Ok (0, None, a') /\ a' ≡ₚ a /\
    (Comparator compar -> StronglySorted (fun x y => compar x y <= 0) a')) /\
  (forall malloc, (1 < length a)%nat -> malloc = false \/ size = 0 ->
    heapsort compar malloc a (Z.of_nat (length a)) size = Ok (-1, if size =? 0 then Some EINVAL else None, a)).
Proof.
  intros Hs. split.
  - intros Hsz. destruct (heapsort_spec compar a size Hsz) as (a' & E & Hp & Hso). exists a'.
    split; [done|]. split; [done|]. intros Hc. by apply sorted_strongly, Hso.
  - intros malloc Hl Hf. unfold heapsort. rewrite (proj2 (Z.leb_gt _ _)) by lia.
    destruct (Z.eqb_spec size 0); [done|]. by destruct Hf as [-> |].
Qed.

Lemma heapsort_sorts_witness :
  exists a', heapsort Z.sub true [5; 1; 4; 2; 3] 5 4 = Ok (0, None, a') /\ StronglySorted (fun x y => x - y <= 0) a'.
Proof.
  destruct (heapsort_sorts Z.sub [5; 1; 4; 2; 3] 4) as [H _]; [lia|].
  destruct H as (a' & E & _ & Hs); [lia|]. exists a'. split; [exact E|apply Hs, sub_comparator].
Defined.

(** [C35] qsort sorts.  Whatever the comparison does, it ends, stays within the
    array and permutes it.  With a consistent comparison, and if heapsort gets
    its element of memory should it be needed, the elements are in ascending
    order, on every path: insertion sort, the early attempt at it that is given
    up, recursion, and heapsort beyond the depth limit.  (If [malloc] fails
    there, the part of the array left to heapsort stays as it was.) *)
Theorem qsort_sorts {A} `{!Inhabited A} (compar : A -> A -> Z) malloc (a : list A) es :
  0 < es ->
  exists a', qsort compar malloc a es = Ok a' /\ a' ≡ₚ a /\
    (malloc = true -> Comparator compar -> StronglySorted (fun x y => compar x y <= 0) a').
Proof.
  intros Hes. destruct (qsort_depth_spec compar malloc es (Z.to_nat (DEPTH (Z.of_nat (length a)))) Hes a) as (a' & E & Hp & Hs).
  exists a'. split; [done|]. split; [done|]. intros Hm Hc. by apply Hs.
Qed.

Lemma qsort_sorts_witness :
  exists a', qsort Z.sub true [5; 1; 4; 2; 3; 9; 8; 7; 6; 0] 4 = Ok a' /\ StronglySorted (fun x y => x - y <= 0) a'.
Proof.
  destruct (qsort_sorts Z.sub true [5; 1; 4; 2; 3; 9; 8; 7; 6; 0] 4) as (a' & E & _ & Hs); [lia|].
  exists a'. split; [exact E|]. apply Hs; [reflexivity|apply sub_comparator].
Defined.

(** bsearch finds what there is.  In an array sorted by a consistent
    comparison it returns the index of an element equal to the key, and NULL
    exactly if there is none. *)
Theorem bsearch_finds {A} `{!Inhabited A} (compar : A -> A -> Z) `{!Comparator compar} (key : A) (a : list A) :
  StronglySorted (fun x y => compar x y <= 0) a ->
  exists r, bsearch compar key a = Ok r /\
    match r with
    | Some p => exists x, a !! Z.to_nat p = Some x /\ 0 <= p /\ compar key x = 0
    | None => forall x, x ∈ a -> compar key x <> 0
    end.
Proof.
  intros Hs. assert (Hm : monotone compar key a).
  { intros i j Hi Hj. assert (Hij : compar (elt a i) (elt a j) <= 0).
    { apply (StronglySorted_app_1_elem_of (fun x y => compar x y <= 0) (take (Z.to_nat j) a) (drop (Z.to_nat j) a)); [by rewrite take_drop|..].
      - apply list_elem_of_lookup. exists (Z.to_nat i). rewrite lookup_take_lt by lia. apply list_lookup_lookup_total_lt. lia.
      - apply list_elem_of_lookup. exists 0%nat. rewrite lookup_drop, Nat.add_0_r. apply list_lookup_lookup_total_lt. lia. }
    pose proof (compar_trans key (elt a i) (elt a j)). pose proof (compar_trans (elt a i) (elt a j) key).
    pose proof (compar_antisym key (elt a i)). pose proof (compar_antisym (elt a i) key).
    pose proof (compar_antisym key (elt a j)). pose proof (compar_antisym (elt a j) key). lia. }
  destruct (bsearch_loop_spec compar key (S (length a)) a 0 (Z.of_nat (length a)) Hm) as (r & E & Hr); try lia.
  exists r. split; [done|]. destruct r as [p|].
  - exists (elt a p). split; [apply list_lookup_lookup_total_lt; lia|]. split; [lia|apply Hr].
  - intros x (i & Hi & <-)%elem_of_elt. by apply Hr.
Qed.

Lemma bsearch_finds_witness :
  exists r, bsearch Z.sub 7 [1; 3; 7; 8] = Ok r /\
    match r with
    | Some p => exists x, [1; 3; 7; 8] !! Z.to_nat p = Some x /\ 0 <= p /\ 7 - x = 0
    | None => forall x, x ∈ [1; 3; 7; 8] -> 7 - x <> 0
    end.
Proof. apply (bsearch_finds Z.sub 7 [1; 3; 7; 8]). repeat constructor; lia. Defined.
