(* ===== verification/Merge.v ===== *)
(** * Merge: mergesort of the C library

    Model of [stdlib/FreeBSD/merge.c].  The array and a second buffer take
    turns: the runs of one are merged into the other.  Where the next run
    begins is written into the buffer that does not hold the data, at the
    first aligned address of the run ([EVAL]), so that bytes of the buffers
    are elements at one time and pointers at another.

    A buffer has an address, a number of bytes, its elements, and the
    pointers in it by their distance in bytes from the start.  To write an
    element destroys the pointers it overlaps, and to write a pointer destroys
    the elements; what is destroyed cannot be read.  A pointer to an element is
    its index.  The copy loops move elements whole, whether by [int] or by
    [char] ([iflag]). *)

From S2P Require Import Prelude.

Module Merge.

Definition PSIZE : Z := 8.
Definition THRESHOLD : Z := 16.
Definition EINVAL : Z := 22.

Section Merge.
Context {A : Type} (cmp : A -> A -> Z) (size : Z).

(** ** Buffers *)

Record buffer := Buf {
  b_addr : Z;
  b_bytes : Z;
  cells : list (option A);
  heads : gmap Z Z
}.

Definition elt_get (l : buffer) (k : Z) : res A :=
  let! c := arr_get (cells l) k in
  match c with Some x => Ok x | None => Crash UninitRead end.

(** The bytes of element [k] and those of a pointer at [off] overlap. *)
Definition overlap (k off : Z) : bool := (k * size <? off + PSIZE) && (off <? (k + 1) * size).

Definition elt_put (l : buffer) (k : Z) (x : A) : res buffer :=
  let! cs := arr_set (cells l) k (Some x) in
  Ok (Buf (b_addr l) (b_bytes l) cs (filter (fun h => overlap k h.1 = false) (heads l))).

(** The distance of the first aligned address from [k] on. *)
Definition EVAL (l : buffer) (k : Z) : Z :=
  Z.land (b_addr l + k * size + PSIZE - 1) (Z.lnot (PSIZE - 1)) - b_addr l.

(** [*EVAL(l + k)], read and written. *)
Definition head_get (l : buffer) (k : Z) : res Z :=
  match heads l !! EVAL l k with Some p => Ok p | None => Crash UninitRead end.

Definition head_put (l : buffer) (k p : Z) : res buffer :=
  let off := EVAL l k in
  if (0 <=? off) && (off + PSIZE <=? b_bytes l) then
    Ok (Buf (b_addr l) (b_bytes l)
            (imap (fun j c => if overlap (Z.of_nat j) off then None else c) (cells l))
            (<[off := p]> (heads l)))
  else Crash OutOfBounds.

Definition compare (l : buffer) (i j : Z) : res Z :=
  let! x := elt_get l i in
  let! y := elt_get l j in
  Ok (cmp x y).

(** ** The first pass *)

(** [swap]: the two elements change places. *)
Definition swap (l : buffer) (a b : Z) : res buffer :=
  let! x := elt_get l a in
  let! y := elt_get l b in
  let! l := elt_put l a y in
  elt_put l b x.

(** [reverse] of the elements from [bot] to [top]. *)
Fixpoint reverse (fuel : nat) (l : buffer) (bot s : Z) : res buffer :=
  match fuel with
  | O => Crash OutOfFuel
  | S fuel =>
      let! l := swap l bot s in
      if bot + 1 <? s - 1 then reverse fuel l (bot + 1) (s - 1) else Ok l
  end.

(** The inner loop of [insertionsort]: [t - a] rounds. *)
Fixpoint insert_down (fuel : nat) (l : buffer) (a t : Z) : res buffer :=
  match fuel with
  | O => Crash OutOfFuel
  | S fuel =>
      if negb (t >? a) then Ok l
      else
        let u := t - 1 in
        let! c := compare l u t in
        if c <=? 0 then Ok l
        else
          let! l := swap l u t in
          insert_down fuel l a (t - 1)
  end.

Fixpoint insertion_loop (fuel : nat) (l : buffer) (a ai n : Z) : res buffer :=
  match fuel with
  | O => Crash OutOfFuel
  | S fuel =>
      let n := n - 1 in
      if negb (n >=? 1) then Ok l
      else
        let! l := insert_down (S (Z.to_nat (ai - a))) l a ai in
        insertion_loop fuel l a (ai + 1) n
  end.

Definition insertionsort (l : buffer) (a n : Z) : res buffer :=
  insertion_loop (S (Z.to_nat n)) l a (a + 1) n.

(** Finds pairs with the same sense: where they end, and how many elements
    they have. *)
Fixpoint same_sense (fuel : nat) (l : buffer) (last : Z) (sense : bool) (f2 length : Z) : res (Z * Z) :=
  match fuel with
  | O => Crash OutOfFuel
  | S fuel =>
      if negb (f2 <? last) then Ok (f2, length)
      else
        let! c := compare l f2 (f2 + 1) in
        if negb (Bool.eqb (c >? 0) sense) then Ok (f2, length)
        else same_sense fuel l last sense (f2 + 2) (s32 (length + 2))
  end.

(** The pairwise merge: [f1] and [p2] at its end. *)
Fixpoint pairwise (fuel : nat) (list1 list2 : buffer) (sense : bool) (f1 f2 p2 : Z) :
    res (buffer * buffer * Z * Z) :=
  match fuel with
  | O => Crash OutOfFuel
  | S fuel =>
      let! list2 := head_put list2 p2 (f1 + 2) in
      let p2 := f1 + 2 in
      let! list1 := (if sense then swap list1 f1 (f1 + 1) else Ok list1) in
      let f1 := f1 + 2 in
      if f1 <? f2 then pairwise fuel list1 list2 sense f1 f2 p2
      else Ok (list1, list2, f1, p2)
  end.

Definition reverse_run (l : buffer) (sense : bool) (bot top : Z) : res buffer :=
  if sense then reverse (S (Z.to_nat (top - bot))) l bot top else Ok l.

(** The loop of the natural merge. *)
Fixpoint natural (fuel : nat) (list1 list2 : buffer) (sense : bool) (f1 f2 l2 p2 : Z) :
    res (buffer * buffer * Z * Z * Z) :=
  match fuel with
  | O => Crash OutOfFuel
  | S fuel =>
      if negb (f2 <? l2) then Ok (list1, list2, f1, f2, p2)
      else
        let! c := compare list1 (f2 - 1) f2 in
        if negb (Bool.eqb (c >? 0) sense) then
          let! list2 := head_put list2 p2 f2 in
          let! list1 := reverse_run list1 sense f1 (f2 - 1) in
          natural fuel list1 list2 sense f2 (f2 + 2) l2 f2
        else natural fuel list1 list2 sense f1 (f2 + 2) l2 p2
  end.

Definition natural_merge (list1 list2 : buffer) (n last : Z) (sense : bool) (f1 f2 p2 : Z) :
    res (buffer * buffer * Z * Z) :=
  let l2 := f2 in
  let! (list1, list2, f1, f2, p2) := natural (S (Z.to_nat (l2 - f1))) list1 list2 sense f1 (f1 + 2) l2 p2 in
  let! list1 := reverse_run list1 sense f1 (f2 - 1) in
  let f1 := f2 in
  let! more := (if f2 <? last then Ok true else let! c := compare list1 (f2 - 1) f2 in Ok (c >? 0)) in
  let p := if (more : bool) then f2 else n in
  let! list2 := head_put list2 p2 p in
  Ok (list1, list2, f1, p).

Fixpoint setup_loop (fuel : nat) (list1 list2 : buffer) (n last : Z) (sense : bool) (f1 p2 : Z) :
    res (buffer * buffer) :=
  match fuel with
  | O => Crash OutOfFuel
  | S fuel =>
      if negb (f1 <? last) then Ok (list1, list2)
      else
        let! (f2, length) := same_sense (S (Z.to_nat (last - f1))) list1 last sense (f1 + 2) 2 in
        let! (list1, list2, f1, p2) :=
          (if length <? THRESHOLD then pairwise (S (Z.to_nat (f2 - f1))) list1 list2 sense f1 f2 p2
           else natural_merge list1 list2 n last sense f1 f2 p2) in
        setup_loop fuel list1 list2 n last (negb sense) f1 p2
  end.

Definition setup (list1 list2 : buffer) (n : Z) : res (buffer * buffer) :=
  if n <=? 5 then
    let! list1 := insertionsort list1 0 n in
    let! list2 := head_put list2 0 n in
    Ok (list1, list2)
  else
    let i := 4 + Z.land n 1 in
    let! list1 := insertionsort list1 (n - i) i in
    let last := n - i in
    let! list2 := head_put list2 last n in
    let! c := compare list1 0 1 in
    setup_loop (S (Z.to_nat last)) list1 list2 n last (c >? 0) 0 0.

(** ** Merging two runs *)

(** The linear search: where [b] stops, and whether the search goes on
    exponentially from there. *)
Fixpoint linear (fuel : nat) (l : buffer) (q t sense b i : Z) : res (Z * bool) :=
  match fuel with
  | O => Crash OutOfFuel
  | S fuel =>
      let b := b + 1 in
      if negb (b <? t) then Ok (b, false)
      else
        let! c := compare l q b in
        if negb (c >? sense) then Ok (b, false)
        else
          let i := i + 1 in
          if i =? 6 then Ok (b, true) else linear fuel l q t sense b i
  end.

(** How the exponential search ends. *)
Inductive bracket :=
  | Bisect (b t : Z)
  | FastCase (b t i : Z) (big : bool).

Fixpoint exponential (fuel : nat) (l : buffer) (q sense b t i : Z) : res bracket :=
  match fuel with
  | O => Crash OutOfFuel
  | S fuel =>
      let p := b + i in
      if p >=? t then
        let p := t - 1 in
        let! low := (if p >? b then let! c := compare l q p in Ok (c <=? sense) else Ok false) in
        Ok (if (low : bool) then Bisect b p else Bisect p t)
      else
        let! c := compare l q p in
        if c <=? sense then Ok (FastCase b p i (negb (i =? 1)))
        else exponential fuel l q sense p t (i * 2)
  end.

Fixpoint bisect (fuel : nat) (l : buffer) (q sense b t : Z) : res Z :=
  match fuel with
  | O => Crash OutOfFuel
  | S fuel =>
      if negb (t >? b + 1) then Ok t
      else
        let p := b + Z.shiftr (t - b) 1 in
        let! c := compare l q p in
        if c <=? sense then bisect fuel l q sense b p else bisect fuel l q sense p t
  end.

Fixpoint fastcase (fuel : nat) (l : buffer) (q sense b t i : Z) : res Z :=
  match fuel with
  | O => Crash OutOfFuel
  | S fuel =>
      if negb (i >? 1) then Ok t
      else
        let i := Z.shiftr i 1 in
        let p := b + i in
        let! c := compare l q p in
        if c <=? sense then fastcase fuel l q sense b p i else fastcase fuel l q sense p t i
  end.

(** From the label [EXPONENTIAL] to the label [COPY]. *)
Definition gallop (l : buffer) (q sense b t : Z) : res (Z * bool) :=
  let fuel := S (Z.to_nat (t - b)) in
  let! r := exponential fuel l q sense b t 1 in
  match r with
  | Bisect b t => let! t := bisect fuel l q sense b t in Ok (t, true)
  | FastCase b t i big => let! t := fastcase fuel l q sense b t i in Ok (t, big)
  end.

(** Where the elements that go before [q] end, and the new [big]. *)
Definition find_end (l : buffer) (q sense b t : Z) (big : bool) : res (Z * bool) :=
  if negb big then
    let! (b, on) := linear 6 l q t sense b 0 in
    if (on : bool) then gallop l q sense b t else Ok (b, false)
  else gallop l q sense b t.

(** [ICOPY_LIST] and [CCOPY_LIST]: the elements of [list1] from [src] up to
    [last] go to [dst] of [list2]. *)
Fixpoint copy_list (fuel : nat) (list1 list2 : buffer) (src dst last : Z) : res (buffer * Z * Z) :=
  match fuel with
  | O => Crash OutOfFuel
  | S fuel =>
      let! x := elt_get list1 src in
      let! list2 := elt_put list2 dst x in
      let src := src + 1 in
      let dst := dst + 1 in
      if src <? last then copy_list fuel list1 list2 src dst last else Ok (list2, src, dst)
  end.

Definition copy_to (list1 list2 : buffer) (src dst last : Z) : res (buffer * Z * Z) :=
  copy_list (S (Z.to_nat (last - src))) list1 list2 src dst last.

(** The loop that merges the runs at [f1] and [f2]. *)
Fixpoint merge_loop (fuel : nat) (list1 list2 : buffer) (f1 l1 f2 l2 tp2 : Z) (big : bool) :
    res (buffer * Z * Z * Z * bool) :=
  match fuel with
  | O => Crash OutOfFuel
  | S fuel =>
      if negb ((f1 <? l1) && (f2 <? l2)) then Ok (list2, f1, f2, tp2, big)
      else
        let! c := compare list1 f1 f2 in
        if c <=? 0 then
          let! (b, big) := find_end list1 f2 (-1) f1 l1 big in
          let! (list2, f1, tp2) := copy_to list1 list2 f1 tp2 b in
          let! (list2, f2, tp2) := copy_to list1 list2 f2 tp2 (f2 + 1) in
          merge_loop fuel list1 list2 f1 l1 f2 l2 tp2 big
        else
          let! (b, big) := find_end list1 f1 0 f2 l2 big in
          let! (list2, f2, tp2) := copy_to list1 list2 f2 tp2 b in
          let! (list2, f1, tp2) := copy_to list1 list2 f1 tp2 (f1 + 1) in
          merge_loop fuel list1 list2 f1 l1 f2 l2 tp2 big
  end.

Definition merge_runs (list1 list2 : buffer) (f1 l1 f2 l2 tp2 : Z) (big : bool) : res (buffer * Z * bool) :=
  let! (list2, f1, f2, tp2, big) :=
    merge_loop (S (Z.to_nat (l2 - f1))) list1 list2 f1 l1 f2 l2 tp2 big in
  if f2 <? l2 then
    let! (list2, _, tp2) := copy_to list1 list2 f2 tp2 l2 in Ok (list2, tp2, big)
  else if f1 <? l1 then
    let! (list2, _, tp2) := copy_to list1 list2 f1 tp2 l1 in Ok (list2, tp2, big)
  else Ok (list2, tp2, big).

(** ** mergesort *)

(** One pass over the runs; [p1] is where the pointer to the end of the run
    that is made goes. *)
Fixpoint pass (fuel : nat) (list1 list2 : buffer) (last p1 l2 tp2 p2 : Z) (big : bool) :
    res (buffer * buffer * bool) :=
  match fuel with
  | O => Crash OutOfFuel
  | S fuel =>
      if p2 =? last then Ok (list1, list2, big)
      else
        let! p2 := head_get list2 p2 in
        let f1 := l2 in
        let f2 := p2 in
        let l1 := p2 in
        let! p2 := (if negb (p2 =? last) then head_get list2 p2 else Ok p2) in
        let l2 := p2 in
        let! (list2, tp2, big) := merge_runs list1 list2 f1 l1 f2 l2 tp2 big in
        let! list1 := head_put list1 p1 l2 in
        pass fuel list1 list2 last l2 l2 tp2 p2 big
  end.

(** The outer loop; [base2] tells whether [list2] is the caller's array. *)
Fixpoint passes (fuel : nat) (list1 list2 : buffer) (nmemb : Z) (base2 big : bool) : res (buffer * buffer * bool) :=
  match fuel with
  | O => Crash OutOfFuel
  | S fuel =>
      let! p := head_get list2 0 in
      if p =? nmemb then Ok (list1, list2, base2)
      else
        let! (list1, list2, big) := pass (S (Z.to_nat nmemb)) list1 list2 nmemb 0 0 0 0 big in
        passes fuel list2 list1 nmemb (negb base2) big
  end.

(** The bytes of the elements of [src] go to [dst]. *)
Definition memmove (dst src : buffer) : buffer := Buf (b_addr dst) (b_bytes dst) (cells src) ∅.

(** [base] is the address of the array [a], [malloc] the address of the memory
    that malloc returns, if it does.  What is returned, [errno] if it is set,
    and what the array holds. *)
Definition mergesort (base : Z) (a : list A) (malloc : option Z) : res (Z * option Z * list (option A)) :=
  let nmemb := Z.of_nat (length a) in
  if size <? PSIZE / 2 then Ok (-1, Some EINVAL, Some <$> a)
  else if nmemb =? 0 then Ok (0, None, Some <$> a)
  else
    match malloc with
    | None => Ok (-1, None, Some <$> a)
    | Some addr2 =>
        let list1 := Buf base (nmemb * size) (Some <$> a) ∅ in
        let list2 := Buf addr2 (u64 (nmemb * size + PSIZE)) (replicate (length a) None) ∅ in
        let! (list1, list2) := setup list1 list2 nmemb in
        let! (list1, list2, base2) := passes (S (length a)) list1 list2 nmemb false false in
        let array := if base2 then memmove list2 list1 else list1 in
        Ok (0, None, cells array)
    end.

(** [mergesort_b] of merge_b.c calls its comparison as a block. *)
Definition mergesort_b (base : Z) (a : list A) (malloc : option Z) := mergesort base a malloc.

End Merge.
End Merge.
