(* ===== verification/MergeRun.v ===== *)
(** * MergeRun: merging runs

    What reading and writing does to a buffer that holds elements and
    pointers, and the passes of mergesort over the runs. *)

From stdpp Require Export sorting.
From S2P Require Import Sort SortBase Merge Prelude.
Import Merge.

Section Buffers.
Context {A : Type} `{!Inhabited A} (size : Z) (Hsize : 4 <= size).
Implicit Types (l : buffer (A := A)) (xs ys : list A).

#[local] Abbreviation len xs := (Z.of_nat (length xs)).
#[local] Abbreviation EVAL := (Merge.EVAL size).
#[local] Abbreviation head_get := (Merge.head_get size).

(** ** Pointers *)

Lemma eval_range l k :
  k * size <= EVAL l k <= k * size + 7 /\ (b_addr l + EVAL l k) mod 8 = 0.
Proof.
  unfold Merge.EVAL. change (PSIZE - 1) with (Z.ones 3). rewrite <- Z.ldiff_land, Z.ldiff_ones_r, Z.shiftl_mul_pow2, Z.shiftr_div_pow2 by lia.
  change (2 ^ 3) with 8. unfold PSIZE. zbits.
Qed.

(** Runs of two elements have room for a pointer. *)
Lemma eval_apart l j k : j + 2 <= k -> EVAL l j + 8 <= EVAL l k.
Proof.
  intros Hjk. pose proof (eval_range l j). pose proof (eval_range l k).
  assert (j * size + 8 <= k * size) by nia. zbits.
Qed.

(** What does not change: address, size, number of elements. *)
Definition shape l : Z * Z * Z := (b_addr l, b_bytes l, len (cells l)).

Lemma eval_shape l l' k : shape l' = shape l -> EVAL l' k = EVAL l k.
Proof. intros [= Ha _ _]. unfold Merge.EVAL. by rewrite Ha. Qed.

Lemma head_get_at l l' k :
  b_addr l' = b_addr l ->
  head_get l' k = match heads l' !! EVAL l k with Some p => Ok p | None => Crash UninitRead end.
Proof. intros Ha. unfold Merge.head_get, Merge.EVAL. by rewrite Ha. Qed.

(** [xs] is in the buffer from [k] on. *)
Definition has l (k : Z) xs : Prop := forall j, 0 <= j < len xs -> elt_get l (k + j) = Ok (elt xs j).

(** [xs] has been written from [k] on; pointers behind it stay. *)
Definition wrote l l' (k : Z) xs : Prop :=
  shape l' = shape l /\
  (forall j, 0 <= j ->
     elt_get l' j = if decide (k <= j < k + len xs) then Ok (elt xs (j - k)) else elt_get l j) /\
  (forall j p, k + len xs <= j -> head_get l j = Ok p -> head_get l' j = Ok p).

Lemma elt_app_l xs ys j : 0 <= j < len xs -> elt (xs ++ ys) j = elt xs j.
Proof. intros Hj. unfold elt. rewrite !list_lookup_total_alt, lookup_app_l by lia. done. Qed.

Lemma elt_app_r xs ys j : 0 <= j -> elt (xs ++ ys) (len xs + j) = elt ys j.
Proof.
  intros Hj. unfold elt. rewrite !list_lookup_total_alt, lookup_app_r by lia. do 3 f_equal. lia.
Qed.

Lemma has_app l k xs ys : has l k (xs ++ ys) <-> has l k xs /\ has l (k + len xs) ys.
Proof.
  unfold has. rewrite length_app. split.
  - intros H. split; intros j Hj.
    + rewrite H by lia. by rewrite elt_app_l.
    + rewrite <- Z.add_assoc, H by lia. by rewrite elt_app_r by lia.
  - intros [H1 H2] j Hj. destruct (Z.lt_ge_cases j (len xs)).
    + rewrite H1 by lia. by rewrite elt_app_l by lia.
    + specialize (H2 (j - len xs) ltac:(lia)).
      replace (k + len xs + (j - len xs)) with (k + j) in H2 by lia. rewrite H2.
      by rewrite <- (elt_app_r xs ys (j - len xs)), Zplus_minus by lia.
Qed.

Lemma has_one l k x : has l k [x] <-> elt_get l k = Ok x.
Proof.
  unfold has. simpl. split.
  - intros H. specialize (H 0 ltac:(lia)). by rewrite Z.add_0_r in H.
  - intros H j Hj. assert (j = 0) as -> by lia. by rewrite Z.add_0_r.
Qed.

Lemma has_cons l k x xs : has l k (x :: xs) <-> elt_get l k = Ok x /\ has l (k + 1) xs.
Proof. change (x :: xs) with ([x] ++ xs). by rewrite has_app, has_one. Qed.

Lemma has_nil l k : has l k [].
Proof. intros j Hj. simpl in Hj. lia. Qed.

Lemma wrote_nil l k : wrote l l k [].
Proof. split_and!; [done| |done]. intros j Hj. rewrite decide_False; [done|]. simpl. lia. Qed.

Lemma wrote_app l l1 l2 k xs ys :
  wrote l l1 k xs -> wrote l1 l2 (k + len xs) ys -> wrote l l2 k (xs ++ ys).
Proof.
  intros (S1 & E1 & P1) (S2 & E2 & P2). split_and!; [congruence| |].
  - intros j Hj. rewrite E2, E1, length_app by done. repeat case_decide; try lia; try done.
    + rewrite <- (elt_app_r xs ys (j - (k + len xs))) by lia. do 2 f_equal. lia.
    + by rewrite elt_app_l by lia.
  - intros j p. rewrite length_app. intros Hj Hp. apply P2; [lia|]. apply P1; [lia|done].
Qed.

Lemma wrote_has l l' k xs : 0 <= k -> wrote l l' k xs -> has l' k xs.
Proof.
  intros Hk (_ & E & _) j Hj. rewrite E by lia. rewrite decide_True by lia. do 2 f_equal. lia.
Qed.

(** What lies outside stays. *)
Lemma wrote_other l l' k xs i ys :
  wrote l l' k xs -> 0 <= i -> has l i ys -> i + len ys <= k \/ k + len xs <= i -> has l' i ys.
Proof.
  intros (_ & E & _) Hi H Hd j Hj. rewrite E by lia. rewrite decide_False by lia. by apply H.
Qed.

Lemma wrote_shape l l' k xs : wrote l l' k xs -> shape l' = shape l.
Proof. by intros (? & _). Qed.

Lemma elt_put_ok l k x : 0 <= k < len (cells l) -> exists l', elt_put size l k x = Ok l' /\ wrote l l' k [x].
Proof.
  intros Hk. unfold elt_put. rewrite arr_set_ok by done. cbn [rbind]. eexists. split; [done|]. split_and!.
  - unfold shape. simpl. by rewrite length_insert.
  - intros j Hj. unfold elt_get, arr_get. simpl. rewrite bool_decide_true by done.
    destruct (decide (j = k)) as [->|Hne].
    + rewrite list_lookup_insert_eq by lia. simpl. rewrite decide_True by lia. by rewrite Z.sub_diag.
    + rewrite list_lookup_insert_ne by lia. rewrite decide_False by lia. done.
  - intros j p Hj Hp. rewrite (head_get_at l _ j) by done. unfold Merge.head_get in Hp. simpl in *.
    destruct (heads l !! EVAL l j) as [q|] eqn:Hq; [|done]. injection Hp as ->.
    rewrite map_lookup_filter_Some_2 with (x := p); [done|done|]. simpl. unfold overlap.
    pose proof (eval_range l j). assert ((k + 1) * size <= j * size) by (apply Z.mul_le_mono_nonneg_r; lia).
    rewrite (proj2 (Z.ltb_ge (EVAL l j) _)) by lia. by rewrite andb_false_r.
Qed.

(** A pointer is written. *)
Lemma head_put_ok l k p m :
  0 <= k -> k * size + 15 <= b_bytes l \/ EVAL l k + 8 <= b_bytes l -> k * size + 15 <= m * size ->
  exists l', head_put size l k p = Ok l' /\ shape l' = shape l /\ head_get l' k = Ok p /\
    (forall j q, j + 2 <= k \/ k + 2 <= j -> head_get l j = Ok q -> head_get l' j = Ok q) /\
    (forall j xs, m <= j -> has l j xs -> has l' j xs).
Proof.
  intros Hk Hb Hm. pose proof (eval_range l k) as [Hr _]. unfold head_put. unfold PSIZE.
  assert (0 <= EVAL l k) as Hpos by nia.
  rewrite (proj2 (Z.leb_le 0 _)), (proj2 (Z.leb_le _ (b_bytes l))) by lia. cbn [andb].
  eexists. split; [done|]. split_and!.
  - unfold shape. simpl. by rewrite length_imap.
  - rewrite (head_get_at l) by done. simpl. by rewrite lookup_insert_eq.
  - intros j q Hjk Hq. rewrite (head_get_at l _ j) by done. simpl. rewrite lookup_insert_ne; [done|].
    destruct Hjk as [Hjk|Hjk]; pose proof (eval_apart l _ _ Hjk); lia.
  - intros j xs Hj H i Hi. specialize (H i Hi). unfold elt_get, arr_get in *. simpl.
    destruct (bool_decide (0 <= j + i)) eqn:Hn; [|done]. apply bool_decide_eq_true in Hn.
    rewrite list_lookup_imap. destruct (cells l !! Z.to_nat (j + i)) as [c|]; [|done]. simpl.
    unfold overlap. rewrite Z2Nat.id by done.
    rewrite (proj2 (Z.ltb_ge ((j + i) * size) _)); [done|]. unfold PSIZE. nia.
Qed.

Lemma has_bound l k xs : 0 <= k -> has l k xs -> xs <> [] -> k + len xs <= len (cells l).
Proof.
  intros Hk H Hne. destruct xs as [|x0 xs0]; [done|]. set (xs := x0 :: xs0) in *.
  specialize (H (len xs - 1) ltac:(unfold xs; simpl; lia)). unfold elt_get in H.
  destruct (arr_get (cells l) (k + (len xs - 1))) as [c|] eqn:Hg; [|done].
  apply arr_get_inv in Hg as [? _]. lia.
Qed.

End Buffers.

(** ** The search for the end of the elements that go first *)

Section Search.
Context {A : Type} (cmp : A -> A -> Z) (l : buffer (A := A)) (q sense : Z) (x : A) (f : Z -> A) (lo hi : Z).
Context (Hq : elt_get l q = Ok x) (Hf : forall j, lo <= j < hi -> elt_get l j = Ok (f j)).

(** The element goes before [x]. *)
Definition before (j : Z) : Prop := sense < cmp x (f j).

Lemma compare_at j : lo <= j < hi -> compare cmp l q j = Ok (cmp x (f j)).
Proof. intros Hj. unfold compare. rewrite Hq. cbn [rbind]. rewrite Hf by done. done. Qed.

(** The search stops at [e], between an element before [x] and one that is
    not. *)
Definition stops (b e t : Z) : Prop :=
  b < e <= t /\ (before b -> before (e - 1)) /\ (e = t \/ ~ before e).

Lemma linear_ok fuel b t i :
  lo <= b < t -> t <= hi -> 0 <= i -> 6 <= i + Z.of_nat fuel -> i < 6 ->
  exists e on, linear cmp fuel l q t sense b i = Ok (e, on) /\
    if (on : bool) then b < e < t /\ before e else stops b e t.
Proof.
  revert b i. induction fuel as [|fuel IH]; intros b i Hb Ht Hi Hfuel Hi6; [lia|]. cbn [linear].
  destruct (Z.ltb_spec (b + 1) t) as [Hlt|Hge]; cbn [negb].
  - rewrite compare_at by lia. cbn [rbind].
    destruct (cmp x (f (b + 1)) >? sense) eqn:Hc; rewrite Z.gtb_ltb in Hc; cbn [negb].
    + apply Z.ltb_lt in Hc. destruct (Z.eqb_spec (i + 1) 6) as [H6|H6].
      * exists (b + 1), true. split; [done|]. split; [lia|done].
      * destruct (IH (b + 1) (i + 1)) as (e & on & -> & He); [lia..|].
        exists e, on. split; [done|]. destruct on; [split; [lia|tauto]|].
        destruct He as (? & Hp & ?). split_and!; [lia|lia|auto|done].
    + apply Z.ltb_ge in Hc. exists (b + 1), false. split; [done|].
      split_and!; [lia|lia| |right; unfold before; lia]. by rewrite Z.add_simpl_r.
  - exists (b + 1), false. split; [done|]. split_and!; [lia|lia| |left; lia]. by rewrite Z.add_simpl_r.
Qed.

Definition bracketed (b t : Z) (r : bracket) : Prop :=
  match r with
  | Bisect b' t' => b <= b' < t' /\ t' <= t /\ (before b -> before b') /\ (t' = t \/ ~ before t')
  | FastCase b' t' i _ => (b <= b' < t' /\ t' <= t /\ (before b -> before b') /\ (t' = t \/ ~ before t')) /\
      exists m : nat, i = 2 ^ Z.of_nat m /\ t' = b' + i
  end.

Lemma exponential_ok fuel b t m :
  lo <= b < t -> t <= hi -> t - b < Z.of_nat fuel ->
  exists r, exponential cmp fuel l q sense b t (2 ^ Z.of_nat m) = Ok r /\ bracketed b t r.
Proof.
  revert b m. induction fuel as [|fuel IH]; intros b m Hb Ht Hfuel; [lia|]. cbn [exponential].
  assert (0 < 2 ^ Z.of_nat m) as Hpos by (apply Z.pow_pos_nonneg; lia).
  rewrite Z.geb_leb. destruct (Z.leb_spec t (b + 2 ^ Z.of_nat m)) as [Hge|Hlt].
  - rewrite Z.gtb_ltb. destruct (Z.ltb_spec b (t - 1)) as [Hb1|Hb1].
    + rewrite compare_at by lia. cbn [rbind]. destruct (Z.leb_spec (cmp x (f (t - 1))) sense) as [Hc|Hc].
      * exists (Bisect b (t - 1)). split; [done|]. split_and!; [lia..|done|]. right. unfold before. lia.
      * exists (Bisect (t - 1) t). split; [done|]. split_and!; [lia..|done|by left].
    + exists (Bisect (t - 1) t). split; [done|]. replace b with (t - 1) by lia. split_and!; [lia..|done|by left].
  - rewrite compare_at by lia. cbn [rbind]. destruct (Z.leb_spec (cmp x (f (b + 2 ^ Z.of_nat m))) sense) as [Hc|Hc].
    + eexists. split; [done|]. split; [|by exists m]. split_and!; [lia..|done|]. right. unfold before. lia.
    + replace (2 ^ Z.of_nat m * 2) with (2 ^ Z.of_nat (S m)) by (rewrite Nat2Z.inj_succ, Z.pow_succ_r; lia).
      destruct (IH (b + 2 ^ Z.of_nat m) (S m)) as (r & -> & Hr); [lia..|]. exists r. split; [done|].
      assert (before (b + 2 ^ Z.of_nat m)) as Hbef by done.
      destruct r; simpl in *; [|destruct Hr as [Hr ?]; split; [|done]]; destruct Hr as (? & ? & Hr & ?);
        (split_and!; [lia|lia|lia|auto|done]).
Qed.

Lemma bisect_ok fuel b t :
  lo <= b < t -> t <= hi -> t - b < Z.of_nat fuel ->
  exists e, bisect cmp fuel l q sense b t = Ok e /\ stops b e t.
Proof.
  revert b t. induction fuel as [|fuel IH]; intros b t Hb Ht Hfuel; [lia|]. cbn [bisect].
  rewrite Z.gtb_ltb. destruct (Z.ltb_spec (b + 1) t) as [Hlt|Hge]; cbn [negb].
  - rewrite Z.shiftr_div_pow2 by lia. change (2 ^ 1) with 2.
    assert (1 <= (t - b) / 2 < t - b) as Hmid by zbits.
    rewrite compare_at by lia. cbn [rbind].
    destruct (Z.leb_spec (cmp x (f (b + (t - b) / 2))) sense) as [Hc|Hc].
    + destruct (IH b (b + (t - b) / 2)) as (e & -> & ? & Hp & He); [lia..|]. exists e. split; [done|].
      split_and!; [lia|lia|done|]. destruct He as [-> |]; [|by right]. right. unfold before. lia.
    + destruct (IH (b + (t - b) / 2) t) as (e & -> & ? & Hp & He); [lia..|]. exists e. split; [done|].
      split_and!; [lia|lia| |done]. intros _. by apply Hp.
  - exists t. split; [done|]. split_and!; [lia|lia| |by left]. by replace (t - 1) with b by lia.
Qed.

Lemma fastcase_ok fuel b m :
  lo <= b -> b + 2 ^ Z.of_nat m <= hi -> (m < fuel)%nat ->
  exists e, fastcase cmp fuel l q sense b (b + 2 ^ Z.of_nat m) (2 ^ Z.of_nat m) = Ok e /\ stops b e (b + 2 ^ Z.of_nat m).
Proof.
  revert b fuel. induction m as [|m IH]; intros b fuel Hb Ht Hfuel; (destruct fuel as [|fuel]; [lia|]); cbn [fastcase].
  - change (2 ^ Z.of_nat 0) with 1 in *. cbn [negb]. eexists. split; [done|].
    split_and!; [lia|lia| |by left]. by rewrite Z.add_simpl_r.
  - rewrite Nat2Z.inj_succ, Z.pow_succ_r in * by lia.
    assert (0 < 2 ^ Z.of_nat m) as Hpos by (apply Z.pow_pos_nonneg; lia).
    rewrite Z.gtb_ltb, (proj2 (Z.ltb_lt 1 _)), Z.shiftr_div_pow2 by lia. cbn [negb].
    replace (2 * 2 ^ Z.of_nat m / 2 ^ 1) with (2 ^ Z.of_nat m) by zbits.
    rewrite compare_at by lia. cbn [rbind].
    destruct (Z.leb_spec (cmp x (f (b + 2 ^ Z.of_nat m))) sense) as [Hc|Hc].
    + destruct (IH b fuel) as (e & -> & ? & Hp & He); [lia..|]. exists e. split; [done|].
      split_and!; [lia|lia|done|]. destruct He as [-> |]; [|by right]. right. unfold before. lia.
    + destruct (IH (b + 2 ^ Z.of_nat m) fuel) as (e & He & ? & Hp & Hs); [lia..|].
      replace (b + 2 ^ Z.of_nat m + 2 ^ Z.of_nat m) with (b + 2 * 2 ^ Z.of_nat m) in * by lia.
      exists e. split; [done|]. split_and!; [lia|lia| |done]. intros _. by apply Hp.
Qed.

Lemma gallop_ok b t :
  lo <= b < t -> t <= hi -> exists e big, gallop cmp l q sense b t = Ok (e, big) /\ stops b e t.
Proof.
  intros Hb Ht. unfold gallop.
  destruct (exponential_ok (S (Z.to_nat (t - b))) b t 0 Hb Ht ltac:(lia)) as (r & Hr & Hbr).
  change (2 ^ Z.of_nat 0) with 1 in Hr. rewrite Hr. cbn [rbind]. destruct r as [b' t'|b' t' i big].
  - destruct Hbr as (H1 & H2 & H3 & H4).
    destruct (bisect_ok (S (Z.to_nat (t - b))) b' t') as (e & -> & H5 & H6 & H7); [lia..|]. cbn [rbind].
    exists e, true. split; [done|]. split_and!; [lia|lia|auto|]. destruct H7 as [-> |]; auto.
  - destruct Hbr as ((H1 & H2 & H3 & H4) & m & -> & ->).
    assert (Z.of_nat m < 2 ^ Z.of_nat m) by (apply Z.pow_gt_lin_r; lia).
    destruct (fastcase_ok (S (Z.to_nat (t - b))) b' m) as (e & -> & H5 & H6 & H7); [lia..|]. cbn [rbind].
    exists e, big. split; [done|]. split_and!; [lia|lia|auto|]. destruct H7 as [-> |]; auto.
Qed.

Lemma find_end_ok b t big :
  lo <= b < t -> t <= hi -> exists e big', find_end cmp l q sense b t big = Ok (e, big') /\ stops b e t.
Proof.
  intros Hb Ht. unfold find_end. destruct big; cbn [negb]; [by apply gallop_ok|].
  destruct (linear_ok 6 b t 0) as (e & on & -> & He); [lia..|]. cbn [rbind]. destruct on; [|eauto].
  destruct He as [He Hbe]. destruct (gallop_ok e t) as (e' & big' & -> & H1 & H2 & H3); [lia..|].
  exists e', big'. split; [done|]. split_and!; [lia|lia|auto|done].
Qed.

End Search.

(** ** Merging two runs *)

Section Runs.
Context {A : Type} `{!Inhabited A} (cmp : A -> A -> Z) (size : Z) (Hsize : 4 <= size).
Implicit Types (l : buffer (A := A)) (xs ys zs us vs : list A).

#[local] Abbreviation len xs := (Z.of_nat (length xs)).
#[local] Abbreviation R := (fun x y => cmp x y <= 0).
#[local] Abbreviation has := MergeRun.has.
#[local] Abbreviation wrote := (MergeRun.wrote size).

#[local] Instance run_order_dec x y : Decision (R x y) := Z_le_dec (cmp x y) 0.

(** A search in the run [xs] splits it. *)
Lemma stops_split x sense b e xs :
  stops cmp sense x (fun j => elt xs (j - b)) b e (b + len xs) ->
  exists xs1 z xs2, xs = xs1 ++ z :: xs2 /\ e = b + len xs1 + 1 /\
    (sense < cmp x (elt xs 0) -> sense < cmp x z) /\
    (forall w ws, xs2 = w :: ws -> cmp x w <= sense).
Proof.
  intros (He & Hl & Hr). unfold before in *. rewrite Z.sub_diag in Hl.
  set (k := Z.to_nat (e - 1 - b)).
  assert (k < length xs)%nat as Hk by (unfold k; lia).
  destruct (lookup_lt_is_Some_2 xs k Hk) as [z Hz].
  exists (take k xs), z, (drop (S k) xs). split_and!.
  - by rewrite take_drop_middle.
  - rewrite length_take. lia.
  - intros Hb. specialize (Hl Hb). unfold elt in Hl. fold k in Hl. by rewrite (list_lookup_total_correct _ _ _ Hz) in Hl.
  - intros w ws Hw. destruct Hr as [Hr|Hr].
    + apply (f_equal length) in Hw. rewrite length_drop in Hw. simpl in Hw. lia.
    + assert (xs !! S k = Some w) as Hlw by (rewrite <- (Nat.add_0_r (S k)), <- lookup_drop, Hw; done).
      unfold elt in Hr. replace (Z.to_nat (e - b)) with (S k) in Hr by (unfold k; lia).
      rewrite (list_lookup_total_correct _ _ _ Hlw) in Hr. lia.
Qed.

Lemma list_merge_first xs1 xs2 y ys :
  Forall (fun x => R x y) xs1 -> (forall w ws, xs2 = w :: ws -> ~ R w y) ->
  list_merge R (xs1 ++ xs2) (y :: ys) = xs1 ++ y :: list_merge R xs2 ys.
Proof.
  intros H1 H2. induction H1 as [|x xs1 Hx _ IH]; cbn [app].
  - destruct xs2 as [|w ws]; [by rewrite !list_merge_nil_l|].
    rewrite list_merge_cons, decide_False by (by eapply H2). done.
  - rewrite list_merge_cons, decide_True by done. by rewrite IH.
Qed.

Lemma list_merge_second x xs ys1 ys2 :
  Forall (fun y => ~ R x y) ys1 -> (forall w ws, ys2 = w :: ws -> R x w) ->
  list_merge R (x :: xs) (ys1 ++ ys2) = ys1 ++ x :: list_merge R xs ys2.
Proof.
  intros H1 H2. induction H1 as [|y ys1 Hy _ IH]; cbn [app].
  - destruct ys2 as [|w ws]; [by rewrite !list_merge_nil_r|].
    rewrite list_merge_cons, decide_True by (by eapply H2). done.
  - rewrite list_merge_cons, decide_False by done. by rewrite IH.
Qed.

Lemma sorted_last xs1 z xs2 :
  StronglySorted R (xs1 ++ z :: xs2) -> Forall (fun w => R w z) xs1.
Proof.
  intros Hs. apply Forall_forall. intros w Hw.
  eapply (StronglySorted_app_1_elem_of R xs1 (z :: xs2)); [done..|by left].
Qed.

Lemma copy_to_ok list1 list2 src dst xs :
  has list1 src xs -> xs <> [] -> 0 <= dst -> dst + len xs <= len (cells list2) ->
  exists list2', copy_to size list1 list2 src dst (src + len xs) = Ok (list2', src + len xs, dst + len xs) /\
    wrote list2 list2' dst xs.
Proof.
  unfold copy_to. intros H Hne Hd Hb. assert (len xs < Z.of_nat (S (Z.to_nat (src + len xs - src)))) as Hfuel by lia.
  revert Hfuel. generalize (S (Z.to_nat (src + len xs - src))) as fuel. intros fuel.
  revert fuel list2 src dst H Hd Hb Hne. induction xs as [|x xs IH]; intros fuel list2 src dst H Hd Hb Hne Hfuel; [done|].
  destruct fuel as [|fuel]; [lia|]. cbn [copy_list].
  apply has_cons in H as [Hx Hxs]. rewrite Hx. cbn [rbind].
  destruct (elt_put_ok size Hsize list2 dst x) as (l2' & -> & Hw); [simpl in Hb; lia|]. cbn [rbind].
  pose proof (wrote_shape _ _ _ _ _ Hw) as [= _ _ Hlen].
  destruct xs as [|x2 xs].
  - rewrite (proj2 (Z.ltb_ge _ _)) by (simpl; lia). by exists l2'.
  - rewrite (proj2 (Z.ltb_lt _ _)) by (simpl; lia).
    destruct (IH fuel l2' (src + 1) (dst + 1) Hxs) as (l2'' & Hc & Hw2); [lia|simpl in *; lia|done|simpl in *; lia|].
    replace (src + 1 + len (x2 :: xs)) with (src + len (x :: x2 :: xs)) in Hc by (simpl; lia).
    replace (dst + 1 + len (x2 :: xs)) with (dst + len (x :: x2 :: xs)) in Hc by (simpl; lia).
    exists l2''. split; [done|]. change (x :: x2 :: xs) with ([x] ++ x2 :: xs). by eapply wrote_app.
Qed.

(** What the merge of two runs makes. *)
Definition merged xs ys zs : Prop :=
  zs ≡ₚ xs ++ ys /\
  (Comparator cmp -> StronglySorted R xs -> StronglySorted R ys -> zs = list_merge R xs ys).

(** A round of the loop takes the elements of one run that go before the
    first of the other. *)
Lemma merged_first xs1 z xs2 y ys zs :
  (-1 < cmp y (elt (xs1 ++ z :: xs2) 0) -> -1 < cmp y z) -> (forall w ws, xs2 = w :: ws -> cmp y w <= -1) ->
  cmp (elt (xs1 ++ z :: xs2) 0) y <= 0 ->
  merged xs2 ys zs -> merged (xs1 ++ z :: xs2) (y :: ys) ((xs1 ++ [z]) ++ [y] ++ zs).
Proof.
  intros Hz Hw H0 [Hp Hm]. split.
  - rewrite Hp. solve_Permutation.
  - intros Hc Hsx Hsy. rewrite (Hm Hc); [| |by apply StronglySorted_inv in Hsy as [? _]].
    2: { apply (StronglySorted_app_1_r R (xs1 ++ [z])). by rewrite <- app_assoc. }
    assert (R z y) as Hzy.
    { assert (-1 < cmp y (elt (xs1 ++ z :: xs2) 0)) as Hb by (pose proof (compar_antisym y (elt (xs1 ++ z :: xs2) 0)); lia).
      specialize (Hz Hb). pose proof (compar_antisym y z). lia. }
    rewrite (app_assoc xs1 [z] xs2 : xs1 ++ z :: xs2 = _).
    rewrite list_merge_first; [done| |].
    + apply Forall_app. split; [|by apply Forall_singleton].
      eapply Forall_impl; [by eapply sorted_last|]. intros w Hwz. by apply (compar_trans w z y).
    + intros w ws Hws. specialize (Hw w ws Hws). pose proof (compar_antisym y w). lia.
Qed.

Lemma merged_second x xs ys1 z ys2 zs :
  (0 < cmp x (elt (ys1 ++ z :: ys2) 0) -> 0 < cmp x z) -> (forall w ws, ys2 = w :: ws -> cmp x w <= 0) ->
  0 < cmp x (elt (ys1 ++ z :: ys2) 0) ->
  merged xs ys2 zs -> merged (x :: xs) (ys1 ++ z :: ys2) ((ys1 ++ [z]) ++ [x] ++ zs).
Proof.
  intros Hz Hw H0 [Hp Hm]. split.
  - rewrite Hp. solve_Permutation.
  - intros Hc Hsx Hsy. rewrite (Hm Hc); [|by apply StronglySorted_inv in Hsx as [? _]|].
    2: { apply (StronglySorted_app_1_r R (ys1 ++ [z])). by rewrite <- app_assoc. }
    specialize (Hz H0).
    rewrite (app_assoc ys1 [z] ys2 : ys1 ++ z :: ys2 = _).
    rewrite list_merge_second; [done| |done].
    apply Forall_app. split; [|apply Forall_singleton; lia].
    eapply Forall_impl; [by eapply sorted_last|]. intros w Hwz Hxw. simpl in *.
    pose proof (compar_trans x w z Hxw Hwz). lia.
Qed.

(** The copies of one round: elements of one run, then one of the other. *)
Lemma round_copies list1 list2 f g us v tp2 :
  has list1 f us -> us <> [] -> elt_get list1 g = Ok v -> 0 <= tp2 -> tp2 + len us + 1 <= len (cells list2) ->
  exists la lb, copy_to size list1 list2 f tp2 (f + len us) = Ok (la, f + len us, tp2 + len us) /\
    copy_to size list1 la g (tp2 + len us) (g + 1) = Ok (lb, g + 1, tp2 + len us + 1) /\
    wrote list2 lb tp2 (us ++ [v]) /\ len (cells lb) = len (cells list2).
Proof.
  intros Hus Hne Hv Ht Hb.
  destruct (copy_to_ok list1 list2 f tp2 us Hus Hne Ht ltac:(lia)) as (la & Ha & Hwa).
  pose proof (wrote_shape _ _ _ _ _ Hwa) as [= _ _ Hla].
  destruct (copy_to_ok list1 la g (tp2 + len us) [v]) as (lb & Hb' & Hwb); [by apply has_one|done|lia|simpl; lia|].
  pose proof (wrote_shape _ _ _ _ _ Hwb) as [= _ _ Hlb].
  exists la, lb. split_and!; [done|done|by eapply wrote_app|lia].
Qed.

(** One round of the loop: the search, and the copies. *)
Lemma round_ok list1 list2 f g v sense xs tp2 big :
  has list1 f xs -> xs <> [] -> elt_get list1 g = Ok v -> 0 <= tp2 -> tp2 + len xs + 1 <= len (cells list2) ->
  exists us z vs big' la lb, xs = us ++ z :: vs /\
    find_end cmp list1 g sense f (f + len xs) big = Ok (f + len us + 1, big') /\
    copy_to size list1 list2 f tp2 (f + len us + 1) = Ok (la, f + len us + 1, tp2 + len us + 1) /\
    copy_to size list1 la g (tp2 + len us + 1) (g + 1) = Ok (lb, g + 1, tp2 + len us + 1 + 1) /\
    wrote list2 lb tp2 ((us ++ [z]) ++ [v]) /\ len (cells lb) = len (cells list2) /\
    has list1 (f + len us + 1) vs /\
    (sense < cmp v (elt xs 0) -> sense < cmp v z) /\ (forall w ws, vs = w :: ws -> cmp v w <= sense).
Proof.
  intros Hx Hne Hv Ht Hb.
  destruct (find_end_ok cmp list1 g sense v (fun j => elt xs (j - f)) f (f + len xs) Hv)
    with (b := f) (t := f + len xs) (big := big) as (e & big1 & He & Hst);
    [|destruct xs; simpl; [done|lia]|lia|].
  { intros j Hj. rewrite <- (Hx (j - f)) by lia. f_equal. lia. }
  apply stops_split in Hst as (us & z & vs & Hsplit & -> & Hz & Hw).
  assert (len (us ++ [z]) = len us + 1) as Hlu by (rewrite length_app; simpl; lia).
  assert (len xs = len us + 1 + len vs) as Hlen by (rewrite Hsplit, length_app; simpl; lia).
  pose proof Hx as Hx'. rewrite Hsplit, (app_assoc us [z] vs : us ++ z :: vs = _) in Hx'.
  apply has_app in Hx' as [Hu Hvs].
  destruct (round_copies list1 list2 f g (us ++ [z]) v tp2) as (la & lb & Ha & Hb' & Hwr & Hlb);
    [done|by destruct us|done|done|lia|].
  rewrite Hlu in Ha, Hb', Hvs. rewrite !Z.add_assoc in Ha. rewrite !Z.add_assoc in Hb'. rewrite Z.add_assoc in Hvs.
  exists us, z, vs, big1, la, lb. split_and!; done.
Qed.

(** What a round has written, before what the rest writes. *)
Lemma wrote_round list2 lb l2' tp2 us z v out :
  wrote list2 lb tp2 ((us ++ [z]) ++ [v]) -> wrote lb l2' (tp2 + len us + 1 + 1) out ->
  wrote list2 l2' tp2 ((us ++ [z]) ++ [v] ++ out).
Proof.
  intros Hwr Hw'. rewrite app_assoc. eapply wrote_app; [exact Hwr|]. rewrite !length_app. simpl.
  by replace (tp2 + Z.of_nat (length us + 1 + 1)) with (tp2 + len us + 1 + 1) by lia.
Qed.

Lemma merge_loop_ok fuel list1 list2 f1 f2 xs ys tp2 big :
  has list1 f1 xs -> has list1 f2 ys -> 0 <= tp2 -> tp2 + len xs + len ys <= len (cells list2) ->
  len xs + len ys < Z.of_nat fuel ->
  exists list2' f1' f2' xs' ys' out big',
    merge_loop cmp size fuel list1 list2 f1 (f1 + len xs) f2 (f2 + len ys) tp2 big
      = Ok (list2', f1', f2', tp2 + len out, big') /\
    f1' + len xs' = f1 + len xs /\ f2' + len ys' = f2 + len ys /\ (xs' = [] \/ ys' = []) /\
    len out + len xs' + len ys' = len xs + len ys /\
    has list1 f1' xs' /\ has list1 f2' ys' /\ wrote list2 list2' tp2 out /\
    forall zs, merged xs' ys' zs -> merged xs ys (out ++ zs).
Proof.
  revert list2 f1 f2 xs ys tp2 big. induction fuel as [|fuel IH]; intros list2 f1 f2 xs ys tp2 big Hx Hy Ht Hb Hfuel; [lia|].
  cbn [merge_loop]. destruct xs as [|x xs].
  { rewrite (proj2 (Z.ltb_ge f1 _)) by (simpl; lia). cbn [andb negb].
    exists list2, f1, f2, [], ys, [], big. rewrite Z.add_0_r. split_and!; auto using wrote_nil. }
  destruct ys as [|y ys].
  { rewrite (proj2 (Z.ltb_ge f2 _)), andb_false_r by (simpl; lia). cbn [negb].
    exists list2, f1, f2, (x :: xs), [], [], big. rewrite Z.add_0_r. split_and!; auto using wrote_nil. }
  rewrite (proj2 (Z.ltb_lt f1 _)), (proj2 (Z.ltb_lt f2 _)) by (simpl; lia). cbn [andb negb].
  apply has_cons in Hx as Hx'. destruct Hx' as [Hx0 Hx1]. apply has_cons in Hy as Hy'. destruct Hy' as [Hy0 Hy1].
  unfold compare at 1. rewrite Hx0. cbn [rbind]. rewrite Hy0. cbn [rbind].
  destruct (Z.leb_spec (cmp x y) 0) as [Hc|Hc].
  - destruct (round_ok list1 list2 f1 f2 y (-1) (x :: xs) tp2 big Hx)
      as (us & z & vs & big1 & la & lb & Hsplit & -> & Ha & Hb' & Hwr & Hlb & Hv & Hz & Hw); [done..|simpl in *; lia|].
    cbn [rbind]. rewrite Ha. cbn [rbind]. rewrite Hb'. cbn [rbind].
    assert (len (x :: xs) = len us + 1 + len vs) as Hlen by (rewrite Hsplit, length_app; simpl; lia).
    assert (len (y :: ys) = 1 + len ys) as Hly by (simpl; lia).
    destruct (IH lb (f1 + len us + 1) (f2 + 1) vs ys (tp2 + len us + 1 + 1) big1 Hv Hy1)
      as (l2' & f1' & f2' & xs' & ys' & out & big' & Hm & E1 & E2 & Hnil & Elen & Hx' & Hy' & Hw' & Hmer); [lia..|].
    exists l2', f1', f2', xs', ys', ((us ++ [z]) ++ [y] ++ out), big'. rewrite Hlen, Hly.
    split_and!; try done; try lia; [|rewrite !length_app; simpl; lia|by eapply wrote_round|].
    + replace (f1 + (len us + 1 + len vs)) with (f1 + len us + 1 + len vs) by lia.
      replace (f2 + (1 + len ys)) with (f2 + 1 + len ys) by lia. rewrite Hm. do 3 f_equal.
      rewrite !length_app. simpl. lia.
    + intros zs Hzs. rewrite <- !app_assoc, app_assoc, Hsplit in *. apply merged_first; auto. by rewrite <- Hsplit.
  - destruct (round_ok list1 list2 f2 f1 x 0 (y :: ys) tp2 big Hy)
      as (us & z & vs & big1 & la & lb & Hsplit & -> & Ha & Hb' & Hwr & Hlb & Hv & Hz & Hw); [done..|simpl in *; lia|].
    cbn [rbind]. rewrite Ha. cbn [rbind]. rewrite Hb'. cbn [rbind].
    assert (len (y :: ys) = len us + 1 + len vs) as Hlen by (rewrite Hsplit, length_app; simpl; lia).
    assert (len (x :: xs) = 1 + len xs) as Hlx by (simpl; lia).
    destruct (IH lb (f1 + 1) (f2 + len us + 1) xs vs (tp2 + len us + 1 + 1) big1 Hx1 Hv)
      as (l2' & f1' & f2' & xs' & ys' & out & big' & Hm & E1 & E2 & Hnil & Elen & Hx' & Hy' & Hw' & Hmer); [lia..|].
    exists l2', f1', f2', xs', ys', ((us ++ [z]) ++ [x] ++ out), big'. rewrite Hlen, Hlx.
    split_and!; try done; try lia; [|rewrite !length_app; simpl; lia|by eapply wrote_round|].
    + replace (f2 + (len us + 1 + len vs)) with (f2 + len us + 1 + len vs) by lia.
      replace (f1 + (1 + len xs)) with (f1 + 1 + len xs) by lia. rewrite Hm. do 3 f_equal.
      rewrite !length_app. simpl. lia.
    + intros zs Hzs. rewrite <- !app_assoc, app_assoc, Hsplit in *. apply merged_second; auto; by rewrite <- Hsplit.
Qed.

Lemma merge_runs_ok list1 list2 f1 f2 xs ys tp2 big :
  has list1 f1 xs -> has list1 f2 ys -> f2 = f1 + len xs -> 0 <= tp2 -> tp2 + len xs + len ys <= len (cells list2) ->
  exists list2' zs big',
    merge_runs cmp size list1 list2 f1 f2 f2 (f2 + len ys) tp2 big = Ok (list2', tp2 + len zs, big') /\
    wrote list2 list2' tp2 zs /\ merged xs ys zs.
Proof.
  intros Hx Hy -> Ht Hb. unfold merge_runs.
  destruct (merge_loop_ok (S (Z.to_nat (f1 + len xs + len ys - f1))) list1 list2 f1 (f1 + len xs) xs ys tp2 big)
    as (l2' & f1' & f2' & xs' & ys' & out & big' & -> & E1 & E2 & Hnil & Elen & Hx' & Hy' & Hw & Hm); [done..|lia|].
  cbn [rbind]. pose proof (wrote_shape _ _ _ _ _ Hw) as [= _ _ Hl].
  assert (forall zs l2'', xs' = [] /\ zs = ys' \/ ys' = [] /\ zs = xs' -> wrote l2' l2'' (tp2 + len out) zs ->
    wrote list2 l2'' tp2 (out ++ zs) /\ merged xs ys (out ++ zs)) as Hdone.
  { intros zs l2'' Hz Hw2. split; [by eapply wrote_app|]. apply Hm. destruct Hz as [[-> ->]|[-> ->]];
      (split; [by rewrite ?app_nil_r|intros _ _ _; by rewrite ?list_merge_nil_l, ?list_merge_nil_r]). }
  destruct ys' as [|y ys'].
  - rewrite (proj2 (Z.ltb_ge f2' _)) by (simpl in *; lia). destruct xs' as [|x xs'].
    + rewrite (proj2 (Z.ltb_ge f1' _)) by (simpl in *; lia). exists l2', out, big'. split; [done|].
      rewrite <- (app_nil_r out). apply Hdone; [by left|apply wrote_nil].
    + rewrite (proj2 (Z.ltb_lt f1' _)) by (simpl in *; lia). rewrite <- E1.
      destruct (copy_to_ok list1 l2' f1' (tp2 + len out) (x :: xs')) as (l2'' & -> & Hw2); [done|done|lia|simpl in *; lia|].
      cbn [rbind]. exists l2'', (out ++ x :: xs'), big'. rewrite length_app, Nat2Z.inj_add, Z.add_assoc. split; [done|].
      apply Hdone; [by right|done].
  - rewrite (proj2 (Z.ltb_lt f2' _)) by (simpl in *; lia). rewrite <- E2.
    destruct (copy_to_ok list1 l2' f2' (tp2 + len out) (y :: ys')) as (l2'' & -> & Hw2); [done|done|lia|simpl in *; lia|].
    cbn [rbind]. exists l2'', (out ++ y :: ys'), big'. rewrite length_app, Nat2Z.inj_add, Z.add_assoc. split; [done|].
    destruct Hnil as [-> |?]; [|done]. apply Hdone; [by left|done].
Qed.

(** ** Passes *)

(** The pointers lead from run to run. *)
Fixpoint linked l (k : Z) (rs : list (list A)) : Prop :=
  match rs with
  | [] => True
  | r :: rs => head_get size l k = Ok (k + len r) /\ linked l (k + len r) rs
  end.

(** Every run has room for a pointer, and the last one in any place. *)
Fixpoint runs_ok (rs : list (list A)) : Prop :=
  match rs with
  | [] => True
  | [r] => 4 <= len r
  | r :: rs => 2 <= len r /\ runs_ok rs
  end.

(** A pass merges runs in pairs. *)
Inductive paired : list (list A) -> list (list A) -> Prop :=
  | paired_nil : paired [] []
  | paired_one r r' : merged r [] r' -> paired [r] [r']
  | paired_two r1 r2 r rs rs' : merged r1 r2 r -> paired rs rs' -> paired (r1 :: r2 :: rs) (r :: rs').

Lemma runs_ok_tail r rs : runs_ok (r :: rs) -> 2 <= len r /\ runs_ok rs.
Proof. destruct rs; simpl; [lia|done]. Qed.

Lemma linked_app l k rs rs' :
  linked l k (rs ++ rs') <-> linked l k rs /\ linked l (k + len (concat rs)) rs'.
Proof.
  revert k. induction rs as [|r rs IH]; intros k; simpl; [rewrite Z.add_0_r; tauto|].
  rewrite IH, length_app, Nat2Z.inj_add, Z.add_assoc. tauto.
Qed.

Lemma runs_ok_len rs : runs_ok rs -> Forall (fun r => 2 <= len r) rs.
Proof. induction rs as [|r rs IH]; [constructor|]. intros [Hr Hok]%runs_ok_tail. constructor; auto. Qed.

(** Changes that keep the pointers of the runs. *)
Lemma linked_same l l' k rs :
  Forall (fun r => 2 <= len r) rs -> (forall j p, k <= j -> j + 2 <= k + len (concat rs) -> head_get size l j = Ok p -> head_get size l' j = Ok p) ->
  linked l k rs -> linked l' k rs.
Proof.
  revert k. induction rs as [|r rs IH]; intros k Hok Hsame; [done|]. apply Forall_cons in Hok as [Hr Hok]. simpl.
  simpl in Hsame. rewrite length_app in Hsame.
  intros [Hh Hl]. split; [apply Hsame; [lia|lia|done]|].
  apply IH; [done| |done]. intros j p Hj Hj2. apply Hsame; lia.
Qed.

Lemma paired_length r rs rs' : paired (r :: rs) rs' -> rs' <> [] /\ (length rs' <= length (r :: rs))%nat /\
  (rs <> [] -> (length rs' < length (r :: rs))%nat).
Proof.
  assert (forall rs rs', paired rs rs' -> (length rs' <= length rs)%nat) as Hle
    by (induction 1; simpl; lia).
  inversion 1 as [|? ? Hm|? ? ? ? ? Hm Hp]; subst; simpl; [split_and!; [done|lia|done]|].
  apply Hle in Hp. split_and!; [done|lia|lia].
Qed.

Lemma merged_len xs ys zs : merged xs ys zs -> len zs = len xs + len ys.
Proof. intros [Hp _]. rewrite Hp, length_app. lia. Qed.

Lemma paired_runs_ok rs rs' : paired rs rs' -> runs_ok rs -> runs_ok rs'.
Proof.
  induction 1 as [|r r' Hm|r1 r2 r rs rs' Hm Hp IH]; [done|apply merged_len in Hm; simpl in *; lia|].
  intros [H1 Hok]%runs_ok_tail. apply merged_len in Hm. assert (4 <= len r).
  { apply runs_ok_tail in Hok as [H2 _]. lia. }
  apply runs_ok_tail in Hok as [_ Hok]. specialize (IH Hok). destruct rs'; simpl; [done|]. split; [lia|done].
Qed.

Lemma pass_ok fuel rs list1 list2 k last big :
  runs_ok rs -> 0 <= k -> k + len (concat rs) = last -> (length rs < fuel)%nat ->
  has list1 k (concat rs) -> linked list2 k rs ->
  last * size <= b_bytes list1 -> last <= len (cells list2) ->
  exists list1' list2' rs' big',
    pass cmp size fuel list1 list2 last k k k k big = Ok (list1', list2', big') /\
    paired rs rs' /\ shape list1' = shape list1 /\ shape list2' = shape list2 /\
    has list2' k (concat rs') /\ linked list1' k rs' /\
    (forall j xs, 0 <= j -> j + len xs <= k -> has list2 j xs -> has list2' j xs) /\
    (forall j p, j + 2 <= k -> head_get size list1 j = Ok p -> head_get size list1' j = Ok p).
Proof.
  revert rs list1 list2 k big. induction fuel as [|fuel IH]; intros rs list1 list2 k big Hok Hk Hlast Hfuel Hd Hl Hb Hc; [lia|].
  cbn [pass]. destruct rs as [|r1 rs].
  { simpl in Hlast. rewrite (proj2 (Z.eqb_eq k last)) by lia. exists list1, list2, [], big.
    split_and!; try done; [apply paired_nil|apply has_nil]. }
  apply runs_ok_tail in Hok as Hok'. destruct Hok' as [Hr1 Hok'].
  simpl in Hlast. rewrite length_app in Hlast. destruct Hl as [Hh1 Hl].
  rewrite (proj2 (Z.eqb_neq k last)), Hh1 by lia. cbn [rbind].
  assert (exists r2 rs2, (rs = r2 :: rs2 \/ rs = [] /\ r2 = [] /\ rs2 = []) /\ concat rs = r2 ++ concat rs2 /\
    (if negb (k + len r1 =? last) then head_get size list2 (k + len r1) else Ok (k + len r1)) = Ok (k + len r1 + len r2) /\
    linked list2 (k + len r1 + len r2) rs2 /\ runs_ok rs2 /\ 4 <= len r1 + len r2)
    as (r2 & rs2 & Hcase & Hcat & -> & Hl2 & Hok2 & H4).
  { destruct rs as [|r2 rs2].
    - exists [], []. simpl in *. rewrite (proj2 (Z.eqb_eq _ last)) by lia. rewrite !Z.add_0_r. split_and!; try done; auto.
    - apply runs_ok_tail in Hok' as [Hr2 Hok2]. simpl in Hlast. rewrite length_app in Hlast.
      rewrite (proj2 (Z.eqb_neq _ last)) by lia. destruct Hl as [Hh2 Hl2].
      exists r2, rs2. split_and!; auto. lia. }
  cbn [rbind]. simpl in Hd. rewrite Hcat in *. rewrite length_app in Hlast.
  apply has_app in Hd as [Hd1 Hd2]. apply has_app in Hd2 as [Hd2 Hd3].
  destruct (merge_runs_ok list1 list2 k (k + len r1) r1 r2 k big Hd1 Hd2 eq_refl Hk)
    as (l2a & zs & big1 & -> & Hw & Hm); [lia|]. cbn [rbind].
  pose proof (merged_len _ _ _ Hm) as Hlz. set (k' := k + len r1 + len r2) in *.
  pose proof (wrote_shape _ _ _ _ _ Hw) as Hsa.
  destruct (head_put_ok size Hsize list1 k k' k') as (l1a & -> & Hs1 & Hh & Hkeep & Hdata); [lia|left; nia|nia|].
  cbn [rbind]. replace (k + len zs) with k' by lia.
  destruct (IH rs2 l1a l2a k' big1) as (l1' & l2' & rs' & big' & Hpass & Hp & Hs1' & Hs2' & Hd' & Hlk & Hpre & Hpreh);
    [done|lia|lia|destruct Hcase as [-> |(-> & _ & ->)]; simpl in *; lia|by apply Hdata; [lia|]| | | |].
  - eapply linked_same; [by apply runs_ok_len| |exact Hl2]. intros j p Hj _. apply Hw. lia.
  - injection Hs1 as _ -> _. done.
  - injection Hsa as _ _ ->. done.
  - exists l1', l2', (zs :: rs'), big'. split_and!; try congruence.
    + destruct Hcase as [-> |(-> & -> & ->)]; [by apply paired_two|].
      inversion Hp; subst. by apply paired_one.
    + simpl. apply has_app. replace (k + len zs) with k' by lia. split; [|done].
      apply Hpre; [lia|lia|]. by eapply wrote_has.
    + simpl. replace (k + len zs) with k' by lia. split; [|done]. apply Hpreh; [lia|done].
    + intros j xs Hj Hjx Hxs. apply Hpre; [lia|lia|]. eapply wrote_other; eauto.
    + intros j p Hj Hjp. apply Hpreh; [lia|]. apply Hkeep; auto.
Qed.

End Runs.
