(* ===== verification/MergeThms.v ===== *)
(** * MergeThms: mergesort is a stable sort

    The first pass, which finds runs in the array, the passes that merge
    them, and what mergesort returns. *)

From S2P Require Import Sort SortBase Merge MergeRun Prelude.
Import Merge.

Lemma Sorted_weaken {A} (P Q : A -> A -> Prop) xs : (forall x y, P x y -> Q x y) -> Sorted P xs -> Sorted Q xs.
Proof.
  intros HPQ. induction 1 as [|x xs Hs IH Hx]; constructor; [done|]. destruct Hx; constructor. by apply HPQ.
Qed.

(** ** Stability *)

Section Stable.
Context {A : Type} (cmp : A -> A -> Z).
Implicit Types xs ys zs : list A.

#[local] Abbreviation R := (fun x y => cmp x y <= 0).
#[local] Instance stable_order_dec x y : Decision (R x y) := Z_le_dec (cmp x y) 0.

(** Elements that compare equal keep their order. *)
Definition stable xs ys : Prop :=
  forall z, filter (fun x => cmp z x = 0) xs = filter (fun x => cmp z x = 0) ys.

Lemma stable_refl xs : stable xs xs.
Proof. done. Qed.

Lemma stable_trans xs ys zs : stable xs ys -> stable ys zs -> stable xs zs.
Proof. intros H1 H2 z. by rewrite H1. Qed.

Lemma stable_app xs xs' ys ys' : stable xs xs' -> stable ys ys' -> stable (xs ++ ys) (xs' ++ ys').
Proof. intros H1 H2 z. by rewrite !filter_app, H1, H2. Qed.

Context {Hc : Comparator cmp}.

Lemma cmp_same x y z : cmp z x = 0 -> cmp z y = 0 -> cmp x y = 0.
Proof.
  intros Hx Hy. pose proof (compar_antisym z x). pose proof (compar_antisym x z).
  pose proof (compar_antisym z y). pose proof (compar_antisym y z).
  assert (cmp x y <= 0) by (apply (compar_trans x z y); lia). assert (cmp y x <= 0) by (apply (compar_trans y z x); lia).
  pose proof (compar_antisym x y). pose proof (compar_antisym y x). lia.
Qed.

Lemma class_none z xs : Forall (fun x => cmp z x <> 0) xs -> filter (fun x => cmp z x = 0) xs = [].
Proof. induction 1 as [|x xs Hx _ IH]; [done|]. by rewrite filter_cons_False by done. Qed.

(** An element moves past others that are different. *)
Lemma stable_past x xs : Forall (fun y => cmp y x <> 0) xs -> stable (xs ++ [x]) (x :: xs).
Proof.
  intros Hx z. rewrite filter_app. destruct (decide (cmp z x = 0)) as [Hz|Hz].
  - assert (Forall (fun y => cmp z y <> 0) xs) as Hz'.
    { eapply Forall_impl; [exact Hx|]. intros y Hy Hzy. apply Hy. by eapply cmp_same. }
    by rewrite !filter_cons_True, (class_none z xs Hz') by done.
  - by rewrite !filter_cons_False, filter_nil, app_nil_r by done.
Qed.

(** A run in which every element is less than the one before it. *)
Lemma stable_rev xs : StronglySorted (fun x y => 0 < cmp x y) xs -> stable xs (rev xs).
Proof.
  induction 1 as [|x xs Hs IH Hx]; [done|]. simpl. eapply stable_trans.
  - change (x :: xs) with ([x] ++ xs). apply stable_app; [apply stable_refl|exact IH].
  - intros z. symmetry. apply (stable_past x (rev xs)). apply Forall_rev.
    eapply Forall_impl; [exact Hx|]. intros y Hy. pose proof (compar_antisym y x). simpl in *. lia.
Qed.

Lemma stable_insert x xs1 xs2 :
  Forall (fun y => 0 < cmp y x) xs2 -> stable ((xs1 ++ xs2) ++ [x]) (xs1 ++ x :: xs2).
Proof.
  intros H2. rewrite <- app_assoc. apply stable_app; [apply stable_refl|]. apply stable_past.
  eapply Forall_impl; [exact H2|]. simpl. lia.
Qed.

#[local] Instance run_trans : Transitive R.
Proof. intros x y z. apply compar_trans. Qed.

#[local] Instance run_total : Total R.
Proof. intros x y. apply compar_total. done. Qed.

Lemma stable_merge xs ys : StronglySorted R xs -> stable (xs ++ ys) (list_merge R xs ys).
Proof.
  revert ys. induction xs as [|x xs IH]; intros ys Hs; [by rewrite list_merge_nil_l|].
  apply StronglySorted_inv in Hs as Hs'. destruct Hs' as [Hs' Hx].
  induction ys as [|y ys IHy]; [by rewrite list_merge_nil_r, app_nil_r|].
  rewrite list_merge_cons. destruct (decide (R x y)) as [Hxy|Hxy].
  - change (x :: xs) with ([x] ++ xs). rewrite <- app_assoc.
    apply (stable_app [x] [x]); [apply stable_refl|]. by apply IH.
  - apply (stable_trans _ ((y :: (x :: xs)) ++ ys)).
    + change (y :: ys) with ([y] ++ ys). rewrite app_assoc. apply stable_app; [|apply stable_refl].
      apply stable_past. constructor; [lia|]. eapply Forall_impl; [exact Hx|]. intros w Hw Hwy.
      simpl in *. apply Hxy. apply (compar_trans x w y); lia.
    + change (y :: x :: xs) with ([y] ++ (x :: xs)). rewrite <- app_assoc.
      apply (stable_app [y] [y]); [apply stable_refl|exact IHy].
Qed.

Lemma merged_good xs ys zs :
  merged cmp xs ys zs -> StronglySorted R xs -> StronglySorted R ys ->
  StronglySorted R zs /\ stable (xs ++ ys) zs.
Proof.
  intros [_ Hm] Hx Hy. rewrite (Hm Hc Hx Hy). split; [|by apply stable_merge].
  apply Sorted_StronglySorted; [apply run_trans|].
  apply Sorted_list_merge; [apply run_total|by apply StronglySorted_Sorted..].
Qed.

Lemma paired_good rs rs' :
  paired cmp rs rs' -> Forall (StronglySorted R) rs -> Forall (StronglySorted R) rs' /\ stable (concat rs) (concat rs').
Proof.
  induction 1 as [|r r' Hm|r1 r2 r rs rs' Hm Hp IH]; simpl.
  - intros _. split; [constructor|apply stable_refl].
  - intros [Hr _]%Forall_cons. destruct (merged_good _ _ _ Hm Hr ltac:(constructor)) as [Hs Hst].
    rewrite app_nil_r in Hst. rewrite !app_nil_r. split; [by apply Forall_singleton|done].
  - rewrite !Forall_cons. intros (H1 & H2 & Hrs). destruct (merged_good _ _ _ Hm H1 H2) as [Hs Hst].
    destruct (IH Hrs) as [Hss Hst']. split; [done|]. rewrite app_assoc. by apply stable_app.
Qed.
End Stable.

Lemma paired_perm {A} (cmp : A -> A -> Z) rs rs' : paired cmp rs rs' -> concat rs' ≡ₚ concat rs.
Proof.
  induction 1 as [|r r' [Hm _]|r1 r2 r rs rs' [Hm _] Hp IH]; simpl; [done|by rewrite Hm, !app_nil_r|].
  by rewrite Hm, IH, app_assoc.
Qed.

(** What is known of the runs of the array [a]. *)
Definition runs_of {A} (cmp : A -> A -> Z) (a : list A) (rs : list (list A)) : Prop :=
  concat rs ≡ₚ a /\
  (Comparator cmp -> Forall (StronglySorted (fun x y => cmp x y <= 0)) rs /\ stable cmp a (concat rs)).

(** ** The passes *)

Section Passes.
Context {A : Type} `{!Inhabited A} (cmp : A -> A -> Z) (size : Z) (Hsize : 4 <= size).
Implicit Types (l : buffer (A := A)) (a xs ys zs r : list A) (rs : list (list A)).

#[local] Abbreviation len xs := (Z.of_nat (length xs)).

Lemma paired_runs_of a rs rs' : paired cmp rs rs' -> runs_of cmp a rs -> runs_of cmp a rs'.
Proof.
  intros Hp [Hperm Hc]. split; [by rewrite (paired_perm _ _ _ Hp)|].
  intros Hcmp. destruct (Hc Hcmp) as [Hs Hst]. destruct (paired_good cmp rs rs' Hp Hs) as [Hs' Hst'].
  split; [done|]. by eapply stable_trans.
Qed.

(** Room for the elements and for pointers. *)
Definition room (n : Z) l : Prop := n * size <= b_bytes l /\ n = len (cells l).

Lemma room_shape n l l' : shape l' = shape l -> room n l -> room n l'.
Proof. unfold room. by intros [= _ -> ->]. Qed.

Lemma runs_ok_count rs : runs_ok rs -> len rs <= len (concat rs).
Proof.
  induction rs as [|x rs IH]; [done|]. intros [Hx Hok]%runs_ok_tail. specialize (IH Hok). simpl.
  rewrite length_app. lia.
Qed.

Lemma passes_ok fuel a rs list1 list2 n base2 big :
  runs_of cmp a rs -> rs <> [] -> runs_ok rs \/ length rs = 1%nat -> len (concat rs) = n -> (length rs <= fuel)%nat ->
  has list1 0 (concat rs) -> linked size list2 0 rs -> room n list1 -> room n list2 ->
  exists list1' list2' base2' r, passes cmp size fuel list1 list2 n base2 big = Ok (list1', list2', base2') /\
    runs_of cmp a [r] /\ has list1' 0 r /\ room n list1'.
Proof.
  revert rs list1 list2 base2 big. induction fuel as [|fuel IH];
    intros rs list1 list2 base2 big Ha Hne Hok Hn Hfuel Hd Hl H1 H2; (destruct rs as [|r rs]; [done|]); [simpl in *; lia|].
  cbn [passes]. destruct Hl as [Hh Hl]. rewrite Hh. cbn [rbind]. destruct rs as [|r2 rs].
  { simpl in Hn. rewrite app_nil_r in Hn. rewrite (proj2 (Z.eqb_eq _ n)) by lia.
    exists list1, list2, base2, r. split_and!; try done. simpl in Hd. by rewrite app_nil_r in Hd. }
  destruct Hok as [Hok|?]; [|done].
  apply runs_ok_tail in Hok as Hok2. destruct Hok2 as [_ Hok2]. apply runs_ok_tail in Hok2 as [Hr2 _].
  rewrite (proj2 (Z.eqb_neq _ n)) by (rewrite <- Hn; simpl; rewrite !length_app; lia).
  pose proof (runs_ok_count _ Hok) as Hlen. rewrite Hn in Hlen.
  destruct (pass_ok cmp size Hsize (S (Z.to_nat n)) (r :: r2 :: rs) list1 list2 0 n big)
    as (l1' & l2' & rs' & big' & -> & Hp & Hs1 & Hs2 & Hd' & Hl' & _); [done|done|lia|lia|done|by split|apply H1|destruct H2; lia|].
  cbn [rbind]. destruct (paired_length _ _ _ _ Hp) as (Hne' & _ & Hlt).
  eapply (IH rs'); [by eapply paired_runs_of|done|left; by eapply paired_runs_ok| | |done..| |].
  - by rewrite (paired_perm _ _ _ Hp).
  - specialize (Hlt ltac:(done)). simpl in *. lia.
  - by eapply room_shape.
  - by eapply room_shape.
Qed.

(** A buffer that holds a whole array. *)
Lemma has_cells l r : has l 0 r -> len (cells l) = len r -> cells l = Some <$> r.
Proof.
  intros H Hlen. apply list_eq. intros i. rewrite list_lookup_fmap.
  destruct (r !! i) as [x|] eqn:Hi; simpl.
  - apply lookup_lt_Some in Hi as Hlt. specialize (H (Z.of_nat i) ltac:(lia)).
    unfold elt_get, arr_get in H. rewrite bool_decide_true in H by lia.
    replace (Z.to_nat (0 + Z.of_nat i)) with i in H by lia.
    destruct (cells l !! i) as [[c|]|] eqn:Hci; try done. simpl in H. f_equal. injection H as ->. f_equal.
    unfold elt. rewrite Nat2Z.id. by apply list_lookup_total_correct.
  - apply lookup_ge_None in Hi. apply lookup_ge_None. lia.
Qed.

End Passes.

(** ** The first pass *)

Section Setup.
Context {A : Type} `{!Inhabited A} (cmp : A -> A -> Z) (size : Z) (Hsize : 4 <= size).
Implicit Types (l : buffer (A := A)) (x y z : A) (xs ys zs ws us vs r : list A) (rs : list (list A)).

#[local] Abbreviation len xs := (Z.of_nat (length xs)).
#[local] Abbreviation R := (fun x y => cmp x y <= 0).
#[local] Abbreviation head_get := (Merge.head_get size).

(** Only the elements from [i] up to [j] change. *)
Definition only l l' (i j : Z) : Prop :=
  shape l' = shape l /\
  forall k xs, 0 <= k -> k + len xs <= i \/ j <= k -> has l k xs -> has l' k xs.

Lemma only_refl l i j : only l l i j.
Proof. done. Qed.

Lemma only_trans l l1 l2 i j : only l l1 i j -> only l1 l2 i j -> only l l2 i j.
Proof. intros [S1 H1] [S2 H2]. split; [congruence|]. intros k xs Hk Hd Hx. apply H2; auto. Qed.

Lemma only_weaken l l' i j i' j' : i' <= i -> j <= j' -> only l l' i j -> only l l' i' j'.
Proof. intros Hi Hj [S H]. split; [done|]. intros k xs Hk Hd Hx. apply H; [done|lia|done]. Qed.

Lemma wrote_only l l' k xs : wrote size l l' k xs -> only l l' k (k + len xs).
Proof.
  intros Hw. split; [by eapply wrote_shape|]. intros j ys Hj Hd Hy. by eapply wrote_other.
Qed.

(** [swap] of the ends of a part of the array. *)
Lemma ends_swapped l k x y xs :
  0 <= k -> has l k (x :: xs ++ [y]) ->
  exists l', swap size l k (k + len xs + 1) = Ok l' /\ only l l' k (k + len xs + 2) /\ has l' k (y :: xs ++ [x]).
Proof.
  intros Hk H. pose proof (has_bound l k _ Hk H ltac:(done)) as Hb. simpl in Hb. rewrite length_app in Hb. simpl in Hb.
  apply has_cons in H as [Hx H]. apply has_app in H as [Hxs Hy%has_one].
  unfold swap. rewrite Hx. cbn [rbind]. replace (k + len xs + 1) with (k + 1 + len xs) by lia.
  rewrite Hy. cbn [rbind].
  destruct (elt_put_ok size Hsize l k y) as (l1 & -> & W1); [lia|]. cbn [rbind].
  pose proof (wrote_shape _ _ _ _ _ W1) as [= _ _ Hlen].
  destruct (elt_put_ok size Hsize l1 (k + 1 + len xs) x) as (l2 & -> & W2); [lia|].
  exists l2. split; [done|]. split.
  - eapply only_trans; eapply only_weaken; [| |by apply wrote_only| | |by apply wrote_only]; simpl; lia.
  - apply has_cons. split.
    + apply has_one. eapply wrote_other; [exact W2|done| |simpl; lia]. by eapply wrote_has.
    + apply has_app. split; [|eapply wrote_has; [|exact W2]; lia].
      eapply wrote_other; [exact W2|lia| |lia]. eapply wrote_other; [exact W1|lia|done|simpl; lia].
Qed.

Lemma reverse_ok fuel l bot xs :
  0 <= bot -> (2 <= length xs <= fuel)%nat -> has l bot xs ->
  exists l', reverse size fuel l bot (bot + len xs - 1) = Ok l' /\ only l l' bot (bot + len xs) /\ has l' bot (rev xs).
Proof.
  revert l bot xs. induction fuel as [|fuel IH]; intros l bot xs Hbot Hlen H; [lia|]. cbn [reverse].
  destruct xs as [|x xs]; [simpl in Hlen; lia|]. destruct xs as [|y ys _] using rev_ind; [simpl in Hlen; lia|].
  assert (len (x :: ys ++ [y]) = len ys + 2) as Hl by (simpl; rewrite length_app; simpl; lia). rewrite Hl.
  replace (bot + (len ys + 2) - 1) with (bot + len ys + 1) by lia.
  destruct (ends_swapped l bot x y ys Hbot H) as (l1 & -> & O1 & H1). cbn [rbind].
  simpl rev. rewrite rev_app_distr. cbn [rev app].
  destruct (Z.ltb_spec (bot + 1) (bot + len ys + 1 - 1)) as [Hlt|Hge].
  - apply has_cons in H1 as [Hy1 H1]. apply has_app in H1 as [Hys Hx1].
    destruct (IH l1 (bot + 1) ys) as (l2 & He & O2 & H2); [lia|simpl in Hlen; rewrite length_app in Hlen; simpl in *; lia|done|].
    replace (bot + 1 + len ys - 1) with (bot + len ys + 1 - 1) in He by lia. rewrite He.
    exists l2. split; [done|]. split.
    + eapply only_trans; [by replace (bot + (len ys + 2)) with (bot + len ys + 2) by lia|].
      eapply only_weaken; [| |exact O2]; lia.
    + apply has_cons. split.
      * apply has_one. apply O2; [done|simpl; lia|by apply has_one].
      * apply has_app. split; [done|]. rewrite length_rev. apply O2; [lia|lia|done].
  - exists l1. split; [done|]. split; [by replace (bot + (len ys + 2)) with (bot + len ys + 2) by lia|].
    destruct ys as [|y1 [|y2 ys]]; [done|done|simpl in *; lia].
Qed.

(** *** The insertion sort *)

Lemma insert_down_ok fuel l i xs x :
  0 <= i -> (length xs < fuel)%nat -> has l i (xs ++ [x]) ->
  exists l' xs1 xs2, insert_down cmp size fuel l i (i + len xs) = Ok l' /\ xs = xs1 ++ xs2 /\
    only l l' i (i + len xs + 1) /\ has l' i (xs1 ++ x :: xs2) /\
    Forall (fun y => 0 < cmp y x) xs2 /\ (forall w ws, xs1 = ws ++ [w] -> cmp w x <= 0).
Proof.
  revert l fuel. induction xs as [|w ws IH] using rev_ind; intros l fuel Hi Hfuel H;
    (destruct fuel as [|fuel]; [lia|]); cbn [insert_down]; rewrite Z.gtb_ltb.
  - rewrite (proj2 (Z.ltb_ge i _)) by (simpl; lia). cbn [negb]. exists l, [], []. split_and!; try done.
    intros w ws Hw. by destruct ws.
  - rewrite length_app in *. cbn [length] in *.
    rewrite (proj2 (Z.ltb_lt i _)) by lia. cbn [negb].
    pose proof H as H'. rewrite <- app_assoc in H'. apply has_app in H' as [Hws Hwx].
    replace (i + Z.of_nat (length ws + 1) - 1) with (i + len ws) by lia.
    replace (i + Z.of_nat (length ws + 1)) with (i + len ws + 1) by lia.
    apply has_cons in Hwx as Hwx'. destruct Hwx' as [Hw Hx%has_one].
    unfold compare. rewrite Hw. cbn [rbind]. rewrite Hx. cbn [rbind].
    destruct (Z.leb_spec (cmp w x) 0) as [Hc|Hc].
    + exists l, (ws ++ [w]), []. rewrite app_nil_r. split_and!; try done.
      intros w' ws' [_ [= ->]]%app_inj_tail. done.
    + destruct (ends_swapped l (i + len ws) w x []) as (l1 & Hs & O1 & H1); [lia|done|].
      simpl in Hs. rewrite Z.add_0_r in Hs. rewrite Hs. cbn [rbind].
      simpl in O1. rewrite Z.add_0_r in O1. apply (has_app l1 _ [x] [w]) in H1 as [Hx1 Hw1].
      destruct (IH l1 fuel Hi ltac:(lia)) as (l2 & xs1 & xs2 & -> & -> & O2 & H2 & Hf & Hl1).
      { apply has_app. split; [|done]. apply O1; [done|lia|done]. }
      exists l2, xs1, (xs2 ++ [w]). rewrite app_assoc. split_and!; try done.
      * eapply only_trans; eapply only_weaken; [| |exact O1| | |exact O2]; lia.
      * change (x :: xs2 ++ [w]) with ((x :: xs2) ++ [w]). rewrite app_assoc. apply has_app. split; [done|].
        assert (len (xs1 ++ x :: xs2) = len (xs1 ++ xs2) + 1) as -> by (rewrite !length_app; simpl; lia).
        rewrite Z.add_assoc. apply O2; [lia|simpl; lia|]. done.
      * apply Forall_app. split; [done|]. by apply Forall_singleton.
Qed.

(** All elements are at most [x] if the last one is. *)
Lemma sorted_below {Hc : Comparator cmp} xs x :
  StronglySorted R xs -> (forall w ws, xs = ws ++ [w] -> cmp w x <= 0) -> Forall (fun y => R y x) xs.
Proof.
  intros Hs Hl. destruct xs as [|w ws _] using rev_ind; [constructor|]. specialize (Hl w ws eq_refl).
  apply Forall_app. split; [|by apply Forall_singleton].
  eapply Forall_impl; [by eapply sorted_last|]. intros y Hy. simpl in *. by apply (compar_trans y w x).
Qed.

Lemma sorted_join {Hc : Comparator cmp} xs ys :
  StronglySorted R xs -> StronglySorted R ys ->
  (forall w ws v vs, xs = ws ++ [w] -> ys = v :: vs -> cmp w v <= 0) -> StronglySorted R (xs ++ ys).
Proof.
  intros Hx Hy Hj. apply StronglySorted_app. split_and!; [|done|done]. destruct ys as [|v vs]; [by intros ? ? ? ?%elem_of_nil|].
  assert (Forall (fun y => R y v) xs) as Hb by (apply sorted_below; [done|]; eauto).
  apply StronglySorted_inv in Hy as [_ Hv]. intros u w Hu Hw.
  rewrite Forall_forall in Hb, Hv. specialize (Hb u Hu). apply elem_of_cons in Hw as [->|Hw]; [done|].
  apply (compar_trans u v w); [done|]. by apply Hv.
Qed.

Lemma sorted_insert {Hc : Comparator cmp} xs1 x xs2 :
  StronglySorted R (xs1 ++ xs2) -> Forall (fun y => 0 < cmp y x) xs2 ->
  (forall w ws, xs1 = ws ++ [w] -> cmp w x <= 0) -> StronglySorted R (xs1 ++ x :: xs2).
Proof.
  intros Hs H2 H1. apply StronglySorted_app in Hs as (_ & Hs1 & Hs2). apply sorted_join; [done| |].
  - constructor; [done|]. eapply Forall_impl; [exact H2|]. intros y Hy. simpl in *.
    pose proof (compar_antisym x y). lia.
  - intros w ws v vs Hw [= <- _]. by eapply H1.
Qed.

Lemma insertion_loop_ok fuel l i xs ys :
  0 <= i -> (length ys < fuel)%nat -> has l i (xs ++ ys) ->
  exists l' r, insertion_loop cmp size fuel l i (i + len xs) (len ys + 1) = Ok l' /\
    only l l' i (i + len xs + len ys) /\ has l' i r /\ r ≡ₚ xs ++ ys /\
    (Comparator cmp -> StronglySorted R xs -> StronglySorted R r /\ stable cmp (xs ++ ys) r).
Proof.
  revert l xs ys. induction fuel as [|fuel IH]; intros l xs ys Hi Hfuel H; [lia|]. cbn [insertion_loop].
  rewrite Z.add_simpl_r, Z.geb_leb. destruct ys as [|y ys].
  - rewrite (proj2 (Z.leb_gt 1 _)) by (simpl; lia). cbn [negb]. rewrite app_nil_r in *.
    exists l, xs. split_and!; try done.
  - rewrite (proj2 (Z.leb_le 1 _)) by (simpl; lia). cbn [negb].
    rewrite (app_assoc xs [y] ys : xs ++ y :: ys = _) in H |- *. apply has_app in H as [Hxy Hys].
    destruct (insert_down_ok (S (Z.to_nat (i + len xs - i))) l i xs y Hi ltac:(lia) Hxy)
      as (l1 & xs1 & xs2 & -> & Hxs & O1 & H1 & Hf & Hl). cbn [rbind].
    assert (len (xs1 ++ y :: xs2) = len xs + 1) as Hlen by (rewrite Hxs, !length_app; simpl; lia).
    assert (len (xs ++ [y]) = len xs + 1) as Hlen' by (rewrite length_app; simpl; lia).
    destruct (IH l1 (xs1 ++ y :: xs2) ys Hi ltac:(simpl in *; lia)) as (l2 & r & He & O2 & H2 & Hp & Hs).
    { apply has_app. split; [done|]. rewrite Hlen. rewrite Hlen' in Hys. apply O1; [lia|lia|done]. }
    rewrite Hlen, Z.add_assoc in He. replace (len (y :: ys)) with (len ys + 1) by (simpl; lia). rewrite He.
    exists l2, r. rewrite Hlen in O2. split_and!; try done.
    + eapply only_trans; eapply only_weaken; [| |exact O1| | |exact O2]; lia.
    + rewrite Hp, Hxs. solve_Permutation.
    + intros Hc Hsx. rewrite Hxs in Hsx. destruct (Hs Hc) as [Hsr Hst]; [by apply sorted_insert|]. split; [done|].
      eapply stable_trans; [|exact Hst]. apply stable_app; [|apply stable_refl]. rewrite Hxs. by apply stable_insert.
Qed.

Lemma insertionsort_ok l i xs :
  0 <= i -> xs <> [] -> has l i xs ->
  exists l' r, insertionsort cmp size l i (len xs) = Ok l' /\ only l l' i (i + len xs) /\ has l' i r /\
    r ≡ₚ xs /\ (Comparator cmp -> StronglySorted R r /\ stable cmp xs r).
Proof.
  intros Hi Hne H. destruct xs as [|x xs]; [done|].
  destruct (insertion_loop_ok (S (Z.to_nat (len (x :: xs)))) l i [x] xs Hi) as (l' & r & He & O & Hr & Hp & Hs);
    [simpl; lia|done|].
  unfold insertionsort. replace (len (x :: xs)) with (len xs + 1) in * by (simpl; lia). simpl in He.
  exists l', r. split_and!; try done.
  - by replace (i + (len xs + 1)) with (i + len [x] + len xs) by (simpl; lia).
  - intros Hc. apply (Hs Hc). repeat constructor.
Qed.

(** *** Runs of one sense *)

(** [sense] tells whether the elements go down. *)
Definition goes (sense : bool) x y : Prop := (cmp x y >? 0) = sense.

(** The run in ascending order. *)
Definition turned (sense : bool) xs : list A := if sense then rev xs else xs.

Lemma turned_perm sense xs : turned sense xs ≡ₚ xs.
Proof. destruct sense; simpl; [|done]. symmetry. apply Permutation_rev. Qed.

Lemma turned_len sense xs : len (turned sense xs) = len xs.
Proof. by rewrite turned_perm. Qed.

Lemma sorted_rev {Hc : Comparator cmp} xs : StronglySorted (fun x y => 0 < cmp x y) xs -> StronglySorted R (rev xs).
Proof.
  induction 1 as [|x xs Hs IH Hx]; simpl; [constructor|]. apply StronglySorted_app. split_and!; [|done|repeat constructor].
  intros u v Hu ->%list_elem_of_singleton. rewrite Forall_forall in Hx.
  specialize (Hx u ltac:(by rewrite (Permutation_rev xs))). pose proof (compar_antisym u x). lia.
Qed.

Lemma turned_good {Hc : Comparator cmp} sense xs :
  Sorted (goes sense) xs -> StronglySorted R (turned sense xs) /\ stable cmp xs (turned sense xs).
Proof.
  unfold goes. intros Hs. destruct sense; simpl.
  - assert (StronglySorted (fun x y => 0 < cmp x y) xs) as Hss.
    { apply Sorted_StronglySorted.
      - intros x y z Hxy Hyz. pose proof (compar_antisym y x). pose proof (compar_antisym z y).
        pose proof (compar_antisym z x). pose proof (compar_trans x z y) as Ht. pose proof (compar_antisym y z). lia.
      - eapply Sorted_weaken; [|exact Hs]. intros x y. simpl. rewrite Z.gtb_ltb. apply Z.ltb_lt. }
    split; [by apply sorted_rev|by apply stable_rev].
  - split; [|apply stable_refl]. apply Sorted_StronglySorted; [by apply run_trans|].
    eapply Sorted_weaken; [|exact Hs]. intros x y. simpl. rewrite Z.gtb_ltb. apply Z.ltb_ge.
Qed.

Lemma reverse_run_ok l sense bot xs :
  0 <= bot -> (2 <= length xs)%nat -> has l bot xs ->
  exists l', reverse_run size l sense bot (bot + len xs - 1) = Ok l' /\ only l l' bot (bot + len xs) /\
    has l' bot (turned sense xs).
Proof.
  intros Hb Hl H. unfold reverse_run. destruct sense; [|by exists l].
  apply reverse_ok; [done| |done]. lia.
Qed.

(** A list of pairs, all of one sense. *)
Inductive pairs (P : A -> A -> Prop) : list A -> Prop :=
  | pairs_nil : pairs P []
  | pairs_cons x y xs : P x y -> pairs P xs -> pairs P (x :: y :: xs).

#[local] Abbreviation evenl := (pairs (fun _ _ => True)).

Lemma same_sense_ok fuel l last sense f2 length ys :
  has l f2 ys -> evenl ys -> f2 + len ys = last -> len ys < Z.of_nat fuel ->
  exists us vs length', same_sense cmp fuel l last sense f2 length = Ok (f2 + len us, length') /\
    ys = us ++ vs /\ pairs (goes sense) us /\ evenl vs /\
    (forall x y vs', vs = x :: y :: vs' -> goes (negb sense) x y).
Proof.
  intros H He. revert fuel f2 length H. induction He as [|x y ys _ He IH]; intros fuel f2 length H Hlast Hfuel;
    (destruct fuel as [|fuel]; [lia|]); cbn [same_sense].
  - rewrite (proj2 (Z.ltb_ge f2 last)) by (simpl in *; lia). cbn [negb].
    exists [], [], length. rewrite Z.add_0_r. split_and!; try done; constructor.
  - simpl in Hlast, Hfuel. rewrite (proj2 (Z.ltb_lt f2 last)) by lia. cbn [negb].
    apply has_cons in H as [Hx H]. apply has_cons in H as [Hy H].
    unfold compare. rewrite Hx. cbn [rbind]. rewrite Hy. cbn [rbind].
    destruct (Bool.eqb (cmp x y >? 0) sense) eqn:Hs; cbn [negb].
    + apply eqb_prop in Hs.
      destruct (IH fuel (f2 + 2) (s32 (length + 2))) as (us & vs & length' & -> & -> & Hu & Hv & Hd);
        [by replace (f2 + 2) with (f2 + 1 + 1) by lia|lia|lia|].
      exists (x :: y :: us), vs, length'. split_and!; try done; [|by constructor].
      do 2 f_equal. simpl. lia.
    + apply eqb_false_iff in Hs. exists [], (x :: y :: ys), length. rewrite Z.add_0_r.
      split_and!; try done; [constructor|by constructor|].
      intros ? ? ? [= <- <- _]. unfold goes. by destruct sense, (cmp x y >? 0).
Qed.

(** *** Pairwise *)

(** Pointers outside of the runs stay. *)
Definition keeps_heads l l' (i j : Z) : Prop :=
  shape l' = shape l /\ forall k p, k + 2 <= i \/ j <= k -> head_get l k = Ok p -> head_get l' k = Ok p.

Lemma keeps_trans l l1 l2 i j : keeps_heads l l1 i j -> keeps_heads l1 l2 i j -> keeps_heads l l2 i j.
Proof. intros [S1 H1] [S2 H2]. split; [congruence|]. intros k p Hk Hp. apply H2; auto. Qed.

Lemma keeps_weaken l l' i j i' j' : i' <= i -> j <= j' -> keeps_heads l l' i j -> keeps_heads l l' i' j'.
Proof. intros Hi Hj [S H]. split; [done|]. intros k p Hk. apply H. lia. Qed.

(** Runs that are found from [i] on. *)
Record found l1 l2 l1' l2' (i : Z) xs rs : Prop := {
  fd_only : only l1 l1' i (i + len xs);
  fd_has : has l1' i (concat rs);
  fd_runs : runs_of cmp xs rs;
  fd_keeps : keeps_heads l2 l2' i (i + len xs);
  fd_linked : linked size l2' i rs;
  fd_len : Forall (fun r => 2 <= len r) rs
}.

Lemma found_nil l1 l2 i : found l1 l2 l1 l2 i [] [].
Proof.
  split; try done. apply has_nil.
Qed.

Lemma found_len l1 l2 l1' l2' i xs rs : found l1 l2 l1' l2' i xs rs -> len (concat rs) = len xs.
Proof. intros F. destruct (fd_runs _ _ _ _ _ _ _ F) as [Hp _]. by rewrite Hp. Qed.

Lemma runs_of_app xs ys rs rs' : runs_of cmp xs rs -> runs_of cmp ys rs' -> runs_of cmp (xs ++ ys) (rs ++ rs').
Proof.
  intros [Hp1 Hc1] [Hp2 Hc2]. split; [by rewrite concat_app, Hp1, Hp2|].
  intros Hc. destruct (Hc1 Hc), (Hc2 Hc). rewrite concat_app. split; [by apply Forall_app|by apply stable_app].
Qed.

Lemma found_app l1 l2 l1a l2a l1' l2' i xs ys rs rs' :
  0 <= i -> found l1 l2 l1a l2a i xs rs -> found l1a l2a l1' l2' (i + len xs) ys rs' ->
  found l1 l2 l1' l2' i (xs ++ ys) (rs ++ rs').
Proof.
  intros Hi F1 F2. pose proof (found_len _ _ _ _ _ _ _ F1) as Hlen. pose proof (fd_len _ _ _ _ _ _ _ F1) as Hf.
  assert (i + len (xs ++ ys) = i + len xs + len ys) as E by (rewrite length_app; lia).
  split; rewrite ?E.
  - eapply only_trans; eapply only_weaken; [| |by eapply fd_only| | |by eapply fd_only]; lia.
  - rewrite concat_app. apply has_app. rewrite Hlen. split; [|by eapply fd_has].
    destruct (fd_only _ _ _ _ _ _ _ F2) as [_ O]. apply O; [done|lia|by eapply fd_has].
  - apply runs_of_app; by eapply fd_runs.
  - eapply keeps_trans; eapply keeps_weaken; [| |by eapply fd_keeps| | |by eapply fd_keeps]; lia.
  - apply linked_app. rewrite Hlen. split; [|by eapply fd_linked].
    eapply linked_same; [done| |by eapply fd_linked]. intros k p Hk Hk2 Hp.
    destruct (fd_keeps _ _ _ _ _ _ _ F2) as [_ K]. apply K; [lia|done].
  - apply Forall_app. split; [done|by eapply fd_len].
Qed.

(** One run: its pointer is written, and it is brought into order. *)
Lemma found_one l1 l2 l1' i xs r :
  0 <= i -> (2 <= length xs)%nat -> (i + len xs) * size + 8 <= b_bytes l2 ->
  only l1 l1' i (i + len xs) -> has l1' i r -> r ≡ₚ xs ->
  (Comparator cmp -> StronglySorted R r /\ stable cmp xs r) ->
  exists l2', head_put size l2 i (i + len xs) = Ok l2' /\ found l1 l2 l1' l2' i xs [r].
Proof.
  intros Hi Hl Hb O Hh Hp Hs.
  assert (i * size + 15 <= (i + len xs) * size + 8) by nia.
  destruct (head_put_ok size Hsize l2 i (i + len xs) (i + 4)) as (l2' & -> & Hsh & Hg & Hk & _); [done|left; lia|nia|].
  exists l2'. split; [done|]. split; simpl; rewrite ?app_nil_r; try done.
  - split; simpl; [by rewrite app_nil_r|]. intros Hc. destruct (Hs Hc) as [Hs1 Hs2].
    split; [by apply Forall_singleton|]. by rewrite app_nil_r.
  - split; [done|]. intros k p Hkp. apply Hk. lia.
  - by rewrite Hp.
  - constructor; [|done]. rewrite Hp. lia.
Qed.

Lemma pair_sorted sense x y : goes sense x y -> Sorted (goes sense) [x; y].
Proof. repeat constructor. done. Qed.

Lemma pairwise_ok fuel sense l1 l2 f1 us :
  pairs (goes sense) us -> us <> [] -> 0 <= f1 -> (length us <= fuel)%nat -> has l1 f1 us ->
  (f1 + len us) * size + 8 <= b_bytes l2 ->
  exists l1' l2' rs, pairwise size fuel l1 l2 sense f1 (f1 + len us) f1 = Ok (l1', l2', f1 + len us, f1 + len us) /\
    found l1 l2 l1' l2' f1 us rs.
Proof.
  intros Hp. revert fuel l1 l2 f1. induction Hp as [|x y us Hxy Hp IH]; intros fuel l1 l2 f1 Hne Hf1 Hfuel H Hb; [done|].
  destruct fuel as [|fuel]; [simpl in *; lia|]. cbn [pairwise].
  apply (has_app l1 f1 [x; y] us) in H as [Hxy0 Hus].
  assert (exists l1a, (if sense then swap size l1 f1 (f1 + 1) else Ok l1) = Ok l1a /\ only l1 l1a f1 (f1 + 2) /\
    has l1a f1 (turned sense [x; y])) as (l1a & Hsw & O & Ht).
  { destruct sense; [|by exists l1]. destruct (ends_swapped l1 f1 x y [] Hf1 Hxy0) as (l1a & E & O & Ht).
    simpl in E, O. rewrite Z.add_0_r in E, O. by exists l1a. }
  destruct (found_one l1 l2 l1a f1 [x; y] (turned sense [x; y]) Hf1) as (l2a & Hput & F);
    [simpl; lia|simpl in *; nia|done|done|apply turned_perm|intros Hc; by apply turned_good, pair_sorted|].
  change (len [x; y]) with 2 in Hput. rewrite Hput. cbn [rbind]. rewrite Hsw. cbn [rbind].
  assert (len (x :: y :: us) = 2 + len us) as Hlen by (simpl; lia). rewrite Hlen in *.
  destruct us as [|u us].
  - rewrite (proj2 (Z.ltb_ge _ _)) by (simpl; lia). exists l1a, l2a, [turned sense [x; y]]. by rewrite Z.add_0_r.
  - rewrite (proj2 (Z.ltb_lt _ _)) by (simpl; lia).
    destruct (IH fuel l1a l2a (f1 + 2)) as (l1' & l2' & rs & He & F2); [done|lia|simpl in *; lia| | |].
    + apply O; [lia|lia|done].
    + destruct (fd_keeps _ _ _ _ _ _ _ F) as [[= _ -> _] _]. by rewrite <- Z.add_assoc.
    + rewrite <- Z.add_assoc in He. rewrite He. exists l1', l2', (turned sense [x; y] :: rs). split; [done|].
      by apply (found_app l1 l2 l1a l2a l1' l2' f1 [x; y] (u :: us) [turned sense [x; y]] rs).
Qed.

(** *** Natural runs *)

Lemma sorted_snoc2 sense zs w x y :
  Sorted (goes sense) (zs ++ [w]) -> goes sense w x -> goes sense x y -> Sorted (goes sense) ((zs ++ [w]) ++ [x; y]).
Proof.
  intros Hs Hwx Hxy. change [x; y] with ([x] ++ [y]). rewrite (app_assoc _ [x] [y]).
  apply Sorted_snoc; [|by constructor]. apply Sorted_snoc; [done|by constructor].
Qed.

(** A run is turned, and the rest of the array stays. *)
Lemma found_turned sense l1 l2 f1 zs ws :
  Sorted (goes sense) zs -> (2 <= length zs)%nat -> 0 <= f1 -> has l1 f1 (zs ++ ws) ->
  (f1 + len zs) * size + 8 <= b_bytes l2 ->
  exists l1' l2', reverse_run size l1 sense f1 (f1 + len zs - 1) = Ok l1' /\
    head_put size l2 f1 (f1 + len zs) = Ok l2' /\ found l1 l2 l1' l2' f1 zs [turned sense zs] /\
    has l1' (f1 + len zs) ws.
Proof.
  intros Hs Hl Hf1 H Hb. apply has_app in H as [Hz Hw].
  destruct (reverse_run_ok l1 sense f1 zs Hf1 Hl Hz) as (l1' & Hrev & O & Ht).
  destruct (found_one l1 l2 l1' f1 zs (turned sense zs) Hf1 Hl Hb O Ht (turned_perm _ _)) as (l2' & Hput & F).
  { intros Hc. by apply turned_good. }
  exists l1', l2'. split_and!; try done. apply O; [lia|lia|done].
Qed.

Lemma natural_ok fuel sense l1 l2 f1 zs ws :
  pairs (goes sense) ws -> Sorted (goes sense) zs -> (2 <= length zs)%nat -> 0 <= f1 -> (length ws < fuel)%nat ->
  has l1 f1 (zs ++ ws) -> (f1 + len zs + len ws) * size + 8 <= b_bytes l2 ->
  exists l1' l2' rs xs zs',
    natural cmp size fuel l1 l2 sense f1 (f1 + len zs) (f1 + len zs + len ws) f1
      = Ok (l1', l2', f1 + len xs, f1 + len zs + len ws, f1 + len xs) /\
    zs ++ ws = xs ++ zs' /\ found l1 l2 l1' l2' f1 xs rs /\ Sorted (goes sense) zs' /\ (2 <= length zs')%nat.
Proof.
  intros Hp. revert fuel l1 l2 f1 zs. induction Hp as [|x y ws Hxy Hp IH]; intros fuel l1 l2 f1 zs Hs Hl Hf1 Hfuel H Hb;
    (destruct fuel as [|fuel]; [lia|]); cbn [natural].
  - rewrite (proj2 (Z.ltb_ge _ _)) by (simpl; lia). cbn [negb].
    exists l1, l2, [], [], zs. rewrite !Z.add_0_r, app_nil_r. split_and!; try done. apply found_nil.
  - rewrite (proj2 (Z.ltb_lt _ _)) by (simpl; lia). cbn [negb].
    destruct zs as [|w zs _] using rev_ind; [simpl in Hl; lia|].
    set (zw := zs ++ [w]) in *. assert (len zw = len zs + 1) as Hzw by (unfold zw; rewrite length_app; simpl; lia).
    pose proof H as H'. unfold zw in H'. rewrite <- app_assoc in H'. apply has_app in H' as [_ Hwx].
    apply has_cons in Hwx as [Hw Hx]. apply has_cons in Hx as [Hx _].
    unfold compare. replace (f1 + len zw - 1) with (f1 + len zs) by lia. rewrite Hw. cbn [rbind].
    replace (f1 + len zw) with (f1 + len zs + 1) by lia. rewrite Hx. cbn [rbind].
    replace (f1 + len zs + 1) with (f1 + len zw) by lia.
    assert (f1 + len zw + len (x :: y :: ws) = f1 + len zw + 2 + len ws) as Hend by (simpl; lia).
    rewrite Hend in *. simpl in Hfuel.
    destruct (Bool.eqb (cmp w x >? 0) sense) eqn:Hsw; cbn [negb].
    + apply eqb_prop in Hsw.
      destruct (IH fuel l1 l2 f1 (zw ++ [x; y])) as (l1' & l2' & rs & xs & zs' & He & Hsplit & F & Hs' & Hl');
        [by apply sorted_snoc2|rewrite length_app; simpl; lia|done|lia|by rewrite <- app_assoc|
         rewrite length_app; simpl; by replace (f1 + Z.of_nat (length zw + 2)) with (f1 + len zw + 2) by lia|].
      rewrite length_app in He. simpl in He.
      replace (f1 + Z.of_nat (length zw + 2)) with (f1 + len zw + 2) in He by lia. rewrite He.
      exists l1', l2', rs, xs, zs'. split_and!; try done. by rewrite <- Hsplit, <- app_assoc.
    + destruct (found_turned sense l1 l2 f1 zw (x :: y :: ws)) as (l1a & l2a & Hrev & Hput & F1 & Hrest);
        [done|done|done|done|nia|].
      rewrite Hput. cbn [rbind]. replace (f1 + len zs) with (f1 + len zw - 1) by lia. rewrite Hrev. cbn [rbind].
      destruct (IH fuel l1a l2a (f1 + len zw) [x; y]) as (l1' & l2' & rs & xs & zs' & He & Hsplit & F & Hs' & Hl');
        [by apply pair_sorted|simpl; lia|lia|lia|done| |].
      { destruct (fd_keeps _ _ _ _ _ _ _ F1) as [[= _ -> _] _]. done. }
      change (len [x; y]) with 2 in He. rewrite He. exists l1', l2', ([turned sense zw] ++ rs), (zw ++ xs), zs'.
      rewrite length_app, Nat2Z.inj_add, Z.add_assoc. split_and!; try done.
      * by rewrite <- app_assoc, <- Hsplit.
      * by eapply found_app.
Qed.

(** Whether the end of the array begins a new run. *)
Lemma more_ok l last f2 zs tl :
  f2 <= last -> zs <> [] -> tl <> [] -> has l (f2 - len zs) zs -> (f2 = last -> has l last tl) ->
  exists more, (if f2 <? last then Ok true else let! c := compare cmp l (f2 - 1) f2 in Ok (c >? 0)) = Ok more /\
    (more = true \/ f2 = last /\ forall w ws v vs, zs = ws ++ [w] -> tl = v :: vs -> cmp w v <= 0).
Proof.
  intros Hle Hz Ht Hh Htl. destruct (Z.ltb_spec f2 last) as [Hlt|Hge]; [exists true; auto|].
  assert (f2 = last) as Hf by lia. specialize (Htl Hf). destruct zs as [|w zs _] using rev_ind; [done|].
  destruct tl as [|v tl]; [done|]. apply has_app in Hh as [_ Hw%has_one]. apply has_cons in Htl as [Hv _].
  rewrite length_app in Hw. simpl in Hw. replace (f2 - Z.of_nat (length zs + 1) + len zs) with (f2 - 1) in Hw by lia.
  unfold compare. rewrite Hw. cbn [rbind]. rewrite <- Hf in Hv. rewrite Hv. cbn [rbind].
  exists (cmp w v >? 0). split; [done|]. rewrite Z.gtb_ltb. destruct (Z.ltb_spec 0 (cmp w v)); [by left|right].
  split; [done|]. intros w' ws v' vs [_ [= ->]]%app_inj_tail [= -> _]. done.
Qed.

(** The natural merge finds the runs of pairs of one sense.  When it comes
    to the sorted end [tl] of the array, that may go on the last run. *)
Lemma natural_merge_ok sense l1 l2 n last f1 us tl :
  pairs (goes sense) us -> us <> [] -> 0 <= f1 -> f1 + len us <= last -> last + len tl = n -> tl <> [] ->
  has l1 f1 us -> (f1 + len us = last -> has l1 last tl) -> (Comparator cmp -> StronglySorted R tl) ->
  n * size + 8 <= b_bytes l2 ->
  exists l1' l2' rs p, natural_merge cmp size l1 l2 n last sense f1 (f1 + len us) f1 = Ok (l1', l2', f1 + len us, p) /\
    (p = f1 + len us /\ found l1 l2 l1' l2' f1 us rs \/
     f1 + len us = last /\ found l1 l2 l1' l2' f1 (us ++ tl) rs /\ exists rs0 r, rs = rs0 ++ [r] /\ len tl <= len r).
Proof.
  intros Hp Hne Hf1 Hlast Hn Htl Hus Htail Hst Hb.
  destruct Hp as [|x y us Hxy Hp]; [done|]. clear Hne. unfold natural_merge.
  assert (f1 + len (x :: y :: us) = f1 + len [x; y] + len us) as Hend by (simpl; lia). rewrite Hend in *.
  destruct (natural_ok (S (Z.to_nat (f1 + len [x; y] + len us - f1))) sense l1 l2 f1 [x; y] us)
    as (l1a & l2a & rs & xs & zs & He & Hsplit & F & Hs & Hl); [done|by apply pair_sorted|simpl; lia|done|simpl; lia|done|nia|].
  change (f1 + len [x; y]) with (f1 + 2) in He at 2. rewrite He. cbn [rbind].
  pose proof (found_len _ _ _ _ _ _ _ F) as Hlen. destruct (fd_only _ _ _ _ _ _ _ F) as [_ O].
  assert (f1 + len [x; y] + len us = f1 + len xs + len zs) as Hend2.
  { apply (f_equal length) in Hsplit. rewrite !length_app in Hsplit. lia. }
  rewrite Hend2 in *.
  assert (has l1a (f1 + len xs) zs) as Hz.
  { change (x :: y :: us) with ([x; y] ++ us) in Hus. rewrite Hsplit in Hus. apply has_app in Hus as [_ Hz].
    apply O; [lia|lia|done]. }
  assert (f1 + len xs + len zs = last -> has l1a last tl) as Htail'.
  { intros E. apply O; [lia|lia|by apply Htail]. }
  assert (b_bytes l2a = b_bytes l2) as Hbb by (destruct (fd_keeps _ _ _ _ _ _ _ F) as [[= _ -> _] _]; done).
  destruct (reverse_run_ok l1a sense (f1 + len xs) zs ltac:(lia) Hl Hz) as (l1' & Hrev & O' & Ht).
  rewrite Hrev. cbn [rbind].
  destruct (more_ok l1' last (f1 + len xs + len zs) (turned sense zs) tl) as (more & -> & Hmore);
    [lia|intros H0; apply (f_equal length) in H0; pose proof (turned_len sense zs); simpl in *; lia|done| | |].
  { rewrite turned_len. by replace (f1 + len xs + len zs - len zs) with (f1 + len xs) by lia. }
  { intros E. apply O'; [lia|lia|auto]. }
  cbn [rbind]. change (x :: y :: us) with ([x; y] ++ us). rewrite Hsplit. destruct more.
  - destruct (found_one l1a l2a l1' (f1 + len xs) zs (turned sense zs)) as (l2' & -> & F2);
      [lia|done|nia|done|done|apply turned_perm|intros Hc; by apply turned_good|].
    cbn [rbind]. exists l1', l2', (rs ++ [turned sense zs]), (f1 + len xs + len zs). split; [done|]. left.
    split; [done|]. by eapply found_app.
  - destruct Hmore as [|[Hl0 Hj]]; [done|].
    destruct (found_one l1a l2a l1' (f1 + len xs) (zs ++ tl) (turned sense zs ++ tl)) as (l2' & Hput & F2).
    + lia.
    + rewrite length_app. lia.
    + rewrite length_app. replace (f1 + len xs + Z.of_nat (length zs + length tl)) with n by lia. by rewrite Hbb.
    + eapply only_weaken; [| |exact O']; [lia|rewrite length_app; lia].
    + apply has_app. split; [done|]. rewrite turned_len, Hl0. apply O'; [lia|lia|auto].
    + by rewrite turned_perm.
    + intros Hc. destruct (turned_good sense zs Hs) as [Hs1 Hs2]. split; [by apply sorted_join; auto|].
      apply stable_app; [done|apply stable_refl].
    + rewrite length_app in Hput. replace (f1 + len xs + Z.of_nat (length zs + length tl)) with n in Hput by lia.
      rewrite Hput. cbn [rbind]. exists l1', l2', (rs ++ [turned sense zs ++ tl]), n. split; [done|]. right.
      split; [done|]. split; [rewrite <- app_assoc; by eapply found_app|].
      exists rs, (turned sense zs ++ tl). split; [done|]. rewrite length_app. lia.
Qed.

(** *** All runs *)

Lemma runs_ok_app rs rs' : Forall (fun r => 2 <= len r) rs -> rs' <> [] -> runs_ok rs' -> runs_ok (rs ++ rs').
Proof.
  intros Hf Hne Hok. induction Hf as [|r rs Hr _ IH]; [done|]. simpl.
  destruct (rs ++ rs') eqn:E; [by apply app_eq_nil in E as [_ ?]|]. by split.
Qed.

(** The runs of a part of the array, and those of the rest. *)
Definition finds l1 l2 (f1 : Z) xs (out : res (buffer (A := A) * buffer (A := A))) : Prop :=
  exists l1' l2' rs, out = Ok (l1', l2') /\ found l1 l2 l1' l2' f1 xs rs /\ runs_ok rs /\ rs <> [].

Lemma finds_app l1 l2 l1a l2a f1 us xs rs out :
  0 <= f1 -> found l1 l2 l1a l2a f1 us rs -> finds l1a l2a (f1 + len us) xs out -> finds l1 l2 f1 (us ++ xs) out.
Proof.
  intros Hf F (l1' & l2' & rs' & -> & F' & Hok & Hne). exists l1', l2', (rs ++ rs'). split_and!; [done|by eapply found_app| |].
  - apply runs_ok_app; [by eapply fd_len|done|done].
  - by intros [_ ?]%app_eq_nil.
Qed.

Lemma finds_end l1 l2 f1 tl :
  has l1 f1 tl -> head_get l2 f1 = Ok (f1 + len tl) -> 4 <= len tl -> (Comparator cmp -> StronglySorted R tl) ->
  finds l1 l2 f1 tl (Ok (l1, l2)).
Proof.
  intros H Hh Hl Hs. exists l1, l2, [tl]. split_and!; try done. split; simpl; rewrite ?app_nil_r; try done.
  - split; simpl; rewrite app_nil_r; [done|]. intros Hc. split; [|apply stable_refl].
    constructor; [by apply Hs|constructor].
  - constructor; [lia|constructor].
Qed.

Lemma setup_loop_ok fuel sense l1 l2 n last f1 ys tl :
  evenl ys -> (forall x y ys', ys = x :: y :: ys' -> goes sense x y) ->
  0 <= f1 -> f1 + len ys = last -> last + len tl = n -> 4 <= len tl -> (length ys < fuel)%nat ->
  has l1 f1 (ys ++ tl) -> head_get l2 last = Ok n -> (Comparator cmp -> StronglySorted R tl) ->
  n * size + 8 <= b_bytes l2 ->
  finds l1 l2 f1 (ys ++ tl) (setup_loop cmp size fuel l1 l2 n last sense f1 f1).
Proof.
  revert sense l1 l2 f1 ys. induction fuel as [|fuel IH]; intros sense l1 l2 f1 ys He Hs Hf1 Hlast Hn H4 Hfuel H Hh Hst Hb; [lia|].
  cbn [setup_loop]. apply has_app in H as H'. destruct H' as [Hys Htl]. rewrite Hlast in Htl.
  destruct He as [|x y ys _ He].
  { simpl in *. rewrite Z.add_0_r in Hlast. rewrite (proj2 (Z.ltb_ge _ _)) by lia. cbn [negb].
    apply finds_end; [done|by rewrite Hlast, Hn|done|done]. }
  rewrite (proj2 (Z.ltb_lt _ _)) by (simpl in *; lia). cbn [negb].
  specialize (Hs x y ys eq_refl). change (x :: y :: ys) with ([x; y] ++ ys) in Hys. apply has_app in Hys as [Hxy Hys].
  destruct (same_sense_ok (S (Z.to_nat (last - f1))) l1 last sense (f1 + 2) 2 ys)
    as (us & vs & length' & -> & -> & Hus & Hvs & Hd); [done|done|simpl in *; lia|simpl in *; lia|]. cbn [rbind].
  set (zs := x :: y :: us). assert (pairs (goes sense) zs) as Hzs by (by constructor).
  assert (len zs = 2 + len us) as Hlz by (unfold zs; simpl; lia).
  assert (f1 + len zs + len vs = last) as Hlast' by (simpl in Hlast; rewrite length_app in Hlast; lia).
  replace (f1 + 2 + len us) with (f1 + len zs) by lia.
  change ((x :: y :: us ++ vs) ++ tl) with ((zs ++ vs) ++ tl) in *. rewrite <- app_assoc in *.
  apply has_app in H as [Hz Hrest].
  assert (forall l1a l2a rs, found l1 l2 l1a l2a f1 zs rs ->
    finds l1 l2 f1 (zs ++ vs ++ tl) (setup_loop cmp size fuel l1a l2a n last (negb sense) (f1 + len zs) (f1 + len zs))) as Hgo.
  { intros l1a l2a rs F. eapply finds_app; [done|exact F|].
    destruct (fd_only _ _ _ _ _ _ _ F) as [_ O]. destruct (fd_keeps _ _ _ _ _ _ _ F) as [[= _ Hb2 _] K].
    apply IH; try done; try lia.
    - apply O; [lia|lia|done].
    - apply K; [lia|done]. }
  destruct (length' <? THRESHOLD).
  - destruct (pairwise_ok (S (Z.to_nat (f1 + len zs - f1))) sense l1 l2 f1 zs) as (l1a & l2a & rs & -> & F);
      [done|done|done|lia|done|nia|]. cbn [rbind]. by eapply Hgo.
  - destruct (natural_merge_ok sense l1 l2 n last f1 zs tl) as (l1a & l2a & rs & p & -> & Hcase);
      [done|done|done|lia|done|by destruct tl|done|done|done|done|]. cbn [rbind].
    destruct Hcase as [[-> F]|(Hl & F & rs0 & r & -> & Hr)]; [by eapply Hgo|].
    destruct fuel as [|fuel]; [simpl in Hfuel; lia|]. cbn [setup_loop].
    rewrite (proj2 (Z.ltb_ge _ _)) by lia. cbn [negb]. destruct vs; [|simpl in *; lia].
    exists l1a, l2a, (rs0 ++ [r]). split_and!; [done|done| |by destruct rs0].
    pose proof (fd_len _ _ _ _ _ _ _ F) as Hf. apply Forall_app in Hf as [Hf _].
    apply runs_ok_app; [done|done|]. simpl. lia.
Qed.

Lemma evenl_even ys : Nat.Even (length ys) -> evenl ys.
Proof.
  intros [k Hk]. revert ys Hk. induction k as [|k IH]; intros [|x [|y ys]] Hk; simpl in Hk; try lia; [constructor|].
  constructor; [done|]. apply IH. lia.
Qed.

(** The end of the array that is sorted first. *)
Lemma tail_split a :
  (5 < length a)%nat -> exists ys tl, a = ys ++ tl /\ evenl ys /\ 2 <= len ys /\
    len tl = 4 + Z.land (len a) 1.
Proof.
  intros Hn. change 1 with (Z.ones 1). rewrite Z.land_ones by lia. change (2 ^ 1) with 2.
  set (k := Z.to_nat (len a - (4 + len a mod 2))).
  assert (k + 4 <= length a /\ 2 <= k)%nat as [Hk Hk2] by (unfold k; zbits).
  exists (take k a), (drop k a). rewrite take_drop, length_take, length_drop, Nat.min_l by lia. split_and!; try done; try lia.
  - apply evenl_even. rewrite length_take, Nat.min_l by lia. exists (Z.to_nat (len a / 2 - 2)). unfold k. zbits.
Qed.

Lemma setup_ok a list1 list2 :
  (0 < length a)%nat -> has list1 0 a -> b_addr list2 mod 8 = 0 ->
  len a * size + 8 <= b_bytes list2 ->
  exists l1' l2' rs, setup cmp size list1 list2 (len a) = Ok (l1', l2') /\
    runs_of cmp a rs /\ rs <> [] /\ (runs_ok rs \/ length rs = 1%nat) /\
    has l1' 0 (concat rs) /\ linked size l2' 0 rs /\ shape l1' = shape list1 /\ shape l2' = shape list2.
Proof.
  intros Hn H Hal Hb. unfold setup. destruct (Z.leb_spec (len a) 5) as [H5|H5].
  - destruct (insertionsort_ok list1 0 a) as (l1' & r & -> & [Hs1 _] & Hr & Hp & Hs); [done|intros ->; simpl in Hn; lia|done|].
    cbn [rbind]. destruct (eval_range size list2 0) as [He1 He2].
    assert (Merge.EVAL size list2 0 = 0) as He0 by zbits.
    destruct (head_put_ok size Hsize list2 0 (len a) 4) as (l2' & -> & Hs2 & Hh & _); [done|right; nia|lia|].
    cbn [rbind]. exists l1', l2', [r]. split_and!; try done.
    + split; simpl; rewrite app_nil_r; [done|]. intros Hc. destruct (Hs Hc). split; [by repeat constructor|done].
    + by right.
    + simpl. by rewrite app_nil_r.
    + simpl. split; [|done]. by rewrite Hp.
  - destruct (tail_split a ltac:(lia)) as (ys & tl & Ha & Hev & Hy2 & Htl). rewrite <- Htl.
    assert (len a = len ys + len tl) as Hla by (rewrite Ha, length_app; lia).
    assert (4 <= len tl) as H4.
    { rewrite Htl. change 1 with (Z.ones 1). rewrite Z.land_ones by lia. change (2 ^ 1) with 2. zbits. }
    replace (len a - len tl) with (len ys) by lia. pose proof H as H'. rewrite Ha in H'. apply has_app in H' as [Hys Htl0].
    rewrite Z.add_0_l in Htl0.
    destruct (insertionsort_ok list1 (len ys) tl) as (l1a & r & -> & [Hs1 O] & Hr & Hp & Hs); [lia|intros ->; simpl in H4; lia|done|].
    cbn [rbind].
    destruct (head_put_ok size Hsize list2 (len ys) (len a) (len ys + 4)) as (l2a & -> & Hs2 & Hh & _); [lia|left; nia|nia|].
    cbn [rbind]. assert (len r = len tl) as Hlr by (by rewrite Hp).
    assert (has l1a 0 (ys ++ r)) as Hd.
    { apply has_app. split; [apply O; [done|lia|done]|]. by rewrite Z.add_0_l. }
    destruct Hev as [|x y ys _ Hev]; [simpl in Hy2; lia|]. unfold compare.
    apply has_cons in Hd as Hd'. destruct Hd' as [Hx Hd']. apply has_cons in Hd' as [Hy _].
    rewrite Z.add_0_l in Hy. rewrite Hx. cbn [rbind]. rewrite Hy. cbn [rbind].
    destruct (setup_loop_ok (S (Z.to_nat (len (x :: y :: ys)))) (cmp x y >? 0) l1a l2a (len a) (len (x :: y :: ys)) 0
      (x :: y :: ys) r) as (l1' & l2' & rs & -> & F & Hok & Hne); try done; try lia.
    + by constructor.
    + by intros ? ? ? [= <- <- _].
    + intros Hc. by apply Hs.
    + injection Hs2 as _ -> _. done.
    + destruct (fd_only _ _ _ _ _ _ _ F) as [Hs1' _]. destruct (fd_keeps _ _ _ _ _ _ _ F) as [Hs2' _].
      destruct (fd_runs _ _ _ _ _ _ _ F) as [Hperm Hgood].
      exists l1', l2', rs. split_and!; try done; try congruence; [|by left|by eapply fd_has|by eapply fd_linked].
      split; [by rewrite Hperm, Hp, Ha|]. intros Hc. destruct (Hgood Hc) as [Hss Hst]. split; [done|].
      eapply stable_trans; [|exact Hst]. rewrite Ha. apply stable_app; [apply stable_refl|by apply Hs].
Qed.

End Setup.

(** ** Theorems *)

(** [C36] mergesort is a stable sort.  For elements of at least four bytes, at
    any address, it ends, reads nothing that a pointer has overwritten and no
    pointer that an element has, stays within the array and its memory, and
    permutes the array, whatever the comparison does; with a consistent
    comparison the elements are in ascending order, and those that compare
    equal keep theirs.  Smaller elements and lack of memory are errors that
    leave the array alone. *)
Theorem mergesort_sorts {A} `{!Inhabited A} (cmp : A -> A -> Z) size base (a : list A) addr :
  4 <= size -> Z.of_nat (length a) * size + 8 < 2 ^ 64 -> addr mod 8 = 0 ->
  (exists a' : list A, mergesort cmp size base a (Some addr) = Ok (0, None, Some <$> a') /\ a' ≡ₚ a /\
     (Comparator cmp -> StronglySorted (fun x y => cmp x y <= 0) a' /\ stable cmp a a')) /\
  (a <> [] -> mergesort cmp size base a None = Ok (-1, None, Some <$> a)) /\
  (forall small malloc, small < 4 ->
     mergesort cmp small base a malloc = Ok (-1, Some Merge.EINVAL, Some <$> a)).
Proof.
  intros Hs Hn Hal. unfold mergesort. change (PSIZE / 2) with 4.
  rewrite (proj2 (Z.ltb_ge size 4)) by done. split_and!.
  - destruct a as [|x0 a0] eqn:Ha.
    { simpl. exists []. split_and!; try done. intros _. split; [constructor|apply stable_refl]. }
    rewrite <- Ha in *. assert (0 < length a)%nat as Hpos by (rewrite Ha; simpl; lia). clear Ha x0 a0.
    rewrite (proj2 (Z.eqb_neq _ 0)) by lia. rewrite u64_small by (unfold PSIZE; nia).
    set (l1 := Buf base _ (Some <$> a) ∅). set (l2 := Buf addr _ _ ∅).
    assert (has l1 0 a) as Hd.
    { intros j Hj. unfold elt_get, arr_get. simpl. rewrite bool_decide_true by lia.
      rewrite list_lookup_fmap, (list_lookup_lookup_total_lt a) by lia. done. }
    destruct (setup_ok cmp size Hs a l1 l2 Hpos Hd Hal) as (l1a & l2a & rs & -> & Hr & Hne & Hok & Hda & Hla & S1 & S2);
      [simpl; unfold PSIZE; lia|]. cbn [rbind].
    assert (length rs <= S (length a))%nat as Hcount.
    { destruct Hok as [Hok|Hok]; [|lia]. apply runs_ok_count in Hok. rewrite (proj1 Hr) in Hok. lia. }
    destruct (passes_ok cmp size Hs (S (length a)) a rs l1a l2a (Z.of_nat (length a)) false false)
      as (l1' & l2' & base2 & r & -> & [Hp Hgood] & Hdr & [_ Hroom]); try done.
    + by rewrite (proj1 Hr).
    + eapply room_shape; [exact S1|]. split; simpl; [lia|by rewrite length_fmap].
    + eapply room_shape; [exact S2|]. split; simpl; [unfold PSIZE; lia|by rewrite length_replicate].
    + cbn [rbind]. simpl in Hp, Hgood. rewrite app_nil_r in Hp, Hgood. exists r.
      assert (cells l1' = Some <$> r) as Hc by (apply has_cells; [done|]; rewrite <- Hroom; by rewrite Hp).
      split_and!; [|done|].
      * destruct base2; simpl; by rewrite Hc.
      * intros Hcmp. destruct (Hgood Hcmp) as [Hss Hst]. by apply Forall_cons in Hss as [? _].
  - intros Hne. rewrite (proj2 (Z.eqb_neq _ 0)); [done|]. destruct a; simpl; [done|lia].
  - intros small malloc Hsm. by rewrite (proj2 (Z.ltb_lt small 4)) by done.
Qed.

(** Forty numbers in all kinds of order, compared by their tens, from an
    address that is not aligned. *)
Definition merge_input : list Z :=
  [17; 12; 33; 31; 90; 95; 21; 7; 44; 41; 52; 11; 98; 97; 96; 81; 73; 62; 61; 50; 49; 38; 27; 16; 5; 4; 3;
   2; 1; 0; 11; 13; 15; 22; 29; 35; 38; 47; 71; 77].

Example mergesort_run :
  mergesort (fun x y => x / 10 - y / 10) 5 3 merge_input (Some 16)
  = Ok (0, None, Some <$>
      [7; 5; 4; 3; 2; 1; 0; 17; 12; 11; 16; 11; 13; 15; 21; 27; 22; 29; 33; 31; 38; 35; 38;
       44; 41; 49; 47; 52; 50; 62; 61; 73; 71; 77; 81; 90; 95; 98; 97; 96]).
Proof. vm_compute. reflexivity. Qed.

Lemma mergesort_sorts_witness :
  exists a', mergesort Z.sub 5 3 merge_input (Some 16) = Ok (0, None, Some <$> a') /\ a' ≡ₚ merge_input /\
    StronglySorted (fun x y => x - y <= 0) a'.
Proof.
  destruct (mergesort_sorts Z.sub 5 3 merge_input 16) as [(a' & E & Hp & Hs) _]; [lia|vm_compute; reflexivity|reflexivity|].
  exists a'. split; [exact E|]. split; [exact Hp|]. apply Hs, sub_comparator.
Defined.
