(* ===== verification/Radix.v ===== *)
(** * Radix: radix sorts of the C library

    Model of [stdlib/FreeBSD/radixsort.c].  The array holds pointers to
    strings of bytes: a pointer is a value of any type, [str] gives the bytes
    that can be read through it, and a pointer into the array is an index.
    The table [tr] translates bytes, and a byte that translates to [endch]
    ends a string.

    The stack of pending bins is a list with its bottom first, of at most
    [SIZE] entries.  The static variables of the two sorts, a histogram, the
    number of its occupied bins and the first of them, live from call to
    call: a recursive call uses the histogram its caller has made.  Where
    [calloc] failed the histogram has no entries. *)

From S2P Require Import Prelude Sort.

Module Radix.

Definition THRESHOLD : Z := 20.
Definition SIZE : Z := 512.

(** An entry of the stack: the bin from [sa] on with [sn] strings, which
    agree before position [si].  [sn], [nc], [bmin] and the counts are [int] in
    the source and at most the number of strings, itself an [int]; [si] is an
    [int] as well, so strings are taken to agree in fewer than 2^31 bytes. *)
Record frame := Frame { sa : Z; sn : Z; si : Z }.

Record statics := Statics { count : list Z; nc : Z; bmin : Z }.

Definition push (s : list frame) (f : frame) : res (list frame) :=
  if Z.of_nat (length s) <? SIZE then Ok (s ++ [f]) else Crash OutOfBounds.

(** [swap( *sp0, *sp1, temp)]; an entry that is not in use is not read. *)
Definition swap_frames (s : list frame) (sp0 sp1 : Z) : res (list frame) :=
  if sp0 =? sp1 then Ok s else arr_swap s sp0 sp1.

Section Radix.
Context {A : Type} (str : A -> list Z) (tr : list Z) (endch : Z).

(** [tr[x[i]]]. *)
Definition tr_at (x : A) (i : Z) : res Z :=
  let! b := arr_get (str x) i in
  arr_get tr b.

(** ** Insertion sort *)

(** The comparison of [simplesort] from position [p] on: [ch >= tr[*t]]. *)
Fixpoint ss_compare (fuel : nat) (x y : A) (p : Z) : res bool :=
  match fuel with
  | O => Crash OutOfFuel
  | S fuel =>
      let! ch := tr_at x p in
      let! c := tr_at y p in
      if negb (ch =? endch) && (ch =? c) then ss_compare fuel x y (p + 1)
      else Ok (ch >=? c)
  end.

Fixpoint ss_insert (fuel : nat) (arr : list A) (a ai b : Z) : res (list A) :=
  match fuel with
  | O => Crash OutOfFuel
  | S fuel =>
      if negb (ai >? a) then Ok arr
      else
        let! x := arr_get arr ai in
        let! y := arr_get arr (ai - 1) in
        let! ge := ss_compare (S (length (str x))) x y b in
        if ge : bool then Ok arr
        else
          let! arr := arr_swap arr ai (ai - 1) in
          ss_insert fuel arr a (ai - 1) b
  end.

(** [for (ak = a+1; --n >= 1; ak++)]. *)
Fixpoint ss_loop (rounds : nat) (arr : list A) (a ak b : Z) : res (list A) :=
  match rounds with
  | O => Ok arr
  | S rounds =>
      let! arr := ss_insert (S (Z.to_nat (ak - a))) arr a ak b in
      ss_loop rounds arr a (ak + 1) b
  end.

Definition simplesort (arr : list A) (a n b : Z) : res (list A) :=
  ss_loop (Z.to_nat (n - 1)) arr a (a + 1) b.

(** ** Histograms *)

(** One string: [++count[c] == 1 && c != endch]. *)
Definition hist_add (c : Z) (st : statics) : res statics :=
  let! v := arr_get (count st) c in
  let! count := arr_set (count st) c (v + 1) in
  if (v + 1 =? 1) && negb (c =? endch)
  then Ok (Statics count (nc st + 1) (if c <? bmin st then c else bmin st))
  else Ok (Statics count (nc st) (bmin st)).

(** [for (ak = a; ak < an;)]. *)
Fixpoint hist_up (rounds : nat) (arr : list A) (ak i : Z) (st : statics) : res statics :=
  match rounds with
  | O => Ok st
  | S rounds =>
      let! x := arr_get arr ak in
      let! c := tr_at x i in
      let! st := hist_add c st in
      hist_up rounds arr (ak + 1) i st
  end.

(** [for (ak = a + n; --ak >= a;)]. *)
Fixpoint hist_down (rounds : nat) (arr : list A) (ak i : Z) (st : statics) : res statics :=
  match rounds with
  | O => Ok st
  | S rounds =>
      let! x := arr_get arr (ak - 1) in
      let! c := tr_at x i in
      let! st := hist_add c st in
      hist_down rounds arr (ak - 1) i st
  end.

(** ** Bins *)

(** [while ( *cp == 0) cp++]: the next pile and its size. *)
Fixpoint next_pile (fuel : nat) (count : list Z) (cp : Z) : res (Z * Z) :=
  match fuel with
  | O => Crash OutOfFuel
  | S fuel =>
      let! v := arr_get count cp in
      if v =? 0 then next_pile fuel count (cp + 1) else Ok (cp, v)
  end.

(** The loop over the occupied bins; [r_sort_b] resets the histogram as it
    goes.  The result is the stack, [top], the histogram and [sp1]. *)
Fixpoint set_bins (reset : bool) (rounds : nat) (count : list Z) (cp ak i : Z)
    (s : list frame) (top : list (option Z)) (sp1 bigc : Z) :
    res (list frame * list (option Z) * list Z * Z) :=
  match rounds with
  | O => Ok (s, top, count, sp1)
  | S rounds =>
      let! (cp, v) := next_pile 257 count cp in
      let! (s, sp1, bigc) :=
        (if v >? 1 then
           let '(sp1, bigc) := if v >? bigc then (Z.of_nat (length s), v) else (sp1, bigc) in
           let! s := push s (Frame ak v (i + 1)) in
           Ok (s, sp1, bigc)
         else Ok (s, sp1, bigc)) in
      let ak := ak + v in
      let! top := arr_set top cp (Some ak) in
      let! count := (if reset then arr_set count cp 0 else Ok count) in
      set_bins reset rounds count (cp + 1) ak i s top sp1 bigc
  end.

(** [--top[c]]. *)
Definition take_top (top : list (option Z)) (c : Z) : res (Z * list (option Z)) :=
  let! t := arr_get top c in
  match t with
  | None => Crash UninitRead
  | Some t => let! top := arr_set top c (Some (t - 1)) in Ok (t - 1, top)
  end.

(** ** In-place sort *)

(** [for (r = *aj;  aj < (ak = --top[c = tr[r[i]]]);) swap( *ak, r, t)]. *)
Fixpoint deal_chain (fuel : nat) (arr : list A) (top : list (option Z)) (aj i : Z) (r : A) :
    res (list A * list (option Z) * A * Z) :=
  match fuel with
  | O => Crash OutOfFuel
  | S fuel =>
      let! c := tr_at r i in
      let! (ak, top) := take_top top c in
      if aj <? ak then
        let! x := arr_get arr ak in
        let! arr := arr_set arr ak r in
        deal_chain fuel arr top aj i x
      else Ok (arr, top, r, c)
  end.

(** [for (aj = a; aj < an;  *aj = r, aj += count[c], count[c] = 0)]. *)
Fixpoint deal_a (fuel : nat) (arr : list A) (top : list (option Z)) (count : list Z) (aj an i : Z) :
    res (list A * list (option Z) * list Z) :=
  match fuel with
  | O => Crash OutOfFuel
  | S fuel =>
      if negb (aj <? an) then Ok (arr, top, count)
      else
        let! r := arr_get arr aj in
        let! (arr, top, r, c) := deal_chain (S (Z.to_nat (an - aj))) arr top aj i r in
        let! arr := arr_set arr aj r in
        let! v := arr_get count c in
        let! count := arr_set count c 0 in
        deal_a fuel arr top count (aj + v) an i
  end.

(** What [r_sort_a] does with a bin of at least [THRESHOLD] strings that do
    not all agree at position [i]: the new stack, array and static
    variables. *)
Definition split_a (s : list frame) (top : list (option Z)) (arr : list A) (st : statics) (f : frame) :
    res (list frame * list (option Z) * list A * statics) :=
  let '(Frame a n i) := f in
  let an := a + n in
  let sp0 := Z.of_nat (length s) in
  let! (ak, top) :=
    (if endch =? 0 then
       let! v := arr_get (count st) 0 in
       let! top := arr_set top 0 (Some (a + v)) in
       Ok (a + v, top)
     else
       let! top := arr_set top 255 (Some an) in
       Ok (a, top)) in
  let! (s, top, cnt, sp1) := set_bins false (Z.to_nat (nc st)) (count st) (bmin st) ak i s top sp0 2 in
  let! s := swap_frames s sp0 sp1 in
  let! (arr, top, cnt) := deal_a (S (Z.to_nat n)) arr top cnt a an i in
  Ok (s, top, arr, Statics cnt 0 (bmin st)).

(** The loop of [r_sort_a]; a call from inside begins with a stack of its
    own. *)
Fixpoint r_sort_a (fuel : nat) (s : list frame) (top : list (option Z)) (arr : list A) (st : statics) :
    res (list A * statics) :=
  match fuel with
  | O => Crash OutOfFuel
  | S fuel =>
      match last s with
      | None => Ok (arr, st)
      | Some f =>
          let '(Frame a n i) := f in
          let s := removelast s in
          if n <? THRESHOLD then
            let! arr := simplesort arr a n i in
            r_sort_a fuel s top arr st
          else
            let! (st, more) :=
              (if nc st =? 0 then
                 let! st := hist_up (Z.to_nat n) arr a i (Statics (count st) 0 255) in
                 Ok (st, Z.of_nat (length s) + nc st >? SIZE)
               else Ok (st, false)) in
            if more : bool then
              let! (arr, st) := r_sort_a fuel [f] (replicate 256 None) arr st in
              r_sort_a fuel s top arr st
            else
              let! one := (if nc st =? 1 then let! v := arr_get (count st) (bmin st) in Ok (v =? n)
                           else Ok false) in
              if one : bool then
                let! s := push s (Frame a n (i + 1)) in
                let! cnt := arr_set (count st) (bmin st) 0 in
                r_sort_a fuel s top arr (Statics cnt 0 (bmin st))
              else
                let! (s, top, arr, st) := split_a s top arr st f in
                r_sort_a fuel s top arr st
      end
  end.

(** ** Stable sort *)

(** [for (ak = ta + n, ai = a+n; ak > ta;) *--ak = *--ai]: the copy. *)
Fixpoint copy_temp (rounds : nat) (arr : list A) (ai : Z) (ta : list A) : res (list A) :=
  match rounds with
  | O => Ok ta
  | S rounds =>
      let! x := arr_get arr (ai - 1) in
      copy_temp rounds arr (ai - 1) (x :: ta)
  end.

(** [for (ak = ta+n; --ak >= ta;) *--top[tr[( *ak)[i]]] = *ak]. *)
Fixpoint deal_b (rounds : nat) (ta : list A) (ak : Z) (arr : list A) (top : list (option Z)) (i : Z) :
    res (list A * list (option Z)) :=
  match rounds with
  | O => Ok (arr, top)
  | S rounds =>
      let! x := arr_get ta (ak - 1) in
      let! c := tr_at x i in
      let! (t, top) := take_top top c in
      let! arr := arr_set arr t x in
      deal_b rounds ta (ak - 1) arr top i
  end.

(** What [r_sort_b] does with a bin of at least [THRESHOLD] strings; [ta]
    has room for [room] pointers. *)
Definition split_b (room : Z) (s : list frame) (top : list (option Z)) (arr : list A) (st : statics) (f : frame) :
    res (list frame * list (option Z) * list A * statics) :=
  let '(Frame a n i) := f in
  let sp0 := Z.of_nat (length s) in
  let! (ak, top, cnt) :=
    (if endch =? 0 then
       let! v := arr_get (count st) 0 in
       let! top := arr_set top 0 (Some (a + v)) in
       let! cnt := arr_set (count st) 0 0 in
       Ok (a + v, top, cnt)
     else
       let! top := arr_set top 255 (Some (a + n)) in
       let! cnt := arr_set (count st) 255 0 in
       Ok (a, top, cnt)) in
  let! (s, top, cnt, sp1) := set_bins true (Z.to_nat (nc st)) cnt (bmin st) ak i s top sp0 2 in
  let! s := swap_frames s sp0 sp1 in
  if n >? room then Crash OutOfBounds
  else
    let! ta := copy_temp (Z.to_nat n) arr (a + n) [] in
    let! (arr, top) := deal_b (Z.to_nat n) ta n arr top i in
    Ok (s, top, arr, Statics cnt 0 (bmin st)).

Fixpoint r_sort_b (room : Z) (fuel : nat) (s : list frame) (top : list (option Z)) (arr : list A) (st : statics) :
    res (list A * statics) :=
  match fuel with
  | O => Crash OutOfFuel
  | S fuel =>
      match last s with
      | None => Ok (arr, st)
      | Some f =>
          let '(Frame a n i) := f in
          let s := removelast s in
          if n <? THRESHOLD then
            let! arr := simplesort arr a n i in
            r_sort_b room fuel s top arr st
          else
            let! (st, more) :=
              (if nc st =? 0 then
                 let! st := hist_down (Z.to_nat n) arr (a + n) i (Statics (count st) 0 255) in
                 Ok (st, Z.of_nat (length s) + nc st >? SIZE)
               else Ok (st, false)) in
            if more : bool then
              let! (arr, st) := r_sort_b room fuel [f] (replicate 256 None) arr st in
              r_sort_b room fuel s top arr st
            else
              let! (s, top, arr, st) := split_b room s top arr st f in
              r_sort_b room fuel s top arr st
      end
  end.

(** Every round of the loops takes a string a character further. *)
Definition fuel_for (arr : list A) : nat := 2 + sum_list ((fun x => length (str x)) <$> arr).

End Radix.

(** ** The functions *)

(** The histograms of the two sorts, made once; [calloc] may fail for each. *)
Definition r_sort_count_allocate (calloc_a calloc_b : bool) : list Z * list Z :=
  (if calloc_a then replicate 256 0 else [], if calloc_b then replicate 256 0 else []).

(** [SETUP]: the table and the end of strings, or [EINVAL]. *)
Definition SETUP (tab : option (list Z)) (endch : Z) : res (option (list Z * Z)) :=
  match tab with
  | None =>
      if endch <? 256 then
        Ok (Some ((fun n => let c := Z.of_nat n in
                            if c <? endch then c + 1 else if c =? endch then 0 else c) <$> seq 0 256, 0))
      else Crash OutOfBounds
  | Some tab =>
      let! e := arr_get tab endch in
      if negb (e =? 0) && negb (e =? 255) then Ok None else Ok (Some (tab, e))
  end.

(** The two functions return 0 or -1, [errno] if they set it, the array and
    their static variables.  [once] says whether [pthread_once] succeeds,
    [malloc] whether there is memory for the copy. *)
Definition radixsort {A} (str : A -> list Z) (once : bool) (arr : list A) (tab : option (list Z)) (endch : Z)
    (st : statics) : res (Z * option errno_t * list A * statics) :=
  let! t := SETUP tab endch in
  match t with
  | None => Ok (-1, Some EINVAL, arr, st)
  | Some (tr, endch) =>
      if negb once then Ok (0, None, arr, st)
      else
        let! (arr, st) := r_sort_a str tr endch (fuel_for str arr) [Frame 0 (Z.of_nat (length arr)) 0]
                            (replicate 256 None) arr st in
        Ok (0, None, arr, st)
  end.

Definition sradixsort {A} (str : A -> list Z) (once malloc : bool) (arr : list A) (tab : option (list Z)) (endch : Z)
    (st : statics) : res (Z * option errno_t * list A * statics) :=
  let n := Z.of_nat (length arr) in
  let! t := SETUP tab endch in
  match t with
  | None => Ok (-1, Some EINVAL, arr, st)
  | Some (tr, endch) =>
      if n <? THRESHOLD then
        let! arr := simplesort str tr endch arr 0 n 0 in
        Ok (0, None, arr, st)
      else if negb malloc then Ok (-1, None, arr, st)
      else if negb once then Ok (0, None, arr, st)
      else
        let! (arr, st) := r_sort_b str tr endch n (fuel_for str arr) [Frame 0 n 0]
                            (replicate 256 None) arr st in
        Ok (0, None, arr, st)
  end.

End Radix.
