(* ===== verification/RadixBins.v ===== *)
(** * RadixBins: strings as keys, and the bins of a position

    The key of a string is what the table makes of its bytes up to the first
    that ends it; strings are compared by their keys.  The insertion sort of
    short bins, histograms, and where the bins of a histogram begin. *)

From S2P Require Import Prelude Sort SortBase MergeThms Radix.
Import Radix.

(** ** Lexicographic order *)

Fixpoint lex (xs ys : list Z) : Z :=
  match xs, ys with
  | [], [] => 0
  | [], _ :: _ => -1
  | _ :: _, [] => 1
  | x :: xs, y :: ys => if x <? y then -1 else if y <? x then 1 else lex xs ys
  end.

Lemma lex_antisym xs ys : lex xs ys < 0 <-> 0 < lex ys xs.
Proof.
  revert ys. induction xs as [|x xs IH]; intros [|y ys]; simpl; try lia.
  destruct (Z.ltb_spec x y), (Z.ltb_spec y x); try lia. apply IH.
Qed.

Lemma lex_trans xs ys zs : lex xs ys <= 0 -> lex ys zs <= 0 -> lex xs zs <= 0.
Proof.
  revert ys zs. induction xs as [|x xs IH]; intros [|y ys] [|z zs]; simpl; try lia.
  destruct (Z.ltb_spec x y), (Z.ltb_spec y x), (Z.ltb_spec y z), (Z.ltb_spec z y),
    (Z.ltb_spec x z), (Z.ltb_spec z x); try lia. apply IH.
Qed.

Lemma lex_app p xs ys : lex (p ++ xs) (p ++ ys) = lex xs ys.
Proof. induction p as [|a p IH]; simpl; [done|]. by rewrite Z.ltb_irrefl. Qed.

Lemma lex_refl xs : lex xs xs = 0.
Proof. induction xs as [|x xs IH]; simpl; [done|]. by rewrite Z.ltb_irrefl. Qed.

(** ** Filters *)

Lemma filter_ext_in {B} (P Q : B -> Prop) `{!forall n, Decision (P n), !forall n, Decision (Q n)} (l : list B) :
  (forall x, x ∈ l -> P x <-> Q x) -> filter P l = filter Q l.
Proof.
  induction l as [|x l IH]; intros HPQ; [done|]. rewrite !filter_cons.
  rewrite (decide_ext (P x) (Q x)) by (apply HPQ; left). rewrite IH; [done|]. intros y Hy. apply HPQ. by right.
Qed.

Lemma filter_all_in {B} (P : B -> Prop) `{!forall n, Decision (P n)} (l : list B) :
  (forall x, x ∈ l -> P x) -> filter P l = l.
Proof. intros HP. by apply filter_all, Forall_forall. Qed.

Lemma filter_none_in {B} (P : B -> Prop) `{!forall n, Decision (P n)} (l : list B) :
  (forall x, x ∈ l -> ~ P x) -> filter P l = [].
Proof. intros HP. by apply (filter_none P (fun x => ~ P x)); [apply Forall_forall|]. Qed.

Lemma elem_of_concat_in {B} (x : B) (ls : list (list B)) : x ∈ concat ls <-> exists l, x ∈ l /\ l ∈ ls.
Proof. rewrite elem_of_concat. setoid_rewrite list_elem_of_lookup at 3. naive_solver. Qed.

Lemma filter_one_more (P Q : nat -> Prop) `{!forall n, Decision (P n), !forall n, Decision (Q n)} l c :
  NoDup l -> c ∈ l -> ~ P c -> (forall d, Q d <-> P d \/ d = c) -> length (filter Q l) = S (length (filter P l)).
Proof.
  intros Hnd Hin HP HQ. induction Hnd as [|d l Hd Hnd IH]; [by apply elem_of_nil in Hin|].
  rewrite !filter_cons. apply elem_of_cons in Hin as [<-|Hin].
  - rewrite decide_True by (apply HQ; auto). rewrite decide_False by done. simpl. f_equal. f_equal.
    apply filter_ext_in. intros e He. rewrite HQ. split; [|tauto]. intros [?| ->]; done.
  - assert (d <> c) by (intros ->; done). specialize (IH Hin).
    destruct (decide (P d)), (decide (Q d)) as [HQd|HQd]; simpl; rewrite ?IH; try done.
    + destruct HQd. apply HQ. auto.
    + apply HQ in HQd. tauto.
Qed.

(** ** A part of an array *)

Section Mid.
Context {A : Type}.
Implicit Types pre xs post : list A.

Lemma arr_get_mid pre xs post k x :
  xs !! k = Some x -> arr_get (pre ++ xs ++ post) (Z.of_nat (length pre) + Z.of_nat k) = Ok x.
Proof.
  intros Hk. apply arr_get_ok; [lia|]. rewrite Z2Nat.inj_add, !Nat2Z.id by lia.
  rewrite lookup_app_r by lia. replace (length pre + k - length pre)%nat with k by lia.
  by apply lookup_app_l_Some.
Qed.

Lemma arr_set_mid pre xs post k x :
  (k < length xs)%nat ->
  arr_set (pre ++ xs ++ post) (Z.of_nat (length pre) + Z.of_nat k) x = Ok (pre ++ <[k := x]> xs ++ post).
Proof.
  intros Hk. rewrite arr_set_ok by (rewrite !length_app; lia). rewrite Z2Nat.inj_add, !Nat2Z.id by lia.
  rewrite insert_app_r_alt by lia. replace (length pre + k - length pre)%nat with k by lia.
  by rewrite insert_app_l.
Qed.

Lemma arr_swap_mid pre xs post k y x :
  xs !! k = Some y -> xs !! S k = Some x ->
  arr_swap (pre ++ xs ++ post) (Z.of_nat (length pre) + Z.of_nat (S k)) (Z.of_nat (length pre) + Z.of_nat k)
  = Ok (pre ++ <[k := x]> (<[S k := y]> xs) ++ post).
Proof.
  intros Hy Hx. unfold arr_swap. pose proof (lookup_lt_Some _ _ _ Hx).
  rewrite (arr_get_mid _ _ _ _ _ Hx), (arr_get_mid _ _ _ _ _ Hy). cbn [rbind].
  rewrite arr_set_mid by lia. cbn [rbind]. apply arr_set_mid. rewrite length_insert. lia.
Qed.

End Mid.

Section Keys.
Context {A : Type} `{!Inhabited A} (str : A -> list Z) (tr : list Z) (endch : Z).

(** A table of bytes. *)
Definition table_ok : Prop := length tr = 256%nat /\ Forall byte tr.

Definition trn (b : Z) : Z := tr !!! Z.to_nat b.

Fixpoint cut (s : list Z) : list Z :=
  match s with
  | [] => []
  | b :: s => if trn b =? endch then [endch] else trn b :: cut s
  end.

Definition key (x : A) : list Z := cut (str x).

(** A string: bytes, one of which ends it. *)
Definition string_ok (x : A) : Prop := Forall byte (str x) /\ Exists (fun b => trn b = endch) (str x).

Definition cmp (x y : A) : Z := lex (key x) (key y).

Lemma radix_comparator : Comparator cmp.
Proof. split; intros *; unfold cmp; [apply lex_antisym|apply lex_trans]. Qed.
#[local] Existing Instance radix_comparator.

(** The character of the key at a position. *)
Definition chr (i : nat) (x : A) : Z := key x !!! i.

Context (Htab : table_ok) (Hend : endch = 0 \/ endch = 255).

Lemma trn_get b : byte b -> arr_get tr b = Ok (trn b) /\ byte (trn b).
Proof.
  intros Hb. destruct Htab as [Hlen Hall]. unfold byte in Hb.
  destruct (lookup_lt_is_Some_2 tr (Z.to_nat b)) as [v Hv]; [lia|].
  unfold trn. rewrite (list_lookup_total_correct _ _ _ Hv). split; [apply arr_get_ok; [lia|done]|].
  by eapply Forall_lookup_1.
Qed.

Lemma cut_spec s :
  Forall byte s -> Exists (fun b => trn b = endch) s ->
  (length (cut s) <= length s)%nat /\ (0 < length (cut s))%nat /\
  forall i, (i < length (cut s))%nat ->
    (exists b, s !! i = Some b /\ byte b /\ trn b = cut s !!! i) /\
    (cut s !!! i = endch <-> S i = length (cut s)).
Proof.
  intros Hb. induction Hb as [|b s Hb Hs IH]; intros He; [by apply Exists_nil in He|]. simpl.
  destruct (Z.eqb_spec (trn b) endch) as [Hc|Hc]; simpl.
  - split_and!; [lia|lia|]. intros [|i] Hi; [|lia]. simpl. split; [by exists b|]. done.
  - apply Exists_cons in He as [He|He]; [done|]. destruct (IH He) as (Hle & Hpos & Hall).
    split_and!; [lia|lia|]. intros [|i] Hi; simpl.
    + split; [by exists b|]. split; [done|lia].
    + destruct (Hall i ltac:(lia)) as [Hx Hy]. split; [done|]. rewrite Hy. lia.
Qed.

Lemma tr_at_key x i :
  string_ok x -> (i < length (key x))%nat -> tr_at str tr x (Z.of_nat i) = Ok (chr i x) /\ byte (chr i x).
Proof.
  intros [Hb He] Hi. destruct (cut_spec _ Hb He) as (_ & _ & Hall).
  destruct (Hall i Hi) as [(b & Hs & Hbb & Ht) _]. unfold tr_at.
  rewrite (arr_get_ok _ _ b) by (rewrite ?Nat2Z.id; done || lia). simpl.
  destruct (trn_get b Hbb) as [-> Hr]. unfold chr, key. by rewrite <- Ht.
Qed.

Lemma chr_end x i : string_ok x -> (i < length (key x))%nat -> chr i x = endch <-> S i = length (key x).
Proof. intros [Hb He] Hi. destruct (cut_spec _ Hb He) as (_ & _ & Hall). by apply Hall. Qed.

(** ** Strings that agree before a position *)

Definition agree (i : nat) (x y : A) : Prop :=
  take i (key x) = take i (key y) /\ (i < length (key x))%nat /\ (i < length (key y))%nat.

Lemma agree_drop i x y : agree i x y -> cmp x y = lex (drop i (key x)) (drop i (key y)).
Proof.
  intros (Ht & _ & _). unfold cmp. rewrite <- (take_drop i (key x)) at 1. rewrite <- (take_drop i (key y)) at 1.
  rewrite Ht. apply lex_app.
Qed.

Lemma drop_chr i x : (i < length (key x))%nat -> drop i (key x) = chr i x :: drop (S i) (key x).
Proof.
  intros Hi. unfold chr. rewrite <- (drop_S (key x) _ i); [done|].
  by apply list_lookup_lookup_total_lt.
Qed.

(** The first character that differs decides. *)
Lemma agree_chr i x y : agree i x y -> chr i x < chr i y -> cmp x y < 0.
Proof.
  intros Ha Hc. rewrite (agree_drop i) by done. destruct Ha as (_ & Hx & Hy).
  rewrite (drop_chr i x), (drop_chr i y) by done. cbn [lex]. by rewrite (proj2 (Z.ltb_lt _ _)).
Qed.

Lemma agree_end i x y :
  string_ok x -> string_ok y -> agree i x y -> chr i x = endch -> chr i y = endch -> key x = key y.
Proof.
  intros Hx Hy (Ht & Hlx & Hly) Hcx Hcy.
  rewrite <- (take_drop i (key x)), <- (take_drop i (key y)), Ht, (drop_chr i x), (drop_chr i y), Hcx, Hcy by done.
  apply (chr_end x i) in Hcx; [|done..]. apply (chr_end y i) in Hcy; [|done..].
  by rewrite !drop_ge by lia.
Qed.

(** Strings with the same character agree further, unless they have ended. *)
Lemma agree_next i x y :
  string_ok x -> string_ok y -> agree i x y -> chr i x = chr i y -> chr i x <> endch -> agree (S i) x y.
Proof.
  intros Hx Hy (Ht & Hlx & Hly) Hc Hne. unfold agree.
  rewrite (take_S_r (key x) i (chr i x)), (take_S_r (key y) i (chr i y)), Ht, Hc
    by (unfold chr; by apply list_lookup_lookup_total_lt).
  split; [done|]. pose proof (chr_end x i Hx Hlx) as Ex. pose proof (chr_end y i Hy Hly) as Ey.
  rewrite <- Hc in Ey. assert (S i <> length (key x)) by tauto. assert (S i <> length (key y)) by tauto. lia.
Qed.

Lemma agree_eqv i x y : agree i x y -> cmp x y = 0 -> chr i x = chr i y.
Proof.
  intros Ha. rewrite (agree_drop i) by done. destruct Ha as (_ & Hx & Hy). rewrite (drop_chr i x), (drop_chr i y) by done. cbn [lex].
  destruct (Z.ltb_spec (chr i x) (chr i y)), (Z.ltb_spec (chr i y) (chr i x)); lia.
Qed.

(** ** The comparison of the insertion sort *)

Lemma ss_compare_ok fuel x y i :
  string_ok x -> string_ok y -> agree i x y -> (length (key x) - i < fuel)%nat ->
  ss_compare str tr endch fuel x y (Z.of_nat i) = Ok (bool_decide (0 <= cmp x y)).
Proof.
  intros Hx Hy. revert i. induction fuel as [|fuel IH]; intros i Ha Hf; [lia|]. simpl.
  pose proof Ha as (_ & Hlx & Hly).
  destruct (tr_at_key x i Hx Hlx) as [-> _], (tr_at_key y i Hy Hly) as [-> _]. cbn [rbind].
  rewrite Z.geb_leb. destruct (Z.eqb_spec (chr i x) endch) as [He|He]; simpl.
  - f_equal. destruct (Z.leb_spec (chr i y) (chr i x)) as [Hle|Hlt]; symmetry.
    + apply bool_decide_eq_true. destruct (Z.eq_dec (chr i x) (chr i y)) as [Hc|Hc].
      * unfold cmp. rewrite (agree_end i x y Hx Hy Ha He ltac:(congruence)), lex_refl. lia.
      * assert (agree i y x) as Ha' by (destruct Ha as (? & ? & ?); by split_and!).
        assert (cmp y x < 0) by (apply (agree_chr i); [done|lia]). pose proof (lex_antisym (key y) (key x)).
        unfold cmp in *. lia.
    + apply bool_decide_eq_false. pose proof (agree_chr i x y Ha Hlt). lia.
  - destruct (Z.eqb_spec (chr i x) (chr i y)) as [Hc|Hc].
    + replace (Z.of_nat i + 1) with (Z.of_nat (S i)) by lia. apply IH; [by apply agree_next|lia].
    + f_equal. destruct (Z.leb_spec (chr i y) (chr i x)) as [Hle|Hlt]; symmetry.
      * apply bool_decide_eq_true.
        assert (agree i y x) as Ha' by (destruct Ha as (? & ? & ?); by split_and!).
        assert (cmp y x < 0) by (apply (agree_chr i); [done|lia]). pose proof (lex_antisym (key y) (key x)).
        unfold cmp in *. lia.
      * apply bool_decide_eq_false. pose proof (agree_chr i x y Ha Hlt). lia.
Qed.

(** ** The insertion sort *)

(** Strings that all agree before a position. *)
Definition grp (i : nat) (xs : list A) : Prop :=
  Forall string_ok xs /\ forall x y, x ∈ xs -> y ∈ xs -> agree i x y.

Lemma grp_sub i xs ys : grp i xs -> ys ⊆ xs -> grp i ys.
Proof.
  intros [Hs Ha] Hsub. split; [|auto]. apply Forall_forall. intros x Hx.
  by apply (proj1 (Forall_forall _ _) Hs), Hsub.
Qed.

#[local] Abbreviation R := (fun x y => cmp x y <= 0).

Lemma ss_insert_ok fuel pre ys x zs post i :
  grp i (ys ++ x :: zs) -> (length ys < fuel)%nat ->
  exists ys1 ys2, ys = ys1 ++ ys2 /\
    ss_insert str tr endch fuel (pre ++ (ys ++ x :: zs) ++ post) (Z.of_nat (length pre))
      (Z.of_nat (length pre) + Z.of_nat (length ys)) (Z.of_nat i)
    = Ok (pre ++ (ys1 ++ x :: ys2 ++ zs) ++ post) /\
    Forall (fun y => 0 < cmp y x) ys2 /\ (forall w ws, ys1 = ws ++ [w] -> cmp w x <= 0).
Proof.
  revert ys zs. induction fuel as [|fuel IH]; intros ys zs Hg Hf; [lia|]. cbn [ss_insert]. rewrite Z.gtb_ltb.
  destruct ys as [|y ys _] using rev_ind.
  { rewrite (proj2 (Z.ltb_ge _ _)) by (simpl; lia). exists [], []. split_and!; try done. by intros w []. }
  rewrite length_app in *. change (length [y]) with 1%nat in *. rewrite (proj2 (Z.ltb_lt _ _)) by (simpl; lia). cbn [negb].
  replace (Z.of_nat (length pre) + Z.of_nat (length ys + 1)) with (Z.of_nat (length pre) + Z.of_nat (S (length ys))) by lia.
  replace (Z.of_nat (length pre) + Z.of_nat (S (length ys)) - 1) with (Z.of_nat (length pre) + Z.of_nat (length ys)) by lia.
  assert (((ys ++ [y]) ++ x :: zs) !! length ys = Some y) as Hy
    by (rewrite <- app_assoc; by apply list_lookup_middle).
  assert (((ys ++ [y]) ++ x :: zs) !! S (length ys) = Some x) as Hx
    by (apply list_lookup_middle; rewrite length_app; simpl; lia).
  rewrite (arr_get_mid _ _ _ _ _ Hx), (arr_get_mid _ _ _ _ _ Hy). cbn [rbind].
  destruct Hg as [Hs Ha].
  assert (string_ok x /\ string_ok y) as [Sx Sy] by (split; eapply (proj1 (Forall_forall _ _) Hs); set_solver).
  assert (agree i x y) as Hxy by (apply Ha; set_solver).
  rewrite (ss_compare_ok _ x y i Sx Sy Hxy) by (destruct (cut_spec _ (proj1 Sx) (proj2 Sx)); unfold key; lia).
  cbn [rbind]. case_bool_decide as Hc.
  - exists (ys ++ [y]), []. rewrite app_nil_r. split_and!; [done|done|constructor|].
    intros w ws [_ [= <-]]%app_inj_tail. pose proof (lex_antisym (key x) (key y)). unfold cmp in *.
    pose proof (lex_antisym (key y) (key x)). lia.
  - rewrite (arr_swap_mid _ _ _ _ _ _ Hy Hx). cbn [rbind].
    assert (<[length ys := x]> (<[S (length ys) := y]> ((ys ++ [y]) ++ x :: zs)) = ys ++ x :: y :: zs) as ->.
    { replace (S (length ys)) with (length (ys ++ [y]) + 0)%nat by (rewrite length_app; simpl; lia).
      rewrite insert_app_r. simpl. rewrite <- app_assoc.
      replace (length ys) with (length ys + 0)%nat by lia. by rewrite insert_app_r. }
    destruct (IH ys (y :: zs)) as (ys1 & ys2 & -> & -> & H2 & H1).
    + apply (grp_sub i ((ys ++ [y]) ++ x :: zs)); [by split|]. set_solver.
    + lia.
    + exists ys1, (ys2 ++ [y]). rewrite <- !app_assoc. split_and!; try done.
      apply Forall_app. split; [done|]. constructor; [|done]. apply lex_antisym. unfold cmp in Hc. lia.
Qed.

Lemma ss_loop_ok rounds pre ys zs post i :
  grp i (ys ++ zs) -> rounds = length zs ->
  exists rs, ss_loop str tr endch rounds (pre ++ (ys ++ zs) ++ post) (Z.of_nat (length pre))
      (Z.of_nat (length pre) + Z.of_nat (length ys)) (Z.of_nat i) = Ok (pre ++ rs ++ post) /\
    rs ≡ₚ ys ++ zs /\ (StronglySorted R ys -> StronglySorted R rs /\ stable cmp (ys ++ zs) rs).
Proof.
  revert ys zs. induction rounds as [|rounds IH]; intros ys zs Hg Hr.
  - destruct zs; [|done]. exists ys. rewrite app_nil_r. split_and!; try done.
  - destruct zs as [|x zs]; [done|]. simpl in Hr. cbn [ss_loop].
    replace (Z.of_nat (length pre) + Z.of_nat (length ys) - Z.of_nat (length pre)) with (Z.of_nat (length ys)) by lia.
    destruct (ss_insert_ok (S (Z.to_nat (Z.of_nat (length ys)))) pre ys x zs post i Hg ltac:(lia))
      as (ys1 & ys2 & Hys & -> & H2 & H1). cbn [rbind].
    assert (grp i ((ys1 ++ x :: ys2) ++ zs)) as Hg'.
    { apply (grp_sub _ _ _ Hg). rewrite Hys. set_solver. }
    destruct (IH (ys1 ++ x :: ys2) zs Hg' ltac:(lia)) as (rs & He & Hp & Hs).
    replace (Z.of_nat (length pre) + Z.of_nat (length ys) + 1) with
      (Z.of_nat (length pre) + Z.of_nat (length (ys1 ++ x :: ys2)))
      by (rewrite Hys, !length_app; simpl; lia).
    rewrite <- (app_assoc ys1 (x :: ys2) zs) in He. simpl in He. rewrite He. exists rs. split_and!; [done| |].
    + rewrite Hp, Hys. solve_Permutation.
    + intros Hsy. rewrite Hys in Hsy. destruct Hs as [Hsr Hst]; [apply (sorted_insert cmp); assumption|]. split; [done|].
      eapply stable_trans; [|exact Hst]. rewrite Hys.
      change (x :: zs) with ([x] ++ zs). rewrite app_assoc. apply stable_app; [|apply stable_refl]. apply (stable_insert cmp); assumption.
Qed.

(** Sorted, with the same strings, and in the stable sort with equal strings
    in their order. *)
Definition sorts (xs rs : list A) : Prop :=
  rs ≡ₚ xs /\ StronglySorted R rs /\ stable cmp xs rs.

Lemma simplesort_ok pre xs post i :
  grp i xs ->
  exists rs, simplesort str tr endch (pre ++ xs ++ post) (Z.of_nat (length pre)) (Z.of_nat (length xs)) (Z.of_nat i)
    = Ok (pre ++ rs ++ post) /\ sorts xs rs.
Proof.
  intros Hg. unfold simplesort. destruct xs as [|x xs].
  - exists []. split; [done|]. split_and!; [done|constructor|apply stable_refl].
  - destruct (ss_loop_ok (length xs) pre [x] xs post i Hg eq_refl) as (rs & He & Hp & Hs).
    change (Z.of_nat (length [x])) with 1 in He.
    replace (Z.to_nat (Z.of_nat (length (x :: xs)) - 1)) with (length xs) by (simpl; lia).
    change (x :: xs) with ([x] ++ xs). rewrite He. exists rs. split; [done|]. split; [done|]. apply Hs. repeat constructor.
Qed.

(** ** Classes of a position *)

Section Classes.
Context (i : nat).
Implicit Types (xs ys : list A) (c d : nat).

(** How many strings have the character [c], and how many a smaller one. *)
Definition cn c xs : nat := length (filter (fun x => chr i x = Z.of_nat c) xs).
Definition start c xs : nat := length (filter (fun x => chr i x < Z.of_nat c) xs).

#[export] Instance cn_proper c : Proper ((≡ₚ) ==> (=)) (cn c).
Proof. intros xs ys E. unfold cn. by rewrite E. Qed.
#[export] Instance start_proper c : Proper ((≡ₚ) ==> (=)) (start c).
Proof. intros xs ys E. unfold start. by rewrite E. Qed.

Lemma cn_cons c x xs : cn c (x :: xs) = ((if decide (chr i x = Z.of_nat c) then 1 else 0) + cn c xs)%nat.
Proof. unfold cn. rewrite filter_cons. by case_decide. Qed.

Lemma start_cons c x xs : start c (x :: xs) = ((if decide (chr i x < Z.of_nat c)%Z then 1 else 0) + start c xs)%nat.
Proof. unfold start. rewrite filter_cons. by case_decide. Qed.

Lemma start_S c xs : start (S c) xs = (start c xs + cn c xs)%nat.
Proof.
  induction xs as [|x xs IH]; [done|]. rewrite !start_cons, cn_cons, IH.
  repeat case_decide; lia.
Qed.

Lemma start_mono c d xs : (c <= d)%nat -> (start c xs <= start d xs)%nat.
Proof. induction 1 as [|d _ IH]; [done|]. rewrite start_S. lia. Qed.

Definition bytes xs : Prop := Forall (fun x => byte (chr i x)) xs.

Lemma start_0 xs : bytes xs -> start 0 xs = 0%nat.
Proof.
  induction 1 as [|x xs Hx _ IH]; [done|]. rewrite start_cons, IH. unfold byte in Hx. case_decide; lia.
Qed.

Lemma start_all xs : bytes xs -> start 256 xs = length xs.
Proof.
  induction 1 as [|x xs Hx _ IH]; [done|]. rewrite start_cons, IH. unfold byte in Hx. simpl. case_decide; lia.
Qed.

Lemma start_gap c d xs : (c <= d)%nat -> (forall e, (c <= e < d)%nat -> cn e xs = 0%nat) -> start d xs = start c xs.
Proof.
  induction 1 as [|d Hd IH]; intros He; [done|]. rewrite start_S, IH by (intros e ?; apply He; lia).
  rewrite He by lia. lia.
Qed.

(** The occupied classes from [c] on, without the end of strings. *)
Definition occ c xs : list nat :=
  filter (fun d => Z.of_nat d <> endch /\ (0 < cn d xs)%nat) (seq c (256 - c)).

(** ** Histograms *)

Record hist_is xs (st : statics) : Prop := {
  h_count : count st = (fun c => Z.of_nat (cn c xs)) <$> seq 0 256;
  h_nc : nc st = Z.of_nat (length (occ 0 xs));
  h_bmin : 0 <= bmin st <= 255;
  h_least : forall c, c ∈ occ 0 xs -> bmin st <= Z.of_nat c;
  h_occ : (0 < length (occ 0 xs))%nat -> Z.to_nat (bmin st) ∈ occ 0 xs;
  h_none : length (occ 0 xs) = 0%nat -> bmin st = 255
}.

Lemma hist_get xs st (c : Z) : hist_is xs st -> byte c -> arr_get (count st) c = Ok (Z.of_nat (cn (Z.to_nat c) xs)).
Proof.
  intros H Hc. unfold byte in Hc. apply arr_get_ok; [lia|]. rewrite (h_count _ _ H), list_lookup_fmap.
  rewrite lookup_seq_lt by lia. done.
Qed.

(** A histogram with one more string. *)
Lemma hist_add_ok xs x st :
  hist_is xs st -> byte (chr i x) ->
  exists st', hist_add endch (chr i x) st = Ok st' /\ hist_is (x :: xs) st'.
Proof.
  intros H Hb. unfold hist_add. rewrite (hist_get xs) by done. cbn [rbind]. unfold byte in Hb.
  set (c := Z.to_nat (chr i x)). assert (chr i x = Z.of_nat c) as Hc by lia.
  assert (length (count st) = 256%nat) as Hlen by (rewrite (h_count _ _ H); by rewrite length_fmap, length_seq).
  rewrite arr_set_ok by lia. cbn [rbind]. fold c.
  assert (<[c := Z.of_nat (cn c xs) + 1]> (count st) = (fun d => Z.of_nat (cn d (x :: xs))) <$> seq 0 256) as Hcount.
  { rewrite (h_count _ _ H). apply list_eq. intros d. destruct (decide (d = c)) as [->|Hne].
    - rewrite list_lookup_insert_eq by (rewrite length_fmap, length_seq; lia).
      rewrite list_lookup_fmap, lookup_seq_lt by lia. simpl. rewrite cn_cons, decide_True by lia. f_equal. lia.
    - rewrite list_lookup_insert_ne by done. rewrite !list_lookup_fmap.
      destruct (decide (d < 256)%nat); [|by rewrite !lookup_seq_ge by lia].
      rewrite !lookup_seq_lt by lia. simpl. by rewrite cn_cons, decide_False by lia. }
  assert (forall d, d ∈ occ 0 (x :: xs) <-> d ∈ occ 0 xs \/ d = c /\ chr i x <> endch) as Hocc.
  { intros d. unfold occ. rewrite !list_elem_of_filter, elem_of_seq, cn_cons. case_decide; [|split; [tauto|]].
    - assert (d = c) as -> by lia. split; [|lia]. intros [[? _] _]. right. split; [done|lia].
    - intros [?|[-> _]]; [tauto|lia]. }
  destruct ((Z.of_nat (cn c xs) + 1 =? 1) && negb (chr i x =? endch)) eqn:Hnew; eexists; (split; [done|]).
  - apply andb_true_iff in Hnew as [Hz%Z.eqb_eq Hne%negb_true_iff%Z.eqb_neq].
    assert (length (occ 0 (x :: xs)) = S (length (occ 0 xs))) as Hl.
    { apply (filter_one_more _ _ _ c); [apply NoDup_seq|apply elem_of_seq; lia|lia|].
      intros d. rewrite cn_cons. case_decide as Hd.
      - assert (d = c) as -> by lia. split; [auto|]. intros _. split; lia.
      - split; [tauto|]. intros [?|Hdc]; [done|]. lia. }
    split; simpl; try done.
    + rewrite (h_nc _ _ H), Hl. lia.
    + pose proof (h_bmin _ _ H). case_match; lia.
    + intros d [Hd|[-> _]]%Hocc; [pose proof (h_least _ _ H d Hd)|]; destruct (Z.ltb_spec (chr i x) (bmin st)); lia.
    + intros _. apply Hocc. destruct (Z.ltb_spec (chr i x) (bmin st)) as [Hlt|Hge]; [by right|].
      destruct (decide (0 < length (occ 0 xs))%nat) as [Hp|Hp]; [left; by apply (h_occ _ _ H)|].
      right. split; [|lia]. rewrite (h_none _ _ H) in * by lia. lia.
    + lia.
  - assert (cn c xs <> 0%nat \/ chr i x = endch) as Hold.
    { apply andb_false_iff in Hnew as [Hz%Z.eqb_neq|Hz%negb_false_iff%Z.eqb_eq]; [left; lia|by right]. }
    assert (occ 0 (x :: xs) = occ 0 xs) as Hsame.
    { apply filter_ext_in. intros d Hd. rewrite cn_cons. case_decide as Hdc; [|done].
      assert (d = c) as -> by lia. split; [|lia]. intros [He _]. split; [done|]. lia. }
    split; simpl; rewrite ?Hsame; try done; apply H.
Qed.

Lemma hist_perm xs ys st : xs ≡ₚ ys -> hist_is xs st -> hist_is ys st.
Proof.
  intros E H. assert (occ 0 ys = occ 0 xs) as Ho.
  { apply filter_ext_in. intros d _. by rewrite E. }
  split; rewrite ?Ho; try apply H. rewrite (h_count _ _ H). apply list_fmap_ext. intros _ c _. by rewrite E.
Qed.

(** The loops that make a histogram. *)
Lemma hist_up_ok pre xs ys zs post st :
  grp i (xs ++ ys) -> hist_is zs st ->
  exists st', hist_up str tr endch (length ys) (pre ++ (xs ++ ys) ++ post)
      (Z.of_nat (length pre) + Z.of_nat (length xs)) (Z.of_nat i) st = Ok st' /\ hist_is (ys ++ zs) st'.
Proof.
  revert xs zs st. induction ys as [|y ys IH]; intros xs zs st Hg H; [by exists st|]. cbn [hist_up length].
  rewrite (arr_get_mid _ _ _ _ y) by (by apply list_lookup_middle). cbn [rbind].
  assert (string_ok y /\ (i < length (key y))%nat) as [Sy Ly].
  { destruct Hg as [Hs Ha]. split; [eapply (proj1 (Forall_forall _ _) Hs); set_solver|].
    by destruct (Ha y y) as (_ & ? & _); set_solver. }
  destruct (tr_at_key y i Sy Ly) as [-> Hb]. cbn [rbind].
  destruct (hist_add_ok zs y st H Hb) as (st1 & -> & H1). cbn [rbind].
  destruct (IH (xs ++ [y]) (y :: zs) st1) as (st2 & He & H2); [by rewrite <- app_assoc|done|].
  rewrite <- (app_assoc xs [y] ys), length_app in He. simpl in He.
  replace (Z.of_nat (length pre) + Z.of_nat (length xs) + 1) with
    (Z.of_nat (length pre) + Z.of_nat (length xs + 1)) by lia.
  rewrite He. exists st2. split; [done|]. eapply hist_perm; [|exact H2]. solve_Permutation.
Qed.

Lemma hist_down_ok pre xs ys zs post st :
  grp i (xs ++ ys) -> hist_is zs st ->
  exists st', hist_down str tr endch (length xs) (pre ++ (xs ++ ys) ++ post)
      (Z.of_nat (length pre) + Z.of_nat (length xs)) (Z.of_nat i) st = Ok st' /\ hist_is (xs ++ zs) st'.
Proof.
  revert ys zs st. induction xs as [|y xs IH] using rev_ind; intros ys zs st Hg H; [by exists st|].
  rewrite length_app, Nat.add_comm. cbn [hist_down length Nat.add].
  replace (Z.of_nat (length pre) + Z.of_nat (S (length xs)) - 1) with
    (Z.of_nat (length pre) + Z.of_nat (length xs)) by lia.
  rewrite <- (app_assoc xs [y] ys) in *. simpl in Hg |- *.
  rewrite (arr_get_mid _ _ _ _ y) by (by apply list_lookup_middle). cbn [rbind].
  assert (string_ok y /\ (i < length (key y))%nat) as [Sy Ly].
  { destruct Hg as [Hs Ha]. split; [eapply (proj1 (Forall_forall _ _) Hs); set_solver|].
    by destruct (Ha y y) as (_ & ? & _); set_solver. }
  destruct (tr_at_key y i Sy Ly) as [-> Hb]. cbn [rbind].
  destruct (hist_add_ok zs y st H Hb) as (st1 & -> & H1). cbn [rbind].
  destruct (IH (y :: ys) (y :: zs) st1 Hg H1) as (st2 & -> & H2).
  exists st2. split; [done|]. eapply hist_perm; [|exact H2]. solve_Permutation.
Qed.

(** ** The piles of a histogram *)

Lemma occ_cons cp xs c rest :
  occ cp xs = c :: rest ->
  (cp <= c < 256)%nat /\ Z.of_nat c <> endch /\ (0 < cn c xs)%nat /\ rest = occ (S c) xs /\
  (forall d, (cp <= d < c)%nat -> Z.of_nat d = endch \/ cn d xs = 0%nat).
Proof.
  unfold occ. remember (256 - cp)%nat as m eqn:Hm. revert cp Hm.
  induction m as [|m IH]; intros cp Hm; [done|]. cbn [seq]. rewrite filter_cons. case_decide as Hd.
  - intros [= <- <-]. split_and!; try tauto; try lia. by replace (256 - S cp)%nat with m by lia.
  - intros Hc. destruct (IH (S cp) ltac:(lia) Hc) as (Hr & He & Hn & -> & Hall). split_and!; try done; try lia.
    intros d Hdr. destruct (decide (d = cp)) as [->|]; [|apply Hall; lia].
    destruct (decide (Z.of_nat cp = endch)); [by left|right]. destruct (cn cp xs); [done|]. destruct Hd. split; [done|lia].
Qed.

Lemma elem_occ cp xs c : c ∈ occ cp xs <-> (cp <= c < 256)%nat /\ Z.of_nat c <> endch /\ (0 < cn c xs)%nat.
Proof. clear Hend. unfold occ. rewrite list_elem_of_filter, elem_of_seq. lia. Qed.

Lemma next_pile_ok fuel cnt cp c v :
  (cp <= c)%nat -> (c - cp < fuel)%nat ->
  (forall d, (cp <= d < c)%nat -> cnt !! d = Some 0) -> cnt !! c = Some v -> v <> 0 ->
  next_pile fuel cnt (Z.of_nat cp) = Ok (Z.of_nat c, v).
Proof.
  revert cp. induction fuel as [|fuel IH]; intros cp Hle Hf H0 Hc Hv; [lia|]. cbn [next_pile].
  destruct (decide (cp = c)) as [->|Hne].
  - rewrite (arr_get_ok _ _ v) by (rewrite ?Nat2Z.id; done || lia). cbn [rbind]. by rewrite (proj2 (Z.eqb_neq _ _)).
  - rewrite (arr_get_ok _ _ 0) by (lia || rewrite Nat2Z.id; apply H0; lia). cbn [rbind]. rewrite Z.eqb_refl.
    replace (Z.of_nat cp + 1) with (Z.of_nat (S cp)) by lia. apply IH; try done; try lia. intros d ?. apply H0. lia.
Qed.

(** The bins that go on the stack. *)
Definition bin_frame (a : Z) xs c : frame :=
  Frame (a + Z.of_nat (start c xs)) (Z.of_nat (cn c xs)) (Z.of_nat i + 1).
Definition big xs : list nat -> list nat := filter (fun c => (1 < cn c xs)%nat).

Record bins_set (reset : bool) (a : Z) xs (cp : nat) (s : list frame) (top : list (option Z)) (cnt : list Z) (sp0 : Z)
    (s' : list frame) (top' : list (option Z)) (cnt' : list Z) (sp1' : Z) : Prop := {
  bs_stack : s' = s ++ (bin_frame a xs <$> big xs (occ cp xs));
  bs_len : length top' = 256%nat;
  bs_top : forall c, c ∈ occ cp xs -> top' !! c = Some (Some (a + Z.of_nat (start (S c) xs)));
  bs_other : forall c, ~ c ∈ occ cp xs -> top' !! c = top !! c;
  bs_cnt : cnt' = if reset then imap (fun c v => if decide (c ∈ occ cp xs) then 0 else v) cnt else cnt;
  bs_sp1 : sp1' = sp0 \/ sp0 <= sp1' < Z.of_nat (length s')
}.

Lemma set_bins_ok reset rounds cnt cp a s top sp0 sp1 bigc xs :
  rounds = length (occ cp xs) -> (endch = 0 -> (1 <= cp)%nat) ->
  length cnt = 256%nat -> length top = 256%nat ->
  (forall c, (cp <= c < 256)%nat -> Z.of_nat c <> endch -> cnt !! c = Some (Z.of_nat (cn c xs))) ->
  Z.of_nat (length s + length (occ cp xs)) <= SIZE ->
  sp0 <= Z.of_nat (length s) -> sp1 = sp0 \/ sp0 <= sp1 < Z.of_nat (length s) ->
  exists s' top' cnt' sp1',
    set_bins reset rounds cnt (Z.of_nat cp) (a + Z.of_nat (start cp xs)) (Z.of_nat i) s top sp1 bigc
      = Ok (s', top', cnt', sp1') /\ bins_set reset a xs cp s top cnt sp0 s' top' cnt' sp1'.
Proof.
  revert cnt cp s top sp1 bigc.
  induction rounds as [|rounds IH]; intros cnt cp s top sp1 bigc Hr He Hcl Htl Hcnt Hs Hsp0 Hsp1.
  { destruct (occ cp xs) eqn:Ho; [|done]. do 4 eexists. split; [done|].
    split; rewrite ?Ho; simpl; try done.
    - by rewrite app_nil_r.
    - by intros c ?%elem_of_nil.
    - destruct reset; [|done]. symmetry. apply list_eq. intros c. rewrite list_lookup_imap. by destruct (cnt !! c). }
  destruct (occ cp xs) as [|c rest] eqn:Ho; [done|]. simpl in Hr, Hs.
  destruct (occ_cons cp xs c rest Ho) as (Hcr & Hce & Hcn & -> & Hgap).
  assert (start c xs = start cp xs) as Hst.
  { apply start_gap; [lia|]. intros d Hd. destruct (Hgap d Hd) as [Hde|]; [|done].
    destruct Hend as [H0|H0]; [specialize (He H0)|]; lia. }
  cbn [set_bins]. rewrite (next_pile_ok 257 cnt cp c (Z.of_nat (cn c xs))).
  2-3: lia.
  2: { intros d Hd. destruct (Hgap d Hd) as [Hde|Hz].
       - destruct Hend as [H0|H0]; [specialize (He H0)|]; lia.
       - rewrite Hcnt; [by rewrite Hz|lia|]. intros Hde. destruct Hend as [H0|H0]; [specialize (He H0)|]; lia. }
  2: { apply Hcnt; [lia|done]. }
  2: lia.
  cbn [rbind].
  set (s1 := if decide (1 < cn c xs)%nat then s ++ [bin_frame a xs c] else s).
  assert (exists sp1' bigc', (sp1' = sp0 \/ sp0 <= sp1' < Z.of_nat (length s1)) /\
    (if Z.of_nat (cn c xs) >? 1 then
       let '(sp1, bigc) := if Z.of_nat (cn c xs) >? bigc then (Z.of_nat (length s), Z.of_nat (cn c xs)) else (sp1, bigc) in
       let! s := push s (Frame (a + Z.of_nat (start cp xs)) (Z.of_nat (cn c xs)) (Z.of_nat i + 1)) in Ok (s, sp1, bigc)
     else Ok (s, sp1, bigc)) = Ok (s1, sp1', bigc')) as (sp1' & bigc' & Hsp1' & ->).
  { unfold s1, bin_frame. rewrite Hst, Z.gtb_ltb. destruct (Z.ltb_spec 1 (Z.of_nat (cn c xs))) as [Hb|Hb].
    - rewrite decide_True by lia. unfold push. rewrite (proj2 (Z.ltb_lt (Z.of_nat (length s)) SIZE)) by lia.
      rewrite length_app. simpl. destruct (Z.of_nat (cn c xs) >? bigc); do 2 eexists; (split; [|done]); lia.
    - rewrite decide_False by lia. eauto. }
  cbn [rbind]. rewrite arr_set_ok by lia. cbn [rbind]. rewrite Nat2Z.id.
  set (cnt1 := if reset then <[c := 0]> cnt else cnt).
  assert ((if reset then arr_set cnt (Z.of_nat c) 0 else Ok cnt) = Ok cnt1) as ->.
  { unfold cnt1. destruct reset; [|done]. rewrite arr_set_ok by lia. by rewrite Nat2Z.id. }
  cbn [rbind].
  assert (a + Z.of_nat (start cp xs) + Z.of_nat (cn c xs) = a + Z.of_nat (start (S c) xs)) as ->
    by (rewrite start_S, Hst; lia).
  replace (Z.of_nat c + 1) with (Z.of_nat (S c)) by lia.
  set (top1 := <[c := Some (a + Z.of_nat (start (S c) xs))]> top).
  assert (length s <= length s1 <= S (length s))%nat as Hs1
    by (unfold s1; case_decide; rewrite ?length_app; simpl; lia).
  destruct (IH cnt1 (S c) s1 top1 sp1' bigc') as (s' & top' & cnt' & sp2 & -> & B); try lia.
  - unfold cnt1. destruct reset; rewrite ?length_insert; done.
  - unfold top1. by rewrite length_insert.
  - intros d Hd Hde. unfold cnt1. destruct reset; [rewrite list_lookup_insert_ne by lia|]; apply Hcnt; done || lia.
  - do 4 eexists. split; [done|]. destruct B as [B1 B2 B3 B4 B5 B6]. split; try done.
    + rewrite B1, Ho. unfold s1, big. rewrite filter_cons. case_decide; csimpl; [|done]. by rewrite <- app_assoc.
    + rewrite Ho. intros d [->|Hd]%elem_of_cons; [|by apply B3].
      rewrite B4 by (rewrite elem_occ; lia). unfold top1. by rewrite list_lookup_insert_eq by lia.
    + rewrite Ho. intros d Hd. rewrite not_elem_of_cons in Hd. rewrite B4 by tauto.
      unfold top1. by rewrite list_lookup_insert_ne by naive_solver.
    + rewrite B5, Ho. unfold cnt1. destruct reset; [|done]. apply list_eq. intros d.
      rewrite !list_lookup_imap. destruct (decide (d = c)) as [->|Hne].
      * rewrite list_lookup_insert_eq by lia. destruct (lookup_lt_is_Some_2 cnt c) as [v ->]; [lia|]. simpl.
        rewrite (decide_True (P := c ∈ c :: _)) by (left; done). by case_decide.
      * rewrite list_lookup_insert_ne by done. destruct (cnt !! d); [|done]. simpl. f_equal.
        apply decide_ext. rewrite elem_of_cons. tauto.
Qed.

End Classes.
End Keys.
#[export] Existing Instance radix_comparator.
