(* ===== verification/RadixDeal.v ===== *)
(** * RadixDeal: dealing strings to their bins

    The stable sort deals a copy of the strings; the in-place sort moves each
    string to its bin and goes on with the one it finds there. *)

From stdpp Require Import sorting functions.
From S2P Require Import Prelude Sort SortBase MergeThms Radix RadixBins.
Import Radix.

Section Deal.
Context {A : Type} `{!Inhabited A} (str : A -> list Z) (tr : list Z) (endch : Z).
Context (Htab : table_ok tr) (Hend : endch = 0 \/ endch = 255).
Context (i : nat).

#[local] Abbreviation key := (key str tr endch).
#[local] Abbreviation cmp := (cmp str tr endch).
#[local] Abbreviation chr := (chr str tr endch i).
#[local] Abbreviation cn := (cn str tr endch i).
#[local] Abbreviation start := (start str tr endch i).
#[local] Abbreviation start_S := (start_S str tr endch i).
#[local] Abbreviation start_mono := (start_mono str tr endch i).
#[local] Abbreviation grp := (grp str tr endch i).
#[local] Abbreviation R := (fun x y => cmp x y <= 0).
Implicit Types (xs ys zs L : list A) (c d m : nat).

Lemma grp_bytes xs : grp xs -> Forall (fun x => byte (chr x)) xs.
Proof.
  intros [Hs Ha]. apply Forall_forall. intros x Hx.
  destruct (Ha x x Hx Hx) as (_ & Hl & _).
  by destruct (tr_at_key str tr endch Htab x i (proj1 (Forall_forall _ _) Hs x Hx) Hl).
Qed.

Lemma grp_tr_at xs x : grp xs -> x ∈ xs -> tr_at str tr x (Z.of_nat i) = Ok (chr x) /\ byte (chr x).
Proof.
  intros [Hs Ha] Hx. destruct (Ha x x Hx Hx) as (_ & Hl & _).
  by apply (tr_at_key str tr endch Htab x i (proj1 (Forall_forall _ _) Hs x Hx)).
Qed.

(** ** The bins of a list *)

(** The part of [L] where the class [c] of [xs] belongs. *)
Definition bin xs c L : list A := take (cn c xs) (drop (start c xs) L).

Lemma bins_concat xs m L : Forall (fun x => byte (chr x)) xs ->
  take (start m xs) L = concat ((fun c => bin xs c L) <$> seq 0 m).
Proof.
  intros Hb. induction m as [|m IH].
  - rewrite (start_0 str tr endch) by done. done.
  - rewrite seq_S, fmap_app, concat_app, <- IH. simpl. rewrite app_nil_r, start_S. unfold bin.
    by rewrite take_take_drop.
Qed.

Lemma bins_all xs L : Forall (fun x => byte (chr x)) xs -> length L = length xs ->
  concat ((fun c => bin xs c L) <$> seq 0 256) = L.
Proof.
  intros Hb Hl. rewrite <- bins_concat by done. rewrite (start_all str tr endch), <- Hl by done. by apply take_ge.
Qed.

Lemma bin_length xs c L : Forall (fun x => byte (chr x)) xs -> length L = length xs -> (c < 256)%nat ->
  length (bin xs c L) = cn c xs.
Proof.
  intros Hb Hl Hc. unfold bin. rewrite length_take, length_drop.
  pose proof (start_S c xs). pose proof (start_mono (S c) 256 xs ltac:(lia)).
  rewrite (start_all str tr endch) in * by done. lia.
Qed.

Lemma bin_lookup xs c L k : (k < cn c xs)%nat -> bin xs c L !! k = L !! (start c xs + k)%nat.
Proof. intros Hk. unfold bin. rewrite lookup_take_lt by done. apply lookup_drop. Qed.

(** A class holds a place when no other does. *)
Lemma bin_disjoint xs c d p :
  (start c xs <= p < start (S c) xs)%nat -> (start d xs <= p < start (S d) xs)%nat -> c = d.
Proof.
  intros Hc Hd. destruct (decide (c < d)%nat) as [Hlt|].
  - pose proof (start_mono (S c) d xs ltac:(lia)). lia.
  - destruct (decide (d < c)%nat) as [Hlt|]; [|lia]. pose proof (start_mono (S d) c xs ltac:(lia)). lia.
Qed.

(** ** From sorted bins to a sorted list *)

(** The strings of each bin belong there. *)
Definition dealt xs ys : Prop :=
  ys ≡ₚ xs /\ forall c, (c < 256)%nat -> Forall (fun x => chr x = Z.of_nat c) (bin xs c ys).

Lemma concat_sorted xs (f : nat -> list A) m :
  grp xs -> (m <= 256)%nat ->
  (forall c, (c < m)%nat -> StronglySorted R (f c) /\ f c ⊆ xs /\ Forall (fun x => chr x = Z.of_nat c) (f c)) ->
  StronglySorted R (concat (f <$> seq 0 m)).
Proof.
  intros Hg Hm Hf. induction m as [|m IH]; [constructor|].
  rewrite seq_S, fmap_app, concat_app. simpl. rewrite app_nil_r.
  destruct (Hf m ltac:(lia)) as (Hs & Hsub & Hc). apply StronglySorted_app. split_and!; [|apply IH; [lia|auto]|done].
  intros x y Hx Hy.
  apply elem_of_concat_in in Hx as (zs & Hx & Hz). apply list_elem_of_fmap in Hz as (c & -> & Hcm%elem_of_seq).
  destruct (Hf c ltac:(lia)) as (_ & Hsub' & Hc').
  enough (cmp x y < 0) by lia. apply (agree_chr str tr endch i).
  - destruct Hg as [_ Ha]. apply Ha; [by apply Hsub'|by apply Hsub].
  - rewrite (proj1 (Forall_forall _ _) Hc' x Hx), (proj1 (Forall_forall _ _) Hc y Hy). lia.
Qed.

(** Equal strings are in the same bin. *)
Lemma stable_bins xs : grp xs -> stable cmp xs (concat ((fun c => filter (fun x => chr x = Z.of_nat c) xs) <$> seq 0 256)).
Proof.
  intros Hg z. assert (Forall (fun x => byte (chr x)) xs) as Hb by (by apply grp_bytes).
  set (P := fun x => cmp z x = 0).
  assert (filter P (concat ((fun c => filter (fun x => chr x = Z.of_nat c) xs) <$> seq 0 256)) =
    concat ((fun c => filter (fun x => chr x = Z.of_nat c) (filter P xs)) <$> seq 0 256)) as ->.
  { induction (seq 0 256) as [|c cs IH]; [done|]. csimpl. rewrite filter_app, IH. f_equal.
    rewrite !list_filter_filter. apply filter_ext_in. tauto. }
  destruct (filter P xs) as [|w ws] eqn:Hw.
  { by induction (seq 0 256). }
  assert (w ∈ filter P xs) as Hwx by (rewrite Hw; left). apply list_elem_of_filter in Hwx as [Pw Hwx].
  assert (forall x, x ∈ w :: ws -> chr x = chr w) as Hcl.
  { intros x Hx. rewrite <- Hw in Hx. apply list_elem_of_filter in Hx as [Px Hx]. symmetry.
    apply (agree_eqv str tr endch i); [by apply Hg|]. by apply (cmp_same cmp w x z). }
  rewrite Forall_forall in Hb. specialize (Hb w Hwx). unfold byte in Hb.
  assert (forall n, concat ((fun c => filter (fun x => chr x = Z.of_nat c) (w :: ws)) <$> seq 0 n) =
    if decide (chr w < Z.of_nat n) then w :: ws else []) as Hcat.
  { intros n. induction n as [|n IH]; [case_decide; [lia|done]|].
    rewrite seq_S, fmap_app, concat_app, IH. cbn [fmap list_fmap concat]. rewrite app_nil_r.
    destruct (decide (chr w = Z.of_nat n)) as [He|He].
    - rewrite decide_False, decide_True by lia. simpl. apply filter_all_in. intros x Hx. rewrite Hcl by done. lia.
    - rewrite filter_none_in by (intros x Hx; rewrite (Hcl x Hx); lia).
      rewrite app_nil_r. repeat case_decide; done || lia. }
  rewrite Hcat, decide_True by lia. done.
Qed.

Lemma concat_perm (f g : nat -> list A) (cs : list nat) :
  (forall c, c ∈ cs -> f c ≡ₚ g c) -> concat (f <$> cs) ≡ₚ concat (g <$> cs).
Proof.
  induction cs as [|c cs IH]; intros Hf; csimpl; [done|].
  rewrite (Hf c) by (left; done). rewrite IH; [done|]. intros d Hd. apply Hf. by right.
Qed.

Lemma concat_stable (f g : nat -> list A) (cs : list nat) :
  (forall c, c ∈ cs -> stable cmp (f c) (g c)) -> stable cmp (concat (f <$> cs)) (concat (g <$> cs)).
Proof.
  induction cs as [|c cs IH]; intros Hf; csimpl; [apply stable_refl|].
  apply stable_app; [apply Hf; by left|]. apply IH. intros d Hd. apply Hf. by right.
Qed.

(** What a sort owes: the stable one keeps the order of equal strings. *)
Definition sorted_as (st : bool) xs rs : Prop :=
  rs ≡ₚ xs /\ StronglySorted R rs /\ (st = true -> stable cmp xs rs).

Lemma sorted_combine (st : bool) xs ys rs :
  grp xs -> dealt xs ys -> length rs = length xs ->
  (forall c, (c < 256)%nat -> sorted_as st (bin xs c ys) (bin xs c rs) /\
     (st = true -> bin xs c ys = filter (fun x => chr x = Z.of_nat c) xs)) ->
  sorted_as st xs rs.
Proof.
  intros Hg [Hp Hcl] Hlen Hbins. pose proof (grp_bytes xs Hg) as Hb.
  assert (length ys = length xs) as Hly by (by rewrite Hp).
  assert (concat ((fun c => bin xs c rs) <$> seq 0 256) = rs) as Hr by (by apply bins_all).
  assert (concat ((fun c => bin xs c ys) <$> seq 0 256) = ys) as Hy by (by apply bins_all).
  assert (forall c, c ∈ seq 0 256 -> (c < 256)%nat) as Hseq by (intros c ?%elem_of_seq; lia).
  assert (rs ≡ₚ ys) as Hry.
  { rewrite <- Hr, <- Hy. apply concat_perm. intros c Hc. apply Hbins. auto. }
  split_and!.
  - by rewrite Hry.
  - rewrite <- Hr. apply (concat_sorted xs); [done..|]. intros c Hc. destruct (Hbins c Hc) as [(Hpc & Hsc & _) _].
    split_and!; [done| |].
    + intros x Hx. rewrite <- Hp, <- Hry, <- Hr. apply elem_of_concat_in. exists (bin xs c rs). split; [done|].
      apply list_elem_of_fmap. exists c. split; [done|]. apply elem_of_seq. lia.
    + rewrite Hpc. by apply Hcl.
  - intros ->. eapply stable_trans; [by apply stable_bins|]. rewrite <- Hr. apply concat_stable. intros c Hc.
    destruct (Hbins c (Hseq c Hc)) as [(_ & _ & Hst) Hf]. rewrite <- (Hf eq_refl). by apply Hst.
Qed.

(** ** Dealing a copy *)

Lemma copy_temp_ok (pre xs post ta : list A) :
  copy_temp (length xs) (pre ++ xs ++ post) (Z.of_nat (length pre) + Z.of_nat (length xs)) ta = Ok (xs ++ ta).
Proof.
  revert post ta. induction xs as [|x xs IH] using rev_ind; intros post ta; [done|].
  rewrite length_app, Nat.add_comm. cbn [copy_temp length Nat.add].
  replace (Z.of_nat (length pre) + Z.of_nat (S (length xs)) - 1) with
    (Z.of_nat (length pre) + Z.of_nat (length xs)) by lia.
  rewrite (arr_get_mid _ _ _ _ x) by (by apply list_lookup_middle). cbn [rbind].
  rewrite <- (app_assoc xs [x] post), IH, <- app_assoc. done.
Qed.

Lemma take_top_ok (top : list (option Z)) c v :
  (c < length top)%nat -> top !! c = Some (Some v) ->
  take_top top (Z.of_nat c) = Ok (v - 1, <[c := Some (v - 1)]> top).
Proof.
  intros Hc Ht. unfold take_top. rewrite (arr_get_ok _ _ (Some v)) by (rewrite ?Nat2Z.id; done || lia). cbn [rbind].
  rewrite arr_set_ok by lia. cbn [rbind]. by rewrite Nat2Z.id.
Qed.

(** After the strings [ys] at the end of [xs]: [top] and the places filled. *)
Record filled (a : Z) xs ys (top : list (option Z)) L : Prop := {
  f_top : length top = 256%nat;
  f_len : length L = length xs;
  f_at : forall c, (c < 256)%nat -> (0 < cn c xs)%nat ->
    top !! c = Some (Some (a + Z.of_nat (start (S c) xs - cn c ys)));
  f_in : forall c k, (c < 256)%nat -> (k < cn c ys)%nat ->
    L !! (start (S c) xs - cn c ys + k)%nat = filter (fun x => chr x = Z.of_nat c) ys !! k
}.

Lemma cn_app_le c zs ys : (cn c ys <= cn c (zs ++ ys))%nat.
Proof. unfold RadixBins.cn. rewrite filter_app, length_app. lia. Qed.

Lemma filled_step pre post xs zs x ys top L :
  grp xs -> xs = (zs ++ [x]) ++ ys -> filled (Z.of_nat (length pre)) xs ys top L ->
  exists c L' top', tr_at str tr x (Z.of_nat i) = Ok (Z.of_nat c) /\ (c < 256)%nat /\
    take_top top (Z.of_nat c) = Ok (Z.of_nat (length pre) + Z.of_nat (start (S c) xs - S (cn c ys)), top') /\
    arr_set (pre ++ L ++ post) (Z.of_nat (length pre) + Z.of_nat (start (S c) xs - S (cn c ys))) x = Ok (pre ++ L' ++ post) /\
    filled (Z.of_nat (length pre)) xs (x :: ys) top' L'.
Proof.
  intros Hg Hxs [F1 F2 F3 F4]. assert (x ∈ xs) as Hx by (rewrite Hxs; set_solver).
  destruct (grp_tr_at xs x Hg Hx) as [Hat Hb]. unfold byte in Hb. pose proof (grp_bytes xs Hg) as Hbs.
  set (c := Z.to_nat (chr x)). assert (chr x = Z.of_nat c) as Hc by lia.
  assert (forall d, cn d (x :: ys) <= cn d xs)%nat as Hle.
  { intros d. rewrite Hxs, <- app_assoc. apply (cn_app_le d zs). }
  assert (cn c (x :: ys) = S (cn c ys)) as Hcn by (rewrite cn_cons, decide_True by done; done).
  pose proof (Hle c) as Hlec. rewrite Hcn in Hlec.
  assert (forall d, d <> c -> cn d (x :: ys) = cn d ys) as Hother
    by (intros d Hd; rewrite cn_cons, decide_False by lia; done).
  pose proof (start_S c xs) as HSc. pose proof (start_mono (S c) 256 xs ltac:(lia)) as Hm.
  rewrite (start_all str tr endch) in Hm by done.
  exists c, (<[(start (S c) xs - S (cn c ys))%nat := x]> L),
    (<[c := Some (Z.of_nat (length pre) + Z.of_nat (start (S c) xs - S (cn c ys)))]> top).
  split_and!; [by rewrite Hat, Hc|lia| | |].
  - rewrite (take_top_ok top c _ ltac:(lia) (F3 c ltac:(lia) ltac:(lia))).
    replace (Z.of_nat (length pre) + Z.of_nat (start (S c) xs - cn c ys) - 1) with
      (Z.of_nat (length pre) + Z.of_nat (start (S c) xs - S (cn c ys))) by lia. done.
  - apply arr_set_mid. lia.
  - split.
    + by rewrite length_insert.
    + by rewrite length_insert.
    + intros d Hd Hdc. destruct (decide (d = c)) as [->|Hne].
      * rewrite list_lookup_insert_eq by lia. by rewrite Hcn.
      * rewrite list_lookup_insert_ne by done. rewrite Hother by done. by apply F3.
    + intros d k Hd Hk. destruct (decide (d = c)) as [->|Hne].
      * rewrite Hcn in *. rewrite filter_cons_True by done. destruct k as [|k].
        -- rewrite Nat.add_0_r, list_lookup_insert_eq by lia. done.
        -- rewrite list_lookup_insert_ne by lia. simpl. rewrite <- F4 by lia. f_equal. lia.
      * rewrite Hother in * by done. rewrite filter_cons_False by lia. rewrite <- F4 by lia.
        apply list_lookup_insert_ne. intros He. pose proof (Hle d) as Hled. rewrite Hother in Hled by done.
        pose proof (start_S d xs). apply Hne, (bin_disjoint xs d c (start (S d) xs - cn d ys + k)); lia.
Qed.

Lemma deal_b_ok pre post xs zs ys top L :
  grp xs -> xs = zs ++ ys -> filled (Z.of_nat (length pre)) xs ys top L ->
  exists L' top', deal_b str tr (length zs) xs (Z.of_nat (length zs)) (pre ++ L ++ post) top (Z.of_nat i)
    = Ok (pre ++ L' ++ post, top') /\ filled (Z.of_nat (length pre)) xs xs top' L'.
Proof.
  intros Hg. revert ys top L. induction zs as [|x zs IH] using rev_ind; intros ys top L Hxs F.
  - exists L, top. split; [done|]. simpl in Hxs. by subst ys.
  - rewrite length_app, Nat.add_comm. cbn [deal_b length Nat.add].
    replace (Z.of_nat (S (length zs)) - 1) with (Z.of_nat (length zs)) by lia.
    rewrite (arr_get_ok xs _ x); [|lia|rewrite Nat2Z.id, Hxs, <- app_assoc; by apply list_lookup_middle]. cbn [rbind].
    destruct (filled_step pre post xs zs x ys top L Hg Hxs F) as (c & L' & top' & E1 & Hc & E2 & E3 & F').
    rewrite E1. cbn [rbind]. rewrite E2. cbn [rbind]. rewrite E3. cbn [rbind].
    eapply IH; [|done]. by rewrite Hxs, <- app_assoc.
Qed.

(** All dealt: each bin has its strings in their order. *)
Lemma filled_bins a xs top L c :
  grp xs -> filled a xs xs top L -> (c < 256)%nat -> bin xs c L = filter (fun x => chr x = Z.of_nat c) xs.
Proof.
  intros Hg F Hc. pose proof (grp_bytes xs Hg) as Hb. apply list_eq. intros k.
  destruct (decide (k < cn c xs)%nat) as [Hk|Hk].
  - rewrite bin_lookup by done. rewrite <- (f_in _ _ _ _ _ F c k Hc Hk). f_equal. rewrite start_S. lia.
  - rewrite !lookup_ge_None_2; [done|unfold RadixBins.cn in Hk; lia|].
    rewrite bin_length by (done || apply F). lia.
Qed.

Lemma classes_perm xs n :
  Forall (fun x => byte (chr x)) xs ->
  concat ((fun c => filter (fun x => chr x = Z.of_nat c) xs) <$> seq 0 n) ≡ₚ filter (fun x => chr x < Z.of_nat n) xs.
Proof.
  intros Hb. induction n as [|n IH].
  - rewrite filter_none_in; [done|]. intros x Hx. pose proof (proj1 (Forall_forall _ _) Hb x Hx) as Hbx.
    unfold byte in Hbx. simpl. lia.
  - rewrite seq_S, fmap_app, concat_app, IH. cbn [fmap list_fmap concat]. rewrite app_nil_r. clear IH.
    induction Hb as [|x xs _ _ IH]; [done|]. rewrite !filter_cons, Nat.add_0_l.
    repeat case_decide; try lia; rewrite <- IH; simpl; solve_Permutation.
Qed.

Lemma filled_dealt a xs top L : grp xs -> filled a xs xs top L -> dealt xs L.
Proof.
  intros Hg F. pose proof (grp_bytes xs Hg) as Hb. split.
  - rewrite <- (bins_all xs L) by (done || apply F).
    rewrite (concat_perm _ (fun c => filter (fun x => chr x = Z.of_nat c) xs)).
    + rewrite classes_perm by done. rewrite filter_all_in; [done|]. intros x Hx.
      pose proof (proj1 (Forall_forall _ _) Hb x Hx) as Hbx. unfold byte in Hbx. lia.
    + intros c Hc%elem_of_seq. by rewrite (filled_bins a xs top L c Hg F) by lia.
  - intros c Hc. rewrite (filled_bins a xs top L c Hg F Hc). apply Forall_forall.
    by intros x [? _]%list_elem_of_filter.
Qed.

(** ** Dealing in place *)

(** The strings at the places from [lo] to [hi] have the class [c]. *)
Definition home c (lo hi : nat) L : Prop :=
  forall p, (lo <= p < hi)%nat -> exists y, L !! p = Some y /\ chr y = Z.of_nat c.

(** They and one more are as many as the class has at most. *)
Lemma zone_count c (lo hi aj : nat) L r :
  (lo <= hi <= length L)%nat -> home c lo hi L -> L !! aj = Some r -> chr r = Z.of_nat c ->
  (aj < lo \/ hi <= aj)%nat -> (hi - lo < cn c L)%nat.
Proof.
  intros Hr Hh Haj Hc Hout.
  assert (L = take lo L ++ take (hi - lo) (drop lo L) ++ drop hi L) as HL.
  { rewrite <- (take_drop lo L) at 1. f_equal. rewrite <- (take_drop (hi - lo) (drop lo L)) at 1. f_equal.
    rewrite drop_drop. f_equal. lia. }
  assert (cn c L = cn c (take lo L) + (hi - lo) + cn c (drop hi L))%nat as ->.
  { rewrite HL at 1. unfold RadixBins.cn. rewrite !filter_app, !length_app.
    rewrite (filter_all_in _ (take (hi - lo) (drop lo L))).
    - rewrite length_take, length_drop. lia.
    - intros x (k & Hk)%list_elem_of_lookup. apply lookup_take_Some in Hk as [Hk Hkl]. rewrite lookup_drop in Hk.
      destruct (Hh (lo + k)%nat ltac:(lia)) as (y & Hy & Hcy). congruence. }
  assert (forall M, r ∈ M -> 0 < cn c M)%nat as Hpos.
  { intros M Hm. unfold RadixBins.cn. assert (r ∈ filter (fun x => chr x = Z.of_nat c) M) as Hin
      by (by apply list_elem_of_filter). destruct (filter _ M); [by apply elem_of_nil in Hin|simpl; lia]. }
  destruct Hout as [Hlt|Hge].
  - assert (r ∈ take lo L) as Hin by (apply (list_elem_of_lookup_2 _ aj); by rewrite lookup_take_lt).
    specialize (Hpos _ Hin). lia.
  - assert (r ∈ drop hi L) as Hin.
    { apply (list_elem_of_lookup_2 _ (aj - hi)). rewrite lookup_drop, <- Haj. f_equal. lia. }
    specialize (Hpos _ Hin). lia.
Qed.

Lemma sum_dec (f g : nat -> nat) (cs : list nat) c :
  NoDup cs -> c ∈ cs -> S (g c) = f c -> (forall d, d <> c -> g d = f d) ->
  S (sum_list (g <$> cs)) = sum_list (f <$> cs).
Proof.
  intros Hnd Hin Hc Hd. induction Hnd as [|d cs Hni Hnd IH]; [by apply elem_of_nil in Hin|]. csimpl.
  apply elem_of_cons in Hin as [<-|Hin].
  - rewrite (list_fmap_ext g f cs); [lia|]. intros k e He. apply Hd. intros ->. by apply Hni, (list_elem_of_lookup_2 _ k).
  - rewrite <- (Hd d) by (intros ->; done). specialize (IH Hin). lia.
Qed.

(** The state of a chain: the string [r] is to be placed, the place [aj] at
    the beginning of the bin [c0] is free, the bins before it are done, and
    of each other bin the places from [t c] on. *)
Record chain (a : Z) xs L (top : list (option Z)) (t : nat -> nat) (r : A) c0 : Prop := {
  ch_top : length top = 256%nat;
  ch_len : length L = length xs;
  ch_c0 : (c0 < 256)%nat /\ (0 < cn c0 xs)%nat;
  ch_perm : <[start c0 xs := r]> L ≡ₚ xs;
  ch_done : forall c, (c < c0)%nat -> home c (start c xs) (start (S c) xs) L;
  ch_at : forall c, (c0 <= c < 256)%nat -> (0 < cn c xs)%nat -> top !! c = Some (Some (a + Z.of_nat (t c)));
  ch_t : forall c, (c0 <= c < 256)%nat -> (start c xs <= t c <= start (S c) xs)%nat;
  ch_free : (start c0 xs < t c0)%nat;
  ch_home : forall c, (c0 <= c < 256)%nat -> home c (t c) (start (S c) xs) L
}.

(** When it ends: what is left goes to the free place. *)
Record chain_end (a : Z) xs L (top : list (option Z)) (t : nat -> nat) (r : A) c0 : Prop := {
  ce_top : length top = 256%nat;
  ce_len : length L = length xs;
  ce_c0 : (c0 < 256)%nat /\ (0 < cn c0 xs)%nat;
  ce_r : chr r = Z.of_nat c0;
  ce_perm : <[start c0 xs := r]> L ≡ₚ xs;
  ce_done : forall c, (c < c0)%nat -> home c (start c xs) (start (S c) xs) L;
  ce_at : forall c, (c0 < c < 256)%nat -> (0 < cn c xs)%nat -> top !! c = Some (Some (a + Z.of_nat (t c)));
  ce_t : forall c, (c0 < c < 256)%nat -> (start c xs <= t c <= start (S c) xs)%nat;
  ce_last : home c0 (S (start c0 xs)) (start (S c0) xs) L;
  ce_home : forall c, (c0 < c < 256)%nat -> home c (t c) (start (S c) xs) L
}.

Definition slack xs (t : nat -> nat) c0 : nat := sum_list ((fun c => t c - start c xs)%nat <$> seq c0 (256 - c0)).

Section Chain.
Context (a : Z) xs (Hg : grp xs).
Context L (top : list (option Z)) (t : nat -> nat) (r : A) c0 (C : chain a xs L top t r c0).

Lemma bin_room c : (c < 256)%nat -> (start (S c) xs <= length L)%nat.
Proof.
  intros Hc. rewrite (ch_len _ _ _ _ _ _ _ C), <- (start_all str tr endch i xs) by (by apply grp_bytes).
  apply start_mono. lia.
Qed.

Lemma free_in : (start c0 xs < length L)%nat.
Proof. destruct (ch_c0 _ _ _ _ _ _ _ C) as [Hc Hn]. pose proof (bin_room c0 Hc). pose proof (start_S c0 xs). lia. Qed.

Lemma r_in : r ∈ xs.
Proof.
  rewrite <- (ch_perm _ _ _ _ _ _ _ C). apply (list_elem_of_lookup_2 _ (start c0 xs)).
  apply list_lookup_insert_eq, free_in.
Qed.

(** The places of a bin that are done stay so when [r] is put down. *)
Lemma home_put c lo hi : (start c0 xs < lo \/ hi <= start c0 xs)%nat -> home c lo hi L -> home c lo hi (<[start c0 xs := r]> L).
Proof. intros Hout Hh p Hp. rewrite list_lookup_insert_ne by lia. by apply Hh. Qed.

(** The bin of [r] has a place for it. *)
Lemma place_for c : (c < 256)%nat -> chr r = Z.of_nat c -> (c0 <= c)%nat /\ (start c xs < t c)%nat /\ (0 < cn c xs)%nat.
Proof.
  intros Hc Hr. pose proof (ch_perm _ _ _ _ _ _ _ C) as Hp. pose proof free_in as Hf.
  set (M := <[start c0 xs := r]> L) in *.
  assert (M !! start c0 xs = Some r) as Hm by (by apply list_lookup_insert_eq).
  assert (length M = length L) as Hlen by apply length_insert.
  assert (cn c M = cn c xs) as Hcn by (by rewrite Hp).
  pose proof (bin_room c Hc) as Hroom. pose proof (start_S c xs) as HS.
  destruct (decide (c0 <= c)%nat) as [Hle|Hgt].
  - split; [done|]. pose proof (ch_t _ _ _ _ _ _ _ C c ltac:(lia)) as Ht.
    assert (start (S c) xs - t c < cn c M)%nat as Hz; [|lia].
    apply (zone_count c (t c) (start (S c) xs) (start c0 xs) M r); [lia| |done|done|].
    + apply home_put; [|by apply (ch_home _ _ _ _ _ _ _ C); lia].
      destruct (decide (c = c0)) as [->|]; [left; apply (ch_free _ _ _ _ _ _ _ C)|].
      left. pose proof (start_mono (S c0) c xs ltac:(lia)). pose proof (start_S c0 xs).
      destruct (ch_c0 _ _ _ _ _ _ _ C). lia.
    + destruct (decide (c = c0)) as [->|]; [left; apply (ch_free _ _ _ _ _ _ _ C)|].
      left. pose proof (start_mono (S c0) c xs ltac:(lia)). pose proof (start_S c0 xs).
      destruct (ch_c0 _ _ _ _ _ _ _ C). lia.
  - exfalso. pose proof (start_mono (S c) c0 xs ltac:(lia)) as Hmono.
    assert (start (S c) xs - start c xs < cn c M)%nat; [|lia].
    apply (zone_count c (start c xs) (start (S c) xs) (start c0 xs) M r); [lia| |done|done|lia].
    apply home_put; [lia|]. apply (ch_done _ _ _ _ _ _ _ C). lia.
Qed.

(** The next place of the bin of [r], and what is found there. *)
Lemma chain_place c :
  (c < 256)%nat -> chr r = Z.of_nat c -> (start c0 xs < t c - 1)%nat ->
  exists x, L !! (t c - 1)%nat = Some x /\
    chain a xs (<[(t c - 1)%nat := r]> L) (<[c := Some (a + Z.of_nat (t c - 1))]> top) (<[c := (t c - 1)%nat]> t) x c0 /\
    (S (slack xs (<[c := (t c - 1)%nat]> t) c0) = slack xs t c0)%nat.
Proof.
  intros Hc Hr Hfar. destruct (place_for c Hc Hr) as (Hle & Hlt & Hcn).
  pose proof (ch_t _ _ _ _ _ _ _ C c ltac:(lia)) as Ht. pose proof (bin_room c Hc) as Hroom.
  destruct (lookup_lt_is_Some_2 L (t c - 1)) as [x Hx]; [lia|]. exists x. split; [done|]. split.
  - assert (forall d lo hi, (hi <= t c - 1 \/ t c - 1 < lo)%nat -> home d lo hi L -> home d lo hi (<[(t c - 1)%nat := r]> L)) as Hput.
    { intros d lo hi Hout Hh p Hp. rewrite list_lookup_insert_ne by lia. by apply Hh. }
    assert (forall d, d <> c -> (start (S d) xs <= t c - 1 \/ t c - 1 < start d xs)%nat) as Hdis.
    { intros d Hd. destruct (decide (start d xs <= t c - 1 < start (S d) xs)%nat); [|lia].
      destruct Hd. apply (bin_disjoint xs d c (t c - 1)); lia. }
    destruct C as [C1 C2 C3 C4 C5 C6 C7 C8 C9]. split; try done.
    + by rewrite length_insert.
    + by rewrite length_insert.
    + etrans; [|exact C4]. rewrite <- (list_insert_insert_eq (<[(t c - 1)%nat := r]> L) (start c0 xs) x r).
      rewrite (list_insert_insert_ne L (start c0 xs)) by lia. apply Permutation_insert_swap.
      * by rewrite list_lookup_insert_ne by lia.
      * rewrite list_lookup_insert_eq; [done|]. pose proof (bin_room c0 ltac:(lia)). pose proof (start_S c0 xs). lia.
    + intros d Hd. apply Hput; [apply Hdis; lia|by apply C5].
    + intros d Hd Hdn. destruct (decide (d = c)) as [->|Hne].
      * rewrite list_lookup_insert_eq by lia. by rewrite fn_lookup_insert.
      * rewrite list_lookup_insert_ne, fn_lookup_insert_ne by done. by apply C6.
    + intros d Hd. destruct (decide (d = c)) as [->|Hne].
      * rewrite fn_lookup_insert. lia.
      * rewrite fn_lookup_insert_ne by done. by apply C7.
    + destruct (decide (c0 = c)) as [->|Hne]; [by rewrite fn_lookup_insert|by rewrite fn_lookup_insert_ne].
    + intros d Hd. destruct (decide (d = c)) as [->|Hne].
      * rewrite fn_lookup_insert. intros p Hp. destruct (decide (p = t c - 1)%nat) as [->|].
        -- rewrite list_lookup_insert_eq by lia. eauto.
        -- rewrite list_lookup_insert_ne by lia. apply (C9 c Hd). lia.
      * rewrite fn_lookup_insert_ne by done. apply Hput; [|by apply C9].
        specialize (C7 d Hd). destruct (Hdis d Hne); lia.
  - apply (sum_dec _ _ _ c); [apply NoDup_seq|apply elem_of_seq; lia|rewrite fn_lookup_insert; lia|].
    intros d Hd. by rewrite fn_lookup_insert_ne.
Qed.

Lemma chain_stop c :
  (c < 256)%nat -> chr r = Z.of_nat c -> ~ (start c0 xs < t c - 1)%nat ->
  c = c0 /\ (t c - 1 = start c0 xs)%nat /\
  chain_end a xs L (<[c := Some (a + Z.of_nat (t c - 1))]> top) t r c0.
Proof.
  intros Hc Hr Hnear. destruct (place_for c Hc Hr) as (Hle & Hlt & Hcn).
  destruct C as [C1 C2 C3 C4 C5 C6 C7 C8 C9].
  assert (c = c0) as ->.
  { destruct (decide (c = c0)) as [|Hne]; [done|].
    pose proof (start_mono (S c0) c xs ltac:(lia)). pose proof (start_S c0 xs). lia. }
  assert (t c0 - 1 = start c0 xs)%nat as He by lia. split_and!; [done..|].
  split; try done.
  - by rewrite length_insert.
  - intros d Hd Hdn. rewrite list_lookup_insert_ne by lia. apply C6; done || lia.
  - intros d Hd. apply C7. lia.
  - intros p Hp. apply (C9 c0 ltac:(lia)). lia.
  - intros d Hd. apply C9. lia.
Qed.

End Chain.

Lemma deal_chain_ok pre post fuel xs L top t r c0 :
  grp xs -> chain (Z.of_nat (length pre)) xs L top t r c0 -> (slack xs t c0 < fuel)%nat ->
  exists L' top' t' r',
    deal_chain str tr fuel (pre ++ L ++ post) top (Z.of_nat (length pre) + Z.of_nat (start c0 xs)) (Z.of_nat i) r
      = Ok (pre ++ L' ++ post, top', r', Z.of_nat c0) /\
    chain_end (Z.of_nat (length pre)) xs L' top' t' r' c0.
Proof.
  intros Hg. revert L top t r. induction fuel as [|fuel IH]; intros L top t r C Hf; [lia|]. cbn [deal_chain].
  destruct (grp_tr_at xs r Hg) as [-> Hb]; [by eapply r_in|]. unfold byte in Hb. cbn [rbind].
  set (c := Z.to_nat (chr r)). assert (chr r = Z.of_nat c) as Hc by lia. rewrite Hc.
  assert (c < 256)%nat as Hc256 by lia.
  destruct (place_for _ xs Hg L top t r c0 C c Hc256 Hc) as (Hle & Hlt & Hcn).
  rewrite (take_top_ok top c _ ltac:(rewrite (ch_top _ _ _ _ _ _ _ C); lia) (ch_at _ _ _ _ _ _ _ C c ltac:(lia) Hcn)).
  cbn [rbind].
  replace (Z.of_nat (length pre) + Z.of_nat (t c) - 1) with (Z.of_nat (length pre) + Z.of_nat (t c - 1)) by lia.
  destruct (decide (start c0 xs < t c - 1)%nat) as [Hfar|Hnear].
  - rewrite (proj2 (Z.ltb_lt _ _)) by lia.
    destruct (chain_place _ xs Hg L top t r c0 C c Hc256 Hc Hfar) as (x & Hx & C' & Hs).
    rewrite (arr_get_mid _ _ _ _ _ Hx). cbn [rbind].
    rewrite arr_set_mid by (by eapply lookup_lt_Some). cbn [rbind]. eapply IH; [exact C'|lia].
  - rewrite (proj2 (Z.ltb_ge _ _)) by lia.
    destruct (chain_stop _ xs Hg L top t r c0 C c Hc256 Hc Hnear) as (-> & _ & E).
    do 4 eexists. split; [done|exact E].
Qed.

(** Between the chains: the bins before [m] are done. *)
Record dealing (a : Z) xs L (top : list (option Z)) (cnt : list Z) (t : nat -> nat) m : Prop := {
  d_top : length top = 256%nat;
  d_perm : L ≡ₚ xs;
  d_m : (m <= 256)%nat;
  d_done : forall c, (c < m)%nat -> home c (start c xs) (start (S c) xs) L;
  d_at : forall c, (m <= c < 256)%nat -> (0 < cn c xs)%nat -> top !! c = Some (Some (a + Z.of_nat (t c)));
  d_t : forall c, (m <= c < 256)%nat -> (start c xs <= t c <= start (S c) xs)%nat;
  d_home : forall c, (m <= c < 256)%nat -> home c (t c) (start (S c) xs) L;
  d_cnt : cnt = (fun c => if decide (c < m)%nat then 0 else Z.of_nat (cn c xs)) <$> seq 0 256
}.

(** The next bin with strings. *)
Lemma next_bin xs m :
  (m <= 256)%nat -> (start m xs < start 256 xs)%nat ->
  exists c, (m <= c < 256)%nat /\ (0 < cn c xs)%nat /\ start c xs = start m xs /\
    forall d, (m <= d < c)%nat -> cn d xs = 0%nat.
Proof.
  intros Hm. remember (256 - m)%nat as n eqn:Hn. revert m Hm Hn. induction n as [|n IH]; intros m Hm Hn Hlt.
  { replace m with 256%nat in Hlt by lia. lia. }
  pose proof (start_S m xs) as HS. destruct (decide (0 < cn m xs)%nat) as [Hp|Hp].
  - exists m. split_and!; try done; lia.
  - destruct (IH (S m)) as (c & Hc & Hcn & Hst & Hz); [lia..|]. exists c. split_and!; [lia..|done|lia|].
    intros d Hd. destruct (decide (d = m)) as [->|]; [lia|]. apply Hz. lia.
Qed.

Lemma dealing_chain a xs L top cnt t m c :
  grp xs -> dealing a xs L top cnt t m -> (m <= c < 256)%nat -> (0 < cn c xs)%nat ->
  start c xs = start m xs -> (forall d, (m <= d < c)%nat -> cn d xs = 0%nat) ->
  exists r, L !! start c xs = Some r /\
    (t c = start c xs /\ chr r = Z.of_nat c /\
       chain_end a xs L (<[c := Some (a + Z.of_nat (t c) - 1)]> top) t r c \/
     chain a xs L top t r c).
Proof.
  intros Hg D Hc Hcn Hst Hz. pose proof (grp_bytes xs Hg) as Hb.
  assert (length L = length xs) as Hlen by (by rewrite (d_perm _ _ _ _ _ _ _ D)).
  pose proof (start_mono (S c) 256 xs ltac:(lia)) as Hm. rewrite (start_all str tr endch) in Hm by done.
  pose proof (start_S c xs) as HS.
  destruct (lookup_lt_is_Some_2 L (start c xs)) as [r Hr]; [lia|]. exists r. split; [done|].
  assert (<[start c xs := r]> L = L) as Hid by (by apply list_insert_id).
  assert (forall d, (d < c)%nat -> home d (start d xs) (start (S d) xs) L) as Hdone.
  { intros d Hd. destruct (decide (d < m)%nat) as [Hdm|Hdm]; [by apply (d_done _ _ _ _ _ _ _ D)|].
    intros p Hp. rewrite start_S, Hz in Hp by lia. lia. }
  destruct D as [D1 D2 D3 D4 D5 D6 D7 D8]. pose proof (D6 c ltac:(lia)) as Ht.
  destruct (decide (t c = start c xs)) as [He|He].
  - left. assert (chr r = Z.of_nat c) as Hcr.
    { destruct (D7 c ltac:(lia) (start c xs) ltac:(lia)) as (y & Hy & Hcy). congruence. }
    split_and!; [done..|]. split; try done; rewrite ?length_insert, ?Hid; try done; try lia.
    + intros d Hd Hdn. rewrite list_lookup_insert_ne by lia. apply D5; done || lia.
    + intros d Hd. apply D6. lia.
    + intros p Hp. apply (D7 c ltac:(lia)). lia.
    + intros d Hd. apply D7. lia.
  - right. split; rewrite ?Hid; try done; try lia.
    + intros d Hd Hdn. apply D5; done || lia.
    + intros d Hd. apply D6. lia.
    + intros d Hd. apply D7. lia.
Qed.

(** The free place is filled and the next bin begins. *)
Lemma dealing_next a xs L top cnt t t' top' L' r m c :
  dealing a xs L top cnt t m -> (m <= c)%nat -> (forall d, (m <= d < c)%nat -> cn d xs = 0%nat) ->
  chain_end a xs L' top' t' r c ->
  dealing a xs (<[start c xs := r]> L') top' (<[c := 0]> cnt) t' (S c).
Proof.
  intros D Hmc Hz [E1 E2 E3 E4 E5 E6 E7 E8 E9 E10].
  assert (start c xs < length L')%nat as Hin.
  { rewrite E2. pose proof (start_S c xs). pose proof (length_filter (fun x => (chr x < Z.of_nat (S c))%Z) xs).
    unfold RadixBins.start in *. lia. }
  assert (forall d lo hi, (start c xs < lo \/ hi <= start c xs)%nat -> home d lo hi L' -> home d lo hi (<[start c xs := r]> L')) as Hput.
  { intros d lo hi Hout Hh p Hp. rewrite list_lookup_insert_ne by lia. by apply Hh. }
  split; try done; try lia.
  - intros d Hd. destruct (decide (d = c)) as [->|Hne].
    + intros p Hp. destruct (decide (p = start c xs)) as [->|].
      * rewrite list_lookup_insert_eq by done. eauto.
      * rewrite list_lookup_insert_ne by done. apply E9. lia.
    + apply Hput; [right; apply start_mono; lia|apply E6; lia].
  - intros d Hd. apply Hput; [|apply E10; lia]. left. pose proof (E8 d ltac:(lia)).
    pose proof (start_mono (S c) d xs ltac:(lia)). pose proof (start_S c xs). lia.
  - rewrite (d_cnt _ _ _ _ _ _ _ D). apply list_eq. intros d. destruct (decide (d = c)) as [->|Hne].
    + rewrite list_lookup_insert_eq by (rewrite length_fmap, length_seq; lia).
      rewrite list_lookup_fmap, lookup_seq_lt by lia. simpl. by rewrite decide_True by lia.
    + rewrite list_lookup_insert_ne by done. rewrite !list_lookup_fmap.
      destruct (decide (d < 256)%nat); [|by rewrite !lookup_seq_ge by lia].
      rewrite !lookup_seq_lt by lia. simpl. f_equal.
      destruct (decide (d < m)%nat); [by rewrite decide_True by lia|].
      destruct (decide (d < S c)%nat); [|done]. rewrite Hz by lia. done.
Qed.

Lemma slack_bound xs (t : nat -> nat) c0 :
  (c0 <= 256)%nat -> (forall c, (c0 <= c < 256)%nat -> (start c xs <= t c <= start (S c) xs)%nat) ->
  (slack xs t c0 <= start 256 xs - start c0 xs)%nat.
Proof.
  unfold slack. remember (256 - c0)%nat as n eqn:Hn. revert c0 Hn. induction n as [|n IH]; intros c0 Hn Hc Ht; csimpl; [lia|].
  pose proof (Ht c0 ltac:(lia)). specialize (IH (S c0) ltac:(lia) ltac:(lia) ltac:(intros c ?; apply Ht; lia)).
  pose proof (start_mono (S c0) 256 xs ltac:(lia)). pose proof (start_S c0 xs). lia.
Qed.

(** All bins are done. *)
Lemma dealing_end a xs L top cnt t m :
  grp xs -> dealing a xs L top cnt t m -> (length xs <= start m xs)%nat ->
  dealt xs L /\ length top = 256%nat /\ cnt = replicate 256 0.
Proof.
  intros Hg D Hend'. pose proof (grp_bytes xs Hg) as Hb.
  assert (forall c, (m <= c < 256)%nat -> cn c xs = 0%nat) as Hz.
  { intros c Hc. pose proof (start_mono m c xs ltac:(lia)). pose proof (start_S c xs).
    pose proof (start_mono (S c) 256 xs ltac:(lia)) as Hm. rewrite (start_all str tr endch) in Hm by done. lia. }
  split_and!; [split|apply D|].
  - apply D.
  - intros c Hc. apply Forall_forall. intros x (k & Hk)%list_elem_of_lookup.
    assert (k < cn c xs)%nat as Hkc.
    { apply lookup_lt_Some in Hk as Hlt. unfold bin in Hlt. rewrite length_take in Hlt. lia. }
    rewrite bin_lookup in Hk by done. pose proof (start_S c xs).
    destruct (decide (c < m)%nat) as [Hm|Hm]; [|rewrite Hz in Hkc by lia; lia].
    destruct (d_done _ _ _ _ _ _ _ D c Hm (start c xs + k)%nat ltac:(lia)) as (y & Hy & Hcy). congruence.
  - rewrite (d_cnt _ _ _ _ _ _ _ D). apply list_eq. intros c. rewrite list_lookup_fmap.
    destruct (decide (c < 256)%nat); [|rewrite lookup_seq_ge by lia; symmetry; apply lookup_replicate_None; lia].
    rewrite lookup_seq_lt, lookup_replicate_2 by lia. simpl. case_decide; [done|]. rewrite Hz by lia. done.
Qed.

Lemma deal_a_ok pre post fuel xs L top cnt t m :
  grp xs -> dealing (Z.of_nat (length pre)) xs L top cnt t m -> (length xs - start m xs < fuel)%nat ->
  exists L' top', deal_a str tr fuel (pre ++ L ++ post) top cnt (Z.of_nat (length pre) + Z.of_nat (start m xs))
      (Z.of_nat (length pre) + Z.of_nat (length xs)) (Z.of_nat i) = Ok (pre ++ L' ++ post, top', replicate 256 0) /\
    dealt xs L' /\ length top' = 256%nat.
Proof.
  intros Hg. pose proof (grp_bytes xs Hg) as Hb. revert L top cnt t m.
  induction fuel as [|fuel IH]; intros L top cnt t m D Hf; [lia|]. cbn [deal_a].
  pose proof (start_all str tr endch i xs Hb) as Hall.
  destruct (Z.ltb_spec (Z.of_nat (length pre) + Z.of_nat (start m xs)) (Z.of_nat (length pre) + Z.of_nat (length xs))) as [Hlt|Hge].
  2: { simpl. destruct (dealing_end _ xs L top cnt t m Hg D ltac:(lia)) as (Hd & Ht & ->). eauto. }
  cbn [negb].
  destruct (next_bin xs m (d_m _ _ _ _ _ _ _ D) ltac:(lia)) as (c & Hc & Hcn & Hst & Hz).
  destruct (dealing_chain _ xs L top cnt t m c Hg D Hc Hcn Hst Hz) as (r & Hr & Hch). rewrite <- Hst.
  rewrite (arr_get_mid _ _ _ _ _ Hr). cbn [rbind].
  assert (exists L' top' t' r',
    deal_chain str tr (S (Z.to_nat (Z.of_nat (length pre) + Z.of_nat (length xs) - (Z.of_nat (length pre) + Z.of_nat (start c xs)))))
      (pre ++ L ++ post) top (Z.of_nat (length pre) + Z.of_nat (start c xs)) (Z.of_nat i) r
      = Ok (pre ++ L' ++ post, top', r', Z.of_nat c) /\
    chain_end (Z.of_nat (length pre)) xs L' top' t' r' c) as (L' & top' & t' & r' & -> & E).
  { destruct Hch as [(Ht & Hcr & E)|C].
    - exists L, (<[c := Some (Z.of_nat (length pre) + Z.of_nat (t c) - 1)]> top), t, r. split; [|done].
      cbn [deal_chain]. destruct (grp_tr_at xs r Hg) as [-> _].
      { rewrite <- (d_perm _ _ _ _ _ _ _ D). by apply (list_elem_of_lookup_2 _ (start c xs)). }
      cbn [rbind]. rewrite Hcr.
      rewrite (take_top_ok top c _ ltac:(rewrite (d_top _ _ _ _ _ _ _ D); lia) (d_at _ _ _ _ _ _ _ D c Hc Hcn)). cbn [rbind].
      rewrite (proj2 (Z.ltb_ge _ _)) by lia. done.
    - apply (deal_chain_ok pre post _ xs L top t r c Hg C).
      pose proof (slack_bound xs t c ltac:(lia) (ch_t _ _ _ _ _ _ _ C)). lia. }
  cbn [rbind]. pose proof (start_S c xs) as HS. pose proof (start_mono (S c) 256 xs ltac:(lia)) as HSm.
  rewrite arr_set_mid by (rewrite (ce_len _ _ _ _ _ _ _ E); lia). cbn [rbind].
  assert (cnt !! c = Some (Z.of_nat (cn c xs))) as Hcnt.
  { rewrite (d_cnt _ _ _ _ _ _ _ D), list_lookup_fmap, lookup_seq_lt by lia. simpl. by rewrite decide_False by lia. }
  rewrite (arr_get_ok cnt _ (Z.of_nat (cn c xs))) by (rewrite ?Nat2Z.id; done || lia). cbn [rbind].
  rewrite arr_set_ok by (apply lookup_lt_Some in Hcnt; lia). cbn [rbind]. rewrite Nat2Z.id.
  pose proof (dealing_next _ xs L top cnt t t' top' L' r' m c D ltac:(lia) Hz E) as D'.
  replace (Z.of_nat (length pre) + Z.of_nat (start c xs) + Z.of_nat (cn c xs)) with
    (Z.of_nat (length pre) + Z.of_nat (start (S c) xs)) by lia.
  apply (IH _ _ _ t' (S c) D'). lia.
Qed.

End Deal.
