(* ===== verification/RadixThms.v ===== *)
(** * RadixThms: the radix sorts sort

    The stack of bins as a description of what is still to be done, one round
    of each sort, and what [radixsort] and [sradixsort] return. *)

From stdpp Require Import sorting.
From S2P Require Import Prelude Sort SortBase MergeThms Radix RadixBins RadixDeal.
Import Radix.

#[export] Instance frame_inhabited : Inhabited frame := populate (Frame 0 0 0).

Section Stack.
Context {A : Type} `{!Inhabited A} (str : A -> list Z) (tr : list Z) (endch : Z).
Context (Htab : table_ok tr) (Hend : endch = 0 \/ endch = 255).
Context (st : bool).

#[local] Abbreviation key := (key str tr endch).
#[local] Abbreviation chr := (chr str tr endch).
#[local] Abbreviation cn := (cn str tr endch).
#[local] Abbreviation start := (start str tr endch).
#[local] Abbreviation grp := (grp str tr endch).
#[local] Abbreviation occ := (occ str tr endch).
#[local] Abbreviation big := (big str tr endch).
#[local] Abbreviation bin := (bin str tr endch).
#[local] Abbreviation dealt := (dealt str tr endch).
#[local] Abbreviation bin_frame := (bin_frame str tr endch).
#[local] Abbreviation sorted_as := (sorted_as str tr endch st).
Implicit Types (arr xs ys : list A) (f g : frame) (s : list frame).

(** ** Frames *)

(** The strings of a bin, and the places that belong to it. *)
Definition seg arr f : list A := take (Z.to_nat (sn f)) (drop (Z.to_nat (sa f)) arr).
Definition inside f (k : nat) : Prop := sa f <= Z.of_nat k < sa f + sn f.
Definition disj f g : Prop := sa f + sn f <= sa g \/ sa g + sn g <= sa f.

Record frame_ok arr f : Prop := {
  fo_sa : 0 <= sa f;
  fo_sn : 0 <= sn f;
  fo_end : sa f + sn f <= Z.of_nat (length arr);
  fo_si : 0 <= si f;
  fo_grp : grp (Z.to_nat (si f)) (seg arr f)
}.

Fixpoint apart s : Prop :=
  match s with
  | [] => True
  | f :: s => Forall (disj f) s /\ apart s
  end.

Lemma disj_sym f g : disj f g -> disj g f.
Proof. unfold disj. lia. Qed.

Lemma apart_app s1 s2 : apart (s1 ++ s2) <-> apart s1 /\ apart s2 /\ forall f g, f ∈ s1 -> g ∈ s2 -> disj f g.
Proof.
  induction s1 as [|f s1 IH]; simpl.
  - split; [|tauto]. intros Ha. split_and!; [done..|]. by intros f g ?%elem_of_nil.
  - rewrite IH, Forall_app, (Forall_forall _ s2). split.
    + intros ([H1 H2] & H3 & H4 & H5). split_and!; try done. intros g h [->|Hg]%elem_of_cons Hh; auto.
    + intros ([H1 H2] & H3 & H4). split_and!; try done; intros; apply H4; try done; [by left|by right].
Qed.

#[export] Instance apart_perm : Proper ((≡ₚ) ==> iff) apart.
Proof.
  enough (forall s1 s2, s1 ≡ₚ s2 -> apart s1 -> apart s2) as Hp.
  { intros s1 s2 E. split; by apply Hp. }
  induction 1 as [|f s1 s2 E IH|f g s1|s1 s2 s3 _ IH1 _ IH2]; simpl; [done|..|auto].
  - intros [H1 H2]. split; [by rewrite <- E|auto].
  - rewrite !Forall_cons. intros ([Hfg Hf] & Hg & Ha). pose proof (disj_sym _ _ Hfg). tauto.
Qed.

Lemma seg_lookup arr f k :
  seg arr f !! k = if decide (k < Z.to_nat (sn f))%nat then arr !! (Z.to_nat (sa f) + k)%nat else None.
Proof.
  unfold seg. case_decide.
  - rewrite lookup_take_lt by done. apply lookup_drop.
  - apply lookup_take_ge. lia.
Qed.

Lemma seg_length arr f : frame_ok arr f -> length (seg arr f) = Z.to_nat (sn f).
Proof. intros []. unfold seg. rewrite length_take, length_drop. lia. Qed.

(** The strings of a bin that nothing touches. *)
Lemma seg_same arr arr' f : frame_ok arr f -> (forall k, inside f k -> arr' !! k = arr !! k) -> seg arr' f = seg arr f.
Proof.
  intros Hf Hk. apply list_eq. intros k. rewrite !seg_lookup. case_decide; [|done].
  apply Hk. unfold inside. destruct Hf. lia.
Qed.

(** An array and the bin in it. *)
Lemma seg_split arr f :
  frame_ok arr f -> exists pre post, arr = pre ++ seg arr f ++ post /\ sa f = Z.of_nat (length pre) /\
    sn f = Z.of_nat (length (seg arr f)) /\ si f = Z.of_nat (Z.to_nat (si f)).
Proof.
  intros Hf. exists (take (Z.to_nat (sa f)) arr), (drop (Z.to_nat (sn f)) (drop (Z.to_nat (sa f)) arr)).
  rewrite seg_length by done. destruct Hf. unfold seg. rewrite !take_drop, length_take. split_and!; done || lia.
Qed.

Lemma seg_mid pre xs post i : seg (pre ++ xs ++ post) (Frame (Z.of_nat (length pre)) (Z.of_nat (length xs)) i) = xs.
Proof.
  unfold seg. simpl. rewrite !Nat2Z.id, drop_app_length. apply take_app_length.
Qed.

Lemma mid_same pre xs ys post i k :
  length ys = length xs -> ~ inside (Frame (Z.of_nat (length pre)) (Z.of_nat (length xs)) i) k ->
  (pre ++ ys ++ post) !! k = (pre ++ xs ++ post) !! k.
Proof.
  unfold inside. simpl. intros Hl Hk. destruct (decide (k < length pre)%nat).
  - by rewrite !lookup_app_l by lia.
  - rewrite !(lookup_app_r pre) by lia. rewrite !lookup_app_r by lia. by rewrite Hl.
Qed.

(** ** What sorting some bins does *)

Record Post s arr arr' : Prop := {
  po_len : length arr' = length arr;
  po_in : forall f, f ∈ s -> sorted_as (seg arr f) (seg arr' f);
  po_out : forall k, (forall f, f ∈ s -> ~ inside f k) -> arr' !! k = arr !! k
}.

#[export] Instance Post_perm : Proper ((≡ₚ) ==> eq ==> eq ==> iff) Post.
Proof.
  intros s1 s2 E a1 a1' -> a2 a2' ->.
  split; intros [H1 H2 H3]; split; [done|intros f; rewrite <- E || rewrite E; auto|intros k Hk; apply H3; intros f Hf; apply Hk; rewrite <- E || rewrite E; done|done|intros f; rewrite E; auto|intros k Hk; apply H3; intros f Hf; apply Hk; rewrite E; done].
Qed.

Lemma post_seq s1 s2 arr arr1 arr2 :
  Forall (frame_ok arr) s1 -> Forall (frame_ok arr) s2 -> (forall f g, f ∈ s1 -> g ∈ s2 -> disj f g) ->
  Post s1 arr arr1 -> Post s2 arr1 arr2 -> Post (s1 ++ s2) arr arr2.
Proof.
  intros F1 F2 Hd P1 P2. rewrite Forall_forall in F1, F2.
  assert (forall f g k, f ∈ s1 -> g ∈ s2 -> inside f k -> inside g k -> False) as Hno.
  { intros f g k Hf Hg. specialize (Hd f g Hf Hg). unfold disj, inside in *. lia. }
  split.
  - by rewrite (po_len _ _ _ P2), (po_len _ _ _ P1).
  - intros f [Hf|Hf]%elem_of_app.
    + pose proof (po_in _ _ _ P1 f Hf) as Hs.
      assert (seg arr2 f = seg arr1 f) as ->; [|done]. apply seg_same.
      * destruct (F1 f Hf) as [? ? ? ? Hg]. split; try done; [by rewrite (po_len _ _ _ P1)|].
        apply (grp_sub _ _ _ _ (seg arr f) _ Hg). intros x. by rewrite (proj1 Hs).
      * intros k Hk. apply (po_out _ _ _ P2). intros g Hg Hk'. by apply (Hno f g k).
    + assert (seg arr f = seg arr1 f) as ->; [|by apply (po_in _ _ _ P2)]. symmetry. apply seg_same; [auto|].
      intros k Hk. apply (po_out _ _ _ P1). intros g Hg Hk'. by apply (Hno g f k).
  - intros k Hk. rewrite (po_out _ _ _ P2), (po_out _ _ _ P1); [done|..]; intros f Hf; apply Hk, elem_of_app; auto.
Qed.

(** One bin sorted in its place. *)
Lemma post_one arr pre xs post rs i :
  arr = pre ++ xs ++ post -> sorted_as xs rs ->
  Post [Frame (Z.of_nat (length pre)) (Z.of_nat (length xs)) i] arr (pre ++ rs ++ post).
Proof.
  intros -> Hs. assert (length rs = length xs) as Hl by (by rewrite (proj1 Hs)). split.
  - rewrite !length_app. lia.
  - intros f ->%list_elem_of_singleton. rewrite seg_mid, <- Hl, seg_mid. done.
  - intros k Hk. apply (mid_same pre xs rs post i); [done|]. apply Hk. by left.
Qed.

(** ** One round *)

Lemma swap_frames_ok s sp0 sp1 :
  0 <= sp0 -> sp1 = sp0 \/ sp0 <= sp1 < Z.of_nat (length s) -> exists s', swap_frames s sp0 sp1 = Ok s' /\ s' ≡ₚ s.
Proof.
  intros H0 Hsp. unfold swap_frames. destruct (Z.eqb_spec sp0 sp1) as [|Hne]; [eauto|].
  destruct (arr_swap_spec s sp0 sp1) as (s' & E & Hp & _); [lia..|eauto].
Qed.

Section Round.
Context (i : nat) (xs : list A) (hist : statics).
Context (Hg : grp i xs) (Hh : hist_is str tr endch i xs hist).

(** The first class of the loop over the bins. *)
Definition base : nat := if endch =? 0 then 1%nat else 0%nat.

Lemma occ_least : occ i (Z.to_nat (bmin hist)) xs = occ i 0 xs /\ start i (Z.to_nat (bmin hist)) xs = start i base xs /\ (base <= Z.to_nat (bmin hist))%nat.
Proof.
  pose proof (h_bmin _ _ _ _ _ _ Hh) as Hb.
  assert (forall c, c ∈ occ i 0 xs -> (Z.to_nat (bmin hist) <= c)%nat) as Hle.
  { intros c Hc. pose proof (h_least _ _ _ _ _ _ Hh c Hc). lia. }
  assert (base <= Z.to_nat (bmin hist))%nat as Hbase.
  { unfold base. destruct (Z.eqb_spec endch 0) as [H0|]; [|lia].
    destruct (length (occ i 0 xs)) eqn:Ho; [rewrite (h_none _ _ _ _ _ _ Hh Ho); simpl; lia|].
    pose proof (h_occ _ _ _ _ _ _ Hh ltac:(lia)) as Hm. apply elem_occ in Hm. lia. }
  split_and!; [|apply start_gap; [done|]|done].
  - unfold RadixBins.occ at 2. replace (seq 0 (256 - 0)) with
      (seq 0 (Z.to_nat (bmin hist)) ++ seq (Z.to_nat (bmin hist)) (256 - Z.to_nat (bmin hist)))
      by (rewrite <- seq_app; f_equal; lia).
    rewrite filter_app, filter_none_in; [done|]. intros c Hc Hd. apply elem_of_seq in Hc.
    assert (c ∈ occ i 0 xs) as Hin%Hle by (apply elem_occ; lia). lia.
  - intros c Hc. destruct (decide (cn i c xs = 0)%nat) as [|Hz]; [done|].
    assert (c ∈ occ i 0 xs) as Hin%Hle; [|lia]. apply elem_occ. split_and!; [lia..| |lia].
    revert Hc. unfold base. destruct (Z.eqb_spec endch 0); lia.
Qed.

Lemma bins_ok reset s top cnt (a : Z) :
  Z.of_nat (length s) + nc hist <= SIZE -> length top = 256%nat ->
  top !! Z.to_nat endch = Some (Some (a + Z.of_nat (start i (S (Z.to_nat endch)) xs))) ->
  length cnt = 256%nat ->
  (forall c, (c < 256)%nat -> Z.of_nat c <> endch -> cnt !! c = Some (Z.of_nat (cn i c xs))) ->
  exists s1 top' cnt' sp1 s',
    set_bins reset (Z.to_nat (nc hist)) cnt (bmin hist) (a + Z.of_nat (start i base xs)) (Z.of_nat i) s top
      (Z.of_nat (length s)) 2 = Ok (s1, top', cnt', sp1) /\
    swap_frames s1 (Z.of_nat (length s)) sp1 = Ok s' /\
    s' ≡ₚ s ++ (bin_frame i a xs <$> big i xs (occ i 0 xs)) /\ length top' = 256%nat /\
    (forall c, (c < 256)%nat -> (0 < cn i c xs)%nat -> top' !! c = Some (Some (a + Z.of_nat (start i (S c) xs)))) /\
    cnt' = if reset then imap (fun c v => if decide (c ∈ occ i 0 xs) then 0 else v) cnt else cnt.
Proof.
  intros Hs Ht He Hcl Hcnt. destruct occ_least as (Ho & Hst & Hbase).
  pose proof (h_bmin _ _ _ _ _ _ Hh) as Hb. pose proof (h_nc _ _ _ _ _ _ Hh) as Hn.
  destruct (set_bins_ok str tr endch Hend i reset (length (occ i 0 xs)) cnt (Z.to_nat (bmin hist)) a s top
    (Z.of_nat (length s)) (Z.of_nat (length s)) 2 xs) as (s1 & top' & cnt' & sp1 & E & B).
  all: rewrite ?Ho; try done; try lia.
  - intros H0. revert Hbase. unfold base. rewrite H0. simpl. lia.
  - intros c Hc. apply Hcnt. lia.
  - rewrite Z2Nat.id, Hst in E by lia.
    destruct (swap_frames_ok s1 (Z.of_nat (length s)) sp1) as (s' & E' & Hp); [lia|apply B|].
    exists s1, top', cnt', sp1, s'. replace (Z.to_nat (nc hist)) with (length (occ i 0 xs)) by lia.
    split_and!; [done..| | | |]; destruct B as [B1 B2 B3 B4 B5 B6]; rewrite ?Ho in *; [by rewrite Hp, B1|done| |done].
    intros c Hc Hz. destruct (decide (Z.of_nat c = endch)) as [Hce|Hce].
    + rewrite B4; [|rewrite elem_occ; tauto]. by replace (Z.to_nat endch) with c in He by lia.
    + apply B3. apply elem_occ. split_and!; try done; lia.
Qed.

(** The end of strings has its place before the loop. *)
Lemma end_bin (a : Z) :
  (if endch =? 0 then a + Z.of_nat (cn i 0 xs) else a + Z.of_nat (length xs)) = a + Z.of_nat (start i (S (Z.to_nat endch)) xs) /\
  (if endch =? 0 then a + Z.of_nat (cn i 0 xs) else a) = a + Z.of_nat (start i base xs).
Proof.
  pose proof (grp_bytes str tr endch Htab i xs Hg) as Hb. pose proof (start_0 str tr endch i xs Hb) as H0.
  pose proof (start_all str tr endch i xs Hb) as Ha. pose proof (start_S str tr endch i 0 xs).
  unfold base. destruct (Z.eqb_spec endch 0) as [E|E].
  - replace (Z.to_nat endch) with 0%nat by lia. lia.
  - replace (S (Z.to_nat endch)) with 256%nat by lia. lia.
Qed.

Lemma hist_lookup c : (c < 256)%nat -> count hist !! c = Some (Z.of_nat (cn i c xs)).
Proof. intros Hc. by rewrite (h_count _ _ _ _ _ _ Hh), list_lookup_fmap, lookup_seq_lt. Qed.

Lemma hist_length : length (count hist) = 256%nat.
Proof. by rewrite (h_count _ _ _ _ _ _ Hh), length_fmap, length_seq. Qed.

Lemma split_a_ok s top pre post :
  Z.of_nat (length s) + nc hist <= SIZE -> length top = 256%nat ->
  exists s' top' ys,
    split_a str tr endch s top (pre ++ xs ++ post) hist (Frame (Z.of_nat (length pre)) (Z.of_nat (length xs)) (Z.of_nat i))
      = Ok (s', top', pre ++ ys ++ post, Statics (replicate 256 0) 0 (bmin hist)) /\
    s' ≡ₚ s ++ (bin_frame i (Z.of_nat (length pre)) xs <$> big i xs (occ i 0 xs)) /\
    length top' = 256%nat /\ dealt i xs ys.
Proof.
  intros Hs Ht. unfold split_a. set (a := Z.of_nat (length pre)).
  destruct (end_bin a) as [E1 E2]. assert (byte endch) as Heb by (unfold byte; lia). unfold byte in Heb.
  assert ((if endch =? 0 then
       let! v := arr_get (count hist) 0 in
       let! top := arr_set top 0 (Some (a + v)) in Ok (a + v, top)
     else let! top := arr_set top 255 (Some (a + Z.of_nat (length xs))) in Ok (a, top))
     = Ok (a + Z.of_nat (start i base xs), <[Z.to_nat endch := Some (a + Z.of_nat (start i (S (Z.to_nat endch)) xs))]> top)) as ->.
  { rewrite <- E1, <- E2. rewrite (hist_get _ _ _ i xs) by done. cbn [rbind].
    destruct (Z.eqb_spec endch 0) as [E|E]; rewrite arr_set_ok by lia; cbn [rbind]; do 3 f_equal; lia. }
  cbn [rbind].
  edestruct (bins_ok false s (<[Z.to_nat endch := Some (a + Z.of_nat (start i (S (Z.to_nat endch)) xs))]> top) (count hist) a)
    as (s1 & top' & cnt' & sp1 & s' & F1 & F2 & Hp & Htl & Htop & ->).
  { done. } { by rewrite length_insert. } { apply list_lookup_insert_eq. lia. } { apply hist_length. } { intros c Hc _. by apply hist_lookup. }
  rewrite F1. cbn [rbind]. rewrite F2. cbn [rbind].
  destruct (deal_a_ok str tr endch Htab i pre post (S (Z.to_nat (Z.of_nat (length xs)))) xs xs top' (count hist) (fun c => start i (S c) xs) 0 Hg)
    as (ys & top2 & F3 & Hd & Ht2).
  - split; try done; try lia.
    + intros c Hc Hz. apply Htop; [lia|done].
    + intros c Hc. pose proof (start_S str tr endch i c xs). lia.
    + intros c Hc q Hq. lia.
    + apply (h_count _ _ _ _ _ _ Hh).
  - lia.
  - rewrite (start_0 str tr endch i xs) in F3 by (by apply grp_bytes). rewrite Z.add_0_r in F3.
    fold a in F3. rewrite F3. cbn [rbind]. eauto 10.
Qed.

Lemma split_b_ok room s top pre post :
  Z.of_nat (length s) + nc hist <= SIZE -> length top = 256%nat -> Z.of_nat (length xs) <= room ->
  exists s' top' ys,
    split_b str tr endch room s top (pre ++ xs ++ post) hist (Frame (Z.of_nat (length pre)) (Z.of_nat (length xs)) (Z.of_nat i))
      = Ok (s', top', pre ++ ys ++ post, Statics (replicate 256 0) 0 (bmin hist)) /\
    s' ≡ₚ s ++ (bin_frame i (Z.of_nat (length pre)) xs <$> big i xs (occ i 0 xs)) /\
    length top' = 256%nat /\ dealt i xs ys /\
    forall c, (c < 256)%nat -> bin i xs c ys = filter (fun x => chr i x = Z.of_nat c) xs.
Proof.
  intros Hs Ht Hroom. unfold split_b. set (a := Z.of_nat (length pre)).
  destruct (end_bin a) as [E1 E2]. assert (byte endch) as Heb by (unfold byte; lia). unfold byte in Heb.
  set (top0 := <[Z.to_nat endch := Some (a + Z.of_nat (start i (S (Z.to_nat endch)) xs))]> top).
  set (cnt0 := <[Z.to_nat endch := 0]> (count hist)).
  pose proof hist_length as Hcl.
  assert ((if endch =? 0 then
       let! v := arr_get (count hist) 0 in
       let! top := arr_set top 0 (Some (a + v)) in
       let! cnt := arr_set (count hist) 0 0 in Ok (a + v, top, cnt)
     else let! top := arr_set top 255 (Some (a + Z.of_nat (length xs))) in
       let! cnt := arr_set (count hist) 255 0 in Ok (a, top, cnt))
     = Ok (a + Z.of_nat (start i base xs), top0, cnt0)) as ->.
  { unfold top0, cnt0. rewrite <- E1, <- E2. rewrite (hist_get _ _ _ i xs) by done. cbn [rbind].
    destruct (Z.eqb_spec endch 0) as [E|E]; rewrite !arr_set_ok by lia; cbn [rbind]; repeat (f_equal; try lia). }
  cbn [rbind].
  destruct (bins_ok true s top0 cnt0 a) as (s1 & top' & cnt' & sp1 & s' & F1 & F2 & Hp & Htl & Htop & ->).
  { done. } { unfold top0. by rewrite length_insert. } { apply list_lookup_insert_eq. lia. } { unfold cnt0. by rewrite length_insert. }
  { intros c Hc Hne. unfold cnt0. rewrite list_lookup_insert_ne by lia. by apply hist_lookup. }
  rewrite F1. cbn [rbind]. rewrite F2. cbn [rbind]. rewrite Z.gtb_ltb, (proj2 (Z.ltb_ge _ _)) by done.
  unfold a. rewrite !Nat2Z.id, copy_temp_ok, app_nil_r. cbn [rbind].
  destruct (deal_b_ok str tr endch Htab Hend i pre post xs xs [] top' xs Hg) as (ys & top2 & F3 & F).
  - by rewrite app_nil_r.
  - split; try done.
    + intros c Hc Hz. rewrite (Htop c Hc Hz). do 3 f_equal. unfold RadixBins.cn. simpl. lia.
    + intros c k Hc Hk. unfold RadixBins.cn in Hk. simpl in Hk. lia.
  - rewrite F3. cbn [rbind]. do 3 eexists. split_and!; [|done|apply F|eapply filled_dealt; eassumption|].
    + repeat f_equal. apply list_eq. intros c. rewrite list_lookup_imap.
      destruct (decide (c < 256)%nat); [|rewrite !lookup_ge_None_2; [done|rewrite length_replicate; lia|unfold cnt0; rewrite length_insert; lia]].
      rewrite lookup_replicate_2 by done. destruct (decide (Z.of_nat c = endch)) as [Hce|Hce].
      * unfold cnt0. rewrite <- Hce, Nat2Z.id, list_lookup_insert_eq by lia. simpl. by case_decide.
      * unfold cnt0. rewrite list_lookup_insert_ne, hist_lookup by lia. simpl. f_equal. case_decide as Ho; [done|].
        rewrite elem_occ in Ho. lia.
    + intros c Hc. eapply filled_bins; eassumption.
Qed.

End Round.

(** ** The bins of a round *)

Section Round.
Context (i : nat) (pre xs post ys : list A).
Context (Hg : grp i xs) (Hd : dealt i xs ys).
Context (Hst : st = true -> forall c, (c < 256)%nat -> bin i xs c ys = filter (fun x => chr i x = Z.of_nat c) xs).

#[local] Abbreviation f0 := (Frame (Z.of_nat (length pre)) (Z.of_nat (length xs)) (Z.of_nat i)).
#[local] Abbreviation bins := (bin_frame i (Z.of_nat (length pre)) xs <$> big i xs (occ i 0 xs)).

Lemma round_bytes : Forall (fun x => byte (chr i x)) xs.
Proof. exact (grp_bytes str tr endch Htab i xs Hg). Qed.

Lemma round_length : length ys = length xs.
Proof. by rewrite (proj1 Hd). Qed.

Lemma class_end c : (c < 256)%nat -> (start i c xs + cn i c xs <= length xs)%nat.
Proof.
  intros Hc. pose proof (start_S str tr endch i c xs). pose proof (start_mono str tr endch i (S c) 256 xs ltac:(lia)) as Hm.
  rewrite (start_all str tr endch i xs round_bytes) in Hm. lia.
Qed.

Lemma elem_bins g : g ∈ bins <-> exists c, g = bin_frame i (Z.of_nat (length pre)) xs c /\ (c < 256)%nat /\ Z.of_nat c <> endch /\ (1 < cn i c xs)%nat.
Proof.
  rewrite list_elem_of_fmap. unfold RadixBins.big. split; intros (c & -> & Hc); exists c; (split; [done|]);
    [apply list_elem_of_filter in Hc|apply list_elem_of_filter]; rewrite elem_occ in *; lia.
Qed.

Lemma seg_bin pre' zs post' c :
  length pre' = length pre -> length zs = length xs -> (c < 256)%nat ->
  seg (pre' ++ zs ++ post') (bin_frame i (Z.of_nat (length pre)) xs c) = bin i xs c zs.
Proof.
  intros Hp Hl Hc. pose proof (class_end c Hc) as He. unfold seg, RadixBins.bin_frame, RadixDeal.bin. cbn [sa sn].
  rewrite Nat2Z.id. replace (Z.to_nat (Z.of_nat (length pre) + Z.of_nat (start i c xs))) with (length pre' + start i c xs)%nat by lia.
  rewrite drop_app_add, drop_app_le, take_app_le; [done|rewrite length_drop; lia|lia].
Qed.

Lemma bins_inside g : g ∈ bins -> sa f0 <= sa g /\ sa g + sn g <= sa f0 + sn f0.
Proof. intros (c & -> & Hc & _)%elem_bins. pose proof (class_end c Hc). simpl. lia. Qed.

Lemma bins_disj h g : g ∈ bins -> disj h f0 -> disj h g.
Proof. intros Hb%bins_inside. unfold disj. lia. Qed.

Lemma bins_apart : apart bins.
Proof.
  assert (NoDup (big i xs (occ i 0 xs))) as Hn by (apply NoDup_filter, NoDup_filter, NoDup_seq).
  induction Hn as [|c cs Hc _ IH]; csimpl; [done|]. split; [|done]. apply Forall_fmap, Forall_forall. intros d Hdc.
  assert (c <> d) by (by intros ->). unfold disj. simpl.
  pose proof (start_S str tr endch i c xs). pose proof (start_S str tr endch i d xs).
  destruct (decide (c < d)%nat).
  - pose proof (start_mono str tr endch i (S c) d xs ltac:(lia)). lia.
  - pose proof (start_mono str tr endch i (S d) c xs ltac:(lia)). lia.
Qed.

(** The strings of a bin agree one character further. *)
Lemma bins_frames : Forall (frame_ok (pre ++ ys ++ post)) bins.
Proof.
  apply Forall_forall. intros g Hgb. pose proof (bins_inside g Hgb) as Hin.
  apply elem_bins in Hgb as (c & -> & Hc & Hce & Hcn). simpl in Hin. split; simpl; try lia.
  - rewrite !length_app, round_length. lia.
  - rewrite (seg_bin pre ys post c eq_refl round_length Hc).
    replace (Z.to_nat (Z.of_nat i + 1)) with (S i) by lia.
    pose proof (proj2 Hd c Hc) as Hcl. rewrite Forall_forall in Hcl.
    assert (bin i xs c ys ⊆ xs) as Hsub.
    { intros x Hx. rewrite <- (proj1 Hd). unfold RadixDeal.bin in Hx.
      eapply subseteq_drop, subseteq_take. exact Hx. }
    destruct Hg as [Hs Ha]. rewrite Forall_forall in Hs. split; [apply Forall_forall; auto|].
    intros x y Hx Hy. apply (agree_next str tr endch); auto; [by rewrite (Hcl x), (Hcl y)|by rewrite (Hcl x)].
Qed.

(** The other frames are as they were. *)
Lemma round_frame h : disj h f0 -> frame_ok (pre ++ xs ++ post) h ->
  seg (pre ++ ys ++ post) h = seg (pre ++ xs ++ post) h /\ frame_ok (pre ++ ys ++ post) h.
Proof.
  intros Hdis Hf. assert (seg (pre ++ ys ++ post) h = seg (pre ++ xs ++ post) h) as E.
  { apply seg_same; [done|]. intros k Hk. apply (mid_same pre xs ys post (Z.of_nat i)); [apply round_length|].
    revert Hk Hdis. unfold inside, disj. simpl. lia. }
  split; [done|]. destruct Hf as [? ? He ? ?]. split; try done; [|by rewrite E].
  rewrite !length_app, round_length in *. lia.
Qed.

(** A bin that is not on the stack needs no sorting. *)
Lemma idle_sorted c zs :
  zs ⊆ xs -> Forall (fun x => chr i x = Z.of_nat c) zs -> (length zs <= 1)%nat \/ Z.of_nat c = endch -> sorted_as zs zs.
Proof.
  intros Hsub Hc Hor. split_and!; [done| |intros _; apply stable_refl].
  destruct Hor as [Hl|Hce].
  - destruct zs as [|x [|y zs]]; [constructor|repeat constructor|simpl in Hl; lia].
  - assert (forall x, x ∈ zs -> x ∈ xs /\ chr i x = endch) as Hz.
    { intros x Hx. split; [by apply Hsub|]. by rewrite (proj1 (Forall_forall _ _) Hc x Hx). }
    clear Hsub Hc. destruct Hg as [Hs Ha]. rewrite Forall_forall in Hs.
    induction zs as [|x zs IH]; constructor; [apply IH; set_solver|]. apply Forall_forall. intros y Hy.
    destruct (Hz x ltac:(set_solver)) as [Hx Hcx], (Hz y ltac:(set_solver)) as [Hy' Hcy].
    unfold cmp. rewrite (agree_end str tr endch i x y) by auto. rewrite lex_refl. lia.
Qed.

Lemma round_sorted s arr2 :
  (forall h, h ∈ s -> disj h f0) -> Post (s ++ bins) (pre ++ ys ++ post) arr2 -> sorted_as xs (seg arr2 f0).
Proof.
  intros Hdis P. pose proof round_length as Hly. pose proof (po_len _ _ _ P) as Hl2. rewrite !length_app, Hly in Hl2.
  set (rs := seg arr2 f0). set (pre2 := take (length pre) arr2). set (post2 := drop (length xs) (drop (length pre) arr2)).
  assert (arr2 = pre2 ++ rs ++ post2) as E by (unfold rs, pre2, post2, seg; simpl; by rewrite !Nat2Z.id, !take_drop).
  assert (length pre2 = length pre) as Hlp by (unfold pre2; rewrite length_take; lia).
  assert (length rs = length xs) as Hlr by (unfold rs, seg; simpl; rewrite length_take, length_drop; lia).
  apply (sorted_combine str tr endch Htab Hend i st xs ys rs Hg Hd Hlr). intros c Hc. split; [|intros Ht; by apply Hst].
  rewrite <- (seg_bin pre2 rs post2 c Hlp Hlr Hc), <- E.
  destruct (decide (Z.of_nat c <> endch /\ (1 < cn i c xs)%nat)) as [Hbig|Hno].
  - rewrite <- (seg_bin pre ys post c eq_refl Hly Hc). apply (po_in _ _ _ P), elem_of_app. right. apply elem_bins. naive_solver.
  - assert (seg arr2 (bin_frame i (Z.of_nat (length pre)) xs c) = bin i xs c ys) as ->.
    { rewrite <- (seg_bin pre ys post c eq_refl Hly Hc). apply list_eq. intros k. rewrite !seg_lookup. case_decide as Hk; [|done].
      apply (po_out _ _ _ P). pose proof (class_end c Hc) as Hce. simpl in Hk. rewrite Nat2Z.id in Hk.
      intros g [Hgs|(d & -> & Hdc & Hde & Hdn)%elem_bins]%elem_of_app.
      - specialize (Hdis g Hgs). revert Hdis. unfold disj, inside. simpl. lia.
      - unfold inside. simpl. intros Hin. destruct (decide (d = c)) as [->|Hne]; [tauto|]. apply Hne.
        apply (bin_disjoint str tr endch i xs d c (start i c xs + k)); rewrite (start_S str tr endch); lia. }
    apply (idle_sorted c).
    + intros x Hx. rewrite <- (proj1 Hd). eapply subseteq_drop, subseteq_take. exact Hx.
    + by apply Hd.
    + rewrite (bin_length str tr endch) by (done || apply round_bytes). lia.
Qed.

(** Sorting the bins in place of the frame sorts the frame. *)
Lemma post_round s arr2 :
  Forall (frame_ok (pre ++ xs ++ post)) s -> (forall h, h ∈ s -> disj h f0) ->
  Post (s ++ bins) (pre ++ ys ++ post) arr2 -> Post (s ++ [f0]) (pre ++ xs ++ post) arr2.
Proof.
  intros Hs Hdis P. rewrite Forall_forall in Hs. split.
  - rewrite (po_len _ _ _ P), !length_app, round_length. done.
  - intros g [Hgs| ->%list_elem_of_singleton]%elem_of_app.
    + destruct (round_frame g) as [<- _]; [auto..|]. apply (po_in _ _ _ P), elem_of_app. by left.
    + rewrite seg_mid. by eapply round_sorted.
  - intros k Hk. rewrite (po_out _ _ _ P).
    + apply (mid_same pre xs ys post (Z.of_nat i)); [apply round_length|]. apply Hk, elem_of_app. right. by left.
    + intros g [Hgs|Hgb]%elem_of_app; [apply Hk, elem_of_app; by left|].
      intros Hin. apply (Hk f0); [apply elem_of_app; right; by left|].
      apply bins_inside in Hgb. revert Hin Hgb. unfold inside. lia.
Qed.

End Round.

(** ** The stack and what it has to do *)

Record inv arr s : Prop := {
  in_frames : Forall (frame_ok arr) s;
  in_apart : apart s;
  in_size : Z.of_nat (length s) <= SIZE
}.

(** Every string of a frame has characters left. *)
Definition ahead (i : nat) xs : nat := sum_list ((fun x => length (key x) - i)%nat <$> xs).
Definition weight arr f : nat := S (ahead (Z.to_nat (si f)) (seg arr f)).
Definition tot arr s : nat := sum_list (weight arr <$> s).

#[export] Instance ahead_perm i : Proper ((≡ₚ) ==> (=)) (ahead i).
Proof. intros xs ys E. unfold ahead. by rewrite E. Qed.
#[export] Instance tot_perm arr : Proper ((≡ₚ) ==> (=)) (tot arr).
Proof. intros s1 s2 E. unfold tot. by rewrite E. Qed.

Lemma ahead_app i xs ys : ahead i (xs ++ ys) = (ahead i xs + ahead i ys)%nat.
Proof. unfold ahead. rewrite fmap_app. apply sum_list_with_app. Qed.

Lemma tot_app arr s1 s2 : tot arr (s1 ++ s2) = (tot arr s1 + tot arr s2)%nat.
Proof. unfold tot. rewrite fmap_app. apply sum_list_with_app. Qed.

Lemma ahead_next i xs : grp i xs -> (ahead (S i) xs + length xs = ahead i xs)%nat.
Proof.
  intros [_ Ha]. assert (forall x, x ∈ xs -> (i < length (key x))%nat) as Hl by (intros x Hx; by apply (Ha x x)).
  clear Ha. induction xs as [|x xs IH]; [done|]. unfold ahead in *. csimpl.
  assert (i < length (key x))%nat by (apply Hl; by left). rewrite <- IH by (intros y Hy; apply Hl; by right). lia.
Qed.

(** A frame that is done. *)
Lemma done_frame s f arr arr1 :
  inv arr (s ++ [f]) -> Post [f] arr arr1 ->
  inv arr1 s /\ (tot arr1 s < tot arr (s ++ [f]))%nat /\ forall arr2, Post s arr1 arr2 -> Post (s ++ [f]) arr arr2.
Proof.
  intros [Hf Ha Hsz] P. apply Forall_app in Hf as [Hs Hf]. apply apart_app in Ha as (Ha & _ & Hd).
  rewrite length_app in Hsz.
  assert (forall g, g ∈ s -> seg arr1 g = seg arr g) as Hsame.
  { intros g Hg. apply seg_same; [by apply (proj1 (Forall_forall _ _) Hs)|]. intros k Hk. apply (po_out _ _ _ P).
    intros f' ->%list_elem_of_singleton. specialize (Hd g f Hg ltac:(by left)). revert Hd Hk. unfold disj, inside. lia. }
  split_and!; [split; [|done|simpl in Hsz; lia]| |].
  - rewrite Forall_forall in *. intros g Hg. destruct (Hs g Hg) as [? ? ? ? Hgrp]. split; try done.
    + by rewrite (po_len _ _ _ P).
    + by rewrite Hsame.
  - rewrite tot_app. assert (tot arr1 s = tot arr s) as ->.
    { unfold tot. f_equal. apply list_fmap_ext. intros k g Hk. unfold weight.
      rewrite Hsame; [done|]. by eapply list_elem_of_lookup_2. }
    unfold tot at 3, weight. simpl. lia.
  - intros arr2 P2. rewrite Permutation_app_comm. eapply post_seq; try done.
    intros g h ->%list_elem_of_singleton Hh. apply disj_sym, Hd; [done|by left].
Qed.

Lemma sum_filter_le {B} (g : B -> nat) (Q : B -> Prop) `{!forall b, Decision (Q b)} (l : list B) :
  (sum_list (g <$> filter Q l) <= sum_list (g <$> l))%nat.
Proof. induction l as [|b l IH]; [done|]. rewrite filter_cons. case_decide; csimpl; lia. Qed.

Lemma ahead_concat i (g : nat -> list A) cs : ahead i (concat (g <$> cs)) = sum_list ((fun c => ahead i (g c)) <$> cs).
Proof. induction cs as [|c cs IH]; [done|]. csimpl. by rewrite ahead_app, IH. Qed.

(** The bins of a round have less to do than its frame. *)
Lemma round_weight i pre xs post ys :
  grp i xs -> dealt i xs ys ->
  (tot (pre ++ ys ++ post) (bin_frame i (Z.of_nat (length pre)) xs <$> big i xs (occ i 0 xs)) <= ahead i xs)%nat.
Proof.
  intros Hg Hd. pose proof (round_length i xs ys Hd) as Hl.
  assert (grp i ys) as Hgy by (apply (grp_sub str tr endch i xs); [done|]; intros x; by rewrite (proj1 Hd)).
  assert (ahead i xs = sum_list ((fun c => ahead i (bin i xs c ys)) <$> seq 0 256)) as ->.
  { rewrite <- ahead_concat, (bins_all str tr endch i xs ys) by (done || by apply grp_bytes). by rewrite (proj1 Hd). }
  unfold tot. rewrite <- list_fmap_compose. unfold compose.
  etrans; [|etrans; [apply (sum_filter_le (fun c => ahead i (bin i xs c ys)) (fun d => Z.of_nat d <> endch /\ (0 < cn i d xs)%nat))|done]].
  etrans; [|apply (sum_filter_le (fun c => ahead i (bin i xs c ys)) (fun c => (1 < cn i c xs)%nat))].
  change (filter _ (filter _ _)) with (big i xs (occ i 0 xs)).
  assert (forall c, c ∈ big i xs (occ i 0 xs) -> (c < 256)%nat /\ (1 < cn i c xs)%nat) as Hb.
  { intros c [? Hc%elem_occ]%list_elem_of_filter. lia. }
  induction (big i xs (occ i 0 xs)) as [|c cs IH]; csimpl; [done|].
  destruct (Hb c ltac:(by left)) as [Hc Hcn].
  specialize (IH ltac:(intros d Hdc; apply Hb; by right)).
  rewrite (seg_bin i pre xs Hg pre ys post c eq_refl Hl Hc). replace (Z.to_nat (Z.of_nat i + 1)) with (S i) by lia.
  enough (S (ahead (S i) (bin i xs c ys)) <= ahead i (bin i xs c ys))%nat by lia.
  rewrite <- (ahead_next i (bin i xs c ys)).
  - rewrite (bin_length str tr endch) by (done || by apply grp_bytes). lia.
  - apply (grp_sub str tr endch i ys); [done|]. intros x Hx. eapply subseteq_drop, subseteq_take. exact Hx.
Qed.

Lemma round_next i pre xs post ys s s' h :
  let arr := pre ++ xs ++ post in
  let arr1 := pre ++ ys ++ post in
  let f0 := Frame (Z.of_nat (length pre)) (Z.of_nat (length xs)) (Z.of_nat i) in
  grp i xs -> dealt i xs ys ->
  (st = true -> forall c, (c < 256)%nat -> bin i xs c ys = filter (fun x => chr i x = Z.of_nat c) xs) ->
  inv arr (s ++ [f0]) -> hist_is str tr endch i xs h -> Z.of_nat (length s) + nc h <= SIZE ->
  s' ≡ₚ s ++ (bin_frame i (Z.of_nat (length pre)) xs <$> big i xs (occ i 0 xs)) ->
  inv arr1 s' /\ (tot arr1 s' < tot arr (s ++ [f0]))%nat /\ forall arr2, Post s' arr1 arr2 -> Post (s ++ [f0]) arr arr2.
Proof.
  intros arr arr1 f0 Hg Hd Hst [Hf Ha Hsz] Hh Hn Hp. apply Forall_app in Hf as [Hs Hf]. apply apart_app in Ha as (Ha & _ & Hdis).
  assert (forall h, h ∈ s -> disj h f0) as Hdf by (intros g Hgs; apply Hdis; [done|by left]).
  assert (forall g, g ∈ s -> seg arr1 g = seg arr g /\ frame_ok arr1 g) as Hsame.
  { intros g Hgs. apply (round_frame i); auto. by apply (proj1 (Forall_forall _ _) Hs). }
  split_and!; [split| |].
  - rewrite Hp. apply Forall_app. split; [apply Forall_forall; intros g Hgs; by apply Hsame|by apply bins_frames].
  - rewrite Hp. apply apart_app. split_and!; [done|by apply bins_apart|].
    intros g b Hgs Hb. eapply (bins_disj i pre xs); eauto.
  - rewrite Hp, length_app, length_fmap. unfold RadixBins.big.
    pose proof (length_filter (fun c => (1 < cn i c xs)%nat) (occ i 0 xs)). rewrite (h_nc _ _ _ _ _ _ Hh) in Hn. lia.
  - rewrite Hp, !tot_app. assert (tot arr1 s = tot arr s) as ->.
    { unfold tot. f_equal. apply list_fmap_ext. intros k g Hk. unfold weight.
      destruct (Hsame g) as [-> _]; [|done]. by eapply list_elem_of_lookup_2. }
    pose proof (round_weight i pre xs post ys Hg Hd) as Hw. fold arr1 in Hw.
    enough (tot arr [f0] = S (ahead i xs)) by lia. unfold tot, weight, arr, f0. csimpl. rewrite seg_mid, Nat2Z.id. lia.
  - intros arr2 P. rewrite Hp in P. by apply (post_round i pre xs post ys).
Qed.

(** All strings have the same character: the frame moves on. *)
Lemma cn_all i c xs : cn i c xs = length xs -> Forall (fun x => chr i x = Z.of_nat c) xs.
Proof.
  clear Hend. induction xs as [|x xs IH]; [constructor|]. rewrite cn_cons.
  assert (cn i c xs <= length xs)%nat by apply length_filter.
  simpl. case_decide; [|lia]. intros E. constructor; [done|]. apply IH. lia.
Qed.

Lemma one_next i pre xs post s c :
  let arr := pre ++ xs ++ post in
  let f0 := Frame (Z.of_nat (length pre)) (Z.of_nat (length xs)) (Z.of_nat i) in
  let f1 := Frame (Z.of_nat (length pre)) (Z.of_nat (length xs)) (Z.of_nat i + 1) in
  cn i c xs = length xs -> Z.of_nat c <> endch -> (0 < length xs)%nat -> inv arr (s ++ [f0]) ->
  inv arr (s ++ [f1]) /\ (tot arr (s ++ [f1]) < tot arr (s ++ [f0]))%nat /\
  forall arr2, Post (s ++ [f1]) arr arr2 -> Post (s ++ [f0]) arr arr2.
Proof.
  intros arr f0 f1 Hc%cn_all Hce Hn [Hf Ha Hsz]. apply Forall_app in Hf as [Hs Hf]. apply apart_app in Ha as (Ha & _ & Hdis).
  rewrite Forall_singleton in Hf. destruct Hf as [? ? ? ? Hg]. unfold f0, arr in Hg. rewrite seg_mid in Hg. simpl in Hg. rewrite Nat2Z.id in Hg.
  assert (grp (S i) xs) as Hg1.
  { destruct Hg as [Hsx Hax]. split; [done|]. rewrite Forall_forall in Hsx, Hc. intros x y Hx Hy.
    apply (agree_next str tr endch); auto; [by rewrite (Hc x), (Hc y)|by rewrite (Hc x)]. }
  split_and!; [split| |].
  - apply Forall_app. split; [done|]. apply Forall_singleton. split; simpl in *; try lia.
    unfold f1, arr. rewrite seg_mid. by replace (Z.to_nat (Z.of_nat i + 1)) with (S i) by lia.
  - apply apart_app. split_and!; [done|simpl; done|]. intros g h Hgs ->%list_elem_of_singleton.
    apply (Hdis g f0 Hgs). by left.
  - rewrite length_app in *. done.
  - rewrite !tot_app. enough (tot arr [f1] < tot arr [f0])%nat by lia. unfold tot, weight, arr, f0, f1. csimpl.
    rewrite !seg_mid, Nat2Z.id. replace (Z.to_nat (Z.of_nat i + 1)) with (S i) by lia.
    pose proof (ahead_next i xs Hg). lia.
  - intros arr2 [P1 P2 P3]. split; [done| |].
    + intros g [Hgs| ->%list_elem_of_singleton]%elem_of_app; [apply P2, elem_of_app; by left|].
      apply (P2 f1), elem_of_app. right. by left.
    + intros k Hk. apply P3. intros g [Hgs| ->%list_elem_of_singleton]%elem_of_app; [apply Hk, elem_of_app; by left|].
      apply (Hk f0), elem_of_app. right. by left.
Qed.

(** ** Histograms between the rounds *)

(** The static variables: clean, or the histogram of the only frame. *)
Definition zeros : list Z := replicate 256 0.
Definition ready arr s (h : statics) : Prop :=
  (nc h = 0 /\ count h = zeros) \/
  exists f, s = [f] /\ THRESHOLD <= sn f /\ 0 < nc h /\ hist_is str tr endch (Z.to_nat (si f)) (seg arr f) h.

Lemma hist_clean i : hist_is str tr endch i [] (Statics zeros 0 255).
Proof.
  assert (occ i 0 [] = []) as Ho.
  { apply filter_none_in. intros c _ [_ Hc]. unfold RadixBins.cn in Hc. simpl in Hc. lia. }
  split; rewrite ?Ho; simpl; try done; try lia. by intros c ?%elem_of_nil.
Qed.

Lemma nc_bound i xs h : hist_is str tr endch i xs h -> 0 <= nc h <= 256.
Proof.
  clear Hend. intros Hh. rewrite (h_nc _ _ _ _ _ _ Hh). unfold RadixBins.occ.
  pose proof (length_filter (fun d => Z.of_nat d <> endch /\ (0 < cn i d xs)%nat) (seq 0 (256 - 0))) as Hl.
  rewrite length_seq in Hl. lia.
Qed.

Lemma frame_parts arr f :
  frame_ok arr f -> exists pre xs post i,
    arr = pre ++ xs ++ post /\ f = Frame (Z.of_nat (length pre)) (Z.of_nat (length xs)) (Z.of_nat i) /\ grp i xs.
Proof.
  intros Hf. destruct (seg_split arr f Hf) as (pre & post & E & E1 & E2 & E3).
  exists pre, (seg arr f), post, (Z.to_nat (si f)). split_and!; [done| |apply Hf]. destruct f; simpl in *. congruence.
Qed.

(** The part of a round that makes the histogram. *)
Lemma hist_step pre xs post i s h (run : res statics) :
  let arr := pre ++ xs ++ post in
  let f0 := Frame (Z.of_nat (length pre)) (Z.of_nat (length xs)) (Z.of_nat i) in
  inv arr (s ++ [f0]) -> ready arr (s ++ [f0]) h ->
  (count h = zeros -> exists h1, run = Ok h1 /\ hist_is str tr endch i xs h1) ->
  exists h1 more,
    (if nc h =? 0 then let! h1 := run in Ok (h1, Z.of_nat (length s) + nc h1 >? SIZE) else Ok (h, false)) = Ok (h1, more) /\
    hist_is str tr endch i xs h1 /\
    if more : bool then s <> [] /\ 0 < nc h1 else Z.of_nat (length s) + nc h1 <= SIZE.
Proof.
  intros arr f0 Hin [[Hz Hc]|(f & Es & _ & Hn & Hh)] Hrun.
  - destruct (Hrun Hc) as (h1 & -> & H1). rewrite Hz. simpl. do 2 eexists. split_and!; [done..|].
    pose proof (in_size _ _ Hin) as Hsz. rewrite length_app in Hsz. simpl in Hsz.
    pose proof (nc_bound i xs h1 H1) as Hb. rewrite Z.gtb_ltb. unfold SIZE in *.
    destruct (Z.ltb_spec 512 (Z.of_nat (length s) + nc h1)); [|done].
    split; [|lia]. intros ->. simpl in *. lia.
  - apply (app_eq_unit s) in Es as [[-> Ef]|[_ [=]]]. injection Ef as <-. rewrite (proj2 (Z.eqb_neq _ _)) by lia.
    unfold f0, arr in Hh. rewrite seg_mid in Hh. simpl in Hh. rewrite Nat2Z.id in Hh.
    exists h, false. split_and!; [done..|]. pose proof (nc_bound i xs h Hh). unfold SIZE. simpl. lia.
Qed.

(** The histogram where one class has all strings. *)
Lemma one_clean i xs h c :
  hist_is str tr endch i xs h -> (c < 256)%nat -> cn i c xs = length xs -> arr_set (count h) (Z.of_nat c) 0 = Ok zeros.
Proof.
  intros Hh Hc Hall%cn_all. rewrite arr_set_ok by (rewrite (hist_length i xs h Hh); lia). rewrite Nat2Z.id. f_equal.
  apply list_eq. intros d. unfold zeros. destruct (decide (d < 256)%nat) as [Hd|Hd].
  - rewrite lookup_replicate_2 by done. destruct (decide (d = c)) as [->|Hne].
    + apply list_lookup_insert_eq. by rewrite (hist_length i xs h Hh).
    + rewrite list_lookup_insert_ne by done. rewrite (hist_lookup i xs h Hh d Hd). do 2 f_equal. change 0 with (Z.of_nat 0). f_equal.
      unfold RadixBins.cn. rewrite filter_none_in; [done|]. intros x Hx. rewrite (proj1 (Forall_forall _ _) Hall x Hx). lia.
  - rewrite !lookup_ge_None_2; [done|rewrite length_replicate; lia|rewrite length_insert, (hist_length i xs h Hh); lia].
Qed.

(** A frame of its own, and one frame less. *)
Lemma inv_last arr s f : inv arr (s ++ [f]) -> inv arr [f].
Proof.
  intros [Hf _ _]. apply Forall_app in Hf as [_ Hf]. split; [done|simpl; done|simpl; unfold SIZE; lia].
Qed.

Lemma tot_pos arr s f : s <> [] -> (tot arr [f] < tot arr (s ++ [f]))%nat.
Proof. intros Hs. rewrite tot_app. destruct s as [|g s]; [done|]. unfold tot at 2, weight. csimpl. lia. Qed.

Lemma one_test i xs h :
  hist_is str tr endch i xs h ->
  exists one, (if nc h =? 1 then let! v := arr_get (count h) (bmin h) in Ok (v =? Z.of_nat (length xs)) else Ok false) = Ok one /\
    (one = true -> exists c, bmin h = Z.of_nat c /\ (c < 256)%nat /\ Z.of_nat c <> endch /\ cn i c xs = length xs).
Proof.
  intros Hh. destruct (Z.eqb_spec (nc h) 1) as [H1|H1]; [|by exists false].
  pose proof (h_nc _ _ _ _ _ _ Hh) as Hn. pose proof (h_bmin _ _ _ _ _ _ Hh) as Hb.
  pose proof (h_occ _ _ _ _ _ _ Hh ltac:(lia)) as Ho. apply elem_occ in Ho.
  rewrite (hist_get str tr endch i xs) by (done || unfold byte; lia). eexists. split; [done|].
  intros E%Z.eqb_eq. exists (Z.to_nat (bmin h)). split_and!; try lia; try tauto.
Qed.

End Stack.

(** ** The loops *)

Section Loops.
Context {A : Type} `{!Inhabited A} (str : A -> list Z) (tr : list Z) (endch : Z).
Context (Htab : table_ok tr) (Hend : endch = 0 \/ endch = 255).

Lemma sorts_sorted_as st (xs rs : list A) : sorts str tr endch xs rs -> sorted_as str tr endch st xs rs.
Proof. intros (? & ? & ?). by split_and!. Qed.

#[local] Abbreviation ready := (ready str tr endch).
#[local] Abbreviation inv := (inv str tr endch).
#[local] Abbreviation tot := (tot str tr endch).

Lemma r_sort_a_ok fuel s top (arr : list A) h :
  inv arr s -> ready arr s h -> length top = 256%nat -> (tot arr s < fuel)%nat ->
  exists arr' bm, r_sort_a str tr endch fuel s top arr h = Ok (arr', Statics zeros 0 bm) /\ Post str tr endch false s arr arr'.
Proof.
  revert s top arr h. induction fuel as [|fuel IH]; intros s top arr h Hin Hr Htop Hf; [lia|].
  destruct s as [|f s _] using rev_ind.
  { exists arr, (bmin h). destruct Hr as [[E1 E2]|(f & [=] & _)]. split; [|by split; [|intros f ?%elem_of_nil|]].
    destruct h; simpl in *. by subst. }
  cbn [r_sort_a]. rewrite last_snoc, removelast_last.
  pose proof (in_frames _ _ _ _ _ Hin) as Hfr. rewrite Forall_app, Forall_singleton in Hfr.
  destruct (frame_parts _ _ _ arr f (proj2 Hfr)) as (pre & xs & post & i & -> & -> & Hg). clear Hfr.
  destruct (Z.ltb_spec (Z.of_nat (length xs)) THRESHOLD) as [Hsmall|Hbig].
  { destruct (simplesort_ok str tr endch Htab Hend pre xs post i Hg) as (rs & -> & Hrs%(sorts_sorted_as false)). cbn [rbind].
    destruct (done_frame str tr endch Hend false _ _ _ (pre ++ rs ++ post) Hin) as (Hin1 & Ht & Hp); [by eapply post_one|].
    destruct (IH s top _ h Hin1) as (arr' & bm & -> & P); [|done|lia|eauto].
    destruct Hr as [Hr|(f & Es & Hs & _)]; [by left|].
    apply (app_eq_unit s) in Es as [[_ Ef]|[_ [=]]]. injection Ef as <-. simpl in Hs. lia. }
  edestruct (hist_step str tr endch pre xs post i s h) as (h1 & more & -> & Hh & Hmore); [done..| |].
  { intros ->. destruct (hist_up_ok str tr endch Htab Hend i pre [] xs [] post _ Hg (hist_clean str tr endch i)) as (h1 & E & H1).
    rewrite app_nil_r in H1. exists h1. split; [|done]. rewrite Nat2Z.id, <- E. f_equal. simpl. lia. }
  cbn [rbind]. destruct more.
  { destruct Hmore as [Hne Hn]. set (f0 := Frame _ _ _) in *.
    destruct (IH [f0] (replicate 256 None) (pre ++ xs ++ post) h1) as (arr1 & bm1 & -> & P1).
    - by apply inv_last in Hin.
    - right. exists f0. split_and!; [done|done|done|]. unfold f0. rewrite seg_mid. simpl. by rewrite Nat2Z.id.
    - by rewrite length_replicate.
    - pose proof (tot_pos str tr endch (pre ++ xs ++ post) s f0 Hne). lia.
    - cbn [rbind]. destruct (done_frame str tr endch Hend false _ _ _ arr1 Hin P1) as (Hin1 & Ht & Hp).
      destruct (IH s top _ (Statics zeros 0 bm1) Hin1) as (arr' & bm & -> & P); [by left|done|lia|eauto]. }
  destruct (one_test str tr endch Hend i xs h1 Hh) as (one & -> & Hone). cbn [rbind]. destruct one.
  { destruct (Hone eq_refl) as (c & Eb & Hc & Hce & Hall). rewrite Eb.
    destruct (one_next str tr endch Hend false i pre xs post s c Hall Hce) as (Hin1 & Ht & Hp); [unfold THRESHOLD in Hbig; lia|done|].
    unfold push. pose proof (in_size _ _ _ _ _ Hin) as Hsz. rewrite length_app in Hsz. simpl in Hsz.
    rewrite (proj2 (Z.ltb_lt _ _)) by lia. cbn [rbind]. rewrite (one_clean str tr endch i xs h1 c Hh Hc Hall). cbn [rbind].
    destruct (IH _ top _ (Statics zeros 0 (Z.of_nat c)) Hin1) as (arr' & bm & -> & P); [by left|done|lia|eauto]. }
  destruct (split_a_ok str tr endch Htab Hend i xs h1 Hg Hh s top pre post Hmore Htop) as (s' & top' & ys & -> & Hs' & Htop' & Hd).
  cbn [rbind]. fold zeros.
  destruct (round_next str tr endch Htab Hend false i pre xs post ys s s' h1) as (Hin1 & Ht & Hp); try done.
  destruct (IH s' top' _ (Statics zeros 0 (bmin h1)) Hin1) as (arr' & bm & -> & P); [by left|done|lia|eauto].
Qed.

Lemma r_sort_b_ok room fuel s top (arr : list A) h :
  inv arr s -> ready arr s h -> length top = 256%nat -> (tot arr s < fuel)%nat -> Z.of_nat (length arr) <= room ->
  exists arr' bm, r_sort_b str tr endch room fuel s top arr h = Ok (arr', Statics zeros 0 bm) /\ Post str tr endch true s arr arr'.
Proof.
  revert s top arr h. induction fuel as [|fuel IH]; intros s top arr h Hin Hr Htop Hf Hroom; [lia|].
  destruct s as [|f s _] using rev_ind.
  { exists arr, (bmin h). destruct Hr as [[E1 E2]|(f & [=] & _)]. split; [|by split; [|intros f ?%elem_of_nil|]].
    destruct h; simpl in *. by subst. }
  cbn [r_sort_b]. rewrite last_snoc, removelast_last.
  pose proof (in_frames _ _ _ _ _ Hin) as Hfr. rewrite Forall_app, Forall_singleton in Hfr.
  destruct (frame_parts _ _ _ arr f (proj2 Hfr)) as (pre & xs & post & i & -> & -> & Hg). clear Hfr.
  destruct (Z.ltb_spec (Z.of_nat (length xs)) THRESHOLD) as [Hsmall|Hbig].
  { destruct (simplesort_ok str tr endch Htab Hend pre xs post i Hg) as (rs & -> & Hrs%(sorts_sorted_as true)). cbn [rbind].
    assert (Post str tr endch true [Frame (Z.of_nat (length pre)) (Z.of_nat (length xs)) (Z.of_nat i)] (pre ++ xs ++ post) (pre ++ rs ++ post)) as P1
      by (by eapply post_one).
    destruct (done_frame str tr endch Hend true _ _ _ _ Hin P1) as (Hin1 & Ht & Hp).
    destruct (IH s top _ h Hin1) as (arr' & bm & -> & P); [|done|lia|by rewrite (po_len _ _ _ _ _ _ _ P1)|eauto].
    destruct Hr as [Hr|(f & Es & Hs & _)]; [by left|].
    apply (app_eq_unit s) in Es as [[_ Ef]|[_ [=]]]. injection Ef as <-. simpl in Hs. lia. }
  edestruct (hist_step str tr endch pre xs post i s h) as (h1 & more & -> & Hh & Hmore); [done..| |].
  { intros ->. destruct (hist_down_ok str tr endch Htab Hend i pre xs [] [] post _ ltac:(by rewrite app_nil_r) (hist_clean str tr endch i)) as (h1 & E & H1).
    rewrite !app_nil_r in *. exists h1. split; [|done]. by rewrite Nat2Z.id. }
  cbn [rbind]. destruct more.
  { destruct Hmore as [Hne Hn]. set (f0 := Frame _ _ _) in *.
    destruct (IH [f0] (replicate 256 None) (pre ++ xs ++ post) h1) as (arr1 & bm1 & -> & P1).
    - by apply inv_last in Hin.
    - right. exists f0. split_and!; [done|done|done|]. unfold f0. rewrite seg_mid. simpl. by rewrite Nat2Z.id.
    - by rewrite length_replicate.
    - pose proof (tot_pos str tr endch (pre ++ xs ++ post) s f0 Hne). lia.
    - done.
    - cbn [rbind]. destruct (done_frame str tr endch Hend true _ _ _ arr1 Hin P1) as (Hin1 & Ht & Hp).
      destruct (IH s top _ (Statics zeros 0 bm1) Hin1) as (arr' & bm & -> & P); [by left|done|lia|by rewrite (po_len _ _ _ _ _ _ _ P1)|eauto]. }
  destruct (split_b_ok str tr endch Htab Hend i xs h1 Hg Hh room s top pre post Hmore Htop)
    as (s' & top' & ys & -> & Hs' & Htop' & Hd & Hbins); [rewrite !length_app in Hroom; lia|].
  cbn [rbind]. fold zeros.
  destruct (round_next str tr endch Htab Hend true i pre xs post ys s s' h1) as (Hin1 & Ht & Hp); try done.
  destruct (IH s' top' _ (Statics zeros 0 (bmin h1)) Hin1) as (arr' & bm & -> & P); [by left|done|lia| |eauto].
  rewrite !length_app in *. by rewrite (proj1 Hd).
Qed.

(** The first frame is the whole array. *)
Lemma whole_inv (arr : list A) :
  Forall (string_ok str tr endch) arr -> inv arr [Frame 0 (Z.of_nat (length arr)) 0].
Proof.
  intros Hs. split; [|simpl; done|simpl; unfold SIZE; lia]. apply Forall_singleton. split; simpl; try lia.
  unfold seg. simpl. rewrite Nat2Z.id, drop_0, firstn_all. split; [done|].
  rewrite Forall_forall in Hs. intros x y Hx%Hs Hy%Hs. split; [done|].
  destruct Hx as [Hx1 Hx2], Hy as [Hy1 Hy2].
  split; by apply (cut_spec tr endch).
Qed.

Lemma whole_fuel (arr : list A) :
  Forall (string_ok str tr endch) arr -> (tot arr [Frame 0 (Z.of_nat (length arr)) 0] < fuel_for str arr)%nat.
Proof.
  intros Hs. assert (ahead str tr endch 0 arr <= sum_list ((fun x => length (str x)) <$> arr))%nat as Hle.
  { unfold ahead. induction Hs as [|x xs [Hx1 Hx2] _ IH]; csimpl; [done|].
    destruct (cut_spec tr endch (str x) Hx1 Hx2) as [Hle _].
    change (cut tr endch (str x)) with (key str tr endch x) in Hle. lia. }
  assert (tot arr [Frame 0 (Z.of_nat (length arr)) 0] = S (ahead str tr endch 0 arr)) as ->.
  { unfold RadixThms.tot, weight, seg. csimpl. by rewrite Nat2Z.id, drop_0, firstn_all, Nat.add_0_r. }
  unfold fuel_for. lia.
Qed.

Lemma whole_post st (arr arr' : list A) :
  Post str tr endch st [Frame 0 (Z.of_nat (length arr)) 0] arr arr' -> sorted_as str tr endch st arr arr'.
Proof.
  intros P. pose proof (po_in _ _ _ _ _ _ _ P _ ltac:(by left)) as Hs. pose proof (po_len _ _ _ _ _ _ _ P) as Hl.
  unfold seg in Hs. simpl in Hs. rewrite Nat2Z.id, !drop_0, firstn_all, <- Hl, firstn_all in Hs. done.
Qed.

End Loops.

(** ** The order that the caller asks for *)

(** The weights of the bytes, and that of the byte that ends a string. *)
Definition weights (tab : option (list Z)) (endch : Z) : list Z :=
  match tab with
  | Some tab => tab
  | None => (fun n => if Z.of_nat n <? endch then Z.of_nat n + 1 else if Z.of_nat n =? endch then 0 else Z.of_nat n) <$> seq 0 256
  end.
Definition end_weight (tab : option (list Z)) (endch : Z) : Z := weights tab endch !!! Z.to_nat endch.
Definition tab_ok (tab : option (list Z)) : Prop := match tab with Some t => table_ok t | None => True end.

(** The static variables between calls. *)
Definition clean (h : statics) : Prop := nc h = 0 /\ count h = zeros.

Lemma clean_first calloc_a calloc_b bm :
  (calloc_a = true -> clean (Statics (r_sort_count_allocate calloc_a calloc_b).1 0 bm)) /\
  (calloc_b = true -> clean (Statics (r_sort_count_allocate calloc_a calloc_b).2 0 bm)).
Proof. by split; intros ->. Qed.

Lemma weights_ok tab endch : tab_ok tab -> byte endch -> table_ok (weights tab endch).
Proof.
  destruct tab as [t|]; [done|]. intros _ He. cbn [weights]. split; [by rewrite length_fmap, length_seq|].
  apply Forall_fmap, Forall_seq. intros b Hb. unfold byte in *. simpl.
  destruct (Z.ltb_spec (Z.of_nat b) endch), (Z.eqb_spec (Z.of_nat b) endch); lia.
Qed.

Lemma SETUP_ok tab endch :
  tab_ok tab -> byte endch ->
  SETUP tab endch = Ok (if decide (end_weight tab endch = 0 \/ end_weight tab endch = 255)
                        then Some (weights tab endch, end_weight tab endch) else None).
Proof.
  intros Ht He. unfold SETUP. destruct tab as [t|].
  - destruct (trn_get t Ht endch He) as [-> _]. cbn [rbind].
    change (end_weight (Some t) endch) with (trn t endch). change (weights (Some t) endch) with t.
    destruct (Z.eqb_spec (trn t endch) 0), (Z.eqb_spec (trn t endch) 255), (decide _); simpl; done || lia.
  - assert (end_weight None endch = 0) as ->; [|by rewrite (proj2 (Z.ltb_lt _ _)) by apply He].
    unfold byte in He. unfold end_weight. apply list_lookup_total_correct. cbn [weights].
    rewrite list_lookup_fmap, lookup_seq_lt by lia. simpl. rewrite Z2Nat.id by lia.
    by rewrite Z.ltb_irrefl, Z.eqb_refl.
Qed.

(** The bytes before the one that ends the string. *)
Fixpoint text (endch : Z) (s : list Z) : list Z :=
  match s with
  | [] => []
  | b :: s => if b =? endch then [] else b :: text endch s
  end.

(** Strings are compared by their weights, and without a table as strings of
    bytes. *)
Definition order (tab : option (list Z)) (endch : Z) (s t : list Z) : Z :=
  match tab with
  | Some tab => lex (cut tab (end_weight (Some tab) endch) s) (cut tab (end_weight (Some tab) endch) t)
  | None => lex (text endch s) (text endch t)
  end.

Lemma default_weight endch b : byte b -> byte endch ->
  trn (weights None endch) b = if b <? endch then b + 1 else if b =? endch then 0 else b.
Proof.
  unfold byte. intros Hb He. unfold trn. apply list_lookup_total_correct. cbn [weights].
  rewrite list_lookup_fmap, lookup_seq_lt by lia. simpl. by rewrite Z2Nat.id by lia.
Qed.

Lemma default_order endch s t :
  byte endch -> Forall byte s -> Forall byte t -> endch ∈ s -> endch ∈ t ->
  lex (cut (weights None endch) 0 s) (cut (weights None endch) 0 t) = lex (text endch s) (text endch t).
Proof.
  intros He Hs. revert t. induction Hs as [|a s Ha Hs IH]; intros t Ht Es Et; [by apply elem_of_nil in Es|].
  destruct Ht as [|b t Hb Ht]; [by apply elem_of_nil in Et|]. cbn [cut text]. rewrite !default_weight by done.
  rewrite elem_of_cons in Es, Et. unfold byte in *.
  destruct (Z.eqb_spec a endch) as [->|Ea], (Z.eqb_spec b endch) as [->|Eb]; rewrite ?Z.ltb_irrefl, ?Z.eqb_refl.
  - done.
  - destruct (Z.ltb_spec b endch); rewrite (proj2 (Z.eqb_neq _ 0)) by lia; cbn [lex]; by rewrite (proj2 (Z.ltb_lt _ _)) by lia.
  - destruct (Z.ltb_spec a endch); rewrite (proj2 (Z.eqb_neq _ 0)) by lia; cbn [lex];
      by rewrite (proj2 (Z.ltb_ge _ _)), (proj2 (Z.ltb_lt _ _)) by lia.
  - specialize (IH t Ht ltac:(by destruct Es as [?|?]; [lia|]) ltac:(by destruct Et as [?|?]; [lia|])).
    destruct (Z.ltb_spec a endch), (Z.ltb_spec b endch); rewrite !(proj2 (Z.eqb_neq _ 0)) by lia; cbn [lex]; rewrite IH;
      destruct (Z.ltb_spec a b), (Z.ltb_spec b a); try lia; repeat (case_match; try lia).
Qed.

(** ** The functions *)

Section Functions.
Context {A : Type} `{!Inhabited A} (str : A -> list Z) (tab : option (list Z)) (endch : Z).
Context (Ht : tab_ok tab) (He : byte endch).

#[local] Abbreviation tr := (weights tab endch).
#[local] Abbreviation ew := (end_weight tab endch).
#[local] Abbreviation ok := (string_ok str tr ew).

Lemma order_cmp x y : ok x -> ok y -> order tab endch (str x) (str y) = cmp str tr ew x y.
Proof.
  intros [Hx1 Hx2] [Hy1 Hy2]. unfold order, cmp, key. destruct tab as [t|]; [done|].
  assert (end_weight None endch = 0) as Ew.
  { change (end_weight None endch) with (trn (weights None endch) endch). rewrite default_weight by done.
    by rewrite Z.ltb_irrefl, Z.eqb_refl. }
  rewrite Ew in *. symmetry.
  assert (forall s, Forall byte s -> Exists (fun b => trn (weights None endch) b = 0) s -> endch ∈ s) as Hin.
  { intros s Hs (b & Hb & Eb)%Exists_exists. rewrite Forall_forall in Hs. specialize (Hs b Hb).
    rewrite default_weight in Eb by done. unfold byte in *.
    destruct (Z.ltb_spec b endch), (Z.eqb_spec b endch); subst; done || lia. }
  by apply default_order; auto.
Qed.

(** What a sorted array is for the caller. *)
Definition ordered (arr arr' : list A) : Prop :=
  arr' ≡ₚ arr /\ StronglySorted (fun x y => order tab endch (str x) (str y) <= 0) arr'.
Definition in_order (arr arr' : list A) : Prop :=
  forall z, z ∈ arr -> filter (fun x => order tab endch (str z) (str x) = 0) arr' =
                       filter (fun x => order tab endch (str z) (str x) = 0) arr.

Lemma sorted_ordered st arr arr' :
  Forall ok arr -> sorted_as str tr ew st arr arr' -> ordered arr arr' /\ (st = true -> in_order arr arr').
Proof.
  intros Hok (Hp & Hs & Hst).
  assert (Forall ok arr') as Hok' by (by rewrite Hp). rewrite Forall_forall in Hok, Hok'. split; [split; [done|]|].
  - clear Hp Hst. induction Hs as [|x xs Hs IH Hx]; constructor; [apply IH; intros y Hy; apply Hok'; by right|].
    rewrite Forall_forall in *. intros y Hy. rewrite order_cmp; [by apply Hx|apply Hok'; by left|apply Hok'; by right].
  - intros E z Hz. rewrite (filter_ext_in _ (fun x => cmp str tr ew z x = 0) arr') by (intros x Hx; rewrite order_cmp by auto; done).
    rewrite (filter_ext_in _ (fun x => cmp str tr ew z x = 0) arr) by (intros x Hx; rewrite order_cmp by auto; done).
    symmetry. by apply Hst.
Qed.

Lemma radixsort_ok arr h :
  clean h -> ew = 0 \/ ew = 255 -> Forall ok arr ->
  exists arr' h', radixsort str true arr tab endch h = Ok (0, None, arr', h') /\ clean h' /\ ordered arr arr'.
Proof.
  intros Hc Hew Hok. unfold radixsort. rewrite (SETUP_ok tab endch Ht He), decide_True by done. cbn [rbind negb].
  destruct (r_sort_a_ok str tr ew (weights_ok tab endch Ht He) Hew (fuel_for str arr) _ (replicate 256 None) arr h
    (whole_inv str tr ew arr Hok)) as (arr' & bm & -> & P); [by left|done|by apply whole_fuel|].
  cbn [rbind]. do 2 eexists. split_and!; [done|done|]. apply whole_post in P. by eapply sorted_ordered.
Qed.

Lemma sradixsort_ok malloc arr h :
  clean h -> ew = 0 \/ ew = 255 -> Forall ok arr -> malloc = true \/ Z.of_nat (length arr) < THRESHOLD ->
  exists arr' h', sradixsort str true malloc arr tab endch h = Ok (0, None, arr', h') /\ clean h' /\
    ordered arr arr' /\ in_order arr arr'.
Proof.
  intros Hc Hew Hok Hm. unfold sradixsort. rewrite (SETUP_ok tab endch Ht He), decide_True by done. cbn [rbind negb].
  pose proof (weights_ok tab endch Ht He) as Htab.
  destruct (Z.ltb_spec (Z.of_nat (length arr)) THRESHOLD) as [Hs|Hs].
  - pose proof (in_frames _ _ _ _ _ (whole_inv str tr ew arr Hok)) as Hf. rewrite Forall_singleton in Hf.
    apply fo_grp in Hf. unfold seg in Hf. simpl in Hf. rewrite Nat2Z.id, drop_0, firstn_all in Hf.
    destruct (simplesort_ok str tr ew Htab Hew [] arr [] 0 Hf) as (rs & E & Hrs%(sorts_sorted_as str tr ew true)).
    cbn [app] in E. rewrite !app_nil_r in E.
    change (Z.of_nat (length [])) with 0 in E. change (Z.of_nat 0) with 0 in E. rewrite E. cbn [rbind]. exists rs, h.
    apply sorted_ordered in Hrs as [? ?]; [|done]. split_and!; auto.
  - destruct Hm as [-> |]; [|lia]. cbn [negb].
    destruct (r_sort_b_ok str tr ew Htab Hew (Z.of_nat (length arr)) (fuel_for str arr) _ (replicate 256 None) arr h
      (whole_inv str tr ew arr Hok)) as (arr' & bm & -> & P); [by left|done|by apply whole_fuel|lia|].
    cbn [rbind]. exists arr', (Statics zeros 0 bm). apply whole_post, sorted_ordered in P as [? ?]; [|done]. split_and!; auto. done.
Qed.

End Functions.

(** [C37] The in-place radix sort, on every array of terminated strings,
    every byte that ends them and every table: when the table gives the
    end byte a weight other than 0 and 255 it fails with [EINVAL] and touches
    nothing, otherwise it returns 0 and the array is a permutation in order,
    the order of the table's weights or without a table of the bytes before
    the end byte.  It never leaves the array, the strings, the stack or its
    tables, it terminates, and it leaves its static variables clean for the
    next call, also where the stack is too small and it calls itself.  It
    is assumed that [pthread_once] and the [calloc] of the table of counts
    succeed ([true] and [clean h]; [radixsort_no_memory] shows what happens
    otherwise). *)
Theorem radixsort_sorts {A} `{!Inhabited A} (str : A -> list Z) tab endch arr h :
  tab_ok tab -> byte endch -> clean h ->
  (end_weight tab endch <> 0 -> end_weight tab endch <> 255 ->
     radixsort str true arr tab endch h = Ok (-1, Some EINVAL, arr, h)) /\
  (end_weight tab endch = 0 \/ end_weight tab endch = 255 ->
     Forall (string_ok str (weights tab endch) (end_weight tab endch)) arr ->
     exists arr' h', radixsort str true arr tab endch h = Ok (0, None, arr', h') /\ clean h' /\
       ordered str tab endch arr arr').
Proof.
  intros Ht He Hc. split; [|by apply radixsort_ok].
  intros H0 H255. unfold radixsort. rewrite SETUP_ok by done. by rewrite decide_False by lia.
Qed.

(** Thirty strings, some of them equal, in an order of their own. *)
Definition some_strings : list (list Z) :=
  (fun k => [97 + (Z.of_nat k * 7) mod 5; 98 + (Z.of_nat k * Z.of_nat k) mod 3; 0; Z.of_nat k]) <$> seq 0 30.
(** The weights of reverse order. *)
Definition reverse_table : list Z := (fun k => 255 - Z.of_nat k) <$> seq 0 256.

Lemma radixsort_sorts_witness :
  (exists arr' h', radixsort id true some_strings None 0 (Statics zeros 0 0) = Ok (0, None, arr', h') /\ clean h' /\
     ordered id None 0 some_strings arr') /\
  (exists arr' h', radixsort id true some_strings (Some reverse_table) 0 (Statics zeros 0 0) = Ok (0, None, arr', h') /\ clean h' /\
     ordered id (Some reverse_table) 0 some_strings arr') /\
  radixsort id true some_strings (Some reverse_table) 98 (Statics zeros 0 0) = Ok (-1, Some EINVAL, some_strings, Statics zeros 0 0).
Proof.
  split; [|split].
  - apply (radixsort_sorts id None 0 some_strings (Statics zeros 0 0)); [done|unfold byte; lia|done|by left|].
    unfold string_ok, byte. apply (bool_decide_unpack _). vm_compute. exact I.
  - apply (radixsort_sorts id (Some reverse_table) 0 some_strings (Statics zeros 0 0)); [|unfold byte; lia|done|by right|].
    + split; [done|]. apply Forall_forall. intros z (k & -> & Hk%elem_of_seq)%list_elem_of_fmap. unfold byte. lia.
    + unfold string_ok, byte. apply (bool_decide_unpack _). vm_compute. exact I.
  - apply (radixsort_sorts id (Some reverse_table) 98 some_strings (Statics zeros 0 0)); [|unfold byte; lia|done|done|done].
    split; [done|]. apply Forall_forall. intros z (k & -> & Hk%elem_of_seq)%list_elem_of_fmap. unfold byte. lia.
Defined.

(** [C38] The stable radix sort, on every array of terminated strings and
    every table: it fails with [EINVAL] as the in-place sort does; an
    array of [THRESHOLD] strings or more for which there is no memory stays as
    it is and the result is -1; otherwise it returns 0, the array is a
    permutation in order, and strings that compare equal are in the order
    they had.  The copy stays inside the memory it asked for and the static
    variables are clean afterwards.  It is assumed that [pthread_once] and the
    [calloc] of the table of counts succeed. *)
Theorem sradixsort_stable {A} `{!Inhabited A} (str : A -> list Z) malloc tab endch arr h :
  tab_ok tab -> byte endch -> clean h ->
  (end_weight tab endch <> 0 -> end_weight tab endch <> 255 ->
     sradixsort str true malloc arr tab endch h = Ok (-1, Some EINVAL, arr, h)) /\
  (end_weight tab endch = 0 \/ end_weight tab endch = 255 ->
     Forall (string_ok str (weights tab endch) (end_weight tab endch)) arr ->
     if decide (malloc = false /\ THRESHOLD <= Z.of_nat (length arr))
     then sradixsort str true malloc arr tab endch h = Ok (-1, None, arr, h)
     else exists arr' h', sradixsort str true malloc arr tab endch h = Ok (0, None, arr', h') /\ clean h' /\
       ordered str tab endch arr arr' /\ in_order str tab endch arr arr').
Proof.
  intros Ht He Hc. split.
  - intros H0 H255. unfold sradixsort. rewrite SETUP_ok by done. by rewrite decide_False by lia.
  - intros Hew Hok. case_decide as Hd.
    + destruct Hd as [-> Hd]. unfold sradixsort. rewrite SETUP_ok, decide_True by done. cbn [rbind].
      by rewrite (proj2 (Z.ltb_ge _ _)) by done.
    + apply sradixsort_ok; try done. destruct malloc; [by left|right]. apply Z.nle_gt. tauto.
Qed.

Lemma sradixsort_stable_witness :
  (exists arr' h', sradixsort id true true some_strings None 0 (Statics zeros 0 0) = Ok (0, None, arr', h') /\ clean h' /\
     ordered id None 0 some_strings arr' /\ in_order id None 0 some_strings arr') /\
  sradixsort id true false some_strings None 0 (Statics zeros 0 0) = Ok (-1, None, some_strings, Statics zeros 0 0).
Proof.
  split.
  - apply (sradixsort_stable id true None 0 some_strings (Statics zeros 0 0)); [done|unfold byte; lia|done|by left|].
    unfold string_ok, byte. apply (bool_decide_unpack _). vm_compute. exact I.
  - apply (sradixsort_stable id false None 0 some_strings (Statics zeros 0 0)); [done|unfold byte; lia|done|by left|].
    unfold string_ok, byte. apply (bool_decide_unpack _). vm_compute. exact I.
Defined.

(** Where [calloc] failed there is no histogram, and the sort writes through a
    null pointer; where [pthread_once] failed it reports success and has not
    sorted. *)
Example radixsort_no_memory : radixsort id true some_strings None 0 (Statics (r_sort_count_allocate false true).1 0 0) = Crash OutOfBounds.
Proof. reflexivity. Qed.
Example radixsort_no_once : radixsort id false some_strings None 0 (Statics [] 0 0) = Ok (0, None, some_strings, Statics [] 0 0).
Proof. reflexivity. Qed.
