(* ===== verification/Search.v ===== *)
(** * Search: linear search and queues of [search.h]

    Model of [stdlib/FreeBSD/lsearch.c], [insque.c] and [remque.c] of Libc, and
    what they do.  The table of a linear search is the memory of the caller,
    which may have more room than the [nel] elements in use.  The elements of
    queues are in a memory of their own; the two functions change links
    only. *)

From S2P Require Import Prelude.

Module LSearch.
Section LSearch.
Context {A : Type} (compar : A -> A -> Z).
Implicit Types (mem : list A) (key : A).

(** [for (endp = ...; ep < endp; ep += width)]: the element found. *)
Fixpoint lwork_loop (rounds : nat) key mem (ep : Z) : res (option Z) :=
  match rounds with
  | O => Ok None
  | S rounds =>
      let! x := arr_get mem ep in
      if compar key x =? 0 then Ok (Some ep) else lwork_loop rounds key mem (ep + 1)
  end.

Definition lwork key mem (nel : Z) (addelem : bool) : res (option Z * list A * Z) :=
  let! found := lwork_loop (Z.to_nat nel) key mem 0 in
  match found with
  | Some ep => Ok (Some ep, mem, nel)
  | None =>
      if negb addelem then Ok (None, mem, nel)
      else
        let! mem := arr_set mem nel key in
        Ok (Some nel, mem, u64 (nel + 1))
  end.

Definition lsearch key mem nel := lwork key mem nel true.
Definition lfind key mem nel := lwork key mem nel false.

(** The place of the first element that compares equal. *)
Definition place key mem (nel : nat) : option nat := fst <$> list_find (fun x => compar key x = 0) (take nel mem).

Lemma lwork_loop_ok key mem (nel ep : nat) :
  (ep + nel <= length mem)%nat ->
  lwork_loop nel key mem (Z.of_nat ep) = Ok ((fun i => Z.of_nat (ep + i)) <$> place key (drop ep mem) nel).
Proof.
  revert ep. induction nel as [|nel IH]; intros ep Hl; [done|]. cbn [lwork_loop].
  destruct (lookup_lt_is_Some_2 mem ep) as [x Hx]; [lia|].
  rewrite (arr_get_ok mem _ x) by (rewrite ?Nat2Z.id; done || lia). cbn [rbind].
  unfold place. rewrite (drop_S mem x ep Hx). cbn [take list_find fmap option_fmap option_map].
  destruct (Z.eqb_spec (compar key x) 0) as [E|E].
  - rewrite decide_True by done. simpl. do 3 f_equal. lia.
  - rewrite decide_False by done. replace (Z.of_nat ep + 1) with (Z.of_nat (S ep)) by lia. rewrite IH by lia.
    unfold place. destruct (list_find _ _) as [[i y]|]; simpl; [|done]. do 3 f_equal. lia.
Qed.

(** Both functions give the first element that compares equal to the key.
    Where there is none [lfind] gives NULL, and [lsearch] puts the key behind
    the last element, which needs room for it. *)
Theorem lsearch_spec key mem (nel : nat) :
  (nel <= length mem)%nat -> Z.of_nat nel < 2 ^ 64 - 1 ->
  lfind key mem (Z.of_nat nel) = Ok (Z.of_nat <$> place key mem nel, mem, Z.of_nat nel) /\
  lsearch key mem (Z.of_nat nel) =
    match place key mem nel with
    | Some i => Ok (Some (Z.of_nat i), mem, Z.of_nat nel)
    | None => if decide (nel < length mem)%nat then Ok (Some (Z.of_nat nel), <[nel := key]> mem, Z.of_nat (S nel))
              else Crash OutOfBounds
    end.
Proof.
  intros Hl Hn. unfold lfind, lsearch, lwork. rewrite Nat2Z.id.
  pose proof (lwork_loop_ok key mem nel 0 Hl) as E. change (Z.of_nat 0) with 0 in E. rewrite E, drop_0. cbn [rbind].
  destruct (place key mem nel) as [i|]; simpl; [done|]. split; [done|]. case_decide.
  - rewrite arr_set_ok by lia. cbn [rbind]. rewrite Nat2Z.id. unfold u64.
    rewrite Z.mod_small by lia. do 2 f_equal. lia.
  - unfold arr_set. rewrite bool_decide_eq_false_2 by lia. done.
Qed.

(** What [lsearch] has put in is found afterwards. *)
Corollary lsearch_lfind key mem (nel : nat) i mem' nel' :
  (nel <= length mem)%nat -> Z.of_nat nel < 2 ^ 64 - 2 -> compar key key = 0 ->
  lsearch key mem (Z.of_nat nel) = Ok (Some i, mem', nel') -> lfind key mem' nel' = Ok (Some i, mem', nel').
Proof.
  intros Hl Hn Hk E. rewrite (proj2 (lsearch_spec key mem nel Hl ltac:(lia))) in E.
  destruct (place key mem nel) as [j|] eqn:P.
  - injection E as <- <- <-. rewrite (proj1 (lsearch_spec key mem nel Hl ltac:(lia))). by rewrite P.
  - case_decide as Hr; [|done]. injection E as <- <- <-.
    rewrite (proj1 (lsearch_spec key (<[nel := key]> mem) (S nel) ltac:(rewrite length_insert; lia) ltac:(lia))).
    do 3 f_equal. unfold place in *. apply fmap_None in P.
    rewrite (take_S_r _ _ key) by (by apply list_lookup_insert_eq). rewrite take_insert_ge by lia.
    rewrite list_find_app_r by done. simpl. rewrite decide_True by done. simpl. f_equal.
    rewrite length_take. lia.
Qed.

End LSearch.

Example lsearch_run :
  lsearch Z.sub 7 [5; 6; 0; 0] 2 = Ok (Some 2, [5; 6; 7; 0], 3) /\ lfind Z.sub 6 [5; 6; 0; 0] 2 = Ok (Some 1, [5; 6; 0; 0], 2) /\
  lfind Z.sub 0 [5; 6; 0; 0] 2 = Ok (None, [5; 6; 0; 0], 2).
Proof. by split_and!. Qed.

End LSearch.

Module Queue.

Abbreviation ptr := (option positive).

Record que_elem := QueElem { next : ptr; prev : ptr }.
Abbreviation mem := (gmap positive que_elem).

Definition get (m : mem) (p : positive) : res que_elem :=
  match m !! p with Some e => Ok e | None => Crash OutOfBounds end.
Definition set_next (m : mem) (p : positive) (q : ptr) : res mem :=
  let! e := get m p in Ok (<[p := QueElem q (prev e)]> m).
Definition set_prev (m : mem) (p : positive) (q : ptr) : res mem :=
  let! e := get m p in Ok (<[p := QueElem (next e) q]> m).

Definition insque (m : mem) (elem : positive) (pred : ptr) : res mem :=
  match pred with
  | None =>
      let! m := set_next m elem None in
      set_prev m elem None
  | Some p =>
      let! e := get m p in
      let nxt := next e in
      let! m := (match nxt with Some n => set_prev m n (Some elem) | None => Ok m end) in
      let! m := set_next m p (Some elem) in
      let! m := set_prev m elem (Some p) in
      set_next m elem nxt
  end.

Definition remque (m : mem) (elem : positive) : res mem :=
  let! e := get m elem in
  let! m := (match prev e with Some p => set_next m p (next e) | None => Ok m end) in
  match next e with Some n => set_prev m n (prev e) | None => Ok m end.

(** ** Links *)

(** The fields of the elements, where there are elements. *)
Definition nx (m : mem) (p : positive) : option ptr := next <$> m !! p.
Definition pv (m : mem) (p : positive) : option ptr := prev <$> m !! p.

Lemma fields_eq m m' p : nx m' p = nx m p -> pv m' p = pv m p -> m' !! p = m !! p.
Proof.
  unfold nx, pv. destruct (m !! p) as [[]|], (m' !! p) as [[]|]; simpl; try done. congruence.
Qed.

Lemma set_next_ok m p q : is_Some (nx m p) ->
  exists m', set_next m p q = Ok m' /\ (forall x, nx m' x = if decide (x = p) then Some q else nx m x) /\
    forall x, pv m' x = pv m x.
Proof.
  intros [n Hn]. unfold nx in Hn. apply fmap_Some in Hn as (e & He & _). unfold set_next, get. rewrite He. cbn [rbind].
  eexists. split; [done|]. unfold nx, pv. split; intros x; destruct (decide (x = p)) as [->|].
  - by rewrite lookup_insert_eq.
  - by rewrite lookup_insert_ne.
  - by rewrite lookup_insert_eq, He.
  - by rewrite lookup_insert_ne.
Qed.

Lemma set_prev_ok m p q : is_Some (nx m p) ->
  exists m', set_prev m p q = Ok m' /\ (forall x, pv m' x = if decide (x = p) then Some q else pv m x) /\
    forall x, nx m' x = nx m x.
Proof.
  intros [n Hn]. unfold nx in Hn. apply fmap_Some in Hn as (e & He & _). unfold set_prev, get. rewrite He. cbn [rbind].
  eexists. split; [done|]. unfold nx, pv. split; intros x; destruct (decide (x = p)) as [->|].
  - by rewrite lookup_insert_eq.
  - by rewrite lookup_insert_ne.
  - by rewrite lookup_insert_eq, He.
  - by rewrite lookup_insert_ne.
Qed.

Lemma pv_nx m p q : pv m p = Some q -> is_Some (nx m p).
Proof. unfold pv, nx. destruct (m !! p); simpl; [eauto|done]. Qed.

(** Two elements side by side, or an element at an end. *)
Definition link (m : mem) (ab : ptr * ptr) : Prop :=
  (forall p, ab.1 = Some p -> nx m p = Some ab.2) /\ (forall q, ab.2 = Some q -> pv m q = Some ab.1).

Definition sources (E : list (ptr * ptr)) : list positive := omap fst E.
Definition targets (E : list (ptr * ptr)) : list positive := omap snd E.

#[export] Instance sources_perm : Proper ((≡ₚ) ==> (≡ₚ)) sources.
Proof. intros E1 E2 H. unfold sources. by apply omap_Permutation. Qed.
#[export] Instance targets_perm : Proper ((≡ₚ) ==> (≡ₚ)) targets.
Proof. intros E1 E2 H. unfold targets. by apply omap_Permutation. Qed.

(** Links that no write touches stay. *)
Lemma links_frame m m' E :
  Forall (link m) E -> (forall q, q ∈ sources E -> nx m' q = nx m q) -> (forall q, q ∈ targets E -> pv m' q = pv m q) ->
  Forall (link m') E.
Proof.
  intros HE Hs Ht. rewrite Forall_forall in *. intros [a b] Hab. destruct (HE _ Hab) as [H1 H2]. simpl in *. split; simpl.
  - intros p ->. rewrite Hs; [by apply H1|]. apply list_elem_of_omap. by exists (Some p, b).
  - intros q ->. rewrite Ht; [by apply H2|]. apply list_elem_of_omap. by exists (a, Some q).
Qed.

Lemma insque_links m p n E e :
  Forall (link m) ((Some p, n) :: E) -> NoDup (sources ((Some p, n) :: E)) -> NoDup (targets ((Some p, n) :: E)) ->
  e ∉ sources ((Some p, n) :: E) -> e ∉ targets ((Some p, n) :: E) -> is_Some (m !! e) ->
  exists m', insque m e (Some p) = Ok m' /\ Forall (link m') ((Some p, Some e) :: (Some e, n) :: E) /\
    forall q, q <> e -> q <> p -> n <> Some q -> m' !! q = m !! q.
Proof.
  intros HE Hs Ht Hes Het Hm. apply Forall_cons in HE as [[Hp Hn] HE]. simpl in Hp, Hn. specialize (Hp p eq_refl).
  unfold sources in Hs, Hes. unfold targets in Ht, Het. cbn [omap list_omap fst snd] in *.
  apply not_elem_of_cons in Hes as [Hep Hes]. apply NoDup_cons in Hs as [Hps Hs].
  assert (is_Some (nx m e)) as Hme by (unfold nx; by rewrite fmap_is_Some).
  assert (exists m1, match n with Some n => set_prev m n (Some e) | None => Ok m end = Ok m1 /\
    (forall x, pv m1 x = if decide (Some x = n) then Some (Some e) else pv m x) /\ forall x, nx m1 x = nx m x) as (m1 & E1 & P1 & N1).
  { destruct n as [n|]; [|exists m; split_and!; [done|intros x; by rewrite decide_False|done]].
    destruct (set_prev_ok m n (Some e)) as (m1 & E1 & P1 & N1); [eapply pv_nx; by apply Hn|]. exists m1. split_and!; [done| |done].
    intros x. rewrite P1. apply decide_ext. naive_solver. }
  destruct (set_next_ok m1 p (Some e)) as (m2 & E2 & N2 & P2); [by rewrite N1, Hp|].
  destruct (set_prev_ok m2 e (Some p)) as (m3 & E3 & P3 & N3); [by rewrite N2, decide_False, N1|].
  destruct (set_next_ok m3 e n) as (m4 & E4 & N4 & P4); [by rewrite N3, N2, decide_False, N1|].
  assert (forall x, nx m4 x = if decide (x = e) then Some n else if decide (x = p) then Some (Some e) else nx m x) as N.
  { intros x. rewrite N4, N3, N2, N1. done. }
  assert (forall x, pv m4 x = if decide (x = e) then Some (Some p) else if decide (Some x = n) then Some (Some e) else pv m x) as P.
  { intros x. rewrite P4, P3, P2, P1. done. }
  clear N1 P1 N2 P2 N3 P3 N4 P4. exists m4. split_and!.
  - unfold insque, get. unfold nx in Hp. apply fmap_Some in Hp as (ep & -> & Hn'). cbn [rbind]. rewrite <- Hn', E1. cbn [rbind].
    rewrite E2. cbn [rbind]. by rewrite E3.
  - assert (n <> Some e) as Hne by (intros ->; apply Het; by left).
    repeat constructor; simpl.
    + intros q [= <-]. rewrite N, decide_False by done. by rewrite decide_True.
    + intros q [= <-]. by rewrite P, decide_True.
    + intros q [= <-]. by rewrite N, decide_True.
    + intros q ->. rewrite P, decide_False by congruence. by rewrite decide_True.
    + apply (links_frame m); [done|..].
      * intros q Hq. rewrite N, !decide_False; [done|by intros ->|by intros ->].
      * intros q Hq. rewrite P, !decide_False; [done| |].
        -- intros <-. simpl in Ht. by apply NoDup_cons in Ht as [? _].
        -- intros ->. apply Het. destruct n; [by right|done].
  - intros q Hqe Hqp Hqn. apply fields_eq; [rewrite N|rewrite P]; rewrite !decide_False by congruence; done.
Qed.

Lemma remque_links m a e b E :
  Forall (link m) ((a, Some e) :: (Some e, b) :: E) -> a <> Some e -> b <> Some e ->
  NoDup (sources ((a, Some e) :: (Some e, b) :: E)) -> NoDup (targets ((a, Some e) :: (Some e, b) :: E)) ->
  exists m', remque m e = Ok m' /\ Forall (link m') ((a, b) :: E) /\
    forall q, a <> Some q -> b <> Some q -> m' !! q = m !! q.
Proof.
  intros HE Hae Hbe Hs Ht. apply Forall_cons in HE as [[Ha1 Ha2] HE]. apply Forall_cons in HE as [[Hb1 Hb2] HE]. simpl in *.
  specialize (Ha2 e eq_refl). specialize (Hb1 e eq_refl).
  assert (exists m1, match a with Some p => set_next m p b | None => Ok m end = Ok m1 /\
    (forall x, nx m1 x = if decide (Some x = a) then Some b else nx m x) /\ forall x, pv m1 x = pv m x) as (m1 & E1 & N1 & P1).
  { destruct a as [p|]; [|exists m; split_and!; [done|intros x; by rewrite decide_False|done]].
    destruct (set_next_ok m p b) as (m1 & E1 & N1 & P1); [by rewrite (Ha1 p)|]. exists m1. split_and!; [done| |done].
    intros x. rewrite N1. apply decide_ext. naive_solver. }
  assert (exists m2, match b with Some n => set_prev m1 n a | None => Ok m1 end = Ok m2 /\
    (forall x, pv m2 x = if decide (Some x = b) then Some a else pv m1 x) /\ forall x, nx m2 x = nx m1 x) as (m2 & E2 & P2 & N2).
  { destruct b as [n|]; [|exists m1; split_and!; [done|intros x; by rewrite decide_False|done]].
    destruct (set_prev_ok m1 n a) as (m2 & E2 & P2 & N2).
    { eapply pv_nx. rewrite P1. by apply Hb2. }
    exists m2. split_and!; [done| |done]. intros x. rewrite P2. apply decide_ext. naive_solver. }
  exists m2. split_and!.
  - unfold remque, get. unfold nx in Hb1. apply fmap_Some in Hb1 as (ee & Hee & Hn'). unfold pv in Ha2. rewrite Hee in Ha2.
    injection Ha2 as Hp'. rewrite Hee. cbn [rbind]. by rewrite Hp', <- Hn', E1.
  - constructor; [split; simpl|apply (links_frame m); [done|..]].
    + intros p ->. by rewrite N2, N1, decide_True.
    + intros q ->. by rewrite P2, decide_True.
    + intros q Hq. rewrite N2, N1, decide_False; [done|]. intros <-. simpl in Hs.
      apply NoDup_cons in Hs as [Hni _]. apply Hni. by right.
    + intros q Hq. rewrite P2, decide_False, P1; [done|]. intros <-. simpl in Ht.
      apply NoDup_cons in Ht as [_ Ht]. by apply NoDup_cons in Ht as [Hni _].
  - intros q Hqa Hqb. apply fields_eq; [rewrite N2, N1|rewrite P2, P1]; by rewrite decide_False by congruence.
Qed.

(** ** Queues *)

(** The links of the elements [l] from [a] to [b]. *)
Fixpoint chain (a : ptr) (l : list positive) (b : ptr) : list (ptr * ptr) :=
  match l with
  | [] => [(a, b)]
  | x :: l => (a, Some x) :: chain (Some x) l b
  end.

(** A queue with two ends, or one that is a circle. *)
Definition edges (circle : bool) (l : list positive) : list (ptr * ptr) :=
  match circle, l with
  | false, _ => chain None l None
  | true, [] => []
  | true, x :: l => chain (Some x) l (Some x)
  end.

Definition queue (circle : bool) (m : mem) (l : list positive) : Prop := NoDup l /\ Forall (link m) (edges circle l).

Lemma chain_ends a l b : sources (chain a l b) = option_list a ++ l /\ targets (chain a l b) = l ++ option_list b.
Proof.
  revert a. induction l as [|x l IH]; intros a; [by destruct a, b|].
  destruct (IH (Some x)) as [E1 E2]. unfold sources, targets in *. csimpl. rewrite E1, E2. by destruct a.
Qed.

Lemma edges_ends c l : sources (edges c l) ≡ₚ l /\ targets (edges c l) ≡ₚ l.
Proof.
  destruct c, l as [|x l]; simpl; try done.
  - destruct (chain_ends (Some x) l (Some x)) as [-> ->]. simpl. split; [done|]. by rewrite Permutation_app_comm.
  - destruct (chain_ends (Some x) l None) as [E1 E2]. unfold sources, targets in *. simpl. rewrite E1, E2.
    simpl. by rewrite app_nil_r.
Qed.

Lemma chain_app a l1 p l2 b : chain a (l1 ++ p :: l2) b = chain a l1 (Some p) ++ chain (Some p) l2 b.
Proof. revert a. induction l1 as [|x l1 IH]; intros a; simpl; [done|by rewrite IH]. Qed.

Lemma chain_head l b : exists n R, forall a, chain a l b = (a, n) :: R.
Proof. destruct l as [|x l]; [by exists b, []|]. exists (Some x), (chain (Some x) l b). done. Qed.

Lemma chain_last a l : exists F c, forall b, chain a l b = F ++ [(c, b)].
Proof.
  revert a. induction l as [|x l IH]; intros a; [by exists [], a|]. destruct (IH (Some x)) as (F & c & E).
  exists ((a, Some x) :: F), c. intros b. simpl. by rewrite E.
Qed.

Lemma chain_join a l1 l2 b F c n R :
  (forall d, chain a l1 d = F ++ [(c, d)]) -> (forall d, chain d l2 b = (d, n) :: R) ->
  chain a (l1 ++ l2) b = F ++ (c, n) :: R.
Proof.
  intros E1 E2. revert a F E1. induction l1 as [|x l1 IH]; intros a F E1; simpl in *.
  - rewrite E2. specialize (E1 b). by destruct F as [|? [|? F]]; simplify_eq/=.
  - pose proof (E1 b) as Eb. destruct F as [|f F]; simpl in Eb; [by destruct l1; simplify_eq/=|].
    injection Eb as <- Eb. simpl. f_equal. apply IH. intros d. specialize (E1 d). by injection E1.
Qed.

(** A circle may be read from any of its elements. *)
Lemma ring_rotate l1 l2 : edges true (l1 ++ l2) ≡ₚ edges true (l2 ++ l1).
Proof.
  revert l2. induction l1 as [|x l1 IH]; intros l2; [by rewrite app_nil_r|].
  assert (forall l, edges true (x :: l) ≡ₚ edges true (l ++ [x])) as Hx.
  { intros [|y l]; [done|]. simpl. rewrite chain_app. simpl. by rewrite Permutation_app_comm. }
  simpl app at 1. rewrite Hx, <- app_assoc, IH, <- app_assoc. done.
Qed.

Lemma edges_insert c l1 p l2 e : exists n E,
  edges c (l1 ++ p :: l2) ≡ₚ (Some p, n) :: E /\ edges c (l1 ++ p :: e :: l2) ≡ₚ (Some p, Some e) :: (Some e, n) :: E.
Proof.
  destruct c.
  - destruct (chain_head (l2 ++ l1) (Some p)) as (n & R & H). exists n, R.
    rewrite !(ring_rotate l1). simpl. by rewrite !H.
  - destruct (chain_head l2 None) as (n & R & H). exists n, (chain None l1 (Some p) ++ R). simpl. rewrite !chain_app. simpl. rewrite !H.
    split; solve_Permutation.
Qed.

Lemma edges_remove c l1 e l2 : (c = true -> l1 ++ l2 <> []) -> exists a b E,
  edges c (l1 ++ e :: l2) ≡ₚ (a, Some e) :: (Some e, b) :: E /\ edges c (l1 ++ l2) ≡ₚ (a, b) :: E.
Proof.
  intros Hc. destruct c.
  - pose proof (ring_rotate l1 l2) as H2. assert (edges true (l1 ++ e :: l2) ≡ₚ edges true ((l2 ++ l1) ++ [e])) as H1.
    { rewrite (ring_rotate l1 (e :: l2)). apply (ring_rotate [e]). }
    destruct (l2 ++ l1) as [|y l] eqn:El.
    { destruct (Hc eq_refl). by apply app_eq_nil in El as [-> ->]. }
    destruct (chain_last (Some y) l) as (F & a & H). exists a, (Some y), F. rewrite H1, H2. simpl. rewrite chain_app, !H. simpl.
    split; solve_Permutation.
  - destruct (chain_last None l1) as (F & a & H1), (chain_head l2 None) as (b & R & H2). exists a, b, (F ++ R). simpl.
    rewrite chain_app, H1, H2, (chain_join None l1 l2 None F a b R) by done. split; solve_Permutation.
Qed.

(** Inserting behind an element of a queue, with ends or without, gives
    the queue with the new element there and touches no other memory; inserting
    behind NULL makes a queue of the one element. *)
Theorem insque_queue c m l1 p l2 e :
  queue c m (l1 ++ p :: l2) -> e ∉ l1 ++ p :: l2 -> is_Some (m !! e) ->
  (exists m', insque m e (Some p) = Ok m' /\ queue c m' (l1 ++ p :: e :: l2) /\
     forall q, q ∉ l1 ++ p :: e :: l2 -> m' !! q = m !! q) /\
  (exists m', insque m e None = Ok m' /\ queue false m' [e] /\ forall q, q <> e -> m' !! q = m !! q).
Proof.
  intros [Hnd HE] He Hm. split.
  - destruct (edges_insert c l1 p l2 e) as (n & E & P1 & P2). destruct (edges_ends c (l1 ++ p :: l2)) as [Es Et].
    rewrite P1 in HE, Es, Et.
    destruct (insque_links m p n E e) as (m' & Ei & HL & Hf); rewrite ?Es, ?Et; try done.
    exists m'. split_and!; [done|split|].
    + rewrite NoDup_app in *. destruct Hnd as (N1 & N2 & N3). apply NoDup_cons in N3 as [N3 N4].
      split_and!; [done|set_solver|]. repeat constructor; set_solver.
    + by rewrite P2.
    + intros q Hq. apply Hf; [set_solver..|]. intros ->. apply Hq. assert (q ∈ l1 ++ p :: l2) as Hin; [|set_solver].
      rewrite <- Et. simpl. by left.
  - destruct (set_next_ok m e None) as (m1 & E1 & N1 & P1); [unfold nx; by rewrite fmap_is_Some|].
    destruct (set_prev_ok m1 e None) as (m2 & E2 & P2 & N2); [by rewrite N1, decide_True|].
    exists m2. unfold insque. rewrite E1. cbn [rbind]. split_and!; [done|split; [apply NoDup_singleton|]|].
    + repeat constructor; simpl; try done; intros q [= <-]; [by rewrite P2, decide_True|by rewrite N2, N1, decide_True].
    + intros q Hq. apply fields_eq; [by rewrite N2, N1, decide_False|by rewrite P2, decide_False, P1].
Qed.

(** Removing an element closes the gap, and touches neither the element
    itself nor any memory but its neighbours. *)
Theorem remque_queue c m l1 e l2 :
  queue c m (l1 ++ e :: l2) ->
  exists m', remque m e = Ok m' /\ queue c m' (l1 ++ l2) /\ forall q, q ∉ l1 ++ l2 -> m' !! q = m !! q.
Proof.
  intros [Hnd HE]. assert (NoDup (l1 ++ l2) /\ e ∉ l1 ++ l2) as [Hnd' He].
  { rewrite <- Permutation_middle in Hnd. by apply NoDup_cons in Hnd as [? ?]. }
  destruct (decide (c = true /\ l1 ++ l2 = [])) as [[-> Hl]|Hc].
  - apply app_eq_nil in Hl as [-> ->]. simpl in HE. apply Forall_singleton in HE as [H1 H2]. simpl in *.
    specialize (H1 e eq_refl). specialize (H2 e eq_refl). unfold nx, pv in *. exists m. split_and!; [|split; [constructor|constructor]|done].
    unfold remque, set_next, set_prev, get. destruct (m !! e) as [[n q]|] eqn:Em; [|done]. simpl in *. injection H1 as ->. injection H2 as ->.
    rewrite Em. simpl. rewrite lookup_insert_eq. simpl. rewrite insert_insert_eq. by rewrite insert_id.
  - destruct (edges_remove c l1 e l2) as (a & b & E & P1 & P2); [tauto|].
    destruct (edges_ends c (l1 ++ e :: l2)) as [Es Et]. rewrite P1 in HE, Es, Et.
    destruct (edges_ends c (l1 ++ l2)) as [Es' Et']. rewrite P2 in Es', Et'.
    assert (forall q, a = Some q -> q ∈ l1 ++ l2) as Ha by (intros q ->; rewrite <- Es'; by left).
    assert (forall q, b = Some q -> q ∈ l1 ++ l2) as Hb by (intros q ->; rewrite <- Et'; by left).
    destruct (remque_links m a e b E) as (m' & Er & HL & Hf); rewrite ?Es, ?Et; try done; [naive_solver..|].
    exists m'. split_and!; [done|split; [done|by rewrite P2]|]. intros q Hq. apply Hf; naive_solver.
Qed.

(** Removing what has just been inserted gives the queue as it was. *)
Corollary insque_remque c m l1 p l2 e :
  queue c m (l1 ++ p :: l2) -> e ∉ l1 ++ p :: l2 -> is_Some (m !! e) ->
  exists m1 m2, insque m e (Some p) = Ok m1 /\ remque m1 e = Ok m2 /\ queue c m2 (l1 ++ p :: l2).
Proof.
  intros Hq He Hm. destruct (insque_queue c m l1 p l2 e Hq He Hm) as [(m1 & E1 & Q1 & _) _].
  destruct (remque_queue c m1 (l1 ++ [p]) e l2) as (m2 & E2 & Q2 & _); [by rewrite <- app_assoc|].
  exists m1, m2. rewrite <- app_assoc in Q2. done.
Qed.

(** Three elements in a circle that began as one, and the first of them taken
    out again. *)
Example queue_run :
  (let! m := insque {[1%positive := QueElem (Some 1%positive) (Some 1%positive); 2%positive := QueElem None None;
                      3%positive := QueElem None None]} 2 (Some 1%positive) in
   let! m := insque m 3 (Some 1%positive) in
   let! m := remque m 1 in
   Ok (m !! 2%positive, m !! 3%positive))
  = Ok (Some (QueElem (Some 3%positive) (Some 3%positive)), Some (QueElem (Some 2%positive) (Some 2%positive))).
Proof. reflexivity. Qed.

End Queue.
