(* ===== verification/Tree.v ===== *)
(** * Tree: the binary search trees of [search.h]

    Model of [stdlib/FreeBSD/tsearch.c], [tfind.c], [tdelete.c] and [twalk.c]
    of Libc.  The memory holds the nodes and the variables that callers keep
    the roots of their trees in.  The code moves a pointer to a pointer down
    the tree ([node_t **rootp]): a [link] says which pointer that is.  A node
    is read and written only while it is allocated; [compar] is the caller's
    comparison of two keys, and [malloc] says where the allocator puts a new
    node, if there is memory for one. *)

From S2P Require Import Prelude.

Abbreviation addr := positive.
Abbreviation ptr := (option positive).

Section Tree.
Context {K : Type} (compar : K -> K -> Z).

Record node_t := NodeT { key : K; llink : ptr; rlink : ptr }.

Record memory := Memory { vars : gmap addr ptr; nodes : gmap addr node_t }.

(** Where [rootp] points: a variable of the caller, or a link of a node. *)
Inductive link : Set :=
  | Var (v : addr)
  | LLink (n : addr)
  | RLink (n : addr).

Definition get_node (m : memory) (n : addr) : res node_t :=
  match nodes m !! n with
  | Some nd => Ok nd
  | None => Crash OutOfBounds
  end.

(** [*rootp]. *)
Definition load (m : memory) (rootp : link) : res ptr :=
  match rootp with
  | Var v => match vars m !! v with Some p => Ok p | None => Crash OutOfBounds end
  | LLink n => let! nd := get_node m n in Ok (llink nd)
  | RLink n => let! nd := get_node m n in Ok (rlink nd)
  end.

Definition set_llink (p : ptr) (nd : node_t) : node_t := NodeT (key nd) p (rlink nd).
Definition set_rlink (p : ptr) (nd : node_t) : node_t := NodeT (key nd) (llink nd) p.

Definition set_link (m : memory) (rootp : link) (p : ptr) : memory :=
  match rootp with
  | Var v => Memory (<[v := p]> (vars m)) (nodes m)
  | LLink n => Memory (vars m) (alter (set_llink p) n (nodes m))
  | RLink n => Memory (vars m) (alter (set_rlink p) n (nodes m))
  end.

(** [*rootp = p]. *)
Definition store (m : memory) (rootp : link) (p : ptr) : res memory :=
  let! _ := load m rootp in Ok (set_link m rootp p).

(** The node behind a pointer that may be NULL. *)
Definition deref (m : memory) (p : ptr) : res node_t :=
  match p with
  | Some n => get_node m n
  | None => Crash OutOfBounds
  end.

Definition free (m : memory) (p : ptr) : res memory :=
  match p with
  | Some n => let! _ := get_node m n in Ok (Memory (vars m) (delete n (nodes m)))
  | None => Ok m
  end.

(** Enough rounds for any walk down a tree. *)
Definition tree_fuel (m : memory) : nat := S (size (nodes m)).

(** ** tsearch and tfind *)

(** The loop of both: the node with the key, or the NULL link it would hang at. *)
Fixpoint search_loop (fuel : nat) (m : memory) (vkey : K) (rootp : link) : res (addr + link) :=
  match fuel with
  | O => Crash OutOfFuel
  | S fuel =>
      let! p := load m rootp in
      match p with
      | None => Ok (inr rootp)
      | Some n =>
          let! nd := get_node m n in
          let r := compar vkey (key nd) in
          if r =? 0 then Ok (inl n)
          else search_loop fuel m vkey (if r <? 0 then LLink n else RLink n)
      end
  end.

Definition tsearch (malloc : memory -> ptr) (m : memory) (vkey : K) (vrootp : ptr) : res (ptr * memory) :=
  match vrootp with
  | None => Ok (None, m)
  | Some v =>
      let! r := search_loop (tree_fuel m) m vkey (Var v) in
      match r with
      | inl n => Ok (Some n, m)
      | inr rootp =>
          match malloc m with
          | None => Ok (None, m)
          | Some q =>
              let! m := store m rootp (Some q) in
              Ok (Some q, Memory (vars m) (<[q := NodeT vkey None None]> (nodes m)))
          end
      end
  end.

Definition tfind (m : memory) (vkey : K) (vrootp : ptr) : res ptr :=
  match vrootp with
  | None => Ok None
  | Some v =>
      let! r := search_loop (tree_fuel m) m vkey (Var v) in
      Ok (match r with inl n => Some n | inr _ => None end)
  end.

(** ** tdelete *)

(** The loop that looks for the key: the link to its node and [p]. *)
Fixpoint delete_search (fuel : nat) (m : memory) (vkey : K) (rootp : link) (p : ptr) : res (option (link * ptr)) :=
  match fuel with
  | O => Crash OutOfFuel
  | S fuel =>
      let! n := load m rootp in
      let! nd := deref m n in
      let cmp := compar vkey (key nd) in
      if cmp =? 0 then Ok (Some (rootp, p))
      else
        match n with
        | None => Crash OutOfBounds
        | Some a =>
            let rootp := if cmp <? 0 then LLink a else RLink a in
            let! next := load m rootp in
            match next with
            | None => Ok None
            | Some _ => delete_search fuel m vkey rootp n
            end
        end
  end.

(** [for (q = r->llink; q->llink != NULL; q = r->llink) r = q;] *)
Fixpoint successor_loop (fuel : nat) (m : memory) (r q : addr) : res (addr * addr) :=
  match fuel with
  | O => Crash OutOfFuel
  | S fuel =>
      let! qn := get_node m q in
      match llink qn with
      | None => Ok (r, q)
      | Some q' => successor_loop fuel m q q'
      end
  end.

(** D1 to D3: what takes the place of the node at [rootp]. *)
Definition replacement (m : memory) (rootp : link) : res (ptr * memory) :=
  let! n := load m rootp in
  let! nd := deref m n in
  match llink nd, rlink nd with
  | None, r => Ok (r, m)
  | Some q, None => Ok (Some q, m)
  | Some q, Some r =>
      let! rn := get_node m r in
      match llink rn with
      | None =>
          let! m := store m (LLink r) (Some q) in
          Ok (Some r, m)
      | Some q =>
          let! (r, q) := successor_loop (tree_fuel m) m r q in
          let! qn := get_node m q in
          let! m := store m (LLink r) (rlink qn) in
          let! n := load m rootp in
          let! nd := deref m n in
          let! m := store m (LLink q) (llink nd) in
          let! n := load m rootp in
          let! nd := deref m n in
          let! m := store m (RLink q) (rlink nd) in
          Ok (Some q, m)
      end
  end.

(** What it returns is the parent of the node that is deleted; if that is the
    root, [p] is still the root. *)
Definition tdelete (m : memory) (vkey : K) (vrootp : ptr) : res (ptr * memory) :=
  match vrootp with
  | None => Ok (None, m)
  | Some v =>
      let! p := load m (Var v) in
      match p with
      | None => Ok (None, m)
      | Some _ =>
          let! r := delete_search (tree_fuel m) m vkey (Var v) p in
          match r with
          | None => Ok (None, m)
          | Some (rootp, p) =>
              let! (q, m) := replacement m rootp in
              let! n := load m rootp in
              let! m := free m n in
              let! m := store m rootp q in
              Ok (p, m)
          end
      end
  end.

(** ** twalk *)

Inductive VISIT : Set :=
  | preorder
  | postorder
  | endorder
  | leaf.

(** [action] works on a state [S] of the caller's. *)
Section Walk.
Context {S : Type} (action : S -> addr -> VISIT -> Z -> S).

(** The recursion is as deep as the tree. *)
Fixpoint trecurse (fuel : nat) (m : memory) (s : S) (root : addr) (level : Z) : res S :=
  match fuel with
  | O => Crash OutOfFuel
  | Datatypes.S fuel =>
      let! nd := get_node m root in
      match llink nd, rlink nd with
      | None, None => Ok (action s root leaf level)
      | l, r =>
          let s := action s root preorder level in
          let! s := match l with
                    | Some l => trecurse fuel m s l (s32 (level + 1))
                    | None => Ok s
                    end in
          let s := action s root postorder level in
          let! s := match r with
                    | Some r => trecurse fuel m s r (s32 (level + 1))
                    | None => Ok s
                    end in
          Ok (action s root endorder level)
      end
  end.

End Walk.

Definition twalk {S : Type} (m : memory) (vroot : ptr) (action : option (S -> addr -> VISIT -> Z -> S)) (s : S) : res S :=
  match vroot, action with
  | Some root, Some action => trecurse action (tree_fuel m) m s root 0
  | _, _ => Ok s
  end.

End Tree.

Arguments node_t : clear implicits.
Arguments memory : clear implicits.
