(* ===== verification/TreeSpec.v ===== *)
(** * TreeSpec: search trees as data, and their shape in memory

    The trees of [Tree] as an inductive type that keeps the addresses of the
    nodes, the predicate [shape] that a pointer leads to such a tree, and the
    set of keys a tree stands for: the list of its keys in order. *)

From S2P Require Import Prelude SortBase Tree.

Section Spec.
Context {K : Type}.
Abbreviation memory := (Tree.memory K).
Implicit Types (m : memory) (k x : K) (a b n : addr) (p : ptr).

Inductive tree :=
  | Leaf
  | Node (a : addr) (x : K) (l r : tree).

Fixpoint addrs (t : tree) : list addr :=
  match t with
  | Leaf => []
  | Node a _ l r => a :: addrs l ++ addrs r
  end.

Fixpoint keys (t : tree) : list K :=
  match t with
  | Leaf => []
  | Node _ x l r => keys l ++ x :: keys r
  end.

Fixpoint shape m p (t : tree) : Prop :=
  match t with
  | Leaf => p = None
  | Node a x l r => p = Some a /\ exists lp rp, nodes m !! a = Some (NodeT x lp rp) /\ shape m lp l /\ shape m rp r
  end.

Lemma shape_frame m m' t p :
  (forall b, b ∈ addrs t -> nodes m' !! b = nodes m !! b) -> shape m p t -> shape m' p t.
Proof.
  revert p. induction t as [|a x l IHl r IHr]; intros p Hf; [done|].
  intros (-> & lp & rp & Ha & Hl & Hr). cbn [addrs] in Hf. split; [done|]. exists lp, rp.
  split; [rewrite Hf; [done|set_solver]|]. split; [apply IHl|apply IHr]; try done; intros b Hb; apply Hf; set_solver.
Qed.

Lemma shape_allocated m p t b : shape m p t -> b ∈ addrs t -> is_Some (nodes m !! b).
Proof.
  revert p. induction t as [|a x l IHl r IHr]; intros p; [set_solver|].
  intros (-> & lp & rp & Ha & Hl & Hr). cbn [addrs]. rewrite elem_of_cons, elem_of_app.
  intros [->|[?|?]]; eauto.
Qed.

(** Walks down a tree have enough fuel. *)
Lemma shape_size m p t : shape m p t -> NoDup (addrs t) -> (length (addrs t) <= size (nodes m))%nat.
Proof.
  intros Hs Hn. rewrite <-(size_list_to_set (C := gset addr)), <-size_dom by done.
  apply subseteq_size. intros b Hb%elem_of_list_to_set. apply elem_of_dom. by eapply shape_allocated.
Qed.

(** ** Links *)

(** The node a link is in. *)
Definition owner (lk : link) : list addr :=
  match lk with
  | Var _ => []
  | LLink n | RLink n => [n]
  end.

Lemma load_set_link m lk p : (exists p0, load m lk = Ok p0) -> load (set_link m lk p) lk = Ok p.
Proof.
  intros [p0 Hp]. destruct lk as [v|n|n]; cbn in *; unfold get_node in *; cbn.
  - by rewrite lookup_insert_eq.
  - rewrite lookup_alter_eq. by destruct (nodes m !! n) as [nd|].
  - rewrite lookup_alter_eq. by destruct (nodes m !! n) as [nd|].
Qed.

Lemma nodes_set_link m lk p b : b ∉ owner lk -> nodes (set_link m lk p) !! b = nodes m !! b.
Proof.
  destruct lk as [v|n|n]; cbn; intros Hb; [done| |]; apply lookup_alter_ne; set_solver.
Qed.

Lemma store_ok m lk p p0 : load m lk = Ok p0 -> store m lk p = Ok (set_link m lk p).
Proof. intros H. unfold store. by rewrite H. Qed.

Lemma load_llink m a x lp rp : nodes m !! a = Some (NodeT x lp rp) -> load m (LLink a) = Ok lp.
Proof. intros Ha. cbn. unfold get_node. by rewrite Ha. Qed.

Lemma load_rlink m a x lp rp : nodes m !! a = Some (NodeT x lp rp) -> load m (RLink a) = Ok rp.
Proof. intros Ha. cbn. unfold get_node. by rewrite Ha. Qed.

(** Everything but the link [lk] and the nodes [X] is as it was. *)
Definition only (m m' : memory) (lk : link) (p : ptr) (X : list addr) : Prop :=
  vars m' = vars (set_link m lk p) /\ forall b, b ∉ X -> nodes m' !! b = nodes (set_link m lk p) !! b.

Lemma only_load m m' lk p X lk' :
  only m m' lk p X -> (forall b, b ∈ owner lk' -> b ∉ X) -> load m' lk' = load (set_link m lk p) lk'.
Proof.
  intros [Hv Hn] Ho. destruct lk' as [v|n|n]; cbn; unfold get_node.
  - by rewrite Hv.
  - rewrite Hn; [done|]. apply Ho. cbn. set_solver.
  - rewrite Hn; [done|]. apply Ho. cbn. set_solver.
Qed.

Lemma load_other_link m lk p lk' b :
  owner lk = [b] -> b ∉ owner lk' -> load (set_link m lk p) lk' = load m lk'.
Proof.
  destruct lk as [v|n|n]; cbn [owner]; intros [= ->] Hb; destruct lk' as [v'|n'|n']; cbn; unfold get_node; cbn; try done;
    rewrite lookup_alter_ne; try done; intros ->; cbn in Hb; set_solver.
Qed.

(** ** Following a key *)

Context (compar : K -> K -> Z).

(** Where the search for [k] ends, and the subtree there. *)
Fixpoint find_tree k (t : tree) (lk : link) : link * tree :=
  match t with
  | Leaf => (lk, Leaf)
  | Node a x l r =>
      if compar k x =? 0 then (lk, t)
      else if compar k x <? 0 then find_tree k l (LLink a) else find_tree k r (RLink a)
  end.

(** The tree with another one in the place of that subtree. *)
Fixpoint put_tree k (t s : tree) : tree :=
  match t with
  | Leaf => s
  | Node a x l r =>
      if compar k x =? 0 then s
      else if compar k x <? 0 then Node a x (put_tree k l s) r else Node a x l (put_tree k r s)
  end.

Definition found (s : tree) : option (addr * K) :=
  match s with
  | Leaf => None
  | Node a x _ _ => Some (a, x)
  end.

Lemma search_loop_find m k t fuel lk p :
  load m lk = Ok p -> shape m p t -> (length (addrs t) < fuel)%nat ->
  search_loop compar fuel m k lk =
    Ok (match found (find_tree k t lk).2 with Some (a, _) => inl a | None => inr (find_tree k t lk).1 end).
Proof.
  revert fuel lk p. induction t as [|a x l IHl r IHr]; intros [|fuel] lk p Hp; cbn [addrs length]; try lia.
  { intros -> _. cbn. by rewrite Hp. }
  intros (-> & lp & rp & Ha & Hl & Hr). rewrite length_app. intros Hf.
  cbn [search_loop find_tree]. rewrite Hp. cbn [rbind]. unfold get_node. rewrite Ha. cbn [rbind key].
  destruct (Z.eqb_spec (compar k x) 0); [done|].
  destruct (Z.ltb_spec (compar k x) 0);
    [apply (IHl _ _ lp)|apply (IHr _ _ rp)]; try done; try lia; cbn; unfold get_node; by rewrite Ha.
Qed.

(** The subtree found is part of the tree, in memory too. *)
Lemma find_tree_shape m k t lk p :
  load m lk = Ok p -> shape m p t ->
  exists p', load m (find_tree k t lk).1 = Ok p' /\ shape m p' (find_tree k t lk).2.
Proof.
  revert lk p. induction t as [|a x l IHl r IHr]; intros lk p Hp; cbn [find_tree].
  { intros Hs. by exists p. }
  intros Hs. pose proof Hs as (-> & lp & rp & Ha & Hl & Hr).
  destruct (compar k x =? 0); [by exists (Some a)|].
  destruct (compar k x <? 0); [apply (IHl _ lp)|apply (IHr _ rp)]; try done; cbn; unfold get_node; by rewrite Ha.
Qed.

Lemma find_tree_addrs k t lk : addrs (find_tree k t lk).2 ⊆ addrs t.
Proof.
  revert lk. induction t as [|a x l IHl r IHr]; intros lk; cbn [find_tree addrs]; [done|].
  destruct (compar k x =? 0); [done|].
  destruct (compar k x <? 0); [specialize (IHl (LLink a))|specialize (IHr (RLink a))]; set_solver.
Qed.

Lemma find_tree_nodup k t lk : NoDup (addrs t) -> NoDup (addrs (find_tree k t lk).2).
Proof.
  revert lk. induction t as [|a x l IHl r IHr]; intros lk; cbn [find_tree addrs]; [done|].
  intros Hn. destruct (compar k x =? 0); [done|].
  apply NoDup_cons in Hn as [_ (Hl & _ & Hr)%NoDup_app]. destruct (compar k x <? 0); auto.
Qed.

(** The link is the one the search began with, or in a node above the subtree. *)
Lemma find_tree_link k t lk :
  NoDup (addrs t) ->
  (find_tree k t lk = (lk, t) /\ put_tree k t = fun s => s) \/
  exists b, owner (find_tree k t lk).1 = [b] /\ b ∈ addrs t /\ b ∉ addrs (find_tree k t lk).2.
Proof.
  revert lk. induction t as [|a x l IHl r IHr]; intros lk Hn; cbn [find_tree put_tree].
  { by left. }
  cbn [addrs] in Hn. apply NoDup_cons in Hn as [Ha (Hl & Hd & Hr)%NoDup_app]. rewrite elem_of_app in Ha.
  destruct (compar k x =? 0); [by left|]. right.
  destruct (compar k x <? 0).
  - destruct (IHl (LLink a) Hl) as [[-> _]|(b & ? & ? & ?)].
    + exists a. cbn [fst snd owner addrs]. set_solver.
    + exists b. cbn [addrs]. set_solver.
  - destruct (IHr (RLink a) Hr) as [[-> _]|(b & ? & ? & ?)].
    + exists a. cbn [fst snd owner addrs]. set_solver.
    + exists b. cbn [addrs]. set_solver.
Qed.

(** The node above a link that was set: its key and its other link stay. *)
Lemma below_left m m' k a x l lp rp p' X :
  nodes m !! a = Some (NodeT x lp rp) -> NoDup (addrs l) -> a ∉ addrs l -> a ∉ X ->
  only m m' (find_tree k l (LLink a)).1 p' X ->
  exists lp', nodes m' !! a = Some (NodeT x lp' rp).
Proof.
  intros Ha Hn Hal HaX [_ Hm]. rewrite Hm by done.
  destruct (find_tree_link k l (LLink a) Hn) as [[-> _]|(b & Ho & Hb & _)].
  - cbn. rewrite lookup_alter_eq, Ha. by eexists.
  - rewrite nodes_set_link by (rewrite Ho; set_solver). rewrite Ha. by eexists.
Qed.

Lemma below_right m m' k a x r lp rp p' X :
  nodes m !! a = Some (NodeT x lp rp) -> NoDup (addrs r) -> a ∉ addrs r -> a ∉ X ->
  only m m' (find_tree k r (RLink a)).1 p' X ->
  exists rp', nodes m' !! a = Some (NodeT x lp rp').
Proof.
  intros Ha Hn Hal HaX [_ Hm]. rewrite Hm by done.
  destruct (find_tree_link k r (RLink a) Hn) as [[-> _]|(b & Ho & Hb & _)].
  - cbn. rewrite lookup_alter_eq, Ha. by eexists.
  - rewrite nodes_set_link by (rewrite Ho; set_solver). rewrite Ha. by eexists.
Qed.

(** The nodes of a tree that the change does not reach. *)
Lemma only_shape m m' k t u lk p p' X :
  (forall b, b ∈ owner lk -> b ∉ addrs u) -> NoDup (addrs t) ->
  (forall b, b ∈ addrs u -> ~ b ∈ addrs t /\ ~ b ∈ X) ->
  only m m' (find_tree k t lk).1 p' X -> shape m p u -> shape m' p u.
Proof.
  intros Hlk Hn Hd [_ Hm]. apply shape_frame. intros b Hb. destruct (Hd b Hb). rewrite Hm by done.
  apply nodes_set_link. destruct (find_tree_link k t lk Hn) as [[-> _]|(c & -> & Hc & _)]; set_solver.
Qed.

(** Another tree put at the link where the search ended. *)
Lemma put_tree_shape m m' k t lk p p' s' X :
  load m lk = Ok p -> shape m p t -> NoDup (addrs t) ->
  (forall b, b ∈ owner lk -> ~ b ∈ addrs t /\ ~ b ∈ X) ->
  (forall b, b ∈ X -> b ∈ addrs t -> b ∈ addrs (find_tree k t lk).2) ->
  only m m' (find_tree k t lk).1 p' X -> shape m' p' s' ->
  exists p1, load m' lk = Ok p1 /\ shape m' p1 (put_tree k t s').
Proof.
  intros Hp Hs Hn Ho HX Hm Hs'. revert lk p Hp Hs Hn Ho HX Hm.
  assert (Hhere : forall lk p, load m lk = Ok p -> (forall b, b ∈ owner lk -> b ∉ X) ->
            only m m' lk p' X -> load m' lk = Ok p').
  { intros lk p Hp Ho Hm. rewrite (only_load _ _ _ _ _ _ Hm Ho). apply load_set_link. by eexists. }
  induction t as [|a x l IHl r IHr]; intros lk p Hp Hs Hn Ho HX Hm.
  { exists p'. split; [|done]. eapply Hhere; [done| |done]. intros b Hb. by apply Ho. }
  pose proof (find_tree_link k _ lk Hn) as Hlink. cbn [find_tree put_tree] in *.
  destruct (compar k x =? 0).
  { exists p'. split; [|done]. eapply Hhere; [done| |done]. intros b Hb. by apply Ho. }
  destruct Hs as (-> & lp & rp & Ha & Hl & Hr). cbn [addrs] in *.
  apply NoDup_cons in Hn as [Har (Hnl & Hd & Hnr)%NoDup_app].
  assert (Hload : forall b, owner (if compar k x <? 0 then find_tree k l (LLink a) else find_tree k r (RLink a)).1 = [b] ->
            b ∈ a :: addrs l ++ addrs r -> load m' lk = Ok (Some a)).
  { intros b Hb Hin. rewrite (only_load _ _ _ _ _ lk Hm) by (intros c Hc; by apply Ho).
    rewrite (load_other_link _ _ _ _ b); [done|done|]. intros Hc. by apply Ho in Hc as []. }
  destruct Hlink as [[E _]|(b & Hb & Hin & _)].
  { exfalso. destruct (compar k x <? 0);
      [pose proof (find_tree_addrs k l (LLink a)) as Hsub|pose proof (find_tree_addrs k r (RLink a)) as Hsub];
      rewrite E in Hsub; cbn [snd addrs] in Hsub; set_solver. }
  exists (Some a). split; [by eapply Hload|]. clear Hload Hin Hb.
  destruct (compar k x <? 0); (split; [done|]).
  - pose proof (find_tree_addrs k l (LLink a)) as Hsub.
    destruct (below_left m m' k a x l lp rp p' X) as [lp' Ha']; try done; [set_solver..|].
    destruct (IHl (LLink a) lp) as (p1 & Hp1 & Hs1); try done; [by apply load_llink in Ha|cbn; set_solver|set_solver|].
    apply load_llink in Ha' as Hl'. rewrite Hl' in Hp1. injection Hp1 as ->.
    exists p1, rp. do 2 (split; [done|]). eapply (only_shape m m' k l r (LLink a)); try done; [cbn; set_solver|set_solver].
  - pose proof (find_tree_addrs k r (RLink a)) as Hsub.
    destruct (below_right m m' k a x r lp rp p' X) as [rp' Ha']; try done; [set_solver..|].
    destruct (IHr (RLink a) rp) as (p1 & Hp1 & Hs1); try done; [by apply load_rlink in Ha|cbn; set_solver|set_solver|].
    apply load_rlink in Ha' as Hr'. rewrite Hr' in Hp1. injection Hp1 as ->.
    exists lp, p1. split; [done|]. split; [|done]. eapply (only_shape m m' k r l (RLink a)); try done; [cbn; set_solver|set_solver].
Qed.

End Spec.

Arguments tree : clear implicits.
