(* ===== verification/TreeOps.v ===== *)
(** * TreeOps: the operations on trees

    Taking a node out of a tree, then the lookups, insertions, deletions and
    walks of [Tree] on the shapes of [TreeSpec]. *)

From S2P Require Import Prelude SortBase Tree TreeSpec.

Section Delete.
Context {K : Type}.
Abbreviation memory := (Tree.memory K).
Abbreviation tree := (TreeSpec.tree K).
Implicit Types (m : memory) (k x y : K) (a b q r : addr) (p : ptr) (t l s : tree).

(** ** The tree without a node *)

(** The first node, and what remains. *)
Fixpoint split_min t : option (addr * K * tree) :=
  match t with
  | Leaf => None
  | Node a x l r =>
      match split_min l with
      | None => Some (a, x, r)
      | Some (q, y, l') => Some (q, y, Node a x l' r)
      end
  end.

(** Two trees as one: the first node of the second becomes the root. *)
Definition join (l r : tree) : tree :=
  match l, split_min r with
  | Leaf, _ => r
  | _, None => l
  | _, Some (q, y, r') => Node q y l r'
  end.

Lemma split_min_spec t q y t' :
  split_min t = Some (q, y, t') -> keys t = y :: keys t' /\ addrs t ≡ₚ q :: addrs t'.
Proof.
  revert q y t'. induction t as [|a x l IHl r _]; intros q y t'; [done|]. cbn [split_min].
  destruct (split_min l) as [[[q' y'] l']|] eqn:E.
  - intros [= -> -> <-]. destruct (IHl _ _ _ eq_refl) as [Hk Ha]. cbn [keys addrs]. rewrite Hk, Ha. split; [done|].
    cbn. apply perm_swap.
  - intros [= -> -> ->]. destruct l as [|a' x' l1 l2]; [done|]. cbn in E. by destruct (split_min l1) as [[[??]?]|].
Qed.

Lemma split_min_elem t q y t' : split_min t = Some (q, y, t') -> q ∈ addrs t.
Proof. intros [_ ->]%split_min_spec. set_solver. Qed.

Lemma join_spec l (r : tree) : keys (join l r) = keys l ++ keys r /\ addrs (join l r) ≡ₚ addrs l ++ addrs r.
Proof.
  unfold join. destruct l as [|a x l1 l2] eqn:El; [done|]. rewrite <-El.
  destruct (split_min r) as [[[q y] r']|] eqn:E.
  - apply split_min_spec in E as [-> ->]. cbn [keys addrs]. split; [done|].
    apply Permutation_middle.
  - destruct r as [|? ? r1 ?]; [by rewrite !app_nil_r|]. cbn in E. by destruct (split_min r1) as [[[??]?]|].
Qed.

(** ** Changes of memory *)

Lemma only_set_link m m1 lk p X :
  vars m1 = vars m -> (forall b, b ∉ X -> nodes m1 !! b = nodes m !! b) -> only m (set_link m1 lk p) lk p X.
Proof.
  intros Hv Hn. destruct lk as [v|n|n]; split; cbn; try congruence; intros b Hb.
  - by apply Hn.
  - destruct (decide (b = n)) as [->|]; [by rewrite !lookup_alter_eq, Hn|by rewrite !lookup_alter_ne, Hn].
  - destruct (decide (b = n)) as [->|]; [by rewrite !lookup_alter_eq, Hn|by rewrite !lookup_alter_ne, Hn].
Qed.

(** The left link of a node was set, nothing else of it. *)
Lemma set_left_node m m' r x lp rp r' p X p' :
  nodes m !! r = Some (NodeT x lp rp) -> r ∉ X -> only m m' (LLink r') p X -> load m' (LLink r) = Ok p' ->
  nodes m' !! r = Some (NodeT x p' rp).
Proof.
  intros Hr HX [_ Hm] Hl. cbn in Hl. unfold get_node in Hl. rewrite Hm in Hl |- * by done. cbn in *.
  destruct (decide (r = r')) as [->|].
  - rewrite lookup_alter_eq, Hr in *. cbn in *. by injection Hl as ->.
  - rewrite lookup_alter_ne, Hr in * by done. cbn in *. by injection Hl as ->.
Qed.

(** The loop for the successor, and the effect of cutting it out. *)
Lemma successor_spec m t : forall fuel r q xr lp rp,
  nodes m !! r = Some (NodeT xr lp rp) -> lp = Some q ->
  shape m (Some q) t -> NoDup (addrs t) -> r ∉ addrs t -> (length (addrs t) <= fuel)%nat ->
  exists r' q' y yrp t', successor_loop fuel m r q = Ok (r', q') /\ split_min t = Some (q', y, t') /\
    nodes m !! q' = Some (NodeT y None yrp) /\ r' ∈ r :: addrs t /\ r' <> q' /\
    forall m', only m m' (LLink r') yrp [q'] -> exists p', load m' (LLink r) = Ok p' /\ shape m' p' t'.
Proof.
  induction t as [|a x l IHl u _]; intros fuel r q xr lp rp Hr ->; [done|].
  intros ([= ->] & lp & up & Ha & Hl & Hu) Hn Hra Hf. cbn [addrs] in *.
  destruct fuel as [|fuel]; [cbn in Hf; lia|]. cbn [successor_loop split_min]. unfold get_node at 1. rewrite Ha. cbn [rbind llink].
  apply NoDup_cons in Hn as [Hal (Hnl & Hd & Hnu)%NoDup_app].
  destruct lp as [q1|].
  - destruct (IHl fuel a q1 x (Some q1) up) as (r' & q' & y & yrp & t' & -> & Hsp & Hq & Hr' & Hne & Hm); try done;
      [set_solver|cbn in Hf; rewrite length_app in Hf; lia|].
    rewrite Hsp. apply split_min_elem in Hsp as Hql. exists r', q', y, yrp, (Node a x t' u).
    do 3 (split; [done|]). split; [set_solver|]. split; [done|].
    intros m' Ho. destruct (Hm m' Ho) as (p' & Hp' & Hs'). exists (Some a). split; [|split; [done|]].
    + rewrite (only_load _ _ _ _ _ _ Ho) by (cbn; set_solver).
      rewrite (load_other_link _ _ _ _ r'); [by eapply load_llink|done|cbn; set_solver].
    + exists p', up. split; [|split; [done|]].
      * eapply set_left_node; [done| |done|done]. set_solver.
      * destruct Ho as [_ Ho]. apply (shape_frame m); [|done]. intros b Hb. rewrite Ho by set_solver.
        apply nodes_set_link. cbn. set_solver.
  - destruct l; [|by destruct Hl]. exists r, a, x, up, u. do 3 (split; [done|]). split; [set_solver|]. split; [set_solver|].
    intros m' Ho. exists up. split.
    + rewrite (only_load _ _ _ _ _ _ Ho) by (cbn; set_solver). apply load_set_link. exists (Some a). by eapply load_llink.
    + destruct Ho as [_ Ho]. apply (shape_frame m); [|done]. intros b Hb. rewrite Ho by set_solver. apply nodes_set_link. cbn. set_solver.
Qed.

(** D2: the right child has no left child. *)
Lemma replace_child m al ar xr l rpr (r2 : tree) :
  nodes m !! ar = Some (NodeT xr None rpr) -> shape m (Some al) l -> shape m rpr r2 -> ar ∉ addrs l ++ addrs r2 ->
  exists m', store m (LLink ar) (Some al) = Ok m' /\ vars m' = vars m /\
    (forall b, b <> ar -> nodes m' !! b = nodes m !! b) /\ shape m' (Some ar) (Node ar xr l r2).
Proof.
  intros Har Hl Hr Hn. eexists. split; [eapply store_ok, load_llink; done|]. split; [done|]. split.
  { intros b Hb. apply nodes_set_link. cbn. set_solver. }
  split; [done|]. exists (Some al), rpr. cbn. rewrite lookup_alter_eq, Har. split; [done|].
  split; (apply (shape_frame m); [|done]); intros b Hb; apply lookup_alter_ne; set_solver.
Qed.

(** D3: the successor is further down. *)
Lemma replace_successor m al ar xr q l rpr (r1 r2 : tree) fuel :
  nodes m !! ar = Some (NodeT xr (Some q) rpr) -> shape m (Some al) l -> shape m (Some q) r1 -> shape m rpr r2 ->
  NoDup (addrs l ++ ar :: addrs r1 ++ addrs r2) -> (length (addrs r1) <= fuel)%nat ->
  exists r' q' y yrp u, successor_loop fuel m ar q = Ok (r', q') /\ split_min r1 = Some (q', y, u) /\
    nodes m !! q' = Some (NodeT y None yrp) /\ r' ∈ ar :: addrs r1 /\ r' <> q' /\
    forall m', only m m' (LLink r') yrp [q'] -> nodes m' !! q' = Some (NodeT y (Some al) (Some ar)) ->
      shape m' (Some q') (Node q' y l (Node ar xr u r2)).
Proof.
  intros Har Hl Hr1 Hr2 (Hnl & Hd & (Harr & (Hn1 & Hd' & Hn2)%NoDup_app)%NoDup_cons)%NoDup_app Hf.
  destruct (successor_spec m r1 fuel ar q xr (Some q) rpr) as (r' & q' & y & yrp & u & Hsl & Hsp & Hq & Hr' & Hne & Hm);
    try done; [set_solver|].
  apply split_min_elem in Hsp as Hql. exists r', q', y, yrp, u. do 5 (split; [done|]).
  intros m' Ho Hq'. destruct (Hm m' Ho) as (p' & Hp' & Hs').
  assert (Har' : nodes m' !! ar = Some (NodeT xr p' rpr)) by (eapply set_left_node; [done| |done|done]; set_solver).
  destruct Ho as [_ Ho]. split; [done|]. exists (Some al), (Some ar). split; [done|]. split.
  - apply (shape_frame m); [|done]. intros b Hb. rewrite Ho by set_solver. apply nodes_set_link. cbn. set_solver.
  - split; [done|]. exists p', rpr. do 2 (split; [done|]).
    apply (shape_frame m); [|done]. intros b Hb. rewrite Ho by set_solver. apply nodes_set_link. cbn. set_solver.
Qed.

(** The stores of D3. *)
Lemma move_successor m lk a x (lp rp : ptr) (r' q' : addr) y (yrp : ptr) :
  load m lk = Ok (Some a) -> nodes m !! a = Some (NodeT x lp rp) ->
  is_Some (nodes m !! r') -> nodes m !! q' = Some (NodeT y None yrp) ->
  r' <> q' -> a <> r' -> a <> q' -> (forall b, b ∈ owner lk -> b <> r' /\ b <> q') ->
  exists m', (let! qn := get_node m q' in
          let! m := store m (LLink r') (rlink qn) in
          let! n := load m lk in
          let! nd := deref m n in
          let! m := store m (LLink q') (llink nd) in
          let! n := load m lk in
          let! nd := deref m n in
          let! m := store m (RLink q') (rlink nd) in
          Ok (Some q', m)) = Ok (Some q', m') /\
    only m m' (LLink r') yrp [q'] /\ nodes m' !! q' = Some (NodeT y lp rp).
Proof.
  intros Hlk Ha [[xr lr rr] Hr] Hq Hne Har Haq Ho. unfold get_node at 1. rewrite Hq. cbn [rbind rlink].
  rewrite (store_ok _ _ _ lr) by (by eapply load_llink). cbn [rbind].
  set (m1 := set_link m (LLink r') yrp).
  assert (H1 : load m1 lk = Ok (Some a)).
  { unfold m1. rewrite (load_other_link _ _ _ _ r'); [done|done|]. intros Hb. by apply Ho in Hb as []. }
  assert (Ha1 : nodes m1 !! a = Some (NodeT x lp rp)) by (unfold m1; rewrite nodes_set_link; [done|cbn; set_solver]).
  assert (Hq1 : nodes m1 !! q' = Some (NodeT y None yrp)) by (unfold m1; rewrite nodes_set_link; [done|cbn; set_solver]).
  rewrite H1. cbn [rbind deref]. unfold get_node at 1. rewrite Ha1. cbn [rbind llink].
  rewrite (store_ok _ _ _ None) by (by eapply load_llink). cbn [rbind].
  rewrite (load_other_link _ _ _ _ q'); [|done|intros Hb; by apply Ho in Hb as []]. rewrite H1. cbn [rbind deref].
  unfold get_node at 1. rewrite nodes_set_link by (cbn; set_solver). rewrite Ha1. cbn [rbind rlink].
  rewrite (store_ok _ _ _ yrp); [|cbn -[m1]; unfold get_node; cbn -[m1]; rewrite lookup_alter_eq, Hq1; done].
  eexists. split; [done|]. split; [split; [done|]|].
  - intros b Hb. do 2 (rewrite nodes_set_link by (cbn; set_solver)). done.
  - cbn -[m1]. rewrite !lookup_alter_eq. by rewrite Hq1.
Qed.

(** What takes the place of a node is the join of its subtrees. *)
Lemma replacement_spec m lk a x l (r : tree) :
  load m lk = Ok (Some a) -> shape m (Some a) (Node a x l r) -> NoDup (addrs (Node a x l r)) ->
  (forall b, b ∈ owner lk -> ~ b ∈ addrs (Node a x l r)) ->
  exists p m', replacement m lk = Ok (p, m') /\ vars m' = vars m /\
    (forall b, b ∉ addrs l ++ addrs r -> nodes m' !! b = nodes m !! b) /\ shape m' p (join l r).
Proof.
  intros Hlk Hs Hn Ho. pose proof (shape_size _ _ _ Hs Hn) as Hsize.
  destruct Hs as (_ & lp & rp & Ha & Hl & Hr). cbn [addrs] in *.
  apply NoDup_cons in Hn as [Hal (Hnl & Hd & Hnr)%NoDup_app].
  unfold replacement. rewrite Hlk. cbn [rbind deref]. unfold get_node at 1. rewrite Ha. cbn [rbind llink rlink].
  destruct l as [|al xl l1 l2]; [cbn in Hl; subst lp; by exists rp, m|].
  destruct r as [|ar xr r1 r2]; [cbn in Hr; subst rp; destruct lp; [|by destruct Hl]; by eexists _, m|].
  remember (Node al xl l1 l2) as l eqn:El.
  assert (Hlp : lp = Some al) by (subst l; by destruct Hl). subst lp.
  destruct Hr as (-> & lpr & rpr & Har & Hr1 & Hr2). unfold get_node at 1. rewrite Har. cbn [rbind llink].
  cbn [addrs] in *. assert (Hj : forall q y (u : tree), split_min (Node ar xr r1 r2) = Some (q, y, u) ->
    join l (Node ar xr r1 r2) = Node q y l u) by (intros q y u E; unfold join; rewrite E; by subst l).
  destruct lpr as [q|].
  - destruct (replace_successor m al ar xr q l rpr r1 r2 (tree_fuel m))
      as (r' & q' & y & yrp & u & -> & Hsp & Hq & Hr' & Hne & Hm); try done.
    { apply NoDup_app. by split_and!. }
    { unfold tree_fuel. cbn [length] in Hsize. rewrite !length_app in Hsize. cbn [length] in Hsize.
      rewrite length_app in Hsize. lia. }
    rewrite (Hj q' y (Node ar xr u r2)) by (cbn; by rewrite Hsp). apply split_min_elem in Hsp.
    cbn [rbind]. destruct (move_successor m lk a x (Some al) (Some ar) r' q' y yrp) as (m' & -> & Hm' & Hq'); try done; [|set_solver..|].
    { apply elem_of_cons in Hr' as [->|Hr']; [by eexists|]. by apply (shape_allocated m (Some q) r1). }
    exists (Some q'), m'. split; [done|]. split; [by destruct Hm'|]. split; [|by apply Hm].
    intros b Hb. destruct Hm' as [_ ->]; [|set_solver]. apply nodes_set_link. cbn. set_solver.
  - destruct r1 as [|]; [|by destruct Hr1].
    destruct (replace_child m al ar xr l rpr r2) as (m' & -> & Hv & Hb & Hs); try done.
    { apply NoDup_cons in Hnr as [? _]. set_solver. }
    cbn [rbind]. exists (Some ar), m'. do 2 (split; [done|]). split; [set_solver|]. by rewrite (Hj ar xr r2).
Qed.

End Delete.

(** ** What the calls on a search tree do to its keys *)

Section Thms.
Context {K : Type} (compar : K -> K -> Z).
Abbreviation memory := (Tree.memory K).
Abbreviation tree := (TreeSpec.tree K).
Implicit Types (m : memory) (k x y : K) (a b q v : addr) (p : ptr) (t s : tree).

(** ** Looking for the node to delete *)

Fixpoint find_parent k t p : ptr :=
  match t with
  | Leaf => p
  | Node a x l r =>
      if compar k x =? 0 then p else if compar k x <? 0 then find_parent k l (Some a) else find_parent k r (Some a)
  end.

Lemma find_parent_some k t a : find_parent k t (Some a) <> None.
Proof.
  revert a. induction t as [|b x l IHl r IHr]; intros a; cbn [find_parent]; [done|].
  destruct (compar k x =? 0), (compar k x <? 0); auto.
Qed.

Lemma delete_search_find m k t : forall fuel lk p p0,
  load m lk = Ok p -> shape m p t -> p <> None -> (length (addrs t) <= fuel)%nat ->
  delete_search compar fuel m k lk p0 =
    Ok (match found (find_tree compar k t lk).2 with
        | Some _ => Some ((find_tree compar k t lk).1, find_parent k t p0)
        | None => None
        end).
Proof.
  induction t as [|a x l IHl r IHr]; intros fuel lk p p0 Hp; [by cbn|].
  intros (-> & lp & rp & Ha & Hl & Hr) _ Hf. destruct fuel as [|fuel]; [cbn in Hf; lia|].
  cbn [delete_search find_tree find_parent]. rewrite Hp. cbn [rbind deref]. unfold get_node at 1. rewrite Ha. cbn [rbind key].
  cbn [addrs length] in Hf. rewrite length_app in Hf.
  destruct (compar k x =? 0); [done|]. destruct (compar k x <? 0).
  - rewrite (load_llink _ _ _ _ _ Ha). cbn [rbind]. destruct lp as [al|].
    + eapply IHl; [by eapply load_llink|done|done|lia].
    + destruct l; [done|by destruct Hl].
  - rewrite (load_rlink _ _ _ _ _ Ha). cbn [rbind]. destruct rp as [ar|].
    + eapply IHr; [by eapply load_rlink|done|done|lia].
    + destruct r; [done|by destruct Hr].
Qed.

(** ** The keys of a search tree *)

Definition lt x y : Prop := compar x y < 0.

(** The abstract set: keys in order. *)
Definition find_key k (ks : list K) : option K := head (filter (fun x => compar k x = 0) ks).

Definition insert_key k (ks : list K) : list K :=
  filter (fun x => 0 < compar k x) ks ++ k :: filter (fun x => compar k x < 0) ks.

Definition delete_key k (ks : list K) : list K := filter (fun x => compar k x <> 0) ks.

Context {Hc : Comparator compar}.

Lemma compar_lt_trans x y z : compar x y < 0 -> compar y z < 0 -> compar x z < 0.
Proof.
  intros H1 H2. destruct (decide (compar x z < 0)) as [|Hn]; [done|]. exfalso.
  assert (H3 : compar z x <= 0) by (pose proof (compar_antisym z x); pose proof (compar_antisym x z); lia).
  assert (H4 : compar y x <= 0) by (eapply (compar_trans (compar := compar) y z x); lia).
  pose proof (compar_antisym x y). lia.
Qed.

Lemma compar_eq_lt k x y : compar k x = 0 -> compar x y < 0 -> compar k y < 0.
Proof.
  intros H1 H2. destruct (decide (compar k y < 0)) as [|Hn]; [done|]. exfalso.
  assert (H3 : compar y k <= 0) by (pose proof (compar_antisym y k); pose proof (compar_antisym k y); lia).
  assert (H4 : compar y x <= 0) by (eapply (compar_trans (compar := compar) y k x); lia).
  pose proof (compar_antisym x y). lia.
Qed.

Lemma compar_eq_gt k x y : compar k x = 0 -> compar y x < 0 -> 0 < compar k y.
Proof.
  intros H1 H2. apply compar_antisym. destruct (decide (compar y k < 0)) as [|Hn]; [done|]. exfalso.
  assert (H3 : compar x y <= 0).
  { eapply (compar_trans (compar := compar) x k y); pose proof (compar_antisym x k); pose proof (compar_antisym k x);
      pose proof (compar_antisym y k); pose proof (compar_antisym k y); lia. }
  pose proof (compar_antisym y x). pose proof (compar_antisym x y). lia.
Qed.

Lemma sorted_app ks1 x ks2 :
  StronglySorted lt (ks1 ++ x :: ks2) <->
    StronglySorted lt ks1 /\ StronglySorted lt ks2 /\ Forall (fun y => lt y x) ks1 /\ Forall (lt x) ks2.
Proof.
  induction ks1 as [|y ks1 IH]; cbn [app].
  { split; [intros [??]%StronglySorted_inv; by repeat split; try constructor|].
    intros (_ & ? & _ & ?). by constructor. }
  split.
  - intros [(?&?&?&?)%IH Hy]%StronglySorted_inv. rewrite Forall_app, Forall_cons in Hy. destruct Hy as (?&?&?).
    split_and!; try done; by constructor.
  - intros ([??]%StronglySorted_inv & ? & [Hyx ?]%Forall_cons & Hx). constructor; [by apply IH|].
    rewrite Forall_app, Forall_cons. split_and!; try done.
    eapply Forall_impl; [done|]. intros z Hz. by eapply compar_lt_trans.
Qed.

(** The keys before and behind the place of [k]. *)
Lemma find_tree_keys k t lk :
  StronglySorted lt (keys t) ->
  exists L R, keys t = L ++ keys (find_tree compar k t lk).2 ++ R /\
    (forall s', keys (put_tree compar k t s') = L ++ keys s' ++ R) /\
    Forall (fun x => 0 < compar k x) L /\ Forall (fun x => compar k x < 0) R /\
    match found (find_tree compar k t lk).2 with Some (_, x) => compar k x = 0 | None => True end.
Proof.
  revert lk. induction t as [|a x l IHl r IHr]; intros lk; cbn [keys find_tree put_tree].
  { intros _. exists [], []. split_and!; try done. intros s'. by rewrite app_nil_r. }
  rewrite sorted_app. intros (Hl & Hr & Hlx & Hrx). destruct (Z.eqb_spec (compar k x) 0) as [E|E].
  { exists [], []. rewrite !app_nil_r. split_and!; try done. intros s'. by rewrite app_nil_r. }
  destruct (Z.ltb_spec (compar k x) 0) as [H|H].
  - destruct (IHl (LLink a) Hl) as (L & R & HL & Hput & ? & ? & ?). exists L, (R ++ x :: keys r).
    split; [by rewrite HL at 1; rewrite <-!app_assoc|].
    split; [intros s'; cbn [keys]; by rewrite Hput, <-!app_assoc|]. split; [done|]. split; [|done].
    rewrite Forall_app, Forall_cons. split_and!; try done. eapply Forall_impl; [done|]. intros z Hz. by eapply compar_lt_trans.
  - destruct (IHr (RLink a) Hr) as (L & R & HL & Hput & ? & ? & ?). exists (keys l ++ x :: L), R.
    split; [by rewrite HL at 1; rewrite <-!app_assoc|].
    split; [intros s'; cbn [keys]; by rewrite Hput, <-!app_assoc|]. split_and!; try done.
    rewrite Forall_app, Forall_cons. split_and!; [|lia|done]. eapply Forall_impl; [done|]. intros z Hz.
    apply compar_antisym. eapply (compar_lt_trans z x k); [done|]. apply compar_antisym. lia.
Qed.

Lemma absent_key k L R :
  Forall (fun x => 0 < compar k x) L -> Forall (fun x => compar k x < 0) R ->
  find_key k (L ++ R) = None /\ insert_key k (L ++ R) = L ++ k :: R /\ delete_key k (L ++ R) = L ++ R.
Proof.
  intros HL HR. unfold find_key, insert_key, delete_key. rewrite !filter_app. split; [|split].
  - by rewrite (filter_none _ _ L HL), (filter_none _ _ R HR) by lia.
  - rewrite (filter_all _ L HL), (filter_none _ _ R HR), (filter_none _ _ L HL), (filter_all _ R HR) by lia.
    by rewrite app_nil_r.
  - rewrite !filter_all; [done|eapply Forall_impl; [done|]; cbn; lia..].
Qed.

Lemma present_key k x L R :
  compar k x = 0 -> Forall (fun x => 0 < compar k x) L -> Forall (fun x => compar k x < 0) R ->
  find_key k (L ++ x :: R) = Some x /\ delete_key k (L ++ x :: R) = L ++ R.
Proof.
  intros Hx HL HR. unfold find_key, delete_key. rewrite !filter_app. split.
  - by rewrite (filter_none _ _ L HL), filter_cons_True by lia.
  - rewrite filter_cons_False by lia. rewrite !filter_all; [done|eapply Forall_impl; [done|]; cbn; lia..].
Qed.

(** ** Trees in memory *)

Definition represents m v t : Prop :=
  exists p, vars m !! v = Some p /\ shape m p t /\ NoDup (addrs t) /\ StronglySorted lt (keys t).

(** The other variables, and the nodes of other trees, are as they were; the
    nodes that left the tree are free. *)
Definition frame m m' v t t' : Prop :=
  (forall v', v' <> v -> vars m' !! v' = vars m !! v') /\
  forall b, b ∉ addrs t' -> nodes m' !! b = if decide (b ∈ addrs t) then None else nodes m !! b.

(** What the search sees of the keys. *)
Lemma search_keys k t lk :
  StronglySorted lt (keys t) ->
  match (find_tree compar k t lk).2 with
  | Leaf => find_key k (keys t) = None /\ delete_key k (keys t) = keys t /\
      forall q, keys (put_tree compar k t (Node q k Leaf Leaf)) = insert_key k (keys t)
  | Node _ x l r => find_key k (keys t) = Some x /\ keys (put_tree compar k t (join l r)) = delete_key k (keys t)
  end.
Proof.
  intros Hs. destruct (find_tree_keys k t lk Hs) as (L & R & HL & Hput & Hgt & Hlt & Hx).
  destruct (find_tree compar k t lk).2 as [|a x l r]; cbn [found] in Hx.
  - cbn [keys app] in *. rewrite HL. destruct (absent_key k L R) as (Hf&Hi&Hd); try done.
    rewrite Hi. by split_and!.
  - rewrite Hput. rewrite (proj1 (join_spec l r)). cbn [keys] in HL.
    rewrite HL in Hs |- *. rewrite <-app_assoc in Hs |- *. cbn [app] in *. rewrite app_assoc in Hs |- *.
    apply sorted_app in Hs as (_ & _ & Hl & Hr). rewrite Forall_app in Hl, Hr.
    destruct (present_key k x (L ++ keys l) (keys r ++ R)) as [-> ->]; [done| | |by rewrite <-!app_assoc].
    + rewrite Forall_app. split; [done|]. eapply Forall_impl; [apply Hl|]. intros y Hy. by eapply compar_eq_gt.
    + rewrite Forall_app. split; [|done]. eapply Forall_impl; [apply Hr|]. intros y Hy. by eapply compar_eq_lt.
Qed.

Lemma sorted_filter (P : K -> Prop) `{!forall x, Decision (P x)} ks :
  StronglySorted lt ks -> StronglySorted lt (filter P ks).
Proof.
  induction 1 as [|x ks Hs IH Hx]; [constructor|]. rewrite filter_cons. destruct (decide (P x)); [|done].
  constructor; [done|]. rewrite Forall_forall in *. intros y [_ Hy]%list_elem_of_filter. by apply Hx.
Qed.

Lemma insert_key_sorted k ks : StronglySorted lt ks -> StronglySorted lt (insert_key k ks).
Proof.
  intros Hs. apply sorted_app. split_and!; try by apply sorted_filter.
  - apply Forall_forall. intros y [Hy _]%list_elem_of_filter. by apply compar_antisym.
  - apply Forall_forall. by intros y [Hy _]%list_elem_of_filter.
Qed.

Lemma put_addrs k t s' lk :
  addrs t ≡ₚ addrs (find_tree compar k t lk).2 ++ (addrs (put_tree compar k t Leaf)) /\
  addrs (put_tree compar k t s') ≡ₚ addrs s' ++ addrs (put_tree compar k t Leaf).
Proof.
  revert lk. induction t as [|a x l IHl r IHr]; intros lk; cbn [find_tree put_tree addrs].
  { split; [done|]. cbn. by rewrite app_nil_r. }
  destruct (compar k x =? 0); [cbn; by rewrite !app_nil_r|]. destruct (compar k x <? 0); cbn [addrs].
  - destruct (IHl (LLink a)) as [E1 E2]. rewrite E1 at 1. rewrite E2. split; solve_Permutation.
  - destruct (IHr (RLink a)) as [E1 E2]. rewrite E1 at 1. rewrite E2. split; solve_Permutation.
Qed.

Lemma found_link_vars m v k t p v' :
  NoDup (addrs t) -> v' <> v -> vars (set_link m (find_tree compar k t (Var v)).1 p) !! v' = vars m !! v'.
Proof.
  intros Hn Hv. destruct (find_tree_link compar k t (Var v) Hn) as [[-> _]|(b & Ho & _)].
  - by apply lookup_insert_ne.
  - by destruct (find_tree compar k t (Var v)).1.
Qed.

(** Another subtree in the place of the one found. *)
Lemma put_represents m m' v k t p' s' X :
  let s := (find_tree compar k t (Var v)).2 in
  represents m v t -> only m m' (find_tree compar k t (Var v)).1 p' X -> shape m' p' s' ->
  (forall b, b ∈ X -> b ∈ addrs s' \/ (b ∈ addrs s /\ nodes m' !! b = None)) ->
  (forall b, b ∈ addrs s -> b ∈ X) ->
  (forall b, b ∈ addrs s' -> b ∈ addrs s \/ nodes m !! b = None) -> NoDup (addrs s') ->
  StronglySorted lt (keys (put_tree compar k t s')) ->
  represents m' v (put_tree compar k t s') /\ frame m m' v t (put_tree compar k t s').
Proof.
  intros s (p & Hv & Hp & Hn & Hs) Hm Hs' HX HsX Hnew Hn' Hsort.
  assert (Hal : forall b, b ∈ addrs t -> nodes m !! b <> None) by (intros b Hb; apply not_eq_None_Some; by eapply shape_allocated).
  destruct (put_addrs k t s' (Var v)) as [E1 E2]. fold s in E1.
  assert (Hd : NoDup (addrs s ++ addrs (put_tree compar k t Leaf))) by (by rewrite <-E1).
  apply NoDup_app in Hd as (_ & Hd & Hnl).
  assert (Hin : forall b, b ∈ addrs t <-> b ∈ addrs s \/ b ∈ addrs (put_tree compar k t Leaf)) by (intros b; by rewrite E1, elem_of_app).
  split.
  - destruct (put_tree_shape compar m m' k t (Var v) p p' s' X) as (p1 & Hp1 & Hs1); try done.
    + cbn. by rewrite Hv.
    + cbn. set_solver.
    + intros b HbX Hbt. destruct (HX b HbX) as [Hb|[Hb _]]; [|done]. destruct (Hnew b Hb); [done|]. by apply Hal in Hbt.
    + exists p1. cbn in Hp1. destruct (vars m' !! v); [|done]. injection Hp1 as ->. split_and!; try done.
      rewrite E2. apply NoDup_app. split_and!; try done. intros b Hb Hb'. destruct (Hnew b Hb) as [Hbs|Hbn].
      * by apply (Hd b).
      * apply (Hal b); [|done]. apply Hin. by right.
  - destruct Hm as [Hmv Hmn]. split; [intros v' Hv'; rewrite Hmv; by apply found_link_vars|].
    intros b. rewrite E2, elem_of_app. intros Hb. destruct (decide (b ∈ addrs t)) as [Hbt|Hbt].
    + apply Hin in Hbt as [Hbs|]; [|tauto]. destruct (HX b (HsX b Hbs)) as [|[_ ?]]; [tauto|done].
    + rewrite Hmn; [|intros HbX; destruct (HX b HbX) as [|[? _]]; [tauto|apply Hbt, Hin; tauto]].
      apply nodes_set_link. destruct (find_tree_link compar k t (Var v) Hn) as [[-> _]|(c & -> & Hct & _)]; cbn; set_solver.
Qed.

Lemma represents_search m v t k :
  represents m v t ->
  search_loop compar (tree_fuel m) m k (Var v) =
    Ok (match found (find_tree compar k t (Var v)).2 with Some (a, _) => inl a | None => inr (find_tree compar k t (Var v)).1 end).
Proof.
  intros (p & Hv & Hp & Hn & Hs). apply (search_loop_find compar m k t _ _ p); [cbn; by rewrite Hv|done|].
  unfold tree_fuel. apply shape_size in Hp; [lia|done].
Qed.

Lemma represents_found m v t k :
  represents m v t ->
  exists p, load m (find_tree compar k t (Var v)).1 = Ok p /\ shape m p (find_tree compar k t (Var v)).2.
Proof. intros (p & Hv & Hp & _). apply (find_tree_shape compar m k t (Var v) p); [cbn; by rewrite Hv|done]. Qed.

(** The key of the node a call returned. *)
Definition node_key m p : option K :=
  match p with
  | Some a => key <$> nodes m !! a
  | None => None
  end.

Lemma tree_frame_refl m v t : frame m m v t t.
Proof. split; [done|]. intros b Hb. by rewrite decide_False. Qed.

Lemma tfind_spec m v t k :
  represents m v t ->
  exists p, tfind compar m k (Some v) = Ok p /\ node_key m p = find_key k (keys t) /\ (p = None <-> find_key k (keys t) = None).
Proof.
  intros Hr. unfold tfind. rewrite (represents_search m v t) by done. cbn [rbind].
  destruct (represents_found m v t k Hr) as (p0 & _ & Hs). destruct Hr as (p & Hv & Hp & Hn & Hsort).
  pose proof (search_keys k t (Var v) Hsort) as Hk.
  destruct (find_tree compar k t (Var v)).2 as [|a x l r]; cbn [found]; eexists; (split; [done|]); destruct Hk as [-> _].
  - done.
  - destruct Hs as (-> & lp & rp & Ha & _). cbn. by rewrite Ha.
Qed.

Lemma tsearch_spec malloc m v t k :
  represents m v t -> (forall q, malloc m = Some q -> nodes m !! q = None) ->
  exists p m' t', tsearch compar malloc m k (Some v) = Ok (p, m') /\ represents m' v t' /\ frame m m' v t t' /\
    match find_key k (keys t), malloc m with
    | Some x, _ => m' = m /\ keys t' = keys t /\ node_key m p = Some x
    | None, None => m' = m /\ keys t' = keys t /\ p = None
    | None, Some q => keys t' = insert_key k (keys t) /\ p = Some q /\ node_key m' p = Some k
    end.
Proof.
  intros Hr Hm. unfold tsearch. rewrite (represents_search m v t) by done. cbn [rbind].
  destruct (represents_found m v t k Hr) as (p0 & Hload & Hs). pose proof Hr as (p & Hv & Hp & Hn & Hsort).
  pose proof (search_keys k t (Var v) Hsort) as Hk. pose proof (put_represents m) as Hput.
  destruct (find_tree compar k t (Var v)).2 as [|a x l r] eqn:Ef; cbn [found]; destruct Hk as [-> Hkeys].
  2: { exists (Some a), m, t. split_and!; try done; [apply tree_frame_refl|].
       destruct Hs as (-> & lp & rp & Ha & _). cbn. by rewrite Ha. }
  destruct (malloc m) as [q|] eqn:Eq; [|exists None, m, t; split_and!; try done; apply tree_frame_refl].
  rewrite (store_ok _ _ _ _ Hload). cbn [rbind]. specialize (Hm q eq_refl).
  set (m' := Memory _ _). exists (Some q), m', (put_tree compar k t (Node q k Leaf Leaf)). split; [done|].
  assert (Hq : nodes m' !! q = Some (NodeT k None None)) by apply lookup_insert_eq.
  rewrite (proj2 Hkeys). cbn [node_key]. rewrite Hq.
  destruct (Hput m' v k t (Some q) (Node q k Leaf Leaf) [q]) as [? ?]; try done; rewrite ?Ef.
  - split; [done|]. intros b Hb. cbn. apply lookup_insert_ne. set_solver.
  - split; [done|]. exists None, None. done.
  - cbn. set_solver.
  - cbn. set_solver.
  - cbn. set_solver.
  - cbn. apply NoDup_singleton.
  - rewrite (proj2 Hkeys). by apply insert_key_sorted.
Qed.

(** The node at a link, taken out. *)
Lemma unlink_node m lk a x l (r : tree) p :
  load m lk = Ok (Some a) -> shape m (Some a) (Node a x l r) -> NoDup (addrs (Node a x l r)) ->
  (forall b, b ∈ owner lk -> ~ b ∈ addrs (Node a x l r)) ->
  exists (q : ptr) m', (let! (q, m) := replacement m lk in
                let! n := load m lk in
                let! m := free m n in
                let! m := store m lk q in
                Ok (p, m)) = Ok (p, m') /\
    only m m' lk q (addrs (Node a x l r)) /\ shape m' q (join l r) /\ nodes m' !! a = None.
Proof.
  intros Hlk Hs Hn Ho. destruct (replacement_spec m lk a x l r) as (q & m1 & -> & Hv & Hm1 & Hs1); try done.
  cbn [rbind]. assert (Hsame : forall m2, vars m2 = vars m -> (forall b, b ∈ owner lk -> nodes m2 !! b = nodes m !! b) ->
            load m2 lk = Ok (Some a)).
  { intros m2 E2 H2. rewrite <-Hlk. destruct lk; cbn in *; unfold get_node; rewrite ?E2, ?H2; try done; set_solver. }
  cbn [addrs] in *. apply NoDup_cons in Hn as [Ha _]. destruct (join_spec l r) as [_ Hj].
  rewrite Hsame; [|done|intros b Hb; apply Hm1; apply Ho in Hb; set_solver]. cbn [rbind free]. unfold get_node.
  rewrite Hm1 by done. destruct Hs as (_ & lp & rp & -> & _). cbn [rbind].
  rewrite (store_ok _ _ _ (Some a)).
  2: { apply Hsame; [done|]. intros b Hb. cbn. rewrite lookup_delete_ne; [apply Hm1|]; apply Ho in Hb; set_solver. }
  cbn [rbind]. eexists q, _. split; [done|]. split_and!.
  - apply only_set_link; [done|]. intros b Hb. cbn. rewrite lookup_delete_ne by set_solver. apply Hm1. set_solver.
  - apply (shape_frame m1); [|done]. intros b Hb. rewrite Hj in Hb.
    rewrite nodes_set_link by (intros Hb'; apply Ho in Hb'; set_solver). cbn. apply lookup_delete_ne. set_solver.
  - rewrite nodes_set_link by (intros Hb'; apply Ho in Hb'; set_solver). apply lookup_delete_eq.
Qed.

Definition root t : ptr :=
  match t with
  | Leaf => None
  | Node a _ _ _ => Some a
  end.

Lemma tdelete_spec m v t k :
  represents m v t ->
  exists p m' t', tdelete compar m k (Some v) = Ok (p, m') /\ represents m' v t' /\ frame m m' v t t' /\
    keys t' = delete_key k (keys t) /\
    match find_key k (keys t) with
    | Some x => (exists a, addrs t ≡ₚ a :: addrs t' /\ key <$> nodes m !! a = Some x) /\
        p = find_parent k t (root t) /\ p <> None
    | None => m' = m /\ p = None
    end.
Proof.
  intros Hr. pose proof Hr as (p & Hv & Hp & Hn & Hsort). destruct (represents_found m v t k Hr) as (p0 & Hload & Hs).
  pose proof (search_keys k t (Var v) Hsort) as Hk. pose proof (put_represents m) as Hput.
  pose proof (put_addrs k t) as Hpa. pose proof (find_tree_nodup compar k t (Var v) Hn) as Hns.
  assert (Hown : forall b, b ∈ owner (find_tree compar k t (Var v)).1 -> ~ b ∈ addrs (find_tree compar k t (Var v)).2).
  { destruct (find_tree_link compar k t (Var v) Hn) as [[-> _]|(b & -> & _ & ?)]; cbn; set_solver. }
  unfold tdelete. cbn [load]. rewrite Hv. cbn [rbind].
  assert (Hroot : p = root t) by (destruct t; [done|by destruct Hp]). subst p.
  destruct (root t) as [a0|] eqn:Eroot; [|by destruct t; [exists None, m, Leaf; split_and!; try done; apply tree_frame_refl|]].
  rewrite (delete_search_find m k t _ _ (Some a0)); [|cbn; by rewrite Hv|done|done|unfold tree_fuel; apply shape_size in Hp; [lia|done]].
  cbn [rbind]. destruct (find_tree compar k t (Var v)) as [lk [|a x l r]] eqn:Ef; cbn [fst snd found] in *.
  { destruct Hk as (-> & -> & _). exists None, m, t. split_and!; try done. apply tree_frame_refl. }
  destruct Hk as [-> Hkeys]. pose proof Hs as (-> & lp & rp & Ha & _).
  destruct (unlink_node m lk a x l r (find_parent k t (Some a0))) as (q & m' & -> & Hm' & Hs' & Hfree); try done.
  destruct (join_spec l r) as [_ Hj]. destruct (Hpa (join l r) (Var v)) as [E1 E2]. rewrite Ef, Hj in *. cbn [snd addrs] in *.
  apply NoDup_cons in Hns as [Hal Hnlr].
  eexists _, m', (put_tree compar k t (join l r)). split; [done|].
  assert (represents m' v (put_tree compar k t (join l r)) /\ frame m m' v t (put_tree compar k t (join l r))) as [? ?].
  - apply (Hput m' v k t q (join l r) (a :: addrs l ++ addrs r)); rewrite ?Ef; cbn [fst snd addrs]; try done.
    + intros b. rewrite Hj, elem_of_cons. intros [->|Hb]; [right; split; [set_solver|done]|by left].
    + intros b. rewrite Hj. set_solver.
    + by rewrite Hj.
    + rewrite Hkeys. by apply sorted_filter.
  - do 3 (split; [done|]). split; [|split; [done|]].
    + exists a. rewrite E1, E2, Ha. done.
    + apply find_parent_some.
Qed.

End Thms.
