(* ===== verification/TreeThms.v ===== *)
(** * TreeThms: the trees of [tsearch] are sets of keys *)

From S2P Require Import Prelude SortBase Tree TreeSpec TreeOps.

Section Thms.
Context {K : Type} (compar : K -> K -> Z) {Hc : Comparator compar}.
Abbreviation memory := (Tree.memory K).
Abbreviation tree := (TreeSpec.tree K).
Abbreviation represents := (TreeOps.represents compar).
Abbreviation find_key := (TreeOps.find_key compar).
Abbreviation insert_key := (TreeOps.insert_key compar).
Abbreviation delete_key := (TreeOps.delete_key compar).
Implicit Types (m : memory) (k x y : K) (a b q v : addr) (p : ptr) (t s : tree).

(** ** Walks *)

Definition no_node t : bool :=
  match t with
  | Leaf => true
  | Node _ _ _ _ => false
  end.

(** The calls of the action, in order. *)
Fixpoint walk (next : Z -> Z) t (level : Z) : list (addr * VISIT * Z) :=
  match t with
  | Leaf => []
  | Node a _ l r =>
      if no_node l && no_node r then [(a, leaf, level)]
      else
        (a, preorder, level) :: walk next l (next level) ++
        (a, postorder, level) :: walk next r (next level) ++ [(a, endorder, level)]
  end.

Fixpoint height t : Z :=
  match t with
  | Leaf => 0
  | Node _ _ l r => 1 + Z.max (height l) (height r)
  end.

Definition next_level (level : Z) : Z := s32 (level + 1).

Lemma height_nonneg t : 0 <= height t.
Proof. induction t; cbn [height]; lia. Qed.

(** The level is the depth as long as it fits in an [int]. *)
Lemma walk_level t level :
  0 <= level -> level + height t <= 2 ^ 31 -> walk next_level t level = walk Z.succ t level.
Proof.
  revert level. induction t as [|a x l IHl r IHr]; intros level H0 Hh; [done|]. cbn [height walk] in *.
  pose proof (height_nonneg l). pose proof (height_nonneg r). destruct (no_node l && no_node r) eqn:E; [done|].
  assert (1 <= height l \/ 1 <= height r).
  { destruct l as [|?? l1 l2]; [destruct r as [|?? r1 r2]; [done|right]|left]; cbn [height];
      [pose proof (height_nonneg r1)|pose proof (height_nonneg l1)]; lia. }
  assert (Hn : next_level level = Z.succ level) by (unfold next_level; rewrite s32_small; lia).
  by rewrite Hn, IHl, IHr by lia.
Qed.

(** The nodes of the visits between the subtrees are the nodes in order. *)
Definition in_order (call : addr * VISIT * Z) : option addr :=
  match call.1.2 with
  | postorder | leaf => Some call.1.1
  | _ => None
  end.

Lemma walk_in_order m p t level next :
  shape m p t -> (fun a => node_key m (Some a)) <$> omap in_order (walk next t level) = Some <$> keys t.
Proof.
  revert p level. induction t as [|a x l IHl r IHr]; intros p level; [done|].
  intros (-> & lp & rp & Ha & Hl & Hr). cbn [walk keys].
  assert (Hk : node_key m (Some a) = Some x) by (cbn; by rewrite Ha).
  destruct (no_node l && no_node r) eqn:E.
  - destruct l, r; try done. cbn [omap list_omap in_order fst snd fmap list_fmap keys app]. by rewrite Hk.
  - cbn [omap list_omap in_order fst snd]. rewrite !omap_app, !fmap_app. cbn [omap list_omap in_order fst snd].
    rewrite fmap_cons, omap_app, fmap_app, Hk, (IHl lp), (IHr rp) by done. cbn. by rewrite app_nil_r.
Qed.

Section Walk.
Context {S : Type} (action : S -> addr -> VISIT -> Z -> S).

Definition act (s : S) (call : addr * VISIT * Z) : S := action s call.1.1 call.1.2 call.2.

Lemma trecurse_walk m t : forall fuel a level (s : S),
  shape m (Some a) t -> (length (addrs t) <= fuel)%nat ->
  trecurse action fuel m s a level = Ok (foldl act s (walk next_level t level)).
Proof.
  induction t as [|b x l IHl r IHr]; intros fuel a level s; [done|].
  intros ([= <-] & lp & rp & Ha & Hl & Hr) Hf. destruct fuel as [|fuel]; [cbn in Hf; lia|].
  cbn [addrs length] in Hf. rewrite length_app in Hf.
  assert (HL : forall s : S, match lp with Some l => trecurse action fuel m s l (s32 (level + 1)) | None => Ok s end
    = Ok (foldl act s (walk next_level l (next_level level)))).
  { intros s'. destruct lp; [apply IHl; [done|lia]|by destruct l; [|destruct Hl]]. }
  assert (HR : forall s : S, match rp with Some r => trecurse action fuel m s r (s32 (level + 1)) | None => Ok s end
    = Ok (foldl act s (walk next_level r (next_level level)))).
  { intros s'. destruct rp; [apply IHr; [done|lia]|by destruct r; [|destruct Hr]]. }
  cbn [trecurse walk]. unfold get_node. rewrite Ha. cbn [rbind llink rlink].
  assert (Hno : no_node l && no_node r = match lp, rp with None, None => true | _, _ => false end).
  { destruct l, r, lp, rp; cbn in *; naive_solver. }
  rewrite Hno. destruct lp as [lp|], rp as [rp|]; [..|done]; cbn [foldl]; rewrite foldl_app; cbn [foldl]; rewrite foldl_app;
    [rewrite HL; cbn [rbind]; by rewrite HR|rewrite HL|]; cbn [rbind].
  - destruct r; [done|by destruct Hr].
  - destruct l; [by rewrite HR|by destruct Hl].
Qed.

Lemma twalk_spec m v t (s : S) :
  represents m v t -> twalk m (root t) (Some action) s = Ok (foldl act s (walk next_level t 0)).
Proof.
  intros (p & Hv & Hp & Hn & _). destruct t as [|a x l r] eqn:E; [done|]. rewrite <-E in *.
  assert (p = Some a) as -> by (subst; by destruct Hp). subst t. cbn [root]. apply trecurse_walk; [done|].
  apply shape_size in Hp; [unfold tree_fuel; lia|done].
Qed.
End Walk.

(** ** Runs *)

Inductive op :=
  | TSearch (k : K)
  | TFind (k : K)
  | TDelete (k : K)
  | TWalk.

Inductive out :=
  | Key (o : option K)
  | Deleted (b : bool)
  | Walked (ks : list (option K)).

(** An action that notes the keys in order. *)
Definition collect m (ks : list (option K)) (a : addr) (order : VISIT) (level : Z) : list (option K) :=
  match order with
  | postorder | leaf => ks ++ [node_key m (Some a)]
  | _ => ks
  end.

Definition step (malloc : memory -> ptr) v (o : op) m : res (out * memory) :=
  match o with
  | TSearch k => let! (p, m) := tsearch compar malloc m k (Some v) in Ok (Key (node_key m p), m)
  | TFind k => let! p := tfind compar m k (Some v) in Ok (Key (node_key m p), m)
  | TDelete k => let! (p, m) := tdelete compar m k (Some v) in Ok (Deleted (bool_decide (is_Some p)), m)
  | TWalk => let! p := load m (Var v) in let! ks := twalk m p (Some (collect m)) [] in Ok (Walked ks, m)
  end.

Fixpoint run malloc v (os : list op) m : res (list out * memory) :=
  match os with
  | [] => Ok ([], m)
  | o :: os =>
      let! (r, m) := step malloc v o m in
      let! (rs, m) := run malloc v os m in
      Ok (r :: rs, m)
  end.

(** The same on a set of keys. *)
Definition set_step (o : op) (ks : list K) : out * list K :=
  match o with
  | TSearch k => match find_key k ks with Some x => (Key (Some x), ks) | None => (Key (Some k), insert_key k ks) end
  | TFind k => (Key (find_key k ks), ks)
  | TDelete k => (Deleted (bool_decide (is_Some (find_key k ks))), delete_key k ks)
  | TWalk => (Walked (Some <$> ks), ks)
  end.

Fixpoint set_run (os : list op) (ks : list K) : list out * list K :=
  match os with
  | [] => ([], ks)
  | o :: os => let '(r, ks) := set_step o ks in let '(rs, ks) := set_run os ks in (r :: rs, ks)
  end.

Lemma collect_walk m calls ks :
  foldl (act (collect m)) ks calls = ks ++ ((fun a => node_key m (Some a)) <$> omap in_order calls).
Proof.
  revert ks. induction calls as [|[[a o] l] calls IH]; intros ks; [by rewrite app_nil_r|].
  cbn [foldl]. rewrite IH. unfold act, collect. cbn [fst snd]. destruct o; cbn; try done; by rewrite <-app_assoc.
Qed.

Definition Allocates (malloc : memory -> ptr) : Prop := forall m, exists q, malloc m = Some q /\ nodes m !! q = None.

Lemma step_refines malloc v o m t :
  Allocates malloc -> represents m v t ->
  exists m' t', step malloc v o m = Ok ((set_step o (keys t)).1, m') /\ represents m' v t' /\ keys t' = (set_step o (keys t)).2.
Proof.
  intros Hm Hr. destruct o as [k|k|k|]; cbn [step set_step].
  - destruct (Hm m) as (q & Eq & Hq).
    destruct (tsearch_spec compar malloc m v t k Hr) as (p & m' & t' & -> & Hr' & _ & Hk); [intros q'; rewrite Eq; by intros [= <-]|].
    rewrite Eq in Hk. destruct (find_key k (keys t)) as [x|].
    + destruct Hk as (-> & Hk & Hp). exists m, t'. cbn [rbind fst snd]. by rewrite Hp.
    + destruct Hk as (Hk & -> & Hp). exists m', t'. cbn [rbind fst snd]. by rewrite Hp.
  - destruct (tfind_spec compar m v t k Hr) as (p & -> & Hp & _). exists m, t. cbn [rbind fst snd]. by rewrite Hp.
  - destruct (tdelete_spec compar m v t k Hr) as (p & m' & t' & -> & Hr' & _ & Hk & Hp). exists m', t'. cbn [rbind fst snd].
    split; [|done]. do 3 f_equal. destruct (find_key k (keys t)) as [x|]; [|by destruct Hp as [_ ->]].
    destruct Hp as (_ & _ & Hp). by destruct p.
  - pose proof Hr as (p & Hv & Hp & Hn & Hs). exists m, t. cbn [load]. rewrite Hv. cbn [rbind].
    assert (p = root t) as -> by (destruct t; [done|by destruct Hp]).
    rewrite (twalk_spec (collect m) m v t []) by done. cbn [rbind fst snd].
    by rewrite collect_walk, (walk_in_order m (root t)).
Qed.

(** [C39] The tree refines the set: the calls on a tree that began empty give what
    they give on the set of its keys, they never fault and always return, and
    a walk meets the keys in order, for a consistent comparison and as long as
    memory is there; of the pointer [tdelete] returns it says whether it is
    NULL. *)
Theorem tree_refines malloc v os m :
  Allocates malloc -> vars m !! v = Some None ->
  exists m' t', run malloc v os m = Ok ((set_run os []).1, m') /\ represents m' v t' /\ keys t' = (set_run os []).2.
Proof.
  intros Hm Hv.
  assert (Hgen : forall m t, represents m v t ->
    exists m' t', run malloc v os m = Ok ((set_run os (keys t)).1, m') /\ represents m' v t' /\ keys t' = (set_run os (keys t)).2).
  { clear m Hv. induction os as [|o os IH]; intros m t Hr; [by exists m, t|]. cbn [run set_run].
    destruct (step_refines malloc v o m t Hm Hr) as (m' & t' & -> & Hr' & Hk'). cbn [rbind].
    destruct (set_step o (keys t)) as [r ks]. cbn [fst snd] in *. subst ks.
    destruct (IH m' t' Hr') as (m2 & t2 & -> & Hr2 & Hk2). cbn [rbind]. exists m2, t2.
    destruct (set_run os (keys t')). by cbn [fst snd] in *. }
  apply (Hgen m Leaf). exists None. split_and!; try done; constructor.
Qed.

(** [tsearch] and [tdelete] touch only their own tree.  [tsearch] returns a
    node with the key, the one there is or a new one, and without memory for
    it changes nothing; [tdelete] takes out one node, frees it, and returns
    its parent (the root itself, which is then free, if the root is deleted). *)
Theorem tree_updates malloc m v t k :
  represents m v t -> (forall q, malloc m = Some q -> nodes m !! q = None) ->
  (exists p m' t', tsearch compar malloc m k (Some v) = Ok (p, m') /\ represents m' v t' /\ frame m m' v t t' /\
    match find_key k (keys t), malloc m with
    | Some x, _ => m' = m /\ keys t' = keys t /\ node_key m p = Some x
    | None, None => m' = m /\ keys t' = keys t /\ p = None
    | None, Some q => keys t' = insert_key k (keys t) /\ p = Some q /\ node_key m' p = Some k
    end) /\
  exists p m' t', tdelete compar m k (Some v) = Ok (p, m') /\ represents m' v t' /\ frame m m' v t t' /\
    keys t' = delete_key k (keys t) /\
    match find_key k (keys t) with
    | Some x => (exists a, addrs t ≡ₚ a :: addrs t' /\ key <$> nodes m !! a = Some x) /\
        p = find_parent compar k t (root t) /\ p <> None
    | None => m' = m /\ p = None
    end.
Proof. intros Hr Hm. split; [by apply tsearch_spec|by apply tdelete_spec]. Qed.

(** [twalk] calls the action on every node: once on a node without children,
    else before, between and after its subtrees, with the depth of the node;
    the nodes of the calls in between are those of the keys in order. *)
Theorem twalk_visits {S : Type} (action : S -> addr -> VISIT -> Z -> S) m v t (s : S) :
  represents m v t -> height t <= 2 ^ 31 ->
  twalk m (root t) (Some action) s = Ok (foldl (act action) s (walk Z.succ t 0)) /\
  (fun a => node_key m (Some a)) <$> omap in_order (walk Z.succ t 0) = Some <$> keys t.
Proof.
  intros Hr Hh. split; [|destruct Hr as (p & _ & Hp & _); by apply (walk_in_order m p)].
  rewrite <-walk_level by lia. by apply (twalk_spec action m v).
Qed.

End Thms.

(** A comparison and an allocator to run the trees with. *)
Definition fresh_node {K} (m : Tree.memory K) : ptr := Some (fresh (dom (nodes m))).

Lemma fresh_node_allocates {K} : Allocates (K := K) fresh_node.
Proof. intros m. eexists. split; [done|]. apply not_elem_of_dom. apply is_fresh. Qed.

Definition empty_memory {K} : Tree.memory K := Memory {[1%positive := None]} ∅.

Lemma tree_refines_witness :
  exists m' t',
    run Z.sub fresh_node 1%positive [TSearch 5; TSearch 2; TSearch 8; TSearch 6; TDelete 5; TFind 8; TWalk; TDelete 3] empty_memory =
      Ok ([Key (Some 5); Key (Some 2); Key (Some 8); Key (Some 6); Deleted true; Key (Some 8);
           Walked [Some 2; Some 6; Some 8]; Deleted false], m') /\
    TreeOps.represents Z.sub m' 1%positive t' /\ keys t' = [2; 6; 8].
Proof.
  destruct (tree_refines Z.sub fresh_node 1%positive
    [TSearch 5; TSearch 2; TSearch 8; TSearch 6; TDelete 5; TFind 8; TWalk; TDelete 3] empty_memory) as (m' & t' & E & Hr & Hk).
  - apply fresh_node_allocates.
  - reflexivity.
  - exists m', t'. split; [exact E|]. split; [exact Hr|exact Hk].
Defined.

Definition small_tree : TreeSpec.tree Z :=
  Node 1%positive 5 (Node 2%positive 2 Leaf Leaf) (Node 3%positive 8 (Node 4%positive 6 Leaf Leaf) Leaf).

Definition small_memory : Tree.memory Z :=
  Memory {[1%positive := Some 1%positive]}
    {[1%positive := NodeT 5 (Some 2%positive) (Some 3%positive); 2%positive := NodeT 2 None None;
      3%positive := NodeT 8 (Some 4%positive) None; 4%positive := NodeT 6 None None]}.

Lemma small_represents : represents Z.sub small_memory 1%positive small_tree.
Proof.
  exists (Some 1%positive). split; [done|]. split.
  - cbn. repeat (split; [done|]; eexists _, _; split; [vm_compute; reflexivity|split]); done.
  - split; [apply (bool_decide_unpack _); vm_compute; done|]. repeat constructor; cbv; done.
Qed.

Lemma tree_updates_witness :
  exists m' t', tdelete Z.sub small_memory 5 (Some 1%positive) = Ok (Some 1%positive, m') /\
    represents Z.sub m' 1%positive t' /\ keys t' = [2; 6; 8].
Proof.
  destruct (tree_updates Z.sub (fun _ => None) small_memory 1%positive small_tree 5) as [_ H]; [apply small_represents|done|].
  destruct H as (p & m' & t' & E & Hr & _ & Hk & Hp). exists m', t'. destruct Hp as (_ & Hp & _).
  split; [rewrite E, Hp; reflexivity|]. split; [exact Hr|exact Hk].
Defined.

Lemma twalk_visits_witness :
  twalk small_memory (Some 1%positive) (Some (fun s a order level => s ++ [(a, order, level)])) [] =
    Ok [(1%positive, preorder, 0); (2%positive, leaf, 1); (1%positive, postorder, 0);
        (3%positive, preorder, 1); (4%positive, leaf, 2); (3%positive, postorder, 1); (3%positive, endorder, 1);
        (1%positive, endorder, 0)].
Proof.
  destruct (twalk_visits Z.sub (fun s a order level => s ++ [(a, order, level)]) small_memory 1%positive small_tree [])
    as [H _]; [apply small_represents|vm_compute; done|]. exact H.
Defined.
