(* ===== verification/HSearch.v ===== *)
(** * HSearch: the hash table of [search.h]

    Model of [stdlib/FreeBSD/hcreate.c] of Libc, with the default hash function
    of [db/hash/FreeBSD/hash_func.c].  There is one table: the static variables
    [htable] and [htablesize].  An entry is in memory with the link to the
    next one of its bucket; it keeps the pointer to the caller's key, whose
    characters (without the NUL behind them) are in [strings].  [malloc] says
    where the allocator puts a new entry, if there is memory for one. *)

From S2P Require Import Prelude.

Abbreviation addr := positive.
Abbreviation ptr := (option positive).

(** ** The hash functions

    [*key++] takes the next character; there is none behind the last. *)

Section Hash.
Context (HASHC : Z -> Z -> Z).

(** [n] times [HASHC]. *)
Fixpoint hash_steps (n : nat) (h : Z) (key : list Z) : res (Z * list Z) :=
  match n with
  | O => Ok (h, key)
  | S n =>
      match key with
      | [] => Crash OutOfBounds
      | c :: key => hash_steps n (HASHC h c) key
      end
  end.

(** [do { ... } while (--loop);], of which the first round enters in the
    middle and has [n] steps. *)
Fixpoint hash_rounds (loop n : nat) (h : Z) (key : list Z) : res Z :=
  match loop with
  | O => Crash OutOfFuel
  | S loop =>
      let! (h, key) := hash_steps n h key in
      match loop with
      | O => Ok h
      | S _ => hash_rounds loop 8 h key
      end
  end.

Definition hash_unrolled (key : list Z) (len : Z) : res Z :=
  if len >? 0 then
    let loop := Z.shiftr (u64 (len + 8 - 1)) 3 in
    let n := Z.land len (8 - 1) in
    hash_rounds (Z.to_nat loop) (if n =? 0 then 8 else Z.to_nat n) 0 key
  else Ok 0.
End Hash.

Definition HASHC (h c : Z) : Z := u32 (c + 65599 * h).
Definition HASH4b (h c : Z) : Z := u32 (u32 (Z.shiftl h 5) + h + c).

Definition hash3 : list Z -> Z -> res Z := hash_unrolled HASHC.
Definition hash4 : list Z -> Z -> res Z := hash_unrolled HASH4b.

Definition __default_hash : list Z -> Z -> res Z := hash4.

(** ** Strings *)

(** [strcmp]: the difference of the first characters that differ. *)
Fixpoint strcmp (s1 s2 : list Z) : Z :=
  match s1, s2 with
  | [], [] => 0
  | [], c :: _ => - c
  | c :: _, [] => c
  | c1 :: s1, c2 :: s2 => if c1 =? c2 then strcmp s1 s2 else c1 - c2
  end.

(** ** The table *)

Inductive ACTION : Set :=
  | FIND
  | ENTER.

Section Table.
Context {D : Type}.

Record ENTRY := Entry { key : addr; data : D }.

Record internal_entry := InternalEntry { link : ptr; ent : ENTRY }.

Record hstate := HState {
  htable : option (list ptr);
  htablesize : Z;
  entries : gmap addr internal_entry;
  strings : gmap addr (list Z)
}.

Definition MIN_BUCKETS_LG2 : Z := 4.
Definition MIN_BUCKETS : Z := Z.shiftl 1 MIN_BUCKETS_LG2.
Definition MAX_BUCKETS_LG2 : Z := 8 * 8 - 1 - 5.
Definition MAX_BUCKETS : Z := Z.shiftl 1 MAX_BUCKETS_LG2.

(** [for (p2 = 0; nel != 0; p2++) nel >>= 1;] *)
Fixpoint count_bits (fuel : nat) (nel p2 : Z) : res Z :=
  match fuel with
  | O => Crash OutOfFuel
  | S fuel => if nel =? 0 then Ok p2 else count_bits fuel (Z.shiftr nel 1) (p2 + 1)
  end.

(** [1 << p2], which is an [int]. *)
Definition shift_one (p2 : Z) : res Z := if p2 <? 31 then Ok (Z.shiftl 1 p2) else Crash ShiftOverflow.

Definition table_size (nel : Z) : res Z :=
  let nel := if nel <? MIN_BUCKETS then MIN_BUCKETS else nel in
  let nel := if nel >? MAX_BUCKETS then MAX_BUCKETS else nel in
  if negb (Z.land nel (nel - 1) =? 0) then
    let! p2 := count_bits 65 nel 0 in
    shift_one p2
  else Ok nel.

(** What it returns and [errno], if it sets it.  [memory] says whether there
    is memory for the table. *)
Definition hcreate (memory : bool) (st : hstate) (nel : Z) : res (Z * option errno_t * hstate) :=
  match htable st with
  | Some _ => Ok (0, Some EINVAL, st)
  | None =>
      let! nel := table_size nel in
      if negb memory then Ok (0, Some ENOMEM, HState None nel (entries st) (strings st))
      else Ok (1, None, HState (Some (replicate (Z.to_nat nel) None)) nel (entries st) (strings st))
  end.

Definition get_entry (st : hstate) (ie : addr) : res internal_entry :=
  match entries st !! ie with
  | Some e => Ok e
  | None => Crash OutOfBounds
  end.

Definition get_string (st : hstate) (s : addr) : res (list Z) :=
  match strings st !! s with
  | Some s => Ok s
  | None => Crash OutOfBounds
  end.

(** [while (!SLIST_EMPTY(...))]: frees the entries of one bucket and their keys. *)
Fixpoint destroy_bucket (fuel : nat) (st : hstate) (head : ptr) : res hstate :=
  match head with
  | None => Ok st
  | Some ie =>
      match fuel with
      | O => Crash OutOfFuel
      | S fuel =>
          let! e := get_entry st ie in
          let! _ := get_string st (key (ent e)) in
          destroy_bucket fuel
            (HState (htable st) (htablesize st) (delete ie (entries st)) (delete (key (ent e)) (strings st))) (link e)
      end
  end.

Fixpoint destroy_buckets (st : hstate) (buckets : list ptr) : res hstate :=
  match buckets with
  | [] => Ok st
  | head :: buckets =>
      let! st := destroy_bucket (size (entries st)) st head in
      destroy_buckets st buckets
  end.

Definition hdestroy (st : hstate) : res hstate :=
  match htable st with
  | None => Ok st
  | Some buckets =>
      let! st := destroy_buckets st buckets in
      Ok (HState None (htablesize st) (entries st) (strings st))
  end.

(** The loop over the entries of a bucket. *)
Fixpoint bucket_loop (fuel : nat) (st : hstate) (ie : ptr) (item_key : list Z) : res ptr :=
  match ie with
  | None => Ok None
  | Some a =>
      match fuel with
      | O => Crash OutOfFuel
      | S fuel =>
          let! e := get_entry st a in
          let! k := get_string st (key (ent e)) in
          if strcmp k item_key =? 0 then Ok ie
          else bucket_loop fuel st (link e) item_key
      end
  end.

(** The entry, if there is one or a new one. *)
Definition hsearch (malloc : hstate -> ptr) (st : hstate) (item : ENTRY) (action : ACTION) : res (ptr * hstate) :=
  let! k := get_string st (key item) in
  let! hashval := __default_hash k (Z.of_nat (length k)) in
  match htable st with
  | None => Crash OutOfBounds
  | Some buckets =>
      let idx := Z.land hashval (u64 (htablesize st - 1)) in
      let! head := arr_get buckets idx in
      let! ie := bucket_loop (size (entries st)) st head k in
      match ie, action with
      | Some _, _ => Ok (ie, st)
      | None, FIND => Ok (None, st)
      | None, ENTER =>
          match malloc st with
          | None => Ok (None, st)
          | Some ie =>
              let! buckets := arr_set buckets idx (Some ie) in
              Ok (Some ie, HState (Some buckets) (htablesize st) (<[ie := InternalEntry head item]> (entries st)) (strings st))
          end
      end
  end.

End Table.

Arguments ENTRY : clear implicits.
Arguments hstate : clear implicits.
