(* ===== verification/HSearchTable.v ===== *)
(** * HSearchTable: the buckets of the hash table in memory *)

From S2P Require Import Prelude HSearch.

(** ** The unrolled loops hash the key character by character *)

Section Hash.
Context (H : Z -> Z -> Z).

Lemma hash_steps_ok n h key :
  (n <= length key)%nat -> hash_steps H n h key = Ok (foldl H h (take n key), drop n key).
Proof.
  revert h key. induction n as [|n IH]; intros h key Hn; [done|].
  destruct key as [|c key]; cbn in *; [lia|]. apply IH. lia.
Qed.

Lemma hash_rounds_ok loop : forall n h key,
  length key = (n + 8 * loop)%nat -> hash_rounds H (S loop) n h key = Ok (foldl H h key).
Proof.
  induction loop as [|loop IH]; intros n h key Hl.
  - cbn [hash_rounds]. rewrite hash_steps_ok by lia. cbn [rbind]. by rewrite take_ge by lia.
  - change (hash_rounds H (S (S loop)) n h key) with (let! (h, key) := hash_steps H n h key in hash_rounds H (S loop) 8 h key).
    rewrite hash_steps_ok by lia. cbn [rbind]. rewrite IH by (rewrite length_drop; lia).
    by rewrite <-foldl_app, take_drop.
Qed.

Lemma hash_unrolled_ok key :
  Z.of_nat (length key) < 2 ^ 63 -> hash_unrolled H key (Z.of_nat (length key)) = Ok (foldl H 0 key).
Proof.
  intros Hl. unfold hash_unrolled. destruct (Z.gtb_spec (Z.of_nat (length key)) 0) as [Hp|Hp].
  2: { destruct key; [done|cbn in Hp; lia]. }
  rewrite u64_small, shiftr_div by lia. change (8 - 1) with (2 ^ 3 - 1). rewrite land_mask by lia.
  change (2 ^ 3) with 8. set (len := Z.of_nat (length key)) in *.
  replace (Z.to_nat ((len + 8 - 1) / 8)) with (S (Z.to_nat ((len + 7) / 8 - 1))) by zbits.
  apply hash_rounds_ok. destruct (Z.eqb_spec (len mod 8) 0); unfold len in *; zbits.
Qed.
End Hash.

Definition string_hash (k : list Z) : Z := foldl HASH4b 0 k.

Lemma string_hash_range k : 0 <= string_hash k < 2 ^ 32.
Proof.
  unfold string_hash. assert (Hg : forall h, 0 <= h < 2 ^ 32 -> 0 <= foldl HASH4b h k < 2 ^ 32); [|apply Hg; lia].
  induction k as [|c k IH]; intros h Hh; [done|]. apply IH, u32_range.
Qed.

(** ** Strings *)

Definition string_ok (k : list Z) : Prop := Forall (fun c => 0 < c < 256) k /\ Z.of_nat (length k) < 2 ^ 63.

#[export] Instance string_ok_dec k : Decision (string_ok k).
Proof. unfold string_ok. apply _. Defined.

Lemma strcmp_eq k1 k2 : string_ok k1 -> string_ok k2 -> strcmp k1 k2 = 0 <-> k1 = k2.
Proof.
  intros [H1 _] [H2 _]. revert k2 H2. induction H1 as [|c1 k1 Hc1 _ IH]; intros [|c2 k2] H2; cbn [strcmp]; try done.
  - apply Forall_cons in H2. split; [lia|done].
  - split; [lia|done].
  - apply Forall_cons in H2 as [? H2]. destruct (Z.eqb_spec c1 c2) as [->|]; [rewrite IH by done; naive_solver|].
    split; [lia|by intros [= ??]].
Qed.

(** ** The size of the table *)

Lemma count_bits_ok fuel : forall j nel p2,
  0 <= j -> 2 ^ j <= nel < 2 ^ (j + 1) -> j + 1 < Z.of_nat fuel -> count_bits fuel nel p2 = Ok (p2 + j + 1).
Proof.
  induction fuel as [|fuel IH]; intros j nel p2 Hj Hn Hf; [lia|]. cbn [count_bits].
  pose proof (Z.pow_pos_nonneg 2 j). destruct (Z.eqb_spec nel 0); [lia|]. rewrite shiftr_div by lia. change (2 ^ 1) with 2.
  destruct (decide (j = 0)) as [->|].
  - change (2 ^ 0) with 1 in *. change (2 ^ (0 + 1)) with 2 in *. replace (nel / 2) with 0 by zbits.
    destruct fuel as [|fuel]; [lia|]. cbn. f_equal. lia.
  - rewrite (IH (j - 1)); [f_equal; lia|lia| |lia].
    replace (2 ^ (j + 1)) with (2 * (2 * 2 ^ (j - 1))) in Hn by (rewrite <-!Z.pow_succ_r by lia; f_equal; lia).
    replace (2 ^ j) with (2 * 2 ^ (j - 1)) in Hn by (rewrite <-Z.pow_succ_r by lia; f_equal; lia).
    replace (j - 1 + 1) with (Z.succ (j - 1)) by lia. rewrite Z.pow_succ_r by lia.
    set (e := 2 ^ (j - 1)) in *. clearbody e. zbits.
Qed.

Lemma land_pred_zero j nel : 0 <= j -> 2 ^ j <= nel < 2 ^ (j + 1) -> Z.land nel (nel - 1) = 0 <-> nel = 2 ^ j.
Proof.
  intros Hj Hn. split; [|intros ->; rewrite land_mask, Z.mod_same; [done|pose proof (Z.pow_pos_nonneg 2 j); lia|done]].
  intros Hz. destruct (decide (nel = 2 ^ j)) as [|Hne]; [done|]. exfalso.
  assert (Hb : forall z, 2 ^ j <= z < 2 ^ (j + 1) -> Z.testbit z j = true).
  { intros z Hz'. apply Z.testbit_true; [done|]. replace (z / 2 ^ j) with 1; [done|].
    rewrite Z.pow_add_r in Hz' by lia. apply Z.div_unique_pos with (z - 2 ^ j); lia. }
  pose proof (Z.land_spec nel (nel - 1) j) as Hl. rewrite Hz, Z.bits_0, !Hb in Hl by lia. done.
Qed.

(** The least power of two that is not below the request, and at least 16. *)
Lemma table_size_ok nel :
  0 <= nel <= 2 ^ 30 ->
  exists j, table_size nel = Ok (2 ^ j) /\ 4 <= j <= 30 /\ nel <= 2 ^ j /\ (j = 4 \/ 2 ^ (j - 1) < nel).
Proof.
  intros Hn. unfold table_size. change MIN_BUCKETS with 16. change MAX_BUCKETS with (2 ^ 58).
  destruct (Z.ltb_spec nel 16) as [Hlt|Hge]; [exists 4; split_and!; try lia; done|].
  destruct (Z.gtb_spec nel (2 ^ 58)); [lia|]. pose proof (Z.log2_spec nel ltac:(lia)) as Hlog. set (j := Z.log2 nel) in *.
  assert (4 <= j) by (change 4 with (Z.log2 16); apply Z.log2_le_mono; lia).
  assert (j <= 30) by (change 30 with (Z.log2 (2 ^ 30)); apply Z.log2_le_mono; lia).
  rewrite <-Z.add_1_r in Hlog. pose proof (land_pred_zero j nel ltac:(lia) Hlog) as Hz.
  destruct (Z.eqb_spec (Z.land nel (nel - 1)) 0) as [E|E]; cbn [negb].
  - apply Hz in E. exists j. rewrite E. split_and!; try lia; [done|].
    destruct (decide (j = 4)); [by left|right]. apply Z.pow_lt_mono_r; lia.
  - rewrite (count_bits_ok _ j) by lia. cbn [rbind]. unfold shift_one. exists (j + 1).
    assert (j <> 30) by (intros ->; lia).
    rewrite (proj2 (Z.ltb_lt _ _)) by lia. rewrite Z.shiftl_1_l. replace (j + 1 - 1) with j by lia.
    rewrite Z.add_0_l. split_and!; [done|lia..|]. right. destruct (decide (nel = 2 ^ j)); [tauto|lia].
Qed.

(** ** Lists of buckets *)

Lemma concat_insert {A} (x : A) (ls : list (list A)) i l :
  ls !! i = Some l -> concat (<[i := x :: l]> ls) ≡ₚ x :: concat ls.
Proof.
  revert i. induction ls as [|l' ls IH]; intros [|i] Hi; cbn in *; try done; [by injection Hi as ->|].
  rewrite IH by done. symmetry. apply Permutation_middle.
Qed.

Lemma nodup_concat {A} (ls : list (list A)) i l : NoDup (concat ls) -> ls !! i = Some l -> NoDup l.
Proof.
  revert i. induction ls as [|l' ls IH]; intros [|i] Hn Hi; cbn in *; try done; apply NoDup_app in Hn as (? & _ & ?);
    [congruence|eauto].
Qed.

(** ** Tables in memory *)

Section Table.
Context {D : Type}.
Implicit Types (st : hstate D) (a b : addr) (p : ptr) (l : list addr) (k : list Z).

Fixpoint chain st p l : Prop :=
  match l with
  | [] => p = None
  | a :: l => p = Some a /\ exists e, entries st !! a = Some e /\ chain st (link e) l
  end.

Definition entry_string st a : option (list Z) := e ← entries st !! a; strings st !! key (ent e).

Definition entry_data st a : option D := (fun e => data (ent e)) <$> entries st !! a.

Definition key_ptr st a : option addr := (fun e => key (ent e)) <$> entries st !! a.

Definition slot (j : Z) k : Z := string_hash k mod 2 ^ j.

(** The buckets of a table: lists of entries, each with its key in the bucket
    of its hash value, and no key twice. *)
Record table_ok st (buckets : list ptr) (bs : list (list addr)) (j : Z) : Prop := {
  tb_table : htable st = Some buckets;
  tb_size : htablesize st = 2 ^ j;
  tb_log : 4 <= j <= 58;
  tb_length : Z.of_nat (length buckets) = 2 ^ j;
  tb_chains : Forall2 (chain st) buckets bs;
  tb_nodup : NoDup (concat bs);
  tb_slot i l a : bs !! i = Some l -> a ∈ l -> exists k, entry_string st a = Some k /\ slot j k = Z.of_nat i;
  tb_inj a b k : a ∈ concat bs -> b ∈ concat bs -> entry_string st a = Some k -> entry_string st b = Some k -> a = b
}.

Definition strings_ok st : Prop := forall s k, strings st !! s = Some k -> string_ok k.

Definition table_map st (bs : list (list addr)) (M : gmap (list Z) D) : Prop :=
  forall k d, M !! k = Some d <-> exists a, a ∈ concat bs /\ entry_string st a = Some k /\ entry_data st a = Some d.

Lemma entry_string_allocated st a k : entry_string st a = Some k -> is_Some (entries st !! a).
Proof. unfold entry_string. by destruct (entries st !! a). Qed.

Lemma chain_allocated st p l a : chain st p l -> a ∈ l -> is_Some (entries st !! a).
Proof.
  revert p. induction l as [|b l IH]; intros p; [by intros _ ?%not_elem_of_nil|].
  intros (-> & e & He & Hc). rewrite elem_of_cons. intros [->|Ha]; eauto.
Qed.

Lemma chain_frame st st' p l : (forall a, a ∈ l -> entries st' !! a = entries st !! a) -> chain st p l -> chain st' p l.
Proof.
  revert p. induction l as [|b l IH]; intros p Hf; [done|]. intros (-> & e & He & Hc). split; [done|].
  exists e. rewrite Hf by set_solver. split; [done|]. apply IH; [|done]. intros a Ha. apply Hf. set_solver.
Qed.

Lemma chain_fuel st p l : chain st p l -> NoDup l -> (length l <= size (entries st))%nat.
Proof.
  intros Hc Hn. rewrite <-(size_list_to_set (C := gset addr)), <-size_dom by done.
  apply subseteq_size. intros b Hb%elem_of_list_to_set. apply elem_of_dom. by eapply chain_allocated.
Qed.

(** The loop over a bucket finds the entry with the key. *)
Lemma bucket_loop_ok st k l : forall fuel p,
  chain st p l -> strings_ok st -> string_ok k -> (forall a, a ∈ l -> is_Some (entry_string st a)) ->
  (length l <= fuel)%nat ->
  exists r, bucket_loop fuel st p k = Ok r /\
    match r with
    | None => forall a, a ∈ l -> entry_string st a <> Some k
    | Some a => a ∈ l /\ entry_string st a = Some k
    end.
Proof.
  induction l as [|a l IH]; intros fuel p Hc Hs Hk He Hf.
  { cbn in Hc. subst p. exists None. split; [by destruct fuel|]. intros a. set_solver. }
  destruct Hc as (-> & e & Ha & Hc). destruct fuel as [|fuel]; [cbn in Hf; lia|].
  destruct (He a ltac:(set_solver)) as [k' Hk']. assert (Hs' : strings st !! key (ent e) = Some k') by (unfold entry_string in Hk'; by rewrite Ha in Hk').
  cbn [bucket_loop]. unfold get_entry, get_string. rewrite Ha. cbn [rbind]. rewrite Hs'. cbn [rbind].
  pose proof (strcmp_eq k' k (Hs _ _ Hs') Hk) as Hcmp. destruct (Z.eqb_spec (strcmp k' k) 0) as [E|E].
  - apply Hcmp in E as ->. exists (Some a). split; [done|]. split; [set_solver|done].
  - destruct (IH fuel (link e)) as (r & -> & Hr); try done; [intros b Hb; apply He; set_solver|cbn in Hf; lia|].
    exists r. split; [done|]. destruct r as [b|]; [set_solver|].
    intros b. rewrite elem_of_cons. intros [->|Hb]; [|by apply Hr]. rewrite Hk'. intros [= ->]. tauto.
Qed.

(** The bucket of a key. *)
Lemma table_bucket st buckets bs j k :
  table_ok st buckets bs j ->
  exists p l, Z.land (string_hash k) (u64 (htablesize st - 1)) = slot j k /\ 0 <= slot j k < 2 ^ j /\
    buckets !! Z.to_nat (slot j k) = Some p /\ bs !! Z.to_nat (slot j k) = Some l /\ chain st p l /\ NoDup l.
Proof.
  intros [Ht Hsz Hj Hl Hc Hn _ _]. assert (Hp : 0 < 2 ^ j) by (apply Z.pow_pos_nonneg; lia).
  assert (2 ^ j <= 2 ^ 58) by (apply Z.pow_le_mono_r; lia).
  pose proof (Z.mod_pos_bound (string_hash k) (2 ^ j) Hp) as Hb. fold (slot j k) in Hb.
  destruct (lookup_lt_is_Some_2 buckets (Z.to_nat (slot j k))) as [p Hpk]; [lia|].
  destruct (Forall2_lookup_l _ _ _ _ _ Hc Hpk) as (l & Hlk & Hch). exists p, l. split_and!; try done; [| |lia|].
  - rewrite Hsz, u64_small, land_mask by lia. done.
  - lia.
  - by eapply nodup_concat.
Qed.
(** A new entry at the head of its bucket. *)
Lemma enter_ok st buckets bs j M k item p l q :
  table_ok st buckets bs j -> table_map st bs M -> strings st !! key item = Some k -> M !! k = None ->
  buckets !! Z.to_nat (slot j k) = Some p -> bs !! Z.to_nat (slot j k) = Some l -> chain st p l -> 0 <= slot j k ->
  entries st !! q = None ->
  let buckets' := <[Z.to_nat (slot j k) := Some q]> buckets in
  let st' := HState (Some buckets') (htablesize st) (<[q := InternalEntry p item]> (entries st)) (strings st) in
  table_ok st' buckets' (<[Z.to_nat (slot j k) := q :: l]> bs) j /\
  table_map st' (<[Z.to_nat (slot j k) := q :: l]> bs) (<[k := data item]> M) /\ entry_data st' q = Some (data item).
Proof.
  intros [Ht Hsz Hj Hl Hc Hn Hslot Hinj] HM Hk Hnone Hp Hb Hch H0 Hq buckets' st'.
  pose proof (concat_insert q bs _ l Hb) as Hperm.
  assert (Hqs : entry_string st' q = Some k) by (unfold entry_string; cbn; by rewrite lookup_insert_eq).
  assert (Hqd : entry_data st' q = Some (data item)) by (unfold entry_data; cbn; by rewrite lookup_insert_eq).
  assert (Hold : forall a, a <> q -> entry_string st' a = entry_string st a /\ entry_data st' a = entry_data st a).
  { intros a Ha. unfold entry_string, entry_data. cbn. by rewrite lookup_insert_ne. }
  assert (Hnq : forall a, a ∈ concat bs -> a <> q).
  { intros a (i & l' & Hl' & Ha)%elem_of_concat ->. destruct (Hslot i l' q Hl' Ha) as (k' & Hk' & _).
    apply entry_string_allocated in Hk'. rewrite Hq in Hk'. by destruct Hk'. }
  assert (Hnk : forall a, a ∈ concat bs -> entry_string st a <> Some k).
  { intros a Ha Hak. destruct (entry_string_allocated _ _ _ Hak) as [e He].
    enough (M !! k = Some (data (ent e))) by congruence. apply HM. exists a. unfold entry_data. by rewrite He. }
  assert (Hframe : forall p' l', chain st p' l' -> (forall a, a ∈ l' -> a ∈ concat bs) -> chain st' p' l').
  { intros p' l' Hc' Hin. eapply chain_frame; [|done]. intros a Ha. cbn. apply lookup_insert_ne.
    by apply not_eq_sym, Hnq, Hin. }
  split; [split; cbn; try done|split; [|done]].
  - unfold buckets'. by rewrite length_insert.
  - assert (Hc' : Forall2 (chain st') buckets bs).
    { apply Forall2_same_length_lookup_2; [by eapply Forall2_length|]. intros i p' l' Hp' Hl'.
      apply Hframe; [by apply (Forall2_lookup_lr _ _ _ _ _ _ Hc Hp' Hl')|]. intros a Ha. apply elem_of_concat. eauto. }
    apply Forall2_insert; [done|]. split; [done|]. exists (InternalEntry p item). cbn. rewrite lookup_insert_eq.
    split; [done|]. apply Hframe; [done|]. intros a Ha. apply elem_of_concat. eauto.
  - rewrite Hperm. apply NoDup_cons. split; [|done]. intros Hin. by apply (Hnq q).
  - intros i l' a Hl' Ha. apply list_lookup_insert_Some in Hl' as [(<- & <- & _)|[Hne Hl']].
    + apply elem_of_cons in Ha as [->|Ha]; [exists k; split; [done|lia]|].
      destruct (Hold a) as [-> _]; [apply Hnq, elem_of_concat; eauto|]. by eapply Hslot.
    + destruct (Hold a) as [-> _]; [apply Hnq, elem_of_concat; eauto|]. by eapply Hslot.
  - intros a b k'. rewrite Hperm, !elem_of_cons. intros [->|Ha] [->|Hb'].
    + done.
    + rewrite Hqs. destruct (Hold b (Hnq b Hb')) as [-> _]. intros [= <-] ?. by destruct (Hnk b).
    + rewrite Hqs. destruct (Hold a (Hnq a Ha)) as [-> _]. intros ? [= <-]. by destruct (Hnk a).
    + destruct (Hold a (Hnq a Ha)) as [-> _], (Hold b (Hnq b Hb')) as [-> _]. by apply Hinj.
  - intros k' d. setoid_rewrite Hperm. setoid_rewrite elem_of_cons. rewrite lookup_insert_Some. split.
    + intros [[<- <-]|[Hne (a & Ha & Hs & Hd)%HM]]; [exists q; auto|]. exists a.
      destruct (Hold a (Hnq a Ha)) as [-> ->]. auto.
    + intros (a & [->|Ha] & Hs & Hd).
      * rewrite Hqs in Hs. rewrite Hqd in Hd. injection Hs as <-. injection Hd as <-. by left.
      * destruct (Hold a (Hnq a Ha)) as [Es Ed]. rewrite Es in Hs. rewrite Ed in Hd. right.
        split; [intros ->; by apply (Hnk a)|]. apply HM. eauto.
Qed.

Lemma hsearch_ok malloc st buckets bs j M item action k :
  table_ok st buckets bs j -> strings_ok st -> table_map st bs M -> strings st !! key item = Some k ->
  (forall q, malloc st = Some q -> entries st !! q = None) ->
  exists p st' buckets' bs', hsearch malloc st item action = Ok (p, st') /\ strings st' = strings st /\
    table_ok st' buckets' bs' j /\
    match M !! k, action, malloc st with
    | Some d, _, _ => st' = st /\ bs' = bs /\ p ≫= entry_data st = Some d /\ p ≫= entry_string st = Some k
    | None, ENTER, Some q => p = Some q /\ entry_data st' q = Some (data item) /\ table_map st' bs' (<[k := data item]> M) /\
        concat bs' ≡ₚ q :: concat bs /\ key_ptr st' q = Some (key item) /\
        forall a, a <> q -> entries st' !! a = entries st !! a
    | None, _, _ => st' = st /\ bs' = bs /\ p = None
    end.
Proof.
  intros Hok Hs HM Hk Hm. unfold hsearch, get_string at 1. rewrite Hk. cbn [rbind].
  pose proof (Hs _ _ Hk) as Hks. unfold __default_hash, hash4. rewrite hash_unrolled_ok by apply Hks. cbn [rbind].
  fold (string_hash k). destruct (table_bucket st buckets bs j k Hok) as (p & l & Hidx & Hr & Hp & Hl & Hc & Hn).
  pose proof Hok as [Ht _ _ _ _ _ Hslot _]. rewrite Ht, Hidx, (arr_get_ok _ _ p) by (done || lia). cbn [rbind].
  destruct (bucket_loop_ok st k l (size (entries st)) p) as (r & -> & Hr'); try done; [|by eapply chain_fuel|].
  { intros a Ha. destruct (Hslot _ _ _ Hl Ha) as (k' & -> & _). done. }
  cbn [rbind]. destruct r as [a|].
  - destruct Hr' as [Ha Hak]. destruct (entry_string_allocated _ _ _ Hak) as [e He].
    assert (M !! k = Some (data (ent e))) as ->.
    { apply HM. exists a. unfold entry_data. rewrite He. split; [apply elem_of_concat; eauto|done]. }
    eexists (Some a), st, buckets, bs. split; [by destruct action|]. split_and!; try done. cbn. unfold entry_data. by rewrite He.
  - assert (Hnone : M !! k = None).
    { destruct (M !! k) as [d|] eqn:E; [|done]. apply HM in E as (a & (i & l' & Hl' & Ha)%elem_of_concat & Hak & _).
      destruct (Hslot _ _ _ Hl' Ha) as (k' & Hk' & Hi). rewrite Hak in Hk'. injection Hk' as <-.
      rewrite Hi, Nat2Z.id, Hl' in Hl. injection Hl as ->. by destruct (Hr' a Ha). }
    rewrite Hnone. destruct action; [by exists None, st, buckets, bs|].
    destruct (malloc st) as [q|] eqn:Eq; [|by exists None, st, buckets, bs].
    rewrite arr_set_ok by (destruct Hok; lia). cbn [rbind]. eexists _, _, _, _. split; [done|]. split; [done|].
    destruct (enter_ok st buckets bs j M k item p l q) as (? & ? & ?); try done; [lia|by apply Hm|].
    split; [done|]. split_and!; try done; [by apply concat_insert| |intros a Ha; by apply lookup_insert_ne].
    unfold key_ptr. cbn. by rewrite lookup_insert_eq.
Qed.
(** ** Destroying the table *)

(** The entries [L] and their keys are freed, and nothing else. *)
Definition freed st st' (L : list addr) : Prop :=
  (forall a, entries st' !! a = if decide (a ∈ L) then None else entries st !! a) /\
  (forall a s, a ∈ L -> key_ptr st a = Some s -> strings st' !! s = None) /\
  (forall s, (forall a, a ∈ L -> key_ptr st a <> Some s) -> strings st' !! s = strings st !! s).

(** What can be freed: no key belongs to two entries. *)
Definition freeable st (L : list addr) : Prop :=
  NoDup L /\ (forall a, a ∈ L -> is_Some (entry_string st a)) /\
  (forall a b s, a ∈ L -> b ∈ L -> key_ptr st a = Some s -> key_ptr st b = Some s -> a = b).

Lemma freed_nil st : freed st st [].
Proof. split_and!; [|set_solver|done]. intros a. by rewrite decide_False by set_solver. Qed.

Lemma freed_app st st1 st2 L1 L2 :
  (forall a, a ∈ L1 -> a ∉ L2) -> freed st st1 L1 -> freed st1 st2 L2 -> freed st st2 (L1 ++ L2).
Proof.
  intros Hd (He1 & Hk1 & Ho1) (He2 & Hk2 & Ho2).
  assert (Hkp : forall a, a ∈ L2 -> key_ptr st1 a = key_ptr st a).
  { intros a Ha. unfold key_ptr. rewrite He1, decide_False; [done|]. intros Ha'. by apply (Hd a). }
  split_and!.
  - intros a. rewrite He2, He1. destruct (decide (a ∈ L2)), (decide (a ∈ L1)), (decide (a ∈ L1 ++ L2)); set_solver.
  - intros a s Ha Hs. destruct (decide (Exists (fun b => key_ptr st1 b = Some s) L2)) as [(b & Hb & Hbs)%Exists_exists|Hn]; [by eapply Hk2|].
    rewrite Exists_exists in Hn.
    rewrite Ho2 by naive_solver. apply elem_of_app in Ha as [Ha|Ha]; [by eapply Hk1|].
    destruct Hn. exists a. by rewrite Hkp.
  - intros s Hs. rewrite Ho2, Ho1; [done| |]; intros a Ha.
    + apply Hs. set_solver.
    + rewrite Hkp by done. apply Hs. set_solver.
Qed.
Lemma freeable_app st st1 L1 L2 :
  freeable st (L1 ++ L2) -> freed st st1 L1 -> freeable st1 L2 /\ forall a, a ∈ L2 -> entries st1 !! a = entries st !! a.
Proof.
  intros (Hn & Hs & Hi) (He & Hk & Ho). apply NoDup_app in Hn as (Hn1 & Hd & Hn2).
  assert (Hsame : forall a, a ∈ L2 -> entries st1 !! a = entries st !! a).
  { intros a Ha. rewrite He, decide_False; [done|]. intros Ha'. by apply (Hd a). }
  assert (Hkp : forall a, a ∈ L2 -> key_ptr st1 a = key_ptr st a) by (intros a Ha; unfold key_ptr; by rewrite Hsame).
  split; [|done]. split_and!; try done.
  - intros a Ha. destruct (Hs a ltac:(set_solver)) as [k Hak]. pose proof Hak as Hak'.
    unfold entry_string in *. rewrite Hsame by done. destruct (entries st !! a) as [e|] eqn:E; [|done]. cbn in *.
    rewrite Ho; [by eexists|]. intros b Hb Hbs. destruct (Hd b Hb).
    rewrite (Hi b a (key (ent e))); [done|set_solver..|done|unfold key_ptr; by rewrite E].
  - intros a b s Ha Hb. rewrite !Hkp by done. apply Hi; set_solver.
Qed.

Lemma destroy_bucket_ok l : forall fuel st head,
  chain st head l -> freeable st l -> (length l <= fuel)%nat ->
  exists st', destroy_bucket fuel st head = Ok st' /\ freed st st' l /\ htable st' = htable st /\ htablesize st' = htablesize st.
Proof.
  induction l as [|a l IH]; intros fuel st head Hc Hf Hl.
  { cbn in Hc. subst head. exists st. split; [by destruct fuel|]. split; [apply freed_nil|done]. }
  destruct Hc as (-> & e & He & Hc). destruct fuel as [|fuel]; [cbn in Hl; lia|].
  pose proof Hf as (Hn & Hs & _). destruct (Hs a ltac:(set_solver)) as [k Hk].
  unfold entry_string in Hk. rewrite He in Hk. cbn in Hk.
  cbn [destroy_bucket]. unfold get_entry, get_string. rewrite He. cbn [rbind]. rewrite Hk. cbn [rbind].
  set (st1 := HState _ _ _ _).
  assert (H1 : freed st st1 [a]).
  { split_and!; cbn.
    - intros b. destruct (decide (b ∈ [a])) as [->%list_elem_of_singleton|Hb]; [apply lookup_delete_eq|].
      apply lookup_delete_ne. set_solver.
    - intros b s ->%list_elem_of_singleton. unfold key_ptr. rewrite He. intros [= <-]. apply lookup_delete_eq.
    - intros s Hsk. apply lookup_delete_ne. intros <-. apply (Hsk a); [set_solver|]. unfold key_ptr. by rewrite He. }
  destruct (freeable_app st st1 [a] l Hf H1) as [Hf1 Hsame].
  destruct (IH fuel st1 (link e)) as (st' & -> & Hfr & Ht & Hz); [by apply (chain_frame st)|done|cbn in Hl; lia|].
  exists st'. split; [done|]. split; [|done]. apply (freed_app st st1 st' [a] l); [|done|done].
  apply NoDup_cons in Hn as [Hn _]. by intros b ->%list_elem_of_singleton.
Qed.

Lemma destroy_buckets_ok buckets bs : forall st,
  Forall2 (chain st) buckets bs -> freeable st (concat bs) ->
  exists st', destroy_buckets st buckets = Ok st' /\ freed st st' (concat bs) /\ htablesize st' = htablesize st.
Proof.
  revert bs. induction buckets as [|p buckets IH]; intros bs st Hc Hf.
  { apply Forall2_nil_inv_l in Hc as ->. exists st. split; [done|]. split; [apply freed_nil|done]. }
  apply Forall2_cons_inv_l in Hc as (l & bs' & Hl & Hc & ->). cbn [concat destroy_buckets] in *.
  pose proof Hf as (Hn & Hs & Hi). pose proof Hn as (Hnl & Hd & _)%NoDup_app.
  destruct (destroy_bucket_ok l (size (entries st)) st p) as (st1 & -> & H1 & _ & Hz1);
    [done| |by eapply chain_fuel|].
  { split_and!; [done|intros a Ha; apply Hs; set_solver|]. intros a b s Ha Hb. apply Hi; set_solver. }
  destruct (freeable_app st st1 l (concat bs') Hf H1) as [Hf1 Hsame]. cbn [rbind].
  destruct (IH bs' st1) as (st' & -> & Hfr & Hz); [|done|].
  { apply Forall2_same_length_lookup_2; [by eapply Forall2_length|]. intros i p' l' Hp' Hl'.
    apply (chain_frame st); [|by apply (Forall2_lookup_lr _ _ _ _ _ _ Hc Hp' Hl')].
    intros a Ha. apply Hsame, elem_of_concat. eauto. }
  exists st'. split; [done|]. split; [by apply (freed_app st st1 st')|congruence].
Qed.

Lemma table_freeable st buckets bs j : table_ok st buckets bs j -> freeable st (concat bs).
Proof.
  intros [_ _ _ _ _ Hn Hslot Hinj].
  assert (Hs : forall a, a ∈ concat bs -> is_Some (entry_string st a)).
  { intros a (i & l & Hl & Ha)%elem_of_concat. destruct (Hslot i l a Hl Ha) as (k & -> & _). done. }
  split_and!; [done|done|]. intros a b s Ha Hb Has Hbs. destruct (Hs a Ha) as [k Hk]. apply (Hinj a b k); try done.
  unfold entry_string, key_ptr in *. destruct (entries st !! a) as [ea|], (entries st !! b) as [eb|]; try done.
  cbn in *. injection Has as <-. injection Hbs as Hbs. by rewrite Hbs.
Qed.

Lemma hdestroy_ok st buckets bs j :
  table_ok st buckets bs j -> exists st', hdestroy st = Ok st' /\ htable st' = None /\ freed st st' (concat bs).
Proof.
  intros Hok. unfold hdestroy. rewrite (tb_table _ _ _ _ Hok).
  destruct (destroy_buckets_ok buckets bs st) as (st' & -> & Hf & _); [apply Hok|by eapply table_freeable|].
  cbn [rbind]. eexists. split; [done|]. split; [done|]. exact Hf.
Qed.
End Table.
