(* ===== verification/HSearchThms.v ===== *)
(** * HSearchThms: the hash table of [hsearch] is a map from strings *)

From S2P Require Import Prelude HSearch HSearchTable.

Section Table.
Context {D : Type}.
Implicit Types (st : hstate D) (a b : addr) (p : ptr) (l : list addr) (k : list Z).

(** ** Runs *)

Inductive hop :=
  | HEnter (s : addr) (d : D)
  | HFind (s : addr) (d : D).

Definition hop_key (o : hop) : addr := match o with HEnter s _ | HFind s _ => s end.

(** The data of the entry a call returns. *)
Definition hstep (malloc : hstate D -> ptr) (o : hop) st : res (option D * hstate D) :=
  let! (p, st) := match o with
                  | HEnter s d => hsearch malloc st (Entry s d) ENTER
                  | HFind s d => hsearch malloc st (Entry s d) FIND
                  end in
  Ok (p ≫= entry_data st, st).

Fixpoint hrun malloc (os : list hop) st : res (list (option D) * hstate D) :=
  match os with
  | [] => Ok ([], st)
  | o :: os =>
      let! (r, st) := hstep malloc o st in
      let! (rs, st) := hrun malloc os st in
      Ok (r :: rs, st)
  end.

(** The same on a map from strings. *)
Definition map_step (S : gmap addr (list Z)) (o : hop) (M : gmap (list Z) D) : option D * gmap (list Z) D :=
  match S !! hop_key o with
  | None => (None, M)
  | Some k =>
      match M !! k, o with
      | Some d, _ => (Some d, M)
      | None, HFind _ _ => (None, M)
      | None, HEnter _ d => (Some d, <[k := d]> M)
      end
  end.

Fixpoint map_run (S : gmap addr (list Z)) (os : list hop) (M : gmap (list Z) D) : list (option D) :=
  match os with
  | [] => []
  | o :: os => (map_step S o M).1 :: map_run S os (map_step S o M).2
  end.

Definition Allocates (malloc : hstate D -> ptr) : Prop := forall st, exists q, malloc st = Some q /\ entries st !! q = None.

(** A table that began empty in the state [st0]: its entries are new, and
    their keys are among [given]. *)
Record grown st0 st (given : list addr) (bs : list (list addr)) : Prop := {
  gr_strings : strings st = strings st0;
  gr_old a : a ∉ concat bs -> entries st !! a = entries st0 !! a;
  gr_new a : a ∈ concat bs -> entries st0 !! a = None;
  gr_keys a s : a ∈ concat bs -> key_ptr st a = Some s -> s ∈ given
}.

Lemma hstep_refines malloc o st0 st given buckets bs j M :
  Allocates malloc -> table_ok st buckets bs j -> strings_ok st -> table_map st bs M -> grown st0 st given bs ->
  is_Some (strings st0 !! hop_key o) -> hop_key o ∈ given ->
  exists st' buckets' bs', hstep malloc o st = Ok ((map_step (strings st0) o M).1, st') /\
    table_ok st' buckets' bs' j /\ strings_ok st' /\ table_map st' bs' (map_step (strings st0) o M).2 /\ grown st0 st' given bs'.
Proof.
  intros Hm Hok Hs HM Hg [k Hk] Hin. destruct (Hm st) as (q & Eq & Hq).
  assert (Hfresh : forall q, malloc st = Some q -> entries st !! q = None) by (intros q'; rewrite Eq; by intros [= <-]).
  unfold map_step. rewrite Hk. rewrite <-(gr_strings _ _ _ _ Hg) in Hk.
  unfold hstep. destruct o as [s d|s d]; cbn [hop_key] in *.
  - destruct (hsearch_ok malloc st buckets bs j M (Entry s d) ENTER k) as (p & st' & buckets' & bs' & -> & Hst & Hok' & Hr); try done.
    cbn [rbind]. exists st', buckets', bs'. rewrite Eq in Hr.
    destruct (M !! k) as [d'|]; [by destruct Hr as (-> & -> & -> & _)|].
    destruct Hr as (-> & Hd & HM' & Hperm & Hkq & Hold). cbn [mbind option_bind fst snd]. rewrite Hd.
    split; [done|]. split; [done|]. split; [intros s' k'; rewrite Hst; apply Hs|]. split; [done|].
    destruct Hg as [Hgs Hgo Hgn Hgk].
    assert (Hnq : q ∉ concat bs).
    { intros (i & l & Hl & Ha)%elem_of_concat. destruct (tb_slot _ _ _ _ Hok i l q Hl Ha) as (k' & Hk' & _).
      apply entry_string_allocated in Hk'. rewrite Hq in Hk'. by destruct Hk'. }
    split; [congruence| | |].
    + intros a. rewrite Hperm, elem_of_cons. intros Ha. rewrite Hold by naive_solver. apply Hgo. naive_solver.
    + intros a. rewrite Hperm, elem_of_cons. intros [->|Ha]; [|by apply Hgn]. by rewrite <-Hgo.
    + intros a s'. rewrite Hperm, elem_of_cons. intros [->|Ha]; [rewrite Hkq; by intros [= <-]|].
      unfold key_ptr. rewrite Hold by naive_solver. by apply Hgk.
  - destruct (hsearch_ok malloc st buckets bs j M (Entry s d) FIND k) as (p & st' & buckets' & bs' & -> & Hst & Hok' & Hr); try done.
    cbn [rbind]. exists st', buckets', bs'.
    destruct (M !! k) as [d'|]; [by destruct Hr as (-> & -> & -> & _)|]. by destruct Hr as (-> & -> & ->).
Qed.

Lemma hcreate_fresh st nel :
  htable st = None -> 0 <= nel <= 2 ^ 30 ->
  exists st' buckets bs j, hcreate true st nel = Ok (1, None, st') /\ table_ok st' buckets bs j /\
    table_map st' bs ∅ /\ grown st st' [] bs /\ concat bs = [] /\ nel <= 2 ^ j /\ (j = 4 \/ 2 ^ (j - 1) < nel).
Proof.
  intros Ht Hn. destruct (table_size_ok nel Hn) as (j & Hsz & Hj & Hle & Hmin). unfold hcreate. rewrite Ht, Hsz. cbn [rbind negb].
  assert (0 < 2 ^ j) by (apply Z.pow_pos_nonneg; lia).
  eexists _, _, (replicate (Z.to_nat (2 ^ j)) []), j.
  assert (Hc : concat (replicate (Z.to_nat (2 ^ j)) (@nil addr)) = []) by (by induction (Z.to_nat (2 ^ j))).
  split; [done|]. rewrite Hc. split_and!; try done.
  - split; cbn; try done; rewrite ?Hc; try (lia || set_solver || constructor).
    + rewrite length_replicate. lia.
    + apply Forall2_same_length_lookup_2; [by rewrite !length_replicate|].
      by intros i p l [-> _]%lookup_replicate [-> _]%lookup_replicate.
    + intros i l a [-> _]%lookup_replicate. set_solver.
  - intros k d. rewrite lookup_empty. split; [done|]. rewrite Hc. set_solver.
  - split; cbn; rewrite ?Hc; try done; set_solver.
Qed.
Lemma grown_weaken st0 st given given' bs : given ⊆ given' -> grown st0 st given bs -> grown st0 st given' bs.
Proof. intros Hsub [? ? ? Hk]. split; try done. intros a s Ha Hs. apply Hsub. by eapply Hk. Qed.

(** [C40] The hash table refines a map from strings.  After [hcreate] of at most
    2^30 entries and as long as memory is there, calls of
    [hsearch] with keys that are in memory give what they give on a finite
    map, where an entry is made once and not changed; [hdestroy] then frees
    the entries, leaves no other memory changed, and frees no key that was
    not given to the table. *)
Theorem hsearch_refines malloc st nel os :
  htable st = None -> strings_ok st -> 0 <= nel <= 2 ^ 30 -> Allocates malloc ->
  (forall o, o ∈ os -> is_Some (strings st !! hop_key o)) ->
  exists st0 st1 st2, hcreate true st nel = Ok (1, None, st0) /\
    hrun malloc os st0 = Ok (map_run (strings st) os ∅, st1) /\
    hdestroy st1 = Ok st2 /\ htable st2 = None /\ entries st2 = entries st /\
    forall s, s ∉ hop_key <$> os -> strings st2 !! s = strings st !! s.
Proof.
  intros Ht Hs Hn Hm Hkeys. destruct (hcreate_fresh st nel Ht Hn) as (st0 & buckets & bs & j & -> & Hok & HM & Hg & _).
  apply (grown_weaken _ _ _ (hop_key <$> os)) in Hg; [|set_solver].
  assert (Hs0 : strings_ok st0) by (intros s k; rewrite (gr_strings _ _ _ _ Hg); apply Hs).
  assert (Hrun : exists st1 buckets' bs', hrun malloc os st0 = Ok (map_run (strings st) os ∅, st1) /\
    table_ok st1 buckets' bs' j /\ grown st st1 (hop_key <$> os) bs').
  { assert (Hin : forall o, o ∈ os -> hop_key o ∈ hop_key <$> os) by (intros o Ho; by apply list_elem_of_fmap_2).
    revert Hg Hin. generalize (hop_key <$> os) as given. clear Ht Hs. revert st0 buckets bs Hok Hs0 HM Hkeys.
    generalize (∅ : gmap (list Z) D) as M.
    induction os as [|o os IH]; intros M st0 buckets bs Hok Hs0 HM Hkeys given Hg Hin; [by exists st0, buckets, bs|].
    destruct (hstep_refines malloc o st st0 given buckets bs j M) as (st' & buckets' & bs' & E & Hok' & Hs' & HM' & Hg'); try done;
      [apply Hkeys; set_solver|apply Hin; set_solver|].
    cbn [hrun map_run]. rewrite E. cbn [rbind].
    destruct (IH _ st' buckets' bs' Hok' Hs' HM') with (given := given) as (st1 & b1 & bs1 & -> & Hok1 & Hg1); try done;
      [intros o' Ho'; apply Hkeys; set_solver|intros o' Ho'; apply Hin; set_solver|].
    by exists st1, b1, bs1. }
  destruct Hrun as (st1 & buckets' & bs' & E1 & Hok1 & [Hgs Hgo Hgn Hgk]).
  destruct (hdestroy_ok st1 buckets' bs' j Hok1) as (st2 & E2 & Ht2 & He & _ & Hstr).
  exists st0, st1, st2. split_and!; try done.
  - apply map_eq. intros a. rewrite He. destruct (decide (a ∈ concat bs')); [by rewrite Hgn|by apply Hgo].
  - intros s Hns. rewrite Hstr, Hgs; [done|]. intros a Ha Hk. apply Hns. by eapply Hgk.
Qed.

(** [hcreate] refuses a second table, makes one with the least power of two
    of empty buckets that holds the request (and at least 16), and has no
    table when there is no memory.  Beyond 2^30, a request that is not a power
    of two shifts an [int] out of its range. *)
Theorem hcreate_sizes st nel :
  0 <= nel ->
  (is_Some (htable st) -> forall memory, hcreate memory st nel = Ok (0, Some EINVAL, st)) /\
  (htable st = None -> nel <= 2 ^ 30 ->
    exists j, 4 <= j <= 30 /\ nel <= 2 ^ j /\ (j = 4 \/ 2 ^ (j - 1) < nel) /\
      hcreate true st nel = Ok (1, None, HState (Some (replicate (Z.to_nat (2 ^ j)) None)) (2 ^ j) (entries st) (strings st)) /\
      hcreate false st nel = Ok (0, Some ENOMEM, HState None (2 ^ j) (entries st) (strings st))) /\
  (htable st = None -> 2 ^ 30 < nel < 2 ^ 58 -> nel <> 2 ^ Z.log2 nel ->
    forall memory, hcreate memory st nel = Crash ShiftOverflow).
Proof.
  intros H0. split_and!.
  - intros [b Hb] memory. unfold hcreate. by rewrite Hb.
  - intros Ht Hn. destruct (table_size_ok nel) as (j & Hsz & Hj & Hle & Hmin); [lia|]. exists j.
    unfold hcreate. rewrite Ht, Hsz. split_and!; done || lia.
  - intros Ht Hn Hp memory. unfold hcreate. rewrite Ht. unfold table_size. change MIN_BUCKETS with 16.
    change MAX_BUCKETS with (2 ^ 58). rewrite (proj2 (Z.ltb_ge nel 16)) by lia. destruct (Z.gtb_spec nel (2 ^ 58)); [lia|].
    pose proof (Z.log2_spec nel ltac:(lia)) as Hlog. set (j := Z.log2 nel) in *. rewrite <-Z.add_1_r in Hlog.
    assert (30 <= j) by (change 30 with (Z.log2 (2 ^ 30)); apply Z.log2_le_mono; lia).
    assert (j <= 58) by (change 58 with (Z.log2 (2 ^ 58)); apply Z.log2_le_mono; lia).
    destruct (Z.eqb_spec (Z.land nel (nel - 1)) 0) as [E|E]; [apply (land_pred_zero j) in E; lia|]. cbn [negb].
    rewrite (count_bits_ok _ j) by lia. cbn [rbind]. unfold shift_one. by rewrite (proj2 (Z.ltb_ge _ _)) by lia.
Qed.
End Table.

Definition fresh_entry {D} (st : hstate D) : ptr := Some (fresh (dom (entries st))).

(** The strings "a", "b" and again "a". *)
Definition small_strings : gmap addr (list Z) := {[1%positive := [97]; 2%positive := [98]; 3%positive := [97]]}.

Definition small_state : hstate Z := HState None 0 ∅ small_strings.

Lemma small_strings_ok : strings_ok small_state.
Proof.
  intros s k Hk. apply (map_Forall_lookup_1 (fun _ k => string_ok k) small_strings s k); [|done].
  apply (bool_decide_unpack _). vm_compute. done.
Qed.

Lemma hsearch_refines_witness :
  exists st0 st1 st2, hcreate true small_state 100 = Ok (1, None, st0) /\
    hrun fresh_entry [HFind 1%positive 0; HEnter 1%positive 10; HEnter 2%positive 20; HEnter 3%positive 30; HFind 2%positive 0] st0 =
      Ok ([None; Some 10; Some 20; Some 10; Some 20], st1) /\
    hdestroy st1 = Ok st2 /\ htable st2 = None.
Proof.
  destruct (hsearch_refines fresh_entry small_state 100
    [HFind 1%positive 0; HEnter 1%positive 10; HEnter 2%positive 20; HEnter 3%positive 30; HFind 2%positive 0])
    as (st0 & st1 & st2 & E0 & E1 & E2 & Ht & _).
  - reflexivity.
  - apply small_strings_ok.
  - lia.
  - intros st. eexists. split; [done|]. apply not_elem_of_dom, is_fresh.
  - intros o Ho. repeat (apply elem_of_cons in Ho as [->|Ho]; [by eexists|]). by apply not_elem_of_nil in Ho.
  - exists st0, st1, st2. split; [exact E0|]. split; [exact E1|]. split; [exact E2|exact Ht].
Defined.

Lemma hcreate_sizes_witness :
  hcreate true small_state (2 ^ 31 + 1) = Crash ShiftOverflow /\
  exists st', hcreate true small_state 100 = Ok (1, None, st') /\ htablesize st' = 128.
Proof.
  split.
  - apply (hcreate_sizes small_state (2 ^ 31 + 1)); [lia|done|lia|vm_compute; done].
  - destruct (hcreate_sizes small_state 100) as (_ & H & _); [lia|]. destruct H as (j & Hj & Hle & Hmin & E & _); [done|lia|].
    eexists. split; [exact E|]. cbn. assert (j = 7) as ->; [|done].
    destruct (Z_lt_le_dec j 7) as [Hlt|Hge].
    + exfalso. assert (2 ^ j <= 2 ^ 6) by (apply Z.pow_le_mono_r; lia). lia.
    + destruct (decide (j = 7)) as [|Hne]; [done|]. exfalso.
      assert (2 ^ 7 <= 2 ^ (j - 1)) by (apply Z.pow_le_mono_r; lia). lia.
Defined.
