(* ===== verification/Conc.v ===== *)
(** * Threads over a shared state

    The locks, semaphores, groups and once-gates of libdispatch are short
    programs whose steps are atomic operations on one memory word and system
    calls.  A component gives the shared state, the local state of a thread
    and [next i s l]: the outcomes of the next atomic step of thread [i] at
    local state [l] when the shared state is [s].  The list is empty when the
    thread is blocked or finished, has several elements where the kernel may
    choose, and holds a [Crash] where the code stops the process.  A run of
    the program interleaves the steps of its threads in any order.

    The second part is [os_atomic_rmw_loop] (src/shims/atomic.h): the loop
    has the effect of its body applied once, to the value the word holds when
    the loop ends, so that a component may take it as one step. *)

From stdpp Require Export relations.
From S2P Require Import Prelude.


(** ** Configurations and runs *)

Section conc.
  Context {Sh Loc : Type}.

Record conf := Conf { c_sh : Sh; c_thr : list Loc }.

  Context (next : nat -> Sh -> Loc -> list (res (Sh * Loc))).

(** One step of one thread. *)
Inductive step : relation conf :=
  | step_thread i s ls l s' l' :
      ls !! i = Some l ->
      Ok (s', l') ∈ next i s l ->
      step (Conf s ls) (Conf s' (<[i := l']> ls)).

(** Some thread is about to stop the process. *)
Definition may_crash (c : conf) : Prop :=
  exists i l w, c_thr c !! i = Some l /\ Crash w ∈ next i (c_sh c) l.

(** A schedule names the thread that moves and which of its outcomes is
    taken; [exec] runs it. *)
Fixpoint exec (sched : list (nat * nat)) (c : conf) : option conf :=
  match sched with
  | [] => Some c
  | (i, k) :: sched =>
      match c_thr c !! i with
      | Some l =>
          match next i (c_sh c) l !! k with
          | Some (Ok (s', l')) => exec sched (Conf s' (<[i := l']> (c_thr c)))
          | _ => None
          end
      | None => None
      end
  end.

Lemma exec_rtc sched c c' : exec sched c = Some c' -> rtc step c c'.
Proof.
  revert c. induction sched as [|[i k] sched IH]; intros c; simpl.
  - intros [= ->]. apply rtc_refl.
  - destruct c as [s ls]; simpl.
    destruct (ls !! i) as [l|] eqn:Hl; [|done].
    destruct (next i s l !! k) as [[[s' l']|]|] eqn:Hn; try done.
    intros Hrun. eapply rtc_l; [|apply IH, Hrun].
    econstructor; [exact Hl|]. by eapply list_elem_of_lookup_2.
Qed.

(** What every step preserves holds in every reachable configuration. *)
Lemma inv_rtc (I : conf -> Prop) c c' :
  (forall c1 c2, I c1 -> step c1 c2 -> I c2) ->
  rtc step c c' -> I c -> I c'.
Proof. intros Hpres. induction 1; eauto. Qed.

(** A measure that every step from a good configuration decreases bounds the
    length of the runs. *)
Lemma sn_measure (I : conf -> Prop) (m : conf -> nat) c :
  (forall c1 c2, I c1 -> step c1 c2 -> I c2 /\ (m c2 < m c1)%nat) ->
  I c -> sn step c.
Proof.
  intros Hdec. remember (m c) as k eqn:Hk.
  revert c Hk. induction (lt_wf k) as [k _ IH]. intros c -> HI.
  constructor. intros c2 Hs. destruct (Hdec _ _ HI Hs) as [HI2 Hlt].
  by eapply (IH (m c2)).
Qed.

(** In a configuration that cannot move no thread has a next step. *)
Lemma nf_next s ls i l s' l' :
  nf step (Conf s ls) -> ls !! i = Some l -> ~ Ok (s', l') ∈ next i s l.
Proof. intros Hnf Hl Hn. apply Hnf. eexists. by econstructor. Qed.

(** The threads after a step of thread [i]. *)
Lemma lookup_moved (ls : list Loc) i l l' j x :
  ls !! i = Some l -> <[i := l']> ls !! j = Some x -> j = i /\ x = l' \/ j <> i /\ ls !! j = Some x.
Proof.
  intros Hl. destruct (decide (j = i)) as [->|Hne].
  - rewrite list_lookup_insert_eq by (by eapply lookup_lt_Some). intros [= <-]. auto.
  - rewrite list_lookup_insert_ne by done. auto.
Qed.

Lemma step_length c c' : step c c' -> length (c_thr c') = length (c_thr c).
Proof. destruct 1; simpl. apply length_insert. Qed.

End conc.
Arguments conf Sh Loc : clear implicits.

(** ** Sums over threads *)

Section isum.
  Context {Loc : Type}.
  Implicit Types (f g : nat -> Loc -> nat) (ls : list Loc).

(** The sum of [f i l] over the threads, the index counted from [k]. *)
Fixpoint isum_from f (k : nat) ls : nat :=
  match ls with
  | [] => 0
  | l :: ls => f k l + isum_from f (S k) ls
  end.
Definition isum f ls : nat := isum_from f 0 ls.

(** One thread moves, and what the others count for does not change. *)
Lemma isum_from_update f g k ls i l l' :
  ls !! i = Some l ->
  (forall j x, j <> i -> ls !! j = Some x -> g (k + j)%nat x = f (k + j)%nat x) ->
  (isum_from g k (<[i := l']> ls) + f (k + i) l = isum_from f k ls + g (k + i) l')%nat.
Proof.
  revert k i. induction ls as [|x ls IH]; intros k [|i] Hi Hfg; simplify_eq/=.
  - rewrite Nat.add_0_r. enough (isum_from g (S k) ls = isum_from f (S k) ls) by lia.
    clear IH. cut (forall j x, ls !! j = Some x -> g (S k + j)%nat x = f (S k + j)%nat x).
    + clear Hfg. generalize (S k) as m. induction ls as [|y ls IH]; intros m Hfg; simpl; [done|].
      pose proof (Hfg 0%nat y eq_refl) as H0. rewrite Nat.add_0_r in H0. rewrite H0. f_equal. apply IH.
      intros j z Hz. specialize (Hfg (S j) z Hz). by rewrite Nat.add_succ_comm.
    + intros j y Hy. specialize (Hfg (S j) y ltac:(done) Hy). by rewrite Nat.add_succ_comm.
  - pose proof (Hfg 0%nat x ltac:(done) eq_refl) as H0. rewrite Nat.add_0_r in H0.
    assert (forall j y, j <> i -> ls !! j = Some y -> g (S k + j)%nat y = f (S k + j)%nat y) as Hfg'.
    { intros j y Hj Hy. specialize (Hfg (S j) y ltac:(congruence) Hy). by rewrite Nat.add_succ_comm. }
    specialize (IH (S k) i Hi Hfg'). rewrite Nat.add_succ_comm in IH. lia.
Qed.

Lemma isum_update f g ls i l l' :
  ls !! i = Some l ->
  (forall j x, j <> i -> ls !! j = Some x -> g j x = f j x) ->
  (isum g (<[i := l']> ls) + f i l = isum f ls + g i l')%nat.
Proof. apply (isum_from_update f g 0). Qed.

Lemma isum_insert f ls i l l' :
  ls !! i = Some l ->
  (isum f (<[i := l']> ls) + f i l = isum f ls + f i l')%nat.
Proof. intros Hl. by apply isum_update. Qed.

Lemma isum_from_le f g k ls :
  (forall i l, ls !! i = Some l -> (f (k + i) l <= g (k + i) l)%nat) ->
  (isum_from f k ls <= isum_from g k ls)%nat.
Proof.
  revert k. induction ls as [|x ls IH]; intros k Hle; simpl; [done|].
  assert (f k x <= g k x)%nat by (specialize (Hle 0%nat x eq_refl); by rewrite Nat.add_0_r in Hle).
  assert (isum_from f (S k) ls <= isum_from g (S k) ls)%nat; [|lia].
  apply IH. intros i l Hi. specialize (Hle (S i) l Hi).
  by rewrite Nat.add_succ_comm.
Qed.

Lemma isum_le f g ls :
  (forall i l, ls !! i = Some l -> (f i l <= g i l)%nat) -> (isum f ls <= isum g ls)%nat.
Proof. apply (isum_from_le f g 0). Qed.

Lemma isum_ext f g ls :
  (forall i l, ls !! i = Some l -> f i l = g i l) -> isum f ls = isum g ls.
Proof.
  intros He. apply Nat.le_antisymm; apply isum_le; intros i l Hi; by rewrite (He i l Hi).
Qed.

Lemma isum_const c ls : isum (fun _ _ => c) ls = (c * length ls)%nat.
Proof.
  unfold isum. generalize 0%nat. induction ls as [|x ls IH]; intros k; simpl; [lia|].
  rewrite IH. lia.
Qed.

Lemma isum_bound f c ls :
  (forall i l, ls !! i = Some l -> (f i l <= c)%nat) -> (isum f ls <= c * length ls)%nat.
Proof. intros Hb. rewrite <- isum_const. by apply isum_le. Qed.

Lemma isum_from_lookup f k ls i l : ls !! i = Some l -> (f (k + i) l <= isum_from f k ls)%nat.
Proof.
  revert k i. induction ls as [|x ls IH]; intros k [|i] Hi; simplify_eq/=.
  - rewrite Nat.add_0_r. lia.
  - specialize (IH (S k) i Hi). rewrite Nat.add_succ_comm in IH. lia.
Qed.

Lemma isum_lookup f ls i l : ls !! i = Some l -> (f i l <= isum f ls)%nat.
Proof. apply (isum_from_lookup f 0). Qed.

Lemma isum_zero f ls :
  isum f ls = 0%nat <-> (forall i l, ls !! i = Some l -> f i l = 0%nat).
Proof.
  split.
  - intros H0 i l Hi. pose proof (isum_lookup f ls i l Hi). lia.
  - intros Hz. rewrite (isum_ext f (fun _ _ => 0%nat)) by done. rewrite isum_const. lia.
Qed.

Lemma isum_plus f g ls : isum (fun i l => f i l + g i l)%nat ls = (isum f ls + isum g ls)%nat.
Proof.
  unfold isum. generalize 0%nat. induction ls as [|x ls IH]; intros k; simpl; [done|].
  rewrite IH. lia.
Qed.

(** Distinct threads each add their share to the sum. *)
Lemma isum_NoDup f ls q :
  NoDup q ->
  (forall i, i ∈ q -> exists l, ls !! i = Some l /\ (1 <= f i l)%nat) ->
  (length q <= isum f ls)%nat.
Proof.
  revert f. induction q as [|a q IH]; intros f; simpl; [lia|].
  rewrite NoDup_cons. intros [Ha Hq] Hin.
  destruct (Hin a) as (la & Hla & Hfa); [by left|].
  set (f1 := fun i l => if decide (i = a) then 0%nat else f i l).
  set (f2 := fun i l => if decide (i = a) then f i l else 0%nat).
  assert (isum f ls = (isum f1 ls + isum f2 ls)%nat) as ->.
  { rewrite <- isum_plus. apply isum_ext. intros i l _. unfold f1, f2. case_decide; lia. }
  assert (length q <= isum f1 ls)%nat.
  { apply IH; [done|]. intros i Hi. destruct (Hin i) as (l & Hl & Hf); [by right|].
    exists l. unfold f1. rewrite decide_False by (intros ->; done). done. }
  pose proof (isum_lookup f2 ls a la Hla) as H2. unfold f2 at 1 in H2.
  rewrite decide_True in H2 by done. lia.
Qed.

Lemma isum_from_single (a k : nat) ls :
  (isum_from (fun i _ => if decide (i = a) then 1 else 0) k ls <= if decide (k <= a) then 1 else 0)%nat.
Proof.
  revert k. induction ls as [|x ls IH]; intros k; simpl; [case_decide; lia|].
  specialize (IH (S k)). repeat case_decide; lia.
Qed.

(** A sum of ones over threads that are all in [q]. *)
Lemma isum_le_length f ls q :
  (forall i l, ls !! i = Some l -> (f i l <= if decide (i ∈ q) then 1 else 0)%nat) ->
  (isum f ls <= length q)%nat.
Proof.
  intros Hf. etrans; [exact (isum_le _ _ _ Hf)|]. clear Hf f.
  induction q as [|a q IH]; simpl.
  - by rewrite (proj2 (isum_zero _ ls)).
  - etrans; [apply (isum_le _ (fun i _ => (if decide (i = a) then 1 else 0) +
                                         (if decide (i ∈ q) then 1 else 0))%nat)|].
    + intros i l _. repeat case_decide; set_solver || lia.
    + rewrite isum_plus. pose proof (isum_from_single a 0 ls). unfold isum at 1.
      rewrite decide_True in H by lia. lia.
Qed.

End isum.

(** The number of threads with a property, or a sum that does not depend on
    the thread's index. *)
Abbreviation tsum f := (isum (fun _ => f)).

(** The threads of a list built from the programs. *)
Lemma isum_fmap {A Loc} (g : A -> Loc) (f : nat -> Loc -> nat) xs :
  isum f (g <$> xs) = isum (fun i x => f i (g x)) xs.
Proof.
  unfold isum. generalize 0%nat. induction xs as [|x xs IH]; intros k; csimpl; [done|].
  by rewrite IH.
Qed.

(** ** Counting in lists *)

Definition countb {A} (p : A -> bool) (xs : list A) : nat := length (filter (fun x => p x = true) xs).

Lemma countb_cons {A} (p : A -> bool) x xs :
  countb p (x :: xs) = ((if p x then 1 else 0) + countb p xs)%nat.
Proof. unfold countb. rewrite filter_cons. destruct (p x); simpl; done. Qed.

Lemma countb_app {A} (p : A -> bool) xs ys : countb p (xs ++ ys) = (countb p xs + countb p ys)%nat.
Proof. unfold countb. by rewrite filter_app, length_app. Qed.

Lemma countb_nil {A} (p : A -> bool) : countb p [] = 0%nat.
Proof. done. Qed.

(** ** Wait queues of the kernel *)

(** A thread leaves the wait queue. *)
Definition leave (i : nat) (q : list nat) : list nat := filter (fun j => j <> i) q.

Lemma elem_leave i j q : j ∈ leave i q <-> j ∈ q /\ j <> i.
Proof. unfold leave. rewrite list_elem_of_filter. tauto. Qed.

Lemma leave_NoDup i q : NoDup q -> NoDup (leave i q).
Proof. apply NoDup_filter. Qed.

Lemma leave_notin i q : ~ i ∈ q -> leave i q = q.
Proof.
  unfold leave. induction q as [|j q IH]; [done|]. rewrite not_elem_of_cons.
  intros [Hj Hq]. rewrite filter_cons_True by done. by rewrite IH.
Qed.

Lemma leave_length i q : NoDup q -> i ∈ q -> S (length (leave i q)) = length q.
Proof.
  induction q as [|j q IH]; [by rewrite elem_of_nil|].
  rewrite NoDup_cons, elem_of_cons. intros [Hj Hq] [->|Hi]; unfold leave; simpl.
  - rewrite filter_cons_False by tauto. fold (leave j q). by rewrite leave_notin.
  - destruct (decide (j = i)) as [->|Hne]; [done|].
    rewrite filter_cons_True by done. simpl. fold (leave i q). by rewrite IH.
Qed.

(** ** Compare-and-swap loops

    [os_atomic_rmw_loop(p, ov, nv, m, body)] loads the word, runs the body,
    which computes the new value or gives up, and tries to swap; when the
    word has changed in between (or the weak swap fails for no reason) it
    starts again from the value the swap has read. *)

Inductive rmw_out (R : Type) : Type :=
  | Swap (nv : Z) (r : R)
  | GiveUp (r : R).
Arguments Swap {R} nv r.
Arguments GiveUp {R} r.

(** What the rest of the system does to the word between the body and the
    swap: the value it leaves there, and whether a weak swap that could
    succeed does. *)
Record interference := { seen : Z; swaps : bool }.

(** [rmw_loop body mem ov env] runs the loop from the loaded value [ov] of
    a word that holds [mem]; it ends with the word's new value, the value
    it started from and the result. *)
Fixpoint rmw_loop {R} (body : Z -> rmw_out R) (mem ov : Z) (env : list interference) :
    option (Z * Z * R) :=
  match body ov with
  | GiveUp r => Some (mem, ov, r)
  | Swap nv r =>
      match env with
      | [] => None
      | e :: env =>
          if bool_decide (seen e = ov) && swaps e then Some (nv, ov, r)
          else rmw_loop body (seen e) (seen e) env
      end
  end.

(** The loop as one atomic step on the word. *)
Definition rmw_atomic {R} (body : Z -> rmw_out R) (mem : Z) : Z * Z * R :=
  match body mem with
  | GiveUp r => (mem, mem, r)
  | Swap nv r => (nv, mem, r)
  end.

(** When the loop ends it has done its body in one atomic step on a value
    that the word held at that time: the value just loaded, or the value the
    other threads had left there. *)
Lemma rmw_loop_atomic {R} (body : Z -> rmw_out R) mem env out :
  rmw_loop body mem mem env = Some out ->
  exists v, (v = mem \/ v ∈ (seen <$> env)) /\ out = rmw_atomic body v.
Proof.
  revert mem. induction env as [|e env IH]; intros mem; simpl; unfold rmw_atomic.
  - destruct (body mem) as [nv r|r] eqn:Hb; [done|]. intros [= <-].
    exists mem. rewrite Hb. by split; [left|].
  - destruct (body mem) as [nv r|r] eqn:Hb.
    + case_bool_decide as Hs; [destruct (swaps e)|]; simpl.
      1: { intros [= <-]. exists mem. rewrite Hb. by split; [left|]. }
      all: intros Hrun; destruct (IH _ Hrun) as (v & Hv & ->); exists v; split; [|done];
        right; rewrite elem_of_cons; destruct Hv; auto.
    + intros [= <-]. exists mem. rewrite Hb. by split; [left|].
Qed.

(** The loop ends as soon as the word is left alone for one round, whatever
    happened before. *)
Lemma rmw_loop_ends {R} (body : Z -> rmw_out R) mem ov env v :
  is_Some (rmw_loop body mem ov (env ++ [ {| seen := v; swaps := false |};
                                          {| seen := v; swaps := true |} ])).
Proof.
  revert mem ov. induction env as [|e env IH]; intros mem ov; simpl.
  - destruct (body ov); [|done].
    rewrite andb_false_r. destruct (body v); [|done].
    by rewrite bool_decide_true.
  - destruct (body ov); [|done]. case_match; [done|apply IH].
Qed.
