(* ===== verification/Semaphore.v ===== *)
(** * Counting semaphores

    [dispatch_semaphore_t] of libdispatch (src/semaphore.c) over the Mach
    semaphores of xnu (osfmk/kern/sync_sema.c).  The count of a dispatch
    semaphore is an ordinary memory word; a thread that finds no permit
    there falls back to a kernel semaphore, which is created the first time
    it is needed.

    The thread of control of each function is cut at its atomic operations
    and system calls.  A time-out fires at any time after the call, also at
    once; a signal handler interrupts a sleeping thread as long as the
    budget [aborts] lasts. *)

From S2P Require Import Conc Prelude.


(** ** Mach semaphores *)

Module MachSema.

(** [count] is negative when threads may be waiting: it is not their number. *)
Record semaphore := { count : Z; waitq : list nat }.

Inductive kern_return :=
  | KERN_SUCCESS
  | KERN_OPERATION_TIMED_OUT
  | KERN_ALREADY_WAITING
  | KERN_NOT_WAITING.

Definition semaphore_create (value : Z) : semaphore := {| count := value; waitq := [] |}.

(** [semaphore_wait_internal] without a semaphore to signal;
    [KERN_ALREADY_WAITING] means that the thread is now asleep. *)
Definition semaphore_wait_internal (self : nat) (noblock : bool) (s : semaphore) :
    semaphore * kern_return :=
  if count s >? 0 then ({| count := count s - 1; waitq := waitq s |}, KERN_SUCCESS)
  else if noblock then (s, KERN_OPERATION_TIMED_OUT)
  else ({| count := -1; waitq := waitq s ++ [self] |}, KERN_ALREADY_WAITING).

(** [semaphore_signal_internal] with [SEMAPHORE_SIGNAL_PREPOST]: one outcome
    per thread the wait queue may choose to wake. *)
Definition semaphore_signal_internal (s : semaphore) : list (semaphore * kern_return) :=
  if (count s <? 0) && bool_decide (waitq s <> [])
  then (fun w => ({| count := count s; waitq := leave w (waitq s) |}, KERN_SUCCESS)) <$> waitq s
  else
    let c := if count s <? 0 then 0 else count s in
    [({| count := c + 1; waitq := waitq s |}, KERN_NOT_WAITING)].

(** What the kernel keeps true: with threads in the queue there is no count
    to hand out. *)
Definition sema_ok (s : semaphore) : Prop :=
  NoDup (waitq s) /\ -1 <= count s /\ (waitq s <> [] -> count s < 0).

End MachSema.

(** ** Dispatch semaphores *)

Module DSema.
Import MachSema.

Definition LONG_MIN : Z := - 2 ^ 63.
Definition LONG_MAX : Z := 2 ^ 63 - 1.
Definition DISPATCH_TIME_NOW : Z := 0.
Definition DISPATCH_TIME_FOREVER : Z := 2 ^ 64 - 1.
(** [_DSEMA4_TIMEOUT()], the value of [KERN_OPERATION_TIMED_OUT]. *)
Definition DSEMA4_TIMEOUT : Z := 49.

(** [struct dispatch_semaphore_s]; [None] is [MACH_PORT_NULL]. *)
Record dispatch_semaphore_s := {
  dsema_value : Z;
  dsema_orig : Z;
  dsema_sema : option semaphore
}.

(** [dispatch_semaphore_create]; [None] is [DISPATCH_BAD_INPUT]. *)
Definition dispatch_semaphore_create (value : Z) : option dispatch_semaphore_s :=
  if value <? 0 then None
  else Some {| dsema_value := value; dsema_orig := value; dsema_sema := None |}.

(** [_dispatch_semaphore_dispose]: the kernel semaphore that
    [_dispatch_sema4_dispose] gives back, if one was created. *)
Definition dispatch_semaphore_dispose (d : dispatch_semaphore_s) : res (option semaphore) :=
  if dsema_value d <? dsema_orig d then Crash AssertFail else Ok (dsema_sema d).

(** The shared state: the semaphore, and how many interruptions of sleeping
    threads are still to come. *)
Record shared := { dsema : dispatch_semaphore_s; aborts : nat }.

Definition set_value (v : Z) (s : shared) : shared :=
  {| dsema := {| dsema_value := v; dsema_orig := dsema_orig (dsema s);
                 dsema_sema := dsema_sema (dsema s) |};
     aborts := aborts s |}.

Definition set_sema (k : semaphore) (s : shared) : shared :=
  {| dsema := {| dsema_value := dsema_value (dsema s); dsema_orig := dsema_orig (dsema s);
                 dsema_sema := Some k |};
     aborts := aborts s |}.

(** The calls of the client, and what they returned. *)
Inductive call :=
  | Wait (timeout : Z)
  | Signal.
Inductive event :=
  | Waited (r : Z)
  | Signaled (r : Z).

(** Where a thread is. *)
Inductive pc :=
  | Idle
  | WaitSlow (timeout : Z)     (* entry of _dispatch_semaphore_wait_slow *)
  | TimedWait                  (* entry of _dispatch_sema4_timedwait *)
  | TimedSleep                 (* asleep in semaphore_timedwait *)
  | LoadValue                  (* orig = dsema->dsema_value *)
  | Undo (orig : Z)            (* while (orig < 0) cmpxchg *)
  | KWait                      (* entry of _dispatch_sema4_wait *)
  | KSleep                     (* asleep in semaphore_wait *)
  | SignalSlow                 (* entry of _dispatch_semaphore_signal_slow *)
  | SignalPost.                (* entry of _dispatch_sema4_signal *)

Record thread := { t_pc : pc; todo : list call; log : list event }.

(** The outcome of a piece of code: it goes on elsewhere or returns. *)
Inductive ctl :=
  | Goto (p : pc)
  | Return (e : event).

(** [dispatch_semaphore_signal]. *)
Definition dispatch_semaphore_signal (s : shared) : res (shared * ctl) :=
  let value := s64 (dsema_value (dsema s) + 1) in
  let s := set_value value s in
  if value >? 0 then Ok (s, Return (Signaled 0))
  else if value =? LONG_MIN then Crash AssertFail
  else Ok (s, Goto SignalSlow).

(** [_dispatch_sema4_create]: of the threads that race to create the kernel
    semaphore one stores it, and the others throw theirs away. *)
Definition dispatch_sema4_create (s : shared) : shared :=
  match dsema_sema (dsema s) with
  | None => set_sema (semaphore_create 0) s
  | Some _ => s
  end.

(** [_dispatch_sema4_signal] with a count of 1, and the [return 1] of
    [_dispatch_semaphore_signal_slow]. *)
Definition dispatch_sema4_signal (s : shared) : list (res (shared * ctl)) :=
  match dsema_sema (dsema s) with
  | None => [Crash AssertFail]
  | Some k => (fun '(k', _) => Ok (set_sema k' s, Return (Signaled 1))) <$> semaphore_signal_internal k
  end.

(** [dispatch_semaphore_wait]. *)
Definition dispatch_semaphore_wait (timeout : Z) (s : shared) : shared * ctl :=
  let value := s64 (dsema_value (dsema s) - 1) in
  let s := set_value value s in
  if value >=? 0 then (s, Return (Waited 0)) else (s, Goto (WaitSlow timeout)).

(** The [switch] of [_dispatch_semaphore_wait_slow], after the kernel
    semaphore has been created. *)
Definition wait_slow_switch (timeout : Z) : pc :=
  if timeout =? DISPATCH_TIME_NOW then LoadValue
  else if timeout =? DISPATCH_TIME_FOREVER then KWait
  else TimedWait.

(** The head of the undo loop: [while (orig < 0)], else the fall through to
    [_dispatch_sema4_wait]. *)
Definition undo_head (orig : Z) : pc := if orig <? 0 then Undo orig else KWait.

(** One round of the undo loop of [_dispatch_semaphore_wait_slow]. *)
Definition wait_slow_undo (orig : Z) (s : shared) : shared * ctl :=
  let v := dsema_value (dsema s) in
  if v =? orig then (set_value (orig + 1) s, Return (Waited DSEMA4_TIMEOUT))
  else (s, Goto (undo_head v)).

(** [_dispatch_sema4_wait] calls [semaphore_wait]. *)
Definition dispatch_sema4_wait (i : nat) (s : shared) : res (shared * ctl) :=
  match dsema_sema (dsema s) with
  | None => Crash AssertFail
  | Some k =>
      match semaphore_wait_internal i false k with
      | (k', KERN_SUCCESS) => Ok (set_sema k' s, Return (Waited 0))
      | (k', _) => Ok (set_sema k' s, Goto KSleep)
      end
  end.

(** [_dispatch_sema4_timedwait] calls [semaphore_timedwait]; [noblock] when
    the time is up already. *)
Definition dispatch_sema4_timedwait (i : nat) (noblock : bool) (s : shared) : res (shared * ctl) :=
  match dsema_sema (dsema s) with
  | None => Crash AssertFail
  | Some k =>
      match semaphore_wait_internal i noblock k with
      | (k', KERN_SUCCESS) => Ok (set_sema k' s, Return (Waited 0))
      | (k', KERN_OPERATION_TIMED_OUT) => Ok (set_sema k' s, Goto LoadValue)
      | (k', _) => Ok (set_sema k' s, Goto TimedSleep)
      end
  end.

(** A sleeping thread: woken by a signal it returns with success; as long as
    it is in the queue it can be interrupted, and then waits again ([retry]),
    and with a time-out it can leave the queue when the time is up. *)
Definition asleep (i : nat) (retry : pc) (timed : bool) (s : shared) : list (res (shared * ctl)) :=
  match dsema_sema (dsema s) with
  | None => [Crash AssertFail]
  | Some k =>
      if bool_decide (i ∈ waitq k) then
        let out := {| count := count k; waitq := leave i (waitq k) |} in
        (if timed then [Ok (set_sema out s, Goto LoadValue)] else []) ++
        match aborts s with
        | O => []
        | S n => [Ok ({| dsema := dsema (set_sema out s); aborts := n |}, Goto retry)]
        end
      else [Ok (s, Return (Waited 0))]
  end.

(** The next step of a piece of code at [p]. *)
Definition pc_next (i : nat) (s : shared) (p : pc) : list (res (shared * ctl)) :=
  match p with
  | Idle => []
  | WaitSlow t => [Ok (dispatch_sema4_create s, Goto (wait_slow_switch t))]
  | TimedWait => [dispatch_sema4_timedwait i false s; dispatch_sema4_timedwait i true s]
  | TimedSleep => asleep i TimedWait true s
  | LoadValue => [Ok (s, Goto (undo_head (dsema_value (dsema s))))]
  | Undo orig => [Ok (wait_slow_undo orig s)]
  | KWait => [dispatch_sema4_wait i s]
  | KSleep => asleep i KWait false s
  | SignalSlow => [Ok (dispatch_sema4_create s, Goto SignalPost)]
  | SignalPost => dispatch_sema4_signal s
  end.

Definition continue (l : thread) (r : res (shared * ctl)) : res (shared * thread) :=
  let! (s, c) := r in
  match c with
  | Goto p => Ok (s, {| t_pc := p; todo := todo l; log := log l |})
  | Return e => Ok (s, {| t_pc := Idle; todo := todo l; log := log l ++ [e] |})
  end.

(** The next step of a thread: the next call of its program when it is idle. *)
Definition next (i : nat) (s : shared) (l : thread) : list (res (shared * thread)) :=
  match t_pc l with
  | Idle =>
      match todo l with
      | [] => []
      | c :: cs =>
          let r := match c with
                   | Wait t => Ok (dispatch_semaphore_wait t s)
                   | Signal => dispatch_semaphore_signal s
                   end in
          [continue {| t_pc := Idle; todo := cs; log := log l |} r]
      end
  | p => continue l <$> pc_next i s p
  end.

(** Threads that run the given programs on a fresh semaphore. *)
Definition start (d : dispatch_semaphore_s) (n : nat) (progs : list (list call)) : conf shared thread :=
  Conf {| dsema := d; aborts := n |}
       ((fun cs => {| t_pc := Idle; todo := cs; log := [] |}) <$> progs).

End DSema.
