(* ===== verification/SemaphoreInv.v ===== *)
(** * The invariant of dispatch semaphores

    Permits are neither lost nor made up: the value of the semaphore, the
    posts under way and the count of the kernel semaphore add up with the
    waits that have succeeded and those that are in their slow path. *)

From S2P Require Import Conc Semaphore Prelude.

Import MachSema DSema.

#[export] Instance pc_eq_dec : EqDecision pc.
Proof. solve_decision. Defined.

#[export] Instance event_eq_dec : EqDecision event.
Proof. solve_decision. Defined.

(** ** Counting *)

(** In the slow path of [dispatch_semaphore_wait]. *)
Definition slow (l : thread) : nat :=
  match t_pc l with
  | WaitSlow _ | TimedWait | TimedSleep | LoadValue | Undo _ | KWait | KSleep => 1
  | _ => 0
  end.

(** In the kernel, asleep or on the way out. *)
Definition sleeping (l : thread) : nat :=
  match t_pc l with TimedSleep | KSleep => 1 | _ => 0 end.

(** About to post the kernel semaphore. *)
Definition posting (l : thread) : nat :=
  match t_pc l with SignalSlow | SignalPost => 1 | _ => 0 end.

Definition is_got (e : event) : bool := bool_decide (e = Waited 0).
Definition is_sent (e : event) : bool := match e with Signaled _ => true | _ => false end.
Definition is_signal (c : call) : bool := match c with Signal => true | _ => false end.

(** Waits that returned 0, signals that have taken effect, signals to come. *)
Definition got (l : thread) : nat := countb is_got (log l).
Definition sent (l : thread) : nat := countb is_sent (log l) + posting l.
Definition to_send (l : thread) : nat := countb is_signal (todo l).

Lemma is_got_0 : is_got (Waited 0) = true.
Proof. done. Qed.
Lemma is_got_timeout : is_got (Waited DSEMA4_TIMEOUT) = false.
Proof. done. Qed.
Lemma is_got_signaled r : is_got (Signaled r) = false.
Proof. done. Qed.

(** The kernel semaphore, as if it had been created already. *)
Definition kernel (s : shared) : semaphore := default (semaphore_create 0) (dsema_sema (dsema s)).

(** Where the code uses the kernel semaphore. *)
Definition uses_sema (p : pc) : bool :=
  match p with
  | TimedWait | TimedSleep | LoadValue | Undo _ | KWait | KSleep | SignalPost => true
  | _ => false
  end.

Abbreviation zsum f ls := (Z.of_nat (tsum f ls)).

Record Inv (s : shared) (ls : list thread) : Prop := {
  inv_value : dsema_value (dsema s) =
    dsema_orig (dsema s) + zsum sent ls - zsum got ls - zsum slow ls;
  inv_slow : zsum slow ls =
    Z.max 0 (count (kernel s)) + zsum sleeping ls - Z.of_nat (length (waitq (kernel s)))
    + zsum posting ls + Z.max 0 (- dsema_value (dsema s));
  inv_sema : sema_ok (kernel s);
  inv_queue : forall i, i ∈ waitq (kernel s) -> exists l, ls !! i = Some l /\ (1 <= sleeping l)%nat;
  inv_created : forall i l, ls !! i = Some l -> uses_sema (t_pc l) = true -> is_Some (dsema_sema (dsema s));
  inv_undo : forall i l orig, ls !! i = Some l -> t_pc l = Undo orig -> orig < 0;
  inv_orig : 0 <= dsema_orig (dsema s);
  inv_long : dsema_orig (dsema s) + zsum sent ls + zsum to_send ls <= LONG_MAX;
  inv_threads : Z.of_nat (length ls) < 2 ^ 62
}.

Definition InvC (c : conf shared thread) : Prop := Inv (c_sh c) (c_thr c).

(** ** Consequences *)

Section consequences.
  Context (s : shared) (ls : list thread) (I : Inv s ls).

Lemma inv_asleep : (length (waitq (kernel s)) <= tsum sleeping ls)%nat.
Proof. apply isum_NoDup; [apply (inv_sema _ _ I)|]. apply (inv_queue _ _ I). Qed.

Lemma inv_slow_len : (tsum slow ls <= length ls)%nat.
Proof.
  rewrite <- (Nat.mul_1_l (length ls)). apply isum_bound.
  intros i l _. unfold slow. case_match; lia.
Qed.

Lemma inv_neg : - zsum slow ls <= dsema_value (dsema s).
Proof. pose proof (inv_slow _ _ I). pose proof inv_asleep. lia. Qed.

Lemma inv_range : - 2 ^ 62 < dsema_value (dsema s) /\
  dsema_value (dsema s) + zsum to_send ls <= LONG_MAX.
Proof.
  pose proof inv_neg. pose proof inv_slow_len. pose proof (inv_threads _ _ I).
  pose proof (inv_value _ _ I). pose proof (inv_long _ _ I). lia.
Qed.

(** No wait succeeds without a permit. *)
Lemma inv_permits : zsum got ls <= dsema_orig (dsema s) + zsum sent ls.
Proof. pose proof (inv_value _ _ I). pose proof inv_neg. lia. Qed.

End consequences.

(** ** Preservation

    What one step of thread [i], from [l] to [l'], may do to the shared
    state: it moves permits between the places the invariant counts. *)

Record moves (i : nat) (s : shared) (l : thread) (s' : shared) (l' : thread) : Prop := {
  mv_orig : dsema_orig (dsema s') = dsema_orig (dsema s);
  mv_value : dsema_value (dsema s') - dsema_value (dsema s) =
    (Z.of_nat (sent l') - Z.of_nat (sent l)) - (Z.of_nat (got l') - Z.of_nat (got l))
    - (Z.of_nat (slow l') - Z.of_nat (slow l));
  mv_slow : Z.of_nat (slow l') - Z.of_nat (slow l) =
    (Z.max 0 (count (kernel s')) - Z.max 0 (count (kernel s)))
    + (Z.of_nat (sleeping l') - Z.of_nat (sleeping l))
    - (Z.of_nat (length (waitq (kernel s'))) - Z.of_nat (length (waitq (kernel s))))
    + (Z.of_nat (posting l') - Z.of_nat (posting l))
    + (Z.max 0 (- dsema_value (dsema s')) - Z.max 0 (- dsema_value (dsema s)));
  mv_sema : sema_ok (kernel s');
  mv_queue : forall j, j ∈ waitq (kernel s') -> j <> i -> j ∈ waitq (kernel s);
  mv_self : i ∈ waitq (kernel s') -> (1 <= sleeping l')%nat;
  mv_created : is_Some (dsema_sema (dsema s)) -> is_Some (dsema_sema (dsema s'));
  mv_uses : uses_sema (t_pc l') = true -> is_Some (dsema_sema (dsema s'));
  mv_undo : forall orig, t_pc l' = Undo orig -> orig < 0;
  mv_long : (sent l' + to_send l' <= sent l + to_send l)%nat;
  mv_event : (got l <= got l' /\ sent l <= sent l' /\ sent l' + got l' <= S (sent l + got l))%nat
}.

Lemma moves_inv i s ls l s' l' :
  Inv s ls -> ls !! i = Some l -> moves i s l s' l' -> Inv s' (<[i := l']> ls).
Proof.
  intros I Hl M.
  pose proof (isum_insert (fun _ => sent) ls i l l' Hl).
  pose proof (isum_insert (fun _ => got) ls i l l' Hl).
  pose proof (isum_insert (fun _ => slow) ls i l l' Hl).
  pose proof (isum_insert (fun _ => sleeping) ls i l l' Hl).
  pose proof (isum_insert (fun _ => posting) ls i l l' Hl).
  pose proof (isum_insert (fun _ => to_send) ls i l l' Hl).
  destruct I as [I1 I2 I3 I4 I5 I6 I7 I8 I9], M as [M1 M2 M3 M4 M5 M6 M7 M8 M9 M10 _].
  split.
  - rewrite M1. lia.
  - lia.
  - done.
  - intros j Hj. destruct (decide (j = i)) as [->|Hne].
    + exists l'. rewrite list_lookup_insert_eq by (by eapply lookup_lt_Some). auto.
    + rewrite list_lookup_insert_ne by done. auto.
  - intros j x Hx Hu. destruct (decide (j = i)) as [->|Hne].
    + rewrite list_lookup_insert_eq in Hx by (by eapply lookup_lt_Some). simplify_eq. auto.
    + rewrite list_lookup_insert_ne in Hx by done. eauto.
  - intros j x o Hx Hu. destruct (decide (j = i)) as [->|Hne].
    + rewrite list_lookup_insert_eq in Hx by (by eapply lookup_lt_Some). simplify_eq. eauto.
    + rewrite list_lookup_insert_ne in Hx by done. eauto.
  - by rewrite M1.
  - rewrite M1. lia.
  - by rewrite length_insert.
Qed.

(** The thread after a piece of code. *)
Definition go (l : thread) (c : ctl) : thread :=
  match c with
  | Goto p => {| t_pc := p; todo := todo l; log := log l |}
  | Return e => {| t_pc := Idle; todo := todo l; log := log l ++ [e] |}
  end.

Lemma continue_ok l r s' l' :
  continue l r = Ok (s', l') <-> exists c, r = Ok (s', c) /\ l' = go l c.
Proof.
  destruct r as [[s c]|w]; simpl; [|naive_solver].
  destruct c; simpl; naive_solver.
Qed.

Lemma continue_crash l r w : continue l r = Crash w <-> r = Crash w.
Proof. destruct r as [[s []]|]; simpl; naive_solver. Qed.

(** Evaluates the counts of a thread whose place is known. *)
Ltac counts :=
  unfold sent, got, to_send, slow, sleeping, posting in *; cbn [t_pc todo log go] in *;
  repeat match goal with
  | H : t_pc _ = _ |- _ => rewrite H in *; clear H
  | H : todo _ = _ |- _ => rewrite H in *; clear H
  end;
  rewrite ?countb_app, ?countb_cons, ?countb_nil, ?is_got_0, ?is_got_timeout, ?is_got_signaled in *;
  cbn [is_sent is_signal] in *.

(** *** The atomic operations *)

(** Nothing but the kernel semaphore or the place of the thread changes. *)
Lemma sema_ok_create v : 0 <= v -> sema_ok (semaphore_create v).
Proof. intros Hv. split; [constructor|]. simpl. split; [lia|done]. Qed.

Section ops.
  Context (i : nat) (s : shared) (ls : list thread) (l : thread).
  Context (I : Inv s ls) (Hl : ls !! i = Some l).

Lemma not_queued : sleeping l = 0%nat -> ~ i ∈ waitq (kernel s).
Proof.
  intros H0 Hi. destruct (inv_queue _ _ I i Hi) as (l2 & Hl2 & ?). simplify_eq. lia.
Qed.

Lemma kernel_some k : dsema_sema (dsema s) = Some k -> kernel s = k.
Proof. unfold kernel. by intros ->. Qed.

Lemma wait_moves t cs s' c :
  t_pc l = Idle -> todo l = Wait t :: cs ->
  dispatch_semaphore_wait t s = (s', c) ->
  moves i s l s' (go {| t_pc := Idle; todo := cs; log := log l |} c).
Proof.
  intros Hpc Htodo. unfold dispatch_semaphore_wait.
  pose proof (inv_range _ _ I) as [Hlo Hhi].
  rewrite s64_small by (unfold LONG_MAX in Hhi; lia).
  assert (~ i ∈ waitq (kernel s)) as Hnq by (apply not_queued; unfold sleeping; by rewrite Hpc).
  rewrite Z.geb_leb. destruct (Z.leb_spec 0 (dsema_value (dsema s) - 1));
    intros [= <- <-]; split; counts; unfold kernel in *; simpl; try done; try lia;
    apply (inv_sema _ _ I).
Qed.

Lemma signal_moves cs :
  t_pc l = Idle -> todo l = Signal :: cs ->
  exists s' c, dispatch_semaphore_signal s = Ok (s', c) /\
  moves i s l s' (go {| t_pc := Idle; todo := cs; log := log l |} c).
Proof.
  intros Hpc Htodo. unfold dispatch_semaphore_signal.
  pose proof (inv_range _ _ I) as [Hlo Hhi].
  pose proof (isum_lookup (fun _ => to_send) _ _ _ Hl) as Hone.
  unfold to_send in Hone at 1. rewrite Htodo, countb_cons in Hone. simpl in Hone.
  unfold LONG_MAX in Hhi.
  assert (~ i ∈ waitq (kernel s)) as Hnq by (apply not_queued; unfold sleeping; by rewrite Hpc).
  rewrite s64_small, Z.gtb_ltb by lia.
  destruct (Z.ltb_spec 0 (dsema_value (dsema s) + 1)).
  2: unfold LONG_MIN; destruct (Z.eqb_spec (dsema_value (dsema s) + 1) (- 2 ^ 63)); [lia|].
  all: do 2 eexists; split; [done|]; split; counts; unfold kernel in *; simpl; try done; try lia;
    apply (inv_sema _ _ I).
Qed.

(** A step within the slow paths that does not touch the semaphore. *)
Lemma goto_moves p :
  sleeping l = 0%nat ->
  (forall q, t_pc l = q -> slow {| t_pc := q; todo := []; log := [] |} =
                       slow {| t_pc := p; todo := []; log := [] |} /\
                       posting {| t_pc := q; todo := []; log := [] |} =
                       posting {| t_pc := p; todo := []; log := [] |}) ->
  sleeping {| t_pc := p; todo := []; log := [] |} = 0%nat ->
  uses_sema (t_pc l) = true ->
  (forall orig, p = Undo orig -> orig < 0) ->
  moves i s l s (go l (Goto p)).
Proof.
  intros Hs Hp Hs2 Hu Hundo. destruct (Hp _ eq_refl) as [Hp1 Hp2].
  assert (~ i ∈ waitq (kernel s)) as Hnq by (by apply not_queued).
  unfold sleeping, slow, posting in *. split; unfold sent, got, slow, sleeping, posting, to_send;
    simpl in *; try rewrite Hs; try rewrite Hp1; try rewrite Hp2; try rewrite Hs2; try done; try lia.
  - apply (inv_sema _ _ I).
  - intros _. eapply (inv_created _ _ I); eauto.
Qed.

Lemma create_moves p :
  (exists t, t_pc l = WaitSlow t /\ p = wait_slow_switch t) \/ (t_pc l = SignalSlow /\ p = SignalPost) ->
  moves i s l (dispatch_sema4_create s) (go l (Goto p)).
Proof.
  intros Hp.
  assert (sleeping l = 0%nat) as Hs by (unfold sleeping; destruct Hp as [(? & -> & _)|[-> _]]; done).
  assert (kernel (dispatch_sema4_create s) = kernel s) as Hk
    by (unfold kernel, dispatch_sema4_create; destruct (dsema_sema (dsema s)) eqn:E; simpl; by rewrite ?E).
  assert (is_Some (dsema_sema (dsema (dispatch_sema4_create s))))
    by (unfold dispatch_sema4_create; destruct (dsema_sema (dsema s)) eqn:E; simpl; rewrite ?E; eauto).
  assert (dsema_value (dsema (dispatch_sema4_create s)) = dsema_value (dsema s)) as Hv
    by (unfold dispatch_sema4_create; by case_match).
  assert (dsema_orig (dsema (dispatch_sema4_create s)) = dsema_orig (dsema s)) as Ho
    by (unfold dispatch_sema4_create; by case_match).
  pose proof (not_queued Hs) as Hnq.
  destruct Hp as [(t & Hpc & ->)|[Hpc ->]]; [unfold wait_slow_switch; repeat case_match|];
    split; rewrite ?Hk, ?Hv, ?Ho; counts; try done; try lia; apply (inv_sema _ _ I).
Qed.

Lemma load_moves :
  t_pc l = LoadValue -> moves i s l s (go l (Goto (undo_head (dsema_value (dsema s))))).
Proof.
  intros Hpc. unfold undo_head. case_match eqn:Hv; apply goto_moves;
    unfold sleeping; rewrite ?Hpc; try done; intros; simplify_eq/=; try done; lia.
Qed.

Lemma undo_moves orig s' c :
  t_pc l = Undo orig -> wait_slow_undo orig s = (s', c) -> moves i s l s' (go l c).
Proof.
  intros Hpc. pose proof (inv_undo _ _ I i l orig Hl Hpc) as Ho. unfold wait_slow_undo.
  destruct (Z.eqb_spec (dsema_value (dsema s)) orig) as [<-|Hne]; intros [= <- <-].
  - assert (~ i ∈ waitq (kernel s)) as Hnq by (apply not_queued; unfold sleeping; by rewrite Hpc).
    split; counts; unfold kernel in *; simpl; try done; try lia. apply (inv_sema _ _ I).
  - unfold undo_head. case_match; apply goto_moves;
      unfold sleeping; rewrite ?Hpc; try done; intros; simplify_eq/=; try done; lia.
Qed.

(** The thread takes a permit from the kernel semaphore, or goes to sleep. *)
Lemma take_moves k :
  dsema_sema (dsema s) = Some k -> 0 < count k -> slow l = 1%nat -> sleeping l = 0%nat ->
  moves i s l (set_sema {| count := count k - 1; waitq := waitq k |} s) (go l (Return (Waited 0))).
Proof.
  intros Hk Hc Hs Hsl. pose proof (not_queued Hsl) as Hnq.
  pose proof (inv_sema _ _ I) as (Hnd & Hlo & Hq). rewrite (kernel_some k Hk) in *.
  assert (posting l = 0%nat) by (unfold slow, posting in *; by case_match).
  split; rewrite ?(kernel_some k Hk); unfold sent, got, to_send; rewrite ?Hs, ?Hsl;
    counts; unfold kernel; simpl; try done; try lia.
  split; [done|]. simpl. split; [lia|]. intros Hne. specialize (Hq Hne). lia.
Qed.

Lemma sleep_moves k p :
  dsema_sema (dsema s) = Some k -> ~ 0 < count k ->
  t_pc l = KWait /\ p = KSleep \/ t_pc l = TimedWait /\ p = TimedSleep ->
  moves i s l (set_sema {| count := -1; waitq := waitq k ++ [i] |} s) (go l (Goto p)).
Proof.
  intros Hk Hc Hp.
  assert (sleeping l = 0%nat) as Hsl by (unfold sleeping; by destruct Hp as [[-> _]|[-> _]]).
  pose proof (not_queued Hsl) as Hnq.
  pose proof (inv_sema _ _ I) as (Hnd & Hlo & Hq). rewrite (kernel_some k Hk) in *.
  assert (sema_ok {| count := -1; waitq := waitq k ++ [i] |}).
  { split; simpl; [|lia]. apply NoDup_app. split; [done|].
    split; [|apply NoDup_singleton]. intros j Hj ->%list_elem_of_singleton. done. }
  destruct Hp as [[Hpc ->]|[Hpc ->]]; split; rewrite ?(kernel_some k Hk); counts; unfold kernel; simpl;
    rewrite ?length_app; simpl; try done; try lia.
  all: intros j; rewrite elem_of_app, list_elem_of_singleton; tauto.
Qed.

Lemma wait_internal_cases nb k k' r :
  semaphore_wait_internal i nb k = (k', r) ->
  0 < count k /\ k' = {| count := count k - 1; waitq := waitq k |} /\ r = KERN_SUCCESS \/
  ~ 0 < count k /\ nb = true /\ k' = k /\ r = KERN_OPERATION_TIMED_OUT \/
  ~ 0 < count k /\ nb = false /\ k' = {| count := -1; waitq := waitq k ++ [i] |} /\
    r = KERN_ALREADY_WAITING.
Proof.
  unfold semaphore_wait_internal. rewrite Z.gtb_ltb.
  destruct (Z.ltb_spec 0 (count k)); [|destruct nb]; intros [= <- <-]; [left|right; left|right; right];
    repeat split; lia || done.
Qed.

Lemma set_sema_id k : dsema_sema (dsema s) = Some k -> set_sema k s = s.
Proof. clear. destruct s as [[v o q] n]; simpl. intros ->. done. Qed.

Lemma kwait_moves :
  t_pc l = KWait ->
  exists s' c, dispatch_sema4_wait i s = Ok (s', c) /\ moves i s l s' (go l c).
Proof.
  intros Hpc. destruct (inv_created _ _ I i l Hl) as [k Hk]; [by rewrite Hpc|].
  unfold dispatch_sema4_wait. rewrite Hk.
  destruct (semaphore_wait_internal i false k) as [k' r] eqn:Hw.
  destruct (wait_internal_cases _ _ _ _ Hw) as [(? & -> & ->)|[(? & ? & ?)|(? & _ & -> & ->)]]; [| done |];
    do 2 eexists; (split; [done|]).
  - apply take_moves; unfold slow, sleeping; by rewrite ?Hpc.
  - apply sleep_moves; auto.
Qed.

Lemma timedwait_moves nb :
  t_pc l = TimedWait ->
  exists s' c, dispatch_sema4_timedwait i nb s = Ok (s', c) /\ moves i s l s' (go l c).
Proof.
  intros Hpc. destruct (inv_created _ _ I i l Hl) as [k Hk]; [by rewrite Hpc|].
  unfold dispatch_sema4_timedwait. rewrite Hk.
  destruct (semaphore_wait_internal i nb k) as [k' r] eqn:Hw.
  destruct (wait_internal_cases _ _ _ _ Hw) as [(? & -> & ->)|[(? & _ & -> & ->)|(? & _ & -> & ->)]];
    do 2 eexists; (split; [done|]).
  - apply take_moves; unfold slow, sleeping; by rewrite ?Hpc.
  - rewrite (set_sema_id k Hk). apply goto_moves; unfold sleeping; rewrite ?Hpc; try done.
    by intros q <-.
  - apply sleep_moves; auto.
Qed.

(** The thread leaves the kernel: woken, timed out or interrupted. *)
Lemma leave_moves k n p :
  dsema_sema (dsema s) = Some k -> i ∈ waitq k -> sleeping l = 1%nat ->
  slow {| t_pc := p; todo := []; log := [] |} = 1%nat ->
  sleeping {| t_pc := p; todo := []; log := [] |} = 0%nat ->
  (forall orig, p <> Undo orig) ->
  moves i s l {| dsema := dsema (set_sema {| count := count k; waitq := leave i (waitq k) |} s); aborts := n |}
        (go l (Goto p)).
Proof.
  intros Hk Hi Hs Hp1 Hp2 Hp3.
  pose proof (inv_sema _ _ I) as (Hnd & Hlo & Hq). rewrite (kernel_some k Hk) in *.
  pose proof (leave_length i _ Hnd Hi) as Hlen.
  assert (posting l = 0%nat /\ slow l = 1%nat) as [Hpo Hsl]
    by (unfold sleeping, posting, slow in *; by destruct (t_pc l)).
  assert (posting {| t_pc := p; todo := []; log := [] |} = 0%nat) as Hpo2
    by (unfold posting, slow in *; by destruct p).
  unfold posting, slow, sleeping in *. simpl in *.
  split; rewrite ?(kernel_some k Hk); unfold sent, got, to_send, slow, sleeping, posting, kernel; simpl;
    rewrite ?Hpo, ?Hs, ?Hsl, ?Hp1, ?Hp2, ?Hpo2; try done; try lia.
  - split; [by apply leave_NoDup|]. simpl. split; [lia|]. intros Hne. apply Hq. intros H0. by rewrite H0 in Hne.
  - intros j. rewrite elem_leave. tauto.
  - rewrite elem_leave. tauto.
  - intros orig ->. by destruct (Hp3 orig).
Qed.

Lemma woken_moves :
  sleeping l = 1%nat -> ~ i ∈ waitq (kernel s) -> moves i s l s (go l (Return (Waited 0))).
Proof.
  intros Hs Hi.
  assert (posting l = 0%nat /\ slow l = 1%nat) as [Hpo Hsl]
    by (unfold sleeping, posting, slow in *; by destruct (t_pc l)).
  split; unfold sent; rewrite ?Hpo, ?Hs, ?Hsl; counts; simpl; try done; try lia.
  apply (inv_sema _ _ I).
Qed.

Lemma asleep_moves p timed r :
  (t_pc l = KSleep /\ p = KWait \/ t_pc l = TimedSleep /\ p = TimedWait) ->
  r ∈ asleep i p timed s ->
  exists s' c, r = Ok (s', c) /\ moves i s l s' (go l c).
Proof.
  intros Hp. assert (sleeping l = 1%nat) as Hs by (unfold sleeping; by destruct Hp as [[-> _]|[-> _]]).
  destruct (inv_created _ _ I i l Hl) as [k Hk]; [by destruct Hp as [[-> _]|[-> _]]|].
  unfold asleep. rewrite Hk. case_bool_decide as Hi.
  - rewrite elem_of_app. intros [Hr|Hr].
    + destruct timed; [|by apply elem_of_nil in Hr]. apply list_elem_of_singleton in Hr as ->.
      do 2 eexists. split; [done|]. by apply (leave_moves k (aborts s) LoadValue).
    + destruct (aborts s); [by apply elem_of_nil in Hr|]. apply list_elem_of_singleton in Hr as ->.
      do 2 eexists. split; [done|]. apply leave_moves; try done; by destruct Hp as [[_ ->]|[_ ->]].
  - intros ->%list_elem_of_singleton. do 2 eexists. split; [done|].
    apply woken_moves; [done|]. by rewrite (kernel_some k Hk).
Qed.

(** *** Posting *)
Lemma post_moves r :
  t_pc l = SignalPost -> r ∈ dispatch_sema4_signal s ->
  exists s' c, r = Ok (s', c) /\ moves i s l s' (go l c).
Proof.
  intros Hpc. destruct (inv_created _ _ I i l Hl) as [k Hk]; [by rewrite Hpc|].
  pose proof (not_queued ltac:(unfold sleeping; by rewrite Hpc)) as Hnq.
  pose proof (inv_sema _ _ I) as (Hnd & Hlo & Hq). rewrite (kernel_some k Hk) in *.
  unfold dispatch_sema4_signal, semaphore_signal_internal. rewrite Hk.
  destruct (Z.ltb_spec (count k) 0) as [Hc|Hc]; [case_bool_decide as Hw|]; simpl.
  - rewrite list_elem_of_fmap. intros ([k' kr] & -> & Hin).
    apply list_elem_of_fmap in Hin as (w & [= -> ->] & Hin).
    do 2 eexists. split; [done|]. pose proof (leave_length w _ Hnd Hin) as Hlen.
    split; rewrite ?(kernel_some k Hk); counts; unfold kernel; simpl; try done; try lia.
    + split; [by apply leave_NoDup|]. simpl. split; [lia|]. done.
    + intros j. rewrite elem_leave. tauto.
    + rewrite elem_leave. tauto.
  - intros ->%list_elem_of_singleton. do 2 eexists. split; [done|].
    assert (waitq k = []) as Hq0 by (destruct (waitq k); [done|by destruct Hw]).
    split; rewrite ?(kernel_some k Hk); counts; unfold kernel; simpl; try done; try lia.
  - intros ->%list_elem_of_singleton. do 2 eexists. split; [done|].
    split; rewrite ?(kernel_some k Hk); counts; unfold kernel; simpl; try done; try lia.
    split; [done|]. simpl. split; [lia|]. intros Hne. specialize (Hq Hne). lia.
Qed.

(** *** Every step *)
Lemma pc_next_moves r :
  t_pc l <> Idle -> r ∈ pc_next i s (t_pc l) ->
  exists s' c, r = Ok (s', c) /\ moves i s l s' (go l c).
Proof.
  intros Hne. destruct (t_pc l) eqn:Hpc; simpl; [done|..]; intros Hr.
  - apply list_elem_of_singleton in Hr as ->. do 2 eexists. split; [done|].
    apply create_moves. eauto.
  - rewrite !elem_of_cons, elem_of_nil in Hr.
    destruct Hr as [->|[->|[]]]; by apply timedwait_moves.
  - eapply asleep_moves; [|exact Hr]. auto.
  - apply list_elem_of_singleton in Hr as ->. do 2 eexists. split; [done|]. by apply load_moves.
  - apply list_elem_of_singleton in Hr as ->.
    destruct (wait_slow_undo orig s) as [s' c] eqn:Hu. do 2 eexists. split; [done|].
    by apply (undo_moves orig).
  - apply list_elem_of_singleton in Hr as ->. by apply kwait_moves.
  - eapply asleep_moves; [|exact Hr]. auto.
  - apply list_elem_of_singleton in Hr as ->. do 2 eexists. split; [done|].
    apply create_moves. auto.
  - by apply post_moves.
Qed.

Lemma next_moves r :
  r ∈ next i s l -> exists s' l', r = Ok (s', l') /\ moves i s l s' l'.
Proof.
  unfold next. destruct (decide (t_pc l = Idle)) as [Hpc|Hpc].
  - rewrite Hpc. destruct (todo l) as [|[t|] cs] eqn:Htodo; [by intros ?%elem_of_nil|..];
      intros ->%list_elem_of_singleton.
    + destruct (dispatch_semaphore_wait t s) as [s' c] eqn:Hw. do 2 eexists.
      split; [by apply continue_ok; eauto|]. by eapply wait_moves.
    + destruct (signal_moves cs Hpc Htodo) as (s' & c & -> & Hm). do 2 eexists.
      split; [by apply continue_ok; eauto|]. done.
  - intros Hr. assert (r ∈ continue l <$> pc_next i s (t_pc l)) as Hr' by (by destruct (t_pc l)).
    apply list_elem_of_fmap in Hr' as (r0 & -> & Hr0).
    destruct (pc_next_moves r0 Hpc Hr0) as (s' & c & -> & Hm). do 2 eexists.
    split; [by apply continue_ok; eauto|]. done.
Qed.

End ops.

Lemma inv_step c c' : InvC c -> step next c c' -> InvC c'.
Proof.
  intros I Hs. destruct Hs as [i s ls l s' l' Hl Hn]. unfold InvC in *. simpl in *.
  destruct (next_moves i s ls l I Hl _ Hn) as (? & ? & [= <- <-] & Hm).
  by eapply moves_inv.
Qed.

Lemma inv_no_crash c : InvC c -> ~ may_crash next c.
Proof.
  intros I (i & l & w & Hl & Hn).
  by destruct (next_moves i _ _ l I Hl _ Hn) as (? & ? & ? & _).
Qed.

(** Total number of [dispatch_semaphore_signal] calls of the programs. *)
Definition signals (progs : list (list call)) : nat := tsum (countb is_signal) progs.

Lemma inv_start d n progs v :
  dispatch_semaphore_create v = Some d ->
  v + Z.of_nat (signals progs) <= LONG_MAX -> Z.of_nat (length progs) < 2 ^ 62 ->
  InvC (start d n progs).
Proof.
  unfold dispatch_semaphore_create. case_match eqn:Hv; [done|]. intros [= <-] Hb Hn.
  unfold InvC, start; simpl.
  assert (forall f, (forall cs, f {| t_pc := Idle; todo := cs; log := [] |} = 0%nat) ->
    tsum f ((fun cs => {| t_pc := Idle; todo := cs; log := [] |}) <$> progs) = 0%nat) as Hz.
  { intros f Hf. rewrite isum_fmap. by apply isum_zero. }
  split; simpl; rewrite ?Hz by done; unfold kernel; simpl; try lia.
  - apply sema_ok_create. lia.
  - by intros i ?%elem_of_nil.
  - intros i l. rewrite list_lookup_fmap. destruct (progs !! i); simpl; [|done]. by intros [= <-].
  - intros i l o. rewrite list_lookup_fmap. destruct (progs !! i); simpl; [|done]. by intros [= <-].
  - rewrite isum_fmap. unfold to_send, signals in *. simpl. rewrite Z.add_0_r. exact Hb.
  - by rewrite length_fmap.
Qed.
