(* ===== verification/SemaphoreThms.v ===== *)
(** * What dispatch semaphores guarantee

    Safety against an abstract counter of permits, the end of every run, and
    what is left when nothing can move any more. *)

From S2P Require Import Conc Semaphore SemaphoreInv Prelude.

Import MachSema DSema.

(** ** The measure of a run

    [work] bounds the operations that still change the value of the
    semaphore; between two of them every thread only moves forward. *)

Definition work (l : thread) : nat := 2 * length (todo l) + slow l + posting l.

Definition rank (v : Z) (l : thread) : nat :=
  match t_pc l with
  | Idle => 0
  | WaitSlow _ => 9
  | TimedWait => 8
  | TimedSleep => 7
  | LoadValue => 6
  | Undo orig => if v =? orig then 4 else 5
  | KWait => 2
  | KSleep => 1
  | SignalSlow => 2
  | SignalPost => 1
  end.

Definition measure (c : conf shared thread) : nat :=
  (tsum work (c_thr c) + aborts (c_sh c)) * (9 * length (c_thr c) + 1)
  + tsum (rank (dsema_value (dsema (c_sh c)))) (c_thr c).

Lemma sema_rank_bound v l : (rank v l <= 9)%nat.
Proof. unfold rank. destruct (t_pc l); repeat case_match; lia. Qed.

(** The effect of a step on the measure. *)
Definition descends (s : shared) (l : thread) (s' : shared) (l' : thread) : Prop :=
  (work l' + aborts s' < work l + aborts s)%nat \/
  (work l' + aborts s' = work l + aborts s)%nat /\
  dsema_value (dsema s') = dsema_value (dsema s) /\
  (rank (dsema_value (dsema s)) l' < rank (dsema_value (dsema s)) l)%nat.

Lemma create_same s :
  aborts (dispatch_sema4_create s) = aborts s /\
  dsema_value (dsema (dispatch_sema4_create s)) = dsema_value (dsema s).
Proof. unfold dispatch_sema4_create. by case_match. Qed.

Lemma undo_head_rank v l :
  slow (go l (Goto (undo_head v))) = 1%nat /\ posting (go l (Goto (undo_head v))) = 0%nat /\
  (rank v (go l (Goto (undo_head v))) <= 4)%nat.
Proof.
  unfold undo_head. case_match; unfold slow, posting, rank; simpl; [|lia].
  rewrite Z.eqb_refl. lia.
Qed.

(** Unfolds [descends] at a thread whose place is known. *)
Ltac descend :=
  unfold descends, work, slow, posting, rank; simpl;
  repeat match goal with H : t_pc _ = _ |- _ => rewrite H; clear H end; simpl;
  first [lia | left; lia | right; split_and!; try done; lia].

Lemma wait_descends i s l s' c p noblock :
  t_pc l = p -> slow l = 1%nat -> posting l = 0%nat ->
  (p = KWait /\ dispatch_sema4_wait i s = Ok (s', c) \/
   p = TimedWait /\ dispatch_sema4_timedwait i noblock s = Ok (s', c)) ->
  descends s l s' (go l c).
Proof.
  intros Hpc Hs Hp [[-> Hw]|[-> Hw]]; revert Hw.
  - unfold dispatch_sema4_wait. destruct (dsema_sema (dsema s)) as [k|]; [|done].
    destruct (semaphore_wait_internal i false k) as [k' []]; intros [= <- <-]; descend.
  - unfold dispatch_sema4_timedwait. destruct (dsema_sema (dsema s)) as [k|]; [|done].
    destruct (semaphore_wait_internal i noblock k) as [k' []]; intros [= <- <-]; descend.
Qed.

Lemma asleep_descends i s l s' c p timed :
  (t_pc l = KSleep /\ p = KWait /\ timed = false \/ t_pc l = TimedSleep /\ p = TimedWait) ->
  Ok (s', c) ∈ asleep i p timed s -> descends s l s' (go l c).
Proof.
  intros Hp. unfold asleep. destruct (dsema_sema (dsema s)) as [k|]; [|by intros ?%list_elem_of_singleton].
  case_bool_decide.
  - rewrite elem_of_app. intros [Hr|Hr].
    + destruct timed; [|by apply elem_of_nil in Hr]. apply list_elem_of_singleton in Hr as [= -> ->].
      destruct Hp as [(? & ? & ?)|[Hpc ->]]; [done|]. descend.
    + destruct (aborts s) eqn:Ha; [by apply elem_of_nil in Hr|]. apply list_elem_of_singleton in Hr as [= -> ->].
      destruct Hp as [(Hpc & -> & ->)|[Hpc ->]]; left; unfold work, slow, posting; simpl; rewrite Hpc, Ha; lia.
  - intros [= -> ->]%list_elem_of_singleton. destruct Hp as [(Hpc & -> & ->)|[Hpc ->]]; descend.
Qed.

Lemma undo_descends s l orig s' c :
  t_pc l = Undo orig -> wait_slow_undo orig s = (s', c) -> descends s l s' (go l c).
Proof.
  intros Hpc. unfold wait_slow_undo.
  destruct (Z.eqb_spec (dsema_value (dsema s)) orig); intros [= <- <-]; [descend|].
  destruct (undo_head_rank (dsema_value (dsema s)) l) as (H1 & H2 & H3).
  right. unfold work. rewrite H1, H2. unfold slow, posting. simpl. rewrite Hpc. split_and!; [lia|done|].
  eapply Nat.le_lt_trans; [exact H3|]. unfold rank. rewrite Hpc, (proj2 (Z.eqb_neq _ _)) by done. lia.
Qed.

Lemma pc_next_descends i s l s' c :
  t_pc l <> Idle -> Ok (s', c) ∈ pc_next i s (t_pc l) -> descends s l s' (go l c).
Proof.
  intros Hne. destruct (t_pc l) eqn:Hpc; simpl; [done|..]; intros Hr.
  - apply list_elem_of_singleton in Hr as [= -> ->]. destruct (create_same s) as [H1 H2].
    right. rewrite H1, H2. unfold wait_slow_switch, work, slow, posting, rank; simpl; rewrite Hpc.
    repeat case_match; simpl; split_and!; done || lia.
  - rewrite !elem_of_cons, elem_of_nil in Hr.
    assert (slow l = 1%nat /\ posting l = 0%nat) as [? ?] by (unfold slow, posting; by rewrite Hpc).
    destruct Hr as [Hr|[Hr|[]]]; eapply wait_descends; eauto.
  - eapply asleep_descends; [|exact Hr]. auto.
  - apply list_elem_of_singleton in Hr as [= -> ->].
    destruct (undo_head_rank (dsema_value (dsema s)) l) as (H1 & H2 & H3).
    right. unfold work. rewrite H1, H2. unfold slow, posting. simpl. rewrite Hpc. split_and!; [lia|done|].
    eapply Nat.le_lt_trans; [exact H3|]. unfold rank. rewrite Hpc. lia.
  - apply list_elem_of_singleton in Hr. injection Hr as Hu. symmetry in Hu. by eapply undo_descends.
  - apply list_elem_of_singleton in Hr.
    assert (slow l = 1%nat /\ posting l = 0%nat) as [? ?] by (unfold slow, posting; by rewrite Hpc).
    eapply (wait_descends i s l s' c KWait false); eauto.
  - eapply asleep_descends; [|exact Hr]. auto.
  - apply list_elem_of_singleton in Hr as [= -> ->]. destruct (create_same s) as [H1 H2].
    right. rewrite H1, H2. unfold work, slow, posting, rank; simpl; rewrite Hpc. split_and!; done || lia.
  - unfold dispatch_sema4_signal in Hr. destruct (dsema_sema (dsema s)) as [k|].
    2: by apply list_elem_of_singleton in Hr.
    apply list_elem_of_fmap in Hr as ([k' kr] & [= -> ->] & _). descend.
Qed.

Lemma sema_next_descends i s l s' l' : Ok (s', l') ∈ next i s l -> descends s l s' l'.
Proof.
  unfold next. destruct (decide (t_pc l = Idle)) as [Hpc|Hpc].
  - rewrite Hpc. destruct (todo l) as [|[t|] cs] eqn:Htodo; [by intros ?%elem_of_nil|..];
      intros Hr%list_elem_of_singleton; symmetry in Hr; apply continue_ok in Hr as (c & Hc & ->); left;
      revert Hc.
    + unfold dispatch_semaphore_wait. case_match; intros [= <- <-];
        unfold work, slow, posting; simpl; rewrite Hpc, Htodo; simpl; lia.
    + unfold dispatch_semaphore_signal. repeat case_match; intros [=]; subst;
        unfold work, slow, posting; simpl; rewrite Hpc, Htodo; simpl; lia.
  - intros Hr. assert (Ok (s', l') ∈ continue l <$> pc_next i s (t_pc l)) as Hr' by (by destruct (t_pc l)).
    apply list_elem_of_fmap in Hr' as (r0 & He & Hr0). symmetry in He.
    apply continue_ok in He as (c & -> & ->). by eapply pc_next_descends.
Qed.

Lemma sema_measure_step c c' : step next c c' -> (measure c' < measure c)%nat.
Proof.
  intros Hs. destruct Hs as [i s ls l s' l' Hl Hn].
  pose proof (sema_next_descends _ _ _ _ _ Hn) as Hd.
  unfold measure; simpl. rewrite length_insert.
  pose proof (isum_insert (fun _ => work) ls i l l' Hl) as Hw.
  destruct Hd as [Hd|(Hd & Hv & Hr)].
  - assert (tsum (rank (dsema_value (dsema s'))) (<[i:=l']> ls) <= 9 * length ls)%nat as Hb.
    { rewrite <- (length_insert ls i l'). apply isum_bound. intros; apply sema_rank_bound. }
    nia.
  - rewrite Hv. pose proof (isum_insert (fun _ => rank (dsema_value (dsema s))) ls i l l' Hl).
    assert (tsum work (<[i:=l']> ls) + aborts s' = tsum work ls + aborts s)%nat as -> by lia. lia.
Qed.

(** ** When nothing can move *)

Lemma signal_internal_nonempty k : semaphore_signal_internal k <> [].
Proof.
  unfold semaphore_signal_internal. case_match; [|done].
  destruct (waitq k); simpl; [by rewrite andb_false_r in *|done].
Qed.

(** A thread without a next step has finished or sleeps for good in the
    queue of the kernel semaphore. *)
Lemma sema_next_nil i s l :
  next i s l = [] ->
  (t_pc l = Idle /\ todo l = []) \/ (t_pc l = KSleep /\ i ∈ waitq (kernel s)).
Proof.
  unfold next, kernel. intros Hn. destruct (t_pc l) eqn:Hpc; simpl in Hn; try done.
  - left. by destruct (todo l).
  - unfold asleep in Hn. destruct (dsema_sema (dsema s)) as [k|]; [|done]. by case_bool_decide.
  - right. split; [done|]. unfold asleep in Hn. destruct (dsema_sema (dsema s)) as [k|]; [|done].
    simpl. by case_bool_decide.
  - unfold dispatch_sema4_signal in Hn. destruct (dsema_sema (dsema s)) as [k|]; [|done].
    pose proof (signal_internal_nonempty k). by destruct (semaphore_signal_internal k).
Qed.

Lemma stuck_threads s ls i l :
  Inv s ls -> nf (step next) (Conf s ls) -> ls !! i = Some l ->
  (t_pc l = Idle /\ todo l = []) \/ (t_pc l = KSleep /\ i ∈ waitq (kernel s)).
Proof.
  intros I Hnf Hl. apply sema_next_nil. destruct (next i s l) as [|r rs] eqn:Hn; [done|].
  destruct (next_moves i s ls l I Hl r) as (s' & l' & -> & _); [rewrite Hn; by left|].
  exfalso. eapply nf_next; [done..|]. rewrite Hn. by left.
Qed.

Lemma stuck_no_permit s ls i l :
  Inv s ls -> nf (step next) (Conf s ls) -> ls !! i = Some l -> t_pc l = KSleep ->
  zsum got ls = dsema_orig (dsema s) + zsum sent ls /\
  dsema_value (dsema s) = - zsum sleeping ls.
Proof.
  intros I Hnf Hl Hpc.
  assert (forall j x, ls !! j = Some x ->
    (t_pc x = Idle /\ todo x = []) \/ (t_pc x = KSleep /\ j ∈ waitq (kernel s))) as Hst
    by eauto using stuck_threads.
  assert (tsum posting ls = 0%nat) as Hp.
  { apply isum_zero. intros j x Hx. unfold posting. by destruct (Hst j x Hx) as [[-> _]|[-> _]]. }
  assert (tsum slow ls = tsum sleeping ls) as Hs.
  { apply isum_ext. intros j x Hx. unfold slow, sleeping. by destruct (Hst j x Hx) as [[-> _]|[-> _]]. }
  assert (tsum sleeping ls <= length (waitq (kernel s)))%nat as Hle.
  { apply isum_le_length. intros j x Hx. unfold sleeping.
    destruct (Hst j x Hx) as [[-> _]|[-> Hj]]; [lia|]. by rewrite decide_True. }
  pose proof (isum_lookup (fun _ => sleeping) _ _ _ Hl) as H1. unfold sleeping in H1 at 1.
  rewrite Hpc in H1.
  pose proof (inv_asleep _ _ I) as Hge.
  destruct (inv_sema _ _ I) as (_ & _ & Hneg).
  assert (count (kernel s) < 0). { apply Hneg. intros H0. rewrite H0 in Hle. simpl in Hle. lia. }
  pose proof (inv_slow _ _ I). pose proof (inv_value _ _ I). lia.
Qed.

(** ** Runs of a fresh semaphore *)

Section runs.
  Context (v : Z) (n : nat) (progs : list (list call)) (d : dispatch_semaphore_s).
  Context (Hd : dispatch_semaphore_create v = Some d).
  Context (Hlong : v + Z.of_nat (signals progs) <= LONG_MAX).
  Context (Hthr : Z.of_nat (length progs) < 2 ^ 62).

Lemma run_inv c :
  rtc (step next) (start d n progs) c -> InvC c /\ dsema_orig (dsema (c_sh c)) = v.
Proof.
  intros Hr. eapply (inv_rtc next (fun c => InvC c /\ dsema_orig (dsema (c_sh c)) = v)); [|exact Hr|].
  - intros c1 c2 [I Ho] Hs. split; [by eapply inv_step|].
    destruct Hs as [i s ls l s' l' Hl Hn]. simpl in *.
    destruct (next_moves i s ls l I Hl _ Hn) as (? & ? & [= <- <-] & Hm).
    by rewrite (mv_orig _ _ _ _ _ Hm).
  - split; [by eapply inv_start|]. revert Hd. unfold dispatch_semaphore_create, start.
    case_match; [done|]. by intros [= <-].
Qed.

End runs.

(** ** The abstract counter

    A semaphore promises a number of permits that a signal raises and a
    successful wait lowers, never below zero. *)

Inductive permit_step : relation Z :=
  | permit_stay p : permit_step p p
  | permit_put p : permit_step p (p + 1)
  | permit_take p : 0 < p -> permit_step p (p - 1).

Definition permits (c : conf shared thread) : Z :=
  dsema_orig (dsema (c_sh c)) + zsum sent (c_thr c) - zsum got (c_thr c).

Lemma permits_nonneg c : InvC c -> 0 <= permits c.
Proof. intros I. pose proof (inv_permits _ _ I). unfold permits. lia. Qed.

Lemma permits_step c c' : InvC c -> step next c c' -> permit_step (permits c) (permits c').
Proof.
  intros I Hs. pose proof (permits_nonneg c' (inv_step _ _ I Hs)) as Hpos.
  destruct Hs as [i s ls l s' l' Hl Hn]. unfold InvC, permits in *. simpl in *.
  destruct (next_moves i s ls l I Hl _ Hn) as (? & ? & [= <- <-] & Hm).
  rewrite (mv_orig _ _ _ _ _ Hm) in *. destruct (mv_event _ _ _ _ _ Hm) as (H1 & H2 & H3).
  pose proof (isum_insert (fun _ => sent) ls i l l' Hl).
  pose proof (isum_insert (fun _ => got) ls i l l' Hl).
  set (p := dsema_orig (dsema s) + zsum sent ls - zsum got ls) in *.
  set (p' := dsema_orig (dsema s) + zsum sent (<[i:=l']> ls) - zsum got (<[i:=l']> ls)) in *.
  assert (p' = p \/ p' = p + 1 \/ p' = p - 1) as [->|[->| ->]] by lia; constructor. lia.
Qed.

(** [C12] A semaphore that starts with [v] permits, shared by fewer than 2^62
    threads that run any programs of waits and signals with which the permits
    stay within a [long], never stops the process and behaves
    as the abstract counter: no permit is lost, none is made up, and no wait
    returns 0 without one. *)
Theorem semaphore_refines v n progs d c :
  dispatch_semaphore_create v = Some d ->
  v + Z.of_nat (signals progs) <= LONG_MAX -> Z.of_nat (length progs) < 2 ^ 62 ->
  rtc (step next) (start d n progs) c ->
  ~ may_crash next c /\
  permits (start d n progs) = v /\ 0 <= permits c /\
  dsema_value (dsema (c_sh c)) = permits c - zsum slow (c_thr c) /\
  forall c', step next c c' -> permit_step (permits c) (permits c').
Proof.
  intros Hd Hlong Hthr Hr. destruct (run_inv v n progs d Hd Hlong Hthr c Hr) as [I Ho].
  split_and!.
  - by apply inv_no_crash.
  - destruct (run_inv v n progs d Hd Hlong Hthr _ (rtc_refl _ _)) as [_ Hv].
    unfold permits. rewrite Hv. unfold start; simpl. rewrite !isum_fmap.
    rewrite !(proj2 (isum_zero _ _)) by done. lia.
  - by apply permits_nonneg.
  - pose proof (inv_value _ _ I). unfold permits. lia.
  - intros c'. by apply permits_step.
Qed.

(** [C13] No run goes on for ever, and when no thread can move, either every
    program has finished, or the threads that are left sleep without a
    time-out because every permit has been taken: no wake-up is lost. *)
Theorem semaphore_live v n progs d :
  dispatch_semaphore_create v = Some d ->
  v + Z.of_nat (signals progs) <= LONG_MAX -> Z.of_nat (length progs) < 2 ^ 62 ->
  sn (step next) (start d n progs) /\
  forall c, rtc (step next) (start d n progs) c -> nf (step next) c ->
    (forall i l, c_thr c !! i = Some l -> (t_pc l = Idle /\ todo l = []) \/ t_pc l = KSleep) /\
    ((exists i l, c_thr c !! i = Some l /\ t_pc l = KSleep) -> permits c = 0).
Proof.
  intros Hd Hlong Hthr. split.
  - apply (sn_measure next (fun _ => True) measure); [|done]. intros. split; [done|]. by apply sema_measure_step.
  - intros c Hr Hnf. destruct (run_inv v n progs d Hd Hlong Hthr c Hr) as [I Ho]. destruct c as [s ls].
    split.
    + intros i l Hl. destruct (stuck_threads s ls i l I Hnf Hl) as [?|[? _]]; auto.
    + intros (i & l & Hl & Hpc). destruct (stuck_no_permit s ls i l I Hnf Hl Hpc) as [Hg _].
      unfold permits; simpl in *. lia.
Qed.

(** Once its clients have finished a semaphore may be disposed of exactly
    when they have given back as many permits as they took. *)
Theorem semaphore_dispose v n progs d c :
  dispatch_semaphore_create v = Some d ->
  v + Z.of_nat (signals progs) <= LONG_MAX -> Z.of_nat (length progs) < 2 ^ 62 ->
  rtc (step next) (start d n progs) c ->
  (forall i l, c_thr c !! i = Some l -> t_pc l = Idle) ->
  dispatch_semaphore_dispose (dsema (c_sh c)) = Ok (dsema_sema (dsema (c_sh c))) <->
  zsum got (c_thr c) <= zsum sent (c_thr c).
Proof.
  intros Hd Hlong Hthr Hr Hidle. destruct (run_inv v n progs d Hd Hlong Hthr c Hr) as [I Ho].
  assert (tsum slow (c_thr c) = 0%nat) as Hs.
  { apply isum_zero. intros i l Hl. unfold slow. by rewrite (Hidle i l Hl). }
  pose proof (inv_value _ _ I). unfold dispatch_semaphore_dispose.
  destruct (Z.ltb_spec (dsema_value (dsema (c_sh c))) (dsema_orig (dsema (c_sh c)))); split; try done; lia.
Qed.

(** *** A run with two waiters, one of them with a time-out *)

Definition demo_progs : list (list call) :=
  [[Wait DISPATCH_TIME_FOREVER]; [Wait 5]; [Signal]].
Definition demo_sema : dispatch_semaphore_s :=
  {| dsema_value := 0; dsema_orig := 0; dsema_sema := None |}.

(** Both waiters sleep; the time of the second is up just before the signal,
    which wakes the first. *)
Definition demo_sched : list (nat * nat) :=
  [(0, 0); (0, 0); (0, 0); (1, 0); (1, 0); (1, 0); (1, 0); (1, 0);
   (2, 0); (1, 0); (1, 0); (2, 0); (2, 0); (0, 0)]%nat.

Example sema_demo_run :
  (fun c => (log <$> c_thr c, dsema_value (dsema (c_sh c)))) <$>
    exec next demo_sched (start demo_sema 0 demo_progs)
  = Some ([[Waited 0]; [Waited 49]; [Signaled 1]], 0).
Proof. vm_compute. reflexivity. Qed.

Definition demo_end : conf shared thread :=
  default (start demo_sema 0 demo_progs) (exec next demo_sched (start demo_sema 0 demo_progs)).

Lemma demo_reachable : rtc (step next) (start demo_sema 0 demo_progs) demo_end.
Proof. apply (exec_rtc next demo_sched). vm_compute. reflexivity. Qed.

Lemma semaphore_refines_witness : ~ may_crash next demo_end /\ 0 <= permits demo_end.
Proof.
  destruct (semaphore_refines 0 0 demo_progs demo_sema demo_end) as (H1 & _ & H2 & _).
  - reflexivity.
  - vm_compute; discriminate.
  - vm_compute; reflexivity.
  - exact demo_reachable.
  - exact (conj H1 H2).
Defined.

Lemma semaphore_live_witness : sn (step next) (start demo_sema 3 demo_progs).
Proof.
  apply (semaphore_live 0 3 demo_progs demo_sema).
  - reflexivity.
  - vm_compute; discriminate.
  - vm_compute; reflexivity.
Defined.

Lemma semaphore_dispose_witness : dispatch_semaphore_dispose (dsema (c_sh demo_end)) =
  Ok (Some {| count := -1; waitq := [] |}).
Proof.
  apply (semaphore_dispose 0 0 demo_progs demo_sema demo_end).
  - reflexivity.
  - vm_compute; discriminate.
  - vm_compute; reflexivity.
  - exact demo_reachable.
  - intros [|[|[|i]]] l Hl; revert Hl; vm_compute; intros [= <-]; reflexivity.
  - vm_compute; discriminate.
Defined.
