(* ===== verification/Ulock.v ===== *)
(** * User locks in the kernel

    [__ulock_wait] and [__ulock_wake] of xnu (bsd/kern/sys_ulock.c), on which
    the locks, the once-gates and the groups of libdispatch sleep, and the
    wrappers [_dlock_wait] and [_dlock_wake] of libdispatch
    (src/shims/lock.c).

    The kernel keeps one [ull_t] per address that has waiters.  Each call
    does its work under the spin lock of that object, in which it also reads
    the memory word, so each is one step here; a thread that sleeps comes
    back in a second step ([ulock_wait_continue]).  Threads are numbered; the
    wait queue wakes any of its threads, whatever their priorities. *)

From S2P Require Import Conc Prelude.

Module Ulock.

Inductive opcode := UL_COMPARE_AND_WAIT | UL_UNFAIR_LOCK.

#[export] Instance opcode_eq_dec : EqDecision opcode.
Proof. solve_decision. Defined.

(** [ull_t]: [ull_waitq] are the threads asleep on its turnstile, and
    [ull_nwaiters] counts these and the ones that are on their way out. *)
Record ull := {
  ull_owner : option nat;
  ull_nwaiters : Z;
  ull_opcode : opcode;
  ull_waitq : list nat
}.

(** Values of [errno]. *)
Definition ENOENT : Z := 2.
Definition EINTR : Z := 4.
Definition EFAULT : Z := 14.
Definition EDOM : Z := 33.
Definition ETIMEDOUT : Z := 60.
Definition ENOTEMPTY : Z := 66.
Definition EOWNERDEAD : Z := 105.

Definition MACH_PORT_DEAD : Z := 2 ^ 32 - 1.

Section ulock.
  (** The port names of the threads of the process. *)
  Context (tids : list Z).

Definition ulock_owner_value_to_port_name (uval : Z) : Z := Z.lor uval 3.

(** [port_name_to_thread] with [PORT_TO_THREAD_IN_CURRENT_TASK] and
    [PORT_TO_THREAD_NOT_CURRENT_THREAD]. *)
Definition port_name_to_thread (name : Z) (self : nat) : option nat :=
  match list_find (fun t => t = name) tids with
  | Some (j, _) => if bool_decide (j = self) then None else Some j
  | None => None
  end.

(** [ulock_resolve_owner]: the owner, or no owner when the port is dead, or
    [EOWNERDEAD]. *)
Definition ulock_resolve_owner (self : nat) (value : Z) : sum (option nat) Z :=
  let owner_name := ulock_owner_value_to_port_name value in
  match port_name_to_thread owner_name self with
  | Some j => inl (Some j)
  | None => if owner_name =? MACH_PORT_DEAD then inl None else inr EOWNERDEAD
  end.

(** [ulock_wait_cleanup]: the number of waiters that stay, and the object,
    which is no longer found when there are none. *)
Definition ulock_wait_cleanup (u : ull) : option ull * Z :=
  let n := ull_nwaiters u - 1 in
  if n =? 0 then (None, n)
  else (Some {| ull_owner := ull_owner u; ull_nwaiters := n;
                ull_opcode := ull_opcode u; ull_waitq := ull_waitq u |}, n).

Inductive wait_outcome :=
  | Asleep
  | Returned (retval : Z).

(** [ulock_wait2] up to the point where the thread sleeps or returns: [mem]
    is the word, [value] what the caller expects there. *)
Definition ulock_wait (op : opcode) (self : nat) (mem value : Z) (u : option ull) :
    option ull * wait_outcome :=
  let u := default {| ull_owner := None; ull_nwaiters := 0; ull_opcode := op; ull_waitq := [] |} u in
  let u := {| ull_owner := ull_owner u; ull_nwaiters := ull_nwaiters u + 1;
              ull_opcode := ull_opcode u; ull_waitq := ull_waitq u |} in
  let out_locked (ret : Z) :=
    let '(u', n) := ulock_wait_cleanup u in
    (u', Returned (if ret =? 0 then n else - ret)) in
  let sleep (owner : option nat) :=
    (Some {| ull_owner := owner; ull_nwaiters := ull_nwaiters u;
             ull_opcode := ull_opcode u; ull_waitq := ull_waitq u ++ [self] |}, Asleep) in
  if negb (bool_decide (ull_opcode u = op)) then out_locked EDOM
  else if negb (mem =? value) then out_locked 0
  else match op with
       | UL_UNFAIR_LOCK =>
           match ulock_resolve_owner self value with
           | inr ret => out_locked ret
           | inl owner => sleep owner
           end
       | UL_COMPARE_AND_WAIT => sleep (ull_owner u)
       end.

(** [ulock_wait_continue] after [THREAD_AWAKENED] ([ret] is 0) or an
    interruption ([ret] is [EINTR]). *)
Definition ulock_wait_continue (ret : Z) (u : ull) : option ull * Z :=
  let '(u', n) := ulock_wait_cleanup u in
  (u', if ret =? 0 then n else - ret).

(** [ulock_wake], with [all] for [ULF_WAKE_ALL]: the objects it may leave
    behind, and what it returns. *)
Definition ulock_wake (op : opcode) (all : bool) (self : nat) (u : option ull) : list (option ull * Z) :=
  match u with
  | None => [(None, - ENOENT)]
  | Some u =>
      let set_owner := bool_decide (op = UL_UNFAIR_LOCK) in
      let left owner q := Some {| ull_owner := if set_owner then owner else ull_owner u;
                                  ull_nwaiters := ull_nwaiters u;
                                  ull_opcode := ull_opcode u; ull_waitq := q |} in
      if negb (bool_decide (ull_opcode u = op)) then [(Some u, - EDOM)]
      else if set_owner && negb (bool_decide (ull_owner u = Some self)) then [(Some u, 0)]
      else if all then [(left None [], 0)]
      else if bool_decide (ull_waitq u = []) then [(left None [], 0)]
      else (fun w => (left (Some w) (leave w (ull_waitq u)), 0)) <$> ull_waitq u
  end.

End ulock.

(** ** The wrappers of libdispatch *)

Inductive dlock_ret :=
  | WaitAgain
  | WaitDone (rc : Z)
  | WaitCrash.

(** The body of the loop of [_dlock_wait], for a return value of
    [__ulock_wait]. *)
Definition dlock_wait_ret (timeout rc : Z) : dlock_ret :=
  if rc >? 0 then WaitDone ENOTEMPTY
  else if - rc =? 0 then WaitDone 0
  else if - rc =? EINTR then (if timeout =? 0 then WaitAgain else WaitDone (- rc))
  else if (- rc =? ETIMEDOUT) || (- rc =? EFAULT) then WaitDone (- rc)
  else WaitCrash.

(** [_dlock_wake]. *)
Definition dlock_wake_ret (rc : Z) : res unit :=
  if (rc =? 0) || (rc =? - ENOENT) then Ok tt else Crash AssertFail.

End Ulock.
