(* ===== verification/Lock.v ===== *)
(** * Unfair locks

    [dispatch_unfair_lock_t] of libdispatch (src/shims/lock.h and
    src/shims/lock.c) in its macOS form: a 32-bit word with the port name of
    the owner, whose two low bits, always set in a port name, say instead
    that there are waiters and that a try-lock has failed.  Threads that
    find it locked sleep in the kernel (Ulock.v).

    The clients modelled here are well behaved: each runs a list of critical
    sections, entered with [lock] or [trylock] (and skipped when that fails)
    and left with [unlock] or with [tryunlock], tried again as long as it
    fails. *)

From S2P Require Import Conc Ulock Prelude.

Module LockWord.

Definition DLOCK_OWNER_MASK : Z := 0xfffffffc.
Definition DLOCK_WAITERS_BIT : Z := 1.
Definition DLOCK_FAILED_TRYLOCK_BIT : Z := 2.
Definition DLOCK_OWNER_NULL : Z := 0.

Definition dispatch_lock_owner (lock_value : Z) : Z :=
  if negb (Z.land lock_value DLOCK_OWNER_MASK =? 0)
  then Z.lor (Z.lor lock_value DLOCK_WAITERS_BIT) DLOCK_FAILED_TRYLOCK_BIT
  else DLOCK_OWNER_NULL.

Definition dispatch_lock_value_from_tid (tid : Z) : Z := Z.land tid DLOCK_OWNER_MASK.

Definition dispatch_lock_is_locked (lock_value : Z) : bool :=
  negb (Z.land lock_value DLOCK_OWNER_MASK =? 0).

Definition dispatch_lock_is_locked_by (lock_value tid : Z) : bool :=
  Z.land (Z.lxor lock_value tid) DLOCK_OWNER_MASK =? 0.

Definition dispatch_lock_has_waiters (lock_value : Z) : bool :=
  negb (Z.land lock_value DLOCK_WAITERS_BIT =? 0).

Definition dispatch_lock_has_failed_trylock (lock_value : Z) : bool :=
  negb (Z.land lock_value DLOCK_FAILED_TRYLOCK_BIT =? 0).

End LockWord.

Module Lock.
Import LockWord Ulock.

(** The shared state: the word, the kernel's object for its address, and how
    many interruptions of sleeping threads are still to come. *)
Record shared := { dul_lock : Z; ulk : option ull; intr : nat }.

Definition set_lock (v : Z) (s : shared) : shared :=
  {| dul_lock := v; ulk := ulk s; intr := intr s |}.
Definition set_ulk (u : option ull) (s : shared) : shared :=
  {| dul_lock := dul_lock s; ulk := u; intr := intr s |}.

(** A critical section of a client. *)
Record section := { by_trylock : bool; by_tryunlock : bool }.

Inductive event :=
  | Acquired
  | TryFailed (owner : Z)
  | Released (had_failed_trylock : bool)
  | Renewed.                         (* tryunlock returned false *)

Inductive pc :=
  | Idle
  | LockSlow (nxt : Z)               (* the rmw loop of lock_slow, with its variable next *)
  | LockWait (nxt new_value : Z)     (* entry of _dispatch_unfair_lock_wait *)
  | LockSleep (nxt new_value : Z)    (* asleep in the kernel, or woken *)
  | LockIntr (nxt new_value : Z)     (* interrupted, still in the kernel *)
  | Critical                         (* holds the lock *)
  | UnlockSlow (cur : Z) (had : bool). (* entry of unlock_slow *)

Record thread := { t_pc : pc; todo : list section; rel : bool; log : list event }.

Inductive ctl :=
  | Goto (p : pc)
  | Emit (p : pc) (e : event).

Section lock.
  Context (tids : list Z).

(** [_dispatch_tid_self] and [_dispatch_lock_value_for_self]. *)
Definition tid_self (i : nat) : Z := default 0 (tids !! i).
Definition value_for_self (i : nat) : Z := dispatch_lock_value_from_tid (tid_self i).

(** [_dispatch_unfair_lock_lock]. *)
Definition dispatch_unfair_lock_lock (i : nat) (s : shared) : shared * ctl :=
  let value_self := value_for_self i in
  if dul_lock s =? DLOCK_OWNER_NULL then (set_lock value_self s, Emit Critical Acquired)
  else (s, Goto (LockSlow value_self)).

(** The body of the rmw loop of [_dispatch_unfair_lock_lock_slow]; its result
    is [new_value]. *)
Definition lock_slow_body (nxt old_value : Z) : rmw_out Z :=
  if negb (dispatch_lock_is_locked old_value) then Swap nxt nxt
  else
    let new_value := Z.lor old_value DLOCK_WAITERS_BIT in
    if new_value =? old_value then GiveUp new_value else Swap new_value new_value.

(** [_dispatch_unfair_lock_lock_slow] from the top of its loop to the wait. *)
Definition lock_slow (i : nat) (nxt : Z) (s : shared) : res (shared * ctl) :=
  let value_self := value_for_self i in
  let '(mem, old_value, new_value) := rmw_atomic (lock_slow_body nxt) (dul_lock s) in
  let s := set_lock mem s in
  if dispatch_lock_is_locked_by old_value value_self then Crash AssertFail
  else if new_value =? nxt then Ok (s, Emit Critical Acquired)
  else Ok (s, Goto (LockWait nxt new_value)).

(** The end of the loop of [_dispatch_unfair_lock_lock_slow], when
    [__ulock_wait] returns [rc]. *)
Definition lock_slow_waited (nxt new_value rc : Z) (s : shared) : res (shared * ctl) :=
  match dlock_wait_ret 0 rc with
  | WaitDone rc =>
      let nxt := if rc =? ENOTEMPTY then Z.lor nxt DLOCK_WAITERS_BIT else nxt in
      Ok (s, Goto (LockSlow nxt))
  | WaitAgain => Ok (s, Goto (LockWait nxt new_value))
  | WaitCrash => Crash AssertFail
  end.

(** [_dispatch_unfair_lock_wait] enters the kernel. *)
Definition lock_wait (i : nat) (nxt new_value : Z) (s : shared) : res (shared * ctl) :=
  match ulock_wait tids UL_UNFAIR_LOCK i (dul_lock s) new_value (ulk s) with
  | (u, Asleep) => Ok (set_ulk u s, Goto (LockSleep nxt new_value))
  | (u, Returned rc) => lock_slow_waited nxt new_value rc (set_ulk u s)
  end.

(** The thread comes back from the kernel. *)
Definition lock_continue (ret nxt new_value : Z) (s : shared) : res (shared * ctl) :=
  match ulk s with
  | None => Crash AssertFail
  | Some u =>
      let '(u', rc) := ulock_wait_continue ret u in
      lock_slow_waited nxt new_value rc (set_ulk u' s)
  end.

(** A sleeping thread: in the queue it can only be interrupted. *)
Definition lock_sleep (i : nat) (nxt new_value : Z) (s : shared) : list (res (shared * ctl)) :=
  match ulk s with
  | None => [Crash AssertFail]
  | Some u =>
      if bool_decide (i ∈ ull_waitq u) then
        match intr s with
        | O => []
        | S n =>
            let u' := {| ull_owner := ull_owner u; ull_nwaiters := ull_nwaiters u;
                         ull_opcode := ull_opcode u; ull_waitq := leave i (ull_waitq u) |} in
            [Ok ({| dul_lock := dul_lock s; ulk := Some u'; intr := n |}, Goto (LockIntr nxt new_value))]
        end
      else [lock_continue 0 nxt new_value s]
  end.

(** [_dispatch_unfair_lock_trylock]. *)
Definition trylock_body (value_self old_value : Z) : rmw_out Z :=
  let new_value := if negb (dispatch_lock_is_locked old_value) then value_self
                   else Z.lor old_value DLOCK_FAILED_TRYLOCK_BIT in
  Swap new_value new_value.

Definition dispatch_unfair_lock_trylock (i : nat) (s : shared) : shared * ctl :=
  let '(mem, old_value, new_value) := rmw_atomic (trylock_body (value_for_self i)) (dul_lock s) in
  let s := set_lock mem s in
  if negb (dispatch_lock_is_locked old_value) then (s, Emit Critical Acquired)
  else (s, Emit Idle (TryFailed (dispatch_lock_owner new_value))).

(** [_dispatch_unfair_lock_tryunlock]. *)
Definition tryunlock_body (old_value : Z) : rmw_out Z :=
  let new_value := if negb (Z.land old_value DLOCK_FAILED_TRYLOCK_BIT =? 0)
                   then Z.lxor old_value DLOCK_FAILED_TRYLOCK_BIT
                   else DLOCK_OWNER_NULL in
  Swap new_value new_value.

Definition dispatch_unfair_lock_tryunlock (s : shared) : shared * ctl :=
  let '(mem, old_value, new_value) := rmw_atomic tryunlock_body (dul_lock s) in
  let s := set_lock mem s in
  if negb (new_value =? 0) then (s, Emit Critical Renewed)
  else if dispatch_lock_has_waiters old_value then (s, Goto (UnlockSlow old_value false))
  else (s, Emit Idle (Released false)).

(** [_dispatch_unfair_lock_unlock_had_failed_trylock]. *)
Definition dispatch_unfair_lock_unlock (i : nat) (s : shared) : shared * ctl :=
  let cur := dul_lock s in
  let s := set_lock DLOCK_OWNER_NULL s in
  if cur =? value_for_self i then (s, Emit Idle (Released false))
  else (s, Goto (UnlockSlow cur (dispatch_lock_has_failed_trylock cur))).

(** [_dispatch_unfair_lock_unlock_slow]. *)
Definition unlock_slow (i : nat) (cur : Z) (had : bool) (s : shared) : list (res (shared * ctl)) :=
  if negb (dispatch_lock_is_locked_by cur (tid_self i)) then [Crash AssertFail]
  else if dispatch_lock_has_waiters cur then
    (fun '(u, rc) => let! _ := dlock_wake_ret rc in Ok (set_ulk u s, Emit Idle (Released had)))
      <$> ulock_wake UL_UNFAIR_LOCK false i (ulk s)
  else [Ok (s, Emit Idle (Released had))].

(** The next step at [p]; [tryun] is how the critical section is left. *)
Definition pc_next (i : nat) (tryun : bool) (s : shared) (p : pc) : list (res (shared * ctl)) :=
  match p with
  | Idle => []
  | LockSlow nxt => [lock_slow i nxt s]
  | LockWait nxt v => [lock_wait i nxt v s]
  | LockSleep nxt v => lock_sleep i nxt v s
  | LockIntr nxt v => [lock_continue EINTR nxt v s]
  | Critical => [Ok (if tryun then dispatch_unfair_lock_tryunlock s else dispatch_unfair_lock_unlock i s)]
  | UnlockSlow cur had => unlock_slow i cur had s
  end.

Definition go (l : thread) (c : ctl) : thread :=
  match c with
  | Goto p => {| t_pc := p; todo := todo l; rel := rel l; log := log l |}
  | Emit p e => {| t_pc := p; todo := todo l; rel := rel l; log := log l ++ [e] |}
  end.

Definition continue (l : thread) (r : res (shared * ctl)) : res (shared * thread) :=
  let! (s, c) := r in Ok (s, go l c).

(** The next step of a client: an idle one enters its next section. *)
Definition next (i : nat) (s : shared) (l : thread) : list (res (shared * thread)) :=
  match t_pc l with
  | Idle =>
      match todo l with
      | [] => []
      | sec :: rest =>
          [continue {| t_pc := Idle; todo := rest; rel := by_tryunlock sec; log := log l |}
             (Ok (if by_trylock sec then dispatch_unfair_lock_trylock i s
                  else dispatch_unfair_lock_lock i s))]
      end
  | p => continue l <$> pc_next i (rel l) s p
  end.

End lock.

(** Clients of a lock that nobody holds. *)
Definition start (n : nat) (progs : list (list section)) : conf shared thread :=
  Conf {| dul_lock := DLOCK_OWNER_NULL; ulk := None; intr := n |}
       ((fun secs => {| t_pc := Idle; todo := secs; rel := false; log := [] |}) <$> progs).

End Lock.

(** ** Lock words

    The word [4 a + b] of a lock has owner [a] and flag bits [b]; the tests of
    src/shims/lock.h on such words. *)


Definition wd (a b : Z) : Z := 4 * a + b.

Lemma wd_shift a b : 0 <= b < 4 -> wd a b = Z.lor (Z.shiftl a 2) b.
Proof. intros Hb. rewrite lor_shift by lia. unfold wd. lia. Qed.

Lemma low_or b c : 0 <= b < 4 -> 0 <= c < 4 -> 0 <= Z.lor b c < 4 /\ 0 <= Z.lxor b c < 4.
Proof.
  intros Hb Hc. assert (b = 0 \/ b = 1 \/ b = 2 \/ b = 3) as [->|[->|[->| ->]]] by lia;
  assert (c = 0 \/ c = 1 \/ c = 2 \/ c = 3) as [->|[->|[->| ->]]] by lia; by vm_compute.
Qed.

Lemma wd_lor a b c : 0 <= b < 4 -> 0 <= c < 4 -> Z.lor (wd a b) c = wd a (Z.lor b c).
Proof.
  intros Hb Hc. pose proof (low_or b c Hb Hc).
  rewrite !wd_shift by lia. by rewrite Z.lor_assoc.
Qed.

Lemma wd_land_low a b c : 0 <= b < 4 -> 0 <= c < 4 -> Z.land (wd a b) c = Z.land b c.
Proof.
  intros Hb Hc. rewrite wd_shift, Z.land_lor_distr_l by lia.
  assert (Z.land (Z.shiftl a 2) c = 0) as ->; [|by rewrite Z.lor_0_l].
  apply Z.bits_inj'. intros n Hn. rewrite Z.land_spec, Z.bits_0.
  destruct (Z.ltb_spec n 2).
  - rewrite Z.shiftl_spec_low by lia. done.
  - destruct (Z.eq_dec c 0) as [->|]; [by rewrite Z.bits_0, andb_false_r|].
    rewrite (Z.bits_above_log2 c n), andb_false_r; [done|lia|].
    apply Z.le_lt_trans with 1; [|lia]. change 1 with (Z.log2 3). apply Z.log2_le_mono. lia.
Qed.

Lemma wd_lxor a b c : 0 <= b < 4 -> 0 <= c < 4 -> Z.lxor (wd a b) c = wd a (Z.lxor b c).
Proof.
  intros Hb Hc. pose proof (low_or b c Hb Hc). unfold wd at 2.
  assert (forall x y, 0 <= y < 4 -> 4 * x + y = Z.lxor (Z.shiftl x 2) y) as Hx.
  { intros x y Hy. rewrite <- Z.add_nocarry_lxor.
    - rewrite Z.shiftl_mul_pow2 by lia. lia.
    - pose proof (wd_land_low x 0 y ltac:(lia) Hy) as Hz. rewrite wd_shift, Z.lor_0_r in Hz by lia.
      rewrite Hz. apply Z.land_0_l. }
  unfold wd. rewrite (Hx a b Hb), (Hx a (Z.lxor b c)) by lia. apply Z.lxor_assoc.
Qed.

Lemma land_owner_mask z : 0 <= z < 2 ^ 32 -> Z.land z LockWord.DLOCK_OWNER_MASK = 4 * (z / 4).
Proof.
  intros Hz. change LockWord.DLOCK_OWNER_MASK with ((2 ^ 30 - 1) * 2 ^ 2).
  rewrite land_field by lia. change (2 ^ 2) with 4.
  rewrite Z.mod_small; [lia|]. split; [apply Z.div_pos; lia|]. apply Z.div_lt_upper_bound; lia.
Qed.

Lemma wd_div a b : 0 <= b < 4 -> wd a b / 4 = a.
Proof. intros. unfold wd. zbits. Qed.

Section words.
Import LockWord.

  Context (a b : Z) (Ha : 0 <= a < 2 ^ 30) (Hb : 0 <= b < 4).

Lemma wd_range : 0 <= wd a b < 2 ^ 32.
Proof. unfold wd. lia. Qed.

Lemma value_from_tid_wd : dispatch_lock_value_from_tid (wd a b) = wd a 0.
Proof.
  unfold dispatch_lock_value_from_tid. rewrite land_owner_mask by apply wd_range.
  rewrite wd_div by done. unfold wd. lia.
Qed.

Lemma is_locked_wd : dispatch_lock_is_locked (wd a b) = negb (a =? 0).
Proof.
  unfold dispatch_lock_is_locked. rewrite land_owner_mask by apply wd_range.
  rewrite wd_div by done. f_equal. destruct (Z.eqb_spec a 0), (Z.eqb_spec (4 * a) 0); lia.
Qed.

Lemma is_locked_by_wd a' b' :
  0 <= a' < 2 ^ 30 -> 0 <= b' < 4 ->
  dispatch_lock_is_locked_by (wd a b) (wd a' b') = (a =? a').
Proof.
  intros Ha' Hb'. unfold dispatch_lock_is_locked_by.
  assert (forall x y, 0 <= x < 2 ^ 30 -> 0 <= y < 4 -> Z.land (wd x y) DLOCK_OWNER_MASK = Z.shiftl x 2) as Hm.
  { intros x y Hx Hy. rewrite land_owner_mask by (unfold wd; lia). rewrite wd_div by done.
    rewrite Z.shiftl_mul_pow2 by lia. lia. }
  rewrite Z.land_comm.
  assert (Z.land DLOCK_OWNER_MASK (Z.lxor (wd a b) (wd a' b')) =
          Z.lxor (Z.shiftl a 2) (Z.shiftl a' 2)) as ->.
  { rewrite <- (Hm a b), <- (Hm a' b') by done. apply Z.bits_inj'. intros n Hn.
    rewrite !Z.land_spec, !Z.lxor_spec, !Z.land_spec.
    destruct (Z.testbit DLOCK_OWNER_MASK n), (Z.testbit (wd a b) n), (Z.testbit (wd a' b') n); done. }
  destruct (Z.eqb_spec a a') as [->|Hne].
  - by rewrite Z.lxor_nilpotent.
  - apply Z.eqb_neq. intros H0%Z.lxor_eq. rewrite !Z.shiftl_mul_pow2 in H0 by lia. lia.
Qed.

Lemma has_waiters_wd : dispatch_lock_has_waiters (wd a b) = Z.odd b.
Proof.
  unfold dispatch_lock_has_waiters, DLOCK_WAITERS_BIT. rewrite wd_land_low by lia.
  assert (b = 0 \/ b = 1 \/ b = 2 \/ b = 3) as [->|[->|[->| ->]]] by lia; done.
Qed.

Lemma has_failed_wd : dispatch_lock_has_failed_trylock (wd a b) = (2 <=? b).
Proof.
  unfold dispatch_lock_has_failed_trylock, DLOCK_FAILED_TRYLOCK_BIT. rewrite wd_land_low by lia.
  assert (b = 0 \/ b = 1 \/ b = 2 \/ b = 3) as [->|[->|[->| ->]]] by lia; done.
Qed.

End words.

Lemma wd_inj a b a' b' : 0 <= b < 4 -> 0 <= b' < 4 -> wd a b = wd a' b' -> a = a' /\ b = b'.
Proof. unfold wd. lia. Qed.

Lemma wd_odd a b : Z.odd (wd a b) = Z.odd b.
Proof. unfold wd. rewrite Z.odd_add, Z.odd_mul. by destruct (Z.odd b). Qed.

Lemma odd_lor_1 b : Z.odd (Z.lor b 1) = true.
Proof. by rewrite <- Z.bit0_odd, Z.lor_spec, orb_true_r. Qed.

(** ** Port names

    The kernel gives out port names with both low bits set; 3 is the null
    port and the largest one is the dead port. *)

Definition tids_ok (tids : list Z) : Prop :=
  NoDup tids /\ Forall (fun t => Z.land t 3 = 3 /\ 3 < t < Ulock.MACH_PORT_DEAD) tids.

#[export] Instance tids_ok_dec tids : Decision (tids_ok tids).
Proof. unfold tids_ok. apply _. Defined.

Section tids.
Import LockWord Ulock Lock.

  Context (tids : list Z) (Htids : tids_ok tids).

(** The owner part of the words that thread [i] writes. *)
Definition key (i : nat) : Z := tid_self tids i / 4.

Lemma tid_wd i : (i < length tids)%nat ->
  tid_self tids i = wd (key i) 3 /\ 0 < key i < 2 ^ 30 - 1.
Proof.
  intros Hi. destruct (lookup_lt_is_Some_2 tids i Hi) as [t Ht].
  unfold key, tid_self. rewrite Ht. simpl.
  destruct Htids as [_ Hall]. destruct (proj1 (Forall_lookup _ _) Hall i t Ht) as [Hl Hr].
  change 3 with (2 ^ 2 - 1) in Hl at 1. rewrite land_mask in Hl by lia.
  unfold MACH_PORT_DEAD in Hr. unfold wd. zbits.
Qed.

Lemma key_inj i j : (i < length tids)%nat -> (j < length tids)%nat -> key i = key j -> i = j.
Proof.
  intros Hi Hj Hk. destruct (tid_wd i Hi) as [Ti _], (tid_wd j Hj) as [Tj _].
  rewrite Hk, <- Tj in Ti. unfold tid_self in Ti.
  destruct (lookup_lt_is_Some_2 tids i Hi) as [t Ht], (lookup_lt_is_Some_2 tids j Hj) as [t' Ht'].
  rewrite Ht, Ht' in Ti. simpl in Ti. subst t'.
  destruct Htids as [Hnd _]. by eapply NoDup_lookup.
Qed.

Lemma value_for_self_wd i : (i < length tids)%nat -> value_for_self tids i = wd (key i) 0.
Proof.
  intros Hi. destruct (tid_wd i Hi) as [Ht Hk]. unfold value_for_self. rewrite Ht.
  apply value_from_tid_wd; lia.
Qed.

(** The kernel finds the owner of a word. *)
Lemma resolve_owner_wd i h b :
  (h < length tids)%nat -> h <> i -> 0 <= b < 4 ->
  ulock_resolve_owner tids i (wd (key h) b) = inl (Some h).
Proof.
  intros Hh Hne Hb. unfold ulock_resolve_owner, ulock_owner_value_to_port_name, port_name_to_thread.
  rewrite wd_lor by lia.
  assert (Z.lor b 3 = 3) as ->.
  { assert (b = 0 \/ b = 1 \/ b = 2 \/ b = 3) as [->|[->|[->| ->]]] by lia; done. }
  destruct (tid_wd h Hh) as [<- _].
  destruct (lookup_lt_is_Some_2 tids h Hh) as [t Ht].
  assert (tid_self tids h = t) as -> by (unfold tid_self; by rewrite Ht).
  assert (list_find (fun x => x = t) tids = Some (h, t)) as ->.
  { apply list_find_Some. split_and!; [done..|]. intros j y Hy Hj ->.
    destruct Htids as [Hnd _]. pose proof (NoDup_lookup _ _ _ _ Hnd Ht Hy). lia. }
  by rewrite bool_decide_false.
Qed.

End tids.

(** ** The kernel's lock objects, seen from user space

    What [__ulock_wait] and [__ulock_wake] do to the object of an address,
    in terms of its owner, its queue and its number of waiters. *)

Import Ulock.

Definition nwaiters (u : option ull) : Z := match u with Some u => ull_nwaiters u | None => 0 end.
Definition wq (u : option ull) : list nat := match u with Some u => ull_waitq u | None => [] end.
Definition owner (u : option ull) : option nat := match u with Some u => ull_owner u | None => None end.

(** An object exists only as long as it has waiters, all of one kind. *)
Definition ull_ok (op : opcode) (u : option ull) : Prop :=
  match u with Some u => 0 < ull_nwaiters u /\ ull_opcode u = op | None => True end.

(** The word has changed: the caller learns how many threads wait. *)
Lemma ulock_wait_mismatch tids op i mem v u :
  ull_ok op u -> mem <> v -> ulock_wait tids op i mem v u = (u, Returned (nwaiters u)).
Proof.
  intros Hu Hne. unfold ulock_wait, ulock_wait_cleanup.
  destruct u as [[o n op' q]|]; simpl in *.
  - destruct Hu as [Hn ->]. rewrite bool_decide_true, (proj2 (Z.eqb_neq mem v)) by done. simpl.
    rewrite Z.add_simpl_r, (proj2 (Z.eqb_neq n 0)) by lia. done.
  - by rewrite bool_decide_true, (proj2 (Z.eqb_neq mem v)) by done.
Qed.

(** The thread goes to sleep. *)
Definition joined (op : opcode) (i : nat) (o : option nat) (u : option ull) (u' : ull) : Prop :=
  ull_owner u' = o /\ ull_nwaiters u' = nwaiters u + 1 /\
  ull_opcode u' = op /\ ull_waitq u' = wq u ++ [i].

Lemma ulock_wait_match tids (Htids : tids_ok tids) i h b u :
  ull_ok UL_UNFAIR_LOCK u -> (h < length tids)%nat -> h <> i -> 0 <= b < 4 ->
  exists u', ulock_wait tids UL_UNFAIR_LOCK i (wd (key tids h) b) (wd (key tids h) b) u = (Some u', Asleep) /\
    joined UL_UNFAIR_LOCK i (Some h) u u'.
Proof.
  intros Hu Hh Hne Hb. unfold ulock_wait.
  rewrite Z.eqb_refl, (resolve_owner_wd tids Htids) by done.
  destruct u as [[o n op q]|]; simpl in *; [destruct Hu as [Hn ->]|]; by eexists.
Qed.

Lemma ulock_wait_match_plain tids i v u :
  ull_ok UL_COMPARE_AND_WAIT u ->
  exists u', ulock_wait tids UL_COMPARE_AND_WAIT i v v u = (Some u', Asleep) /\
    joined UL_COMPARE_AND_WAIT i (owner u) u u'.
Proof.
  intros Hu. unfold ulock_wait. rewrite Z.eqb_refl.
  destruct u as [[o n op q]|]; simpl in *; [destruct Hu as [Hn ->]|]; by eexists.
Qed.

(** A thread that is no longer in the queue leaves. *)
Definition left_behind (op : opcode) (u : ull) (u' : option ull) : Prop :=
  nwaiters u' = ull_nwaiters u - 1 /\ ull_ok op u' /\ wq u' = ull_waitq u /\
  (ull_waitq u <> [] -> owner u' = ull_owner u) /\
  0 <= ull_nwaiters u - 1 /\ (ull_waitq u <> [] -> 0 < ull_nwaiters u - 1).

Lemma cleanup_ok op u :
  ull_ok op (Some u) -> Z.of_nat (length (ull_waitq u)) + 1 <= ull_nwaiters u ->
  exists u', ulock_wait_cleanup u = (u', ull_nwaiters u - 1) /\ left_behind op u u'.
Proof.
  intros [Hpos Hop] Hb.
  assert (ull_waitq u <> [] -> 0 < length (ull_waitq u))%nat by (destruct (ull_waitq u); simpl; [done|lia]).
  unfold ulock_wait_cleanup, left_behind. destruct (Z.eqb_spec (ull_nwaiters u - 1) 0) as [H0|H0].
  - assert (ull_waitq u = []) as Hq by (destruct (ull_waitq u); simpl in *; [done|lia]).
    exists None. rewrite Hq. split_and!; simpl; try done; lia.
  - eexists. split; [done|]. simpl. split_and!; try done; lia.
Qed.

Lemma wake_nonempty op all i u : ulock_wake op all i u <> [].
Proof.
  unfold ulock_wake. destruct u as [u|]; [|done].
  do 3 (case_match; [done|]). destruct (bool_decide (ull_waitq u = [])) eqn:Hq; [done|].
  apply bool_decide_eq_false in Hq. by intros ?%fmap_nil_inv.
Qed.


(** A thread in the kernel that is not queued is one more waiter. *)
Lemma queue_bound_self {Loc} (inside : Loc -> nat) ls u i l :
  nwaiters u = Z.of_nat (tsum inside ls) -> NoDup (wq u) ->
  (forall j, j ∈ wq u -> exists x, ls !! j = Some x /\ inside x = 1%nat) ->
  ls !! i = Some l -> inside l = 1%nat -> ~ i ∈ wq u ->
  Z.of_nat (length (wq u)) + 1 <= nwaiters u.
Proof.
  intros Hn Hnd Hq Hl Hin Hi. rewrite Hn.
  enough (length (i :: wq u) <= tsum inside ls)%nat by (simpl in *; lia).
  apply isum_NoDup; [by constructor|].
  intros j [->|Hj]%elem_of_cons; [exists l; split; [done|lia]|].
  destruct (Hq j Hj) as (x & Hx & Hs). exists x. split; [done|lia].
Qed.
