(* ===== verification/LockInv.v ===== *)
(** * The invariant of unfair locks

    At most one thread is in its critical section, and the word names it.
    As long as threads sleep in the kernel, the kernel's idea of the owner
    designates a thread that will wake one of them: the holder of a lock
    marked as contended, a thread that has just released such a lock, or a
    thread that has been woken and will mark the lock when it takes it. *)

From S2P Require Import Conc Ulock Lock Prelude.
Import LockWord Ulock Lock.

#[export] Instance lock_pc_eq_dec : EqDecision pc.
Proof. solve_decision. Defined.

(** Inside [__ulock_wait]. *)
Definition in_kernel (l : thread) : nat :=
  match t_pc l with LockSleep _ _ | LockIntr _ _ => 1 | _ => 0 end.
Definition is_sleep (p : pc) : bool := match p with LockSleep _ _ => true | _ => false end.

(** The thread that is to wake the sleepers [q]. *)
Definition token (word : Z) (q : list nat) (o : nat) (p : pc) : Prop :=
  match p with
  | Critical => Z.odd word = true
  | UnlockSlow cur _ => Z.odd cur = true
  | LockSlow nxt | LockWait nxt _ => Z.odd nxt = true
  | LockSleep _ _ => ~ o ∈ q
  | Idle | LockIntr _ _ => False
  end.

(** The two outcomes of the rmw loop of [_dispatch_unfair_lock_lock_slow]. *)
Lemma rmw_lock_slow nxt w :
  rmw_atomic (lock_slow_body nxt) w =
    if dispatch_lock_is_locked w then (Z.lor w DLOCK_WAITERS_BIT, w, Z.lor w DLOCK_WAITERS_BIT)
    else (nxt, w, nxt).
Proof.
  unfold rmw_atomic, lock_slow_body. destruct (dispatch_lock_is_locked w); simpl; [|done].
  destruct (Z.eqb_spec (Z.lor w DLOCK_WAITERS_BIT) w) as [He|]; [|done]. by rewrite He.
Qed.

Section inv.
  Context (tids : list Z) (Htids : tids_ok tids).

#[local] Abbreviation key := (key tids).

(** The variable [next] of a thread: itself, perhaps with the waiters bit. *)
Definition nxt_ok (i : nat) (nxt : Z) : Prop := exists c, 0 <= c < 2 /\ nxt = wd (key i) c.
(** A value to wait on: locked by another thread, and marked. *)
Definition wait_ok (i : nat) (v : Z) : Prop :=
  exists h b, (h < length tids)%nat /\ h <> i /\ 0 <= b < 4 /\ Z.odd b = true /\ v = wd (key h) b.

Definition pc_ok (i : nat) (p : pc) : Prop :=
  match p with
  | Idle | Critical => True
  | LockSlow nxt => nxt_ok i nxt
  | LockWait nxt v | LockSleep nxt v | LockIntr nxt v => nxt_ok i nxt /\ wait_ok i v
  | UnlockSlow cur _ => exists b, 0 <= b < 4 /\ cur = wd (key i) b
  end.

Record LInv (s : shared) (ls : list thread) : Prop := {
  li_len : length ls = length tids;
  li_word : dul_lock s = 0 \/
    exists h b, (h < length tids)%nat /\ 0 <= b < 4 /\ dul_lock s = wd (key h) b;
  li_owner : forall i l, ls !! i = Some l -> t_pc l = Critical <-> dul_lock s / 4 = key i;
  li_pc : forall i l, ls !! i = Some l -> pc_ok i (t_pc l);
  li_count : nwaiters (ulk s) = Z.of_nat (tsum in_kernel ls);
  li_ull : ull_ok UL_UNFAIR_LOCK (ulk s);
  li_nodup : NoDup (wq (ulk s));
  li_queue : forall i, i ∈ wq (ulk s) -> exists l, ls !! i = Some l /\ is_sleep (t_pc l) = true;
  li_token : wq (ulk s) <> [] -> exists o lo, owner (ulk s) = Some o /\ ls !! o = Some lo /\
    token (dul_lock s) (wq (ulk s)) o (t_pc lo)
}.

(** What a step of thread [i] may do. *)
Record lmoves (i : nat) (s : shared) (ls : list thread) (l : thread) (s' : shared) (l' : thread) : Prop := {
  lm_word : dul_lock s' = 0 \/
    exists h b, (h < length tids)%nat /\ 0 <= b < 4 /\ dul_lock s' = wd (key h) b;
  lm_owner : t_pc l' = Critical <-> dul_lock s' / 4 = key i;
  lm_change : dul_lock s' / 4 = dul_lock s / 4 \/ dul_lock s / 4 = 0 \/ dul_lock s / 4 = key i;
  lm_mine : dul_lock s' / 4 = dul_lock s / 4 \/ dul_lock s' / 4 = 0 \/ dul_lock s' / 4 = key i;
  lm_pc : pc_ok i (t_pc l');
  lm_count : nwaiters (ulk s') - nwaiters (ulk s) = Z.of_nat (in_kernel l') - Z.of_nat (in_kernel l);
  lm_ull : ull_ok UL_UNFAIR_LOCK (ulk s');
  lm_nodup : NoDup (wq (ulk s'));
  lm_queue : forall j, j ∈ wq (ulk s') -> j <> i -> j ∈ wq (ulk s);
  lm_self : i ∈ wq (ulk s') -> is_sleep (t_pc l') = true;
  lm_odd : t_pc l <> Critical -> Z.odd (dul_lock s) = true -> Z.odd (dul_lock s') = true;
  lm_token : wq (ulk s') <> [] ->
    (owner (ulk s') = owner (ulk s) /\ wq (ulk s) <> [] /\
     (owner (ulk s) = Some i -> token (dul_lock s) (wq (ulk s)) i (t_pc l) -> token (dul_lock s') (wq (ulk s')) i (t_pc l'))) \/
    exists o lo, owner (ulk s') = Some o /\ o <> i /\ ls !! o = Some lo /\
      token (dul_lock s') (wq (ulk s')) o (t_pc lo)
}.

Section step.
  Context (i : nat) (s : shared) (ls : list thread) (l : thread).
  Context (I : LInv s ls) (Hl : ls !! i = Some l).

Lemma thread_lt j x : ls !! j = Some x -> (j < length tids)%nat.
Proof. intros Hx. rewrite <- (li_len _ _ I). by eapply lookup_lt_Some. Qed.

Lemma key_range j x : ls !! j = Some x -> 0 < key j < 2 ^ 30 - 1.
Proof. intros Hx. by apply tid_wd, (thread_lt j x). Qed.

(** The thread is not the holder and does not sleep: its place says so. *)
Lemma lnot_queued : is_sleep (t_pc l) = false -> ~ i ∈ wq (ulk s).
Proof.
  intros H0 Hi. destruct (li_queue _ _ I i Hi) as (l2 & Hl2 & ?). congruence.
Qed.

Lemma lmoves_inv s' l' : lmoves i s ls l s' l' -> LInv s' (<[i := l']> ls).
Proof.
  intros M. pose proof (isum_insert (fun _ => in_kernel) ls i l l' Hl) as Hc.
  assert (forall j x, <[i := l']> ls !! j = Some x -> j = i /\ x = l' \/ j <> i /\ ls !! j = Some x) as Hins.
  { intros j x. by apply (lookup_moved ls i l). }
  assert (<[i := l']> ls !! i = Some l') as Hi by (apply list_lookup_insert_eq; by eapply lookup_lt_Some).
  split.
  - by rewrite length_insert, (li_len _ _ I).
  - apply (lm_word _ _ _ _ _ _ M).
  - intros j x [[-> ->]|[Hne Hx]]%Hins; [apply (lm_owner _ _ _ _ _ _ M)|].
    rewrite (li_owner _ _ I j x Hx). pose proof (key_range j x Hx). pose proof (key_range i l Hl).
    assert (key j <> key i) by (intros Hk; apply Hne, (key_inj tids Htids); eauto using thread_lt).
    destruct (lm_change _ _ _ _ _ _ M) as [|[|]], (lm_mine _ _ _ _ _ _ M) as [|[|]]; lia.
  - intros j x [[-> ->]|[Hne Hx]]%Hins; [apply (lm_pc _ _ _ _ _ _ M)|]. by apply (li_pc _ _ I).
  - pose proof (lm_count _ _ _ _ _ _ M). pose proof (li_count _ _ I). lia.
  - apply (lm_ull _ _ _ _ _ _ M).
  - apply (lm_nodup _ _ _ _ _ _ M).
  - intros j Hj. destruct (decide (j = i)) as [->|Hne].
    + exists l'. split; [done|]. by apply (lm_self _ _ _ _ _ _ M).
    + rewrite list_lookup_insert_ne by done. apply (li_queue _ _ I). by apply (lm_queue _ _ _ _ _ _ M).
  - intros Hq. destruct (lm_token _ _ _ _ _ _ M Hq) as [(Ho & Hq0 & Hkeep)|(o & lo & Ho & Hne & Hlo & Ht)].
    2: { exists o, lo. by rewrite list_lookup_insert_ne by done. }
    destruct (li_token _ _ I Hq0) as (o & lo & Howner & Hlo & Ht). rewrite Ho.
    destruct (decide (o = i)) as [->|Hne].
    { simplify_eq. exists i, l'. auto. }
    exists o, lo. rewrite list_lookup_insert_ne by done. split_and!; [done..|].
    destruct (t_pc lo) eqn:Hpc; try done; simpl in *.
    + intros Hin. apply Ht. by apply (lm_queue _ _ _ _ _ _ M).
    + apply (lm_odd _ _ _ _ _ _ M); [|done]. intros Hcrit.
      apply (li_owner _ _ I i l Hl) in Hcrit. apply (li_owner _ _ I o lo Hlo) in Hpc.
      apply Hne. apply (key_inj tids Htids); eauto using thread_lt. congruence.
Qed.

(** *** Steps on the word *)

Lemma holder_word : t_pc l = Critical -> exists b, 0 <= b < 4 /\ dul_lock s = wd (key i) b.
Proof.
  intros Hpc%(li_owner _ _ I i l Hl). pose proof (key_range i l Hl) as Hk.
  destruct (li_word _ _ I) as [H0|(h & b & Hh & Hb & Hw)].
  - rewrite H0 in Hpc. change (0 / 4) with 0 in Hpc. lia.
  - exists b. split; [done|]. rewrite Hw, wd_div in Hpc by done. by rewrite Hw, Hpc.
Qed.

Lemma word_cases :
  t_pc l <> Critical ->
  dul_lock s = 0 \/
  exists h b, (h < length tids)%nat /\ h <> i /\ 0 <= b < 4 /\ dul_lock s = wd (key h) b /\
    0 < key h < 2 ^ 30 - 1.
Proof.
  intros Hpc. destruct (li_word _ _ I) as [H0|(h & b & Hh & Hb & Hw)]; [by left|right].
  destruct (tid_wd tids Htids h Hh) as [_ Hk].
  exists h, b. split_and!; try lia; try done.
  intros ->. apply Hpc, (li_owner _ _ I i l Hl). by rewrite Hw, wd_div.
Qed.

(** A step that changes at most the word. *)
Lemma word_moves w l' :
  in_kernel l = 0%nat -> in_kernel l' = 0%nat ->
  (w = 0 \/ exists h b, (h < length tids)%nat /\ 0 <= b < 4 /\ w = wd (key h) b) ->
  (t_pc l' = Critical <-> w / 4 = key i) ->
  (w / 4 = dul_lock s / 4 \/ dul_lock s / 4 = 0 \/ dul_lock s / 4 = key i) ->
  (w / 4 = dul_lock s / 4 \/ w / 4 = 0 \/ w / 4 = key i) ->
  pc_ok i (t_pc l') ->
  (t_pc l <> Critical -> Z.odd (dul_lock s) = true -> Z.odd w = true) ->
  (forall q, ~ i ∈ q -> token (dul_lock s) q i (t_pc l) -> token w q i (t_pc l')) ->
  lmoves i s ls l (set_lock w s) l'.
Proof.
  intros Hk Hk' Hw Ho Hc Hm Hpc Hodd Htok.
  assert (~ i ∈ wq (ulk s)) as Hnq.
  { apply lnot_queued. unfold in_kernel in Hk. by destruct (t_pc l). }
  split; simpl; try done.
  - lia.
  - apply (li_ull _ _ I).
  - apply (li_nodup _ _ I).
  - intros Hq. left. split_and!; auto.
Qed.

Lemma set_lock_id : set_lock (dul_lock s) s = s.
Proof. clear. by destruct s. Qed.

(** A step that changes nothing but the place of the thread. *)
Lemma stay_moves l' :
  in_kernel l = 0%nat -> in_kernel l' = 0%nat -> t_pc l <> Critical -> t_pc l' <> Critical ->
  pc_ok i (t_pc l') ->
  (forall q, ~ i ∈ q -> token (dul_lock s) q i (t_pc l) -> token (dul_lock s) q i (t_pc l')) ->
  lmoves i s ls l s l'.
Proof.
  intros Hk Hk' Hc Hc' Hpc Htok. rewrite <- set_lock_id at 2.
  apply word_moves; auto; [apply (li_word _ _ I)|].
  split; [done|]. intros Hw%(li_owner _ _ I i l Hl). done.
Qed.

Lemma lock_moves rest r s' c :
  t_pc l = Idle ->
  dispatch_unfair_lock_lock tids i s = (s', c) ->
  lmoves i s ls l s' (go {| t_pc := Idle; todo := rest; rel := r; log := log l |} c).
Proof.
  intros Hpc. unfold dispatch_unfair_lock_lock, DLOCK_OWNER_NULL.
  rewrite (value_for_self_wd tids Htids i) by (by eapply thread_lt).
  pose proof (key_range i l Hl) as Hk. pose proof (thread_lt i l Hl) as Hlt.
  destruct (Z.eqb_spec (dul_lock s) 0) as [H0|Hne]; intros [= <- <-].
  - apply word_moves; simpl; rewrite ?wd_div, ?H0 by lia; unfold in_kernel; rewrite ?Hpc; simpl; try done; auto.
    right. exists i, 0. split_and!; [done|lia..|done].
  - apply stay_moves; unfold in_kernel; rewrite ?Hpc; simpl; try done. exists 0. split; [lia|done].
Qed.

Lemma lock_slow_moves nxt :
  t_pc l = LockSlow nxt ->
  exists s' c, lock_slow tids i nxt s = Ok (s', c) /\ lmoves i s ls l s' (go l c).
Proof.
  intros Hpc. pose proof (li_pc _ _ I i l Hl) as Hp. rewrite Hpc in Hp. destruct Hp as (c & Hc & Hn).
  pose proof (key_range i l Hl) as Hk. pose proof (thread_lt i l Hl) as Hlt.
  unfold lock_slow. rewrite rmw_lock_slow.
  rewrite (value_for_self_wd tids Htids i) by done.
  destruct word_cases as [H0|(h & b & Hh & Hne & Hb & Hw & Hkh)]; [by rewrite Hpc|..].
  - rewrite H0. change (dispatch_lock_is_locked 0) with false. simpl.
    change 0 with (wd 0 0) at 1. rewrite is_locked_by_wd by lia.
    rewrite (proj2 (Z.eqb_neq 0 (key i))), Z.eqb_refl by lia.
    do 2 eexists. split; [done|].
    apply word_moves; simpl; rewrite ?H0, ?Hn, ?wd_div by lia; unfold in_kernel; rewrite ?Hpc; simpl; try done; auto.
    + right. exists i, c. split_and!; [done|lia..|done].
    + by rewrite <- Hn.
  - rewrite Hw, is_locked_wd, (proj2 (Z.eqb_neq (key h) 0)) by lia. simpl.
    unfold DLOCK_WAITERS_BIT. rewrite wd_lor by lia. pose proof (low_or b 1 Hb ltac:(lia)) as [Hb1 _].
    assert (key i <> key h) as Hkk by (intros Hkk; apply Hne; symmetry; by apply (key_inj tids Htids)).
    rewrite is_locked_by_wd by lia. rewrite (proj2 (Z.eqb_neq (key h) (key i))) by lia.
    rewrite (proj2 (Z.eqb_neq _ nxt)) by (rewrite Hn; unfold wd; lia).
    do 2 eexists. split; [done|].
    apply word_moves; simpl; rewrite ?Hw, ?wd_div by lia; unfold in_kernel; rewrite ?Hpc; simpl; try done; auto.
    + right. exists h, (Z.lor b 1). split_and!; [done|lia..|done].
    + split; [by eexists|]. exists h, (Z.lor b 1). split_and!; [done..|lia|lia|apply odd_lor_1|done].
    + by rewrite !wd_odd, odd_lor_1.
Qed.

Lemma trylock_moves rest r s' c :
  t_pc l = Idle ->
  dispatch_unfair_lock_trylock tids i s = (s', c) ->
  lmoves i s ls l s' (go {| t_pc := Idle; todo := rest; rel := r; log := log l |} c).
Proof.
  intros Hpc. unfold dispatch_unfair_lock_trylock, rmw_atomic, trylock_body.
  rewrite (value_for_self_wd tids Htids i) by (by eapply thread_lt).
  pose proof (key_range i l Hl) as Hk. pose proof (thread_lt i l Hl) as Hlt.
  destruct word_cases as [H0|(h & b & Hh & Hne & Hb & Hw & Hkh)]; [by rewrite Hpc|..].
  - rewrite H0. change (dispatch_lock_is_locked 0) with false. simpl. intros [= <- <-].
    apply word_moves; simpl; rewrite ?H0, ?wd_div by lia; unfold in_kernel; rewrite ?Hpc; simpl; try done; auto.
    right. exists i, 0. split_and!; [done|lia..|done].
  - rewrite Hw, is_locked_wd, (proj2 (Z.eqb_neq (key h) 0)) by lia. simpl. intros [= <- <-].
    assert (key i <> key h) as Hkk by (intros Hkk; apply Hne; symmetry; by apply (key_inj tids Htids)).
    unfold DLOCK_FAILED_TRYLOCK_BIT. rewrite wd_lor by lia. pose proof (low_or b 2 Hb ltac:(lia)) as [Hb1 _].
    apply word_moves; simpl; rewrite ?Hw, ?wd_div by lia; unfold in_kernel; rewrite ?Hpc; simpl; try done; auto.
    + right. exists h, (Z.lor b 2). split_and!; [done|lia..|done].
    + intros _. rewrite !wd_odd. rewrite <- !Z.bit0_odd, Z.lor_spec. by intros ->.
Qed.

Lemma tryunlock_moves s' c :
  t_pc l = Critical -> dispatch_unfair_lock_tryunlock s = (s', c) -> lmoves i s ls l s' (go l c).
Proof.
  intros Hpc. destruct (holder_word Hpc) as (b & Hb & Hw).
  pose proof (key_range i l Hl) as Hk. pose proof (thread_lt i l Hl) as Hlt.
  unfold dispatch_unfair_lock_tryunlock, rmw_atomic, tryunlock_body. rewrite Hw.
  change (negb (Z.land (wd (key i) b) DLOCK_FAILED_TRYLOCK_BIT =? 0))
    with (dispatch_lock_has_failed_trylock (wd (key i) b)).
  rewrite has_failed_wd, has_waiters_wd by lia.
  destruct (Z.leb_spec 2 b) as [H2|H2].
  - unfold DLOCK_FAILED_TRYLOCK_BIT. rewrite wd_lxor by lia. pose proof (low_or b 2 Hb ltac:(lia)) as [_ Hb2].
    rewrite (proj2 (Z.eqb_neq _ 0)) by (unfold wd; lia). simpl. intros [= <- <-].
    apply word_moves; simpl; rewrite ?Hw, ?wd_div by lia; unfold in_kernel; rewrite ?Hpc; simpl; try done; auto.
    + right. exists i, (Z.lxor b 2). split_and!; [done|lia..|done].
    + intros _ _. rewrite !wd_odd. assert (b = 2 \/ b = 3) as [->| ->] by lia; done.
  - unfold DLOCK_OWNER_NULL. simpl. destruct (Z.odd b) eqn:Hodd; intros [= <- <-];
      apply word_moves; simpl; rewrite ?Hw, ?wd_div, ?wd_odd, ?Hodd by lia; unfold in_kernel;
      rewrite ?Hpc; simpl; try done; auto; try (split; [done|]; change (0 / 4) with 0; lia).
    + by exists b.
    + intros q _. by rewrite wd_odd, Hodd.
Qed.

Lemma unlock_moves s' c :
  t_pc l = Critical -> dispatch_unfair_lock_unlock tids i s = (s', c) -> lmoves i s ls l s' (go l c).
Proof.
  intros Hpc. destruct (holder_word Hpc) as (b & Hb & Hw).
  pose proof (key_range i l Hl) as Hk. pose proof (thread_lt i l Hl) as Hlt.
  unfold dispatch_unfair_lock_unlock, DLOCK_OWNER_NULL.
  rewrite Hw, (value_for_self_wd tids Htids i) by done.
  destruct (Z.eqb_spec (wd (key i) b) (wd (key i) 0)) as [He|He]; intros [= <- <-];
    apply word_moves; simpl; rewrite ?Hw, ?wd_div by lia; unfold in_kernel; rewrite ?Hpc; simpl; try done; auto;
    try (split; [done|]; change (0 / 4) with 0; lia).
  - apply wd_inj in He as [_ ->]; [|lia..]. rewrite wd_odd. done.
  - by exists b.
Qed.

(** *** Steps in the kernel *)

Lemma waiters_bound : (length (wq (ulk s)) <= Z.to_nat (nwaiters (ulk s)))%nat.
Proof.
  rewrite (li_count _ _ I), Nat2Z.id. apply isum_NoDup; [apply (li_nodup _ _ I)|].
  intros j Hj. destruct (li_queue _ _ I j Hj) as (x & Hx & Hs). exists x. split; [done|].
  unfold in_kernel. by destruct (t_pc x).
Qed.

(** A thread in the kernel that is not queued is one more waiter. *)
Lemma waiters_bound_self :
  in_kernel l = 1%nat -> ~ i ∈ wq (ulk s) -> Z.of_nat (length (wq (ulk s))) + 1 <= nwaiters (ulk s).
Proof.
  apply (queue_bound_self in_kernel ls); [apply (li_count _ _ I)|apply (li_nodup _ _ I)| |done].
  intros j Hj. destruct (li_queue _ _ I j Hj) as (x & Hx & Hs). exists x. split; [done|].
  unfold in_kernel. by destruct (t_pc x).
Qed.

Lemma nxt_mark nxt : nxt_ok i nxt -> nxt_ok i (Z.lor nxt DLOCK_WAITERS_BIT).
Proof.
  intros (c & Hc & ->). unfold DLOCK_WAITERS_BIT. rewrite wd_lor by lia. exists (Z.lor c 1).
  split; [|done]. assert (c = 0 \/ c = 1) as [->| ->] by lia; by vm_compute.
Qed.

(** What [__ulock_wait] returns decides the next value of [next]. *)
Lemma waited_ok nxt v rc s0 :
  0 <= rc -> exists nxt', lock_slow_waited nxt v rc s0 = Ok (s0, Goto (LockSlow nxt')) /\
  (nxt_ok i nxt -> nxt_ok i nxt') /\ (Z.odd nxt = true \/ 0 < rc -> Z.odd nxt' = true).
Proof.
  intros Hrc. unfold lock_slow_waited, dlock_wait_ret. rewrite Z.gtb_ltb.
  destruct (Z.ltb_spec 0 rc).
  - exists (Z.lor nxt DLOCK_WAITERS_BIT). split_and!; [done|apply nxt_mark|].
    intros _. apply odd_lor_1.
  - assert (rc = 0) as -> by lia. exists nxt. split_and!; [done|done|]. intros [|]; [done|lia].
Qed.

Lemma lock_wait_moves nxt v :
  t_pc l = LockWait nxt v ->
  exists s' c, lock_wait tids i nxt v s = Ok (s', c) /\ lmoves i s ls l s' (go l c).
Proof.
  intros Hpc. pose proof (li_pc _ _ I i l Hl) as Hp. rewrite Hpc in Hp.
  destruct Hp as [Hn (h & b & Hh & Hne & Hb & Hodd & Hv)].
  assert (~ i ∈ wq (ulk s)) as Hnq by (apply lnot_queued; by rewrite Hpc).
  assert (in_kernel l = 0%nat) as Hk by (unfold in_kernel; by rewrite Hpc).
  assert (0 <= nwaiters (ulk s)) as Hnn by (rewrite (li_count _ _ I); lia).
  unfold lock_wait. destruct (decide (dul_lock s = v)) as [Hw|Hw].
  - rewrite Hw, Hv. destruct (ulock_wait_match tids Htids i h b (ulk s)) as (u & -> & Ho & Hc & Hop & Hq);
      [apply (li_ull _ _ I)|done..|].
    do 2 eexists. split; [done|].
    assert (h < length ls)%nat as Hlh by (by rewrite (li_len _ _ I)).
    destruct (lookup_lt_is_Some_2 ls h Hlh) as [lh Hlh'].
    assert (t_pc lh = Critical) as Hcrit
      by (apply (li_owner _ _ I h lh Hlh'); by rewrite Hw, Hv, wd_div).
    split; simpl; rewrite ?Hc, ?Hq, ?Hop; simpl; try done; auto.
    + apply (li_word _ _ I).
    + split; [done|]. intros Hx%(li_owner _ _ I i l Hl). congruence.
    + split; [done|]. exists h, b. auto.
    + rewrite Hk. unfold in_kernel. simpl. lia.
    + split; [lia|done].
    + apply NoDup_app. split_and!; [apply (li_nodup _ _ I)| |apply NoDup_singleton].
      intros j Hj ->%list_elem_of_singleton. done.
    + intros j. rewrite elem_of_app, list_elem_of_singleton. tauto.
    + intros _. right. exists h, lh. split_and!; [done..|]. rewrite Hcrit. simpl. by rewrite Hw, Hv, wd_odd.
  - rewrite ulock_wait_mismatch by (done || apply (li_ull _ _ I)).
    destruct (waited_ok nxt v (nwaiters (ulk s)) (set_ulk (ulk s) s) Hnn) as (nxt' & -> & Hok & Ho').
    do 2 eexists. split; [done|].
    assert (set_ulk (ulk s) s = s) as -> by (clear; by destruct s).
    apply stay_moves; unfold in_kernel; rewrite ?Hpc; simpl; auto.
Qed.

(** Leaving the kernel: the object loses one waiter. *)
Lemma lock_cleanup_ok u :
  ulk s = Some u -> in_kernel l = 1%nat -> ~ i ∈ ull_waitq u ->
  exists u', ulock_wait_cleanup u = (u', ull_nwaiters u - 1) /\ left_behind UL_UNFAIR_LOCK u u'.
Proof.
  intros Hu Hk Hi. pose proof waiters_bound_self as Hb. pose proof (li_ull _ _ I) as Hok.
  rewrite Hu in *. apply cleanup_ok; [done|]. by apply Hb.
Qed.

Lemma cleanup_moves u u' p :
  ulk s = Some u -> in_kernel l = 1%nat -> ~ i ∈ ull_waitq u ->
  t_pc l <> Critical -> p <> Critical ->
  left_behind UL_UNFAIR_LOCK u u' ->
  in_kernel (go l (Goto p)) = 0%nat -> pc_ok i p ->
  (ull_waitq u <> [] -> token (dul_lock s) (ull_waitq u) i (t_pc l) -> token (dul_lock s) (ull_waitq u) i p) ->
  lmoves i s ls l (set_ulk u' s) (go l (Goto p)).
Proof.
  intros Hu Hk Hi Hc Hc' (Hn & Hok & Hq & Ho & _ & _) Hk' Hpc Htok.
  pose proof (li_nodup _ _ I) as Hnd. rewrite Hu in Hnd. simpl in Hnd.
  split; simpl; rewrite ?Hq, ?Hu, ?Hn; simpl; auto; try done.
  - apply (li_word _ _ I).
  - split; [done|]. intros Hx%(li_owner _ _ I i l Hl). done.
  - simpl in Hk'. lia.
Qed.

Lemma lock_woken_moves nxt v u :
  t_pc l = LockSleep nxt v -> ulk s = Some u -> ~ i ∈ ull_waitq u ->
  exists s' c, lock_continue 0 nxt v s = Ok (s', c) /\ lmoves i s ls l s' (go l c).
Proof.
  intros Hpc Hu Hi. pose proof (li_pc _ _ I i l Hl) as Hp. rewrite Hpc in Hp. destruct Hp as [Hn Hv].
  assert (in_kernel l = 1%nat) as Hk by (unfold in_kernel; by rewrite Hpc).
  destruct (lock_cleanup_ok u Hu Hk Hi) as (u' & Hcl & Hlb). pose proof Hlb as (_ & _ & _ & _ & Hpos & Hmore).
  unfold lock_continue, ulock_wait_continue. rewrite Hu, Hcl. simpl.
  destruct (waited_ok nxt v (ull_nwaiters u - 1) (set_ulk u' s) Hpos) as (nxt' & -> & Hnok & Hodd).
  do 2 eexists. split; [done|]. eapply cleanup_moves; eauto; rewrite ?Hpc; simpl; auto.
Qed.

Lemma intr_moves nxt v :
  t_pc l = LockIntr nxt v ->
  exists s' c, lock_continue EINTR nxt v s = Ok (s', c) /\ lmoves i s ls l s' (go l c).
Proof.
  intros Hpc. pose proof (li_pc _ _ I i l Hl) as Hp. rewrite Hpc in Hp. destruct Hp as [Hn Hv].
  assert (in_kernel l = 1%nat) as Hk by (unfold in_kernel; by rewrite Hpc).
  assert (~ i ∈ wq (ulk s)) as Hi by (apply lnot_queued; by rewrite Hpc).
  pose proof (waiters_bound_self Hk Hi) as Hb.
  destruct (ulk s) as [u|] eqn:Hu; [|simpl in Hb; lia]. simpl in Hi.
  destruct (lock_cleanup_ok u Hu Hk Hi) as (u' & Hcl & Hlb). pose proof Hlb as (_ & _ & _ & _ & Hpos & Hmore).
  unfold lock_continue, ulock_wait_continue. rewrite Hu, Hcl. simpl.
  do 2 eexists. split; [done|]. eapply cleanup_moves; eauto; rewrite ?Hpc; simpl; auto; done.
Qed.

Lemma lock_sleep_moves nxt v r :
  t_pc l = LockSleep nxt v -> r ∈ lock_sleep i nxt v s ->
  exists s' c, r = Ok (s', c) /\ lmoves i s ls l s' (go l c).
Proof.
  intros Hpc. pose proof (li_pc _ _ I i l Hl) as Hp. rewrite Hpc in Hp.
  assert (in_kernel l = 1%nat) as Hk by (unfold in_kernel; by rewrite Hpc).
  assert (0 < nwaiters (ulk s)) as Hn.
  { rewrite (li_count _ _ I). pose proof (isum_lookup (fun _ => in_kernel) _ _ _ Hl). lia. }
  unfold lock_sleep. destruct (ulk s) as [u|] eqn:Hu; [|simpl in Hn; lia].
  case_bool_decide as Hi; [|intros ->%list_elem_of_singleton; by eapply lock_woken_moves].
  destruct (intr s) as [|n]; [by intros ?%elem_of_nil|]. intros ->%list_elem_of_singleton.
  do 2 eexists. split; [done|].
  pose proof (li_nodup _ _ I) as Hnd. pose proof (li_ull _ _ I) as Hok. rewrite Hu in *. simpl in *.
  split; simpl; rewrite ?Hu, ?Hpc; simpl; auto; try done.
  - apply (li_word _ _ I).
  - split; [done|]. intros Hx%(li_owner _ _ I i l Hl). by rewrite Hpc in Hx.
  - rewrite Hk. unfold in_kernel. simpl. lia.
  - by apply leave_NoDup.
  - intros j. rewrite elem_leave. tauto.
  - rewrite elem_leave. tauto.
  - intros _. left. split_and!; [done| |done]. intros H0. by rewrite H0, elem_of_nil in Hi.
Qed.

(** A thread that is done with the lock leaves the kernel as it is: it was
    not the one to wake the sleepers. *)
Lemma idle_moves cur had l' :
  t_pc l = UnlockSlow cur had -> t_pc l' = Idle ->
  Z.odd cur = false \/ owner (ulk s) <> Some i \/ wq (ulk s) = [] ->
  lmoves i s ls l s l'.
Proof.
  intros Hpc Hl' Hcase.
  assert (~ i ∈ wq (ulk s)) as Hi by (apply lnot_queued; by rewrite Hpc).
  split; rewrite ?Hl'; simpl; auto; try done.
  - apply (li_word _ _ I).
  - split; [done|]. intros Hx%(li_owner _ _ I i l Hl). by rewrite Hpc in Hx.
  - unfold in_kernel. rewrite Hpc, Hl'. lia.
  - apply (li_ull _ _ I).
  - apply (li_nodup _ _ I).
  - intros Hq. left. rewrite Hpc. simpl. split_and!; [done..|]. intros Ho Hodd.
    destruct Hcase as [?|[?|?]]; congruence.
Qed.

(** The owner wakes a thread [o], which will wake the rest [q]. *)
Lemma wake_moves cur had u (o : option nat) q l' :
  t_pc l = UnlockSlow cur had -> t_pc l' = Idle -> ulk s = Some u ->
  NoDup q -> (forall j, j ∈ q -> j ∈ ull_waitq u) ->
  (q <> [] -> exists w lw, o = Some w /\ w <> i /\ ls !! w = Some lw /\
                          token (dul_lock s) q w (t_pc lw)) ->
  lmoves i s ls l (set_ulk (Some {| ull_owner := o; ull_nwaiters := ull_nwaiters u;
                                    ull_opcode := UL_UNFAIR_LOCK; ull_waitq := q |}) s) l'.
Proof.
  intros Hpc Hl' Hu Hq Hsub Htok.
  assert (~ i ∈ ull_waitq u) as Hi
    by (pose proof lnot_queued as Hn; rewrite Hpc, Hu in Hn; by apply Hn).
  pose proof (li_ull _ _ I) as Hok. rewrite Hu in Hok. destruct Hok as [Hpos Hop].
  split; simpl; rewrite ?Hu, ?Hl'; simpl; auto; try done.
  - apply (li_word _ _ I).
  - split; [done|]. intros Hx%(li_owner _ _ I i l Hl). by rewrite Hpc in Hx.
  - unfold in_kernel. rewrite Hpc, Hl'. lia.
Qed.

Lemma unlock_slow_moves cur had r :
  t_pc l = UnlockSlow cur had -> r ∈ unlock_slow tids i cur had s ->
  exists s' c, r = Ok (s', c) /\ lmoves i s ls l s' (go l c).
Proof.
  intros Hpc. pose proof (li_pc _ _ I i l Hl) as Hp. rewrite Hpc in Hp. destruct Hp as (b & Hb & Hcur).
  pose proof (key_range i l Hl) as Hkey. pose proof (thread_lt i l Hl) as Hlt.
  unfold unlock_slow. destruct (tid_wd tids Htids i Hlt) as [-> _].
  rewrite Hcur, is_locked_by_wd, Z.eqb_refl, has_waiters_wd by lia. simpl.
  destruct (Z.odd b) eqn:Hodd.
  2: { intros ->%list_elem_of_singleton. do 2 eexists. split; [done|]. eapply idle_moves; [done..|].
       left. by rewrite Hcur, wd_odd. }
  rewrite list_elem_of_fmap. intros ([u' rc] & -> & Hin). revert Hin.
  assert (set_ulk (ulk s) s = s) as Hid by (clear; by destruct s).
  unfold ulock_wake. destruct (ulk s) as [u|] eqn:Hu.
  2: { intros [= -> ->]%list_elem_of_singleton. do 2 eexists. split; [done|]. rewrite Hid.
       eapply idle_moves; rewrite ?Hu; eauto. }
  pose proof (li_ull _ _ I) as Hok. pose proof (li_nodup _ _ I) as Hnd. rewrite Hu in *. simpl in *.
  destruct Hok as [Hpos Hop]. rewrite Hop, !bool_decide_true by done. simpl.
  case_bool_decide as Ho; simpl.
  2: { intros [= -> ->]%list_elem_of_singleton. do 2 eexists. split; [done|]. rewrite Hid.
       eapply idle_moves; rewrite ?Hu; eauto. }
  case_bool_decide as Hq.
  - intros [= -> ->]%list_elem_of_singleton. do 2 eexists. split; [done|].
    eapply wake_moves; [done..|constructor|by intros ? ?%elem_of_nil|done].
  - rewrite list_elem_of_fmap. intros (w & [= -> ->] & Hin). do 2 eexists. split; [done|].
    eapply wake_moves; [done..|by apply leave_NoDup| |].
    + intros j. rewrite elem_leave. tauto.
    + intros _. destruct (li_queue _ _ I w) as (lw & Hlw & Hs); [by rewrite Hu|].
      exists w, lw. pose proof lnot_queued as Hn. rewrite Hpc, Hu in Hn.
      split_and!; [done|intros ->; by apply Hn|done|]. destruct (t_pc lw); try done. simpl.
      rewrite elem_leave. tauto.
Qed.

(** *** Every step *)

Lemma next_lmoves r :
  r ∈ next tids i s l -> exists s' l', r = Ok (s', l') /\ lmoves i s ls l s' l'.
Proof.
  unfold next. destruct (decide (t_pc l = Idle)) as [Hpc|Hpc].
  - rewrite Hpc. destruct (todo l) as [|[[] tu] rest] eqn:Htodo; [by intros ?%elem_of_nil|..];
      intros ->%list_elem_of_singleton; simpl.
    + destruct (dispatch_unfair_lock_trylock tids i s) as [s' c] eqn:He.
      do 2 eexists. split; [done|]. by apply trylock_moves.
    + destruct (dispatch_unfair_lock_lock tids i s) as [s' c] eqn:He.
      do 2 eexists. split; [done|]. by apply lock_moves.
  - intros Hr. assert (r ∈ continue l <$> pc_next tids i (rel l) s (t_pc l)) as Hr' by (by destruct (t_pc l)).
    apply list_elem_of_fmap in Hr' as (r0 & -> & Hr0).
    enough (exists s' c, r0 = Ok (s', c) /\ lmoves i s ls l s' (go l c)) as (s' & c & -> & Hm)
      by (do 2 eexists; by split).
    destruct (t_pc l) eqn:Hp; simpl in Hr0; [done|..];
      try apply list_elem_of_singleton in Hr0 as ->.
    + by apply lock_slow_moves.
    + by apply lock_wait_moves.
    + by eapply lock_sleep_moves.
    + by apply intr_moves.
    + destruct (rel l).
      * destruct (dispatch_unfair_lock_tryunlock s) as [s' c] eqn:He. do 2 eexists. split; [done|].
        by apply tryunlock_moves.
      * destruct (dispatch_unfair_lock_unlock tids i s) as [s' c] eqn:He. do 2 eexists. split; [done|].
        by apply unlock_moves.
    + by eapply unlock_slow_moves.
Qed.

End step.

Definition LInvC (c : conf shared thread) : Prop := LInv (c_sh c) (c_thr c).

Lemma linv_step c c' : LInvC c -> step (next tids) c c' -> LInvC c'.
Proof.
  intros I Hs. destruct Hs as [i s ls l s' l' Hl Hn]. unfold LInvC in *. simpl in *.
  destruct (next_lmoves i s ls l I Hl _ Hn) as (? & ? & [= <- <-] & Hm).
  by eapply lmoves_inv.
Qed.

Lemma linv_no_crash c : LInvC c -> ~ may_crash (next tids) c.
Proof.
  intros I (i & l & w & Hl & Hn).
  by destruct (next_lmoves i _ _ l I Hl _ Hn) as (? & ? & ? & _).
Qed.

Lemma linv_start n progs : length progs = length tids -> LInvC (start n progs).
Proof.
  intros Hlen. unfold LInvC, start; simpl.
  assert (forall i l, ((fun secs => {| t_pc := Idle; todo := secs; rel := false; log := [] |}) <$> progs) !! i
            = Some l -> t_pc l = Idle /\ (i < length tids)%nat) as Hidle.
  { intros i l. rewrite list_lookup_fmap. destruct (progs !! i) eqn:Hp; simpl; [|done].
    intros [= <-]. split; [done|]. rewrite <- Hlen. by eapply lookup_lt_Some. }
  split; simpl; try done; auto.
  - by rewrite length_fmap.
  - intros i l [-> Hi]%Hidle. destruct (tid_wd tids Htids i Hi) as [_ Hk].
    split; [done|]. change (DLOCK_OWNER_NULL / 4) with 0. lia.
  - by intros i l [-> _]%Hidle.
  - rewrite isum_fmap. by rewrite (proj2 (isum_zero _ _)).
  - constructor.
  - by intros i ?%elem_of_nil.
Qed.

End inv.
