(* ===== verification/LockThms.v ===== *)
(** * What unfair locks guarantee

    Mutual exclusion, the end of every run, and that no thread is left
    asleep: together with the kernel's bookkeeping of owners the lock loses
    no wake-up, although a releasing thread may leave without waking
    anybody. *)

From S2P Require Import Conc Ulock Lock LockInv Prelude.
Import LockWord Ulock Lock.

(** ** The measure of a run

    [weight] bounds the steps that hand the lock over or wake somebody;
    between them the word is at most marked, and every thread moves towards
    its sleep. *)

Definition weight (l : thread) : nat :=
  3 * length (todo l) +
  match t_pc l with
  | Idle => 0
  | LockSlow _ | LockWait _ _ | LockSleep _ _ | LockIntr _ _ => 3
  | Critical => 2
  | UnlockSlow _ _ => 1
  end.

(** The mark of a failed try-lock makes a try-unlock fail once. *)
Definition fbit (w : Z) : nat := if dispatch_lock_has_failed_trylock w then 1 else 0.
Definition unmarked (w : Z) : nat := if Z.odd w then 0 else 1.

Definition rank (i : nat) (w : Z) (q : list nat) (l : thread) : nat :=
  match t_pc l with
  | Idle => 5
  | LockSlow _ => 3
  | LockWait _ v => if w =? v then 2 else 4
  | LockSleep _ _ => if decide (i ∈ q) then 1 else 4
  | LockIntr _ _ => 5
  | Critical | UnlockSlow _ _ => 0
  end.

Definition measure (c : conf shared thread) : nat :=
  let s := c_sh c in
  (2 * (tsum weight (c_thr c) + intr s + fbit (dul_lock s)) + unmarked (dul_lock s))
    * (5 * length (c_thr c) + 1)
  + isum (fun i => rank i (dul_lock s) (wq (ulk s))) (c_thr c).

Lemma lock_rank_bound i w q l : (rank i w q l <= 5)%nat.
Proof. unfold rank. destruct (t_pc l); repeat case_match; lia. Qed.

(** The effect of a step on the measure: it hands over, it marks, or it only
    moves one thread forward. *)
Definition descends (i : nat) (s : shared) (l : thread) (s' : shared) (l' : thread) : Prop :=
  (weight l' + intr s' + fbit (dul_lock s') < weight l + intr s + fbit (dul_lock s))%nat \/
  (weight l' + intr s' + fbit (dul_lock s') = weight l + intr s + fbit (dul_lock s))%nat /\
  ((unmarked (dul_lock s') < unmarked (dul_lock s))%nat \/
   dul_lock s' = dul_lock s /\ (forall j, j <> i -> j ∈ wq (ulk s') <-> j ∈ wq (ulk s)) /\
   (rank i (dul_lock s') (wq (ulk s')) l' < rank i (dul_lock s) (wq (ulk s)) l)%nat).

Lemma fbit_wd a b : 0 <= a < 2 ^ 30 -> 0 <= b < 4 -> fbit (wd a b) = (if 2 <=? b then 1%nat else 0%nat).
Proof. intros. unfold fbit. by rewrite has_failed_wd. Qed.

Lemma fbit_0 : fbit 0 = 0%nat.
Proof. done. Qed.

Lemma fbit_le w : (fbit w <= 1)%nat.
Proof. unfold fbit. case_match; lia. Qed.

Section descends.
  Context (tids : list Z) (Htids : tids_ok tids).
  Context (i : nat) (s : shared) (ls : list thread) (l : thread).
  Context (I : LInv tids s ls) (Hl : ls !! i = Some l).

Abbreviation key := (key tids).

(** A step that hands the lock over, skips or leaves a section. *)
Lemma drop_descends s' l' :
  (weight l' + intr s' + fbit (dul_lock s') < weight l + intr s + fbit (dul_lock s))%nat ->
  descends i s l s' l'.
Proof. by left. Qed.

(** A step of the slow path that leaves the word and the queue alone. *)
Lemma move_descends s' l' :
  weight l' = weight l -> intr s' = intr s -> dul_lock s' = dul_lock s ->
  (forall j, j <> i -> j ∈ wq (ulk s') <-> j ∈ wq (ulk s)) ->
  (rank i (dul_lock s) (wq (ulk s')) l' < rank i (dul_lock s) (wq (ulk s)) l)%nat ->
  descends i s l s' l'.
Proof. unfold descends. intros Hwt Hi Hw Hq Hr. right. rewrite Hwt, Hi, Hw. auto. Qed.

Lemma lock_descends rest r s' c sec :
  t_pc l = Idle -> todo l = sec :: rest -> dispatch_unfair_lock_lock tids i s = (s', c) ->
  descends i s l s' (go {| t_pc := Idle; todo := rest; rel := r; log := log l |} c).
Proof.
  intros Hpc Htodo. unfold dispatch_unfair_lock_lock, DLOCK_OWNER_NULL.
  rewrite (value_for_self_wd tids Htids i) by (by eapply thread_lt).
  pose proof (key_range tids Htids s ls I i l Hl) as Hk.
  destruct (Z.eqb_spec (dul_lock s) 0) as [H0|Hne]; intros [= <- <-].
  - apply drop_descends. simpl. rewrite fbit_wd, H0 by lia. unfold weight. rewrite Hpc, Htodo. simpl. lia.
  - apply move_descends; try done; unfold weight, rank; rewrite Hpc, ?Htodo; simpl; lia.
Qed.

Lemma trylock_descends rest r s' c sec :
  t_pc l = Idle -> todo l = sec :: rest -> dispatch_unfair_lock_trylock tids i s = (s', c) ->
  descends i s l s' (go {| t_pc := Idle; todo := rest; rel := r; log := log l |} c).
Proof.
  intros Hpc Htodo. unfold dispatch_unfair_lock_trylock, rmw_atomic, trylock_body.
  rewrite (value_for_self_wd tids Htids i) by (by eapply thread_lt).
  pose proof (key_range tids Htids s ls I i l Hl) as Hk.
  destruct (dispatch_lock_is_locked (dul_lock s)); simpl; intros [= <- <-]; apply drop_descends;
    unfold weight; rewrite Hpc, Htodo; simpl.
  - match goal with |- context [ fbit ?w ] => pose proof (fbit_le w) end. lia.
  - rewrite (fbit_wd (key i) 0) by lia. simpl. lia.
Qed.

Lemma lock_slow_descends nxt s' c :
  t_pc l = LockSlow nxt -> lock_slow tids i nxt s = Ok (s', c) -> descends i s l s' (go l c).
Proof.
  intros Hpc. pose proof (li_pc _ _ _ I i l Hl) as Hp. rewrite Hpc in Hp. destruct Hp as (d & Hd & Hn).
  pose proof (key_range tids Htids s ls I i l Hl) as Hk. unfold lock_slow. rewrite rmw_lock_slow.
  destruct (word_cases tids Htids i s ls l I Hl) as [H0|(h & b & Hh & Hne & Hb & Hw & Hkh)]; [by rewrite Hpc|..].
  - rewrite H0. change (dispatch_lock_is_locked 0) with false. simpl. rewrite Z.eqb_refl.
    case_match; intros [= <- <-]. apply drop_descends. simpl. rewrite Hn, fbit_wd, H0 by lia.
    rewrite (proj2 (Z.leb_gt 2 d)) by lia. unfold weight. rewrite Hpc. simpl. lia.
  - rewrite Hw, is_locked_wd, (proj2 (Z.eqb_neq (key h) 0)) by lia. simpl.
    unfold DLOCK_WAITERS_BIT. rewrite wd_lor by lia. pose proof (low_or b 1 Hb ltac:(lia)) as [Hb1 _].
    assert (key i <> key h) as Hkk by (intros Hkk; apply Hne; symmetry; apply (key_inj tids Htids); eauto using thread_lt).
    rewrite (proj2 (Z.eqb_neq _ nxt)) by (rewrite Hn; unfold wd; lia).
    case_match; intros [= <- <-].
    assert (weight (go l (Goto (LockWait nxt (wd (key h) (Z.lor b 1))))) = weight l) as Hwt
      by (unfold weight; by rewrite Hpc).
    destruct (Z.odd b) eqn:Hodd.
    + assert (Z.lor b 1 = b) as Hbb.
      { assert (b = 0 \/ b = 1 \/ b = 2 \/ b = 3) as [->|[->|[->| ->]]] by lia; done. }
      rewrite Hbb in *. apply move_descends; auto. unfold rank. rewrite Hpc, Hw. simpl. rewrite Z.eqb_refl. lia.
    + right. rewrite Hwt. split.
      * simpl. rewrite Hw, !fbit_wd by lia. f_equal.
        assert (b = 0 \/ b = 1 \/ b = 2 \/ b = 3) as [->|[->|[->| ->]]] by lia; done.
      * left. simpl. rewrite Hw. unfold unmarked. rewrite !wd_odd, odd_lor_1, Hodd. lia.
Qed.

Lemma waited_descends nxt v u rc s' c :
  0 <= rc -> (forall j, j <> i -> j ∈ wq u <-> j ∈ wq (ulk s)) ->
  (4 <= rank i (dul_lock s) (wq (ulk s)) l)%nat -> weight l = (3 * length (todo l) + 3)%nat ->
  lock_slow_waited nxt v rc (set_ulk u s) = Ok (s', c) -> descends i s l s' (go l c).
Proof.
  intros Hrc Hq Hr Hw. destruct (waited_ok tids i nxt v rc (set_ulk u s) Hrc) as (nxt' & -> & _).
  intros [= <- <-]. apply move_descends; auto; unfold weight, rank in *; simpl in *; lia.
Qed.

Lemma lock_wait_descends nxt v s' c :
  t_pc l = LockWait nxt v -> lock_wait tids i nxt v s = Ok (s', c) -> descends i s l s' (go l c).
Proof.
  intros Hpc. pose proof (li_pc _ _ _ I i l Hl) as Hp. rewrite Hpc in Hp.
  destruct Hp as [Hn (h & b & Hh & Hne & Hb & Hodd & Hv)]. unfold lock_wait.
  destruct (decide (dul_lock s = v)) as [Hw|Hw].
  - rewrite Hw, Hv.
    destruct (ulock_wait_match tids Htids i h b (ulk s)) as (u & -> & _ & _ & _ & Hq);
      [apply (li_ull _ _ _ I)|done..|].
    intros [= <- <-]. apply move_descends; try done; unfold weight, rank; rewrite ?Hpc; simpl; try done.
    + intros j Hj. rewrite Hq, elem_of_app, list_elem_of_singleton. tauto.
    + rewrite Hw, Z.eqb_refl, decide_True by (rewrite Hq, elem_of_app, list_elem_of_singleton; auto). lia.
  - rewrite ulock_wait_mismatch by (done || apply (li_ull _ _ _ I)). apply waited_descends; try done.
    + rewrite (li_count _ _ _ I). lia.
    + unfold rank. rewrite Hpc, (proj2 (Z.eqb_neq _ _)) by done. lia.
    + unfold weight. by rewrite Hpc.
Qed.

Lemma sleep_descends nxt v s' c :
  t_pc l = LockSleep nxt v -> Ok (s', c) ∈ lock_sleep i nxt v s -> descends i s l s' (go l c).
Proof.
  intros Hpc. unfold lock_sleep. destruct (ulk s) as [u|] eqn:Hu; [|by intros ?%list_elem_of_singleton].
  case_bool_decide as Hi.
  - destruct (intr s) as [|n] eqn:Hn; [by intros ?%elem_of_nil|]. intros [= -> ->]%list_elem_of_singleton.
    apply drop_descends. unfold weight. rewrite Hpc, Hn. simpl. lia.
  - assert (in_kernel l = 1%nat) as Hk by (unfold in_kernel; by rewrite Hpc).
    destruct (lock_cleanup_ok tids i s ls l I Hl u Hu Hk Hi) as (u' & Hcl & Hnw & Hok & Hq & Ho & Hpos & _).
    intros Hr%list_elem_of_singleton. symmetry in Hr. revert Hr.
    unfold lock_continue, ulock_wait_continue. rewrite Hu, Hcl. simpl.
    apply waited_descends; try done.
    + intros j _. by rewrite Hq, Hu.
    + unfold rank. rewrite Hpc, decide_False by (by rewrite Hu). lia.
    + unfold weight. by rewrite Hpc.
Qed.

Lemma intr_descends nxt v s' c :
  t_pc l = LockIntr nxt v -> lock_continue EINTR nxt v s = Ok (s', c) -> descends i s l s' (go l c).
Proof.
  intros Hpc. assert (in_kernel l = 1%nat) as Hk by (unfold in_kernel; by rewrite Hpc).
  assert (~ i ∈ wq (ulk s)) as Hi by (eapply lnot_queued; eauto; by rewrite Hpc).
  unfold lock_continue, ulock_wait_continue. destruct (ulk s) as [u|] eqn:Hu; [|done].
  destruct (lock_cleanup_ok tids i s ls l I Hl u Hu Hk Hi) as (u' & Hcl & _ & _ & Hq & _).
  rewrite Hcl. simpl. intros [= <- <-].
  apply move_descends; try done; unfold weight, rank; rewrite ?Hpc; simpl; try done.
  - intros j _. by rewrite Hq, Hu.
  - case_match; lia.
Qed.

Lemma release_descends s' c :
  t_pc l = Critical ->
  (if rel l then dispatch_unfair_lock_tryunlock s else dispatch_unfair_lock_unlock tids i s) = (s', c) ->
  descends i s l s' (go l c).
Proof.
  intros Hpc. destruct (holder_word tids Htids i s ls l I Hl Hpc) as (b & Hb & Hw).
  pose proof (key_range tids Htids s ls I i l Hl) as Hk. destruct (rel l).
  - unfold dispatch_unfair_lock_tryunlock, rmw_atomic, tryunlock_body. rewrite Hw.
    change (negb (Z.land (wd (key i) b) DLOCK_FAILED_TRYLOCK_BIT =? 0))
      with (dispatch_lock_has_failed_trylock (wd (key i) b)).
    rewrite has_failed_wd by lia. destruct (Z.leb_spec 2 b) as [H2|H2].
    + unfold DLOCK_FAILED_TRYLOCK_BIT. rewrite wd_lxor by lia. pose proof (low_or b 2 Hb ltac:(lia)) as [_ Hb2].
      rewrite (proj2 (Z.eqb_neq _ 0)) by (unfold wd; lia). simpl. intros [= <- <-].
      apply drop_descends. simpl. rewrite Hw, !fbit_wd by lia. unfold weight. rewrite Hpc. simpl.
      assert (b = 2 \/ b = 3) as [->| ->] by lia; simpl; lia.
    + simpl. case_match; intros [= <- <-]; apply drop_descends; unfold weight; rewrite Hpc; simpl;
        change (fbit DLOCK_OWNER_NULL) with 0%nat; lia.
  - unfold dispatch_unfair_lock_unlock. case_match; intros [= <- <-]; apply drop_descends;
      unfold weight; rewrite Hpc; simpl; change (fbit DLOCK_OWNER_NULL) with 0%nat; lia.
Qed.

Lemma unlock_slow_descends cur had s' c :
  t_pc l = UnlockSlow cur had -> Ok (s', c) ∈ unlock_slow tids i cur had s -> descends i s l s' (go l c).
Proof.
  intros Hpc Hin. apply drop_descends.
  enough (dul_lock s' = dul_lock s /\ intr s' = intr s /\ exists e, c = Emit Idle e) as (-> & -> & e & ->)
    by (unfold weight; rewrite Hpc; simpl; lia).
  revert Hin. unfold unlock_slow. case_match; [by intros ?%list_elem_of_singleton|]. case_match.
  - rewrite list_elem_of_fmap. intros ([u rc] & He & _). revert He.
    destruct (dlock_wake_ret rc); simpl; [|done]. intros [= -> ->]. eauto.
  - intros [= -> ->]%list_elem_of_singleton. eauto.
Qed.

Lemma lock_next_descends s' l' : Ok (s', l') ∈ next tids i s l -> descends i s l s' l'.
Proof.
  unfold next. destruct (decide (t_pc l = Idle)) as [Hpc|Hpc].
  - rewrite Hpc. destruct (todo l) as [|[[] tu] rest] eqn:Htodo; [by intros ?%elem_of_nil|..];
      intros Hr%list_elem_of_singleton; revert Hr; simpl.
    + destruct (dispatch_unfair_lock_trylock tids i s) as [s0 c] eqn:He. intros [= -> ->].
      by eapply trylock_descends.
    + destruct (dispatch_unfair_lock_lock tids i s) as [s0 c] eqn:He. intros [= -> ->].
      by eapply lock_descends.
  - intros Hr. assert (Ok (s', l') ∈ continue l <$> pc_next tids i (rel l) s (t_pc l)) as Hr' by (by destruct (t_pc l)).
    apply list_elem_of_fmap in Hr' as ([[s0 c]|] & He & Hr0); [|done]. injection He as -> ->.
    destruct (t_pc l) eqn:Hp; simpl in Hr0; [done|..].
    + apply list_elem_of_singleton in Hr0. by eapply lock_slow_descends.
    + apply list_elem_of_singleton in Hr0. by eapply lock_wait_descends.
    + by eapply sleep_descends.
    + apply list_elem_of_singleton in Hr0. by eapply intr_descends.
    + apply list_elem_of_singleton in Hr0. injection Hr0 as He. by apply release_descends.
    + by eapply unlock_slow_descends.
Qed.

End descends.

Section lock_runs.
  Context (tids : list Z) (Htids : tids_ok tids).

Lemma lock_measure_step c c' : LInvC tids c -> step (next tids) c c' -> (measure c' < measure c)%nat.
Proof.
  intros I Hs. destruct Hs as [i s ls l s' l' Hl Hn]. unfold LInvC in I. simpl in I.
  pose proof (lock_next_descends tids Htids i s ls l I Hl s' l' Hn) as Hd.
  unfold measure; simpl. rewrite length_insert.
  pose proof (isum_insert (fun _ => weight) ls i l l' Hl) as Hw.
  assert (isum (fun i => rank i (dul_lock s') (wq (ulk s'))) (<[i:=l']> ls) <= 5 * length ls)%nat as Hb.
  { rewrite <- (length_insert ls i l'). apply isum_bound. intros; apply lock_rank_bound. }
  assert (unmarked (dul_lock s') <= 1)%nat by (unfold unmarked; case_match; lia).
  destruct Hd as [Hd|(Hd & [Hm|(Hword & Hq & Hr)])]; [nia..|].
  pose proof (isum_update (fun i => rank i (dul_lock s) (wq (ulk s)))
    (fun i => rank i (dul_lock s') (wq (ulk s'))) ls i l l' Hl) as Hrank.
  specialize (Hrank ltac:(intros j x Hj Hx; unfold rank; rewrite Hword;
    destruct (t_pc x); try done; by rewrite (decide_ext _ _ _ _ (Hq j Hj)))).
  rewrite Hword in *. assert (tsum weight (<[i:=l']> ls) + intr s' = tsum weight ls + intr s)%nat as Heq by lia.
  rewrite Heq. lia.
Qed.

(** ** When nothing can move *)

Lemma lock_next_nil i s l :
  next tids i s l = [] ->
  (t_pc l = Idle /\ todo l = []) \/ ((exists nxt v, t_pc l = LockSleep nxt v) /\ i ∈ wq (ulk s)).
Proof.
  unfold next. intros Hn. destruct (t_pc l) eqn:Hpc; simpl in Hn; try done.
  - left. by destruct (todo l).
  - right. split; [eauto|]. unfold lock_sleep in Hn. destruct (ulk s) as [u|]; [|done].
    simpl. by case_bool_decide.
  - unfold unlock_slow in Hn. repeat case_match; try done.
    pose proof (wake_nonempty UL_UNFAIR_LOCK false i (ulk s)). by destruct (ulock_wake _ _ _ _).
Qed.

Lemma stuck_finished s ls :
  LInv tids s ls -> nf (step (next tids)) (Conf s ls) ->
  (forall i l, ls !! i = Some l -> t_pc l = Idle /\ todo l = []) /\ dul_lock s = 0 /\ ulk s = None.
Proof.
  intros I Hnf.
  assert (forall i l, ls !! i = Some l -> (t_pc l = Idle /\ todo l = []) \/
    ((exists nxt v, t_pc l = LockSleep nxt v) /\ i ∈ wq (ulk s))) as Hst.
  { intros i l Hl. apply lock_next_nil. destruct (next tids i s l) as [|r rs] eqn:Hn; [done|].
    destruct (next_lmoves tids Htids i s ls l I Hl r) as (s' & l' & -> & _); [rewrite Hn; by left|].
    exfalso. eapply nf_next; [done..|]. rewrite Hn. by left. }
  assert (wq (ulk s) = []) as Hq.
  { destruct (decide (wq (ulk s) = [])) as [|Hne]; [done|].
    destruct (li_token _ _ _ I Hne) as (o & lo & _ & Hlo & Ht).
    destruct (Hst o lo Hlo) as [[Hpc _]|[(nxt & v & Hpc) Hin]]; rewrite Hpc in Ht; done. }
  assert (forall i l, ls !! i = Some l -> t_pc l = Idle /\ todo l = []) as Hfin.
  { intros i l Hl. destruct (Hst i l Hl) as [?|[_ Hin]]; [done|]. by rewrite Hq, elem_of_nil in Hin. }
  split_and!; [done| |].
  - destruct (li_word _ _ _ I) as [|(h & b & Hh & Hb & Hw)]; [done|].
    rewrite <- (li_len _ _ _ I) in Hh. destruct (lookup_lt_is_Some_2 ls h Hh) as [lh Hlh].
    destruct (Hfin h lh Hlh) as [Hpc _].
    assert (t_pc lh = Critical) by (apply (li_owner _ _ _ I h lh Hlh); by rewrite Hw, wd_div). congruence.
  - pose proof (li_count _ _ _ I) as Hc. pose proof (li_ull _ _ _ I) as Hu.
    rewrite (proj2 (isum_zero _ _)) in Hc.
    2: { intros i l Hl. unfold in_kernel. by destruct (Hfin i l Hl) as [-> _]. }
    destruct (ulk s); [|done]. simpl in *. lia.
Qed.

End lock_runs.

(** ** The guarantees *)

(** [C5] Threads with distinct port names that share an unfair lock: in every
    interleaving the process does not crash, at most one thread is in its
    critical section, the word of the lock names it, and the lock is free
    exactly when there is none. *)
Theorem lock_mutual_exclusion tids n progs c :
  tids_ok tids -> length progs = length tids ->
  rtc (step (next tids)) (start n progs) c ->
  ~ may_crash (next tids) c /\
  (forall i j li lj, c_thr c !! i = Some li -> c_thr c !! j = Some lj ->
     t_pc li = Critical -> t_pc lj = Critical -> i = j) /\
  (forall i l, c_thr c !! i = Some l ->
     t_pc l = Critical <-> dispatch_lock_is_locked_by (dul_lock (c_sh c)) (tid_self tids i) = true) /\
  (dul_lock (c_sh c) = 0 <-> forall i l, c_thr c !! i = Some l -> t_pc l <> Critical).
Proof.
  intros Htids Hlen Hr.
  assert (LInvC tids c) as I.
  { eapply inv_rtc; [by apply linv_step|exact Hr|]. by apply linv_start. }
  split; [by apply linv_no_crash|]. unfold LInvC in I. destruct c as [s ls]; simpl in *.
  assert (forall i l, ls !! i = Some l -> (i < length tids)%nat) as Hlt by eauto using thread_lt.
  split_and!.
  - intros i j li lj Hi Hj Hci Hcj.
    apply (li_owner _ _ _ I i li Hi) in Hci. apply (li_owner _ _ _ I j lj Hj) in Hcj.
    apply (key_inj tids Htids); eauto. congruence.
  - intros i l Hl. rewrite (li_owner _ _ _ I i l Hl).
    destruct (tid_wd tids Htids i (Hlt i l Hl)) as [-> Hk].
    destruct (li_word _ _ _ I) as [->|(h & b & Hh & Hb & ->)].
    + change (dispatch_lock_is_locked_by 0) with (dispatch_lock_is_locked_by (wd 0 0)). rewrite is_locked_by_wd by lia. change (0 / 4) with 0. lia.
    + destruct (tid_wd tids Htids h Hh) as [_ Hkh]. rewrite is_locked_by_wd, wd_div by lia. lia.
  - split.
    + intros H0 i l Hl Hc%(li_owner _ _ _ I i l Hl). rewrite H0 in Hc. change (0 / 4) with 0 in Hc.
      destruct (tid_wd tids Htids i (Hlt i l Hl)) as [_ Hk]. lia.
    + intros Hno. destruct (li_word _ _ _ I) as [|(h & b & Hh & Hb & Hw)]; [done|exfalso].
      rewrite <- (li_len _ _ _ I) in Hh. destruct (lookup_lt_is_Some_2 ls h Hh) as [lh Hlh].
      apply (Hno h lh Hlh), (li_owner _ _ _ I h lh Hlh). by rewrite Hw, wd_div.
Qed.

(** [C6] No run goes on for ever, and a run that cannot go on has completed every
    critical section of every thread and left the lock free and nobody in
    the kernel: no thread waits for a wake-up that has been lost. *)
Theorem lock_live tids n progs :
  tids_ok tids -> length progs = length tids ->
  sn (step (next tids)) (start n progs) /\
  forall c, rtc (step (next tids)) (start n progs) c -> nf (step (next tids)) c ->
    (forall i l, c_thr c !! i = Some l -> t_pc l = Idle /\ todo l = []) /\
    dul_lock (c_sh c) = 0 /\ ulk (c_sh c) = None.
Proof.
  intros Htids Hlen. split.
  - apply (sn_measure (next tids) (LInvC tids) measure); [|by apply linv_start].
    intros c1 c2 I Hs. split; [by eapply linv_step|]. by apply (lock_measure_step tids Htids).
  - intros c Hr Hnf.
    assert (LInvC tids c) as I.
    { eapply inv_rtc; [by apply linv_step|exact Hr|]. by apply linv_start. }
    destruct c as [s ls]. by apply (stuck_finished tids Htids).
Qed.

(** *** A run with contention *)

Definition demo_tids : list Z := [0x103; 0x207; 0x30b].
Definition demo_progs : list (list section) :=
  [ [{| by_trylock := false; by_tryunlock := false |}];
    [{| by_trylock := false; by_tryunlock := true |}];
    [{| by_trylock := true; by_tryunlock := false |}] ].

(** The first thread takes the lock, the second goes to sleep and is
    interrupted once, the third fails to take the lock; the first releases
    it, learns of the failed attempt and wakes the second. *)
Definition demo_sched : list (nat * nat) :=
  [(0, 0); (1, 0); (1, 0); (1, 0); (1, 0); (1, 0); (1, 0); (2, 0); (0, 0); (0, 0);
   (1, 0); (1, 0); (1, 0)]%nat.

Definition demo_end : conf shared thread :=
  default (start 1 demo_progs) (exec (next demo_tids) demo_sched (start 1 demo_progs)).

Example lock_demo_run :
  (fun c => (log <$> c_thr c, c_sh c)) <$> exec (next demo_tids) demo_sched (start 1 demo_progs)
  = Some ([[Acquired; Released true]; [Acquired; Released false]; [TryFailed 0x103]],
          {| dul_lock := 0; ulk := None; intr := 0 |}).
Proof. vm_compute. reflexivity. Qed.

Lemma lock_mutual_exclusion_witness :
  ~ may_crash (next demo_tids) demo_end /\ dul_lock (c_sh demo_end) = 0.
Proof.
  destruct (lock_mutual_exclusion demo_tids 1 demo_progs demo_end) as (H1 & _ & _ & _ & H2).
  - apply (bool_decide_unpack _). vm_compute. exact I.
  - reflexivity.
  - apply (exec_rtc (next demo_tids) demo_sched). vm_compute. reflexivity.
  - split; [exact H1|]. apply H2.
    intros [|[|[|i]]] l Hl; revert Hl; vm_compute; intros [= <-]; discriminate.
Defined.

Lemma lock_live_witness : sn (step (next demo_tids)) (start 5 demo_progs).
Proof.
  apply (lock_live demo_tids 5 demo_progs).
  - apply (bool_decide_unpack _). vm_compute. exact I.
  - reflexivity.
Defined.
