(* ===== verification/UnfairLock.v ===== *)
(** * The locks of libplatform

    [os_unfair_lock], [os_unfair_recursive_lock] and [_os_nospin_lock] of
    libplatform (src/os/lock.c), the locks that the Objective-C runtime and
    the libraries around it use, on the user locks of the kernel (Ulock.v).

    The word of a lock is 0 or the port name of the owner, whose low bit,
    always set in a port name, is cleared as long as threads may be waiting.
    A recursive lock is such a lock and a count that only the owner touches;
    the nospin lock has the same word, but sleeps without telling the kernel
    who the owner is, and for a limited time only.  The two kinds share the
    shape of their slow paths: the definitions that differ exist twice.

    Clients are programs of calls.  What a call asks for ([allowed]): a thread
    leaves only what it has entered, does not enter a lock that is not recursive
    twice, and asserts only what is so; the code aborts otherwise.  A client
    makes a call in any case, or carefully, only if it is allowed, as after
    an attempt that may have failed.  A program [follows] the rules if none of
    its calls can break them, whatever the attempts return.  In the end a
    thread releases what it still holds. *)

From S2P Require Import Conc Ulock Prelude.

Module UnfairLock.
Import Ulock.

Definition OS_LOCK_NO_OWNER : Z := 0.
Definition OS_ULOCK_NOWAITERS_BIT : Z := 1.
Definition OS_ULOCK_OWNER (value : Z) : Z := Z.lor value OS_ULOCK_NOWAITERS_BIT.
Definition OS_ULOCK_ANONYMOUS_OWNER : Z := MACH_PORT_DEAD.

Definition OS_ULOCK_IS_OWNER (value self allow_anonymous_owner : Z) : bool :=
  let _owner := OS_ULOCK_OWNER value in
  (_owner =? self) &&
  ((allow_anonymous_owner =? 0) || negb (_owner =? OS_ULOCK_ANONYMOUS_OWNER)).

Definition OS_ULOCK_IS_NOT_OWNER (value self allow_anonymous_owner : Z) : bool :=
  let _owner := OS_ULOCK_OWNER value in
  negb (_owner =? self) &&
  ((allow_anonymous_owner =? 0) || negb (_owner =? OS_ULOCK_ANONYMOUS_OWNER)).

Definition OS_UNFAIR_LOCK_DATA_SYNCHRONIZATION : Z := 0x00010000.
Definition OS_UNFAIR_LOCK_ADAPTIVE_SPIN : Z := 0x00040000.
Definition OS_UNFAIR_LOCK_OPTIONS_MASK : Z :=
  Z.lor OS_UNFAIR_LOCK_DATA_SYNCHRONIZATION OS_UNFAIR_LOCK_ADAPTIVE_SPIN.
Definition OS_UNFAIR_LOCK_ALLOW_ANONYMOUS_OWNER : Z := 0x01000000.

Inductive kind := Unfair | Nospin.
#[export] Instance kind_eq_dec : EqDecision kind.
Proof. solve_decision. Defined.

(** The operation code the kind sleeps with. *)
Definition opc (k : kind) : opcode :=
  match k with Unfair => UL_UNFAIR_LOCK | Nospin => UL_COMPARE_AND_WAIT end.

(** The shared state: the word, the count of a recursive lock, the kernel's
    object for the address, and how many interruptions and timeouts of
    sleeping threads are still to come. *)
Record shared := { oul_value : Z; ourl_count : Z; ulk : option ull; intr : nat }.

Definition set_value (v : Z) (s : shared) : shared :=
  {| oul_value := v; ourl_count := ourl_count s; ulk := ulk s; intr := intr s |}.
Definition set_count (n : Z) (s : shared) : shared :=
  {| oul_value := oul_value s; ourl_count := n; ulk := ulk s; intr := intr s |}.
Definition set_ulk (u : option ull) (s : shared) : shared :=
  {| oul_value := oul_value s; ourl_count := ourl_count s; ulk := u; intr := intr s |}.

(** The calls of a client. *)
Inductive op :=
  | Lock (options : Z)
  | Trylock
  | Unlock
  | RLock (options : Z)
  | RTrylock
  | RUnlock
  | RTryunlock
  | ROwned
  | AssertOwner
  | AssertNotOwner.

(** A call of a program, made in any case or carefully. *)
Record step_item := Item { careful : bool; it_op : op }.

(** What a client sees of its calls. *)
Inductive event :=
  | Locked
  | TryLocked (r : bool)
  | Unlocked
  | TryUnlocked (r : bool)
  | IsOwned (r : bool)
  | Asserted.

(** The variables of a slow path. *)
Record vars := {
  waiters_mask : Z;
  timeout : Z;
  options : Z;
  allow_anonymous_owner : Z
}.

Definition set_mask (v : vars) : vars :=
  {| waiters_mask := OS_ULOCK_NOWAITERS_BIT; timeout := timeout v; options := options v;
     allow_anonymous_owner := allow_anonymous_owner v |}.
Definition inc_timeout (v : vars) : vars :=
  {| waiters_mask := waiters_mask v; timeout := u32 (timeout v + 1); options := options v;
     allow_anonymous_owner := allow_anonymous_owner v |}.

Inductive pc :=
  | Run                                  (* between two calls *)
  | SlowLoad (v : vars)                  (* the load in the condition of the loop *)
  | SlowMark (v : vars) (current : Z)    (* the swap that clears the low bit *)
  | SlowWait (v : vars) (current : Z)    (* entry of __ulock_wait *)
  | SlowSleep (v : vars) (current : Z)   (* asleep in the kernel, or woken *)
  | SlowIntr (v : vars) (current ret : Z) (* interrupted or timed out, still in the kernel *)
  | SlowSwap (v : vars)                  (* the swap that takes the lock *)
  | CountUp (e : event)                  (* ourl_count++ *)
  | Counting (e : event)                 (* unlock reads ourl_count *)
  | CheckOwner (e : event)               (* unlock reads the owner *)
  | CountDown (e : event)                (* ourl_count-- *)
  | Exchange (e : event)                 (* unlock clears the word *)
  | UnlockSlow (current : Z) (e : event). (* entry of unlock_slow *)

(** [depth] counts the times the client has entered and not yet left. *)
Record thread := { t_pc : pc; depth : nat; todo : list step_item; log : list event }.

Inductive delta := Keep | Up | Down.

(** Where a step leads: the next place, the change of the depth, and what the
    client sees. *)
Record ctl := Ctl { c_pc : pc; c_depth : delta; c_log : list event }.

Abbreviation Goto p := (Ctl p Keep []).
Abbreviation Return e := (Ctl Run Keep [e]).
Abbreviation Entered e := (Ctl Run Up [e]).

(** [_os_lock_owner_get_self]. *)
Definition os_lock_owner_get_self (tids : list Z) (i : nat) : Z := default 0 (tids !! i).

Section lock.
  Context (k : kind) (tids : list Z) (i : nat).

Abbreviation self := (os_lock_owner_get_self tids i).

(** ** The slow path of lock *)

(** [_retry] in [_os_unfair_lock_lock_slow], up to the next access to
    memory. *)
Definition retry_unfair (v : vars) (current : Z) : res pc :=
  if OS_ULOCK_IS_OWNER current self (allow_anonymous_owner v) then Crash AssertFail
  else
    let new := Z.ldiff current OS_ULOCK_NOWAITERS_BIT in
    if negb (current =? new) then Ok (SlowMark v current) else Ok (SlowWait v current).

(** [_retry] in [_os_nospin_lock_lock_slow]. *)
Definition retry_nospin (v : vars) (current : Z) : res pc :=
  let new := Z.ldiff current OS_ULOCK_NOWAITERS_BIT in
  if negb (current =? new) && negb (new =? 0) then Ok (SlowMark v current) else Ok (SlowWait v current).

Definition retry (v : vars) (current : Z) (s : shared) : res (shared * ctl) :=
  let! p := match k with Unfair => retry_unfair v current | Nospin => retry_nospin v current end in
  Ok (s, Goto p).

(** The condition of the loop. *)
Definition slow_load (v : vars) (s : shared) : res (shared * ctl) :=
  let current := oul_value s in
  if negb (current =? OS_LOCK_NO_OWNER) then retry v current s else Ok (s, Goto (SlowSwap v)).

(** The swap that announces a waiter. *)
Definition slow_mark (v : vars) (current : Z) (s : shared) : shared * ctl :=
  let new := Z.ldiff current OS_ULOCK_NOWAITERS_BIT in
  if oul_value s =? current then (set_value new s, Goto (SlowWait v new))
  else (s, Goto (SlowLoad v)).

(** What follows [__ulock_wait] in [_os_unfair_lock_lock_slow]. *)
Definition waited_unfair (v : vars) (ret : Z) : res vars :=
  if ret <? 0 then
    (if (- ret =? EINTR) || (- ret =? EFAULT) then Ok v else Crash AssertFail)
  else if ret >? 0 then Ok (set_mask v) else Ok v.

(** What follows [__ulock_wait] in [_os_nospin_lock_lock_slow]. *)
Definition waited_nospin (v : vars) (ret : Z) : res vars :=
  if ret <? 0 then
    (if - ret =? ETIMEDOUT then Ok (inc_timeout v)
     else if (- ret =? EINTR) || (- ret =? EFAULT) then Ok v else Crash AssertFail)
  else if ret >? 0 then Ok (set_mask v) else Ok v.

Definition waited (v : vars) (ret : Z) (s : shared) : res (shared * ctl) :=
  let! v' := match k with Unfair => waited_unfair v ret | Nospin => waited_nospin v ret end in
  Ok (s, Goto (SlowLoad v')).

(** [ulock_wait2] with the flag [ULF_WAIT_ADAPTIVE_SPIN]: before it takes the
    lock of the object the kernel reads the word, and, as long as the owner
    runs, reads it again; when the word has changed it returns 0. *)
Definition ulock_wait_spin (spin : bool) (mem value : Z) (u : option ull) :
    list (option ull * wait_outcome) :=
  (if spin && bool_decide (opc k = UL_UNFAIR_LOCK) && negb (mem =? value) then [(u, Returned 0)] else []) ++
  [ulock_wait tids (opc k) i mem value u].

Definition slow_wait (v : vars) (current : Z) (s : shared) : list (res (shared * ctl)) :=
  let spin := negb (Z.land (options v) OS_UNFAIR_LOCK_ADAPTIVE_SPIN =? 0) in
  (fun '(u, out) => match out with
                    | Asleep => Ok (set_ulk u s, Goto (SlowSleep v current))
                    | Returned ret => waited v ret (set_ulk u s)
                    end) <$> ulock_wait_spin spin (oul_value s) current (ulk s).

(** The thread comes back from the kernel. *)
Definition slow_continue (ret : Z) (v : vars) (s : shared) : res (shared * ctl) :=
  match ulk s with
  | None => Crash AssertFail
  | Some u => let '(u', rc) := ulock_wait_continue ret u in waited v rc (set_ulk u' s)
  end.

(** A thread in the queue can be interrupted, or reach its deadline if it has
    one; a woken thread goes on. *)
Definition slow_sleep (v : vars) (current : Z) (s : shared) : list (res (shared * ctl)) :=
  match ulk s with
  | None => [Crash AssertFail]
  | Some u =>
      if bool_decide (i ∈ ull_waitq u) then
        match intr s with
        | O => []
        | S n =>
            let u' := {| ull_owner := ull_owner u; ull_nwaiters := ull_nwaiters u;
                         ull_opcode := ull_opcode u; ull_waitq := leave i (ull_waitq u) |} in
            let s' := {| oul_value := oul_value s; ourl_count := ourl_count s;
                         ulk := Some u'; intr := n |} in
            (fun ret => Ok (s', Goto (SlowIntr v current ret))) <$>
              match k with Unfair => [EINTR] | Nospin => [EINTR; ETIMEDOUT] end
        end
      else [slow_continue 0 v s]
  end.

(** The swap at the end, and [goto _retry] when it fails. *)
Definition slow_swap (v : vars) (s : shared) : res (shared * ctl) :=
  let new := Z.ldiff self (waiters_mask v) in
  let current := oul_value s in
  if current =? OS_LOCK_NO_OWNER then Ok (set_value new s, Entered Locked) else retry v current s.

(** The beginning of [_os_unfair_lock_lock_slow]. *)
Definition os_unfair_lock_lock_slow (options : Z) (s : shared) : res (shared * ctl) :=
  let allow := Z.land options OS_UNFAIR_LOCK_ALLOW_ANONYMOUS_OWNER in
  let options := Z.ldiff options OS_UNFAIR_LOCK_ALLOW_ANONYMOUS_OWNER in
  if negb (Z.ldiff options OS_UNFAIR_LOCK_OPTIONS_MASK =? 0) then Crash AssertFail
  else Ok (s, Goto (SlowLoad {| waiters_mask := 0; timeout := 0; options := options;
                                allow_anonymous_owner := allow |})).

(** The beginning of [_os_nospin_lock_lock_slow]. *)
Definition os_nospin_lock_lock_slow (s : shared) : res (shared * ctl) :=
  Ok (s, Goto (SlowLoad {| waiters_mask := 0; timeout := 1; options := 0; allow_anonymous_owner := 0 |})).

(** ** The slow path of unlock *)

(** The loop around [__ulock_wake]. *)
Definition unlock_wake (current : Z) (e : event) (s : shared) : list (res (shared * ctl)) :=
  (fun '(u, ret) =>
     if (ret <? 0) && (- ret =? EINTR) then Ok (set_ulk u s, Goto (UnlockSlow current e))
     else if (ret <? 0) && negb (- ret =? ENOENT) then Crash AssertFail
     else Ok (set_ulk u s, Return e))
  <$> ulock_wake (opc k) false i (ulk s).

(** [_os_unfair_lock_unlock_slow], which unlock calls without options. *)
Definition os_unfair_lock_unlock_slow (current : Z) (e : event) (s : shared) : list (res (shared * ctl)) :=
  if OS_ULOCK_IS_NOT_OWNER current self 0 then [Crash AssertFail]
  else if negb (Z.land current OS_ULOCK_NOWAITERS_BIT =? 0) then [Crash AssertFail]
  else unlock_wake current e s.

(** [_os_nospin_lock_unlock_slow]. *)
Definition os_nospin_lock_unlock_slow (current : Z) (e : event) (s : shared) : list (res (shared * ctl)) :=
  if negb (OS_ULOCK_OWNER current =? self) then [Ok (s, Return e)]
  else if negb (Z.land current OS_ULOCK_NOWAITERS_BIT =? 0) then [Crash AssertFail]
  else unlock_wake current e s.

Definition unlock_slow (current : Z) (e : event) (s : shared) : list (res (shared * ctl)) :=
  match k with
  | Unfair => os_unfair_lock_unlock_slow current e s
  | Nospin => os_nospin_lock_unlock_slow current e s
  end.

(** ** Calls on the plain lock *)

(** [os_unfair_lock_lock_with_options]; [os_unfair_lock_lock] passes no
    options, and the form without thread-specific data the caller's port. *)
Definition os_unfair_lock_lock_with_options (options : Z) (s : shared) : res (shared * ctl) :=
  if oul_value s =? OS_LOCK_NO_OWNER then Ok (set_value self s, Entered Locked)
  else os_unfair_lock_lock_slow options s.

(** [_os_nospin_lock_lock]. *)
Definition os_nospin_lock_lock (s : shared) : res (shared * ctl) :=
  if oul_value s =? OS_LOCK_NO_OWNER then Ok (set_value self s, Entered Locked)
  else os_nospin_lock_lock_slow s.

(** [os_unfair_lock_trylock] and [_os_nospin_lock_trylock]. *)
Definition os_unfair_lock_trylock (s : shared) : shared * ctl :=
  if oul_value s =? OS_LOCK_NO_OWNER then (set_value self s, Entered (TryLocked true))
  else (s, Return (TryLocked false)).

(** [os_unfair_lock_unlock] and [_os_nospin_lock_unlock]. *)
Definition os_unfair_lock_unlock (e : event) (s : shared) : shared * ctl :=
  let current := oul_value s in
  let s := set_value OS_LOCK_NO_OWNER s in
  if current =? self then (s, Ctl Run Down [e]) else (s, Ctl (UnlockSlow current e) Down []).

Definition os_unfair_lock_assert_owner (s : shared) : res (shared * ctl) :=
  if OS_ULOCK_IS_NOT_OWNER (oul_value s) self 0 then Crash AssertFail else Ok (s, Return Asserted).

Definition os_unfair_lock_assert_not_owner (s : shared) : res (shared * ctl) :=
  if OS_ULOCK_IS_OWNER (oul_value s) self 0 then Crash AssertFail else Ok (s, Return Asserted).

(** ** Calls on the recursive lock *)

Definition os_unfair_lock_owner (s : shared) : Z := OS_ULOCK_OWNER (oul_value s).

Definition os_unfair_recursive_lock_owned (s : shared) : bool := os_unfair_lock_owner s =? self.

Definition os_unfair_recursive_lock_lock_with_options (options : Z) (s : shared) : res (shared * ctl) :=
  let cur := oul_value s in
  if cur =? OS_LOCK_NO_OWNER then Ok (set_value self s, Entered Locked)
  else if OS_ULOCK_OWNER cur =? self then Ok (s, Goto (CountUp Locked))
  else os_unfair_lock_lock_slow options s.

Definition os_unfair_recursive_lock_trylock (s : shared) : shared * ctl :=
  let cur := oul_value s in
  if cur =? OS_LOCK_NO_OWNER then (set_value self s, Entered (TryLocked true))
  else if OS_ULOCK_OWNER cur =? self then (s, Goto (CountUp (TryLocked true)))
  else (s, Return (TryLocked false)).

Definition count_up (e : event) (s : shared) : shared * ctl :=
  (set_count (u32 (ourl_count s + 1)) s, Entered e).

(** [_os_unfair_recursive_lock_unlock], one definition per access to
    memory. *)
Definition os_unfair_recursive_lock_unlock (e : event) (s : shared) : shared * ctl :=
  if negb (ourl_count s =? 0) then (s, Goto (CheckOwner e)) else (s, Goto (Exchange e)).

Definition recursive_check_owner (e : event) (s : shared) : res (shared * ctl) :=
  if negb (os_unfair_lock_owner s =? self) then Crash AssertFail else Ok (s, Goto (CountDown e)).

Definition count_down (e : event) (s : shared) : shared * ctl :=
  (set_count (u32 (ourl_count s - 1)) s, Ctl Run Down [e]).

Definition os_unfair_recursive_lock_tryunlock4objc (s : shared) : shared * ctl :=
  if os_unfair_lock_owner s =? self then (s, Goto (Counting (TryUnlocked true)))
  else (s, Return (TryUnlocked false)).

(** [os_unfair_recursive_lock_unlock_forked_child], in a process with one
    thread. *)
Definition os_unfair_recursive_lock_unlock_forked_child (s : shared) : res shared :=
  if oul_value s =? OS_LOCK_NO_OWNER then Crash AssertFail
  else if negb (ourl_count s =? 0) then Ok (set_value self (set_count (u32 (ourl_count s - 1)) s))
  else Ok (set_value OS_LOCK_NO_OWNER s).

(** ** Clients *)

(** The next step inside a call. *)
Definition pc_next (s : shared) (p : pc) : list (res (shared * ctl)) :=
  match p with
  | Run => []
  | SlowLoad v => [slow_load v s]
  | SlowMark v current => [Ok (slow_mark v current s)]
  | SlowWait v current => slow_wait v current s
  | SlowSleep v current => slow_sleep v current s
  | SlowIntr v current ret => [slow_continue ret v s]
  | SlowSwap v => [slow_swap v s]
  | CountUp e => [Ok (count_up e s)]
  | Counting e => [Ok (os_unfair_recursive_lock_unlock e s)]
  | CheckOwner e => [recursive_check_owner e s]
  | CountDown e => [Ok (count_down e s)]
  | Exchange e => [Ok (os_unfair_lock_unlock e s)]
  | UnlockSlow current e => unlock_slow current e s
  end.

(** The first step of a call. *)
Definition call (o : op) (s : shared) : res (shared * ctl) :=
  match o with
  | Lock options =>
      match k with
      | Unfair => os_unfair_lock_lock_with_options options s
      | Nospin => os_nospin_lock_lock s
      end
  | Trylock => Ok (os_unfair_lock_trylock s)
  | Unlock => Ok (os_unfair_lock_unlock Unlocked s)
  | RLock options => os_unfair_recursive_lock_lock_with_options options s
  | RTrylock => Ok (os_unfair_recursive_lock_trylock s)
  | RUnlock => Ok (os_unfair_recursive_lock_unlock Unlocked s)
  | RTryunlock => Ok (os_unfair_recursive_lock_tryunlock4objc s)
  | ROwned => Ok (s, Return (IsOwned (os_unfair_recursive_lock_owned s)))
  | AssertOwner => os_unfair_lock_assert_owner s
  | AssertNotOwner => os_unfair_lock_assert_not_owner s
  end.

(** May a client at depth [d] make the call? *)
Definition allowed (o : op) (d : nat) : bool :=
  match o with
  | Lock _ => (d =? 0)%nat
  | Trylock => true
  | Unlock => (d =? 1)%nat
  | RUnlock | AssertOwner => bool_decide (k = Unfair) && negb (d =? 0)%nat
  | AssertNotOwner => bool_decide (k = Unfair) && (d =? 0)%nat
  | RLock _ | RTrylock | RTryunlock | ROwned => bool_decide (k = Unfair)
  end.

(** A careful client leaves out a call that is not allowed. *)
Definition perform (it : step_item) (d : nat) (s : shared) : res (shared * ctl) :=
  if careful it && negb (allowed (it_op it) d) then Ok (s, Goto Run) else call (it_op it) s.

(** The depths a call may lead to. *)
Definition after (o : op) (d : nat) : list nat :=
  match o with
  | Lock _ => [1%nat]
  | Trylock => if (d =? 0)%nat then [0%nat; 1%nat] else [d]
  | Unlock => [0%nat]
  | RLock _ => [S d]
  | RTrylock => if (d =? 0)%nat then [0%nat; 1%nat] else [S d]
  | RUnlock | RTryunlock => [pred d]
  | ROwned | AssertOwner | AssertNotOwner => [d]
  end.

(** No call of the program can break the rules. *)
Fixpoint follows (d : nat) (its : list step_item) : bool :=
  match its with
  | [] => true
  | it :: its =>
      if allowed (it_op it) d then forallb (fun d' => follows d' its) (after (it_op it) d)
      else careful it && follows d its
  end.

End lock.

(** How a client leaves what it still holds at the end. *)
Definition leave_op (k : kind) : op := match k with Unfair => RUnlock | Nospin => Unlock end.

Definition go (l : thread) (c : ctl) : thread :=
  {| t_pc := c_pc c;
     depth := match c_depth c with Keep => depth l | Up => S (depth l) | Down => pred (depth l) end;
     todo := todo l; log := log l ++ c_log c |}.

Definition continue (l : thread) (r : res (shared * ctl)) : res (shared * thread) :=
  let! (s, c) := r in Ok (s, go l c).

Definition with_todo (l : thread) (rest : list step_item) : thread :=
  {| t_pc := t_pc l; depth := depth l; todo := rest; log := log l |}.

Definition next (k : kind) (tids : list Z) (i : nat) (s : shared) (l : thread) : list (res (shared * thread)) :=
  match t_pc l with
  | Run =>
      match todo l with
      | it :: rest => [continue (with_todo l rest) (perform k tids i it (depth l) s)]
      | [] => if (depth l =? 0)%nat then [] else [continue l (call k tids i (leave_op k) s)]
      end
  | p => continue l <$> pc_next k tids i s p
  end.

(** Clients of a lock that nobody holds. *)
Definition start (n : nat) (progs : list (list step_item)) : conf shared thread :=
  Conf {| oul_value := OS_LOCK_NO_OWNER; ourl_count := 0; ulk := None; intr := n |}
       ((fun ops => {| t_pc := Run; depth := 0; todo := ops; log := [] |}) <$> progs).

(** The options a call may have. *)
Definition op_ok (o : op) : bool :=
  match o with
  | Lock options | RLock options =>
      Z.ldiff options (Z.lor OS_UNFAIR_LOCK_OPTIONS_MASK OS_UNFAIR_LOCK_ALLOW_ANONYMOUS_OWNER) =? 0
  | _ => true
  end.

(** A call that is made in any case. *)
Abbreviation Do o := (Item false o).
(** A call that is made if it is allowed. *)
Abbreviation If o := (Item true o).

End UnfairLock.
