(* ===== verification/UnfairInv.v ===== *)
(** * The invariant of the locks of libplatform

    The word names the one thread that has entered, and the count of a
    recursive lock is one less than its depth.  As long as threads sleep in
    the kernel there is a thread that will wake one of them: the holder of a
    lock marked as contended, a thread that has just released such a lock, or
    a thread that has been woken and will mark the lock when it takes it; for
    unfair locks the kernel knows this thread as the owner. *)

From S2P Require Import Conc Ulock Lock UnfairLock Prelude.
Import Ulock UnfairLock.

Lemma ldiff_bit0 z : Z.ldiff z 1 = 2 * (z / 2).
Proof.
  change 1 with (Z.ones 1). rewrite Z.ldiff_ones_r, Z.shiftl_mul_pow2, Z.shiftr_div_pow2 by lia.
  change (2 ^ 1) with 2. lia.
Qed.

Section words.
  Context (tids : list Z) (Htids : tids_ok tids).

(** The word of a lock that thread [h] holds, [m] when it is marked. *)
Definition uw (h : nat) (m : bool) : Z := wd (key tids h) (if m then 2 else 3).

Lemma self_uw i : (i < length tids)%nat -> os_lock_owner_get_self tids i = uw i false.
Proof. intros Hi. by destruct (tid_wd tids Htids i Hi). Qed.

Lemma uw_range h m : (h < length tids)%nat -> 4 < uw h m < MACH_PORT_DEAD.
Proof.
  intros Hh. destruct (tid_wd tids Htids h Hh) as [_ Hk].
  unfold uw, wd, MACH_PORT_DEAD. destruct m; lia.
Qed.

Lemma uw_ldiff h m : Z.ldiff (uw h m) OS_ULOCK_NOWAITERS_BIT = uw h true.
Proof. unfold OS_ULOCK_NOWAITERS_BIT. rewrite ldiff_bit0. unfold uw, wd. destruct m; zbits. Qed.

Lemma uw_owner h m : OS_ULOCK_OWNER (uw h m) = uw h false.
Proof.
  unfold OS_ULOCK_OWNER, OS_ULOCK_NOWAITERS_BIT, uw. rewrite wd_lor by (destruct m; lia). by destruct m.
Qed.

Lemma uw_nowaiters h m : (Z.land (uw h m) OS_ULOCK_NOWAITERS_BIT =? 0) = m.
Proof.
  unfold OS_ULOCK_NOWAITERS_BIT, uw. rewrite wd_land_low by (destruct m; lia). by destruct m.
Qed.

Lemma uw_mark_inj h h' m m' : uw h m = uw h' m' -> m = m'.
Proof. intros Hu. apply wd_inj in Hu as [_ Hb]; destruct m, m'; lia || done. Qed.

Lemma uw_inj h h' m m' :
  (h < length tids)%nat -> (h' < length tids)%nat -> uw h m = uw h' m' -> h = h'.
Proof.
  intros Hh Hh' Hu. apply wd_inj in Hu as [Hk _]; [|destruct m; lia|destruct m'; lia].
  by apply (key_inj tids Htids).
Qed.

Lemma uw_eqb h i m m' :
  (h < length tids)%nat -> (i < length tids)%nat -> (uw h m =? uw i m') = bool_decide (h = i) && eqb m m'.
Proof.
  intros Hh Hi. case_bool_decide as He; simpl.
  - subst i. destruct m, m'; simpl; rewrite ?Z.eqb_refl; try done; apply Z.eqb_neq; unfold uw, wd; lia.
  - apply Z.eqb_neq. intros Hu. by apply He, (uw_inj h i m m').
Qed.

Section owner.
  Context (h i : nat) (m : bool) (a : Z).
  Context (Hh : (h < length tids)%nat) (Hi : (i < length tids)%nat).

Lemma is_owner_uw :
  OS_ULOCK_IS_OWNER (uw h m) (os_lock_owner_get_self tids i) a = bool_decide (h = i).
Proof.
  unfold OS_ULOCK_IS_OWNER. rewrite uw_owner, self_uw, uw_eqb by done. simpl.
  unfold OS_ULOCK_ANONYMOUS_OWNER. rewrite (proj2 (Z.eqb_neq _ MACH_PORT_DEAD)).
  - by rewrite orb_true_r, !andb_true_r.
  - pose proof (uw_range h false Hh). lia.
Qed.

Lemma is_not_owner_uw :
  OS_ULOCK_IS_NOT_OWNER (uw h m) (os_lock_owner_get_self tids i) a = bool_decide (h <> i).
Proof.
  unfold OS_ULOCK_IS_NOT_OWNER. rewrite uw_owner, self_uw, uw_eqb by done. simpl.
  unfold OS_ULOCK_ANONYMOUS_OWNER. rewrite (proj2 (Z.eqb_neq _ MACH_PORT_DEAD)).
  - rewrite orb_true_r, !andb_true_r. by repeat case_bool_decide.
  - pose proof (uw_range h false Hh). lia.
Qed.

Lemma owner_self_uw : (OS_ULOCK_OWNER (uw h m) =? os_lock_owner_get_self tids i) = bool_decide (h = i).
Proof. rewrite uw_owner, self_uw, uw_eqb by done. by rewrite andb_true_r. Qed.

End owner.

(** Nobody owns the free lock. *)
Lemma owner_free i : (i < length tids)%nat -> (OS_ULOCK_OWNER 0 =? os_lock_owner_get_self tids i) = false.
Proof.
  intros Hi. rewrite self_uw by done. apply Z.eqb_neq. pose proof (uw_range i false Hi).
  change (OS_ULOCK_OWNER 0) with 1. lia.
Qed.

End words.

(** ** The invariant *)

(** The programs of well-behaved clients: the options are known ones, the
    count of the recursive lock cannot overflow, and no call breaks the rules of
    the lock. *)
Definition progs_ok (k : kind) (progs : list (list step_item)) : Prop :=
  Forall (fun its => Z.of_nat (length its) < 2 ^ 32 /\ Forall (fun it => op_ok (it_op it) = true) its /\
                     follows k 0 its = true) progs.

#[export] Instance progs_ok_dec k progs : Decision (progs_ok k progs).
Proof. unfold progs_ok. apply _. Defined.

#[export] Instance event_eq_dec : EqDecision event.
Proof. solve_decision. Defined.
#[export] Instance vars_eq_dec : EqDecision vars.
Proof. solve_decision. Defined.
#[export] Instance upc_eq_dec : EqDecision pc.
Proof. solve_decision. Defined.

(** Inside [__ulock_wait]. *)
Definition in_kernel (l : thread) : nat :=
  match t_pc l with SlowSleep _ _ | SlowIntr _ _ _ => 1 | _ => 0 end.
Definition is_sleep (p : pc) : bool := match p with SlowSleep _ _ => true | _ => false end.

(** A call that may still add to the depth. *)
Definition pending (p : pc) : nat :=
  match p with
  | SlowLoad _ | SlowMark _ _ | SlowWait _ _ | SlowSleep _ _ | SlowIntr _ _ _ | SlowSwap _ | CountUp _ => 1
  | _ => 0
  end.

(** The depth of a thread when the call it is in has returned. *)
Definition moved (x : delta) (d : nat) : nat := match x with Keep => d | Up => S d | Down => pred d end.
Definition leads (p : pc) (d : nat) : nat :=
  match p with
  | SlowLoad _ | SlowMark _ _ | SlowWait _ _ | SlowSleep _ _ | SlowIntr _ _ _ | SlowSwap _ | CountUp _ => S d
  | Counting _ | CheckOwner _ | CountDown _ | Exchange _ => pred d
  | Run | UnlockSlow _ _ => d
  end.

Section inv.
  Context (k : kind) (tids : list Z) (Htids : tids_ok tids).

(** What the thread has still to do follows the rules. *)
Definition lawful (l : thread) : Prop := follows k (leads (t_pc l) (depth l)) (todo l) = true.

#[local] Abbreviation uw := (uw tids).

(** The thread that is to wake the sleepers. *)
Definition token (s : shared) (o : nat) (l : thread) : Prop :=
  match t_pc l with
  | SlowLoad v | SlowMark v _ | SlowWait v _ | SlowSwap v => waiters_mask v = OS_ULOCK_NOWAITERS_BIT
  | SlowSleep _ _ => ~ o ∈ wq (ulk s)
  | SlowIntr _ _ _ => False
  | UnlockSlow _ _ => True
  | _ => oul_value s = uw o true
  end.

Definition vars_ok (v : vars) : Prop := waiters_mask v = 0 \/ waiters_mask v = OS_ULOCK_NOWAITERS_BIT.
(** A value of the lock that another thread holds. *)
Definition other (i : nat) (m : bool) (v : Z) : Prop :=
  exists h, (h < length tids)%nat /\ h <> i /\ v = uw h m.

Definition pc_ok (i : nat) (d : nat) (p : pc) : Prop :=
  match p with
  | Run => True
  | SlowLoad v | SlowSwap v => d = 0%nat /\ vars_ok v
  | SlowMark v c => d = 0%nat /\ vars_ok v /\ other i false c
  | SlowWait v c | SlowSleep v c => d = 0%nat /\ vars_ok v /\ other i true c
  | SlowIntr v c ret => d = 0%nat /\ vars_ok v /\ other i true c /\ (ret = EINTR \/ k = Nospin /\ ret = ETIMEDOUT)
  | CountUp _ | Counting _ => (0 < d)%nat /\ k = Unfair
  | CheckOwner _ | CountDown _ => (2 <= d)%nat /\ k = Unfair
  | Exchange _ => d = 1%nat /\ k = Unfair
  | UnlockSlow c _ => d = 0%nat /\ c = uw i true
  end.

Record UInv (s : shared) (ls : list thread) : Prop := {
  ui_len : length ls = length tids;
  ui_word : oul_value s = 0 \/ exists h m, (h < length tids)%nat /\ oul_value s = uw h m;
  ui_owner : forall i l, ls !! i = Some l -> (0 < depth l)%nat <-> exists m, oul_value s = uw i m;
  ui_free : oul_value s = 0 -> ourl_count s = 0;
  ui_rcount : forall i l, ls !! i = Some l -> (0 < depth l)%nat -> ourl_count s = Z.of_nat (depth l) - 1;
  ui_nospin : k = Nospin -> ourl_count s = 0;
  ui_room : forall i l, ls !! i = Some l ->
    Z.of_nat (depth l + length (todo l) + pending (t_pc l)) < 2 ^ 32;
  ui_todo : forall i l, ls !! i = Some l -> Forall (fun it => op_ok (it_op it) = true) (todo l);
  ui_pc : forall i l, ls !! i = Some l -> pc_ok i (depth l) (t_pc l);
  ui_count : nwaiters (ulk s) = Z.of_nat (tsum in_kernel ls);
  ui_ull : ull_ok (opc k) (ulk s);
  ui_nodup : NoDup (wq (ulk s));
  ui_queue : forall i, i ∈ wq (ulk s) -> exists l, ls !! i = Some l /\ is_sleep (t_pc l) = true;
  ui_token : wq (ulk s) <> [] -> exists o lo, (k = Unfair -> owner (ulk s) = Some o) /\
    ls !! o = Some lo /\ token s o lo
}.

(** ** What a step may do *)

(** To the word and to the depth of the thread. *)
Inductive wchange (i : nat) (s : shared) (l : thread) (s' : shared) (l' : thread) : Prop :=
  | wc_same :
      oul_value s' = oul_value s -> (0 < depth l')%nat <-> (0 < depth l)%nat -> wchange i s l s' l'
  | wc_mark h :
      (h < length tids)%nat -> depth l = 0%nat -> depth l' = 0%nat ->
      oul_value s = uw h false -> oul_value s' = uw h true -> wchange i s l s' l'
  | wc_take m :
      oul_value s = 0 -> oul_value s' = uw i m -> depth l = 0%nat -> (0 < depth l')%nat ->
      wchange i s l s' l'
  | wc_release :
      (0 < depth l)%nat -> depth l' = 0%nat -> oul_value s' = 0 -> wchange i s l s' l'.

(** To the count and to what the thread has still to do. *)
Record lchange (s : shared) (l : thread) (s' : shared) (l' : thread) : Prop := {
  lc_in : (0 < depth l')%nat -> ourl_count s' = Z.of_nat (depth l') - 1;
  lc_out : depth l' = 0%nat -> depth l = 0%nat /\ ourl_count s' = ourl_count s \/ (0 < depth l)%nat /\ ourl_count s' = 0;
  lc_nospin : k = Nospin -> ourl_count s' = 0;
  lc_room : (depth l' + length (todo l') + pending (t_pc l') <= depth l + length (todo l) + pending (t_pc l))%nat;
  lc_todo : todo l' = todo l \/ exists o, todo l = o :: todo l'
}.

Record umoves (i : nat) (s : shared) (ls : list thread) (l : thread) (s' : shared) (l' : thread) : Prop := {
  um_word : wchange i s l s' l';
  um_local : lchange s l s' l';
  um_pc : pc_ok i (depth l') (t_pc l');
  um_count : nwaiters (ulk s') - nwaiters (ulk s) = Z.of_nat (in_kernel l') - Z.of_nat (in_kernel l);
  um_ull : ull_ok (opc k) (ulk s');
  um_nodup : NoDup (wq (ulk s'));
  um_queue : forall j, j ∈ wq (ulk s') -> j <> i -> j ∈ wq (ulk s);
  um_self : i ∈ wq (ulk s') -> is_sleep (t_pc l') = true;
  um_token : wq (ulk s') <> [] ->
    (owner (ulk s') = owner (ulk s) /\ wq (ulk s) <> [] /\ (token s i l -> token s' i l')) \/
    exists o lo, (k = Unfair -> owner (ulk s') = Some o) /\ o <> i /\ ls !! o = Some lo /\ token s' o lo
}.

Section step.
  Context (i : nat) (s : shared) (ls : list thread) (l : thread).
  Context (I : UInv s ls) (Hl : ls !! i = Some l).

Lemma uthread_lt j x : ls !! j = Some x -> (j < length tids)%nat.
Proof. intros Hx. rewrite <- (ui_len _ _ I). by eapply lookup_lt_Some. Qed.

Lemma unot_queued : is_sleep (t_pc l) = false -> ~ i ∈ wq (ulk s).
Proof. intros H0 Hi. destruct (ui_queue _ _ I i Hi) as (l2 & Hl2 & ?). congruence. Qed.

(** The holder and the word. *)
Lemma holder_uw : (0 < depth l)%nat -> exists m, oul_value s = uw i m.
Proof. apply (ui_owner _ _ I i l Hl). Qed.

Lemma free_depth : oul_value s = 0 -> depth l = 0%nat.
Proof.
  intros H0. destruct (decide (0 < depth l)%nat) as [Hd|]; [|lia].
  destruct (holder_uw Hd) as [m Hm]. pose proof (uw_range tids Htids i m (uthread_lt i l Hl)). lia.
Qed.

(** A thread that has not entered sees a free lock or somebody else's. *)
Lemma uword_cases :
  depth l = 0%nat ->
  oul_value s = 0 \/ exists h m, (h < length tids)%nat /\ h <> i /\ oul_value s = uw h m.
Proof.
  intros Hd. destruct (ui_word _ _ I) as [H0|(h & m & Hh & Hw)]; [by left|right].
  exists h, m. split_and!; [done| |done]. intros ->.
  assert (0 < depth l)%nat by (apply (ui_owner _ _ I i l Hl); eauto). lia.
Qed.

Lemma wchange_others s' l' j x :
  wchange i s l s' l' -> j <> i -> ls !! j = Some x ->
  (exists m, oul_value s' = uw j m) <-> (0 < depth x)%nat.
Proof.
  intros W Hne Hx. rewrite (ui_owner _ _ I j x Hx).
  pose proof (uthread_lt i l Hl) as Hi. pose proof (uthread_lt j x Hx) as Hj.
  destruct W as [-> _|h Hh _ _ Hs Hs'|m Hs Hs' _ _|Hd _ Hs']; [done|..].
  - rewrite Hs, Hs'. split; intros [m ?%(uw_inj tids Htids)]; subst; eauto.
  - rewrite Hs, Hs'. split; intros [m' Hm'].
    + by apply (uw_inj tids Htids) in Hm'; [subst|..].
    + pose proof (uw_range tids Htids j m' Hj). lia.
  - destruct (holder_uw Hd) as [m Hm]. rewrite Hm, Hs'. split; intros [m' Hm'].
    + pose proof (uw_range tids Htids j m' Hj). lia.
    + by apply (uw_inj tids Htids) in Hm'; [subst|..].
Qed.

Lemma wchange_self s' l' :
  wchange i s l s' l' -> (0 < depth l')%nat <-> exists m, oul_value s' = uw i m.
Proof.
  intros W. pose proof (uthread_lt i l Hl) as Hi.
  destruct W as [-> Hd|h Hh Hd Hd' Hs Hs'|m Hs Hs' _ Hd'|Hd Hd' Hs'].
  - by rewrite Hd, (ui_owner _ _ I i l Hl).
  - split; [lia|]. intros [m Hm]. rewrite Hs' in Hm.
    apply (uw_inj tids Htids) in Hm as ->; [|done..].
    assert (0 < depth l)%nat by (apply (ui_owner _ _ I i l Hl); eauto). lia.
  - split; eauto.
  - split; [lia|]. intros [m Hm]. pose proof (uw_range tids Htids i m Hi). lia.
Qed.

Lemma wchange_word s' l' :
  wchange i s l s' l' -> oul_value s' = 0 \/ exists h m, (h < length tids)%nat /\ oul_value s' = uw h m.
Proof.
  pose proof (uthread_lt i l Hl). pose proof (ui_word _ _ I).
  destruct 1 as [-> _|h ? _ _ _ Hs'|m _ Hs' _ _|_ _ Hs']; eauto.
Qed.

(** A marked lock stays marked for its holder. *)
Lemma wchange_marked s' l' o :
  wchange i s l s' l' -> o <> i -> (o < length tids)%nat -> oul_value s = uw o true -> oul_value s' = uw o true.
Proof.
  pose proof (uthread_lt i l Hl) as Hi. intros W Hne Ho Hs.
  destruct W as [-> _|h _ _ _ Hm _|m Hm _ _ _|Hd _ _]; [done|..].
  - rewrite Hs in Hm. by apply uw_mark_inj in Hm.
  - pose proof (uw_range tids Htids o true Ho). lia.
  - destruct (holder_uw Hd) as [m Hm]. rewrite Hs in Hm. by apply (uw_inj tids Htids) in Hm; [|done..].
Qed.

(** The count after a step, for a free lock and for the other threads. *)
Lemma count_free s' l' :
  wchange i s l s' l' -> lchange s l s' l' -> oul_value s' = 0 -> ourl_count s' = 0.
Proof.
  intros W L H0. assert (~ (0 < depth l')%nat) as Hd.
  { intros [m Hm]%(wchange_self s' l' W). pose proof (uw_range tids Htids i m (uthread_lt i l Hl)). lia. }
  destruct (lc_out _ _ _ _ L ltac:(lia)) as [[Hdl ->]|[_ ->]]; [|done].
  destruct W as [Hs _|h Hh _ _ _ Hs'|m _ _ _ Hd'|Hdl' _ _]; [|pose proof (uw_range tids Htids h true Hh); lia|lia..].
  apply (ui_free _ _ I). congruence.
Qed.

Lemma count_others s' l' j x :
  wchange i s l s' l' -> lchange s l s' l' -> j <> i -> ls !! j = Some x -> (0 < depth x)%nat ->
  ourl_count s' = Z.of_nat (depth x) - 1.
Proof.
  intros W L Hne Hx Hd. assert (~ (0 < depth l)%nat) as Hdl.
  { intros [m Hm]%holder_uw. apply (ui_owner _ _ I j x Hx) in Hd as [m' Hm']. rewrite Hm in Hm'.
    apply (uw_inj tids Htids) in Hm'; eauto using uthread_lt. }
  assert (~ (0 < depth l')%nat) as Hdl'.
  { intros [m Hm]%(wchange_self s' l' W). apply (wchange_others s' l' j x W Hne Hx) in Hd as [m' Hm'].
    rewrite Hm in Hm'. apply (uw_inj tids Htids) in Hm'; eauto using uthread_lt. }
  destruct (lc_out _ _ _ _ L ltac:(lia)) as [[_ ->]|[? _]]; [|lia]. by apply (ui_rcount _ _ I j x).
Qed.

Lemma umoves_inv s' l' : umoves i s ls l s' l' -> UInv s' (<[i := l']> ls).
Proof.
  intros M. pose proof (isum_insert (fun _ => in_kernel) ls i l l' Hl) as Hc.
  pose proof (um_word _ _ _ _ _ _ M) as W. pose proof (um_local _ _ _ _ _ _ M) as L.
  assert (forall j x, <[i := l']> ls !! j = Some x -> j = i /\ x = l' \/ j <> i /\ ls !! j = Some x) as Hins.
  { intros j x. by apply (lookup_moved ls i l). }
  assert (<[i := l']> ls !! i = Some l') as Hi by (apply list_lookup_insert_eq; by eapply lookup_lt_Some).
  split.
  - by rewrite length_insert, (ui_len _ _ I).
  - by apply (wchange_word s' l').
  - intros j x [[-> ->]|[Hne Hx]]%Hins; [by apply wchange_self|].
    by rewrite (wchange_others s' l' j x W Hne Hx).
  - by apply (count_free s' l').
  - intros j x [[-> ->]|[Hne Hx]]%Hins; [apply (lc_in _ _ _ _ L)|]. by apply (count_others s' l' j x).
  - apply (lc_nospin _ _ _ _ L).
  - intros j x [[-> ->]|[Hne Hx]]%Hins; [|by apply (ui_room _ _ I j)].
    pose proof (ui_room _ _ I i l Hl). pose proof (lc_room _ _ _ _ L). lia.
  - intros j x [[-> ->]|[Hne Hx]]%Hins; [|by apply (ui_todo _ _ I j)].
    pose proof (ui_todo _ _ I i l Hl) as Ht. destruct (lc_todo _ _ _ _ L) as [->|[o Ho]]; [done|].
    rewrite Ho in Ht. by inversion Ht.
  - intros j x [[-> ->]|[Hne Hx]]%Hins; [apply (um_pc _ _ _ _ _ _ M)|]. by apply (ui_pc _ _ I).
  - pose proof (um_count _ _ _ _ _ _ M). pose proof (ui_count _ _ I). lia.
  - apply (um_ull _ _ _ _ _ _ M).
  - apply (um_nodup _ _ _ _ _ _ M).
  - intros j Hj. destruct (decide (j = i)) as [->|Hne].
    + exists l'. split; [done|]. by apply (um_self _ _ _ _ _ _ M).
    + rewrite list_lookup_insert_ne by done. apply (ui_queue _ _ I). by apply (um_queue _ _ _ _ _ _ M).
  - intros Hq. destruct (um_token _ _ _ _ _ _ M Hq) as [(Ho & Hq0 & Hkeep)|(o & lo & Ho & Hne & Hlo & Ht)].
    2: { exists o, lo. by rewrite list_lookup_insert_ne by done. }
    destruct (ui_token _ _ I Hq0) as (o & lo & Howner & Hlo & Ht). rewrite Ho.
    destruct (decide (o = i)) as [->|Hne].
    { simplify_eq. exists i, l'. auto. }
    exists o, lo. rewrite list_lookup_insert_ne by done. split_and!; [done..|].
    unfold token in *. destruct (t_pc lo) eqn:Hpc; eauto using wchange_marked, uthread_lt.
    intros Hin. apply Ht. by apply (um_queue _ _ _ _ _ _ M).
Qed.

(** *** Steps outside the kernel *)

Lemma uplain_moves s' l' :
  ulk s' = ulk s -> in_kernel l = 0%nat -> in_kernel l' = 0%nat ->
  wchange i s l s' l' -> lchange s l s' l' -> pc_ok i (depth l') (t_pc l') ->
  (token s i l -> token s' i l') -> umoves i s ls l s' l'.
Proof.
  intros Hu Hk Hk' W L Hpc Htok.
  assert (~ i ∈ wq (ulk s)) as Hnq.
  { apply unot_queued. unfold in_kernel in Hk. by destruct (t_pc l). }
  split; rewrite ?Hu; try done.
  - lia.
  - apply (ui_ull _ _ I).
  - apply (ui_nodup _ _ I).
  - intros Hq. left. auto.
Qed.

(** A step that leaves the count and the depth alone. *)
Lemma lchange_same s' l' :
  ourl_count s' = ourl_count s -> depth l' = depth l ->
  (length (todo l') + pending (t_pc l') <= length (todo l) + pending (t_pc l))%nat ->
  (todo l' = todo l \/ exists o, todo l = o :: todo l') ->
  lchange s l s' l'.
Proof.
  intros Hc Hd Hr Ht. split; rewrite ?Hc, ?Hd; [|lia|apply (ui_nospin _ _ I)|lia|done].
  apply (ui_rcount _ _ I i l Hl).
Qed.

Lemma ustay_moves s' l' :
  oul_value s' = oul_value s -> ourl_count s' = ourl_count s -> ulk s' = ulk s ->
  in_kernel l = 0%nat -> in_kernel l' = 0%nat -> depth l' = depth l ->
  (length (todo l') + pending (t_pc l') <= length (todo l) + pending (t_pc l))%nat ->
  (todo l' = todo l \/ exists o, todo l = o :: todo l') ->
  pc_ok i (depth l') (t_pc l') -> (token s i l -> token s' i l') -> umoves i s ls l s' l'.
Proof.
  intros Hw Hc Hu Hk Hk' Hd Hr Ht Hpc Htok. apply uplain_moves; auto using lchange_same.
  apply wc_same; [done|by rewrite Hd].
Qed.

(** A client at the beginning of a call: [l0] is the thread without it. *)
Definition calling (l0 : thread) : Prop :=
  t_pc l = Run /\ depth l0 = depth l /\ (todo l0 = todo l \/ exists o, todo l = o :: todo l0).
Definition entering (l0 : thread) : Prop :=
  t_pc l = Run /\ depth l0 = depth l /\ exists o, todo l = o :: todo l0.

Lemma entering_calling l0 : entering l0 -> calling l0.
Proof. intros (? & ? & ?). by split_and!; [..|right]. Qed.

Lemma calling_length l0 : calling l0 -> (length (todo l0) <= length (todo l))%nat.
Proof. intros (_ & _ & [->|[o ->]]); simpl; lia. Qed.

Lemma entering_length l0 : entering l0 -> length (todo l) = S (length (todo l0)).
Proof. by intros (_ & _ & [o ->]). Qed.

(** Outside, the thread is not the one that wakes. *)
Lemma run_no_token : t_pc l = Run -> depth l = 0%nat -> ~ token s i l.
Proof.
  unfold token. intros -> Hd Hw. assert (0 < depth l)%nat by (apply (ui_owner _ _ I i l Hl); eauto). lia.
Qed.

Lemma return_moves l0 es : calling l0 -> umoves i s ls l s (go l0 (Ctl Run Keep es)).
Proof.
  intros Hc. pose proof (calling_length l0 Hc). destruct Hc as (Hpc & Hd & Ht).
  apply ustay_moves; unfold in_kernel, token; rewrite ?Hpc; simpl; try done. lia.
Qed.

Lemma uenter_moves l0 m e p :
  (entering l0 \/ l0 = l /\ t_pc l = p /\ pending p = 1%nat /\ (token s i l -> m = true)) ->
  in_kernel l = 0%nat -> oul_value s = 0 ->
  umoves i s ls l (set_value (uw i m) s) (go l0 (Entered e)).
Proof.
  intros Hen Hk H0. pose proof (free_depth H0) as Hd.
  assert (depth l0 = 0%nat) as Hd0 by (destruct Hen as [(_ & -> & _)|[-> _]]; done).
  apply uplain_moves; simpl; try done.
  - apply (wc_take _ _ _ _ _ m); simpl; try done. lia.
  - split; simpl; rewrite ?Hd0, ?(ui_free _ _ I H0); try lia.
    + destruct Hen as [Hen|(-> & -> & -> & _)]; [rewrite (entering_length l0 Hen)|]; lia.
    + destruct Hen as [(_ & _ & ?)|[-> _]]; auto.
  - intros Ht. unfold token. simpl. destruct Hen as [(Hpc & _)|(_ & _ & _ & Hm)]; [|by rewrite Hm].
    by destruct (run_no_token Hpc Hd).
Qed.

Lemma enter_slow_moves l0 v :
  entering l0 -> depth l = 0%nat -> vars_ok v -> umoves i s ls l s (go l0 (Goto (SlowLoad v))).
Proof.
  intros Hen Hd Hv. pose proof (entering_length l0 Hen) as Hlen.
  destruct (entering_calling l0 Hen) as (Hpc & Hd0 & Ht).
  apply ustay_moves; simpl; unfold in_kernel; rewrite ?Hpc; simpl; try done; [lia|split; congruence|].
  by intros ?%run_no_token.
Qed.

(** The thread leaves: by unlock, or by the last unlock of a recursive
    lock. *)
Lemma release_moves l0 e s' c :
  calling l0 \/ l0 = l /\ t_pc l = Exchange e -> depth l = 1%nat ->
  os_unfair_lock_unlock tids i e s = (s', c) -> umoves i s ls l s' (go l0 c).
Proof.
  intros Hl0 Hd Hun. pose proof (uthread_lt i l Hl) as Hi.
  assert (in_kernel l = 0%nat /\ pending (t_pc l) = 0%nat /\ depth l0 = depth l /\
    (todo l0 = todo l \/ exists o, todo l = o :: todo l0) /\ (length (todo l0) <= length (todo l))%nat /\
    (token s i l -> oul_value s = uw i true)) as (Hk & Hp & Hd0 & Ht & Hlen & Htok).
  { unfold in_kernel, token. destruct Hl0 as [Hc|[-> ->]]; [|by split_and!; auto].
    pose proof (calling_length l0 Hc). destruct Hc as (-> & ? & ?). by split_and!. }
  destruct (holder_uw ltac:(lia)) as [m Hm].
  unfold os_unfair_lock_unlock, OS_LOCK_NO_OWNER in Hun.
  rewrite Hm, self_uw, uw_eqb, bool_decide_true in Hun by done.
  assert (ourl_count s = 0) as Hc by (rewrite (ui_rcount _ _ I i l Hl), Hd by lia; done).
  apply uplain_moves; simpl; destruct m; simpl in Hun; injection Hun as <- <-; simpl; try done;
    rewrite ?Hd0, ?Hd; simpl; try done.
  1,2: apply wc_release; simpl; rewrite ?Hd0, ?Hd; done || lia.
  1,2: split; simpl; rewrite ?Hd0, ?Hd; simpl; done || lia.
  intros Hx%Htok. by rewrite Hm in Hx; apply uw_mark_inj in Hx.
Qed.

(** *** The slow path outside the kernel *)

(** [_retry] never finds the thread itself. *)
Lemma retry_moves v h m :
  (h < length tids)%nat -> h <> i -> oul_value s = uw h m ->
  t_pc l = SlowLoad v \/ t_pc l = SlowSwap v ->
  exists s' c, retry k tids i v (oul_value s) s = Ok (s', c) /\ umoves i s ls l s' (go l c) /\
    s' = s /\ c = Goto (if m then SlowWait v (uw h true) else SlowMark v (uw h false)).
Proof.
  intros Hh Hne Hw Hpc. pose proof (uthread_lt i l Hl) as Hi.
  assert (retry k tids i v (oul_value s) s =
    Ok (s, Goto (if m then SlowWait v (uw h true) else SlowMark v (uw h false)))) as ->.
  { unfold retry, retry_unfair, retry_nospin. rewrite Hw, (is_owner_uw tids Htids), !uw_ldiff, uw_eqb by done.
    rewrite (bool_decide_false (h = i)), (bool_decide_true (h = h)) by done.
    rewrite (proj2 (Z.eqb_neq _ 0)) by (pose proof (uw_range tids Htids h true Hh); lia).
    by destruct k, m. }
  do 2 eexists. split_and!; [done| |done..].
  pose proof (ui_pc _ _ I i l Hl) as Hp.
  assert (depth l = 0%nat /\ vars_ok v) as [Hd Hv] by (destruct Hpc as [Hpc|Hpc]; by rewrite Hpc in Hp).
  apply ustay_moves; simpl; destruct Hpc as [Hpc|Hpc]; unfold in_kernel, token; rewrite ?Hpc; destruct m; simpl;
    rewrite ?Hd; eauto; try lia; split_and!; try done; by exists h.
Qed.

Lemma slow_load_moves v :
  t_pc l = SlowLoad v ->
  exists s' c, slow_load k tids i v s = Ok (s', c) /\ umoves i s ls l s' (go l c) /\ s' = s /\
    (oul_value s = 0 /\ c = Goto (SlowSwap v) \/
     exists h m, oul_value s = uw h m /\
       c = Goto (if m then SlowWait v (uw h true) else SlowMark v (uw h false))).
Proof.
  intros Hpc. pose proof (ui_pc _ _ I i l Hl) as Hp. rewrite Hpc in Hp. destruct Hp as [Hd Hv].
  unfold slow_load, OS_LOCK_NO_OWNER. destruct (uword_cases Hd) as [H0|(h & m & Hh & Hne & Hw)].
  - rewrite H0. simpl. do 2 eexists. split_and!; eauto.
    apply ustay_moves; simpl; unfold in_kernel, token; rewrite ?Hpc; simpl; auto; done.
  - rewrite (proj2 (Z.eqb_neq _ 0)) by (rewrite Hw; pose proof (uw_range tids Htids h m Hh); lia). simpl.
    destruct (retry_moves v h m Hh Hne Hw ltac:(auto)) as (s' & c & Hr & M & -> & ->).
    do 2 eexists. split_and!; eauto 10.
Qed.

Lemma slow_swap_moves v :
  t_pc l = SlowSwap v ->
  exists s' c, slow_swap k tids i v s = Ok (s', c) /\ umoves i s ls l s' (go l c) /\
    (oul_value s = 0 /\ c = Entered Locked \/
     s' = s /\ exists h m, oul_value s = uw h m /\
       c = Goto (if m then SlowWait v (uw h true) else SlowMark v (uw h false))).
Proof.
  intros Hpc. pose proof (ui_pc _ _ I i l Hl) as Hp. rewrite Hpc in Hp. destruct Hp as [Hd Hv].
  pose proof (uthread_lt i l Hl) as Hi.
  unfold slow_swap, OS_LOCK_NO_OWNER. destruct (uword_cases Hd) as [H0|(h & m & Hh & Hne & Hw)].
  - rewrite H0. simpl. do 2 eexists. split_and!; eauto.
    assert (exists m, Z.ldiff (os_lock_owner_get_self tids i) (waiters_mask v) = uw i m /\
      (token s i l -> m = true)) as (m & -> & Hm).
    { unfold token. rewrite self_uw, Hpc by done. destruct Hv as [->| ->].
      - rewrite Z.ldiff_0_r. eauto. by exists false.
      - rewrite uw_ldiff. eauto. }
    eapply uenter_moves; eauto 6. unfold in_kernel. by rewrite Hpc.
  - rewrite (proj2 (Z.eqb_neq _ 0)) by (rewrite Hw; pose proof (uw_range tids Htids h m Hh); lia).
    destruct (retry_moves v h m Hh Hne Hw ltac:(auto)) as (s' & c & Hr & M & -> & ->).
    do 2 eexists. split_and!; eauto 10.
Qed.

Lemma slow_mark_moves v c s' r :
  t_pc l = SlowMark v c -> slow_mark v c s = (s', r) -> umoves i s ls l s' (go l r).
Proof.
  intros Hpc. pose proof (ui_pc _ _ I i l Hl) as Hp. rewrite Hpc in Hp.
  destruct Hp as (Hd & Hv & h & Hh & Hne & ->). unfold slow_mark. rewrite uw_ldiff.
  destruct (Z.eqb_spec (oul_value s) (uw h false)) as [Hw|Hw]; intros [= <- <-].
  - apply uplain_moves; unfold in_kernel, token; rewrite ?Hpc; simpl; try done.
    + by apply (wc_mark _ _ _ _ _ h).
    + apply lchange_same; simpl; auto. by rewrite Hpc.
    + split_and!; [done..|]. by exists h.
  - apply ustay_moves; unfold in_kernel, token; rewrite ?Hpc; simpl; auto; done.
Qed.

(** *** The recursive lock *)

Lemma count_up_moves e :
  t_pc l = CountUp e -> umoves i s ls l (fst (count_up e s)) (go l (snd (count_up e s))).
Proof.
  intros Hpc. pose proof (ui_pc _ _ I i l Hl) as Hp. rewrite Hpc in Hp. destruct Hp as [Hd Hk].
  pose proof (ui_room _ _ I i l Hl) as Hroom. rewrite Hpc in Hroom. simpl in Hroom.
  pose proof (ui_rcount _ _ I i l Hl Hd) as Hc.
  apply uplain_moves; unfold in_kernel, token; rewrite ?Hpc; simpl; try done.
  - apply wc_same; simpl; [done|lia].
  - split; simpl; rewrite ?Hpc, ?Hk; simpl; try done; try lia; [|auto].
    intros _. rewrite Hc, u32_small; lia.
Qed.

Lemma runlock_moves l0 e s' c :
  calling l0 \/ l0 = l /\ t_pc l = Counting e -> (0 < depth l)%nat -> k = Unfair ->
  os_unfair_recursive_lock_unlock e s = (s', c) -> umoves i s ls l s' (go l0 c).
Proof.
  intros Hl0 Hd Hk Hun. pose proof (ui_rcount _ _ I i l Hl Hd) as Hc.
  assert (in_kernel l = 0%nat /\ pending (t_pc l) = 0%nat /\ depth l0 = depth l /\
    (todo l0 = todo l \/ exists o, todo l = o :: todo l0) /\ (length (todo l0) <= length (todo l))%nat /\
    (token s i l -> oul_value s = uw i true)) as (Hin & Hp & Hd0 & Ht & Hlen & Htok).
  { unfold in_kernel, token. destruct Hl0 as [Hcl|[-> ->]]; [|by split_and!; auto].
    pose proof (calling_length l0 Hcl). destruct Hcl as (-> & ? & ?). by split_and!. }
  revert Hun. unfold os_unfair_recursive_lock_unlock. rewrite Hc.
  destruct (Z.eqb_spec (Z.of_nat (depth l) - 1) 0); simpl; intros [= <- <-];
    apply ustay_moves; simpl; try done; try lia; rewrite Hd0; split; done || lia.
Qed.

Lemma check_owner_moves e :
  t_pc l = CheckOwner e ->
  exists s' c, recursive_check_owner tids i e s = Ok (s', c) /\ umoves i s ls l s' (go l c) /\
    s' = s /\ c = Goto (CountDown e).
Proof.
  intros Hpc. pose proof (ui_pc _ _ I i l Hl) as Hp. rewrite Hpc in Hp. destruct Hp as [Hd Hk].
  destruct (holder_uw ltac:(lia)) as [m Hm]. pose proof (uthread_lt i l Hl) as Hi.
  unfold recursive_check_owner, os_unfair_lock_owner.
  rewrite Hm, (owner_self_uw tids Htids), bool_decide_true by done. simpl.
  do 2 eexists. split_and!; [done| |done..].
  apply ustay_moves; unfold in_kernel, token; rewrite ?Hpc; simpl; auto; done.
Qed.

Lemma count_down_moves e :
  t_pc l = CountDown e -> umoves i s ls l (fst (count_down e s)) (go l (snd (count_down e s))).
Proof.
  intros Hpc. pose proof (ui_pc _ _ I i l Hl) as Hp. rewrite Hpc in Hp. destruct Hp as [Hd Hk].
  pose proof (ui_room _ _ I i l Hl) as Hroom. rewrite Hpc in Hroom. simpl in Hroom.
  pose proof (ui_rcount _ _ I i l Hl ltac:(lia)) as Hc.
  apply uplain_moves; unfold in_kernel, token; rewrite ?Hpc; simpl; try done.
  - apply wc_same; simpl; [done|lia].
  - split; simpl; rewrite ?Hpc, ?Hk; simpl; try done; try lia; [|auto].
    intros _. rewrite Hc, u32_small; lia.
Qed.

(** *** Calls *)

Lemma lock_slow_ok o :
  op_ok (Lock o) = true ->
  exists v, os_unfair_lock_lock_slow o s = Ok (s, Goto (SlowLoad v)) /\ vars_ok v.
Proof.
  unfold op_ok. intros Ho%Z.eqb_eq. unfold os_unfair_lock_lock_slow.
  assert (Z.ldiff (Z.ldiff o OS_UNFAIR_LOCK_ALLOW_ANONYMOUS_OWNER) OS_UNFAIR_LOCK_OPTIONS_MASK = 0) as ->.
  { rewrite <- Ho. rewrite Z.ldiff_ldiff_l, Z.lor_comm. done. }
  simpl. eexists. split; [done|]. by left.
Qed.

Lemma ulock_moves l0 o :
  entering l0 -> op_ok (Lock o) = true -> depth l = 0%nat ->
  exists s' c, (match k with
                | Unfair => os_unfair_lock_lock_with_options tids i o s
                | Nospin => os_nospin_lock_lock tids i s
                end = Ok (s', c)) /\ umoves i s ls l s' (go l0 c).
Proof.
  intros Hen Ho Hd. pose proof (uthread_lt i l Hl) as Hi.
  assert (in_kernel l = 0%nat) by (unfold in_kernel; by destruct Hen as [-> _]).
  unfold os_unfair_lock_lock_with_options, os_nospin_lock_lock, OS_LOCK_NO_OWNER. rewrite self_uw by done.
  destruct (Z.eqb_spec (oul_value s) 0) as [H0|H0].
  - exists (set_value (uw i false) s), (Entered Locked). split; [by destruct k|].
    apply (uenter_moves l0 false Locked Run); auto.
  - destruct (lock_slow_ok o Ho) as (v & Hv & Hok). rewrite Hv. unfold os_nospin_lock_lock_slow.
    destruct k; do 2 eexists; (split; [done|]); apply enter_slow_moves; done || by left.
Qed.

Lemma utrylock_moves l0 s' c :
  entering l0 -> os_unfair_lock_trylock tids i s = (s', c) -> umoves i s ls l s' (go l0 c).
Proof.
  intros Hen. pose proof (uthread_lt i l Hl) as Hi.
  assert (in_kernel l = 0%nat) by (unfold in_kernel; by destruct Hen as [-> _]).
  unfold os_unfair_lock_trylock, OS_LOCK_NO_OWNER. rewrite self_uw by done.
  destruct (Z.eqb_spec (oul_value s) 0) as [H0|H0]; intros [= <- <-].
  - apply (uenter_moves l0 false (TryLocked true) Run); auto.
  - by apply return_moves, entering_calling.
Qed.

Lemma count_goto_moves l0 e :
  entering l0 -> (0 < depth l)%nat -> k = Unfair -> umoves i s ls l s (go l0 (Goto (CountUp e))).
Proof.
  intros Hen Hd Hk. pose proof (entering_length l0 Hen) as Hlen.
  destruct (entering_calling l0 Hen) as (Hpc & Hd0 & Ht).
  apply ustay_moves; simpl; unfold in_kernel, token; rewrite ?Hpc; simpl; try done; [lia|].
  rewrite Hd0. done.
Qed.

(** The holder is recognised. *)
Lemma owned_depth : (os_unfair_lock_owner s =? os_lock_owner_get_self tids i) = (0 <? depth l)%nat.
Proof.
  pose proof (uthread_lt i l Hl) as Hi. unfold os_unfair_lock_owner.
  destruct (Nat.ltb_spec 0 (depth l)) as [Hd|Hd].
  - destruct (holder_uw Hd) as [m ->]. by rewrite (owner_self_uw tids Htids), bool_decide_true.
  - destruct (uword_cases ltac:(lia)) as [->|(h & m & Hh & Hne & ->)].
    + by apply (owner_free tids Htids).
    + by rewrite (owner_self_uw tids Htids), bool_decide_false.
Qed.

Lemma rlock_moves l0 o :
  entering l0 -> op_ok (Lock o) = true -> k = Unfair ->
  exists s' c, os_unfair_recursive_lock_lock_with_options tids i o s = Ok (s', c) /\ umoves i s ls l s' (go l0 c).
Proof.
  intros Hen Ho Hk. pose proof (uthread_lt i l Hl) as Hi.
  assert (in_kernel l = 0%nat) by (unfold in_kernel; by destruct Hen as [-> _]).
  unfold os_unfair_recursive_lock_lock_with_options, OS_LOCK_NO_OWNER.
  pose proof owned_depth as Hown. unfold os_unfair_lock_owner in Hown. rewrite Hown.
  destruct (Z.eqb_spec (oul_value s) 0) as [H0|H0].
  - rewrite self_uw by done. do 2 eexists. split; [done|]. apply (uenter_moves l0 false Locked Run); auto.
  - destruct (Nat.ltb_spec 0 (depth l)) as [Hd|Hd].
    + do 2 eexists. split; [done|]. by apply count_goto_moves.
    + destruct (lock_slow_ok o Ho) as (v & Hv & Hok). rewrite Hv.
      do 2 eexists. split; [done|]. apply enter_slow_moves; done || lia.
Qed.

Lemma rtrylock_moves l0 s' c :
  entering l0 -> k = Unfair ->
  os_unfair_recursive_lock_trylock tids i s = (s', c) -> umoves i s ls l s' (go l0 c).
Proof.
  intros Hen Hk. pose proof (uthread_lt i l Hl) as Hi.
  assert (in_kernel l = 0%nat) by (unfold in_kernel; by destruct Hen as [-> _]).
  unfold os_unfair_recursive_lock_trylock, OS_LOCK_NO_OWNER.
  pose proof owned_depth as Hown. unfold os_unfair_lock_owner in Hown. rewrite Hown.
  destruct (Z.eqb_spec (oul_value s) 0) as [H0|H0].
  - rewrite self_uw by done. intros [= <- <-]. apply (uenter_moves l0 false (TryLocked true) Run); auto.
  - destruct (Nat.ltb_spec 0 (depth l)) as [Hd|Hd]; intros [= <- <-].
    + by apply count_goto_moves.
    + by apply return_moves, entering_calling.
Qed.

Lemma rtryunlock_moves l0 s' c :
  calling l0 -> k = Unfair ->
  os_unfair_recursive_lock_tryunlock4objc tids i s = (s', c) -> umoves i s ls l s' (go l0 c).
Proof.
  intros Hc Hk. unfold os_unfair_recursive_lock_tryunlock4objc. rewrite owned_depth.
  destruct (Nat.ltb_spec 0 (depth l)) as [Hd|Hd]; intros [= <- <-]; [|by apply return_moves].
  pose proof (calling_length l0 Hc). destruct Hc as (Hpc & Hd0 & Ht).
  apply ustay_moves; simpl; unfold in_kernel, token; rewrite ?Hpc; simpl; try done; [lia|].
  by rewrite Hd0.
Qed.

Lemma assert_ok :
  ((0 < depth l)%nat -> os_unfair_lock_assert_owner tids i s = Ok (s, Return Asserted)) /\
  (depth l = 0%nat -> os_unfair_lock_assert_not_owner tids i s = Ok (s, Return Asserted)).
Proof.
  pose proof owned_depth as Hown. unfold os_unfair_lock_owner in Hown.
  unfold os_unfair_lock_assert_owner, os_unfair_lock_assert_not_owner, OS_ULOCK_IS_NOT_OWNER, OS_ULOCK_IS_OWNER.
  rewrite Hown. split; [intros Hd|intros ->]; [|done].
  by rewrite (proj2 (Nat.ltb_lt _ _)).
Qed.

(** Every call that is allowed, and what a client does in the end to leave. *)
Lemma call_moves l0 o :
  entering l0 /\ op_ok o = true /\ allowed k o (depth l) = true \/ calling l0 /\ o = leave_op k /\ (0 < depth l)%nat ->
  exists s' c, call k tids i o s = Ok (s', c) /\ umoves i s ls l s' (go l0 c).
Proof.
  intros Hc. assert (calling l0) as Hcl by (destruct Hc as [[Hc _]|[Hc _]]; [by apply entering_calling|done]).
  assert (forall e, exists s' c, @Ok (shared * ctl) (s, Return e) = Ok (s', c) /\ umoves i s ls l s' (go l0 c)) as Hret
    by (intros e; do 2 eexists; split; [done|]; by apply return_moves).
  assert (forall r : shared * ctl, (forall s' c, r = (s', c) -> umoves i s ls l s' (go l0 c)) ->
    exists s' c, @Ok (shared * ctl) r = Ok (s', c) /\ umoves i s ls l s' (go l0 c)) as Hok
    by (intros [s' c] Hr; do 2 eexists; split; [done|]; auto).
  destruct Hc as [(Hen & Ho & Ha)|(_ & -> & Hd)].
  2: { unfold call, leave_op. destruct k eqn:Hk.
       - apply Hok. intros s' c. apply runlock_moves; auto.
       - assert (depth l = 1%nat) as Hd1
           by (pose proof (ui_rcount _ _ I i l Hl Hd); pose proof (ui_nospin _ _ I Hk); lia).
         apply Hok. intros s' c. apply release_moves; auto. }
  destruct assert_ok as [Ha1 Ha2].
  unfold call. destruct o as [opts| | |opts| | | | | | ]; simpl in Ha;
    rewrite ?andb_true_iff, ?negb_true_iff, ?bool_decide_eq_true, ?Nat.eqb_eq, ?Nat.eqb_neq in Ha; destruct_and?; auto;
    try (apply Hok; intros s' c Hs; by eauto using utrylock_moves, release_moves, rtrylock_moves, rtryunlock_moves).
  - by apply ulock_moves.
  - by apply rlock_moves.
  - apply Hok. intros s' c Hs. eapply runlock_moves; eauto. lia.
  - rewrite Ha1 by lia. auto.
  - rewrite Ha2 by lia. auto.
Qed.

(** *** Steps in the kernel *)

(** A thread in the kernel that is not queued is one more waiter. *)
Lemma uwaiters_bound :
  in_kernel l = 1%nat -> ~ i ∈ wq (ulk s) -> Z.of_nat (length (wq (ulk s))) + 1 <= nwaiters (ulk s).
Proof.
  apply (queue_bound_self in_kernel ls); [apply (ui_count _ _ I)|apply (ui_nodup _ _ I)| |done].
  intros j Hj. destruct (ui_queue _ _ I j Hj) as (x & Hx & Hs). exists x. split; [done|].
  unfold in_kernel. by destruct (t_pc x).
Qed.

(** What [__ulock_wait] returns decides the next value of [waiters_mask]. *)
Lemma uwaited_ok v rc s0 :
  0 <= rc -> vars_ok v ->
  exists v', waited k v rc s0 = Ok (s0, Goto (SlowLoad v')) /\ vars_ok v' /\
  (waiters_mask v = OS_ULOCK_NOWAITERS_BIT \/ 0 < rc -> waiters_mask v' = OS_ULOCK_NOWAITERS_BIT).
Proof.
  intros Hrc Hv. unfold waited, waited_unfair, waited_nospin. rewrite Z.gtb_ltb.
  rewrite (proj2 (Z.ltb_ge rc 0)) by lia. destruct (Z.ltb_spec 0 rc).
  - exists (set_mask v). split_and!; [by destruct k|by right|done].
  - exists v. split_and!; [by destruct k|done|]. intros [|]; [done|lia].
Qed.

(** A thread that finds the word it expects goes to sleep. *)
Lemma uwait_match u h :
  ull_ok (opc k) u -> (h < length tids)%nat -> h <> i ->
  exists u' o, ulock_wait tids (opc k) i (uw h true) (uw h true) u = (Some u', Asleep) /\
    joined (opc k) i o u u' /\ (k = Unfair -> o = Some h).
Proof.
  intros Hu Hh Hne. destruct k; simpl in *.
  - destruct (ulock_wait_match tids Htids i h 2 u Hu Hh Hne ltac:(lia)) as (u' & Hw & Hj). eauto.
  - destruct (ulock_wait_match_plain tids i (uw h true) u Hu) as (u' & Hw & Hj).
    exists u', (owner u). by split_and!.
Qed.

Lemma fall_asleep_moves v h u o :
  t_pc l = SlowWait v (uw h true) -> (h < length tids)%nat -> h <> i ->
  oul_value s = uw h true -> joined (opc k) i o (ulk s) u -> (k = Unfair -> o = Some h) ->
  umoves i s ls l (set_ulk (Some u) s) (go l (Goto (SlowSleep v (uw h true)))).
Proof.
  intros Hpc Hh Hne Hw (Ho & Hc & Hop & Hq) Hko.
  pose proof (ui_pc _ _ I i l Hl) as Hp. rewrite Hpc in Hp.
  assert (~ i ∈ wq (ulk s)) as Hnq by (apply unot_queued; by rewrite Hpc).
  assert (h < length ls)%nat as Hlh by (by rewrite (ui_len _ _ I)).
  destruct (lookup_lt_is_Some_2 ls h Hlh) as [lh Hlh'].
  assert (0 < depth lh)%nat as Hdh by (apply (ui_owner _ _ I h lh Hlh'); eauto).
  split; simpl; rewrite ?Hc, ?Hq, ?Hop; try done.
  - by apply wc_same.
  - apply lchange_same; simpl; auto. by rewrite Hpc.
  - unfold in_kernel. rewrite Hpc. simpl. lia.
  - pose proof (ui_count _ _ I). split; [lia|done].
  - apply NoDup_app. split_and!; [apply (ui_nodup _ _ I)| |apply NoDup_singleton].
    intros j Hj ->%list_elem_of_singleton. done.
  - intros j. rewrite elem_of_app, list_elem_of_singleton. tauto.
  - intros _. right. exists h, lh. split_and!; [intros Hk; by rewrite Ho, (Hko Hk)|done..|].
    pose proof (ui_pc _ _ I h lh Hlh') as Hph. unfold token. destruct (t_pc lh); simpl in *; done || lia.
Qed.

(** The thread does not sleep: the kernel says how many do. *)
Lemma no_sleep_moves v c rc s0 :
  t_pc l = SlowWait v c -> oul_value s0 = oul_value s -> ourl_count s0 = ourl_count s -> ulk s0 = ulk s ->
  0 <= rc ->
  exists s' r, waited k v rc s0 = Ok (s', r) /\ umoves i s ls l s' (go l r) /\ s' = s0 /\
    exists v', r = Goto (SlowLoad v').
Proof.
  intros Hpc Hw Hc Hu Hrc. pose proof (ui_pc _ _ I i l Hl) as Hp. rewrite Hpc in Hp.
  destruct Hp as (Hd & Hv & _). destruct (uwaited_ok v rc s0 Hrc Hv) as (v' & -> & Hv' & Hm).
  do 2 eexists. split_and!; [done| |done|eauto].
  apply ustay_moves; unfold in_kernel, token; rewrite ?Hpc; simpl; auto.
Qed.

Lemma slow_wait_moves v c r :
  t_pc l = SlowWait v c -> r ∈ slow_wait k tids i v c s ->
  exists s' x, r = Ok (s', x) /\ umoves i s ls l s' (go l x) /\ oul_value s' = oul_value s /\ intr s' = intr s /\
    (oul_value s = c /\ x = Goto (SlowSleep v c) /\ wq (ulk s') = wq (ulk s) ++ [i] \/
     oul_value s <> c /\ ulk s' = ulk s /\ exists v', x = Goto (SlowLoad v')).
Proof.
  intros Hpc. pose proof (ui_pc _ _ I i l Hl) as Hp. rewrite Hpc in Hp.
  destruct Hp as (Hd & Hv & h & Hh & Hne & ->).
  assert (0 <= nwaiters (ulk s)) as Hnn by (rewrite (ui_count _ _ I); lia).
  unfold slow_wait, ulock_wait_spin. rewrite fmap_app, elem_of_app.
  destruct (Z.eqb_spec (oul_value s) (uw h true)) as [Hw|Hw]; simpl.
  - rewrite andb_false_r. intros [?%elem_of_nil|Hr%list_elem_of_singleton]; [done|].
    rewrite Hw in Hr. destruct (uwait_match (ulk s) h (ui_ull _ _ I) Hh Hne) as (u & o & Heq & Hj & Hko).
    rewrite Heq in Hr. subst r. do 2 eexists.
    split_and!; [done|by eapply fall_asleep_moves|done..|].
    left. destruct Hj as (_ & _ & _ & Hq). by split_and!.
  - rewrite ulock_wait_mismatch by (done || apply (ui_ull _ _ I)). intros Hr.
    assert (exists rc, 0 <= rc /\ r = waited k v rc (set_ulk (ulk s) s)) as (rc & Hrc & ->).
    { destruct Hr as [Hr|Hr%list_elem_of_singleton]; [|by exists (nwaiters (ulk s))].
      case_match; simpl in Hr; [apply list_elem_of_singleton in Hr; by exists 0|by apply elem_of_nil in Hr]. }
    destruct (no_sleep_moves v (uw h true) rc (set_ulk (ulk s) s) Hpc) as (s' & x & -> & M & -> & v' & ->); try done.
    do 2 eexists. split_and!; eauto.
Qed.

(** Leaving the kernel: the object loses one waiter. *)
Lemma ucleanup_ok u :
  ulk s = Some u -> in_kernel l = 1%nat -> ~ i ∈ ull_waitq u ->
  exists u', ulock_wait_cleanup u = (u', ull_nwaiters u - 1) /\ left_behind (opc k) u u'.
Proof.
  intros Hu Hk Hi. pose proof uwaiters_bound as Hb. pose proof (ui_ull _ _ I) as Hok.
  rewrite Hu in *. apply cleanup_ok; [done|]. by apply Hb.
Qed.

Lemma ucleanup_moves u u' v' :
  ulk s = Some u -> in_kernel l = 1%nat -> ~ i ∈ ull_waitq u -> left_behind (opc k) u u' ->
  depth l = 0%nat -> vars_ok v' ->
  (ull_waitq u <> [] -> token s i l -> waiters_mask v' = OS_ULOCK_NOWAITERS_BIT) ->
  umoves i s ls l (set_ulk u' s) (go l (Goto (SlowLoad v'))).
Proof.
  intros Hu Hk Hi (Hn & Hok & Hq & Ho & _ & _) Hd Hv Htok.
  pose proof (ui_nodup _ _ I) as Hnd. rewrite Hu in Hnd. simpl in Hnd.
  split; simpl; rewrite ?Hq, ?Hu, ?Hn; simpl; try done.
  - by apply wc_same.
  - apply lchange_same; simpl; auto. unfold in_kernel in Hk. by destruct (t_pc l).
  - rewrite Hk. unfold in_kernel. simpl. lia.
  - intros Hne. left. split_and!; [by apply Ho|done|]. intros Ht. by apply Htok.
Qed.

(** The thread was woken, or it was interrupted or timed out. *)
Lemma slow_continue_moves v ret u :
  in_kernel l = 1%nat -> depth l = 0%nat -> vars_ok v -> ulk s = Some u -> ~ i ∈ ull_waitq u ->
  (ret = 0 \/ ~ token s i l /\ (ret = EINTR \/ k = Nospin /\ ret = ETIMEDOUT)) ->
  exists s' c, slow_continue k ret v s = Ok (s', c) /\ umoves i s ls l s' (go l c) /\
    oul_value s' = oul_value s /\ intr s' = intr s /\ wq (ulk s') = wq (ulk s) /\ exists v', c = Goto (SlowLoad v').
Proof.
  intros Hk Hd Hv Hu Hi Hret.
  destruct (ucleanup_ok u Hu Hk Hi) as (u' & Hcl & Hlb). pose proof Hlb as (_ & _ & Hq & _ & Hpos & Hmore).
  unfold slow_continue, ulock_wait_continue. rewrite Hu, Hcl.
  assert (exists v', waited k v (if ret =? 0 then ull_nwaiters u - 1 else - ret) (set_ulk u' s) =
      Ok (set_ulk u' s, Goto (SlowLoad v')) /\ vars_ok v' /\
      (ull_waitq u <> [] -> token s i l -> waiters_mask v' = OS_ULOCK_NOWAITERS_BIT)) as (v' & -> & Hv' & Hm).
  { destruct Hret as [->|(Hnt & Hret)].
    - simpl. destruct (uwaited_ok v (ull_nwaiters u - 1) (set_ulk u' s) Hpos Hv) as (v' & -> & ? & Hm).
      exists v'. split_and!; [done..|]. auto.
    - destruct Hret as [->|[-> ->]]; [destruct k|]; eexists; (split_and!; [done| |done]); done. }
  do 2 eexists. split_and!; [done|by eapply ucleanup_moves|done..|eauto].
Qed.

Lemma slow_sleep_moves v c r :
  t_pc l = SlowSleep v c -> r ∈ slow_sleep k i v c s ->
  exists s' x, r = Ok (s', x) /\ umoves i s ls l s' (go l x) /\ oul_value s' = oul_value s /\
    ((intr s' < intr s)%nat /\ (exists ret, x = Goto (SlowIntr v c ret)) \/
     intr s' = intr s /\ ~ i ∈ wq (ulk s) /\ wq (ulk s') = wq (ulk s) /\ exists v', x = Goto (SlowLoad v')).
Proof.
  intros Hpc. pose proof (ui_pc _ _ I i l Hl) as Hp. rewrite Hpc in Hp. destruct Hp as (Hd & Hv & Hc).
  assert (in_kernel l = 1%nat) as Hk by (unfold in_kernel; by rewrite Hpc).
  assert (0 < nwaiters (ulk s)) as Hn.
  { rewrite (ui_count _ _ I). pose proof (isum_lookup (fun _ => in_kernel) _ _ _ Hl). lia. }
  unfold slow_sleep. destruct (ulk s) as [u|] eqn:Hu; [|simpl in Hn; lia].
  case_bool_decide as Hi.
  2: { intros ->%list_elem_of_singleton.
       destruct (slow_continue_moves v 0 u) as (s' & x & Hx & M & Hw & Hn' & Hq & v' & ->); auto.
       exists s', (Goto (SlowLoad v')). split_and!; eauto 10. rewrite Hu in Hq. eauto 10. }
  destruct (intr s) as [|n]; [by intros ?%elem_of_nil|].
  rewrite list_elem_of_fmap. intros (ret & -> & Hret).
  do 2 eexists. split_and!; [done| |done|left; simpl; eauto with lia].
  pose proof (ui_nodup _ _ I) as Hnd. pose proof (ui_ull _ _ I) as Hok. rewrite Hu in *. simpl in *.
  split; simpl; rewrite ?Hu; simpl; auto; try done.
  - by apply wc_same.
  - apply lchange_same; simpl; auto. by rewrite Hpc.
  - split_and!; [done..|]. destruct k; rewrite ?elem_of_cons, elem_of_nil in Hret; tauto.
  - rewrite Hk. unfold in_kernel. simpl. lia.
  - by apply leave_NoDup.
  - intros j. rewrite elem_leave. tauto.
  - rewrite elem_leave. tauto.
  - intros _. left. split_and!; [done| |].
    + intros H0. by rewrite H0, elem_of_nil in Hi.
    + unfold token. rewrite Hpc, Hu. done.
Qed.

Lemma slow_intr_moves v c ret :
  t_pc l = SlowIntr v c ret ->
  exists s' x, slow_continue k ret v s = Ok (s', x) /\ umoves i s ls l s' (go l x) /\
    oul_value s' = oul_value s /\ intr s' = intr s /\ wq (ulk s') = wq (ulk s) /\ exists v', x = Goto (SlowLoad v').
Proof.
  intros Hpc. pose proof (ui_pc _ _ I i l Hl) as Hp. rewrite Hpc in Hp. destruct Hp as (Hd & Hv & _ & Hret).
  assert (in_kernel l = 1%nat) as Hk by (unfold in_kernel; by rewrite Hpc).
  assert (~ i ∈ wq (ulk s)) as Hi by (apply unot_queued; by rewrite Hpc).
  pose proof (uwaiters_bound Hk Hi) as Hb.
  destruct (ulk s) as [u|] eqn:Hu; [|simpl in Hb; lia]. rewrite <- Hu.
  apply (slow_continue_moves v ret u); auto. right. split; [|done]. unfold token. rewrite Hpc. tauto.
Qed.

(** *** Waking *)

(** The thread that released a marked lock leaves an object whose sleepers,
    if any, have somebody else to wake them. *)
Lemma uwake_moves c e u' :
  t_pc l = UnlockSlow c e ->
  nwaiters u' = nwaiters (ulk s) -> ull_ok (opc k) u' -> NoDup (wq u') ->
  (forall j, j ∈ wq u' -> j ∈ wq (ulk s)) ->
  (wq u' <> [] -> exists o lo, (k = Unfair -> owner u' = Some o) /\ o <> i /\ ls !! o = Some lo /\
                              token (set_ulk u' s) o lo) ->
  umoves i s ls l (set_ulk u' s) (go l (Return e)).
Proof.
  intros Hpc Hn Hok Hnd Hsub Htok. pose proof (ui_pc _ _ I i l Hl) as Hp. rewrite Hpc in Hp. destruct Hp as [Hd _].
  assert (~ i ∈ wq (ulk s)) as Hi by (apply unot_queued; by rewrite Hpc).
  split; simpl; auto; try done.
  - by apply wc_same.
  - apply lchange_same; simpl; auto. by rewrite Hpc.
  - unfold in_kernel. rewrite Hpc. simpl. lia.
Qed.

Lemma unlock_wake_moves c e r :
  t_pc l = UnlockSlow c e -> r ∈ unlock_wake k i c e s ->
  exists u, r = Ok (set_ulk u s, Return e) /\ umoves i s ls l (set_ulk u s) (go l (Return e)).
Proof.
  intros Hpc. assert (~ i ∈ wq (ulk s)) as Hi by (apply unot_queued; by rewrite Hpc).
  pose proof (ui_ull _ _ I) as Hok. pose proof (ui_nodup _ _ I) as Hnd. pose proof (ui_queue _ _ I) as Hqu.
  pose proof (ui_token _ _ I) as Htk.
  unfold unlock_wake, ulock_wake. rewrite list_elem_of_fmap. intros ([u rc] & -> & Hin). exists u.
  destruct (ulk s) as [u0|] eqn:Hu.
  2: { apply list_elem_of_singleton in Hin as [= -> ->]. split; [done|].
       apply (uwake_moves c e); rewrite ?Hu; simpl; auto; done. }
  destruct Hok as [Hpos Hop]. simpl in *. rewrite (bool_decide_true _ Hop) in Hin. simpl in Hin.
  destruct (bool_decide (opc k = UL_UNFAIR_LOCK) && negb (bool_decide (ull_owner u0 = Some i))) eqn:Hown.
  { apply list_elem_of_singleton in Hin as [= -> ->]. split; [done|].
    apply (uwake_moves c e); rewrite ?Hu; simpl; auto.
    intros Hne. destruct (Htk Hne) as (o & lo & Ho & Hlo & Ht). exists o, lo.
    apply andb_true_iff in Hown as [Hk Hno]. apply bool_decide_eq_true in Hk.
    assert (k = Unfair) as HkU by (by destruct k). specialize (Ho HkU).
    apply negb_true_iff, bool_decide_eq_false in Hno.
    split_and!; [done|congruence|done|]. unfold token in *. rewrite Hu in Ht. done. }
  destruct (bool_decide (ull_waitq u0 = [])) eqn:Hemp.
  { apply list_elem_of_singleton in Hin as [= -> ->]. split; [done|].
    apply (uwake_moves c e); rewrite ?Hu; simpl; auto; try done; [constructor|by intros j ?%elem_of_nil]. }
  apply list_elem_of_fmap in Hin as (w & [= -> ->] & Hw). split; [done|].
  apply (uwake_moves c e); rewrite ?Hu; simpl; auto; try done; [by apply leave_NoDup|by intros j [? _]%elem_leave|].
  intros _. destruct (Hqu w Hw) as (lw & Hlw & Hs). exists w, lw. split_and!; [|congruence|done|].
  - intros ->. done.
  - unfold token. destruct (t_pc lw); try done. simpl. rewrite elem_leave. tauto.
Qed.

Lemma uunlock_slow_moves c e r :
  t_pc l = UnlockSlow c e -> r ∈ unlock_slow k tids i c e s ->
  exists u, r = Ok (set_ulk u s, Return e) /\ umoves i s ls l (set_ulk u s) (go l (Return e)).
Proof.
  intros Hpc. pose proof (ui_pc _ _ I i l Hl) as Hp. rewrite Hpc in Hp. destruct Hp as [Hd Hc].
  pose proof (uthread_lt i l Hl) as Hi.
  assert (unlock_slow k tids i c e s = unlock_wake k i c e s) as ->; [|by apply unlock_wake_moves].
  unfold unlock_slow, os_unfair_lock_unlock_slow, os_nospin_lock_unlock_slow. rewrite Hc.
  rewrite (is_not_owner_uw tids Htids), (owner_self_uw tids Htids), uw_nowaiters by done.
  rewrite bool_decide_false, bool_decide_true by auto. by destruct k.
Qed.

(** *** Every step *)

Lemma upc_next_moves r :
  t_pc l <> Run -> r ∈ pc_next k tids i s (t_pc l) ->
  exists s' c, r = Ok (s', c) /\ umoves i s ls l s' (go l c).
Proof.
  intros Hrun. destruct (t_pc l) eqn:Hpc; simpl; [done|..];
    try (intros ->%list_elem_of_singleton).
  - destruct (slow_load_moves v Hpc) as (s' & c & ? & ? & _). eauto.
  - destruct (slow_mark v current s) as [s' c] eqn:Hm. do 2 eexists. split; [done|]. by eapply slow_mark_moves.
  - intros Hr. destruct (slow_wait_moves v current r Hpc Hr) as (s' & c & ? & ? & _). eauto.
  - intros Hr. destruct (slow_sleep_moves v current r Hpc Hr) as (s' & c & ? & ? & _). eauto.
  - destruct (slow_intr_moves v current ret Hpc) as (s' & c & ? & ? & _). eauto.
  - destruct (slow_swap_moves v Hpc) as (s' & c & ? & ? & _). eauto.
  - do 2 eexists. split; [done|]. by apply (count_up_moves e).
  - destruct (os_unfair_recursive_lock_unlock e s) as [s' c] eqn:Hm. do 2 eexists. split; [done|].
    pose proof (ui_pc _ _ I i l Hl) as Hp. rewrite Hpc in Hp. destruct Hp as [Hd Hk]. eapply runlock_moves; eauto.
  - destruct (check_owner_moves e Hpc) as (s' & c & ? & ? & _). eauto.
  - do 2 eexists. split; [done|]. by apply (count_down_moves e).
  - destruct (os_unfair_lock_unlock tids i e s) as [s' c] eqn:Hm. do 2 eexists. split; [done|].
    pose proof (ui_pc _ _ I i l Hl) as Hp. rewrite Hpc in Hp. destruct Hp as [Hd Hk]. eapply release_moves; eauto.
  - intros Hr. destruct (uunlock_slow_moves current e r Hpc Hr) as (u & ? & ?). eauto.
Qed.

(** *** The rules *)

(** A call, once it has returned, leads to one of the depths foreseen. *)
Lemma call_after o s' c :
  allowed k o (depth l) = true -> call k tids i o s = Ok (s', c) -> leads (c_pc c) (moved (c_depth c) (depth l)) ∈ after o (depth l).
Proof.
  pose proof owned_depth as Hown. unfold os_unfair_lock_owner in Hown.
  assert (oul_value s = 0 -> depth l = 0%nat) as H0 by apply free_depth.
  unfold call, after, allowed, os_unfair_lock_lock_with_options, os_nospin_lock_lock,
    os_nospin_lock_lock_slow, os_unfair_lock_trylock, os_unfair_lock_unlock, os_unfair_lock_assert_owner,
    os_unfair_lock_assert_not_owner, os_unfair_recursive_lock_lock_with_options,
    os_unfair_recursive_lock_trylock, os_unfair_recursive_lock_unlock, os_unfair_recursive_lock_tryunlock4objc,
    os_unfair_lock_lock_slow, os_unfair_lock_owner.
  rewrite ?Hown. intros Ha Hc.
  destruct o; rewrite ?andb_true_iff, ?negb_true_iff, ?bool_decide_eq_true, ?Nat.eqb_eq, ?Nat.eqb_neq in Ha;
    repeat match type of Hc with
    | context [if ?b then _ else _] => destruct b eqn:?
    | context [match ?x with Unfair => _ | Nospin => _ end] => destruct x eqn:?
    end; try done; simplify_eq/=; unfold OS_LOCK_NO_OWNER in *;
    rewrite ?Z.eqb_eq, ?Nat.ltb_lt, ?Nat.ltb_ge in *;
    repeat match goal with |- context [(depth l =? ?n)%nat] => destruct (Nat.eqb_spec (depth l) n) end;
    rewrite ?elem_of_cons, ?elem_of_nil; lia || (first [specialize (H0 ltac:(done))|idtac]; lia).
Qed.

(** Inside a call the depth it leads to stays the same. *)
Lemma pc_leads s' c :
  Ok (s', c) ∈ pc_next k tids i s (t_pc l) -> leads (c_pc c) (moved (c_depth c) (depth l)) = leads (t_pc l) (depth l).
Proof.
  unfold pc_next, slow_load, slow_mark, slow_wait, slow_sleep, slow_continue, slow_swap, retry, retry_unfair, retry_nospin,
    waited, waited_unfair, waited_nospin, count_up, os_unfair_recursive_lock_unlock, recursive_check_owner, count_down,
    os_unfair_lock_unlock, unlock_slow, os_unfair_lock_unlock_slow, os_nospin_lock_unlock_slow, unlock_wake.
  destruct (t_pc l) eqn:Hpc; simpl; intros Hr; rewrite ?list_elem_of_singleton in Hr.
  all: repeat match type of Hr with
    | _ ∈ [] => by apply elem_of_nil in Hr
    | _ ∈ [_] => apply list_elem_of_singleton in Hr
    | _ ∈ _ <$> _ => apply list_elem_of_fmap in Hr as (? & Hr & _)
    | context [match ?x with _ => _ end] => destruct x eqn:?
    end; try done; by simplify_eq/=.
Qed.

Lemma next_lawful s' l' : lawful l -> Ok (s', l') ∈ next k tids i s l -> lawful l'.
Proof.
  unfold lawful. intros Hlaw. unfold next. destruct (decide (t_pc l = Run)) as [Hpc|Hpc].
  - rewrite Hpc in *. simpl in Hlaw. destruct (todo l) as [|o rest] eqn:Ht.
    + destruct (depth l =? 0)%nat; [by intros ?%elem_of_nil|]. intros Hr%list_elem_of_singleton.
      destruct (call k tids i (leave_op k) s) as [[s2 c]|]; [|done]. injection Hr as -> ->. simpl. by rewrite Ht.
    + intros Hr%list_elem_of_singleton. unfold perform in Hr. simpl in Hlaw.
      destruct (allowed k (it_op o) (depth l)) eqn:Ha.
      * rewrite andb_false_r in Hr. destruct (call k tids i (it_op o) s) as [[s2 c]|] eqn:Hc; [|done]. injection Hr as -> ->.
        rewrite forallb_forall in Hlaw. apply Hlaw, list_elem_of_In. by eapply call_after.
      * apply andb_true_iff in Hlaw as [Hcar Hlaw]. rewrite Hcar in Hr. by injection Hr as -> ->.
  - intros Hr. assert (Ok (s', l') ∈ continue l <$> pc_next k tids i s (t_pc l)) as Hr' by (by destruct (t_pc l)).
    apply list_elem_of_fmap in Hr' as ([[s2 c]|] & He & Hr0); [|done]. injection He as -> ->.
    rewrite <- (pc_leads _ _ Hr0) in Hlaw. done.
Qed.

Lemma next_umoves r :
  lawful l -> r ∈ next k tids i s l -> exists s' l', r = Ok (s', l') /\ umoves i s ls l s' l'.
Proof.
  intros Hlaw. unfold next. destruct (decide (t_pc l = Run)) as [Hpc|Hpc].
  - rewrite Hpc. destruct (todo l) as [|o rest] eqn:Ht.
    + destruct (Nat.eqb_spec (depth l) 0); [by intros ?%elem_of_nil|]. intros ->%list_elem_of_singleton.
      destruct (call_moves l (leave_op k)) as (s' & c & -> & M).
      { right. split_and!; [|done|lia]. split_and!; auto. }
      do 2 eexists. split; done.
    + intros ->%list_elem_of_singleton.
      assert (entering (with_todo l rest)) as Hen by (by split_and!; [..|exists o]).
      unfold lawful in Hlaw. rewrite Hpc, Ht in Hlaw. simpl in Hlaw. unfold perform.
      destruct (allowed k (it_op o) (depth l)) eqn:Ha.
      * rewrite andb_false_r. destruct (call_moves (with_todo l rest) (it_op o)) as (s' & c & -> & M); [|by do 2 eexists].
        left. split_and!; [done| |done]. pose proof (ui_todo _ _ I i l Hl) as Hok. rewrite Ht in Hok. by inversion Hok.
      * apply andb_true_iff in Hlaw as [-> _]. do 2 eexists. split; [done|]. by apply return_moves, entering_calling.
  - intros Hr. assert (r ∈ continue l <$> pc_next k tids i s (t_pc l)) as Hr' by (by destruct (t_pc l)).
    apply list_elem_of_fmap in Hr' as (r0 & -> & Hr0).
    destruct (upc_next_moves r0 Hpc Hr0) as (s' & c & -> & M). do 2 eexists. split; done.
Qed.

End step.

(** ** Runs *)

Definition UInvC (c : conf shared thread) : Prop :=
  UInv (c_sh c) (c_thr c) /\ forall i l, c_thr c !! i = Some l -> lawful l.

Lemma uinv_start n progs :
  length progs = length tids ->
  progs_ok k progs -> UInvC (start n progs).
Proof.
  intros Hlen Hok. unfold UInvC. simpl.
  assert (forall i l, ((fun ops => {| t_pc := Run; depth := 0; todo := ops; log := [] |}) <$> progs) !! i = Some l ->
    (i < length tids)%nat /\ t_pc l = Run /\ depth l = 0%nat /\
    Z.of_nat (length (todo l)) < 2 ^ 32 /\ Forall (fun it => op_ok (it_op it) = true) (todo l) /\ lawful l) as Hst.
  { intros i l. rewrite list_lookup_fmap. destruct (progs !! i) as [ops|] eqn:Hi; [|done]. intros [= <-]. simpl.
    pose proof (lookup_lt_Some _ _ _ Hi). destruct (proj1 (Forall_lookup _ _) Hok i ops Hi) as (? & ? & ?). split_and!; done || lia. }
  split; [|intros i l Hi; by apply (Hst i l Hi)].
  split; simpl; try done.
  - by rewrite length_fmap.
  - by left.
  - intros i l Hi. destruct (Hst i l Hi) as (Hlt & _ & -> & _). split; [lia|]. intros [m Hm].
    pose proof (uw_range tids Htids i m Hlt). unfold OS_LOCK_NO_OWNER in Hm. lia.
  - intros i l Hi. destruct (Hst i l Hi) as (_ & _ & -> & _). lia.
  - intros i l Hi. destruct (Hst i l Hi) as (_ & -> & -> & ? & _). simpl. lia.
  - intros i l Hi. by destruct (Hst i l Hi) as (_ & _ & _ & _ & ? & _).
  - intros i l Hi. by destruct (Hst i l Hi) as (_ & -> & _).
  - rewrite (proj2 (isum_zero _ _)); [done|]. intros i l Hi. unfold in_kernel. by destruct (Hst i l Hi) as (_ & -> & _).
  - constructor.
  - by intros i ?%elem_of_nil.
Qed.

Lemma uinv_step c c' : UInvC c -> step (next k tids) c c' -> UInvC c'.
Proof.
  intros [I Hlaw] Hs. destruct Hs as [i s ls l s' l' Hl Hn]. unfold UInvC in *; simpl in *. split.
  - destruct (next_umoves i s ls l I Hl _ (Hlaw i l Hl) Hn) as (s2 & l2 & [= <- <-] & M). by eapply umoves_inv.
  - intros j x [(-> & <- & _)|[_ Hx]]%list_lookup_insert_Some; [by eapply next_lawful; eauto|by eapply Hlaw].
Qed.

Lemma uinv_no_crash c : UInvC c -> ~ may_crash (next k tids) c.
Proof.
  intros [I Hlaw] (i & l & w & Hl & Hc). by destruct (next_umoves i _ _ l I Hl _ (Hlaw i l Hl) Hc) as (? & ? & ? & _).
Qed.

End inv.
