(* ===== verification/UnfairThms.v ===== *)
(** * What the locks of libplatform guarantee

    Mutual exclusion and the count of the recursive lock, the end of every
    run with no sleeper left behind, and the errors that misuse ends in. *)

From S2P Require Import Conc Ulock Lock UnfairLock UnfairInv Prelude.
Import Ulock UnfairLock.

(** ** The measure of a run

    [uweight] bounds the steps that enter, leave or wake; between them the
    word is at most marked, and every thread moves towards its sleep. *)











Section descends.
  Context (k : kind) (tids : list Z) (Htids : tids_ok tids).
  Context (i : nat) (s : shared) (ls : list thread) (l : thread).
  Context (I : UInv k tids s ls) (Hl : ls !! i = Some l).


(** The steps of the slow path. *)










End descends.

Section runs.
  Context (k : kind) (tids : list Z) (Htids : tids_ok tids).


(** ** When nothing can move *)



End runs.

(** ** The guarantees *)

(** [C7] Threads with distinct port names share a lock, an unfair or recursive
    one or a nospin lock, in programs that follow its rules: whatever their
    attempts return, no call locks a plain lock twice, unlocks or asserts what
    the thread does not hold, or passes unknown options, and no program has
    2^32 calls.  In every interleaving, with any number of interruptions and
    timeouts, the process does not crash, at most one thread is inside, the
    query of the recursive lock recognises exactly this thread, the lock is
    free exactly when there is none, and the count of the recursive lock is
    the depth of the holder less one. *)
Theorem unfair_exclusion k tids n progs c :
  tids_ok tids -> length progs = length tids -> progs_ok k progs ->
  rtc (step (next k tids)) (start n progs) c ->
  ~ may_crash (next k tids) c /\
  (forall i j li lj, c_thr c !! i = Some li -> c_thr c !! j = Some lj ->
     (0 < depth li)%nat -> (0 < depth lj)%nat -> i = j) /\
  (forall i l, c_thr c !! i = Some l ->
     os_unfair_recursive_lock_owned tids i (c_sh c) = (0 <? depth l)%nat) /\
  (oul_value (c_sh c) = 0 <-> forall i l, c_thr c !! i = Some l -> depth l = 0%nat) /\
  (forall i l, c_thr c !! i = Some l -> (0 < depth l)%nat ->
     ourl_count (c_sh c) = Z.of_nat (depth l) - 1).
Proof.
  intros Htids Hlen Hok Hr.
  assert (UInvC k tids c) as I.
  { eapply inv_rtc; [by apply uinv_step|exact Hr|]. by apply uinv_start. }
  split; [by apply uinv_no_crash|]. destruct I as [I _]. destruct c as [s ls]; simpl in *.
  assert (forall i l, ls !! i = Some l -> (i < length tids)%nat) as Hlt by eauto using uthread_lt.
  split_and!.
  - intros i j li lj Hi Hj Hdi Hdj.
    apply (ui_owner _ _ _ _ I i li Hi) in Hdi as [m Hm]. apply (ui_owner _ _ _ _ I j lj Hj) in Hdj as [m' Hm'].
    rewrite Hm in Hm'. apply (uw_inj tids Htids) in Hm'; eauto.
  - intros i l Hl. by apply (owned_depth k tids Htids i s ls l I Hl).
  - split.
    + intros H0 i l Hl. by apply (free_depth k tids Htids i s ls l I Hl).
    + intros Hno. destruct (ui_word _ _ _ _ I) as [|(h & m & Hh & Hw)]; [done|exfalso].
      rewrite <- (ui_len _ _ _ _ I) in Hh. destruct (lookup_lt_is_Some_2 ls h Hh) as [lh Hlh].
      assert (0 < depth lh)%nat by (apply (ui_owner _ _ _ _ I h lh Hlh); eauto). rewrite (Hno h lh Hlh) in *. lia.
  - apply (ui_rcount _ _ _ _ I).
Qed.


(** ** Misuse *)

(** Thread [h] holds the lock, perhaps with waiters. *)
Definition held_by (tids : list Z) (h : nat) (s : shared) : Prop :=
  oul_value s = os_lock_owner_get_self tids h \/
  oul_value s = Z.ldiff (os_lock_owner_get_self tids h) OS_ULOCK_NOWAITERS_BIT.

Lemma held_by_uw tids h s :
  tids_ok tids -> (h < length tids)%nat -> held_by tids h s -> exists m, oul_value s = uw tids h m.
Proof.
  intros Htids Hh [Hw|Hw]; rewrite self_uw in Hw by done; [eauto|]. rewrite uw_ldiff in Hw. eauto.
Qed.

(** [C9] What the calls do when a thread breaks their rules.  On a lock that it
    holds, a thread that calls lock again is stopped before it sleeps, and
    so is its assertion that it is not the owner.  On a lock that another
    thread holds, or nobody, unlock and the assertion of ownership stop the
    process; the nospin lock instead lets anybody release it. *)
Theorem unfair_misuse tids i h s e opts :
  tids_ok tids -> (i < length tids)%nat -> (h < length tids)%nat -> op_ok (Lock opts) = true ->
  (held_by tids i s ->
     (exists v, os_unfair_lock_lock_with_options tids i opts s = Ok (s, Goto (SlowLoad v)) /\
                slow_load Unfair tids i v s = Crash AssertFail) /\
     os_unfair_lock_assert_not_owner tids i s = Crash AssertFail) /\
  (oul_value s = 0 \/ held_by tids h s /\ h <> i ->
     (exists s' cur, os_unfair_lock_unlock tids i e s = (s', Ctl (UnlockSlow cur e) Down []) /\ oul_value s' = 0 /\
        os_unfair_lock_unlock_slow Unfair tids i cur e s' = [Crash AssertFail] /\
        os_nospin_lock_unlock_slow Nospin tids i cur e s' = [Ok (s', Return e)]) /\
     os_unfair_lock_assert_owner tids i s = Crash AssertFail).
Proof.
  intros Htids Hi Hh Hok. split.
  - intros [m Hm]%held_by_uw; [|done..]. pose proof (uw_range tids Htids i m Hi) as Hr.
    unfold os_unfair_lock_lock_with_options, os_unfair_lock_assert_not_owner, slow_load, OS_LOCK_NO_OWNER.
    rewrite Hm, (is_owner_uw tids Htids), bool_decide_true by done.
    rewrite (proj2 (Z.eqb_neq _ 0)) by lia. split; [|done].
    destruct (lock_slow_ok s opts Hok) as (v & -> & _). exists v. split; [done|]. simpl.
    unfold retry, retry_unfair. by rewrite (is_owner_uw tids Htids), bool_decide_true.
  - intros Hfree. unfold os_unfair_lock_unlock, os_unfair_lock_assert_owner, os_unfair_lock_unlock_slow,
      os_nospin_lock_unlock_slow, OS_ULOCK_IS_NOT_OWNER.
    assert ((oul_value s =? os_lock_owner_get_self tids i) = false /\
      (OS_ULOCK_OWNER (oul_value s) =? os_lock_owner_get_self tids i) = false) as [Hs Ho].
    { destruct Hfree as [->|[[m ->]%(held_by_uw tids h s Htids Hh) Hne]].
      - split; [|by apply (owner_free tids Htids)]. rewrite self_uw by done.
        pose proof (uw_range tids Htids i false Hi). apply Z.eqb_neq. lia.
      - rewrite (owner_self_uw tids Htids), self_uw, (uw_eqb tids Htids), bool_decide_false by done. done. }
    rewrite Hs, Ho. split; [|done]. do 2 eexists. split_and!; [done|done|..]; by rewrite Ho.
Qed.

(** The child of a fork leaves the recursive lock once: what is left of the
    depth belongs to its only thread, without waiters. *)
Lemma forked_child_leaves tids i s (d : nat) :
  oul_value s <> 0 -> ourl_count s = Z.of_nat d -> Z.of_nat d < 2 ^ 32 ->
  os_unfair_recursive_lock_unlock_forked_child tids i s =
    Ok {| oul_value := if decide (d = 0%nat) then 0 else os_lock_owner_get_self tids i;
          ourl_count := Z.of_nat (pred d); ulk := ulk s; intr := intr s |}.
Proof.
  intros Hw Hc Hd. unfold os_unfair_recursive_lock_unlock_forked_child, OS_LOCK_NO_OWNER, set_value, set_count.
  rewrite (proj2 (Z.eqb_neq _ 0)) by done. destruct s as [w n u q]; simpl in *. subst n. destruct d as [|d]; simpl.
  - done.
  - rewrite u32_small by lia. repeat f_equal. lia.
Qed.

(** *** Runs with contention *)

Definition udemo_tids : list Z := [0x103; 0x207; 0x30b].
Definition udemo_progs : list (list step_item) :=
  [ [Do (RLock 0); Do (RLock 0); Do RUnlock; Do RUnlock];
    [Do (Lock OS_UNFAIR_LOCK_ADAPTIVE_SPIN); Do AssertOwner; Do Unlock];
    [Do RTrylock; Do RTryunlock; Do ROwned] ].
Definition nospin_progs : list (list step_item) :=
  [ [Do (Lock 0); Do Unlock]; [Do (Lock 0); Do Unlock]; [Do Trylock; If Unlock] ].

(** The first thread enters twice; the second goes to sleep and is
    interrupted once; the third fails to enter; the first leaves twice and
    wakes the second. *)
Definition udemo_sched : list (nat * nat) :=
  [(0, 0); (0, 0); (0, 0);
   (1, 0); (1, 0); (1, 0); (1, 0); (1, 0); (1, 0); (1, 0); (1, 0);
   (2, 0); (2, 0); (2, 0);
   (0, 0); (0, 0); (0, 0); (0, 0); (0, 0); (0, 0);
   (1, 0); (1, 0); (1, 0); (1, 0); (1, 0)]%nat.

Definition udemo_end : conf shared thread :=
  default (start 1 udemo_progs) (exec (next Unfair udemo_tids) udemo_sched (start 1 udemo_progs)).

Example unfair_demo_run :
  (fun c => (log <$> c_thr c, c_sh c)) <$> exec (next Unfair udemo_tids) udemo_sched (start 1 udemo_progs)
  = Some ([[Locked; Locked; Unlocked; Unlocked]; [Locked; Asserted; Unlocked];
           [TryLocked false; TryUnlocked false; IsOwned false]],
          {| oul_value := 0; ourl_count := 0; ulk := None; intr := 0 |}).
Proof. vm_compute. reflexivity. Qed.

(** A nospin lock: the second thread sleeps, times out and sleeps again until
    it is woken. *)
Example nospin_demo_run :
  (fun c => (log <$> c_thr c, c_sh c)) <$>
    exec (next Nospin udemo_tids)
      [(0, 0); (1, 0); (1, 0); (1, 0); (1, 0); (1, 1); (1, 0); (1, 0); (1, 0); (2, 0); (2, 0);
       (0, 0); (0, 0); (1, 0); (1, 0); (1, 0); (1, 0)]%nat
      (start 1 nospin_progs)
  = Some ([[Locked; Unlocked]; [Locked; Unlocked]; [TryLocked false]],
          {| oul_value := 0; ourl_count := 0; ulk := None; intr := 0 |}).
Proof. vm_compute. reflexivity. Qed.

Lemma unfair_exclusion_witness :
  ~ may_crash (next Unfair udemo_tids) udemo_end /\ oul_value (c_sh udemo_end) = 0.
Proof.
  destruct (unfair_exclusion Unfair udemo_tids 1 udemo_progs udemo_end) as (H1 & _ & _ & [_ H2] & _).
  - apply (bool_decide_unpack _). vm_compute. exact I.
  - reflexivity.
  - apply (bool_decide_unpack _). vm_compute. exact I.
  - apply (exec_rtc (next Unfair udemo_tids) udemo_sched). vm_compute. reflexivity.
  - split; [exact H1|]. apply H2.
    intros [|[|[|i]]] l Hl; revert Hl; vm_compute; intros [= <-]; reflexivity.
Defined.


Lemma unfair_misuse_witness :
  os_unfair_lock_assert_not_owner udemo_tids 0
    {| oul_value := 0x102; ourl_count := 0; ulk := None; intr := 0 |} = Crash AssertFail /\
  os_unfair_lock_assert_owner udemo_tids 1
    {| oul_value := 0x102; ourl_count := 0; ulk := None; intr := 0 |} = Crash AssertFail.
Proof.
  split.
  - apply (unfair_misuse udemo_tids 0 1 _ Unlocked 0); [|simpl; lia..|reflexivity|right; reflexivity].
    apply (bool_decide_unpack _). vm_compute. exact I.
  - apply (unfair_misuse udemo_tids 1 0 _ Unlocked 0); [|simpl; lia..|reflexivity|].
    + apply (bool_decide_unpack _). vm_compute. exact I.
    + right. split; [right; reflexivity|discriminate].
Defined.
