(* ===== verification/Once.v ===== *)
(** * One-time initialisation

    [dispatch_once_f] of libdispatch (src/once.c) and the once-gate under it
    (src/shims/lock.h, src/shims/lock.c), in the form for x86_64 macOS: the
    inlined fast path of dispatch/once.h reads the predicate, and there is no
    quiescent counter.

    The predicate is a 64-bit word: 0, then the lock value of the thread that
    runs the initialiser, perhaps with the waiters bit, then all ones. *)

From S2P Require Import Conc Ulock Lock Prelude.

Module Once.
Import LockWord Ulock Lock.

Definition DLOCK_ONCE_UNLOCKED : Z := 0.
Definition DLOCK_ONCE_DONE : Z := 2 ^ 64 - 1.

(** The shared state: the predicate, the kernel's object for its low half,
    the interruptions to come, and how often the initialiser was called and
    has returned. *)
Record shared := {
  dgo_once : Z;
  ulk : option ull;
  intr : nat;
  started : nat;
  finished : nat
}.

Definition set_once (v : Z) (s : shared) : shared :=
  {| dgo_once := v; ulk := ulk s; intr := intr s; started := started s; finished := finished s |}.
Definition set_ulk (u : option ull) (s : shared) : shared :=
  {| dgo_once := dgo_once s; ulk := u; intr := intr s; started := started s; finished := finished s |}.

(** What a client sees when a call returns: the predicate, and how often the
    initialiser has completed. *)
Record event := { at_return : Z; completed : nat }.

Inductive pc :=
  | Idle
  | TryEnter                   (* entry of dispatch_once_f *)
  | Callout                    (* entry of _dispatch_once_callout *)
  | Running                    (* in the initialiser *)
  | Broadcast                  (* _dispatch_once_gate_broadcast *)
  | BroadcastSlow (cur : Z)    (* _dispatch_gate_broadcast_slow *)
  | OnceWait                   (* the rmw loop of _dispatch_once_wait *)
  | Ulocking (new_v : Z)       (* entry of _dispatch_unfair_lock_wait *)
  | Sleeping (new_v : Z)       (* asleep in the kernel, or woken *)
  | Interrupted (new_v : Z).   (* interrupted, still in the kernel *)

(** [todo] counts the calls that are still to come. *)
Record thread := { t_pc : pc; todo : nat; log : list event }.

Inductive ctl :=
  | Goto (p : pc)
  | Return.

Section once.
  Context (tids : list Z).

(** [_dispatch_once_f] of dispatch/once.h. *)
Definition once_fast (s : shared) : shared * ctl :=
  if negb (dgo_once s =? DLOCK_ONCE_DONE) then (s, Goto TryEnter) else (s, Return).

(** [_dispatch_once_gate_tryenter], and the choice of [dispatch_once_f]. *)
Definition once_gate_tryenter (i : nat) (s : shared) : shared * ctl :=
  if dgo_once s =? DLOCK_ONCE_UNLOCKED
  then (set_once (value_for_self tids i) s, Goto Callout)
  else (s, Goto OnceWait).

(** [_dispatch_client_callout] calls the initialiser, and it returns. *)
Definition once_callout (s : shared) : shared * ctl :=
  ({| dgo_once := dgo_once s; ulk := ulk s; intr := intr s;
      started := S (started s); finished := finished s |}, Goto Running).
Definition once_callout_return (s : shared) : shared * ctl :=
  ({| dgo_once := dgo_once s; ulk := ulk s; intr := intr s;
      started := started s; finished := S (finished s) |}, Goto Broadcast).

(** [_dispatch_once_gate_broadcast], with [_dispatch_once_mark_done]. *)
Definition once_gate_broadcast (i : nat) (s : shared) : shared * ctl :=
  let v := dgo_once s in
  let s := set_once DLOCK_ONCE_DONE s in
  if u32 v =? value_for_self tids i then (s, Return) else (s, Goto (BroadcastSlow (u32 v))).

(** [_dispatch_gate_broadcast_slow]. *)
Definition gate_broadcast_slow (i : nat) (cur : Z) (s : shared) : list (res (shared * ctl)) :=
  if negb (dispatch_lock_is_locked_by cur (tid_self tids i)) then [Crash AssertFail]
  else (fun '(u, rc) => let! _ := dlock_wake_ret rc in Ok (set_ulk u s, Return))
         <$> ulock_wake UL_UNFAIR_LOCK true i (ulk s).

(** The body of the rmw loop of [_dispatch_once_wait]; [None] when it
    returns, else [new_v]. *)
Definition once_wait_body (old_v : Z) : rmw_out (option Z) :=
  if old_v =? DLOCK_ONCE_DONE then GiveUp None
  else
    let new_v := Z.lor old_v DLOCK_WAITERS_BIT in
    if new_v =? old_v then GiveUp (Some new_v) else Swap new_v (Some new_v).

(** [_dispatch_once_wait] from the top of its loop to the wait. *)
Definition once_wait (i : nat) (s : shared) : res (shared * ctl) :=
  let '(mem, old_v, r) := rmw_atomic once_wait_body (dgo_once s) in
  let s := set_once mem s in
  match r with
  | None => Ok (s, Return)
  | Some new_v =>
      if dispatch_lock_is_locked_by (u32 old_v) (value_for_self tids i) then Crash AssertFail
      else Ok (s, Goto (Ulocking new_v))
  end.

(** The end of the loop, when [__ulock_wait] returns [rc]: its value is not
    used. *)
Definition once_waited (new_v rc : Z) (s : shared) : res (shared * ctl) :=
  match dlock_wait_ret 0 rc with
  | WaitDone _ => Ok (s, Goto OnceWait)
  | WaitAgain => Ok (s, Goto (Ulocking new_v))
  | WaitCrash => Crash AssertFail
  end.

(** [_dispatch_unfair_lock_wait] on the low half of the predicate. *)
Definition once_ulock (i : nat) (new_v : Z) (s : shared) : res (shared * ctl) :=
  match ulock_wait tids UL_UNFAIR_LOCK i (u32 (dgo_once s)) (u32 new_v) (ulk s) with
  | (u, Asleep) => Ok (set_ulk u s, Goto (Sleeping new_v))
  | (u, Returned rc) => once_waited new_v rc (set_ulk u s)
  end.

(** The thread comes back from the kernel. *)
Definition once_continue (ret new_v : Z) (s : shared) : res (shared * ctl) :=
  match ulk s with
  | None => Crash AssertFail
  | Some u =>
      let '(u', rc) := ulock_wait_continue ret u in
      once_waited new_v rc (set_ulk u' s)
  end.

(** A sleeping thread: in the queue it can only be interrupted. *)
Definition once_sleep (i : nat) (new_v : Z) (s : shared) : list (res (shared * ctl)) :=
  match ulk s with
  | None => [Crash AssertFail]
  | Some u =>
      if bool_decide (i ∈ ull_waitq u) then
        match intr s with
        | O => []
        | S n =>
            let u' := {| ull_owner := ull_owner u; ull_nwaiters := ull_nwaiters u;
                         ull_opcode := ull_opcode u; ull_waitq := leave i (ull_waitq u) |} in
            [Ok ({| dgo_once := dgo_once s; ulk := Some u'; intr := n;
                    started := started s; finished := finished s |}, Goto (Interrupted new_v))]
        end
      else [once_continue 0 new_v s]
  end.

(** The next step of [dispatch_once_f] at [p]. *)
Definition pc_next (i : nat) (s : shared) (p : pc) : list (res (shared * ctl)) :=
  match p with
  | Idle => []
  | TryEnter => [Ok (once_gate_tryenter i s)]
  | Callout => [Ok (once_callout s)]
  | Running => [Ok (once_callout_return s)]
  | Broadcast => [Ok (once_gate_broadcast i s)]
  | BroadcastSlow cur => gate_broadcast_slow i cur s
  | OnceWait => [once_wait i s]
  | Ulocking v => [once_ulock i v s]
  | Sleeping v => once_sleep i v s
  | Interrupted v => [once_continue EINTR v s]
  end.

Definition go (s : shared) (l : thread) (c : ctl) : thread :=
  match c with
  | Goto p => {| t_pc := p; todo := todo l; log := log l |}
  | Return => {| t_pc := Idle; todo := todo l;
                 log := log l ++ [{| at_return := dgo_once s; completed := finished s |}] |}
  end.

Definition continue (l : thread) (r : res (shared * ctl)) : res (shared * thread) :=
  let! (s, c) := r in Ok (s, go s l c).

Definition next (i : nat) (s : shared) (l : thread) : list (res (shared * thread)) :=
  match t_pc l with
  | Idle =>
      match todo l with
      | O => []
      | S n => [continue {| t_pc := Idle; todo := n; log := log l |} (Ok (once_fast s))]
      end
  | p => continue l <$> pc_next i s p
  end.

End once.

(** Threads that call [dispatch_once_f] on a fresh predicate, each the given
    number of times. *)
Definition start (n : nat) (calls : list nat) : conf shared thread :=
  Conf {| dgo_once := DLOCK_ONCE_UNLOCKED; ulk := None; intr := n; started := 0; finished := 0 |}
       ((fun k => {| t_pc := Idle; todo := k; log := [] |}) <$> calls).

End Once.
