(* ===== verification/OnceInv.v ===== *)
(** * The invariant of once-gates

    The predicate tells in which phase the gate is: nobody has entered, the
    thread it names runs the initialiser, or the initialiser has completed.
    As long as threads sleep in the kernel, the kernel's owner of the gate is
    the thread that will wake all of them. *)

From S2P Require Import Conc Ulock Lock Once Prelude.
Import LockWord Ulock Lock Once.

#[export] Instance once_pc_eq_dec : EqDecision Once.pc.
Proof. solve_decision. Defined.

(** The thread that runs the initialiser, up to the store of the last value. *)
Definition is_init (p : pc) : bool :=
  match p with Callout | Running | Broadcast => true | _ => false end.
Definition is_sleep (p : pc) : bool := match p with Sleeping _ => true | _ => false end.
Definition in_kernel (l : thread) : nat :=
  match t_pc l with Sleeping _ | Interrupted _ => 1 | _ => 0 end.
Definition busy (l : thread) : nat := match t_pc l with Idle => 0 | _ => 1 end.

(** Calls that have returned, are under way or are still to come. *)
Definition calls_of (l : thread) : nat := length (log l) + busy l + todo l.

(** The thread that is to wake the sleepers. *)
Definition wakes (word : Z) (p : pc) : Prop :=
  (is_init p = true /\ Z.odd word = true) \/ exists cur, p = BroadcastSlow cur.

Definition good_event (e : event) : Prop := at_return e = DLOCK_ONCE_DONE /\ completed e = 1%nat.

Section once_inv.
  Context (tids : list Z) (Htids : tids_ok tids).

#[local] Abbreviation key := (key tids).

(** A value to wait on: the marked predicate of another thread, unless that
    one has finished in the meantime. *)
Definition wait_ok (i : nat) (word v : Z) : Prop :=
  exists h, (h < length tids)%nat /\ h <> i /\ v = wd (key h) 1 /\ (word = DLOCK_ONCE_DONE \/ word = v).

Definition opc_ok (i : nat) (s : shared) (p : pc) : Prop :=
  match p with
  | Idle | TryEnter => True
  | Callout => started s = 0%nat /\ finished s = 0%nat
  | Running => started s = 1%nat /\ finished s = 0%nat
  | Broadcast => started s = 1%nat /\ finished s = 1%nat
  | BroadcastSlow cur => dgo_once s = DLOCK_ONCE_DONE /\ exists b, 0 <= b < 2 /\ cur = wd (key i) b
  | OnceWait => dgo_once s <> 0
  | Ulocking v | Sleeping v | Interrupted v => wait_ok i (dgo_once s) v
  end.

(** The values of the predicate. *)
Definition word_ok (w : Z) : Prop :=
  w = 0 \/ w = DLOCK_ONCE_DONE \/
  exists h b, (h < length tids)%nat /\ 0 <= b < 2 /\ w = wd (key h) b.

Definition counts_ok (s : shared) : Prop :=
  (dgo_once s = 0 -> started s = 0%nat /\ finished s = 0%nat) /\
  (dgo_once s = DLOCK_ONCE_DONE -> started s = 1%nat /\ finished s = 1%nat).

Record OInv (calls : list nat) (s : shared) (ls : list thread) : Prop := {
  oi_len : length ls = length tids;
  oi_word : word_ok (dgo_once s);
  oi_init : forall i l, ls !! i = Some l -> is_init (t_pc l) = true <-> dgo_once s / 4 = key i;
  oi_counts : counts_ok s;
  oi_pc : forall i l, ls !! i = Some l -> opc_ok i s (t_pc l);
  oi_log : forall i l, ls !! i = Some l -> Forall good_event (log l);
  oi_returned : forall i l, ls !! i = Some l -> log l <> [] -> dgo_once s = DLOCK_ONCE_DONE;
  oi_calls : forall i l, ls !! i = Some l -> calls !! i = Some (calls_of l);
  oi_nw : nwaiters (ulk s) = Z.of_nat (tsum in_kernel ls);
  oi_ull : ull_ok UL_UNFAIR_LOCK (ulk s);
  oi_nodup : NoDup (wq (ulk s));
  oi_queue : forall i, i ∈ wq (ulk s) -> exists l, ls !! i = Some l /\ is_sleep (t_pc l) = true;
  oi_wakes : wq (ulk s) <> [] -> exists o lo, owner (ulk s) = Some o /\ ls !! o = Some lo /\
    wakes (dgo_once s) (t_pc lo)
}.

(** A step may end a call. *)
Definition may_return (s' : shared) (l l' : thread) : Prop :=
  log l' = log l \/
  (dgo_once s' = DLOCK_ONCE_DONE /\ exists e, good_event e /\ log l' = log l ++ [e]).

(** How a step of thread [i] changes the predicate. *)
Inductive word_step (i : nat) (l : thread) (w : Z) : Z -> Prop :=
  | ws_same : word_step i l w w
  | ws_enter : w = 0 -> word_step i l w (wd (key i) 0)
  | ws_mark h : w = wd (key h) 0 -> (h < length tids)%nat -> is_init (t_pc l) = false ->
      word_step i l w (wd (key h) 1)
  | ws_done : is_init (t_pc l) = true -> word_step i l w DLOCK_ONCE_DONE.

Record omoves (i : nat) (s : shared) (ls : list thread) (l : thread) (s' : shared) (l' : thread) : Prop := {
  om_step : word_step i l (dgo_once s) (dgo_once s');
  om_init : is_init (t_pc l') = true <-> dgo_once s' / 4 = key i;
  om_counts : counts_ok s';
  om_same : is_init (t_pc l) = false -> started s' = started s /\ finished s' = finished s;
  om_pc : opc_ok i s' (t_pc l');
  om_log : may_return s' l l';
  om_calls : calls_of l' = calls_of l;
  om_nw : nwaiters (ulk s') - nwaiters (ulk s) = Z.of_nat (in_kernel l') - Z.of_nat (in_kernel l);
  om_ull : ull_ok UL_UNFAIR_LOCK (ulk s');
  om_nodup : NoDup (wq (ulk s'));
  om_queue : forall j, j ∈ wq (ulk s') -> j <> i -> j ∈ wq (ulk s);
  om_self : i ∈ wq (ulk s') -> is_sleep (t_pc l') = true;
  om_wakes : wq (ulk s') <> [] ->
    (owner (ulk s') = owner (ulk s) /\ wq (ulk s) <> [] /\
     (owner (ulk s) = Some i -> wakes (dgo_once s) (t_pc l) -> wakes (dgo_once s') (t_pc l'))) \/
    exists o lo, owner (ulk s') = Some o /\ o <> i /\ ls !! o = Some lo /\
      wakes (dgo_once s') (t_pc lo)
}.

Section ostep.
  Context (calls : list nat) (i : nat) (s : shared) (ls : list thread) (l : thread).
  Context (I : OInv calls s ls) (Hl : ls !! i = Some l).

Lemma othread_lt j x : ls !! j = Some x -> (j < length tids)%nat.
Proof. intros Hx. rewrite <- (oi_len _ _ _ I). by eapply lookup_lt_Some. Qed.

Lemma okey_range j x : ls !! j = Some x -> 0 < key j < 2 ^ 30 - 1.
Proof. intros Hx. by apply tid_wd, (othread_lt j x). Qed.

Lemma okey_neq j x : ls !! j = Some x -> j <> i -> key j <> key i.
Proof. intros Hx Hne Hk. apply Hne, (key_inj tids Htids); eauto using othread_lt. Qed.

Lemma onot_queued : is_sleep (t_pc l) = false -> ~ i ∈ wq (ulk s).
Proof.
  intros H0 Hi. destruct (oi_queue _ _ _ I i Hi) as (l2 & Hl2 & ?). congruence.
Qed.

(** The predicate of the thread that runs the initialiser. *)
Lemma init_word : is_init (t_pc l) = true -> exists b, 0 <= b < 2 /\ dgo_once s = wd (key i) b.
Proof.
  intros Hp%(oi_init _ _ _ I i l Hl). pose proof (okey_range i l Hl) as Hk.
  destruct (oi_word _ _ _ I) as [H0|[H0|(h & b & Hh & Hb & Hw)]].
  - rewrite H0 in Hp. change (0 / 4) with 0 in Hp. lia.
  - rewrite H0 in Hp. unfold DLOCK_ONCE_DONE in Hp. zbits.
  - exists b. split; [done|]. rewrite Hw, wd_div in Hp by lia. by rewrite Hw, Hp.
Qed.

Lemma word_step_ok w' : word_step i l (dgo_once s) w' -> word_ok w'.
Proof.
  destruct 1 as [|H0|h Hw Hh _|_].
  - apply (oi_word _ _ _ I).
  - right; right. exists i, 0. split_and!; [by eapply othread_lt|lia|lia|done].
  - right; right. exists h, 1. split_and!; [done|lia|lia|done].
  - right; by left.
Qed.

Lemma done_odd : Z.odd DLOCK_ONCE_DONE = true.
Proof. done. Qed.

Lemma done_div : 2 ^ 30 <= DLOCK_ONCE_DONE / 4.
Proof. by vm_compute. Qed.

(** The predicate only moves forward. *)
Lemma done_step w' : word_step i l DLOCK_ONCE_DONE w' -> w' = DLOCK_ONCE_DONE.
Proof.
  inversion 1 as [|H0|h Hw Hh Hi|]; subst; try done.
  apply (f_equal Z.odd) in Hw. by rewrite wd_odd in Hw.
Qed.

Lemma nonzero_step w w' : w <> 0 -> word_step i l w w' -> w' <> 0.
Proof.
  intros Hw. destruct 1 as [|H0|h Hw0 Hh _|_]; try done.
  destruct (tid_wd tids Htids h Hh) as [_ Hk]. unfold wd. lia.
Qed.

Lemma wait_ok_step j w w' v : wait_ok j w v -> word_step i l w w' -> wait_ok j w' v.
Proof.
  intros (h & Hh & Hne & -> & Hw) Hs. exists h. split_and!; [done..|].
  destruct Hw as [-> | ->]; [left; by apply done_step|].
  destruct (tid_wd tids Htids h Hh) as [_ Hk].
  inversion Hs as [|H0|h' Hw Hh' Hi|]; subst; auto.
  - unfold wd in H0. lia.
  - apply (f_equal Z.odd) in Hw. by rewrite !wd_odd in Hw.
Qed.

Lemma odd_step w w' : is_init (t_pc l) = false -> word_ok w -> Z.odd w = true -> word_step i l w w' -> Z.odd w' = true.
Proof.
  intros Hi Hw Ho Hs. inversion Hs as [|H0|h' Hw' Hh' Hi'|Hi']; subst; try done. by rewrite wd_odd.
Qed.

Lemma init_step j x w' :
  j <> i -> ls !! j = Some x -> word_step i l (dgo_once s) w' ->
  dgo_once s / 4 = key j <-> w' / 4 = key j.
Proof.
  intros Hne Hx Hs.
  pose proof (okey_range i l Hl) as Hki. pose proof (okey_range j x Hx) as Hkj.
  pose proof (okey_neq j x Hx Hne) as Hkk. pose proof done_div.
  inversion Hs as [|H0|h' Hw Hh' Hi|Hi]; subst; [done|..].
  - rewrite H0, wd_div by lia. change (0 / 4) with 0. lia.
  - rewrite Hw, !wd_div by lia. done.
  - apply (oi_init _ _ _ I i l Hl) in Hi. lia.
Qed.

(** What another thread relies on survives the step. *)
Lemma others_ok s' l' j x :
  omoves i s ls l s' l' -> j <> i -> ls !! j = Some x ->
  (is_init (t_pc x) = true <-> dgo_once s' / 4 = key j) /\ opc_ok j s' (t_pc x) /\
  (wakes (dgo_once s) (t_pc x) -> wakes (dgo_once s') (t_pc x)).
Proof.
  intros M Hne Hx. pose proof (om_step _ _ _ _ _ _ M) as Hs.
  pose proof (oi_init _ _ _ I j x Hx) as Hij. pose proof (oi_pc _ _ _ I j x Hx) as Hpj.
  assert (is_init (t_pc x) = true -> is_init (t_pc l) = false) as Hexcl.
  { intros Hi%Hij. destruct (is_init (t_pc l)) eqn:Hp; [|done].
    apply (oi_init _ _ _ I i l Hl) in Hp. pose proof (okey_neq j x Hx Hne). congruence. }
  split_and!.
  - rewrite Hij. by apply (init_step j x).
  - destruct (t_pc x) eqn:Hpx; simpl in *; try done; eauto using wait_ok_step, nonzero_step.
    1-3: destruct (om_same _ _ _ _ _ _ M (Hexcl eq_refl)) as [-> ->]; done.
    destruct Hpj as [Hd Hb]. split; [|done]. rewrite Hd in Hs. by apply done_step.
  - intros [[Hi Ho]|Hb]; [left|by right]. split; [done|].
    eapply odd_step; eauto. apply (oi_word _ _ _ I).
Qed.

Lemma omoves_inv s' l' : omoves i s ls l s' l' -> OInv calls s' (<[i := l']> ls).
Proof.
  intros M. pose proof (isum_insert (fun _ => in_kernel) ls i l l' Hl) as Hc.
  assert (forall j x, <[i := l']> ls !! j = Some x -> j = i /\ x = l' \/ j <> i /\ ls !! j = Some x) as Hins.
  { intros j x. by apply (lookup_moved ls i l). }
  assert (<[i := l']> ls !! i = Some l') as Hi by (apply list_lookup_insert_eq; by eapply lookup_lt_Some).
  split.
  - by rewrite length_insert, (oi_len _ _ _ I).
  - apply word_step_ok, (om_step _ _ _ _ _ _ M).
  - intros j x [[-> ->]|[Hne Hx]]%Hins; [apply (om_init _ _ _ _ _ _ M)|by eapply others_ok].
  - apply (om_counts _ _ _ _ _ _ M).
  - intros j x [[-> ->]|[Hne Hx]]%Hins; [apply (om_pc _ _ _ _ _ _ M)|by eapply others_ok].
  - intros j x [[-> ->]|[Hne Hx]]%Hins; [|by eapply (oi_log _ _ _ I)].
    pose proof (oi_log _ _ _ I i l Hl) as Hg.
    destruct (om_log _ _ _ _ _ _ M) as [-> | (_ & e & He & ->)]; [done|]. apply Forall_app; auto.
  - intros j x [[-> ->]|[Hne Hx]]%Hins Hne'.
    + destruct (om_log _ _ _ _ _ _ M) as [He|[? _]]; [|done]. rewrite He in Hne'.
      pose proof (om_step _ _ _ _ _ _ M) as Hs. rewrite (oi_returned _ _ _ I i l Hl Hne') in Hs.
      by apply done_step.
    + pose proof (om_step _ _ _ _ _ _ M) as Hs. rewrite (oi_returned _ _ _ I j x Hx Hne') in Hs.
      by apply done_step.
  - intros j x [[-> ->]|[Hne Hx]]%Hins; [rewrite (om_calls _ _ _ _ _ _ M)|]; by apply (oi_calls _ _ _ I).
  - pose proof (om_nw _ _ _ _ _ _ M). pose proof (oi_nw _ _ _ I). lia.
  - apply (om_ull _ _ _ _ _ _ M).
  - apply (om_nodup _ _ _ _ _ _ M).
  - intros j Hj. destruct (decide (j = i)) as [->|Hne].
    + exists l'. split; [done|]. by apply (om_self _ _ _ _ _ _ M).
    + rewrite list_lookup_insert_ne by done. apply (oi_queue _ _ _ I). by apply (om_queue _ _ _ _ _ _ M).
  - intros Hq. destruct (om_wakes _ _ _ _ _ _ M Hq) as [(Ho & Hq0 & Hkeep)|(o & lo & Ho & Hne & Hlo & Ht)].
    2: { exists o, lo. by rewrite list_lookup_insert_ne by done. }
    destruct (oi_wakes _ _ _ I Hq0) as (o & lo & Howner & Hlo & Ht). rewrite Ho.
    destruct (decide (o = i)) as [->|Hne].
    { simplify_eq. exists i, l'. auto. }
    exists o, lo. rewrite list_lookup_insert_ne by done. split_and!; [done..|]. by eapply others_ok.
Qed.

(** *** Steps on the predicate *)

(** A step outside the kernel. *)
Lemma plain_moves s' l' :
  ulk s' = ulk s -> in_kernel l = 0%nat -> in_kernel l' = 0%nat ->
  word_step i l (dgo_once s) (dgo_once s') ->
  (is_init (t_pc l') = true <-> dgo_once s' / 4 = key i) ->
  counts_ok s' ->
  (is_init (t_pc l) = false -> started s' = started s /\ finished s' = finished s) ->
  opc_ok i s' (t_pc l') ->
  may_return s' l l' ->
  calls_of l' = calls_of l ->
  (wakes (dgo_once s) (t_pc l) -> wakes (dgo_once s') (t_pc l')) ->
  omoves i s ls l s' l'.
Proof.
  intros Hu Hk Hk' Hs Hin Hc Hsame Hpc Hlog Hcalls Hw.
  assert (~ i ∈ wq (ulk s)) as Hnq.
  { apply onot_queued. unfold in_kernel in Hk. by destruct (t_pc l). }
  split; rewrite ?Hu; try done.
  - lia.
  - apply (oi_ull _ _ _ I).
  - apply (oi_nodup _ _ _ I).
  - intros Hq. left. split_and!; auto.
Qed.

(** A step that only moves the thread, which neither enters nor leaves the
    initialiser. *)
Lemma still_moves l' :
  in_kernel l = 0%nat -> in_kernel l' = 0%nat ->
  is_init (t_pc l) = false -> is_init (t_pc l') = false -> (forall cur, t_pc l <> BroadcastSlow cur) ->
  opc_ok i s (t_pc l') ->
  may_return s l l' ->
  calls_of l' = calls_of l ->
  omoves i s ls l s l'.
Proof.
  intros Hk Hk' Hi Hi' Hb Hpc Hlog Hcalls. apply plain_moves; try done.
  - constructor.
  - rewrite <- (oi_init _ _ _ I i l Hl). by rewrite Hi, Hi'.
  - apply (oi_counts _ _ _ I).
  - intros [[? _]|[cur ?]]; [congruence|by destruct (Hb cur)].
Qed.

(** The event of a call that returns when the predicate is all ones. *)
Lemma good_return :
  dgo_once s = DLOCK_ONCE_DONE ->
  good_event {| at_return := dgo_once s; completed := finished s |}.
Proof. intros Hd. split; [done|]. by apply (oi_counts _ _ _ I). Qed.

Lemma may_return_now l' :
  dgo_once s = DLOCK_ONCE_DONE ->
  log l' = log l ++ [{| at_return := dgo_once s; completed := finished s |}] ->
  may_return s l l'.
Proof. intros Hd Hlog. right. split; [done|]. eexists. split; [by apply good_return|done]. Qed.

Lemma may_return_not s' l' : log l' = log l -> may_return s' l l'.
Proof. by left. Qed.

Lemma fast_moves n s' c :
  t_pc l = Idle -> todo l = S n -> once_fast s = (s', c) ->
  omoves i s ls l s' (go s' {| t_pc := Idle; todo := n; log := log l |} c).
Proof.
  intros Hpc Htodo. unfold once_fast. destruct (Z.eqb_spec (dgo_once s) DLOCK_ONCE_DONE) as [Hd|Hd];
    intros [= <- <-]; apply still_moves; unfold in_kernel, calls_of, busy; rewrite ?Hpc, ?Htodo; simpl; try done; try (by apply may_return_not); try lia.
  - by apply may_return_now.
  - rewrite length_app. simpl. lia.
Qed.

Lemma tryenter_moves s' c :
  t_pc l = TryEnter -> once_gate_tryenter tids i s = (s', c) -> omoves i s ls l s' (go s' l c).
Proof.
  intros Hpc. pose proof (okey_range i l Hl) as Hk. pose proof (othread_lt i l Hl) as Hlt.
  unfold once_gate_tryenter, DLOCK_ONCE_UNLOCKED. rewrite (value_for_self_wd tids Htids i) by done.
  destruct (Z.eqb_spec (dgo_once s) 0) as [H0|H0]; intros [= <- <-].
  - destruct (proj1 (oi_counts _ _ _ I) H0) as [Hs Hf].
    apply plain_moves; unfold in_kernel, calls_of, busy; rewrite ?Hpc; simpl; try done; try (by apply may_return_not).
    + by constructor.
    + by rewrite wd_div by lia.
    + split; simpl; [unfold wd; lia|]. intros Hd. apply (f_equal Z.odd) in Hd. by rewrite wd_odd in Hd.
    + intros [[? _]|[cur ?]]; done.
  - apply still_moves; unfold in_kernel, calls_of, busy; rewrite ?Hpc; simpl; try done; try (by apply may_return_not).
Qed.

(** The initialiser is called and returns. *)
Lemma callout_moves s' c :
  t_pc l = Callout /\ once_callout s = (s', c) \/ t_pc l = Running /\ once_callout_return s = (s', c) ->
  omoves i s ls l s' (go s' l c).
Proof.
  intros Hcase.
  assert (is_init (t_pc l) = true) as Hi by (by destruct Hcase as [[-> _]|[-> _]]).
  destruct (init_word Hi) as (b & Hb & Hw). pose proof (okey_range i l Hl) as Hk.
  assert (counts_ok s') as Hc.
  { assert (dgo_once s' = wd (key i) b) as Hw' by (destruct Hcase as [[_ [= <- _]]|[_ [= <- _]]]; done).
    split; rewrite Hw'; [unfold wd; lia|]. intros Hd. apply (f_equal (fun z => z / 4)) in Hd.
    rewrite wd_div in Hd by lia. pose proof done_div. lia. }
  pose proof (oi_pc _ _ _ I i l Hl) as Hp.
  destruct Hcase as [[Hpc He]|[Hpc He]]; rewrite Hpc in Hp; simpl in Hp; revert He Hc;
    [unfold once_callout|unfold once_callout_return]; intros [= <- <-] Hc;
    apply plain_moves; unfold in_kernel, calls_of, busy; rewrite ?Hpc; simpl; try done; try (by apply may_return_not);
    try (by apply ws_same); try (by rewrite Hw, wd_div by lia); try lia;
    try (intros [[? Ho]|[cur ?]]; [by left|done]).
Qed.

Lemma broadcast_moves s' c :
  t_pc l = Broadcast -> once_gate_broadcast tids i s = (s', c) -> omoves i s ls l s' (go s' l c).
Proof.
  intros Hpc. destruct init_word as (b & Hb & Hw); [by rewrite Hpc|].
  pose proof (okey_range i l Hl) as Hk. pose proof (othread_lt i l Hl) as Hlt.
  pose proof (oi_pc _ _ _ I i l Hl) as Hp. rewrite Hpc in Hp. destruct Hp as [Hs Hf].
  pose proof done_div as Hdd.
  unfold once_gate_broadcast. rewrite (value_for_self_wd tids Htids i) by done.
  rewrite Hw, u32_small by (apply wd_range; lia).
  assert (counts_ok (set_once DLOCK_ONCE_DONE s)) as Hc by (split; simpl; done).
  destruct (Z.eqb_spec (wd (key i) b) (wd (key i) 0)) as [He|He]; intros [= <- <-];
    apply plain_moves; unfold in_kernel, calls_of, busy; rewrite ?Hpc; simpl; try done; try (by apply may_return_not);
    try (constructor; by rewrite Hpc); try (split; [done|lia]).
  - right. split; [done|]. exists {| at_return := DLOCK_ONCE_DONE; completed := finished s |}. by repeat split.
  - rewrite length_app. simpl. lia.
  - apply wd_inj in He as [_ ->]; [|lia..]. intros [[_ Ho]|[? ?]]; [|done]. by rewrite Hw, wd_odd in Ho.
  - split; [done|]. by exists b.
  - right. by eexists.
Qed.

(** The loop of [_dispatch_once_wait]. *)
Lemma rmw_once_wait w :
  rmw_atomic once_wait_body w =
    if w =? DLOCK_ONCE_DONE then (w, w, None) else (Z.lor w 1, w, Some (Z.lor w 1)).
Proof.
  unfold rmw_atomic, once_wait_body, DLOCK_WAITERS_BIT. destruct (w =? DLOCK_ONCE_DONE); [done|].
  destruct (Z.eqb_spec (Z.lor w 1) w) as [He|]; [|done]. by rewrite He.
Qed.

Lemma set_once_id : set_once (dgo_once s) s = s.
Proof. clear. by destruct s. Qed.

Lemma once_wait_moves :
  t_pc l = OnceWait ->
  exists s' c, once_wait tids i s = Ok (s', c) /\ omoves i s ls l s' (go s' l c).
Proof.
  intros Hpc. pose proof (oi_pc _ _ _ I i l Hl) as Hnz. rewrite Hpc in Hnz. simpl in Hnz.
  pose proof (okey_range i l Hl) as Hk. pose proof (othread_lt i l Hl) as Hlt.
  unfold once_wait. rewrite rmw_once_wait, (value_for_self_wd tids Htids i) by done.
  destruct (Z.eqb_spec (dgo_once s) DLOCK_ONCE_DONE) as [Hd|Hd].
  { do 2 eexists. split; [done|]. rewrite set_once_id.
    apply still_moves; unfold in_kernel, calls_of, busy; rewrite ?Hpc; simpl; try done; try (by apply may_return_not).
    - by apply may_return_now.
    - rewrite length_app. simpl. lia. }
  destruct (oi_word _ _ _ I) as [?|[?|(h & b & Hh & Hb & Hw)]]; [done..|].
  destruct (tid_wd tids Htids h Hh) as [_ Hkh].
  assert (h <> i) as Hne.
  { intros ->. assert (is_init (t_pc l) = true) as Hi by (apply (oi_init _ _ _ I i l Hl); by rewrite Hw, wd_div by lia).
    by rewrite Hpc in Hi. }
  assert (key h <> key i) as Hkk by (intros Hkk; apply Hne; by apply (key_inj tids Htids)).
  rewrite Hw, wd_lor, u32_small by (try apply wd_range; lia).
  rewrite is_locked_by_wd, (proj2 (Z.eqb_neq (key h) (key i))) by lia.
  assert (Z.lor b 1 = 1) as -> by (assert (b = 0 \/ b = 1) as [->| ->] by lia; done).
  do 2 eexists. split; [done|].
  apply plain_moves; unfold in_kernel, calls_of, busy; rewrite ?Hpc; simpl; try done; try (by apply may_return_not).
  - rewrite Hw. assert (b = 0 \/ b = 1) as [->| ->] by lia; [|constructor].
    constructor; [done..|by rewrite Hpc].
  - rewrite wd_div by lia. split; [done|]. congruence.
  - split; simpl; [unfold wd; lia|]. intros Hx. apply (f_equal (fun z => z / 4)) in Hx.
    rewrite wd_div in Hx by lia. pose proof done_div. lia.
  - exists h. auto.
  - intros [[? _]|[cur ?]]; done.
Qed.

(** *** Steps in the kernel *)

Lemma once_waiters_self :
  in_kernel l = 1%nat -> ~ i ∈ wq (ulk s) -> Z.of_nat (length (wq (ulk s))) + 1 <= nwaiters (ulk s).
Proof.
  apply (queue_bound_self in_kernel ls); [apply (oi_nw _ _ _ I)|apply (oi_nodup _ _ _ I)| |done].
  intros j Hj. destruct (oi_queue _ _ _ I j Hj) as (x & Hx & Hs). exists x. split; [done|].
  unfold in_kernel. by destruct (t_pc x).
Qed.

Lemma once_waited_ok v rc s0 : 0 <= rc -> once_waited v rc s0 = Ok (s0, Goto OnceWait).
Proof.
  intros Hrc. unfold once_waited, dlock_wait_ret. rewrite Z.gtb_ltb.
  destruct (Z.ltb_spec 0 rc); [done|]. by assert (rc = 0) as -> by lia.
Qed.

(** The values of the predicate when a thread waits on [v]. *)
Lemma wait_words v :
  wait_ok i (dgo_once s) v ->
  dgo_once s <> 0 /\ u32 v = v /\ (u32 (dgo_once s) = u32 v -> dgo_once s = v) /\
  exists h, (h < length tids)%nat /\ h <> i /\ v = wd (key h) 1.
Proof.
  intros (h & Hh & Hne & -> & Hw). destruct (tid_wd tids Htids h Hh) as [_ Hk].
  assert (u32 (wd (key h) 1) = wd (key h) 1) as Hu by (apply u32_small, wd_range; lia).
  split_and!; [| done | | eauto].
  - destruct Hw as [-> | ->]; [done|]. unfold wd. lia.
  - rewrite Hu. destruct Hw as [-> | ->]; [|done]. change (u32 DLOCK_ONCE_DONE) with (2 ^ 32 - 1).
    unfold wd. lia.
Qed.

Lemma once_ulock_moves v :
  t_pc l = Ulocking v ->
  exists s' c, once_ulock tids i v s = Ok (s', c) /\ omoves i s ls l s' (go s' l c).
Proof.
  intros Hpc. pose proof (oi_pc _ _ _ I i l Hl) as Hp. rewrite Hpc in Hp. simpl in Hp.
  destruct (wait_words v Hp) as (Hnz & Hu & Heq & h & Hh & Hne & Hv).
  destruct (tid_wd tids Htids h Hh) as [_ Hkh].
  assert (~ i ∈ wq (ulk s)) as Hnq by (apply onot_queued; by rewrite Hpc).
  assert (0 <= nwaiters (ulk s)) as Hnn by (rewrite (oi_nw _ _ _ I); lia).
  unfold once_ulock. destruct (decide (u32 (dgo_once s) = u32 v)) as [Hm|Hm].
  - rewrite Hm, Hu, Hv. specialize (Heq Hm).
    destruct (ulock_wait_match tids Htids i h 1 (ulk s)) as (u & -> & Ho & Hc & Hop & Hq);
      [apply (oi_ull _ _ _ I)|done..|].
    do 2 eexists. split; [done|].
    assert (h < length ls)%nat as Hlh by (by rewrite (oi_len _ _ _ I)).
    destruct (lookup_lt_is_Some_2 ls h Hlh) as [lh Hlh'].
    assert (is_init (t_pc lh) = true) as Hih
      by (apply (oi_init _ _ _ I h lh Hlh'); by rewrite Heq, Hv, wd_div).
    split; simpl; rewrite ?Hc, ?Hq, ?Hop; simpl; try done; try (by apply may_return_not); auto.
    + apply ws_same.
    + rewrite <- (oi_init _ _ _ I i l Hl). by rewrite Hpc.
    + apply (oi_counts _ _ _ I).
    + by rewrite <- Hv.
    + unfold calls_of, busy. by rewrite Hpc.
    + unfold in_kernel. rewrite Hpc. simpl. lia.
    + split; [lia|done].
    + apply NoDup_app. split_and!; [apply (oi_nodup _ _ _ I)| |apply NoDup_singleton].
      intros j Hj ->%list_elem_of_singleton. done.
    + intros j. rewrite elem_of_app, list_elem_of_singleton. tauto.
    + intros _. right. exists h, lh. split_and!; [done..|]. left. split; [done|]. by rewrite Heq, Hv, wd_odd.
  - rewrite ulock_wait_mismatch by (done || apply (oi_ull _ _ _ I)). rewrite once_waited_ok by done.
    do 2 eexists. split; [done|].
    assert (set_ulk (ulk s) s = s) as -> by (clear; by destruct s).
    apply still_moves; unfold in_kernel, calls_of, busy; rewrite ?Hpc; simpl; try done; by apply may_return_not.
Qed.

Lemma once_cleanup_moves u u' v p :
  ulk s = Some u -> (t_pc l = Sleeping v \/ t_pc l = Interrupted v) -> ~ i ∈ ull_waitq u ->
  p = OnceWait \/ p = Ulocking v ->
  left_behind UL_UNFAIR_LOCK u u' ->
  omoves i s ls l (set_ulk u' s) (go (set_ulk u' s) l (Goto p)).
Proof.
  intros Hu Hpc Hi Hp (Hn & Hok & Hq & Ho & _ & _).
  pose proof (oi_nodup _ _ _ I) as Hnd. rewrite Hu in Hnd. simpl in Hnd.
  pose proof (oi_pc _ _ _ I i l Hl) as Hpl.
  assert (wait_ok i (dgo_once s) v) as Hw by (by destruct Hpc as [Hpc|Hpc]; rewrite Hpc in Hpl).
  destruct (wait_words v Hw) as (Hnz & _).
  assert (in_kernel l = 1%nat) as Hk by (unfold in_kernel; by destruct Hpc as [-> | ->]).
  assert (is_init (t_pc l) = false) as Hil by (by destruct Hpc as [-> | ->]).
  split; simpl; rewrite ?Hq, ?Hu, ?Hn; simpl; auto; try done; try (by apply may_return_not).
  - apply ws_same.
  - rewrite <- (oi_init _ _ _ I i l Hl), Hil. by destruct Hp as [-> | ->].
  - apply (oi_counts _ _ _ I).
  - by destruct Hp as [-> | ->].
  - unfold calls_of, busy; simpl. by destruct Hp as [-> | ->], Hpc as [-> | ->].
  - unfold in_kernel in *; simpl. destruct Hp as [-> | ->]; lia.
  - intros Hne. left. split_and!; [auto..|]. intros _ [[? _]|[cur Hc]]; [congruence|].
    by destruct Hpc as [Hpc|Hpc]; rewrite Hpc in Hc.
Qed.

Lemma once_sleep_moves v r :
  t_pc l = Sleeping v -> r ∈ once_sleep i v s ->
  exists s' c, r = Ok (s', c) /\ omoves i s ls l s' (go s' l c).
Proof.
  intros Hpc. pose proof (oi_pc _ _ _ I i l Hl) as Hp. rewrite Hpc in Hp. simpl in Hp.
  assert (in_kernel l = 1%nat) as Hk by (unfold in_kernel; by rewrite Hpc).
  assert (0 < nwaiters (ulk s)) as Hn.
  { rewrite (oi_nw _ _ _ I). pose proof (isum_lookup (fun _ => in_kernel) _ _ _ Hl). lia. }
  pose proof once_waiters_self as Hb. pose proof (oi_ull _ _ _ I) as Hok. pose proof (oi_nodup _ _ _ I) as Hnd.
  unfold once_sleep. destruct (ulk s) as [u|] eqn:Hu; [|simpl in Hn; lia].
  case_bool_decide as Hi.
  - destruct (intr s) as [|n]; [by intros ?%elem_of_nil|]. intros ->%list_elem_of_singleton.
    do 2 eexists. split; [done|]. simpl in Hnd.
    split; simpl; rewrite ?Hu, ?Hpc; simpl; auto; try done; try (by apply may_return_not).
    + apply ws_same.
    + rewrite <- (oi_init _ _ _ I i l Hl). by rewrite Hpc.
    + apply (oi_counts _ _ _ I).
    + unfold calls_of, busy. by rewrite Hpc.
    + rewrite Hk. unfold in_kernel. simpl. lia.
    + by apply leave_NoDup.
    + intros j. rewrite elem_leave. tauto.
    + rewrite elem_leave. tauto.
    + intros _. left. split_and!; [done| |].
      * intros H0. by rewrite H0, elem_of_nil in Hi.
      * intros _ [[? _]|[cur ?]]; done.
  - intros ->%list_elem_of_singleton. destruct (cleanup_ok _ u Hok (Hb Hk Hi)) as (u' & Hcl & Hlb).
    unfold once_continue, ulock_wait_continue. rewrite Hu, Hcl. simpl.
    rewrite once_waited_ok by apply Hlb. do 2 eexists. split; [done|]. eapply once_cleanup_moves; eauto.
Qed.

Lemma once_intr_moves v :
  t_pc l = Interrupted v ->
  exists s' c, once_continue EINTR v s = Ok (s', c) /\ omoves i s ls l s' (go s' l c).
Proof.
  intros Hpc. assert (in_kernel l = 1%nat) as Hk by (unfold in_kernel; by rewrite Hpc).
  assert (~ i ∈ wq (ulk s)) as Hi by (apply onot_queued; by rewrite Hpc).
  pose proof (once_waiters_self Hk Hi) as Hb. pose proof (oi_ull _ _ _ I) as Hok.
  destruct (ulk s) as [u|] eqn:Hu; [|simpl in Hb; lia]. simpl in Hi.
  destruct (cleanup_ok _ u Hok Hb) as (u' & Hcl & Hlb).
  unfold once_continue, ulock_wait_continue. rewrite Hu, Hcl. simpl.
  do 2 eexists. split; [done|]. eapply once_cleanup_moves; eauto.
Qed.

(** The thread that ran the initialiser has woken the sleepers, or has none
    to wake. *)
Lemma woke_moves cur u' :
  t_pc l = BroadcastSlow cur -> nwaiters u' = nwaiters (ulk s) -> ull_ok UL_UNFAIR_LOCK u' ->
  wq u' = [] \/ (u' = ulk s /\ owner (ulk s) <> Some i) ->
  omoves i s ls l (set_ulk u' s) (go (set_ulk u' s) l Return).
Proof.
  intros Hpc Hn Hok Hcase. pose proof (oi_pc _ _ _ I i l Hl) as Hp. rewrite Hpc in Hp. destruct Hp as [Hd _].
  assert (~ i ∈ wq (ulk s)) as Hi by (apply onot_queued; by rewrite Hpc).
  assert (forall j, j ∈ wq u' -> j ∈ wq (ulk s)) as Hsub.
  { intros j. destruct Hcase as [-> | [-> _]]; [by intros ?%elem_of_nil|done]. }
  split; simpl; auto; try done; try (by apply may_return_not).
  - apply ws_same.
  - rewrite <- (oi_init _ _ _ I i l Hl). by rewrite Hpc.
  - apply (oi_counts _ _ _ I).
  - by apply may_return_now.
  - unfold calls_of, busy; simpl. rewrite Hpc, length_app. simpl. lia.
  - unfold in_kernel. rewrite Hpc. simpl. lia.
  - destruct Hcase as [-> | [-> _]]; [constructor|apply (oi_nodup _ _ _ I)].
  - intros Hq. left. destruct Hcase as [?|[-> Hno]]; [done|]. split_and!; done.
Qed.

Lemma broadcast_slow_moves cur r :
  t_pc l = BroadcastSlow cur -> r ∈ gate_broadcast_slow tids i cur s ->
  exists s' c, r = Ok (s', c) /\ omoves i s ls l s' (go s' l c).
Proof.
  intros Hpc. pose proof (oi_pc _ _ _ I i l Hl) as Hp. rewrite Hpc in Hp. destruct Hp as [_ (b & Hb & Hcur)].
  pose proof (okey_range i l Hl) as Hkey. pose proof (othread_lt i l Hl) as Hlt.
  unfold gate_broadcast_slow. destruct (tid_wd tids Htids i Hlt) as [-> _].
  rewrite Hcur, is_locked_by_wd, Z.eqb_refl by lia. simpl.
  rewrite list_elem_of_fmap. intros ([u' rc] & -> & Hin). revert Hin.
  pose proof (oi_ull _ _ _ I) as Hok.
  unfold ulock_wake. destruct (ulk s) as [u|] eqn:Hu.
  2: { intros [= -> ->]%list_elem_of_singleton. do 2 eexists. split; [done|].
       eapply woke_moves; eauto; by rewrite Hu. }
  destruct Hok as [Hpos Hop]. rewrite Hop, !bool_decide_true by done. simpl.
  case_bool_decide as Ho; simpl; intros [= -> ->]%list_elem_of_singleton; do 2 eexists; (split; [done|]);
    eapply woke_moves; rewrite ?Hu; simpl; eauto.
Qed.

(** *** Every step *)

Lemma next_omoves r :
  r ∈ next tids i s l -> exists s' l', r = Ok (s', l') /\ omoves i s ls l s' l'.
Proof.
  unfold next. destruct (decide (t_pc l = Idle)) as [Hpc|Hpc].
  - rewrite Hpc. destruct (todo l) as [|n] eqn:Htodo; [by intros ?%elem_of_nil|].
    intros ->%list_elem_of_singleton. destruct (once_fast s) as [s' c] eqn:He.
    do 2 eexists. split; [done|]. by apply fast_moves.
  - intros Hr. assert (r ∈ continue l <$> pc_next tids i s (t_pc l)) as Hr' by (by destruct (t_pc l)).
    apply list_elem_of_fmap in Hr' as (r0 & -> & Hr0).
    enough (exists s' c, r0 = Ok (s', c) /\ omoves i s ls l s' (go s' l c)) as (s' & c & -> & Hm)
      by (do 2 eexists; by split).
    destruct (t_pc l) eqn:Hp; simpl in Hr0; [done|..];
      try apply list_elem_of_singleton in Hr0 as ->.
    + destruct (once_gate_tryenter tids i s) as [s' c] eqn:He. do 2 eexists. split; [done|]. by apply tryenter_moves.
    + do 2 eexists. split; [done|]. apply callout_moves. by left.
    + do 2 eexists. split; [done|]. apply callout_moves. by right.
    + destruct (once_gate_broadcast tids i s) as [s' c] eqn:He. do 2 eexists. split; [done|]. by apply broadcast_moves.
    + by eapply broadcast_slow_moves.
    + by apply once_wait_moves.
    + by apply once_ulock_moves.
    + by eapply once_sleep_moves.
    + by apply once_intr_moves.
Qed.

End ostep.

Definition OInvC (calls : list nat) (c : conf shared thread) : Prop := OInv calls (c_sh c) (c_thr c).

Lemma oinv_step calls c c' : OInvC calls c -> step (next tids) c c' -> OInvC calls c'.
Proof.
  intros I Hs. destruct Hs as [i s ls l s' l' Hl Hn]. unfold OInvC in *. simpl in *.
  destruct (next_omoves calls i s ls l I Hl _ Hn) as (? & ? & [= <- <-] & Hm).
  by eapply omoves_inv.
Qed.

Lemma oinv_no_crash calls c : OInvC calls c -> ~ may_crash (next tids) c.
Proof.
  intros I (i & l & w & Hl & Hn).
  by destruct (next_omoves calls i _ _ l I Hl _ Hn) as (? & ? & ? & _).
Qed.

Lemma oinv_start n calls : length calls = length tids -> OInvC calls (start n calls).
Proof.
  intros Hlen. unfold OInvC, start; simpl.
  assert (forall i l, ((fun k => {| t_pc := Idle; todo := k; log := [] |}) <$> calls) !! i = Some l ->
    t_pc l = Idle /\ log l = [] /\ calls !! i = Some (todo l) /\ (i < length tids)%nat) as Hidle.
  { intros i l. rewrite list_lookup_fmap. destruct (calls !! i) eqn:Hp; simpl; [|done].
    intros [= <-]. split_and!; [done..|]. rewrite <- Hlen. by eapply lookup_lt_Some. }
  split; simpl; try done; try (by apply may_return_not).
  - by rewrite length_fmap.
  - by left.
  - intros i l (-> & _ & _ & Hi)%Hidle. destruct (tid_wd tids Htids i Hi) as [_ Hk].
    split; [done|]. change (DLOCK_ONCE_UNLOCKED / 4) with 0. lia.
  - by intros i l (-> & _)%Hidle.
  - by intros i l (_ & -> & _)%Hidle.
  - by intros i l (_ & -> & _)%Hidle.
  - intros i l (Hpc & Hlog & Hc & _)%Hidle. unfold calls_of, busy. by rewrite Hpc, Hlog.
  - rewrite isum_fmap. by rewrite (proj2 (isum_zero _ _)).
  - constructor.
  - by intros i ?%elem_of_nil.
Qed.

End once_inv.
