(* ===== verification/OnceThms.v ===== *)
(** * What [dispatch_once] guarantees

    The initialiser runs exactly once, every call returns, and none returns
    before the initialiser has completed. *)

From S2P Require Import Conc Ulock Lock Once OnceInv Prelude.
Import LockWord Ulock Lock Once.

(** ** The measure of a run *)

Definition once_weight (l : thread) : nat :=
  6 * todo l +
  match t_pc l with
  | Idle => 0
  | TryEnter => 5
  | Callout | OnceWait | Ulocking _ | Sleeping _ | Interrupted _ => 4
  | Running => 3
  | Broadcast => 2
  | BroadcastSlow _ => 1
  end.

Definition once_unmarked (w : Z) : nat := if Z.odd w then 0 else 1.

Definition once_rank (i : nat) (w : Z) (q : list nat) (l : thread) : nat :=
  match t_pc l with
  | OnceWait => 3
  | Ulocking v => if u32 w =? u32 v then 2 else 4
  | Sleeping _ => if decide (i ∈ q) then 1 else 4
  | Interrupted _ => 5
  | _ => 0
  end.

Definition once_measure (c : conf shared thread) : nat :=
  let s := c_sh c in
  (2 * (tsum once_weight (c_thr c) + intr s) + once_unmarked (dgo_once s)) * (5 * length (c_thr c) + 1)
  + isum (fun i => once_rank i (dgo_once s) (wq (ulk s))) (c_thr c).

Lemma once_rank_bound i w q l : (once_rank i w q l <= 5)%nat.
Proof. unfold once_rank. destruct (t_pc l); repeat case_match; lia. Qed.

(** The effect of a step on the measure. *)
Definition once_descends (i : nat) (s : shared) (l : thread) (s' : shared) (l' : thread) : Prop :=
  (once_weight l' + intr s' < once_weight l + intr s)%nat \/
  (once_weight l' + intr s' = once_weight l + intr s)%nat /\
  ((once_unmarked (dgo_once s') < once_unmarked (dgo_once s))%nat \/
   dgo_once s' = dgo_once s /\ (forall j, j <> i -> j ∈ wq (ulk s') <-> j ∈ wq (ulk s)) /\
   (once_rank i (dgo_once s) (wq (ulk s')) l' < once_rank i (dgo_once s) (wq (ulk s)) l)%nat).

Section once_descends.
  Context (tids : list Z) (Htids : tids_ok tids) (calls : list nat).
  Context (i : nat) (s : shared) (ls : list thread) (l : thread).
  Context (I : OInv tids calls s ls) (Hl : ls !! i = Some l).

Lemma once_wait_descends s' c :
  t_pc l = OnceWait -> once_wait tids i s = Ok (s', c) -> once_descends i s l s' (go s' l c).
Proof.
  intros Hpc. pose proof (oi_pc _ _ _ _ I i l Hl) as Hnz. rewrite Hpc in Hnz. simpl in Hnz.
  unfold once_wait. rewrite rmw_once_wait.
  destruct (Z.eqb_spec (dgo_once s) DLOCK_ONCE_DONE) as [Hd|Hd].
  { intros [= <- <-]. left. unfold once_weight. rewrite Hpc. simpl. lia. }
  destruct (oi_word _ _ _ _ I) as [?|[?|(h & b & Hh & Hb & Hw)]]; [done..|].
  case_match; intros [= <- <-]. right. unfold once_weight. rewrite Hpc. simpl. split; [done|].
  rewrite Hw, wd_lor by lia. assert (b = 0 \/ b = 1) as [->| ->] by lia; simpl Z.lor.
  - left. unfold once_unmarked. rewrite !wd_odd. simpl. lia.
  - right. unfold once_rank. rewrite Hpc. simpl. rewrite Z.eqb_refl. split_and!; [done..|lia].
Qed.

(** A step of the slow path that leaves the predicate alone. *)
Lemma once_move_descends s' l' :
  once_weight l' = once_weight l -> intr s' = intr s -> dgo_once s' = dgo_once s ->
  (forall j, j <> i -> j ∈ wq (ulk s') <-> j ∈ wq (ulk s)) ->
  (once_rank i (dgo_once s) (wq (ulk s')) l' < once_rank i (dgo_once s) (wq (ulk s)) l)%nat ->
  once_descends i s l s' l'.
Proof. intros Hwt Hi Hw Hq Hr. right. rewrite Hwt, Hi. auto. Qed.

Lemma once_ulock_descends v s' c :
  t_pc l = Ulocking v -> once_ulock tids i v s = Ok (s', c) -> once_descends i s l s' (go s' l c).
Proof.
  intros Hpc. pose proof (oi_pc _ _ _ _ I i l Hl) as Hp. rewrite Hpc in Hp. simpl in Hp.
  destruct (wait_words tids Htids i s v Hp) as (Hnz & Hu & Heq & h & Hh & Hne & Hv).
  unfold once_ulock. destruct (decide (u32 (dgo_once s) = u32 v)) as [Hm|Hm].
  - rewrite Hm, Hu, Hv.
    destruct (ulock_wait_match tids Htids i h 1 (ulk s)) as (u & -> & _ & _ & _ & Hq);
      [apply (oi_ull _ _ _ _ I)|done..|].
    intros [= <- <-]. apply once_move_descends; try done; unfold once_weight, once_rank; rewrite ?Hpc; simpl; try done.
    + intros j Hj. rewrite Hq, elem_of_app, list_elem_of_singleton. tauto.
    + rewrite Hm, Z.eqb_refl, decide_True by (rewrite Hq, elem_of_app, list_elem_of_singleton; auto). lia.
  - rewrite ulock_wait_mismatch by (done || apply (oi_ull _ _ _ _ I)).
    rewrite once_waited_ok by (rewrite (oi_nw _ _ _ _ I); lia). intros [= <- <-].
    apply once_move_descends; try done; unfold once_weight, once_rank; rewrite ?Hpc; simpl; try done.
    rewrite (proj2 (Z.eqb_neq _ _)) by done. lia.
Qed.

Lemma once_sleep_descends v s' c :
  t_pc l = Sleeping v -> Ok (s', c) ∈ once_sleep i v s -> once_descends i s l s' (go s' l c).
Proof.
  intros Hpc. assert (in_kernel l = 1%nat) as Hk by (unfold in_kernel; by rewrite Hpc).
  pose proof (once_waiters_self tids calls i s ls l I Hl Hk) as Hb. pose proof (oi_ull _ _ _ _ I) as Hok.
  unfold once_sleep. destruct (ulk s) as [u|] eqn:Hu; [|by intros ?%list_elem_of_singleton].
  case_bool_decide as Hi.
  - destruct (intr s) as [|n] eqn:Hn; [by intros ?%elem_of_nil|]. intros [= -> ->]%list_elem_of_singleton.
    left. unfold once_weight. rewrite Hpc, Hn. simpl. lia.
  - destruct (cleanup_ok _ u Hok (Hb Hi)) as (u' & Hcl & _ & _ & Hq & _ & Hpos & _).
    intros Hr%list_elem_of_singleton. revert Hr.
    unfold once_continue, ulock_wait_continue. rewrite Hu, Hcl. simpl. rewrite once_waited_ok by done.
    intros [= -> ->]. apply once_move_descends; try done; unfold once_weight, once_rank; rewrite ?Hpc; simpl; try done.
    + intros j _. by rewrite Hq, Hu.
    + rewrite decide_False by (by rewrite Hu). lia.
Qed.

Lemma once_intr_descends v s' c :
  t_pc l = Interrupted v -> once_continue EINTR v s = Ok (s', c) -> once_descends i s l s' (go s' l c).
Proof.
  intros Hpc. assert (in_kernel l = 1%nat) as Hk by (unfold in_kernel; by rewrite Hpc).
  assert (~ i ∈ wq (ulk s)) as Hi by (eapply onot_queued; eauto; by rewrite Hpc).
  pose proof (once_waiters_self tids calls i s ls l I Hl Hk Hi) as Hb. pose proof (oi_ull _ _ _ _ I) as Hok.
  unfold once_continue, ulock_wait_continue. destruct (ulk s) as [u|] eqn:Hu; [|done].
  destruct (cleanup_ok _ u Hok Hb) as (u' & Hcl & _ & _ & Hq & _).
  rewrite Hcl. simpl. intros [= <- <-].
  apply once_move_descends; try done; unfold once_weight, once_rank; rewrite ?Hpc; simpl; try done.
  - intros j _. by rewrite Hq, Hu.
  - case_match; lia.
Qed.

Lemma broadcast_slow_descends cur s' c :
  t_pc l = BroadcastSlow cur -> Ok (s', c) ∈ gate_broadcast_slow tids i cur s ->
  once_descends i s l s' (go s' l c).
Proof.
  intros Hpc. unfold gate_broadcast_slow. case_match; [by intros ?%list_elem_of_singleton|].
  rewrite list_elem_of_fmap. intros ([u rc] & He & _). revert He.
  destruct (dlock_wake_ret rc); simpl; [|done]. intros [= -> ->].
  left. unfold once_weight. rewrite Hpc. simpl. lia.
Qed.

Lemma once_next_descends s' l' : Ok (s', l') ∈ next tids i s l -> once_descends i s l s' l'.
Proof.
  unfold next. destruct (decide (t_pc l = Idle)) as [Hpc|Hpc].
  - rewrite Hpc. destruct (todo l) as [|n] eqn:Htodo; [by intros ?%elem_of_nil|].
    intros Hr%list_elem_of_singleton. revert Hr. unfold once_fast.
    case_match; simpl; intros [= -> ->]; left; unfold once_weight; rewrite Hpc, Htodo; simpl; lia.
  - intros Hr. assert (Ok (s', l') ∈ continue l <$> pc_next tids i s (t_pc l)) as Hr' by (by destruct (t_pc l)).
    apply list_elem_of_fmap in Hr' as ([[s0 c]|] & He & Hr0); [|done]. injection He as -> ->.
    destruct (t_pc l) eqn:Hp; simpl in Hr0; [done|..];
      try (apply list_elem_of_singleton in Hr0).
    + revert Hr0. unfold once_gate_tryenter. case_match; intros [= -> ->]; left; unfold once_weight; rewrite Hp; simpl; lia.
    + injection Hr0 as -> ->. left. unfold once_weight. rewrite Hp. simpl. lia.
    + injection Hr0 as -> ->. left. unfold once_weight. rewrite Hp. simpl. lia.
    + revert Hr0. unfold once_gate_broadcast. case_match; intros [= -> ->]; left; unfold once_weight; rewrite Hp; simpl; lia.
    + by eapply broadcast_slow_descends.
    + by apply once_wait_descends.
    + by eapply once_ulock_descends.
    + by eapply once_sleep_descends.
    + by eapply once_intr_descends.
Qed.

End once_descends.

Section once_runs.
  Context (tids : list Z) (Htids : tids_ok tids) (calls : list nat).

Lemma once_measure_step c c' :
  OInvC tids calls c -> step (next tids) c c' -> (once_measure c' < once_measure c)%nat.
Proof.
  intros I Hs. destruct Hs as [i s ls l s' l' Hl Hn]. unfold OInvC in I. simpl in I.
  pose proof (once_next_descends tids Htids calls i s ls l I Hl s' l' Hn) as Hd.
  unfold once_measure; simpl. rewrite length_insert.
  pose proof (isum_insert (fun _ => once_weight) ls i l l' Hl) as Hw.
  assert (isum (fun i => once_rank i (dgo_once s') (wq (ulk s'))) (<[i:=l']> ls) <= 5 * length ls)%nat as Hb.
  { rewrite <- (length_insert ls i l'). apply isum_bound. intros; apply once_rank_bound. }
  assert (once_unmarked (dgo_once s') <= 1)%nat by (unfold once_unmarked; case_match; lia).
  destruct Hd as [Hd|(Hd & [Hm|(Hword & Hq & Hr)])]; [nia..|].
  pose proof (isum_update (fun i => once_rank i (dgo_once s) (wq (ulk s)))
    (fun i => once_rank i (dgo_once s') (wq (ulk s'))) ls i l l' Hl) as Hrank.
  specialize (Hrank ltac:(intros j x Hj Hx; unfold once_rank; rewrite Hword;
    destruct (t_pc x); try done; by rewrite (decide_ext _ _ _ _ (Hq j Hj)))).
  rewrite Hword in *.
  assert (tsum once_weight (<[i:=l']> ls) + intr s' = tsum once_weight ls + intr s)%nat as Heq by lia.
  rewrite Heq. lia.
Qed.

Lemma once_next_nil i s l :
  next tids i s l = [] ->
  (t_pc l = Idle /\ todo l = 0%nat) \/ ((exists v, t_pc l = Sleeping v) /\ i ∈ wq (ulk s)).
Proof.
  unfold next. intros Hn. destruct (t_pc l) eqn:Hpc; simpl in Hn; try done.
  - left. by destruct (todo l).
  - unfold gate_broadcast_slow in Hn. repeat case_match; try done.
    pose proof (wake_nonempty UL_UNFAIR_LOCK true i (ulk s)). by destruct (ulock_wake _ _ _ _).
  - right. split; [eauto|]. unfold once_sleep in Hn. destruct (ulk s) as [u|]; [|done].
    simpl. by case_bool_decide.
Qed.

Lemma once_stuck s ls :
  OInv tids calls s ls -> nf (step (next tids)) (Conf s ls) ->
  forall i l, ls !! i = Some l -> t_pc l = Idle /\ todo l = 0%nat.
Proof.
  intros I Hnf.
  assert (forall i l, ls !! i = Some l -> (t_pc l = Idle /\ todo l = 0%nat) \/
    ((exists v, t_pc l = Sleeping v) /\ i ∈ wq (ulk s))) as Hst.
  { intros i l Hl. apply once_next_nil. destruct (next tids i s l) as [|r rs] eqn:Hn; [done|].
    destruct (next_omoves tids Htids calls i s ls l I Hl r) as (s' & l' & -> & _); [rewrite Hn; by left|].
    exfalso. eapply nf_next; [done..|]. rewrite Hn. by left. }
  intros i l Hl. destruct (Hst i l Hl) as [?|[_ Hin]]; [done|exfalso].
  destruct (oi_wakes _ _ _ _ I) as (o & lo & _ & Hlo & Ht).
  { intros H0. by rewrite H0, elem_of_nil in Hin. }
  destruct (Hst o lo Hlo) as [[Hpc _]|[(v & Hpc) _]]; rewrite Hpc in Ht;
    destruct Ht as [[? _]|[? ?]]; done.
Qed.

End once_runs.

(** ** The guarantees *)

(** [C10] However the calls of [dispatch_once] on one predicate interleave, the
    process does not crash, the initialiser is called at most once, and each
    call that has returned saw the final value of the predicate and the
    initialiser completed, as the inlined fast path lets the compiler
    assume.  The initialiser itself does not call [dispatch_once] on the same
    predicate. *)
Theorem once_exactly_once tids n calls c :
  tids_ok tids -> length calls = length tids ->
  rtc (step (next tids)) (start n calls) c ->
  ~ may_crash (next tids) c /\
  (finished (c_sh c) <= started (c_sh c) <= 1)%nat /\
  forall i l, c_thr c !! i = Some l -> Forall good_event (log l).
Proof.
  intros Htids Hlen Hr.
  assert (OInvC tids calls c) as I.
  { eapply inv_rtc; [by apply oinv_step|exact Hr|]. by apply oinv_start. }
  split; [by eapply oinv_no_crash|]. unfold OInvC in I. destruct c as [s ls]; simpl in *.
  split; [|apply (oi_log _ _ _ _ I)].
  destruct (oi_word _ _ _ _ I) as [H0|[H0|(h & b & Hh & Hb & Hw)]].
  - destruct (proj1 (oi_counts _ _ _ _ I) H0). lia.
  - destruct (proj2 (oi_counts _ _ _ _ I) H0). lia.
  - rewrite <- (oi_len _ _ _ _ I) in Hh. destruct (lookup_lt_is_Some_2 ls h Hh) as [lh Hlh].
    pose proof (oi_pc _ _ _ _ I h lh Hlh) as Hp.
    assert (is_init (t_pc lh) = true) as Hi by (apply (oi_init _ _ _ _ I h lh Hlh); by rewrite Hw, wd_div by lia).
    destruct (t_pc lh); try done; simpl in Hp; lia.
Qed.

(** [C11] No run goes on for ever, and a run that cannot go on has returned from
    every call; when there was one, the initialiser has run exactly once. *)
Theorem once_live tids n calls :
  tids_ok tids -> length calls = length tids ->
  sn (step (next tids)) (start n calls) /\
  forall c, rtc (step (next tids)) (start n calls) c -> nf (step (next tids)) c ->
    (length <$> (log <$> c_thr c)) = calls /\
    ((exists k, k ∈ calls /\ (0 < k)%nat) -> started (c_sh c) = 1%nat /\ finished (c_sh c) = 1%nat).
Proof.
  intros Htids Hlen. split.
  - apply (sn_measure (next tids) (OInvC tids calls) once_measure); [|by apply oinv_start].
    intros c1 c2 I Hs. split; [by eapply oinv_step|]. by eapply once_measure_step.
  - intros c Hr Hnf.
    assert (OInvC tids calls c) as I.
    { eapply inv_rtc; [by apply oinv_step|exact Hr|]. by apply oinv_start. }
    destruct c as [s ls]. pose proof (once_stuck tids Htids calls s ls I Hnf) as Hst. unfold OInvC in I. simpl in *.
    assert (forall i l, ls !! i = Some l -> calls !! i = Some (length (log l))) as Hcalls.
    { intros i l Hl. rewrite (oi_calls _ _ _ _ I i l Hl). destruct (Hst i l Hl) as [Hpc Ht].
      unfold calls_of, busy. rewrite Hpc, Ht. f_equal. lia. }
    split.
    + apply list_eq. intros i. rewrite !list_lookup_fmap. destruct (ls !! i) as [l|] eqn:Hl; simpl.
      * by rewrite (Hcalls i l Hl).
      * symmetry. apply lookup_ge_None. apply lookup_ge_None in Hl. by rewrite Hlen, <- (oi_len _ _ _ _ I).
    + intros (k & Hk & Hpos). apply list_elem_of_lookup in Hk as [i Hi].
      assert (i < length ls)%nat as Hlt.
      { rewrite (oi_len _ _ _ _ I), <- Hlen. by eapply lookup_lt_Some. }
      destruct (lookup_lt_is_Some_2 ls i Hlt) as [l Hl]. pose proof (Hcalls i l Hl) as Hc.
      destruct (log l) as [|e es] eqn:Hlog; [simplify_eq/=; lia|].
      apply (oi_counts _ _ _ _ I), (oi_returned _ _ _ _ I i l Hl). by rewrite Hlog.
Qed.

(** A thread that calls [dispatch_once] on the predicate whose initialiser it
    is running does not deadlock: it is stopped when it tries to wait for
    itself. *)
Theorem once_recursive_crash tids i s b :
  tids_ok tids -> (i < length tids)%nat -> 0 <= b < 2 ->
  dgo_once s = wd (key tids i) b ->
  once_fast s = (s, Goto TryEnter) /\
  once_gate_tryenter tids i s = (s, Goto OnceWait) /\
  once_wait tids i s = Crash AssertFail.
Proof.
  intros Htids Hi Hb Hw. destruct (tid_wd tids Htids i Hi) as [_ Hk].
  assert (dgo_once s <> DLOCK_ONCE_DONE) as Hd.
  { rewrite Hw. unfold wd, DLOCK_ONCE_DONE. lia. }
  split_and!.
  - unfold once_fast. by rewrite (proj2 (Z.eqb_neq _ _)) by done.
  - unfold once_gate_tryenter, DLOCK_ONCE_UNLOCKED.
    by rewrite (proj2 (Z.eqb_neq _ _)) by (rewrite Hw; unfold wd; lia).
  - unfold once_wait. rewrite rmw_once_wait, (proj2 (Z.eqb_neq _ _)) by done.
    rewrite Hw, u32_small, value_for_self_wd by (done || apply wd_range; lia).
    by rewrite is_locked_by_wd, Z.eqb_refl by lia.
Qed.

(** *** A run with three callers *)

Definition once_tids : list Z := [0x103; 0x207; 0x30b].
Definition once_calls : list nat := [1; 2; 1]%nat.

(** The second caller finds the first in the initialiser and sleeps; the
    third marks nothing more and sleeps as well; both are woken. *)
Definition once_sched : list (nat * nat) :=
  [(0, 0); (0, 0); (1, 0); (1, 0); (1, 0); (1, 0); (0, 0); (2, 0); (2, 0); (2, 0); (2, 0);
   (0, 0); (0, 0); (0, 0); (1, 0); (2, 0); (2, 0); (1, 0); (1, 0)]%nat.

Definition once_end : conf shared thread :=
  default (start 0 once_calls) (exec (next once_tids) once_sched (start 0 once_calls)).

Example once_run :
  (fun c => (log <$> c_thr c, c_sh c)) <$> exec (next once_tids) once_sched (start 0 once_calls)
  = Some ((fun k => replicate k {| at_return := DLOCK_ONCE_DONE; completed := 1 |}) <$> once_calls,
          {| dgo_once := DLOCK_ONCE_DONE; ulk := None; intr := 0; started := 1; finished := 1 |}).
Proof. vm_compute. reflexivity. Qed.

Lemma once_exactly_once_witness :
  ~ may_crash (next once_tids) once_end /\ (finished (c_sh once_end) <= started (c_sh once_end) <= 1)%nat.
Proof.
  destruct (once_exactly_once once_tids 0 once_calls once_end) as (H1 & H2 & _).
  - apply (bool_decide_unpack _). vm_compute. exact I.
  - reflexivity.
  - apply (exec_rtc (next once_tids) once_sched). vm_compute. reflexivity.
  - exact (conj H1 H2).
Defined.

Lemma once_live_witness : sn (step (next once_tids)) (start 4 once_calls).
Proof.
  apply (once_live once_tids 4 once_calls).
  - apply (bool_decide_unpack _). vm_compute. exact I.
  - reflexivity.
Defined.

Lemma once_recursive_crash_witness :
  once_wait once_tids 1 {| dgo_once := 0x204; ulk := None; intr := 0; started := 1; finished := 0 |}
  = Crash AssertFail.
Proof.
  apply (once_recursive_crash once_tids 1 _ 0).
  - apply (bool_decide_unpack _). vm_compute. exact I.
  - vm_compute. repeat constructor.
  - lia.
  - reflexivity.
Defined.
