(* ===== verification/Group.v ===== *)
(** * Groups

    [dispatch_group_t] of libdispatch (src/semaphore.c and
    src/semaphore_internal.h).  One 64-bit word holds a generation (bits 32
    to 63), a counter that goes down as the group is entered (bits 2 to 31)
    and two flags: there are notifications (bit 1), there are waiters
    (bit 0).  Waiters sleep in the kernel on the generation.

    A push on the list of notifications ([os_mpsc_push_update_tail] and the
    link of the node it returns) and its capture are one step each; the
    capture waits until the list is not empty.  A wait whose time-out exceeds
    what the kernel takes is split by the code and is one wait here. *)

From S2P Require Import Conc Ulock Lock Prelude.

Module Group.
Import Ulock.

Definition DISPATCH_GROUP_VALUE_MASK : Z := 0x00000000fffffffc.
Definition DISPATCH_GROUP_VALUE_INTERVAL : Z := 4.
Definition DISPATCH_GROUP_VALUE_1 : Z := DISPATCH_GROUP_VALUE_MASK.
Definition DISPATCH_GROUP_VALUE_MAX : Z := DISPATCH_GROUP_VALUE_INTERVAL.
Definition DISPATCH_GROUP_HAS_NOTIFS : Z := 2.
Definition DISPATCH_GROUP_HAS_WAITERS : Z := 1.
Definition DISPATCH_TIME_FOREVER : Z := 2 ^ 64 - 1.
(** [_DSEMA4_TIMEOUT()]. *)
Definition GROUP_TIMEOUT : Z := 49.

(** The number of times the group was entered, and the generation. *)
Definition dg_state_value (dg_state : Z) : Z :=
  Z.shiftr (u32 (- Z.land (u32 dg_state) DISPATCH_GROUP_VALUE_MASK)) 2.
Definition dg_state_gen (dg_state : Z) : Z := Z.shiftr dg_state 32.

(** A notification that has been submitted: which, and how often the group
    was entered at that time. *)
Record submission := { sub_id : nat; sub_value : Z }.

(** The shared state: the word, the list of notifications, the reference
    count, what has been submitted, the kernel's object for the address of
    the generation, and the interruptions to come. *)
Record shared := {
  dg_state : Z;
  dg_notify : list nat;
  do_ref_cnt : Z;
  submitted : list submission;
  ulk : option ull;
  intr : nat
}.

Definition set_state (v : Z) (s : shared) : shared :=
  {| dg_state := v; dg_notify := dg_notify s; do_ref_cnt := do_ref_cnt s;
     submitted := submitted s; ulk := ulk s; intr := intr s |}.
Definition set_ulk (u : option ull) (s : shared) : shared :=
  {| dg_state := dg_state s; dg_notify := dg_notify s; do_ref_cnt := do_ref_cnt s;
     submitted := submitted s; ulk := u; intr := intr s |}.
Definition add_refs (n : Z) (s : shared) : shared :=
  {| dg_state := dg_state s; dg_notify := dg_notify s; do_ref_cnt := do_ref_cnt s + n;
     submitted := submitted s; ulk := ulk s; intr := intr s |}.

(** [_dispatch_group_create_with_count]. *)
Definition dispatch_group_create_with_count (n : Z) (interrupts : nat) : shared :=
  {| dg_state := if n =? 0 then 0 else u32 (u32 (- n) * DISPATCH_GROUP_VALUE_INTERVAL);
     dg_notify := []; do_ref_cnt := if n =? 0 then 0 else 1;
     submitted := []; ulk := None; intr := interrupts |}.

(** [_dispatch_group_dispose]. *)
Definition dispatch_group_dispose (s : shared) : res unit :=
  if negb (u32 (dg_state s) =? 0) then Crash AssertFail else Ok tt.

Inductive call :=
  | Enter
  | Leave
  | Wait (timeout : Z)
  | Notify (id : nat).

Inductive pc :=
  | Idle
  | EnterRetain                            (* _dispatch_retain of dispatch_group_enter *)
  | LeaveCas (old_state : Z)               (* the loop of dispatch_group_leave *)
  | WakeNotify (st : Z) (needs_release : bool)  (* _dispatch_group_wake *)
  | WakeAddr (st : Z) (needs_release : bool)
  | WakeRelease (refs : Z)
  | NotifyRetain                           (* _dispatch_retain of _dispatch_group_notify *)
  | NotifyRmw
  | WaitRmw (timeout : Z)
  | WaitSlow (gen timeout : Z)             (* entry of _dispatch_wait_on_address *)
  | WaitSleep (gen timeout : Z)            (* asleep in the kernel, or woken *)
  | WaitLeft (gen timeout ret : Z)         (* interrupted or timed out, still in the kernel *)
  | WaitCheck (gen timeout : Z) (timed_out : bool).  (* the load of dg_gen *)

Record thread := { t_pc : pc; todo : list call; log : list Z }.

(** A call that has a result returns it; the others return nothing. *)
Inductive ctl :=
  | Goto (p : pc)
  | Return
  | ReturnVal (r : Z).

(** [dispatch_group_enter]: the decrement is 32 bits wide. *)
Definition dispatch_group_enter (s : shared) : res (shared * ctl) :=
  let old_bits := u32 (dg_state s) in
  let old_value := Z.land old_bits DISPATCH_GROUP_VALUE_MASK in
  let s := set_state (dg_state s - old_bits + u32 (old_bits - DISPATCH_GROUP_VALUE_INTERVAL)) s in
  if old_value =? DISPATCH_GROUP_VALUE_MAX then Crash AssertFail
  else if old_value =? 0 then Ok (s, Goto EnterRetain)
  else Ok (s, Return).

(** [dispatch_group_leave] up to its loop: the increment is 64 bits wide. *)
Definition dispatch_group_leave (s : shared) : res (shared * ctl) :=
  let old_state := dg_state s in
  let s := set_state (u64 (old_state + DISPATCH_GROUP_VALUE_INTERVAL)) s in
  let old_value := u32 (Z.land old_state DISPATCH_GROUP_VALUE_MASK) in
  if old_value =? DISPATCH_GROUP_VALUE_1
  then Ok (s, Goto (LeaveCas (u64 (old_state + DISPATCH_GROUP_VALUE_INTERVAL))))
  else if old_value =? 0 then Crash AssertFail
  else Ok (s, Return).

(** The new state in the loop of [dispatch_group_leave]. *)
Definition leave_new_state (old_state : Z) : Z :=
  if Z.land old_state DISPATCH_GROUP_VALUE_MASK =? 0
  then Z.land (Z.land old_state (Z.lnot DISPATCH_GROUP_HAS_WAITERS)) (Z.lnot DISPATCH_GROUP_HAS_NOTIFS)
  else Z.land old_state (Z.lnot DISPATCH_GROUP_HAS_NOTIFS).

(** One round of the loop. *)
Definition leave_cas (old_state : Z) (s : shared) : shared * ctl :=
  let new_state := leave_new_state old_state in
  if old_state =? new_state then (s, Goto (WakeNotify old_state true))
  else if dg_state s =? old_state then (set_state new_state s, Goto (WakeNotify old_state true))
  else (s, Goto (LeaveCas (dg_state s))).

Definition has_notifs (st : Z) : bool := negb (Z.land st DISPATCH_GROUP_HAS_NOTIFS =? 0).
Definition has_waiters (st : Z) : bool := negb (Z.land st DISPATCH_GROUP_HAS_WAITERS =? 0).

(** The first part of [_dispatch_group_wake]: submits the notifications. *)
Definition wake_notify (st : Z) (needs_release : bool) (s : shared) : list (res (shared * ctl)) :=
  if has_notifs st then
    match dg_notify s with
    | [] => []
    | ids =>
        let subs := (fun id => {| sub_id := id; sub_value := dg_state_value (dg_state s) |}) <$> ids in
        [Ok ({| dg_state := dg_state s; dg_notify := []; do_ref_cnt := do_ref_cnt s;
                submitted := submitted s ++ subs; ulk := ulk s; intr := intr s |},
             Goto (WakeAddr st needs_release))]
    end
  else [Ok (s, Goto (WakeAddr st needs_release))].

(** The second part: wakes the waiters; [refs] references are to be
    released. *)
Definition wake_addr (i : nat) (st : Z) (needs_release : bool) (s : shared) : list (res (shared * ctl)) :=
  let refs := (if needs_release then 1 else 0) + (if has_notifs st then 1 else 0) in
  if has_waiters st then
    (fun '(u, rc) => let! _ := dlock_wake_ret rc in Ok (set_ulk u s, Goto (WakeRelease refs)))
      <$> ulock_wake UL_COMPARE_AND_WAIT true i (ulk s)
  else [Ok (s, Goto (WakeRelease refs))].

(** The third part: [_dispatch_release_n]. *)
Definition wake_release (refs : Z) (s : shared) : shared * ctl :=
  (if negb (refs =? 0) then add_refs (- refs) s else s, Return).

(** [_dispatch_group_notify] up to the push. *)
Definition notify_push (id : nat) (s : shared) : shared * ctl :=
  let s' := {| dg_state := dg_state s; dg_notify := dg_notify s ++ [id]; do_ref_cnt := do_ref_cnt s;
               submitted := submitted s; ulk := ulk s; intr := intr s |} in
  match dg_notify s with
  | [] => (s', Goto NotifyRetain)
  | _ => (s', Return)
  end.

(** The body of the rmw loop of [_dispatch_group_notify]; [true] when it
    gives up to wake the group itself. *)
Definition notify_body (old_state : Z) : rmw_out (bool * Z) :=
  let new_state := Z.lor old_state DISPATCH_GROUP_HAS_NOTIFS in
  if u32 old_state =? 0 then GiveUp (true, new_state) else Swap new_state (false, new_state).

Definition notify_rmw (s : shared) : shared * ctl :=
  let '(mem, _, (gave_up, new_state)) := rmw_atomic notify_body (dg_state s) in
  let s := set_state mem s in
  if gave_up : bool then (s, Goto (WakeNotify new_state false)) else (s, Return).

(** The body of the rmw loop of [dispatch_group_wait]: a result to return or
    the new state. *)
Definition wait_body (timeout old_state : Z) : rmw_out (Z + Z) :=
  if Z.land old_state DISPATCH_GROUP_VALUE_MASK =? 0 then GiveUp (inl 0)
  else if timeout =? 0 then GiveUp (inl GROUP_TIMEOUT)
  else
    let new_state := Z.lor old_state DISPATCH_GROUP_HAS_WAITERS in
    if has_waiters old_state then GiveUp (inr new_state) else Swap new_state (inr new_state).

Definition wait_rmw (timeout : Z) (s : shared) : shared * ctl :=
  let '(mem, _, r) := rmw_atomic (wait_body timeout) (dg_state s) in
  let s := set_state mem s in
  match r with
  | inl rc => (s, ReturnVal rc)
  | inr new_state => (s, Goto (WaitSlow (dg_state_gen new_state) timeout))
  end.

(** The timeout argument of [_dlock_wait]: none, or some. *)
Definition ulock_timeout (timeout : Z) : Z := if timeout =? DISPATCH_TIME_FOREVER then 0 else 1.

(** [_dispatch_wait_on_address] returns to [_dispatch_group_wait_slow]. *)
Definition wait_returns (gen timeout rc : Z) (s : shared) : res (shared * ctl) :=
  match dlock_wait_ret (ulock_timeout timeout) rc with
  | WaitDone rc => Ok (s, Goto (WaitCheck gen timeout (rc =? ETIMEDOUT)))
  | WaitAgain => Ok (s, Goto (WaitSlow gen timeout))
  | WaitCrash => Crash AssertFail
  end.

(** [_dispatch_wait_on_address] enters the kernel, unless the time is up. *)
Definition wait_slow (tids : list Z) (i : nat) (gen timeout : Z) (s : shared) : list (res (shared * ctl)) :=
  (match ulock_wait tids UL_COMPARE_AND_WAIT i (dg_state_gen (dg_state s)) gen (ulk s) with
   | (u, Asleep) => Ok (set_ulk u s, Goto (WaitSleep gen timeout))
   | (u, Returned rc) => wait_returns gen timeout rc (set_ulk u s)
   end) ::
  (if timeout =? DISPATCH_TIME_FOREVER then []
   else [Ok (s, Goto (WaitCheck gen timeout true))]).

(** The thread comes back from the kernel. *)
Definition wait_continue (ret gen timeout : Z) (s : shared) : res (shared * ctl) :=
  match ulk s with
  | None => Crash AssertFail
  | Some u =>
      let '(u', rc) := ulock_wait_continue ret u in
      wait_returns gen timeout rc (set_ulk u' s)
  end.

(** A sleeping thread: in the queue it can be interrupted, or its time is
    up. *)
Definition wait_sleep (i : nat) (gen timeout : Z) (s : shared) : list (res (shared * ctl)) :=
  match ulk s with
  | None => [Crash AssertFail]
  | Some u =>
      if bool_decide (i ∈ ull_waitq u) then
        let u' := {| ull_owner := ull_owner u; ull_nwaiters := ull_nwaiters u;
                     ull_opcode := ull_opcode u; ull_waitq := leave i (ull_waitq u) |} in
        (if timeout =? DISPATCH_TIME_FOREVER then []
         else [Ok (set_ulk (Some u') s, Goto (WaitLeft gen timeout ETIMEDOUT))]) ++
        match intr s with
        | O => []
        | S n => [Ok ({| dg_state := dg_state s; dg_notify := dg_notify s; do_ref_cnt := do_ref_cnt s;
                         submitted := submitted s; ulk := Some u'; intr := n |},
                      Goto (WaitLeft gen timeout EINTR))]
        end
      else [wait_continue 0 gen timeout s]
  end.

(** The rest of the loop of [_dispatch_group_wait_slow]. *)
Definition wait_check (gen timeout : Z) (timed_out : bool) (s : shared) : ctl :=
  if negb (gen =? dg_state_gen (dg_state s)) then ReturnVal 0
  else if timed_out then ReturnVal GROUP_TIMEOUT
  else Goto (WaitSlow gen timeout).

Section group.
  Context (tids : list Z).

Definition pc_next (i : nat) (s : shared) (p : pc) : list (res (shared * ctl)) :=
  match p with
  | Idle => []
  | EnterRetain => [Ok (add_refs 1 s, Return)]
  | LeaveCas old_state => [Ok (leave_cas old_state s)]
  | WakeNotify st rel => wake_notify st rel s
  | WakeAddr st rel => wake_addr i st rel s
  | WakeRelease refs => [Ok (wake_release refs s)]
  | NotifyRetain => [Ok (add_refs 1 s, Goto NotifyRmw)]
  | NotifyRmw => [Ok (notify_rmw s)]
  | WaitRmw timeout => [Ok (wait_rmw timeout s)]
  | WaitSlow gen timeout => wait_slow tids i gen timeout s
  | WaitSleep gen timeout => wait_sleep i gen timeout s
  | WaitLeft gen timeout ret => [wait_continue ret gen timeout s]
  | WaitCheck gen timeout timed_out => [Ok (s, wait_check gen timeout timed_out s)]
  end.

Definition call_start (c : call) (s : shared) : res (shared * ctl) :=
  match c with
  | Enter => dispatch_group_enter s
  | Leave => dispatch_group_leave s
  | Wait timeout => Ok (s, Goto (WaitRmw timeout))
  | Notify id => Ok (notify_push id s)
  end.

Definition go (l : thread) (c : ctl) : thread :=
  match c with
  | Goto p => {| t_pc := p; todo := todo l; log := log l |}
  | Return => {| t_pc := Idle; todo := todo l; log := log l |}
  | ReturnVal r => {| t_pc := Idle; todo := todo l; log := log l ++ [r] |}
  end.

Definition continue (l : thread) (r : res (shared * ctl)) : res (shared * thread) :=
  let! (s, c) := r in Ok (s, go l c).

Definition next (i : nat) (s : shared) (l : thread) : list (res (shared * thread)) :=
  match t_pc l with
  | Idle =>
      match todo l with
      | [] => []
      | c :: cs => [continue {| t_pc := Idle; todo := cs; log := log l |} (call_start c s)]
      end
  | p => continue l <$> pc_next i s p
  end.

End group.

(** Threads that run the given programs on a group that was entered [k]
    times. *)
Definition start (k : Z) (n : nat) (progs : list (list call)) : conf shared thread :=
  Conf (dispatch_group_create_with_count k n)
       ((fun cs => {| t_pc := Idle; todo := cs; log := [] |}) <$> progs).

End Group.

(** ** The word of a group

    [gword g e b] is the word of generation [g], entered [e] times, with the
    flags [b]; what the arithmetic of src/semaphore.c does to it. *)

Import Group.

Definition gword (g e b : Z) : Z := 2 ^ 32 * g + (if e =? 0 then 0 else 2 ^ 32 - 4 * e) + b.

(** The generation fits, as do the counter and the flags. *)
Definition gword_ok (g e b : Z) : Prop := 0 <= g < 2 ^ 32 /\ 0 <= e < 2 ^ 30 /\ 0 <= b < 4.

Definition high (g e : Z) : Z := 2 ^ 30 * g + (if e =? 0 then 0 else 2 ^ 30 - e).

Lemma gword_wd g e b : gword g e b = wd (high g e) b.
Proof. unfold gword, wd, high. destruct (e =? 0); lia. Qed.

Lemma land_value_mask z : 0 <= z -> Z.land z DISPATCH_GROUP_VALUE_MASK = 4 * ((z / 4) mod 2 ^ 30).
Proof.
  intros Hz. change DISPATCH_GROUP_VALUE_MASK with ((2 ^ 30 - 1) * 2 ^ 2).
  rewrite land_field by lia. change (2 ^ 2) with 4. lia.
Qed.

Lemma wd_clear a b c : 0 <= b < 4 -> 0 <= c < 4 -> Z.land (wd a b) (Z.lnot c) = wd a (Z.land b (Z.lnot c)).
Proof.
  intros Hb Hc.
  assert (forall x, Z.land x (Z.lnot c) = Z.lxor x (Z.land x c)) as Hx.
  { intros x. apply Z.bits_inj'. intros n Hn. rewrite Z.lxor_spec, !Z.land_spec, Z.lnot_spec by lia.
    by destruct (Z.testbit x n), (Z.testbit c n). }
  rewrite !Hx. rewrite wd_land_low by lia.
  assert (0 <= Z.land b c < 4).
  { assert (b = 0 \/ b = 1 \/ b = 2 \/ b = 3) as [->|[->|[->| ->]]] by lia;
    assert (c = 0 \/ c = 1 \/ c = 2 \/ c = 3) as [->|[->|[->| ->]]] by lia; by vm_compute. }
  by apply wd_lxor.
Qed.

Section gword.
  Context (g e b : Z) (Hok : gword_ok g e b).

#[local] Ltac parts := destruct Hok as (Hg & He & Hb); unfold gword.

Lemma gword_range : 0 <= gword g e b < 2 ^ 64.
Proof. parts. destruct (Z.eqb_spec e 0); lia. Qed.

Lemma gword_u32 : u32 (gword g e b) = (if e =? 0 then 0 else 2 ^ 32 - 4 * e) + b.
Proof. parts. unfold u32. destruct (Z.eqb_spec e 0); zbits. Qed.

Lemma gword_gen : dg_state_gen (gword g e b) = g.
Proof.
  parts. unfold dg_state_gen. rewrite shiftr_div by lia. destruct (Z.eqb_spec e 0); zbits.
Qed.

Lemma gword_mod4 : gword g e b mod 4 = b.
Proof. parts. destruct (Z.eqb_spec e 0); zbits. Qed.

(** The value field, as the masks of the code see it. *)
Lemma gword_mask : Z.land (gword g e b) DISPATCH_GROUP_VALUE_MASK = if e =? 0 then 0 else 2 ^ 32 - 4 * e.
Proof.
  pose proof gword_range. rewrite land_value_mask by lia. parts. destruct (Z.eqb_spec e 0); zbits.
Qed.

Lemma gword_mask_u32 :
  Z.land (u32 (gword g e b)) DISPATCH_GROUP_VALUE_MASK = if e =? 0 then 0 else 2 ^ 32 - 4 * e.
Proof.
  rewrite gword_u32. destruct Hok as (Hg & He & Hb). rewrite land_value_mask by (destruct (Z.eqb_spec e 0); lia).
  destruct (Z.eqb_spec e 0); zbits.
Qed.

Lemma gword_value : dg_state_value (gword g e b) = e.
Proof.
  unfold dg_state_value. rewrite gword_mask_u32, shiftr_div by lia. destruct Hok as (Hg & He & Hb).
  unfold u32. destruct (Z.eqb_spec e 0) as [->|]; [done|]. zbits.
Qed.

Lemma gword_empty : (Z.land (gword g e b) DISPATCH_GROUP_VALUE_MASK =? 0) = (e =? 0).
Proof.
  rewrite gword_mask. destruct Hok as (Hg & He & Hb). destruct (Z.eqb_spec e 0); [done|].
  apply Z.eqb_neq. lia.
Qed.

Lemma gword_u32_zero : (u32 (gword g e b) =? 0) = ((e =? 0) && (b =? 0)).
Proof.
  rewrite gword_u32. destruct Hok as (Hg & He & Hb).
  destruct (Z.eqb_spec e 0), (Z.eqb_spec b 0); simpl; try apply Z.eqb_eq; try apply Z.eqb_neq; lia.
Qed.

(** The atomic operations. *)
Lemma gword_enter :
  gword g e b - u32 (gword g e b) + u32 (u32 (gword g e b) - DISPATCH_GROUP_VALUE_INTERVAL) =
  if e =? 2 ^ 30 - 1 then gword g 0 b else gword g (e + 1) b.
Proof.
  rewrite gword_u32. unfold gword, DISPATCH_GROUP_VALUE_INTERVAL. destruct Hok as (Hg & He & Hb).
  unfold u32. destruct (Z.eqb_spec e 0), (Z.eqb_spec (e + 1) 0), (Z.eqb_spec e (2 ^ 30 - 1));
    try change (0 =? 0) with true; cbv iota; zbits.
Qed.

Lemma gword_leave :
  1 <= e -> g + 1 < 2 ^ 32 ->
  u64 (gword g e b + DISPATCH_GROUP_VALUE_INTERVAL) =
  if e =? 1 then gword (g + 1) 0 b else gword g (e - 1) b.
Proof.
  intros He1 Hg1. unfold DISPATCH_GROUP_VALUE_INTERVAL. destruct Hok as (Hg & He & Hb).
  rewrite u64_small; unfold gword; destruct (Z.eqb_spec e 0), (Z.eqb_spec (e - 1) 0), (Z.eqb_spec e 1);
    try change (0 =? 0) with true; cbv iota; lia.
Qed.

Lemma gword_leave_value :
  u32 (Z.land (gword g e b) DISPATCH_GROUP_VALUE_MASK) = if e =? 0 then 0 else 2 ^ 32 - 4 * e.
Proof.
  rewrite gword_mask. destruct Hok as (Hg & He & Hb). apply u32_small. destruct (Z.eqb_spec e 0); lia.
Qed.

Lemma gword_lor c : 0 <= c < 4 -> Z.lor (gword g e b) c = gword g e (Z.lor b c).
Proof. intros Hc. destruct Hok as (Hg & He & Hb). rewrite !gword_wd. by apply wd_lor. Qed.

Lemma gword_has_notifs : has_notifs (gword g e b) = (2 <=? b).
Proof.
  destruct Hok as (Hg & He & Hb). unfold has_notifs, DISPATCH_GROUP_HAS_NOTIFS.
  rewrite gword_wd, wd_land_low by lia.
  assert (b = 0 \/ b = 1 \/ b = 2 \/ b = 3) as [->|[->|[->| ->]]] by lia; done.
Qed.

Lemma gword_has_waiters : has_waiters (gword g e b) = Z.odd b.
Proof.
  destruct Hok as (Hg & He & Hb). unfold has_waiters, DISPATCH_GROUP_HAS_WAITERS.
  rewrite gword_wd, wd_land_low by lia.
  assert (b = 0 \/ b = 1 \/ b = 2 \/ b = 3) as [->|[->|[->| ->]]] by lia; done.
Qed.

(** The state that the last leave installs. *)
Lemma gword_leave_new :
  leave_new_state (gword g e b) = gword g e (if e =? 0 then 0 else b mod 2).
Proof.
  unfold leave_new_state. rewrite gword_empty. destruct Hok as (Hg & He & Hb).
  unfold DISPATCH_GROUP_HAS_WAITERS, DISPATCH_GROUP_HAS_NOTIFS. rewrite !gword_wd.
  assert (b = 0 \/ b = 1 \/ b = 2 \/ b = 3) as Hcase by lia.
  destruct (e =? 0); rewrite ?wd_clear by (try lia; destruct Hcase as [->|[->|[->| ->]]]; by vm_compute);
    f_equal; destruct Hcase as [->|[->|[->| ->]]]; done.
Qed.

End gword.

(** Every word is one. *)
Lemma word_gword w :
  0 <= w < 2 ^ 64 ->
  exists g e b, gword_ok g e b /\ w = gword g e b.
Proof.
  intros Hw. exists (w / 2 ^ 32), ((- (w / 4)) mod 2 ^ 30), (w mod 4).
  unfold gword_ok, gword. destruct (Z.eqb_spec ((- (w / 4)) mod 2 ^ 30) 0); zbits.
Qed.

Lemma gword_inj g e b g' e' b' :
  gword_ok g e b -> gword_ok g' e' b' -> gword g e b = gword g' e' b' -> g = g' /\ e = e' /\ b = b'.
Proof.
  intros H1 H2 He.
  pose proof (gword_gen g e b H1). pose proof (gword_gen g' e' b' H2).
  pose proof (gword_value g e b H1). pose proof (gword_value g' e' b' H2).
  pose proof (gword_mod4 g e b H1). pose proof (gword_mod4 g' e' b' H2). rewrite He in *. lia.
Qed.
