(* ===== verification/GroupInv.v ===== *)
(** * The invariant of groups

    Exactly one party is responsible for a list of notifications that is not
    empty: the thread that started it, the flag in the word, or the thread
    that took the flag.  A waiter that sleeps on an old generation will be
    woken, and the references are accounted for. *)

From S2P Require Import Conc Ulock Lock Group Prelude.
Import Ulock Group.

#[export] Instance group_pc_eq_dec : EqDecision Group.pc.
Proof. solve_decision. Defined.

(** ** Counting *)

Definition b2n (b : bool) : nat := if b then 1 else 0.

(** About to set the flag, or to fire on its own. *)
Definition pending (l : thread) : nat :=
  match t_pc l with NotifyRetain | NotifyRmw => 1 | _ => 0 end.
(** About to capture the list. *)
Definition capturing (l : thread) : nat :=
  match t_pc l with WakeNotify st _ => b2n (has_notifs st) | _ => 0 end.
(** About to wake the waiters. *)
Definition waking (l : thread) : nat :=
  match t_pc l with WakeNotify st _ | WakeAddr st _ => b2n (has_waiters st) | _ => 0 end.
(** In the loop of the last leave, with a state that has waiters, or one that
    the loop has to clear. *)
Definition cas_waiters (l : thread) : nat :=
  match t_pc l with LeaveCas old => b2n (has_waiters old) | _ => 0 end.
Definition cas_clears (l : thread) : nat :=
  match t_pc l with
  | LeaveCas old => b2n ((dg_state_value old =? 0) && negb (old mod 4 =? 0))
  | _ => 0
  end.
(** References the thread will give back, and those it has not taken yet. *)
Definition holds (l : thread) : Z :=
  match t_pc l with
  | LeaveCas _ | NotifyRmw => 1
  | WakeNotify st rel | WakeAddr st rel => (if rel then 1 else 0) + (if has_notifs st then 1 else 0)
  | WakeRelease refs => refs
  | EnterRetain => -1
  | _ => 0
  end.
Definition is_leave (c : call) : bool := match c with Leave => true | _ => false end.
Definition leaves (l : thread) : nat := countb is_leave (todo l).
Definition is_enter (c : call) : bool := match c with Enter => true | _ => false end.
Definition enters (l : thread) : nat := countb is_enter (todo l).
Definition in_kernel (l : thread) : nat :=
  match t_pc l with WaitSleep _ _ | WaitLeft _ _ _ => 1 | _ => 0 end.
Definition is_sleep (p : pc) : bool := match p with WaitSleep _ _ => true | _ => false end.
(** The generation a thread waits for. *)
Definition wait_gen (p : pc) : option Z :=
  match p with
  | WaitSlow gen _ | WaitSleep gen _ | WaitLeft gen _ _ | WaitCheck gen _ _ => Some gen
  | _ => None
  end.

(** Sum of references, over integers. *)
Fixpoint zsum (f : thread -> Z) (ls : list thread) : Z :=
  match ls with [] => 0 | l :: ls => f l + zsum f ls end.

Lemma zsum_insert f ls i l l' :
  ls !! i = Some l -> zsum f (<[i := l']> ls) = zsum f ls - f l + f l'.
Proof.
  revert i. induction ls as [|x ls IH]; intros [|i] Hi; simplify_eq/=; [lia|]. rewrite (IH i Hi). lia.
Qed.

(** Somebody will wake the waiters. *)
Definition alarm (nw nc : nat) (b : Z) : Prop := (0 < nw)%nat \/ Z.odd b = true /\ (0 < nc)%nat.

Definition flag (b : Z) : nat := b2n (2 <=? b).
Definition nonempty {A} (xs : list A) : nat := match xs with [] => 0 | _ => 1 end.

(** Occurrences of a notification. *)
Definition occ (id : nat) (ids : list nat) : nat := countb (Nat.eqb id) ids.
Definition is_notify (id : nat) (c : call) : bool :=
  match c with Notify j => Nat.eqb id j | _ => false end.
Definition to_notify (id : nat) (l : thread) : nat := countb (is_notify id) (todo l).

(** ** The invariant *)

Definition gpc_ok (g e b : Z) (p : pc) : Prop :=
  match p with
  | LeaveCas old => exists g' e' b', gword_ok g' e' b' /\ old = gword g' e' b'
  | WaitLeft _ timeout ret => ret = EINTR \/ ret = ETIMEDOUT /\ timeout <> DISPATCH_TIME_FOREVER
  | _ => True
  end /\
  forall gen, wait_gen p = Some gen -> gen <= g /\ (gen = g -> Z.odd b = true /\ e <> 0).

(** [ids] counts the notifications of the programs; [bal] is how often the
    group will have been entered in the end. *)
Record GI (ids : nat -> nat) (bal : Z) (g e b : Z) (s : shared) (ls : list thread) : Prop := {
  gi_ok : gword_ok g e b;
  gi_word : dg_state s = gword g e b;
  gi_bal : e + Z.of_nat (tsum enters ls) - Z.of_nat (tsum leaves ls) = bal;
  gi_gen : g + Z.of_nat (tsum leaves ls) < 2 ^ 32;
  gi_resp : (flag b + tsum pending ls + tsum capturing ls = nonempty (dg_notify s))%nat;
  gi_refs : do_ref_cnt s = (if e =? 0 then 0 else 1) + Z.of_nat (flag b) + zsum holds ls;
  gi_zero : e = 0 -> b <> 0 -> (0 < tsum cas_clears ls)%nat;
  gi_pc : forall i l, ls !! i = Some l -> gpc_ok g e b (t_pc l);
  gi_ids : forall id, (occ id (sub_id <$> submitted s) + occ id (dg_notify s)
                       + tsum (to_notify id) ls = ids id)%nat;
  gi_nw : nwaiters (ulk s) = Z.of_nat (tsum in_kernel ls);
  gi_ull : ull_ok UL_COMPARE_AND_WAIT (ulk s);
  gi_nodup : NoDup (wq (ulk s));
  gi_queue : forall i, i ∈ wq (ulk s) -> exists l, ls !! i = Some l /\ is_sleep (t_pc l) = true;
  gi_stale : forall i l gen, i ∈ wq (ulk s) -> ls !! i = Some l -> wait_gen (t_pc l) = Some gen ->
    gen < g -> alarm (tsum waking ls) (tsum cas_waiters ls) b
}.

Definition GInv (ids : nat -> nat) (bal : Z) (c : conf shared thread) : Prop :=
  exists g e b, GI ids bal g e b (c_sh c) (c_thr c).

(** What one step of thread [i] does, from the word of [g], [e], [b] to that
    of [g'], [e'], [b']. *)
Record gmoves (i : nat) (g e b : Z) (s : shared) (l : thread) (g' e' b' : Z) (s' : shared) (l' : thread) : Prop := {
  gm_ok : gword_ok g' e' b';
  gm_word : dg_state s' = gword g' e' b';
  gm_bal : e' + Z.of_nat (enters l') - Z.of_nat (leaves l') = e + Z.of_nat (enters l) - Z.of_nat (leaves l);
  gm_gen : g' = g \/ (g' = g + 1 /\ (e = 1 /\ e' = 0) /\ b' = b /\ (S (leaves l') = leaves l)%nat /\
                     (Z.odd b = true -> (0 < cas_waiters l')%nat) /\ (waking l <= waking l')%nat);
  gm_leaves : (leaves l' <= leaves l)%nat;
  gm_resp : (flag b' + pending l' + capturing l' + nonempty (dg_notify s) =
             flag b + pending l + capturing l + nonempty (dg_notify s'))%nat;
  gm_refs : do_ref_cnt s' - do_ref_cnt s =
    (if e' =? 0 then 0 else 1) - (if e =? 0 then 0 else 1) +
    Z.of_nat (flag b') - Z.of_nat (flag b) + holds l' - holds l;
  gm_zero : e' = 0 -> b' <> 0 -> (0 < cas_clears l')%nat \/ (e = 0 /\ b <> 0 /\ (cas_clears l <= cas_clears l')%nat);
  gm_wait : g' = g -> e <> 0 -> e' <> 0 /\ (Z.odd b = true -> Z.odd b' = true);
  gm_pc : gpc_ok g' e' b' (t_pc l');
  gm_ids : forall id, (occ id (sub_id <$> submitted s') + occ id (dg_notify s') + to_notify id l' =
                       occ id (sub_id <$> submitted s) + occ id (dg_notify s) + to_notify id l)%nat;
  gm_nw : nwaiters (ulk s') - nwaiters (ulk s) = Z.of_nat (in_kernel l') - Z.of_nat (in_kernel l);
  gm_ull : ull_ok UL_COMPARE_AND_WAIT (ulk s');
  gm_nodup : NoDup (wq (ulk s'));
  gm_queue : forall j, j ∈ wq (ulk s') -> j <> i -> j ∈ wq (ulk s);
  gm_self : i ∈ wq (ulk s') -> is_sleep (t_pc l') = true /\ wait_gen (t_pc l') = Some g';
  gm_alarm : g' = g -> wq (ulk s') <> [] -> forall nw nc,
    alarm (nw + waking l) (nc + cas_waiters l) b -> alarm (nw + waking l') (nc + cas_waiters l') b'
}.

Lemma low_lor_2 b : 0 <= b < 2 -> Z.lor b 2 = b + 2.
Proof. intros Hb. by assert (b = 0 \/ b = 1) as [->| ->] by lia. Qed.

Lemma low_lor_1 b :
  0 <= b < 4 -> flag (Z.lor b 1) = flag b /\ (Z.odd b = true -> Z.lor b 1 = b).
Proof. intros Hb. by assert (b = 0 \/ b = 1 \/ b = 2 \/ b = 3) as [->|[->|[->| ->]]] by lia. Qed.

Lemma set_state_id (s : shared) : set_state (dg_state s) s = s.
Proof. by destruct s. Qed.

Section gstep.
  Context (ids : nat -> nat) (bal : Z) (i : nat) (g e b : Z) (s : shared) (ls : list thread) (l : thread).
  Context (I : GI ids bal g e b s ls) (Hl : ls !! i = Some l).

Lemma gnot_queued : is_sleep (t_pc l) = false -> ~ i ∈ wq (ulk s).
Proof.
  intros H0 Hi. destruct (gi_queue _ _ _ _ _ _ _ I i Hi) as (l2 & Hl2 & ?). congruence.
Qed.

Lemma gmoves_inv g' e' b' s' l' :
  gmoves i g e b s l g' e' b' s' l' -> GI ids bal g' e' b' s' (<[i := l']> ls).
Proof.
  intros M.
  assert (forall f : thread -> nat, tsum f (<[i:=l']> ls) + f l = tsum f ls + f l')%nat as Hsum
    by (intros f; by apply (isum_insert (fun _ => f))).
  assert (forall j x, <[i := l']> ls !! j = Some x -> j = i /\ x = l' \/ j <> i /\ ls !! j = Some x) as Hins.
  { intros j x. by apply (lookup_moved ls i l). }
  assert (<[i := l']> ls !! i = Some l') as Hi by (apply list_lookup_insert_eq; by eapply lookup_lt_Some).
  destruct M as [M1 M2 Mb M3 M4 M5 M6 M7 M8 M9 M10 M11 M12 M13 M14 M15 M16].
  assert (g <= g') as Hgg by (destruct M3 as [|(? & _)]; lia).
  split; try done.
  - pose proof (gi_bal _ _ _ _ _ _ _ I). pose proof (Hsum enters). pose proof (Hsum leaves). lia.
  - pose proof (gi_gen _ _ _ _ _ _ _ I). pose proof (Hsum leaves). destruct M3 as [|(? & _ & _ & ? & _)]; lia.
  - pose proof (gi_resp _ _ _ _ _ _ _ I). pose proof (Hsum pending). pose proof (Hsum capturing). lia.
  - pose proof (gi_refs _ _ _ _ _ _ _ I). rewrite (zsum_insert _ _ i l l' Hl). lia.
  - intros He Hb. pose proof (Hsum cas_clears).
    pose proof (isum_lookup (fun _ => cas_clears) _ _ _ Hl). destruct (M7 He Hb) as [|(He0 & Hb0 & ?)]; [lia|].
    pose proof (gi_zero _ _ _ _ _ _ _ I He0 Hb0). lia.
  - intros j x [[-> ->]|[Hne Hx]]%Hins; [done|].
    destruct (gi_pc _ _ _ _ _ _ _ I j x Hx) as [Hp Hg]. split; [done|].
    intros gen Hgen. destruct (Hg gen Hgen) as [Hle Hcur]. split; [lia|]. intros ->.
    assert (g' = g) as -> by lia. destruct Hcur as [Ho He]; [done|]. destruct (M8 eq_refl He); auto.
  - intros id. pose proof (gi_ids _ _ _ _ _ _ _ I id). pose proof (Hsum (to_notify id)).
    pose proof (M10 id). lia.
  - pose proof (gi_nw _ _ _ _ _ _ _ I). pose proof (Hsum in_kernel). lia.
  - intros j Hj. destruct (decide (j = i)) as [->|Hne].
    + exists l'. split; [done|]. by apply M15.
    + rewrite list_lookup_insert_ne by done. apply (gi_queue _ _ _ _ _ _ _ I). by apply M14.
  - intros j x gen Hj [[-> ->]|[Hne Hx]]%Hins Hgen Hlt.
    { destruct (M15 Hj) as [_ Hg']. simplify_eq. lia. }
    assert (wq (ulk s') <> []) as Hq by (intros H0; by rewrite H0, elem_of_nil in Hj).
    pose proof (Hsum waking) as Hw. pose proof (Hsum cas_waiters) as Hc.
    pose proof (isum_lookup (fun _ => waking) _ _ _ Hl) as Hw1.
    pose proof (isum_lookup (fun _ => cas_waiters) _ _ _ Hl) as Hc1.
    specialize (M14 j Hj Hne).
    destruct M3 as [->|(-> & _ & -> & _ & Hcas & Hwk)].
    + pose proof (gi_stale _ _ _ _ _ _ _ I j x gen M14 Hx Hgen Hlt) as Ha.
      specialize (M16 eq_refl Hq (tsum waking ls - waking l)%nat (tsum cas_waiters ls - cas_waiters l)%nat).
      rewrite !Nat.sub_add in M16 by done. specialize (M16 Ha).
      replace (tsum waking (<[i:=l']> ls)) with (tsum waking ls - waking l + waking l')%nat by lia.
      replace (tsum cas_waiters (<[i:=l']> ls)) with (tsum cas_waiters ls - cas_waiters l + cas_waiters l')%nat by lia.
      done.
    + destruct (Z.odd b) eqn:Hodd.
      * right. split; [done|]. specialize (Hcas eq_refl). lia.
      * destruct (gi_pc _ _ _ _ _ _ _ I j x Hx) as [_ Hg]. destruct (Hg gen Hgen) as [Hle Hcur].
        assert (gen < g) as Hst by (destruct (Z.eq_dec gen g) as [He|]; [destruct (Hcur He); congruence|lia]).
        destruct (gi_stale _ _ _ _ _ _ _ I j x gen M14 Hx Hgen Hst) as [Ha|[? _]]; [|congruence].
        left. lia.
Qed.

(** *** Steps outside the kernel *)

Lemma gplain g' e' b' s' l' :
  ulk s' = ulk s -> in_kernel l = 0%nat -> in_kernel l' = 0%nat ->
  gword_ok g' e' b' -> dg_state s' = gword g' e' b' ->
  e' + Z.of_nat (enters l') - Z.of_nat (leaves l') = e + Z.of_nat (enters l) - Z.of_nat (leaves l) ->
  (g' = g \/ (g' = g + 1 /\ (e = 1 /\ e' = 0) /\ b' = b /\ (S (leaves l') = leaves l)%nat /\
              (Z.odd b = true -> (0 < cas_waiters l')%nat) /\ (waking l <= waking l')%nat)) ->
  (leaves l' <= leaves l)%nat ->
  (flag b' + pending l' + capturing l' + nonempty (dg_notify s) =
   flag b + pending l + capturing l + nonempty (dg_notify s'))%nat ->
  do_ref_cnt s' - do_ref_cnt s = (if e' =? 0 then 0 else 1) - (if e =? 0 then 0 else 1) +
    Z.of_nat (flag b') - Z.of_nat (flag b) + holds l' - holds l ->
  (e' = 0 -> b' <> 0 -> (0 < cas_clears l')%nat \/ (e = 0 /\ b <> 0 /\ (cas_clears l <= cas_clears l')%nat)) ->
  (g' = g -> e <> 0 -> e' <> 0 /\ (Z.odd b = true -> Z.odd b' = true)) ->
  gpc_ok g' e' b' (t_pc l') ->
  (forall id, (occ id (sub_id <$> submitted s') + occ id (dg_notify s') + to_notify id l' =
               occ id (sub_id <$> submitted s) + occ id (dg_notify s) + to_notify id l)%nat) ->
  (g' = g -> forall nw nc, alarm (nw + waking l) (nc + cas_waiters l) b ->
                           alarm (nw + waking l') (nc + cas_waiters l') b') ->
  gmoves i g e b s l g' e' b' s' l'.
Proof.
  intros Hu Hk Hk' H1 H2 Hbal H3 H4 H5 H6 H7 H8 H9 H10 H11.
  assert (~ i ∈ wq (ulk s)) as Hnq.
  { apply gnot_queued. unfold in_kernel in Hk. by destruct (t_pc l). }
  split; rewrite ?Hu; try done.
  - lia.
  - apply (gi_ull _ _ _ _ _ _ _ I).
  - apply (gi_nodup _ _ _ _ _ _ _ I).
  - intros Hg _. by apply H11.
Qed.

(** Evaluates the counts of threads whose places are known. *)
#[local] Ltac gcounts :=
  unfold pending, capturing, waking, cas_waiters, cas_clears, holds, enters, leaves, to_notify, in_kernel in *;
  cbn [t_pc todo log go] in *;
  repeat match goal with
  | H : t_pc _ = _ |- _ => rewrite H in *; clear H
  | H : todo _ = _ |- _ => rewrite H in *; clear H
  end; rewrite ?countb_cons in *; cbn [is_enter is_leave is_notify] in *.

Lemma enter_moves cs :
  t_pc l = Idle -> todo l = Enter :: cs ->
  (exists s' c, dispatch_group_enter s = Ok (s', c) /\
    gmoves i g e b s l g (e + 1) b s' (go {| t_pc := Idle; todo := cs; log := log l |} c)) \/
  (dispatch_group_enter s = Crash AssertFail /\ e = 2 ^ 30 - 1).
Proof.
  intros Hpc Htodo. pose proof (gi_ok _ _ _ _ _ _ _ I) as Hok. pose proof (gi_word _ _ _ _ _ _ _ I) as Hw.
  unfold dispatch_group_enter. rewrite Hw, gword_enter, gword_mask_u32 by done.
  pose proof Hok as (Hg & He & Hb). unfold DISPATCH_GROUP_VALUE_MAX, DISPATCH_GROUP_VALUE_INTERVAL.
  destruct (Z.eqb_spec e (2 ^ 30 - 1)) as [Hmax|Hmax].
  { right. split; [|done]. by rewrite Hmax. }
  left. assert (gword_ok g (e + 1) b) by (unfold gword_ok; lia).
  destruct (Z.eqb_spec e 0) as [H0|Hnz].
  - do 2 eexists. split; [done|].
    apply gplain; gcounts; simpl; rewrite ?H0; try done; auto; simpl; lia.
  - rewrite (proj2 (Z.eqb_neq _ 4)), (proj2 (Z.eqb_neq _ 0)) by lia.
    do 2 eexists. split; [done|].
    apply gplain; gcounts; simpl; rewrite ?(proj2 (Z.eqb_neq e 0)), ?(proj2 (Z.eqb_neq (e + 1) 0)) by lia;
      try done; auto; try lia.
    intros _ _. split; [lia|done].
Qed.

Lemma gleave_moves cs :
  t_pc l = Idle -> todo l = Leave :: cs ->
  (exists s' c g' e', dispatch_group_leave s = Ok (s', c) /\
    gmoves i g e b s l g' e' b s' (go {| t_pc := Idle; todo := cs; log := log l |} c)) \/
  (dispatch_group_leave s = Crash AssertFail /\ e = 0).
Proof.
  intros Hpc Htodo. pose proof (gi_ok _ _ _ _ _ _ _ I) as Hok. pose proof (gi_word _ _ _ _ _ _ _ I) as Hw.
  pose proof Hok as (Hg & He & Hb).
  assert (g + 1 < 2 ^ 32) as Hg1.
  { pose proof (gi_gen _ _ _ _ _ _ _ I). pose proof (isum_lookup (fun _ => leaves) _ _ _ Hl) as Hlv.
    unfold leaves in Hlv at 1. rewrite Htodo, countb_cons in Hlv. simpl in Hlv. lia. }
  unfold dispatch_group_leave. rewrite Hw, gword_leave_value by done.
  destruct (Z.eqb_spec e 0) as [H0|Hnz]; [by right|left].
  rewrite gword_leave by (done || lia).
  change DISPATCH_GROUP_VALUE_1 with (2 ^ 32 - 4).
  destruct (Z.eqb_spec e 1) as [H1|H1].
  - rewrite (proj2 (Z.eqb_eq _ (2 ^ 32 - 4))) by lia.
    assert (gword_ok (g + 1) 0 b) as Hok' by (unfold gword_ok; lia).
    exists (set_state (gword (g + 1) 0 b) s), (Goto (LeaveCas (gword (g + 1) 0 b))), (g + 1), 0.
    split; [done|].
    apply gplain; gcounts; simpl; rewrite ?gword_has_waiters, ?gword_value, ?gword_mod4 by done; try done; try lia.
    + right. split_and!; try done; try lia. intros ->. simpl. lia.
    + rewrite (proj2 (Z.eqb_neq e 0)) by lia. lia.
    + intros _ Hnb. left. rewrite (proj2 (Z.eqb_neq b 0)) by done. simpl. lia.
    + split; [|done]. by exists (g + 1), 0, b.
  - rewrite (proj2 (Z.eqb_neq _ (2 ^ 32 - 4))), (proj2 (Z.eqb_neq _ 0)) by lia.
    assert (gword_ok g (e - 1) b) as Hok' by (unfold gword_ok; lia).
    do 4 eexists. split; [done|].
    apply (gplain g (e - 1) b); gcounts; simpl; try done; auto; try lia.
    + rewrite (proj2 (Z.eqb_neq e 0)), (proj2 (Z.eqb_neq (e - 1) 0)) by lia. lia.
    + intros _ _. split; [lia|done].
Qed.

(** One round of the loop of the last leave. *)
Lemma leave_cas_moves old s' c :
  t_pc l = LeaveCas old -> leave_cas old s = (s', c) ->
  exists b', gmoves i g e b s l g e b' s' (go l c).
Proof.
  intros Hpc. pose proof (gi_ok _ _ _ _ _ _ _ I) as Hok. pose proof (gi_word _ _ _ _ _ _ _ I) as Hw.
  destruct (gi_pc _ _ _ _ _ _ _ I i l Hl) as [Hp _]. rewrite Hpc in Hp. destruct Hp as (go0 & eo & bo & Hoo & ->).
  unfold leave_cas. rewrite gword_leave_new by done.
  pose proof Hoo as (Hgo & Heo & Hbo). pose proof Hok as (Hg & He & Hb).
  assert (gword_ok go0 eo (if eo =? 0 then 0 else bo mod 2)) as Hnew by (unfold gword_ok; destruct (eo =? 0); zbits).
  destruct (Z.eqb_spec (gword go0 eo bo) (gword go0 eo (if eo =? 0 then 0 else bo mod 2))) as [Hsame|Hdiff].
  - apply gword_inj in Hsame as (_ & _ & Hbb); [|done..]. intros [= <- <-]. exists b.
    assert ((2 <=? bo) = false) as Hn by (apply Z.leb_gt; destruct (eo =? 0); zbits).
    apply gplain; gcounts; simpl; rewrite ?gword_has_notifs, ?gword_has_waiters, ?gword_value, ?gword_mod4, ?Hn by done;
      simpl; try done; auto; try lia.
    + intros He0 Hb0. right. split_and!; try done.
      destruct (Z.eqb_spec eo 0); simpl; [|lia]. rewrite Hbb. simpl. lia.
    + intros _ nw nc. unfold alarm, b2n. destruct (Z.odd bo); intuition (done || lia).
  - rewrite Hw. destruct (Z.eqb_spec (gword g e b) (gword go0 eo bo)) as [Heq|Hne]; intros [= <- <-].
    + apply gword_inj in Heq as (Hg1 & He1 & Hb1); [|done..]. subst go0 eo bo. exists (if e =? 0 then 0 else b mod 2).
      assert (flag (if e =? 0 then 0 else b mod 2) = 0%nat) as Hf.
      { unfold flag. rewrite (proj2 (Z.leb_gt 2 _)); [done|]. destruct (e =? 0); zbits. }
      apply gplain; gcounts; simpl; rewrite ?gword_has_notifs, ?gword_has_waiters, ?gword_value, ?gword_mod4, ?Hf by done;
        simpl; try done; auto; try (unfold flag; destruct (2 <=? b); simpl; lia).
      * intros -> . done.
      * intros _ Hnz. split; [done|]. intros Hodd. rewrite (proj2 (Z.eqb_neq e 0)) by done.
        rewrite Zmod_odd, Hodd. done.
      * intros _ nw nc. unfold alarm, b2n. destruct (Z.odd b); intuition (done || lia).
    + exists b. apply gplain; gcounts; simpl; rewrite ?Hw, ?gword_has_waiters, ?gword_value, ?gword_mod4 by done;
        simpl; try done; auto; try lia.
      * intros -> Hnb. left. rewrite (proj2 (Z.eqb_neq b 0)) by done. simpl. lia.
      * split; [|done]. by exists g, e, b.
      * intros _ nw nc. unfold alarm, b2n. destruct (Z.odd b); intuition (done || lia).
Qed.

(** A thread that moves on with the same word, list and references. *)
Lemma gsame l' :
  in_kernel l = 0%nat -> in_kernel l' = 0%nat -> todo l' = todo l ->
  (pending l' + capturing l' = pending l + capturing l)%nat -> holds l' = holds l ->
  (cas_clears l <= cas_clears l')%nat -> gpc_ok g e b (t_pc l') ->
  (waking l <= waking l')%nat -> (cas_waiters l <= cas_waiters l')%nat ->
  gmoves i g e b s l g e b s l'.
Proof.
  intros Hk Hk' Ht Hr Hh Hc Hp Hw Hcw.
  apply gplain; try done; auto; unfold enters, leaves, to_notify; rewrite ?Ht; try done; try lia.
  - apply (gi_ok _ _ _ _ _ _ _ I).
  - apply (gi_word _ _ _ _ _ _ _ I).
  - intros _ nw nc. unfold alarm. intuition lia.
Qed.

Lemma occ_app id xs ys : occ id (xs ++ ys) = (occ id xs + occ id ys)%nat.
Proof. apply countb_app. Qed.

(** The capture finds a list that is not empty. *)
Lemma capture_nonempty st rel :
  t_pc l = WakeNotify st rel -> has_notifs st = true -> dg_notify s <> [].
Proof.
  intros Hpc Hn H0. pose proof (gi_resp _ _ _ _ _ _ _ I) as Hr. rewrite H0 in Hr. simpl in Hr.
  pose proof (isum_lookup (fun _ => capturing) _ _ _ Hl) as Hc. unfold capturing in Hc at 1.
  rewrite Hpc, Hn in Hc. simpl in Hc. lia.
Qed.

Lemma wake_notify_moves st rel r :
  t_pc l = WakeNotify st rel -> r ∈ wake_notify st rel s ->
  exists s' c, r = Ok (s', c) /\ gmoves i g e b s l g e b s' (go l c).
Proof.
  intros Hpc. unfold wake_notify. destruct (has_notifs st) eqn:Hn.
  - pose proof (capture_nonempty st rel Hpc Hn) as Hne.
    destruct (dg_notify s) as [|id0 ids0] eqn:Hlist; [done|].
    intros ->%list_elem_of_singleton. do 2 eexists. split; [done|].
    apply gplain; gcounts; rewrite ?Hn, ?Hlist; try done; auto; try (simpl; lia).
    + apply (gi_ok _ _ _ _ _ _ _ I).
    + apply (gi_word _ _ _ _ _ _ _ I).
    + intros id. cbn [submitted dg_notify]. rewrite fmap_app, occ_app, <- list_fmap_compose.
      change (occ id []) with 0%nat.
      assert ((sub_id ∘ (fun id1 => {| sub_id := id1; sub_value := dg_state_value (dg_state s) |})) <$> id0 :: ids0
              = id0 :: ids0) as -> by (by rewrite <- (list_fmap_id (id0 :: ids0)) at 2).
      lia.
  - intros ->%list_elem_of_singleton. do 2 eexists. split; [done|].
    apply gsame; gcounts; rewrite ?Hn; done.
Qed.

Lemma wake_release_moves refs :
  t_pc l = WakeRelease refs ->
  exists s' c, wake_release refs s = (s', c) /\ gmoves i g e b s l g e b s' (go l c).
Proof.
  intros Hpc. unfold wake_release. do 2 eexists. split; [done|].
  destruct (Z.eqb_spec refs 0) as [->|Hr]; simpl.
  - apply gsame; gcounts; done.
  - apply gplain; gcounts; simpl; try done; auto; try lia; [apply (gi_ok _ _ _ _ _ _ _ I)|apply (gi_word _ _ _ _ _ _ _ I)].
Qed.

Lemma retain_moves c :
  t_pc l = EnterRetain /\ c = Return \/ t_pc l = NotifyRetain /\ c = Goto NotifyRmw ->
  gmoves i g e b s l g e b (add_refs 1 s) (go l c).
Proof.
  intros [[Hpc ->]|[Hpc ->]]; apply gplain; gcounts; simpl; try done; auto; try lia;
    try apply (gi_ok _ _ _ _ _ _ _ I); apply (gi_word _ _ _ _ _ _ _ I).
Qed.

Lemma notify_push_moves id cs s' c :
  t_pc l = Idle -> todo l = Notify id :: cs -> notify_push id s = (s', c) ->
  gmoves i g e b s l g e b s' (go {| t_pc := Idle; todo := cs; log := log l |} c).
Proof.
  intros Hpc Htodo. unfold notify_push.
  assert (forall x id0 (ys : list nat), countb (Nat.eqb x) (ys ++ [id0]) =
    ((if Nat.eqb x id0 then 1 else 0) + countb (Nat.eqb x) ys)%nat) as Hocc.
  { intros x id0 ys. rewrite countb_app, countb_cons, countb_nil. lia. }
  destruct (dg_notify s) as [|id0 ids0] eqn:Hlist; intros [= <- <-];
    apply gplain; gcounts; rewrite ?Hlist; simpl; try done; auto; try lia;
    try apply (gi_ok _ _ _ _ _ _ _ I); try apply (gi_word _ _ _ _ _ _ _ I).
  - intros x. unfold occ. rewrite !countb_cons, countb_nil. simpl. lia.
  - intros x. unfold occ. rewrite (app_comm_cons ids0 [id] id0), Hocc, (countb_cons (is_notify x)).
    simpl. lia.
Qed.

(** The thread that started the list sets the flag, or finds the group
    empty. *)
Lemma notify_rmw_moves s' c :
  t_pc l = NotifyRmw -> notify_rmw s = (s', c) -> exists b', gmoves i g e b s l g e b' s' (go l c).
Proof.
  intros Hpc. pose proof (gi_ok _ _ _ _ _ _ _ I) as Hok. pose proof (gi_word _ _ _ _ _ _ _ I) as Hw.
  pose proof Hok as (Hg & He & Hb).
  assert (flag b = 0%nat /\ b < 2) as [Hf Hb2].
  { pose proof (gi_resp _ _ _ _ _ _ _ I) as Hr. pose proof (isum_lookup (fun _ => pending) _ _ _ Hl) as Hp.
    unfold pending in Hp at 1. rewrite Hpc in Hp.
    assert (nonempty (dg_notify s) <= 1)%nat by (unfold nonempty; case_match; lia).
    assert (flag b = 0%nat) as Hf by lia. split; [done|].
    unfold flag in Hf. destruct (Z.leb_spec 2 b); simpl in Hf; lia. }
  unfold notify_rmw, rmw_atomic, notify_body. rewrite Hw, gword_u32_zero by done.
  unfold DISPATCH_GROUP_HAS_NOTIFS. rewrite gword_lor by (done || lia).
  rewrite low_lor_2 by lia.
  assert (gword_ok g e (b + 2)) as Hok' by (unfold gword_ok; lia).
  assert ((2 <=? b + 2) = true) as H2 by (apply Z.leb_le; lia).
  destruct ((e =? 0) && (b =? 0)) eqn:Hz; intros [= <- <-].
  - exists b. apply andb_true_iff in Hz as [He0%Z.eqb_eq Hb0%Z.eqb_eq].
    apply gplain; gcounts; simpl; rewrite ?gword_has_notifs, ?gword_has_waiters, ?H2 by done; simpl; try done; auto; try lia.
    intros _ nw nc. unfold alarm. intuition lia.
  - exists (b + 2). assert (flag (b + 2) = 1%nat) as Hf' by (unfold flag; by rewrite H2).
    assert (Z.odd (b + 2) = Z.odd b) as Hodd by (rewrite Z.odd_add; by destruct (Z.odd b)).
    apply gplain; gcounts; simpl; rewrite ?Hf, ?Hf', ?Hodd; try done; auto; try lia.
    intros _ nw nc. unfold alarm. by rewrite Hodd.
Qed.

Lemma wait_rmw_moves timeout s' c :
  t_pc l = WaitRmw timeout -> wait_rmw timeout s = (s', c) ->
  exists b', gmoves i g e b s l g e b' s' (go l c).
Proof.
  intros Hpc. pose proof (gi_ok _ _ _ _ _ _ _ I) as Hok. pose proof (gi_word _ _ _ _ _ _ _ I) as Hw.
  pose proof Hok as (Hg & He & Hb).
  unfold wait_rmw, rmw_atomic, wait_body. rewrite Hw, gword_empty by done.
  assert (set_state (gword g e b) s = s) as Hid by (rewrite <- Hw; apply set_state_id).
  destruct (Z.eqb_spec e 0) as [H0|H0].
  { intros [= <- <-]. exists b. rewrite Hid. apply gsame; gcounts; done. }
  destruct (timeout =? 0).
  { intros [= <- <-]. exists b. rewrite Hid. apply gsame; gcounts; done. }
  rewrite gword_has_waiters by done. unfold DISPATCH_GROUP_HAS_WAITERS. rewrite gword_lor by (done || lia).
  assert (gword_ok g e (Z.lor b 1)) as Hok' by (pose proof (low_or b 1 Hb ltac:(lia)); unfold gword_ok; lia).
  destruct (low_lor_1 b Hb) as [Hf Hsame].
  destruct (Z.odd b) eqn:Hodd; intros [= <- <-].
  - exists b. rewrite Hid, Hsame, gword_gen by done. apply gsame; gcounts; try done.
    split; [done|]. intros gen [= <-]. split; [lia|done].
  - exists (Z.lor b 1). rewrite gword_gen by done.
    apply gplain; gcounts; simpl; rewrite ?Hf, ?odd_lor_1; try done; auto; try lia.
    + split; [done|]. intros gen [= <-]. rewrite odd_lor_1. split; [lia|done].
    + intros _ nw nc. unfold alarm. rewrite odd_lor_1, Hodd. intuition (done || lia).
Qed.

(** *** Steps in the kernel *)

Lemma gwaiters_self :
  in_kernel l = 1%nat -> ~ i ∈ wq (ulk s) -> Z.of_nat (length (wq (ulk s))) + 1 <= nwaiters (ulk s).
Proof.
  apply (queue_bound_self in_kernel ls); [apply (gi_nw _ _ _ _ _ _ _ I)|apply (gi_nodup _ _ _ _ _ _ _ I)| |done].
  intros j Hj. destruct (gi_queue _ _ _ _ _ _ _ I j Hj) as (x & Hx & Hs). exists x. split; [done|].
  unfold in_kernel. by destruct (t_pc x).
Qed.

(** A thread that waits for a generation moves, and the word, the list and
    the references stay. *)
Lemma gwaits s' p gen :
  wait_gen (t_pc l) = Some gen -> wait_gen p = Some gen ->
  dg_state s' = dg_state s -> dg_notify s' = dg_notify s -> do_ref_cnt s' = do_ref_cnt s ->
  submitted s' = submitted s ->
  match p with
  | WaitLeft _ timeout ret => ret = EINTR \/ ret = ETIMEDOUT /\ timeout <> DISPATCH_TIME_FOREVER
  | _ => True
  end ->
  nwaiters (ulk s') - nwaiters (ulk s) =
    Z.of_nat (in_kernel {| t_pc := p; todo := todo l; log := log l |}) - Z.of_nat (in_kernel l) ->
  ull_ok UL_COMPARE_AND_WAIT (ulk s') -> NoDup (wq (ulk s')) ->
  (forall j, j ∈ wq (ulk s') -> j <> i -> j ∈ wq (ulk s)) ->
  (i ∈ wq (ulk s') -> is_sleep p = true /\ gen = g) ->
  gmoves i g e b s l g e b s' {| t_pc := p; todo := todo l; log := log l |}.
Proof.
  intros Hgl Hgp Hw Hno Hrc Hsub Hp Hn Hok Hnd Hq Hself.
  assert (holds {| t_pc := p; todo := todo l; log := log l |} = 0) as Hh by (by destruct p).
  assert (holds l = 0) as Hh' by (unfold holds; by destruct (t_pc l)).
  assert (pending l = 0 /\ capturing l = 0 /\ waking l = 0 /\ cas_waiters l = 0 /\ cas_clears l = 0)%nat as (H1 & H2 & H3 & H4 & H5).
  { unfold pending, capturing, waking, cas_waiters, cas_clears. by destruct (t_pc l). }
  assert (forall l', t_pc l' = p -> pending l' = 0 /\ capturing l' = 0 /\ waking l' = 0 /\ cas_waiters l' = 0 /\
    cas_clears l' = 0)%nat as Hz.
  { intros l' Hl'. unfold pending, capturing, waking, cas_waiters, cas_clears. rewrite Hl'. by destruct p. }
  destruct (Hz {| t_pc := p; todo := todo l; log := log l |} eq_refl) as (Z1 & Z2 & Z3 & Z4 & Z5).
  split; rewrite ?Hw, ?Hno, ?Hrc, ?Hsub, ?Hh, ?Hh', ?H1, ?H2, ?H3, ?H4, ?H5, ?Z1, ?Z2, ?Z3, ?Z4, ?Z5; try done; auto; try lia.
  - apply (gi_ok _ _ _ _ _ _ _ I).
  - apply (gi_word _ _ _ _ _ _ _ I).
  - destruct (gi_pc _ _ _ _ _ _ _ I i l Hl) as [_ Hg]. rewrite Hgl in Hg. split; simpl.
    + by destruct p.
    + by rewrite Hgp.
  - intros Hi. destruct (Hself Hi) as [? Hgg]. simpl. by rewrite Hgp, Hgg.
Qed.

(** Where [_dispatch_wait_on_address] returns to. *)
Definition wait_next (gen timeout rc : Z) : pc :=
  if 0 <=? rc then WaitCheck gen timeout false
  else if rc =? - EINTR then
    if timeout =? DISPATCH_TIME_FOREVER then WaitSlow gen timeout else WaitCheck gen timeout false
  else WaitCheck gen timeout true.

Lemma wait_returns_ok gen timeout rc s0 :
  0 <= rc \/ rc = - EINTR \/ rc = - ETIMEDOUT ->
  wait_returns gen timeout rc s0 = Ok (s0, Goto (wait_next gen timeout rc)).
Proof.
  unfold wait_returns, wait_next, dlock_wait_ret, ulock_timeout. intros [Hrc|[-> | ->]].
  - rewrite (proj2 (Z.leb_le 0 rc)), Z.gtb_ltb by done. destruct (Z.ltb_spec 0 rc); [done|].
    by assert (rc = 0) as -> by lia.
  - simpl. by destruct (timeout =? DISPATCH_TIME_FOREVER).
  - done.
Qed.

Lemma wait_next_gen gen timeout rc :
  wait_gen (wait_next gen timeout rc) = Some gen /\ is_sleep (wait_next gen timeout rc) = false /\
  forall td lg, in_kernel {| t_pc := wait_next gen timeout rc; todo := td; log := lg |} = 0%nat.
Proof. unfold wait_next. by repeat case_match. Qed.

Lemma wait_slow_moves tids gen timeout r :
  t_pc l = WaitSlow gen timeout -> r ∈ wait_slow tids i gen timeout s ->
  exists s' c, r = Ok (s', c) /\ gmoves i g e b s l g e b s' (go l c).
Proof.
  intros Hpc. pose proof (gi_ok _ _ _ _ _ _ _ I) as Hok. pose proof (gi_ull _ _ _ _ _ _ _ I) as Hu.
  pose proof (gi_nodup _ _ _ _ _ _ _ I) as Hnd.
  assert (~ i ∈ wq (ulk s)) as Hnq by (apply gnot_queued; by rewrite Hpc).
  assert (0 <= nwaiters (ulk s)) as Hnn by (rewrite (gi_nw _ _ _ _ _ _ _ I); lia).
  assert (wait_gen (t_pc l) = Some gen) as Hgl by (by rewrite Hpc).
  unfold wait_slow. rewrite (gi_word _ _ _ _ _ _ _ I), gword_gen by done.
  rewrite elem_of_cons. intros [->|Hr].
  2: { destruct (timeout =? DISPATCH_TIME_FOREVER); [by apply elem_of_nil in Hr|].
       apply list_elem_of_singleton in Hr as ->. do 2 eexists. split; [done|].
       destruct (gi_pc _ _ _ _ _ _ _ I i l Hl) as [_ Hg]. rewrite Hgl in Hg.
       apply gsame; gcounts; try done. }
  destruct (decide (gen = g)) as [Hgg|Hne].
  - destruct (ulock_wait_match_plain tids i gen (ulk s) Hu) as (u & Hwait & _ & Hc & Hop & Hq).
    replace (ulock_wait tids UL_COMPARE_AND_WAIT i g gen (ulk s)) with (Some u, Asleep)
      by (rewrite <- Hwait; by f_equal).
    do 2 eexists. split; [done|]. apply (gwaits _ _ gen); simpl; rewrite ?Hq; try done.
    + rewrite Hc. unfold in_kernel. rewrite Hpc. simpl. lia.
    + split; [lia|done].
    + apply NoDup_app. split_and!; [done| |apply NoDup_singleton].
      intros j Hj ->%list_elem_of_singleton. done.
    + intros j. rewrite elem_of_app, list_elem_of_singleton. tauto.
  - rewrite ulock_wait_mismatch by congruence. rewrite wait_returns_ok by auto.
    destruct (wait_next_gen gen timeout (nwaiters (ulk s))) as (Hg1 & _ & Hk).
    do 2 eexists. split; [done|]. apply (gwaits _ _ gen); simpl; try done.
    + unfold wait_next. by repeat case_match.
    + rewrite Hk. unfold in_kernel. rewrite Hpc. lia.
Qed.

(** The thread returns from the kernel. *)
Lemma wait_continue_moves ret gen timeout :
  t_pc l = WaitSleep gen timeout /\ ret = 0 \/
  t_pc l = WaitLeft gen timeout ret /\ (ret = EINTR \/ ret = ETIMEDOUT) ->
  ~ i ∈ wq (ulk s) ->
  exists u' rc, (ret = 0 /\ 0 <= rc \/ rc = - ret /\ ret <> 0) /\ wq u' = wq (ulk s) /\
    wait_continue ret gen timeout s = Ok (set_ulk u' s, Goto (wait_next gen timeout rc)) /\
    gmoves i g e b s l g e b (set_ulk u' s) (go l (Goto (wait_next gen timeout rc))).
Proof.
  intros Hcase Hi.
  assert (in_kernel l = 1%nat /\ wait_gen (t_pc l) = Some gen) as [Hk Hgl]
    by (unfold in_kernel; by destruct Hcase as [[-> _]|[-> _]]).
  pose proof (gwaiters_self Hk Hi) as Hb0. pose proof (gi_ull _ _ _ _ _ _ _ I) as Hok.
  pose proof (gi_nodup _ _ _ _ _ _ _ I) as Hnd.
  destruct (ulk s) as [u|] eqn:Hu; [|simpl in Hb0; lia].
  destruct (cleanup_ok _ u Hok Hb0) as (u' & Hcl & Hn & Hok' & Hq & _ & Hpos & _).
  unfold wait_continue, ulock_wait_continue. rewrite Hu, Hcl.
  set (rc := if ret =? 0 then ull_nwaiters u - 1 else - ret).
  assert (ret = 0 /\ 0 <= rc \/ rc = - ret /\ ret <> 0) as Hrc.
  { unfold rc. destruct Hcase as [[_ ->]|[_ [-> | ->]]]; [left|right|right]; done. }
  exists u', rc. split; [done|]. split; [done|].
  rewrite wait_returns_ok by (destruct Hcase as [[_ ->]|[_ [-> | ->]]]; lia).
  destruct (wait_next_gen gen timeout rc) as (Hg1 & _ & Hk').
  split; [done|]. apply (gwaits _ _ gen); simpl; rewrite ?Hq; try done.
  - unfold wait_next. by repeat case_match.
  - rewrite Hk', Hu, Hk. simpl. lia.
  - by rewrite Hu.
Qed.

Lemma wait_sleep_moves gen timeout r :
  t_pc l = WaitSleep gen timeout -> r ∈ wait_sleep i gen timeout s ->
  exists s' c, r = Ok (s', c) /\ gmoves i g e b s l g e b s' (go l c).
Proof.
  intros Hpc. assert (in_kernel l = 1%nat) as Hk by (unfold in_kernel; by rewrite Hpc).
  assert (0 < nwaiters (ulk s)) as Hn.
  { rewrite (gi_nw _ _ _ _ _ _ _ I). pose proof (isum_lookup (fun _ => in_kernel) _ _ _ Hl). lia. }
  pose proof (gi_ull _ _ _ _ _ _ _ I) as Hok. pose proof (gi_nodup _ _ _ _ _ _ _ I) as Hnd.
  unfold wait_sleep. destruct (ulk s) as [u|] eqn:Hu; [|simpl in Hn; lia].
  case_bool_decide as Hi.
  - assert (forall n ret, ret = EINTR \/ ret = ETIMEDOUT /\ timeout <> DISPATCH_TIME_FOREVER ->
      gmoves i g e b s l g e b
        {| dg_state := dg_state s; dg_notify := dg_notify s; do_ref_cnt := do_ref_cnt s;
           submitted := submitted s; intr := n;
           ulk := Some {| ull_owner := ull_owner u; ull_nwaiters := ull_nwaiters u;
                          ull_opcode := ull_opcode u; ull_waitq := leave i (ull_waitq u) |} |}
        (go l (Goto (WaitLeft gen timeout ret)))) as Hleft.
    { intros n ret Hret. apply (gwaits _ _ gen); simpl; rewrite ?Hpc, ?Hu; try done.
      - rewrite Hk. unfold in_kernel. simpl. lia.
      - by apply leave_NoDup.
      - intros j. rewrite elem_leave. simpl. tauto.
      - rewrite elem_leave. tauto. }
    rewrite elem_of_app. intros [Hr|Hr].
    + destruct (Z.eqb_spec timeout DISPATCH_TIME_FOREVER) as [|Hto]; [by apply elem_of_nil in Hr|].
      apply list_elem_of_singleton in Hr as ->. do 2 eexists. split; [done|]. apply Hleft. auto.
    + destruct (intr s) as [|n]; [by apply elem_of_nil in Hr|].
      apply list_elem_of_singleton in Hr as ->. do 2 eexists. split; [done|]. apply Hleft. auto.
  - intros ->%list_elem_of_singleton.
    destruct (wait_continue_moves 0 gen timeout) as (u' & rc & _ & _ & -> & Hm); [by left|by rewrite Hu|eauto].
Qed.

Lemma wait_left_moves gen timeout ret :
  t_pc l = WaitLeft gen timeout ret ->
  exists s' c, wait_continue ret gen timeout s = Ok (s', c) /\ gmoves i g e b s l g e b s' (go l c).
Proof.
  intros Hpc. destruct (gi_pc _ _ _ _ _ _ _ I i l Hl) as [Hp _]. rewrite Hpc in Hp.
  destruct (wait_continue_moves ret gen timeout) as (u' & rc & _ & _ & -> & Hm); [|apply gnot_queued; by rewrite Hpc|eauto].
  right. split; [done|]. tauto.
Qed.

Lemma wait_check_moves gen timeout t :
  t_pc l = WaitCheck gen timeout t -> gmoves i g e b s l g e b s (go l (wait_check gen timeout t s)).
Proof.
  intros Hpc. destruct (gi_pc _ _ _ _ _ _ _ I i l Hl) as [_ Hg]. rewrite Hpc in Hg.
  unfold wait_check. repeat case_match; apply gsame; gcounts; try done.
Qed.

Lemma wake_addr_moves st rel r :
  t_pc l = WakeAddr st rel -> r ∈ wake_addr i st rel s ->
  exists s' c, r = Ok (s', c) /\ gmoves i g e b s l g e b s' (go l c).
Proof.
  intros Hpc. unfold wake_addr. destruct (has_waiters st) eqn:Hws.
  2: { intros ->%list_elem_of_singleton. do 2 eexists. split; [done|].
       apply gsame; gcounts; rewrite ?Hws; try done. }
  pose proof (gi_ull _ _ _ _ _ _ _ I) as Hok.
  assert (~ i ∈ wq (ulk s)) as Hi by (apply gnot_queued; by rewrite Hpc).
  rewrite list_elem_of_fmap. intros ([u' rc] & -> & Hin).
  assert (wq u' = [] /\ nwaiters u' = nwaiters (ulk s) /\ ull_ok UL_COMPARE_AND_WAIT u' /\
          (rc = 0 \/ rc = - ENOENT)) as (Hq & Hn & Hok' & Hrc).
  { revert Hin. unfold ulock_wake. destruct (ulk s) as [u|].
    - destruct Hok as [Hpos Hop]. rewrite Hop, bool_decide_true by done. simpl.
      intros [= -> ->]%list_elem_of_singleton. simpl. auto.
    - intros [= -> ->]%list_elem_of_singleton. simpl. auto. }
  assert (dlock_wake_ret rc = Ok tt) as -> by (by destruct Hrc as [-> | ->]). simpl.
  do 2 eexists. split; [done|].
  split; simpl; rewrite ?Hq, ?Hn; gcounts; rewrite ?Hws; simpl; try done; auto; try lia.
  - apply (gi_ok _ _ _ _ _ _ _ I).
  - apply (gi_word _ _ _ _ _ _ _ I).
  - by apply NoDup_nil.
  - by intros j ?%elem_of_nil.
  - by intros ?%elem_of_nil.
Qed.

(** *** Every step *)

(** A call that the code refuses: one leave too many, or one enter. *)
Definition refused : Prop :=
  t_pc l = Idle /\ ((exists cs, todo l = Leave :: cs) /\ e = 0 \/
                    (exists cs, todo l = Enter :: cs) /\ e = 2 ^ 30 - 1).

Lemma call_gmoves c cs :
  t_pc l = Idle -> todo l = c :: cs ->
  (exists s' c' g' e', call_start c s = Ok (s', c') /\
    gmoves i g e b s l g' e' b s' (go {| t_pc := Idle; todo := cs; log := log l |} c')) \/
  (call_start c s = Crash AssertFail /\ refused).
Proof.
  intros Hpc Htodo. destruct c as [| |timeout|id]; simpl.
  - destruct (enter_moves cs Hpc Htodo) as [(s' & c & -> & Hm)|[-> He]]; [left; eauto 6|right].
    split; [done|]. split; [done|]. right. eauto.
  - destruct (gleave_moves cs Hpc Htodo) as [(s' & c & g' & e' & -> & Hm)|[-> He]]; [left; eauto 6|right].
    split; [done|]. split; [done|]. left. eauto.
  - left. exists s, (Goto (WaitRmw timeout)), g, e. split; [done|].
    apply gplain; gcounts; simpl; try done; auto; try lia; [apply (gi_ok _ _ _ _ _ _ _ I)|apply (gi_word _ _ _ _ _ _ _ I)].
  - left. destruct (notify_push id s) as [s' c] eqn:He. exists s', c, g, e. split; [done|].
    by apply (notify_push_moves id).
Qed.

Lemma pc_gmoves tids r :
  t_pc l <> Idle -> r ∈ pc_next tids i s (t_pc l) ->
  exists s' c b', r = Ok (s', c) /\ gmoves i g e b s l g e b' s' (go l c).
Proof.
  intros Hidle Hr. destruct (t_pc l) eqn:Hp; simpl in Hr; [done|..];
    try apply list_elem_of_singleton in Hr as ->.
  - do 3 eexists. split; [done|]. apply retain_moves. auto.
  - destruct (leave_cas old_state s) as [s' c] eqn:He.
    destruct (leave_cas_moves old_state s' c Hp He) as [b' Hm]. eauto 6.
  - destruct (wake_notify_moves st needs_release r Hp Hr) as (s' & c & -> & Hm). eauto 6.
  - destruct (wake_addr_moves st needs_release r Hp Hr) as (s' & c & -> & Hm). eauto 6.
  - destruct (wake_release_moves refs Hp) as (s' & c & -> & Hm). eauto 6.
  - do 3 eexists. split; [done|]. apply retain_moves. auto.
  - destruct (notify_rmw s) as [s' c] eqn:He. destruct (notify_rmw_moves s' c Hp He) as [b' Hm]. eauto 6.
  - destruct (wait_rmw timeout s) as [s' c] eqn:He. destruct (wait_rmw_moves timeout s' c Hp He) as [b' Hm]. eauto 6.
  - destruct (wait_slow_moves tids gen timeout r Hp Hr) as (s' & c & -> & Hm). eauto 6.
  - destruct (wait_sleep_moves gen timeout r Hp Hr) as (s' & c & -> & Hm). eauto 6.
  - destruct (wait_left_moves gen timeout ret Hp) as (s' & c & -> & Hm). eauto 6.
  - do 3 eexists. split; [done|]. by apply wait_check_moves.
Qed.

Lemma next_gmoves tids r :
  r ∈ next tids i s l ->
  (exists s' l' g' e' b', r = Ok (s', l') /\ gmoves i g e b s l g' e' b' s' l') \/
  (r = Crash AssertFail /\ refused).
Proof.
  unfold next. destruct (decide (t_pc l = Idle)) as [Hpc|Hpc].
  - rewrite Hpc. destruct (todo l) as [|c cs] eqn:Htodo; [by intros ?%elem_of_nil|].
    intros ->%list_elem_of_singleton.
    destruct (call_gmoves c cs Hpc Htodo) as [(s' & c' & g' & e' & -> & Hm)|[-> Hx]]; [left|by right].
    simpl. eauto 8.
  - intros Hr. assert (r ∈ continue l <$> pc_next tids i s (t_pc l)) as Hr' by (by destruct (t_pc l)).
    apply list_elem_of_fmap in Hr' as (r0 & -> & Hr0). left.
    destruct (pc_gmoves tids r0 Hpc Hr0) as (s' & c & b' & -> & Hm). simpl. eauto 8.
Qed.

End gstep.

Lemma ginv_step tids ids bal c c' : GInv ids bal c -> step (next tids) c c' -> GInv ids bal c'.
Proof.
  intros (g & e & b & I) Hs. destruct Hs as [i s ls l s' l' Hl Hn]. simpl in *.
  destruct (next_gmoves ids bal i g e b s ls l I Hl tids _ Hn)
    as [(? & ? & g' & e' & b' & [= <- <-] & Hm)|[? _]]; [|done].
  exists g', e', b'. by eapply gmoves_inv.
Qed.

(** ** The start *)

Definition prog_count (p : call -> bool) (progs : list (list call)) : nat := tsum (countb p) progs.

Lemma zsum_zero f ls : (forall l, l ∈ ls -> f l = 0) -> zsum f ls = 0.
Proof.
  induction ls as [|l ls IH]; intros Hz; simpl; [done|]. rewrite (Hz l), IH; [done| |by left].
  intros x Hx. apply Hz. by right.
Qed.

Lemma create_word k : 0 <= k < 2 ^ 30 -> dg_state (dispatch_group_create_with_count k 0) = gword 0 k 0.
Proof.
  intros Hk. simpl. unfold gword, DISPATCH_GROUP_VALUE_INTERVAL, u32. destruct (Z.eqb_spec k 0); zbits.
Qed.

Lemma ginv_start k n progs :
  0 <= k < 2 ^ 30 -> Z.of_nat (prog_count is_leave progs) < 2 ^ 32 ->
  GInv (fun id => prog_count (is_notify id) progs)
       (k + Z.of_nat (prog_count is_enter progs) - Z.of_nat (prog_count is_leave progs))
       (start k n progs).
Proof.
  intros Hk Hlv. exists 0, k, 0.
  assert (forall f : thread -> nat, (forall cs, f {| t_pc := Idle; todo := cs; log := [] |} = 0%nat) ->
    tsum f (c_thr (start k n progs)) = 0%nat) as Hz.
  { intros f Hf. unfold start; simpl. rewrite isum_fmap. apply isum_zero. intros i cs _. apply Hf. }
  assert (forall i l, c_thr (start k n progs) !! i = Some l -> t_pc l = Idle) as Hidle.
  { intros i l. unfold start; simpl. rewrite list_lookup_fmap. by destruct (progs !! i); intros [= <-]. }
  split.
  - unfold gword_ok. lia.
  - apply create_word. done.
  - unfold prog_count, enters, leaves, start; simpl. by rewrite !isum_fmap.
  - unfold leaves, start; simpl. by rewrite isum_fmap.
  - rewrite !Hz by done. done.
  - simpl. rewrite zsum_zero; [destruct (k =? 0); done|]. intros l (cs & -> & _)%list_elem_of_fmap. done.
  - done.
  - intros i l Hl. rewrite (Hidle i l Hl). by split.
  - intros id. simpl. unfold prog_count, to_notify. rewrite isum_fmap. done.
  - rewrite Hz by done. done.
  - done.
  - by apply NoDup_nil.
  - by intros i ?%elem_of_nil.
  - by intros i l gen ?%elem_of_nil.
Qed.

