(* ===== verification/GroupThms.v ===== *)
(** * What groups guarantee

    Every call returns, save a wait without time-out on a group that stays
    entered; every notification is submitted exactly once, and none is left
    behind when the group becomes empty.  A notification may be submitted too
    early, while the group is entered ([group_notify_early]). *)

From S2P Require Import Conc Ulock Lock Group GroupInv Prelude.
Import Ulock Group.

(** ** The measure of a run *)

Definition group_weight (l : thread) : nat :=
  7 * length (todo l) +
  match t_pc l with
  | Idle => 0
  | EnterRetain => 1
  | LeaveCas _ => 4
  | WakeNotify _ _ => 3
  | WakeAddr _ _ => 2
  | WakeRelease _ => 1
  | NotifyRetain => 6
  | NotifyRmw => 5
  | WaitRmw _ => 2
  | WaitSlow _ _ | WaitSleep _ _ | WaitLeft _ _ _ | WaitCheck _ _ _ => 1
  end.

Definition group_rank (i : nat) (w : Z) (q : list nat) (l : thread) : nat :=
  match t_pc l with
  | LeaveCas old => if w =? old then 1 else 2
  | WaitSlow gen _ => if gen =? dg_state_gen w then 3 else 6
  | WaitSleep _ _ => if decide (i ∈ q) then 2 else 5
  | WaitLeft _ _ ret => if ret =? ETIMEDOUT then 1 else 7
  | WaitCheck _ _ timed_out => if timed_out then 0 else 4
  | _ => 0
  end.

Definition group_measure (c : conf shared thread) : nat :=
  let s := c_sh c in
  (tsum group_weight (c_thr c) + intr s) * (7 * length (c_thr c) + 1)
  + isum (fun i => group_rank i (dg_state s) (wq (ulk s))) (c_thr c).

Lemma group_rank_bound i w q l : (group_rank i w q l <= 7)%nat.
Proof. unfold group_rank. destruct (t_pc l); repeat case_match; lia. Qed.

(** The effect of a step on the measure. *)
Definition group_descends (i : nat) (s : shared) (l : thread) (s' : shared) (l' : thread) : Prop :=
  (group_weight l' + intr s' < group_weight l + intr s)%nat \/
  (group_weight l' + intr s' = group_weight l + intr s)%nat /\
  dg_state s' = dg_state s /\ (forall j, j <> i -> j ∈ wq (ulk s') <-> j ∈ wq (ulk s)) /\
  (group_rank i (dg_state s) (wq (ulk s')) l' < group_rank i (dg_state s) (wq (ulk s)) l)%nat.

Section group_descends.
  Context (ids : nat -> nat) (bal : Z) (i : nat) (g e b : Z) (s : shared) (ls : list thread) (l : thread).
  Context (I : GI ids bal g e b s ls) (Hl : ls !! i = Some l).

#[local] Ltac lighter Hpc := left; unfold group_weight; rewrite ?Hpc; simpl; lia.

Lemma call_descends c cs s' c' :
  t_pc l = Idle -> todo l = c :: cs -> call_start c s = Ok (s', c') ->
  group_descends i s l s' (go {| t_pc := Idle; todo := cs; log := log l |} c').
Proof.
  intros Hpc Htodo Hc. left. unfold group_weight. rewrite Hpc, Htodo. revert Hc.
  destruct c; simpl; unfold dispatch_group_enter, dispatch_group_leave, notify_push;
    repeat case_match; intros; simplify_eq/=; lia.
Qed.

Lemma leave_cas_descends old s' c :
  t_pc l = LeaveCas old -> leave_cas old s = (s', c) -> group_descends i s l s' (go l c).
Proof.
  intros Hpc. unfold leave_cas. case_match; [intros [= <- <-]; lighter Hpc|].
  destruct (Z.eqb_spec (dg_state s) old) as [Heq|Hne]; intros [= <- <-]; [lighter Hpc|].
  right. unfold group_weight, group_rank. rewrite Hpc. simpl.
  rewrite Z.eqb_refl, (proj2 (Z.eqb_neq _ _)) by done. split_and!; [lia|done|done|lia].
Qed.

Lemma wait_slow_descends tids gen timeout s' c :
  t_pc l = WaitSlow gen timeout -> Ok (s', c) ∈ wait_slow tids i gen timeout s ->
  group_descends i s l s' (go l c).
Proof.
  intros Hpc. pose proof (gi_ull _ _ _ _ _ _ _ I) as Hu.
  assert (0 <= nwaiters (ulk s)) as Hnn by (rewrite (gi_nw _ _ _ _ _ _ _ I); lia).
  unfold wait_slow. rewrite elem_of_cons. intros [Hr|Hr].
  2: { destruct (timeout =? DISPATCH_TIME_FOREVER); [by apply elem_of_nil in Hr|].
       apply list_elem_of_singleton in Hr as [= -> ->]. right. unfold group_weight, group_rank.
       rewrite Hpc. simpl. split_and!; [lia|done|done|case_match; lia]. }
  revert Hr. destruct (decide (gen = dg_state_gen (dg_state s))) as [Hg|Hne].
  - destruct (ulock_wait_match_plain tids i gen (ulk s) Hu) as (u & Hwait & _ & _ & _ & Hq).
    rewrite <- Hg, Hwait. intros [= -> ->]. right. unfold group_weight, group_rank. rewrite Hpc. simpl.
    rewrite <- Hg, Z.eqb_refl, decide_True by (rewrite Hq, elem_of_app, list_elem_of_singleton; auto).
    split_and!; [lia|done| |lia]. intros j Hj. rewrite Hq, elem_of_app, list_elem_of_singleton. tauto.
  - rewrite ulock_wait_mismatch by congruence. rewrite wait_returns_ok by auto. intros [= -> ->].
    right. unfold group_weight, group_rank, wait_next. rewrite Hpc, (proj2 (Z.leb_le 0 _)) by done. simpl.
    rewrite (proj2 (Z.eqb_neq _ _)) by done. split_and!; [lia|done|done|lia].
Qed.

(** The thread returns from the kernel, and was asleep or not. *)
Lemma wait_continue_descends ret gen timeout s' c :
  t_pc l = WaitSleep gen timeout /\ ret = 0 \/
  t_pc l = WaitLeft gen timeout ret /\ (ret = EINTR \/ ret = ETIMEDOUT) ->
  ~ i ∈ wq (ulk s) ->
  wait_continue ret gen timeout s = Ok (s', c) -> group_descends i s l s' (go l c).
Proof.
  intros Hcase Hi.
  destruct (wait_continue_moves ids bal i g e b s ls l I Hl ret gen timeout Hcase Hi)
    as (u' & rc & Hrc & Hq & -> & _). intros [= <- <-].
  right. unfold group_weight, group_rank. simpl. rewrite Hq.
  destruct Hcase as [[Hpc Hret]|[Hpc Hret]]; rewrite Hpc.
  - destruct Hrc as [[_ Hrc]|[_ ?]]; [|done]. unfold wait_next. rewrite (proj2 (Z.leb_le 0 _)) by done.
    rewrite decide_False by done. split_and!; [lia|done|done|lia].
  - destruct Hrc as [[H0 _]|[-> _]]; [by destruct Hret as [-> | ->]|]. unfold wait_next.
    destruct Hret as [-> | ->]; simpl; repeat case_match; split_and!; done || lia.
Qed.

Lemma wait_sleep_descends gen timeout s' c :
  t_pc l = WaitSleep gen timeout -> Ok (s', c) ∈ wait_sleep i gen timeout s ->
  group_descends i s l s' (go l c).
Proof.
  intros Hpc. pose proof (wait_continue_descends 0 gen timeout s' c) as Hcont.
  unfold wait_sleep. destruct (ulk s) as [u|] eqn:Hu; [|by intros ?%list_elem_of_singleton].
  case_bool_decide as Hi.
  2: { intros Hr%list_elem_of_singleton. apply Hcont; auto. }
  rewrite elem_of_app. intros [Hr|Hr].
  - destruct (timeout =? DISPATCH_TIME_FOREVER); [by apply elem_of_nil in Hr|].
    apply list_elem_of_singleton in Hr as [= -> ->]. right. unfold group_weight, group_rank. rewrite Hpc, Hu. simpl.
    rewrite decide_True by done. split_and!; [lia|done| |lia]. intros j Hj. rewrite elem_leave. tauto.
  - destruct (intr s) as [|n] eqn:Hn; [by apply elem_of_nil in Hr|].
    apply list_elem_of_singleton in Hr as [= -> ->]. left. unfold group_weight. rewrite Hpc, Hn. simpl. lia.
Qed.

Lemma wait_check_descends gen timeout t :
  t_pc l = WaitCheck gen timeout t -> group_descends i s l s (go l (wait_check gen timeout t s)).
Proof.
  intros Hpc. unfold wait_check.
  destruct (Z.eqb_spec gen (dg_state_gen (dg_state s))) as [Hg|Hg]; simpl; [|lighter Hpc].
  destruct t; [lighter Hpc|]. right. unfold group_weight, group_rank. rewrite Hpc. simpl.
  rewrite (proj2 (Z.eqb_eq _ _)) by done. split_and!; [lia|done|done|lia].
Qed.

Lemma wake_descends st rel s' c :
  t_pc l = WakeNotify st rel /\ Ok (s', c) ∈ wake_notify st rel s \/
  t_pc l = WakeAddr st rel /\ Ok (s', c) ∈ wake_addr i st rel s -> group_descends i s l s' (go l c).
Proof.
  intros [[Hpc Hr]|[Hpc Hr]]; revert Hr.
  - unfold wake_notify. repeat case_match; intros Hr; try (by apply elem_of_nil in Hr);
      apply list_elem_of_singleton in Hr as [= -> ->]; lighter Hpc.
  - unfold wake_addr. case_match; [|intros [= -> ->]%list_elem_of_singleton; lighter Hpc].
    rewrite list_elem_of_fmap. intros ([u rc] & He & _). revert He.
    destruct (dlock_wake_ret rc); simpl; [|done]. intros [= -> ->]. lighter Hpc.
Qed.

Lemma rmw_descends s' c :
  t_pc l = NotifyRmw /\ notify_rmw s = (s', c) \/
  (exists timeout, t_pc l = WaitRmw timeout /\ wait_rmw timeout s = (s', c)) -> group_descends i s l s' (go l c).
Proof.
  intros [[Hpc Hr]|(timeout & Hpc & Hr)]; revert Hr.
  - unfold notify_rmw, rmw_atomic, notify_body. repeat case_match; intros; simplify_eq/=; lighter Hpc.
  - unfold wait_rmw, rmw_atomic, wait_body. repeat case_match; intros; simplify_eq/=; lighter Hpc.
Qed.

Lemma group_next_descends tids s' l' : Ok (s', l') ∈ next tids i s l -> group_descends i s l s' l'.
Proof.
  unfold next. destruct (decide (t_pc l = Idle)) as [Hpc|Hpc].
  - rewrite Hpc. destruct (todo l) as [|c cs] eqn:Htodo; [by intros ?%elem_of_nil|].
    intros Hr%list_elem_of_singleton. revert Hr.
    destruct (call_start c s) as [[s0 c0]|] eqn:Hc; simpl; [|done]. intros [= -> ->]. by eapply call_descends.
  - intros Hr. assert (Ok (s', l') ∈ continue l <$> pc_next tids i s (t_pc l)) as Hr' by (by destruct (t_pc l)).
    apply list_elem_of_fmap in Hr' as ([[s0 c]|] & He & Hr0); [|done]. injection He as -> ->.
    destruct (t_pc l) eqn:Hp; simpl in Hr0; [done|..];
      try (apply list_elem_of_singleton in Hr0).
    + injection Hr0 as -> ->. lighter Hp.
    + injection Hr0 as Hr0. by eapply leave_cas_descends.
    + eapply wake_descends; eauto.
    + eapply wake_descends; eauto.
    + revert Hr0. unfold wake_release. intros [= -> ->]. case_match; lighter Hp.
    + injection Hr0 as -> ->. lighter Hp.
    + injection Hr0 as Hr0. eapply rmw_descends; eauto.
    + injection Hr0 as Hr0. eapply rmw_descends; eauto.
    + by eapply wait_slow_descends.
    + by eapply wait_sleep_descends.
    + destruct (gi_pc _ _ _ _ _ _ _ I i l Hl) as [Hret _]. rewrite Hp in Hret.
      eapply wait_continue_descends; [right; split; [done|tauto]|eapply gnot_queued; eauto; by rewrite Hp|done].
    + injection Hr0 as -> ->. by apply wait_check_descends.
Qed.

End group_descends.

Section group_runs.
  Context (tids : list Z) (ids : nat -> nat) (bal : Z).

Lemma group_measure_step c c' :
  GInv ids bal c -> step (next tids) c c' -> (group_measure c' < group_measure c)%nat.
Proof.
  intros (g & e & b & I) Hs. destruct Hs as [i s ls l s' l' Hl Hn]. simpl in I.
  pose proof (group_next_descends ids bal i g e b s ls l I Hl tids s' l' Hn) as Hd.
  unfold group_measure; simpl. rewrite length_insert.
  pose proof (isum_insert (fun _ => group_weight) ls i l l' Hl) as Hw.
  assert (isum (fun i => group_rank i (dg_state s') (wq (ulk s'))) (<[i:=l']> ls) <= 7 * length ls)%nat as Hb.
  { rewrite <- (length_insert ls i l'). apply isum_bound. intros; apply group_rank_bound. }
  destruct Hd as [Hd|(Hd & Hword & Hq & Hr)]; [nia|].
  pose proof (isum_update (fun i => group_rank i (dg_state s) (wq (ulk s)))
    (fun i => group_rank i (dg_state s') (wq (ulk s'))) ls i l l' Hl) as Hrank.
  specialize (Hrank ltac:(intros j x Hj Hx; unfold group_rank; rewrite Hword;
    destruct (t_pc x); try done; by rewrite (decide_ext _ _ _ _ (Hq j Hj)))).
  rewrite Hword in *.
  assert (tsum group_weight (<[i:=l']> ls) + intr s' = tsum group_weight ls + intr s)%nat as Heq by lia.
  rewrite Heq. lia.
Qed.

Lemma group_next_nil i s l :
  next tids i s l = [] ->
  (t_pc l = Idle /\ todo l = []) \/
  (exists st rel, t_pc l = WakeNotify st rel /\ has_notifs st = true /\ dg_notify s = []) \/
  (exists gen, t_pc l = WaitSleep gen DISPATCH_TIME_FOREVER /\ i ∈ wq (ulk s)).
Proof.
  unfold next. intros Hn. destruct (t_pc l) eqn:Hpc; simpl in Hn; try done.
  - left. by destruct (todo l).
  - right; left. unfold wake_notify in Hn. destruct (has_notifs st) eqn:Hh; [|done].
    destruct (dg_notify s) eqn:Hd; [eauto|done].
  - unfold wake_addr in Hn. case_match; [|done].
    pose proof (wake_nonempty UL_COMPARE_AND_WAIT true i (ulk s)). by destruct (ulock_wake _ _ _ _).
  - right; right. unfold wait_sleep in Hn. destruct (ulk s) as [u|]; [|done]. simpl.
    case_bool_decide; [|done].
    destruct (Z.eqb_spec timeout DISPATCH_TIME_FOREVER) as [->|]; [|done]. eauto.
Qed.

(** A thread that has nothing more to do, or sleeps for ever, or is about to
    be refused. *)
Definition at_rest (e : Z) (s : shared) (i : nat) (l : thread) : Prop :=
  (t_pc l = Idle /\ todo l = []) \/
  (exists gen, t_pc l = WaitSleep gen DISPATCH_TIME_FOREVER /\ i ∈ wq (ulk s)) \/
  (refused e l /\ Crash AssertFail ∈ next tids i s l).

Lemma group_at_rest g e b s ls :
  GI ids bal g e b s ls -> nf (step (next tids)) (Conf s ls) ->
  forall i l, ls !! i = Some l -> at_rest e s i l.
Proof.
  intros I Hnf i l Hl. destruct (next tids i s l) as [|r rs] eqn:Hn.
  - destruct (group_next_nil i s l Hn) as [?|[(st & rel & Hpc & Hh & Hd)|?]]; [by left| |by right; left].
    by destruct (capture_nonempty ids bal i g e b s ls l I Hl st rel Hpc Hh).
  - destruct (next_gmoves ids bal i g e b s ls l I Hl tids r) as [(s' & l' & _ & _ & _ & -> & _)|[-> Hx]];
      [rewrite Hn; by left| |].
    + exfalso. eapply nf_next; [done..|]. rewrite Hn. by left.
    + right; right. split; [done|]. rewrite Hn. by left.
Qed.

(** Nobody is about to do anything for anybody else. *)
Lemma rest_counts e s ls :
  (forall i l, ls !! i = Some l -> at_rest e s i l) ->
  tsum pending ls = 0%nat /\ tsum capturing ls = 0%nat /\ tsum waking ls = 0%nat /\
  tsum cas_waiters ls = 0%nat /\ tsum cas_clears ls = 0%nat /\ zsum holds ls = 0.
Proof.
  intros Hst.
  assert (forall l, l ∈ ls -> t_pc l = Idle \/ exists gen, t_pc l = WaitSleep gen DISPATCH_TIME_FOREVER) as Hpc.
  { intros l (i & Hl)%list_elem_of_lookup. destruct (Hst i l Hl) as [[? _]|[(gen & ? & _)|[[? _] _]]]; eauto. }
  assert (forall f : thread -> nat, (forall l, t_pc l = Idle \/ (exists gen, t_pc l = WaitSleep gen DISPATCH_TIME_FOREVER) ->
    f l = 0%nat) -> tsum f ls = 0%nat) as Hz.
  { intros f Hf. apply isum_zero. intros i l Hl. apply Hf, Hpc. by eapply list_elem_of_lookup_2. }
  split_and!; try apply Hz.
  1-5: unfold pending, capturing, waking, cas_waiters, cas_clears; by intros l [-> |[gen ->]].
  apply zsum_zero. intros l Hl. unfold holds. by destruct (Hpc l Hl) as [-> |[gen ->]].
Qed.

Lemma group_stuck g e b s ls :
  GI ids bal g e b s ls -> nf (step (next tids)) (Conf s ls) ->
  (forall i l, ls !! i = Some l ->
    (t_pc l = Idle /\ todo l = []) \/
    (t_pc l = WaitSleep g DISPATCH_TIME_FOREVER /\ e <> 0) \/
    Crash AssertFail ∈ next tids i s l) /\
  (e = 0 -> b = 0 /\ dg_notify s = [] /\ do_ref_cnt s = 0).
Proof.
  intros I Hnf. pose proof (group_at_rest g e b s ls I Hnf) as Hst.
  destruct (rest_counts e s ls Hst) as (H1 & H2 & H3 & H4 & H5 & H6). split.
  - intros i l Hl. destruct (Hst i l Hl) as [?|[(gen & Hpc & Hq)|[_ ?]]]; [by left| |by right; right].
    right; left. destruct (gi_pc _ _ _ _ _ _ _ I i l Hl) as [_ Hg]. rewrite Hpc in Hg.
    destruct (Hg gen eq_refl) as [Hle Hcur]. destruct (Z.eq_dec gen g) as [Hgg|Hne].
    { destruct (Hcur Hgg) as [_ He]. by rewrite Hpc, Hgg. }
    exfalso. destruct (gi_stale _ _ _ _ _ _ _ I i l gen Hq Hl) as [?|[_ ?]]; [by rewrite Hpc|lia|lia|lia].
  - intros He. assert (b = 0) as Hb.
    { destruct (Z.eq_dec b 0); [done|]. pose proof (gi_zero _ _ _ _ _ _ _ I He). lia. }
    split; [done|]. pose proof (gi_resp _ _ _ _ _ _ _ I) as Hr. pose proof (gi_refs _ _ _ _ _ _ _ I) as Hc.
    rewrite Hb, H1, H2 in Hr. rewrite Hb, He, H6 in Hc. split; [by destruct (dg_notify s)|done].
Qed.

End group_runs.

(** ** The guarantees *)

(** [C14] However the calls on a group that starts with fewer than 2^30 enters
    and is left fewer than 2^32 times interleave, the process stops
    only for a leave of a group that is not entered, or for the enter that
    would overflow the counter; the value is what the calls made so far add
    up to; the generation moves, by one, exactly when the value goes to 0,
    which it does from 1; a thread that waits for the current generation waits for a group
    that is entered; and every notification is still to be asked for, in the
    list, or submitted, once. *)
Theorem group_safe tids k n progs c :
  0 <= k < 2 ^ 30 -> Z.of_nat (prog_count is_leave progs) < 2 ^ 32 ->
  rtc (step (next tids)) (start k n progs) c ->
  let s := c_sh c in
  let value := dg_state_value (dg_state s) in
  (forall i l w, c_thr c !! i = Some l -> Crash w ∈ next tids i s l -> refused value l) /\
  value + Z.of_nat (tsum enters (c_thr c)) - Z.of_nat (tsum leaves (c_thr c)) =
    k + Z.of_nat (prog_count is_enter progs) - Z.of_nat (prog_count is_leave progs) /\
  (forall c', step (next tids) c c' ->
     (dg_state_gen (dg_state (c_sh c')) = dg_state_gen (dg_state s) /\
      (value <> 0 -> dg_state_value (dg_state (c_sh c')) <> 0)) \/
     (dg_state_gen (dg_state (c_sh c')) = dg_state_gen (dg_state s) + 1 /\
      value = 1 /\ dg_state_value (dg_state (c_sh c')) = 0)) /\
  (forall i l gen, c_thr c !! i = Some l -> wait_gen (t_pc l) = Some gen ->
     gen <= dg_state_gen (dg_state s) /\ (gen = dg_state_gen (dg_state s) -> value <> 0)) /\
  (forall id, (occ id (sub_id <$> submitted s) + occ id (dg_notify s) + tsum (to_notify id) (c_thr c) =
               prog_count (is_notify id) progs)%nat).
Proof.
  intros Hk Hlv Hr s value.
  destruct (inv_rtc _ (GInv _ _) _ _ (ginv_step tids _ _) Hr (ginv_start k n progs Hk Hlv)) as (g & e & b & I).
  pose proof (gi_ok _ _ _ _ _ _ _ I) as Hok. pose proof (gi_word _ _ _ _ _ _ _ I) as Hw.
  unfold value, s in *. rewrite Hw, gword_value, gword_gen by done. split_and!.
  - intros i l w Hl Hx.
    by destruct (next_gmoves _ _ i g e b _ _ l I Hl tids _ Hx) as [(? & ? & ? & ? & ? & ? & _)|[_ ?]].
  - apply (gi_bal _ _ _ _ _ _ _ I).
  - intros c' Hs. destruct Hs as [i s0 ls l s' l' Hl Hn]. simpl in *.
    destruct (next_gmoves _ _ i g e b _ _ l I Hl tids _ Hn) as [(? & ? & g' & e' & b' & [= <- <-] & Hm)|[? _]]; [|done].
    rewrite (gm_word _ _ _ _ _ _ _ _ _ _ _ Hm).
    pose proof (gm_ok _ _ _ _ _ _ _ _ _ _ _ Hm) as Hok'. rewrite gword_gen, gword_value by done.
    destruct (gm_gen _ _ _ _ _ _ _ _ _ _ _ Hm) as [Hg|(? & [? ?] & _)]; [left|by right]. split; [done|].
    intros Hne. by destruct (gm_wait _ _ _ _ _ _ _ _ _ _ _ Hm Hg Hne).
  - intros i l gen Hl Hg. destruct (gi_pc _ _ _ _ _ _ _ I i l Hl) as [_ Hgen].
    destruct (Hgen gen Hg) as [? Hcur]. split; [done|]. intros ?. by apply Hcur.
  - apply (gi_ids _ _ _ _ _ _ _ I).
Qed.

(** [C15] No run goes on for ever.  When a run cannot go on, each thread has made
    all its calls, or sleeps without time-out on a group that is entered, or
    is about to be refused; and when the group is then not entered, every
    notification asked for has been submitted, no reference is left, and the
    group may be disposed of. *)
Theorem group_live tids k n progs :
  0 <= k < 2 ^ 30 -> Z.of_nat (prog_count is_leave progs) < 2 ^ 32 ->
  sn (step (next tids)) (start k n progs) /\
  forall c, rtc (step (next tids)) (start k n progs) c -> nf (step (next tids)) c ->
    let s := c_sh c in
    let value := dg_state_value (dg_state s) in
    (forall i l, c_thr c !! i = Some l ->
      (t_pc l = Idle /\ todo l = []) \/
      (t_pc l = WaitSleep (dg_state_gen (dg_state s)) DISPATCH_TIME_FOREVER /\ value <> 0) \/
      Crash AssertFail ∈ next tids i s l) /\
    (value = 0 -> dg_notify s = [] /\ do_ref_cnt s = 0 /\ dispatch_group_dispose s = Ok tt).
Proof.
  intros Hk Hlv. pose proof (ginv_start k n progs Hk Hlv) as Hstart. split.
  - eapply (sn_measure (next tids) (GInv _ _) group_measure); [|exact Hstart].
    intros c1 c2 I Hs. split; [by eapply ginv_step|by eapply group_measure_step].
  - intros c Hr Hnf s value.
    destruct (inv_rtc _ (GInv _ _) _ _ (ginv_step tids _ _) Hr Hstart) as (g & e & b & I).
    pose proof (gi_ok _ _ _ _ _ _ _ I) as Hok. pose proof (gi_word _ _ _ _ _ _ _ I) as Hw.
    unfold value, s in *. destruct c as [s0 ls]; simpl in *.
    destruct (group_stuck tids _ _ g e b s0 ls I Hnf) as [Hthr Hzero].
    rewrite Hw, gword_value, gword_gen by done. split; [done|]. intros He.
    destruct (Hzero He) as (Hb & ? & ?). split_and!; [done..|].
    unfold dispatch_group_dispose. rewrite Hw, gword_u32_zero by done. by rewrite He, Hb.
Qed.

(** Two threads that enter, ask to be notified and leave, and a schedule. *)
Definition early_progs : list (list call) := [[Enter; Notify 1; Leave]; [Enter; Notify 2; Leave]].
Definition early_sched : list (nat * nat) :=
  [(0, 0); (0, 0); (0, 0); (0, 0); (0, 0); (0, 0); (0, 0);
   (1, 0); (1, 0); (1, 0);
   (0, 0)]%nat.

(** A notification may be submitted while the group is entered: the first
    thread leaves, the group is empty and its flag for notifications is
    cleared; the second enters, and its notification joins the list that the
    first is about to submit; it is submitted while its own thread is in the
    group. *)
Example group_notify_early :
  exists c, exec (next []) early_sched (start 0 0 early_progs) = Some c /\
    {| sub_id := 2; sub_value := 1 |} ∈ submitted (c_sh c).
Proof. eexists. split; [vm_compute; reflexivity|]. simpl. right. by left. Qed.

(** *** A run with a waiter and a notification *)

Definition group_progs : list (list call) := [[Enter; Leave]; [Wait DISPATCH_TIME_FOREVER]; [Notify 7]].

(** The second thread sleeps, the third leaves its notification; the leave of
    the first submits the one and wakes the other. *)
Definition group_sched : list (nat * nat) :=
  [(0, 0); (0, 0); (1, 0); (1, 0); (1, 0); (2, 0); (2, 0); (2, 0);
   (0, 0); (0, 0); (0, 0); (0, 0); (0, 0); (1, 0); (1, 0)]%nat.

Definition group_end : conf shared thread :=
  default (start 0 0 group_progs) (exec (next []) group_sched (start 0 0 group_progs)).

Example group_run :
  (fun c => (log <$> c_thr c, c_sh c)) <$> exec (next []) group_sched (start 0 0 group_progs)
  = Some ([[]; [0]; []],
          {| dg_state := 2 ^ 32; dg_notify := []; do_ref_cnt := 0;
             submitted := [ {| sub_id := 7; sub_value := 0 |} ]; ulk := None; intr := 0 |}).
Proof. vm_compute. reflexivity. Qed.

Lemma group_safe_witness :
  dg_state_value (dg_state (c_sh group_end)) + Z.of_nat (tsum enters (c_thr group_end))
    - Z.of_nat (tsum leaves (c_thr group_end)) = 0 /\
  (occ 7 (sub_id <$> submitted (c_sh group_end)) + occ 7 (dg_notify (c_sh group_end))
     + tsum (to_notify 7) (c_thr group_end) = 1)%nat.
Proof.
  destruct (group_safe [] 0 0 group_progs group_end) as (_ & Hval & _ & _ & Hids).
  - lia.
  - vm_compute. reflexivity.
  - apply (exec_rtc (next []) group_sched). vm_compute. reflexivity.
  - exact (conj Hval (Hids 7%nat)).
Defined.

Lemma group_live_witness : sn (step (next [])) (start 3 5 group_progs).
Proof.
  apply (group_live [] 3 5 group_progs).
  - lia.
  - vm_compute. reflexivity.
Defined.
