(* ===== verification/ThreadEvent.v ===== *)
(** * Thread events

    [dispatch_thread_event_s] of libdispatch (src/shims/lock.h and
    src/shims/lock.c): one thread waits for an event, once, and another
    signals it, once.  The value is 0 at the start and at the end, 1 when the
    event has been signalled first, and all ones when it has been waited for
    first.  The waiter sleeps on it in the kernel, and destroys the event when
    it returns: the signaller may still be on its way into the kernel then. *)

From S2P Require Import Conc Ulock Prelude.

Module ThreadEvent.
Import Ulock.

Definition UINT32_MAX : Z := 2 ^ 32 - 1.

Record shared := { dte_value : Z; ulk : option ull; intr : nat }.

Definition set_value (v : Z) (s : shared) : shared := {| dte_value := v; ulk := ulk s; intr := intr s |}.
Definition set_ulk (u : option ull) (s : shared) : shared :=
  {| dte_value := dte_value s; ulk := u; intr := intr s |}.

Inductive pc :=
  | ToSignal
  | SignalSlow
  | ToWait
  | WaitSlow           (* the load in the loop of the slow path *)
  | WaitUlock          (* the system call *)
  | WaitSleep
  | WaitInterrupted
  | Destroy
  | Done.

(** [_dispatch_thread_event_init]. *)
Definition thread_event_init (n : nat) : shared := {| dte_value := 0; ulk := None; intr := n |}.

(** [_dispatch_thread_event_signal]. *)
Definition thread_event_signal (s : shared) : shared * pc :=
  let old := dte_value s in
  let s := set_value (u32 (old + 1)) s in
  if old =? 0 then (s, Done) else (s, SignalSlow).

(** [_dispatch_thread_event_signal_slow]. *)
Definition thread_event_signal_slow (i : nat) (s : shared) : list (res (shared * pc)) :=
  (fun '(u, rc) => let! _ := dlock_wake_ret rc in Ok (set_ulk u s, Done))
    <$> ulock_wake UL_COMPARE_AND_WAIT false i (ulk s).

(** [_dispatch_thread_event_wait]. *)
Definition thread_event_wait (s : shared) : shared * pc :=
  let v := u32 (dte_value s - 1) in
  let s := set_value v s in
  if v =? 0 then (s, Destroy) else (s, WaitSlow).

(** The loop of [_dispatch_thread_event_wait_slow] up to the system call. *)
Definition thread_event_wait_slow (s : shared) : res (shared * pc) :=
  if dte_value s =? 0 then Ok (s, Destroy)
  else if negb (dte_value s =? UINT32_MAX) then Crash AssertFail
  else Ok (s, WaitUlock).

(** The system call returns: an assertion, and the next round. *)
Definition event_waited (rc : Z) (s : shared) : res (shared * pc) :=
  match dlock_wait_ret 0 rc with
  | WaitDone rc => if (rc =? 0) || (rc =? EFAULT) || (rc =? EINTR) then Ok (s, WaitSlow) else Crash AssertFail
  | WaitAgain => Ok (s, WaitUlock)
  | WaitCrash => Crash AssertFail
  end.

Definition event_ulock (tids : list Z) (i : nat) (s : shared) : res (shared * pc) :=
  match ulock_wait tids UL_COMPARE_AND_WAIT i (dte_value s) UINT32_MAX (ulk s) with
  | (u, Asleep) => Ok (set_ulk u s, WaitSleep)
  | (u, Returned rc) => event_waited rc (set_ulk u s)
  end.

Definition event_continue (ret : Z) (s : shared) : res (shared * pc) :=
  match ulk s with
  | None => Crash AssertFail
  | Some u => let '(u', rc) := ulock_wait_continue ret u in event_waited rc (set_ulk u' s)
  end.

(** Asleep, the thread can be interrupted; woken, it returns. *)
Definition event_sleep (i : nat) (s : shared) : list (res (shared * pc)) :=
  match ulk s with
  | None => [Crash AssertFail]
  | Some u =>
      if bool_decide (i ∈ ull_waitq u) then
        match intr s with
        | O => []
        | S n =>
            let u' := {| ull_owner := ull_owner u; ull_nwaiters := ull_nwaiters u;
                         ull_opcode := ull_opcode u; ull_waitq := leave i (ull_waitq u) |} in
            [Ok ({| dte_value := dte_value s; ulk := Some u'; intr := n |}, WaitInterrupted)]
        end
      else [event_continue 0 s]
  end.

(** [_dispatch_thread_event_destroy]. *)
Definition thread_event_destroy (s : shared) : res (shared * pc) :=
  if dte_value s =? 0 then Ok (s, Done) else Crash AssertFail.

Definition next (tids : list Z) (i : nat) (s : shared) (p : pc) : list (res (shared * pc)) :=
  match p with
  | ToSignal => [Ok (thread_event_signal s)]
  | SignalSlow => thread_event_signal_slow i s
  | ToWait => [Ok (thread_event_wait s)]
  | WaitSlow => [thread_event_wait_slow s]
  | WaitUlock => [event_ulock tids i s]
  | WaitSleep => event_sleep i s
  | WaitInterrupted => [event_continue EINTR s]
  | Destroy => [thread_event_destroy s]
  | Done => []
  end.

(** The waiter and the signaller. *)
Definition start (n : nat) : conf shared pc := Conf (thread_event_init n) [ToWait; ToSignal].

End ThreadEvent.
Import Ulock ThreadEvent.

(** ** The invariant *)

Definition one_waiter (q : list nat) : option ull :=
  Some {| ull_owner := None; ull_nwaiters := 1; ull_opcode := UL_COMPARE_AND_WAIT; ull_waitq := q |}.

(** Where the waiter and the signaller are. *)
Inductive EInv : conf shared pc -> Prop :=
  | ei_start n : EInv (Conf {| dte_value := 0; ulk := None; intr := n |} [ToWait; ToSignal])
  | ei_first n : EInv (Conf {| dte_value := 1; ulk := None; intr := n |} [ToWait; Done])
  | ei_waits n p : p = WaitSlow \/ p = WaitUlock ->
      EInv (Conf {| dte_value := UINT32_MAX; ulk := None; intr := n |} [p; ToSignal])
  | ei_asleep n : EInv (Conf {| dte_value := UINT32_MAX; ulk := one_waiter [0%nat]; intr := n |} [WaitSleep; ToSignal])
  | ei_intr n : EInv (Conf {| dte_value := UINT32_MAX; ulk := one_waiter []; intr := n |} [WaitInterrupted; ToSignal])
  | ei_wakes n : EInv (Conf {| dte_value := 0; ulk := one_waiter [0%nat]; intr := n |} [WaitSleep; SignalSlow])
  | ei_woken n p g : p = WaitSleep \/ p = WaitInterrupted -> g = SignalSlow \/ g = Done ->
      EInv (Conf {| dte_value := 0; ulk := one_waiter []; intr := n |} [p; g])
  | ei_ends n p g : p = WaitSlow \/ p = WaitUlock \/ p = Destroy \/ p = Done -> g = SignalSlow \/ g = Done ->
      EInv (Conf {| dte_value := 0; ulk := None; intr := n |} [p; g]).

(** The measure: what is left to do, then the way through the loop. *)
Definition event_weight (p : pc) : nat :=
  match p with
  | ToSignal => 2 | SignalSlow => 1
  | ToWait => 3 | WaitSlow | WaitUlock | WaitSleep | WaitInterrupted => 2
  | Destroy => 1 | Done => 0
  end.

Definition event_rank (v : Z) (p : pc) : nat :=
  match p with
  | WaitSlow => if v =? 0 then 1 else 3
  | WaitUlock => 2
  | WaitSleep => if v =? 0 then 3 else 1
  | WaitInterrupted => 4
  | _ => 0
  end.

Definition event_measure (c : conf shared pc) : nat :=
  (tsum event_weight (c_thr c) + intr (c_sh c)) * 10 + tsum (event_rank (dte_value (c_sh c))) (c_thr c).

(** Evaluates the outcomes of a step. *)
Ltac event_outcomes H :=
  match type of H with ?r ∈ ?l => let l' := eval vm_compute in l in change (r ∈ l') in H end;
  repeat match type of H with
  | _ ∈ match ?n with O => _ | S _ => _ end => destruct n
  | _ ∈ [] => by apply elem_of_nil in H
  | _ ∈ [_] => apply list_elem_of_singleton in H as ->
  end.

Ltac event_inv :=
  first [apply ei_first | apply ei_waits; auto; fail | apply ei_asleep | apply ei_intr | apply ei_wakes
        | apply ei_woken; auto; fail | apply ei_ends; auto; fail].

(** The outcomes of a step of either thread: none is a crash, and each keeps
    the invariant and lowers the measure. *)
Lemma event_next tids s ls i p r :
  EInv (Conf s ls) -> ls !! i = Some p -> r ∈ next tids i s p ->
  exists s' p', r = Ok (s', p') /\ EInv (Conf s' (<[i := p']> ls)) /\
    (event_measure (Conf s' (<[i := p']> ls)) < event_measure (Conf s ls))%nat.
Proof.
  intros I Hp Hr. inversion I; subst; clear I; repeat match goal with H : _ \/ _ |- _ => destruct H end; subst;
    destruct i as [|[|i]]; simplify_eq/=; event_outcomes Hr;
    (do 2 eexists; split; [reflexivity|]; split; [event_inv|unfold event_measure, isum; simpl; lia]).
Qed.

Lemma einv_step tids c c' : EInv c -> step (next tids) c c' -> EInv c' /\ (event_measure c' < event_measure c)%nat.
Proof.
  intros I Hs. destruct Hs as [i s ls l s' l' Hl Hn].
  by destruct (event_next tids s ls i l _ I Hl Hn) as (? & ? & [= <- <-] & ?).
Qed.

Lemma einv_rtc tids n c : rtc (step (next tids)) (start n) c -> EInv c.
Proof.
  intros Hr. eapply inv_rtc; [|exact Hr|apply ei_start]. intros c1 c2 I Hs. by eapply einv_step.
Qed.

(** [C17] A thread event hands over exactly once.  In every interleaving of the
    waiter with the signaller and with interruptions, no assertion fails, and
    the waiter only returns after the signal; every run ends, and in the end
    both have returned, the event is in its initial state, and nobody is in
    the kernel. *)
Theorem thread_event_handshake tids n :
  sn (step (next tids)) (start n) /\
  forall c, rtc (step (next tids)) (start n) c ->
    ~ may_crash (next tids) c /\
    (c_thr c !! 0%nat = Some Destroy \/ c_thr c !! 0%nat = Some Done -> c_thr c !! 1%nat <> Some ToSignal) /\
    (nf (step (next tids)) c ->
       c_thr c = [Done; Done] /\ dte_value (c_sh c) = 0 /\ ulk (c_sh c) = None).
Proof.
  split.
  { apply (sn_measure (next tids) EInv event_measure); [apply einv_step|apply ei_start]. }
  intros c I%einv_rtc. split_and!.
  - intros (i & l & w & Hl & Hn). destruct c as [s ls].
    by destruct (event_next tids s ls i l _ I Hl Hn) as (? & ? & ? & _).
  - inversion I; subst; simpl; intuition congruence.
  - intros Hnf. destruct c as [s ls].
    assert (forall i p r rs, ls !! i = Some p -> next tids i s p <> r :: rs) as Hstuck.
    { intros i p r rs Hp He. destruct (event_next tids s ls i p r I Hp) as (s' & p' & -> & _); [rewrite He; by left|].
      eapply nf_next; [exact Hnf|exact Hp|]. rewrite He. by left. }
    pose proof (Hstuck 0%nat) as H0. pose proof (Hstuck 1%nat) as H1. clear Hstuck Hnf.
    inversion I; subst; clear I; repeat match goal with H : _ \/ _ |- _ => destruct H end; subst; try done;
      exfalso; (eapply H0; [done|vm_compute; reflexivity]) || (eapply H1; [done|vm_compute; reflexivity]).
Qed.

(** The waiter sleeps, is interrupted, sleeps again, and is woken. *)
Example event_run tids :
  exec (next tids) [(0, 0); (0, 0); (0, 0); (0, 0); (0, 0); (0, 0); (1, 0); (1, 0); (0, 0); (0, 0); (0, 0)]%nat (start 1)
  = Some (Conf (thread_event_init 0) [Done; Done]).
Proof. reflexivity. Qed.
